(* ===== verification/_CoqProject ===== *)
-Q . S2P
Prelude.v
Bits.v
LinkedList.v
Timer.v
Schedule.v
SchedIorr.v
SortedQueue.v
SchedBvt.v
SchedPrio.v
SchedTheorems.v
Event.v
Irq.v
Sbuf.v
Vuart.v
Vpic.v
Pgtable.v
S2vm.v
IoReq.v
Vcpu.v
Vclint.v
Vmexit.v
VmLife.v
CString.v
Sprintf.v
Shell.v
Vrtc.v
Ptdev.v
PtdevInv.v
Assign.v
PtdevRuns.v
Vioapic.v
VioapicInv.v
VioapicRuns.v
X86Irq.v
Ioapic.v
IoapicInv.v
IoapicRuns.v
Notify.v
