(* ===== verification/Prelude.v ===== *)
(** * ACRN, RISC-V port: a verification development of the hypervisor core

    ** The program

    ACRN is a type-1 hypervisor. On every physical CPU a scheduler runs
    threads, most of which are virtual CPUs; a policy (round robin, borrowed
    virtual time, fixed priority, or a single thread) decides which runs next,
    driven by per-CPU timers. A vCPU leaves the guest on an interrupt, on an
    exception or on an access to an emulated device. Device accesses are served
    by emulation in the hypervisor (UART, PIC, I/O APIC, CLINT), or handed to the device
    model of the Service VM through a shared page and a shared ring. Guest
    memory is mapped by stage-2 page tables. Interrupts of devices that are
    passed through to a VM go from the handler of the hypervisor through a
    softirq, for some VMs after a delay, to the VM that holds them. A shell on
    the console edits lines and runs commands, and prints through a printf of
    its own.

    ** Files

    Paths are relative to src/hypervisor.
    - [Prelude] (this file): record update, words, tactics, hint databases,
      lemmas on lists, options and integers shared by the components.
    - [Bits]: arch/riscv/lib/bits.c and asm/lib/bits.h of both architectures.
      The class [BitmapOps] is what the generic code uses of them, [BitmapSpec]
      what it relies on; clients are proved against the classes.
    - [LinkedList]: include/lib/list.h on a heap of pointers, refined to
      sequences, which the other components use.
    - [Timer]: common/ticks.c, common/timer.c, arch/riscv/timer.c.
    - [Schedule], [SchedTheorems]: common/schedule.c for any policy that meets
      the class [RunQueue]; [SchedIorr], [SchedBvt], [SchedPrio]:
      common/sched_iorr.c, sched_bvt.c, sched_prio.c and sched_noop.c, each with
      its instance of the class; [SortedQueue]: the insertion loop two of them
      share.
    - [Event]: common/event.c, with the interleavings of waiter and signaller.
    - [Irq]: common/softirq.c and common/irq.c.
    - [Sbuf]: common/sbuf.c (writer), misc/debug_tools/acrn_trace/sbuf.c
      (reader), debug/sbuf.c.
    - [Vuart]: dm/vuart.c. [Vpic]: dm/vpic.c and the delivery of
      arch/x86/guest/virq.c. [Vrtc]: dm/vrtc.c.
    - [Pgtable]: arch/riscv/pgtable.c, pager.c, asm/pgtable.h. [S2vm]:
      arch/riscv/guest/s2vm.c, the copies of guest_memory.c, and the mapping of
      guest memory in guest/vm.c.
    - [IoReq]: dm/io_req.c, the hypercalls that set up the shared page and report
      completions (common/hypercall.c), arch/riscv/guest/instr_emul.c.
    - [Vcpu]: arch/riscv/guest/vcpu.c, vmcs.c, virq.c. [Vclint]:
      arch/riscv/guest/vclint.c. [Vmexit]: arch/riscv/guest/vmexit.c, virq.c and
      the vCPU loop of common/hv_main.c, with the steps of a vCPU among those of
      the rest of the system. [VmLife]: creation, launch, pause and reset of
      vCPUs and VMs.
    - [CString]: lib/string.c, debug/string.c and the memory routines.
      [Sprintf]: lib/sprintf.c and debug/printf.c. [Shell]: debug/shell.c.
    - [Ptdev]: common/ptdev.c, with its timers from [Timer] and its interrupts
      from [Irq]. [Assign]: arch/x86/guest/assign.c. [PtdevInv]: the invariant of
      the entries and what each operation does to it. [PtdevRuns]: interrupts,
      timers, softirq turns and operations of the VMs in any order.
    - [Vioapic]: dm/vioapic.c, whose lines [Assign] drives and whose guest
      accesses call [Assign]. [VioapicInv]: the invariant of the chips, and that
      the two together keep theirs. [VioapicRuns]: passthrough events, line
      changes, accesses, ends of interrupt and resets in any order.
    - [X86Irq]: the interrupt vectors of arch/x86/irq.c, on top of [Irq].
      [Ioapic]: arch/x86/ioapic.c, and the dispatch of arch/x86/irq.c.
      [IoapicInv]: the table of GSIs at boot, which meets the interface that
      [Vioapic] uses ([booted_laws]). [IoapicRuns]: requests, releases, masking
      and interrupts in any order, suspend and resume.
    - [Notify]: calls of functions on other CPUs. [X86Notify] has the steps of
      callers and handlers of arch/x86/notify.c in any interleaving, [RvNotify]
      arch/riscv/notify.c and clint.c.

    ** Conventions

    A definition has the name of the C function it models where the name is
    free, a record the name of the struct. Machine words are [Z] with the
    wrap-around written out ([u32], [u64], ...). [None] is undefined behaviour
    of the C code (a NULL or out-of-range access, a division by zero, a failed
    assertion); error codes are values. A function that holds a lock over its
    accesses to the state of the model is one step; code that gives up the lock
    or blocks is split at these points and its interleavings are a step
    relation. Code outside src/hypervisor that a component calls, hardware
    registers and the clock are parameters or recorded effects.

    ** Theorems

    - Scheduling: any run of scheduler operations from boot keeps exactly one
      running thread and the queue of exactly the runnable ones
      ([sched_runs_keep_invariant]), schedule() switches to the thread the policy
      picks ([schedule_switches]); per policy, what is picked and what is fair
      ([iorr_round_robin], [bvt_runs_earliest], [prio_runs_highest], ...).
    - Events: no signal is lost in any interleaving ([signal_not_lost]).
    - Timers: the handlers terminate, run exactly the expired timers in order
      and re-arm ([rv_handler_runs_expired], [x86_softirq_bounded]).
    - Lists, rings, tables: the pointer and array code refines sequences, bounded
      queues and sets of ranges ([list_ops_refine_sequences],
      [sbuf_refines_queue], [mmio_dispatch_refines], [asyncio_refines]).
    - Memory: adding maps exactly the range, deleting removes exactly it, other
      VMs keep their mappings ([mmu_add_maps], [mmu_modify_or_del_exact],
      [s2pt_updates_isolated]), lookup agrees with the walk of the hardware.
    - Devices: safety of all runs of the UART, its line and its link
      ([vuart_runs_safe], [vuart_line_tracks], [vuart_link_delivers]); the
      priority logic and the delivery of the PIC; the CLINT timer reaches the
      vCPU when due ([vclint_timer_delivers]).
    - I/O requests: each request of a vCPU is answered exactly once and in order,
      whatever the Service VM and the other vCPUs do ([ioreq_exactly_once],
      [ioreq_completes]).
    - vCPUs: the loop of a vCPU never fails and serves the pending requests, a
      halted vCPU wakes ([vcpu_loop_safe], [pending_requests_served],
      [halted_vcpu_wakes]); faults escalate as they should ([fault_escalation]); a
      switch keeps the guest context ([context_switch_round_trip]); a started VM
      runs the vCPUs that were created ([vm_starts_created_vcpus]).
    - Passthrough interrupts: an interrupt stays scheduled until it is injected
      ([ptirq_not_lost], [ptirq_softirq_delivers]), a source and a pin have one
      holder ([sources_exclusive]), and other VMs cannot take it
      ([vm_keeps_interrupts]).
    - I/O APIC: no asserted level-triggered pin is forgotten in any run
      ([vioapic_level_held]), what is sent is the message of an unmasked pin
      ([vioapic_messages_sound]), guests read back what they write
      ([vioapic_rte_round_trip]), and a passthrough interrupt goes from the
      softirq to the guest and through its end back to the device
      ([passthrough_level_cycle]).
    - Interrupts of the platform: boot gives every pin its GSI, masked
      ([ioapic_boot_exact]); a registered action is called by its vector and by
      no other, after any events ([x86_interrupt_delivered]); a level-triggered
      pin of a passthrough device stays masked after its interrupt
      ([level_pin_masking]); suspend and resume keep the entries
      ([suspend_resume_round_trip]).
    - Calls on other CPUs: whatever the interleaving, each CPU runs the functions
      of the calls for it once and in order, and has run them when a call returns
      ([smp_call_exact]), as long as no notification comes from elsewhere
      ([kick_between_calls]); the return can fail to come ([lost_clear_stuck]); on
      RISC-V the notifications are not sent ([rv_smp_call_needs_kicks]).
    - Text: the output is the text of the format, cut at the buffer
      ([vsnprintf_stores_text], [charmem_bounds]), numbers read back
      ([numbers_round_trip]), the line editor refines a line with a cursor
      ([shell_edits_line]) and a command gets its words ([shell_runs_command]).
    - Clock: what a guest sets it reads back, later, and never earlier than what it
      has read ([vrtc_set_then_read], [vrtc_never_goes_back]).
    - Where the code does not do what it means to, a theorem states what it does
      (e.g. [riscv_irq_never_dispatched], [gpa2hpa_misreads]).

    ** Fuel and bounds

    Loops over lists and tables are structural or take a fuel that the callers
    fix from the size of the data ([RvTimer.handler_fuel], the number of nodes of
    a queue, the number of entries of a table); the theorems prove that this fuel
    is enough. The formatter takes the length of the format, the calendar 70
    years and 13 months, the search of destination CPUs the 64 bits of the mask,
    the passthrough softirq one turn more than the queue is long. Loops that poll
    hardware take the stream of values read.

    ** Not modelled

    The x86 architecture code other than the parts named above (it is not built
    for this port), the device model (devicemodel/) and the Service-VM tools
    (misc/), which are user-space programs of another VM with their own threads
    and file I/O; boot code and assembly (register save and restore, trap
    vectors), which has no C semantics; virtual PCI, and the hypercalls that only
    check parameters for it; the commands of the shell, the log and the traces,
    which print the state of other components; gva2gpa (it reads fields that are
    never initialised); configuration data generated at build time. *)

From Stdlib Require Export ZArith Lia.
From stdpp Require Export base numbers gmap fin_maps strings option list.

#[export] Set Default Goal Selector "!".
Open Scope Z_scope.

(** ** Functional record update

    C code assigns struct fields one at a time.  [r ⟨ f := v ⟩] is the
    record [r] after the assignment [r->f = v].  A setter is derived from the
    eta-expansion of the record, registered once per record as an [Eta]
    instance. *)

Definition rd {E T : Type} (x : T) : E → T := λ _, x.
Definition rap {E A B : Type} (f : E → A → B) (x : E → A) : E → B :=
  λ r, f r (x r).

Class Eta (R : Type) := MkEta { eta : R → R }.
(** The tag keeps instance search from making up a setter. *)
Definition tagged (R : Type) : Type := R.
#[global] Typeclasses Opaque tagged.
Class Setter {R T : Type} (proj : R → T) := setter : (T → T) → R → tagged R.
#[global] Hint Mode Setter + + + : typeclass_instances.

Definition upd {R T : Type} (proj : R → T) {s : Setter proj} (f : T → T) (r : R) : R :=
  s f r.

Ltac derive_setter :=
  lazymatch goal with
  | |- @Setter ?R ?T ?proj =>
      let inst := constr:(ltac:(typeclasses eauto) : Eta R) in
      lazymatch eval hnf in inst with
      | MkEta _ ?e =>
          lazymatch eval pattern proj in e with
          | ?abs _ =>
              let s := eval cbv beta delta [rd rap] in
                (fun (f : T → T) (r : R) => abs (fun r => f (proj r)) r) in
              exact s
          end
      end
  end.

#[export] Hint Extern 1 (Setter _) => derive_setter : typeclass_instances.

Declare Scope acrn_scope.
Delimit Scope acrn_scope with acrn.

Notation "f '<*>' x" := (rap f x)
  (at level 50, left associativity, only parsing) : acrn_scope.
Notation "r ⟨ f := v ⟩" := (upd f (λ _, v) r)
  (at level 1, left associativity, format "r ⟨ f  :=  v ⟩") : acrn_scope.

(** ** Machine words

    A w-bit unsigned C integer is a [Z] in [0, 2^w); [uN] is the implicit
    conversion to that type and [sN] the conversion to the signed type. *)

Definition u8 (x : Z) : Z := x mod 2 ^ 8.
Definition u16 (x : Z) : Z := x mod 2 ^ 16.
Definition u32 (x : Z) : Z := x mod 2 ^ 32.
Definition u64 (x : Z) : Z := x mod 2 ^ 64.

Definition signed (w x : Z) : Z :=
  let y := x mod 2 ^ w in if y <? 2 ^ (w - 1) then y else y - 2 ^ w.
Definition s32 (x : Z) : Z := signed 32 x.
Definition s64 (x : Z) : Z := signed 64 x.

(** Bitwise operators of C. [~x] at width w is [bnot w x]. *)
Notation "x &&& y" := (Z.land x y) (at level 40, left associativity) : acrn_scope.
Notation "x ||| y" := (Z.lor x y) (at level 50, left associativity) : acrn_scope.
Definition bnot (w x : Z) : Z := Z.ldiff (Z.ones w) x.

Open Scope acrn_scope.

(** [x] is a w-bit unsigned value. *)
Definition word (w x : Z) : Prop := 0 ≤ x < 2 ^ w.

(** C truth of an integer expression. *)
Definition nonzero (x : Z) : bool := negb (x =? 0).

(** ** Tactics *)

(** Case analysis on the condition of the innermost [if] of the goal or of a
    hypothesis, with the Z comparisons reflected. *)
Ltac case_if_in_goal :=
  match goal with
  | |- context [if ?b then _ else _] =>
      lazymatch b with
      | context [if _ then _ else _] => fail
      | _ => let E := fresh "E" in destruct b eqn:E
      end
  end.
Ltac case_if_in_hyp :=
  match goal with
  | H : context [if ?b then _ else _] |- _ =>
      lazymatch b with
      | context [if _ then _ else _] => fail
      | _ => let E := fresh "E" in destruct b eqn:E
      end
  end.
Ltac case_if := first [case_if_in_goal | case_if_in_hyp].

Ltac zreflect :=
  repeat match goal with
  | H : (_ =? _) = true |- _ => apply Z.eqb_eq in H
  | H : (_ =? _) = false |- _ => apply Z.eqb_neq in H
  | H : (_ <? _) = true |- _ => apply Z.ltb_lt in H
  | H : (_ <? _) = false |- _ => apply Z.ltb_ge in H
  | H : (_ <=? _) = true |- _ => apply Z.leb_le in H
  | H : (_ <=? _) = false |- _ => apply Z.leb_gt in H
  | H : (_ && _)%bool = true |- _ => apply andb_true_iff in H as [? ?]
  | H : (_ || _)%bool = false |- _ => apply orb_false_iff in H as [? ?]
  | H : negb _ = true |- _ => apply negb_true_iff in H
  | H : negb _ = false |- _ => apply negb_false_iff in H
  | H : nonzero _ = true |- _ => unfold nonzero in H
  | H : nonzero _ = false |- _ => unfold nonzero in H
  end.

(** Evaluate the Z comparisons of the goal that [lia] decides. *)
Ltac zcmp :=
  repeat match goal with
  | |- context [?a <=? ?b] =>
      first [ replace (a <=? b) with true by (symmetry; apply Z.leb_le; lia)
            | replace (a <=? b) with false by (symmetry; apply Z.leb_gt; lia) ]
  | |- context [?a <? ?b] =>
      first [ replace (a <? b) with true by (symmetry; apply Z.ltb_lt; lia)
            | replace (a <? b) with false by (symmetry; apply Z.ltb_ge; lia) ]
  | |- context [?a =? ?b] =>
      first [ replace (a =? b) with true by (symmetry; apply Z.eqb_eq; lia)
            | replace (a =? b) with false by (symmetry; apply Z.eqb_neq; lia) ]
  end; simpl.

(** Close a goal of boolean connectives by cases on its atoms. *)
Ltac bsolve :=
  repeat match goal with
  | |- context [Z.testbit ?x ?i] => destruct (Z.testbit x i)
  end; done.

(** Concrete lists of words in range. *)
Ltac solve_words :=
  repeat first
    [ apply Forall_nil_2
    | apply Forall_cons_2; [split; by vm_compute|] ].

(** ** Hint databases *)

Create HintDb words.
Create Rewrite HintDb zbits.

(** ** Facts on machine words *)

Lemma word_u8 x : word 8 (u8 x).
Proof. apply Z.mod_pos_bound. lia. Qed.
Lemma word_u16 x : word 16 (u16 x).
Proof. apply Z.mod_pos_bound. lia. Qed.
Lemma word_u32 x : word 32 (u32 x).
Proof. apply Z.mod_pos_bound. lia. Qed.
Lemma word_u64 x : word 64 (u64 x).
Proof. apply Z.mod_pos_bound. lia. Qed.

Lemma u8_id x : word 8 x → u8 x = x.
Proof. intros. apply Z.mod_small. assumption. Qed.
Lemma u32_id x : word 32 x → u32 x = x.
Proof. intros. apply Z.mod_small. assumption. Qed.
Lemma u64_id x : word 64 x → u64 x = x.
Proof. intros. apply Z.mod_small. assumption. Qed.

Lemma s64_small x : - 2 ^ 63 ≤ x < 2 ^ 63 → s64 x = x.
Proof.
  intros Hx. unfold s64, signed. destruct (decide (0 ≤ x)).
  - rewrite Z.mod_small by lia. case_if; [done|]. zreflect. lia.
  - replace (x mod 2 ^ 64) with (x + 2 ^ 64).
    + case_if; zreflect; lia.
    + symmetry. rewrite <- (Z_mod_plus_full x 1). apply Z.mod_small. lia.
Qed.

Lemma s64_range x : - 2 ^ 63 ≤ s64 x < 2 ^ 63.
Proof.
  unfold s64, signed. pose proof (Z.mod_pos_bound x (2 ^ 64) ltac:(lia)).
  case_if; zreflect; lia.
Qed.

Lemma word_mono w w' x : 0 ≤ w ≤ w' → word w x → word w' x.
Proof.
  unfold word. intros Hw [? ?].
  pose proof (Z.pow_le_mono_r 2 w w'). lia.
Qed.

Lemma word_bits w x :
  0 ≤ w → word w x ↔ 0 ≤ x ∧ ∀ i, w ≤ i → Z.testbit x i = false.
Proof.
  intros Hw. unfold word. split.
  - intros [? ?]. split; [lia|].
    apply (proj1 (Z.bounded_iff_bits_nonneg w x ltac:(lia) ltac:(lia))). lia.
  - intros [? Hb]. split; [lia|].
    apply (proj2 (Z.bounded_iff_bits_nonneg w x ltac:(lia) ltac:(lia))).
    intros i ?. apply Hb. lia.
Qed.

Lemma word_testbit_high w x i : 0 ≤ w ≤ i → word w x → Z.testbit x i = false.
Proof. intros [? ?] Hx. apply word_bits in Hx as [_ Hx]; auto. Qed.

Lemma word_lor w x y : 0 ≤ w → word w x → word w y → word w (x ||| y).
Proof.
  intros Hw. rewrite !word_bits by done. intros [? Hx] [? Hy]. split.
  - apply Z.lor_nonneg; lia.
  - intros i ?. rewrite Z.lor_spec, Hx, Hy; done.
Qed.

Lemma word_land_l w x y : 0 ≤ w → word w x → word w (x &&& y).
Proof.
  intros Hw. rewrite !word_bits by done. intros [? Hx]. split.
  - apply Z.land_nonneg; lia.
  - intros i ?. rewrite Z.land_spec, Hx; done.
Qed.

Lemma word_land_r w x y : 0 ≤ w → word w y → word w (x &&& y).
Proof. rewrite Z.land_comm. apply word_land_l. Qed.

Lemma word_ldiff w x y : 0 ≤ w → word w x → word w (Z.ldiff x y).
Proof.
  intros Hw. rewrite !word_bits by done. intros [? Hx]. split.
  - apply Z.ldiff_nonneg; lia.
  - intros i ?. rewrite Z.ldiff_spec, Hx; done.
Qed.

Lemma word_pow2 w n : 0 ≤ n < w → word w (2 ^ n).
Proof.
  intros. split; [lia|]. apply Z.pow_lt_mono_r; lia.
Qed.

Lemma word_bnot w x : 0 ≤ w → word w (bnot w x).
Proof.
  intros. apply word_ldiff; [done|]. unfold word. rewrite Z.ones_equiv. lia.
Qed.

#[export] Hint Resolve word_u8 word_u16 word_u32 word_u64 word_lor word_land_l
  word_ldiff word_bnot : words.

Lemma bnot_testbit w x i :
  0 ≤ w → 0 ≤ i → Z.testbit (bnot w x) i = (i <? w) && negb (Z.testbit x i).
Proof.
  intros. unfold bnot. rewrite Z.ldiff_spec, Z.testbit_ones_nonneg by done. done.
Qed.

Lemma bnot_involutive w x : 0 ≤ w → word w x → bnot w (bnot w x) = x.
Proof.
  intros Hw Hx. apply Z.bits_inj_iff'. intros i Hi.
  rewrite !bnot_testbit by done. destruct (i <? w) eqn:E; zreflect; simpl.
  - by rewrite negb_involutive.
  - by rewrite (word_testbit_high w) by (auto || lia).
Qed.

Lemma bnot_zero w x : 0 ≤ w → word w x → bnot w x = 0 ↔ x = Z.ones w.
Proof.
  intros Hw Hx. split.
  - intros E. rewrite <- (bnot_involutive w x), E by done.
    unfold bnot. apply Z.ldiff_0_r.
  - intros ->. unfold bnot. apply Z.ldiff_diag.
Qed.

(** ** Single bits *)

Lemma testbit_pow2 n i : 0 ≤ n → Z.testbit (2 ^ n) i = bool_decide (i = n).
Proof.
  intros. case_bool_decide; subst.
  - by apply Z.pow2_bits_true.
  - apply Z.pow2_bits_false. lia.
Qed.

Lemma land_pow2_nonzero x n :
  0 ≤ n → nonzero (x &&& 2 ^ n) = Z.testbit x n.
Proof.
  intros Hn. unfold nonzero.
  destruct (Z.testbit x n) eqn:E.
  - apply negb_true_iff, Z.eqb_neq. intros Hz.
    apply (f_equal (λ z, Z.testbit z n)) in Hz.
    rewrite Z.land_spec, E, Z.pow2_bits_true, Z.bits_0 in Hz by done. done.
  - apply negb_false_iff, Z.eqb_eq. apply Z.bits_inj_iff'. intros i Hi.
    rewrite Z.land_spec, testbit_pow2, Z.bits_0 by done.
    case_bool_decide; subst; [by rewrite E | by rewrite andb_false_r].
Qed.

Lemma lor_pow2_testbit x n i :
  0 ≤ n → Z.testbit (x ||| 2 ^ n) i = Z.testbit x i || bool_decide (i = n).
Proof. intros. by rewrite Z.lor_spec, testbit_pow2. Qed.

Lemma ldiff_pow2_testbit x n i :
  0 ≤ n → Z.testbit (Z.ldiff x (2 ^ n)) i = Z.testbit x i && negb (bool_decide (i = n)).
Proof. intros. by rewrite Z.ldiff_spec, testbit_pow2. Qed.

#[export] Hint Rewrite Z.land_spec Z.lor_spec Z.ldiff_spec Z.lnot_spec Z.bits_0
  : zbits.

(** ** Lists *)

Section lists.
Context {A : Type}.
Implicit Types l : list A.

Lemma lookup_total_app_l `{!Inhabited A} l k (i : nat) :
  (i < length l)%nat → (l ++ k) !!! i = l !!! i.
Proof.
  intros. rewrite !list_lookup_total_alt. by rewrite lookup_app_l.
Qed.

Lemma nth_nil (d : A) n : nth n [] d = d.
Proof. by destruct n. Qed.

Lemma filter_keeps_all (P : A → Prop) `{!∀ x, Decision (P x)} l :
  (∀ x, x ∈ l → P x) → filter P l = l.
Proof.
  induction l as [|x l IH]; intros Hl; [done|].
  rewrite filter_cons_True by (apply Hl; set_solver). rewrite IH; [done|set_solver].
Qed.
End lists.
