(* ===== verification/Bits.v ===== *)
(** * Bit operations

    [RvBits] models the RISC-V bit library: hypervisor/arch/riscv/lib/bits.c
    and the inline functions of hypervisor/include/arch/riscv/asm/lib/bits.h.
    [X86Bits] models the bitmap primitives of
    hypervisor/include/arch/x86/asm/lib/bits.h.  The generic code of
    hypervisor/common is compiled against either of them: [BitmapOps] is the
    interface it uses and [BitmapSpec] what it relies on. *)

From S2P Require Import Prelude.

(** ** The instructions the inline assembly names

    [ctz]/[clz] are the Zbb count instructions (an all-zero operand gives the
    width), [cpop] the population count behind __builtin_popcountl. *)

Fixpoint ctz_pos (p : positive) : Z :=
  match p with
  | xO q => 1 + ctz_pos q
  | _ => 0
  end.

Definition ctz (w x : Z) : Z :=
  match x with
  | Zpos p => ctz_pos p
  | _ => w
  end.

Definition clz (w x : Z) : Z := if x =? 0 then w else w - 1 - Z.log2 x.

Fixpoint cpop_pos (p : positive) : Z :=
  match p with
  | xH => 1
  | xO q => cpop_pos q
  | xI q => 1 + cpop_pos q
  end.

Definition cpop (x : Z) : Z :=
  match x with
  | Zpos p => cpop_pos p
  | _ => 0
  end.

Module RvBits.

Definition BITS_PER_LONG : Z := 64.
Definition BITOP_BITS_PER_WORD : Z := 32.

(** The C expression [1 << nr] has type int: RV64 [sllw] shifts by the low
    five bits of [nr] and yields a sign-extended 32-bit result. *)
Definition int_1_shl (nr : Z) : Z := s32 (2 ^ (nr mod 32)).

Definition set_bit (nr p : Z) : Z := u64 (p ||| int_1_shl nr).
Definition clear_bit (nr p : Z) : Z := u64 (p &&& Z.lnot (int_1_shl nr)).
Definition test_bit (nr bits : Z) : bool := nonzero (u64 (bits &&& int_1_shl nr)).

(** The read-modify-write variants are stubs: they return 0 and leave the
    word alone. *)
Definition test_and_set_bit (nr p : Z) : Z * Z := (0, p).
Definition test_and_clear_bit (nr p : Z) : Z * Z := (0, p).
Definition test_and_change_bit (nr p : Z) : Z * Z := (0, p).

Definition bit_weight (bits : Z) : Z := cpop bits.

Definition ffsl (x : Z) : Z := ctz 64 x.
Definition ffz (x : Z) : Z := ffsl (bnot 64 x).
Definition flsl (x : Z) : Z := BITS_PER_LONG - 1 - clz 64 x.
Definition ffs (x : Z) : Z := s32 (ctz 32 x + 1).
Definition fls (x : Z) : Z := 32 - clz 32 x.
Definition find_first_set_bit (x : Z) : Z := u32 (ffsl x - 1).

(** Non-atomic test-and-modify on an array of 32-bit words; [None] is an
    access outside the array. *)
Definition BITOP_MASK (nr : Z) : Z := u32 (Z.shiftl 1 (nr mod BITOP_BITS_PER_WORD)).
Definition BITOP_WORD (nr : Z) : nat := Z.to_nat (nr / BITOP_BITS_PER_WORD).

Definition __test_and_set_bit (nr : Z) (addr : list Z) : option (bool * list Z) :=
  let mask := BITOP_MASK nr in
  old ← addr !! BITOP_WORD nr;
  Some (nonzero (old &&& mask), <[BITOP_WORD nr := old ||| mask]> addr).

Definition __test_and_clear_bit (nr : Z) (addr : list Z) : option (bool * list Z) :=
  let mask := BITOP_MASK nr in
  old ← addr !! BITOP_WORD nr;
  Some (nonzero (old &&& mask), <[BITOP_WORD nr := old &&& bnot 32 mask]> addr).

Definition __test_and_change_bit (nr : Z) (addr : list Z) : option (bool * list Z) :=
  let mask := BITOP_MASK nr in
  old ← addr !! BITOP_WORD nr;
  Some (nonzero (old &&& mask), <[BITOP_WORD nr := Z.lxor old mask]> addr).

(** Hamming weights. *)
Definition generic_hweight32 (w : Z) : Z :=
  let w := u32 (w - (Z.shiftr w 1 &&& 0x55555555)) in
  let w := u32 ((w &&& 0x33333333) + (Z.shiftr w 2 &&& 0x33333333)) in
  let w := u32 (w + Z.shiftr w 4) &&& 0x0f0f0f0f in
  let w := u32 (w + Z.shiftr w 8) in
  u32 (w + Z.shiftr w 16) &&& 0xff.

Definition generic_hweight16 (w : Z) : Z :=
  let w := u32 (w - (Z.shiftr w 1 &&& 0x5555)) in
  let w := u32 ((w &&& 0x3333) + (Z.shiftr w 2 &&& 0x3333)) in
  let w := u32 (w + Z.shiftr w 4) &&& 0x0f0f in
  u32 (w + Z.shiftr w 8) &&& 0xff.

Definition generic_hweight8 (w : Z) : Z :=
  let w := u32 (w - (Z.shiftr w 1 &&& 0x55)) in
  let w := u32 ((w &&& 0x33) + (Z.shiftr w 2 &&& 0x33)) in
  u32 (w + Z.shiftr w 4) &&& 0x0f.

Definition generic_hweight64 (w : Z) : Z :=
  let w := u64 (w - (Z.shiftr w 1 &&& 0x5555555555555555)) in
  let w := u64 ((w &&& 0x3333333333333333) + (Z.shiftr w 2 &&& 0x3333333333333333)) in
  let w := u64 (w + Z.shiftr w 4) &&& 0x0f0f0f0f0f0f0f0f in
  let w := u64 (w + Z.shiftr w 8) in
  let w := u64 (w + Z.shiftr w 16) in
  u64 (w + Z.shiftr w 32) &&& 0xff.

(** ** Scans over an array of unsigned long

    A pointer [p] that walks the array is the list of the words still ahead
    of it; [None] is a read past the end. *)

(** The labels found_first and found_middle of find_next_bit. *)
Definition found_middle (tmp result : Z) : Z := u64 (result + ffsl tmp).
Definition found_first (tmp result size : Z) : Z :=
  let tmp := tmp &&& Z.shiftr (Z.ones 64) (BITS_PER_LONG - size) in
  if tmp =? 0 then u64 (result + size) else found_middle tmp result.

Definition more_words (size : Z) : bool := nonzero (Z.ldiff size (BITS_PER_LONG - 1)).

Fixpoint bit_words (p : list Z) (result size : Z) : option Z :=
  match p with
  | [] => if more_words size then None
          else if size =? 0 then Some result else None
  | tmp :: p' =>
      if more_words size then
        if nonzero tmp then Some (found_middle tmp result)
        else bit_words p' (u64 (result + BITS_PER_LONG)) (size - BITS_PER_LONG)
      else if size =? 0 then Some result
      else Some (found_first tmp result size)
  end.

Definition find_first_bit (addr : list Z) (size : Z) : option Z :=
  bit_words addr 0 size.

Definition find_next_bit (addr : list Z) (size offset : Z) : option Z :=
  let p := drop (Z.to_nat (offset / BITS_PER_LONG)) addr in
  let result := Z.ldiff offset (BITS_PER_LONG - 1) in
  if size <=? offset then Some size
  else
    let size := size - result in
    let offset := offset mod BITS_PER_LONG in
    if nonzero offset then
      match p with
      | [] => None
      | tmp :: p' =>
          let tmp := tmp &&& u64 (Z.shiftl (Z.ones 64) offset) in
          if size <? BITS_PER_LONG then Some (found_first tmp result size)
          else if nonzero tmp then Some (found_middle tmp result)
          else bit_words p' (u64 (result + BITS_PER_LONG)) (size - BITS_PER_LONG)
      end
    else bit_words p result size.

(** The same scans for the first zero bit. *)
Definition zfound_middle (tmp result : Z) : Z := u64 (result + ffz tmp).
Definition zfound_first (tmp result size : Z) : Z :=
  let tmp := tmp ||| u64 (Z.shiftl (Z.ones 64) size) in
  if tmp =? Z.ones 64 then u64 (result + size) else zfound_middle tmp result.

Fixpoint zero_words (p : list Z) (result size : Z) : option Z :=
  match p with
  | [] => if more_words size then None
          else if size =? 0 then Some result else None
  | tmp :: p' =>
      if more_words size then
        if nonzero (bnot 64 tmp) then Some (zfound_middle tmp result)
        else zero_words p' (u64 (result + BITS_PER_LONG)) (size - BITS_PER_LONG)
      else if size =? 0 then Some result
      else Some (zfound_first tmp result size)
  end.

Definition find_first_zero_bit (addr : list Z) (size : Z) : option Z :=
  zero_words addr 0 size.

Definition find_next_zero_bit (addr : list Z) (size offset : Z) : option Z :=
  let p := drop (Z.to_nat (offset / BITS_PER_LONG)) addr in
  let result := Z.ldiff offset (BITS_PER_LONG - 1) in
  if size <=? offset then Some size
  else
    let size := size - result in
    let offset := offset mod BITS_PER_LONG in
    if nonzero offset then
      match p with
      | [] => None
      | tmp :: p' =>
          let tmp := tmp ||| Z.shiftr (Z.ones 64) (BITS_PER_LONG - offset) in
          if size <? BITS_PER_LONG then Some (zfound_first tmp result size)
          else if nonzero (bnot 64 tmp) then Some (zfound_middle tmp result)
          else zero_words p' (u64 (result + BITS_PER_LONG)) (size - BITS_PER_LONG)
      end
    else zero_words p result size.

(** ** Bitmap primitives of asm/lib/bits.h *)
Definition bitmap_set_lock (nr w : Z) : Z := u64 (w ||| int_1_shl nr).
Definition bitmap_clear_lock (nr w : Z) : Z := u64 (w &&& Z.lnot (int_1_shl nr)).
Definition bitmap_set_nolock (nr w : Z) : Z := w.
Definition bitmap_clear_nolock (nr w : Z) : bool * Z := (true, w).
Definition bitmap_test_and_set_lock (nr w : Z) : bool * Z := (true, w).
Definition bitmap_test_and_clear_lock (nr w : Z) : bool * Z :=
  if nonzero (u64 (w &&& int_1_shl nr))
  then (true, u64 (w &&& Z.lnot (int_1_shl nr)))
  else (false, w).
Definition bitmap_test (nr w : Z) : bool := nonzero (u64 (w &&& int_1_shl nr)).

Definition ffs64 (x : Z) : Z := ffsl x.
Definition ffz64 (value : Z) : Z := u16 (ffs64 (bnot 64 value)).

(** [for (idx = 0; (idx << 6) < size; idx++)]; the list is the array from
    [idx] on. *)
Fixpoint ffz64_ex_loop (p : list Z) (idx size : Z) : option Z :=
  match p with
  | [] => if Z.shiftl idx 6 <? size then None else Some size
  | w :: p' =>
      if Z.shiftl idx 6 <? size then
        if negb (w =? Z.ones 64) then Some (u64 (Z.shiftl idx 6 + ffz64 w))
        else ffz64_ex_loop p' (idx + 1) size
      else Some size
  end.

Definition ffz64_ex (addr : list Z) (size : Z) : option Z := ffz64_ex_loop addr 0 size.

End RvBits.

Module X86Bits.

Definition INVALID_BIT_INDEX : Z := 0xffff.

(** bsr/bsf with the fall-through that loads INVALID_BIT_INDEX on zero. *)
Definition fls32 (value : Z) : Z :=
  u16 (if value =? 0 then INVALID_BIT_INDEX else Z.log2 value).
Definition fls64 (value : Z) : Z :=
  u16 (if value =? 0 then INVALID_BIT_INDEX else Z.log2 value).
Definition ffs64 (value : Z) : Z :=
  u16 (if value =? 0 then INVALID_BIT_INDEX else ctz 64 value).
Definition ffz64 (value : Z) : Z := ffs64 (bnot 64 value).

Fixpoint ffz64_ex_loop (p : list Z) (idx size : Z) : option Z :=
  match p with
  | [] => if Z.shiftl idx 6 <? size then None else Some size
  | w :: p' =>
      if Z.shiftl idx 6 <? size then
        if negb (w =? Z.ones 64) then Some (u64 (Z.shiftl idx 6 + ffz64 w))
        else ffz64_ex_loop p' (idx + 1) size
      else Some size
  end.
Definition ffz64_ex (addr : list Z) (size : Z) : option Z := ffz64_ex_loop addr 0 size.

Definition clz32 (value : Z) : Z := if nonzero value then u16 (31 - fls32 value) else 32.
Definition clz64 (value : Z) : Z := if nonzero value then u16 (63 - fls64 value) else 64.

(** build_bitmap_set, build_bitmap_clear and the bts/btr variants: the bit
    number is truncated to the operand width. *)
Definition bitmap_set (nr_arg w : Z) : Z :=
  let nr := nr_arg &&& 63 in w ||| 2 ^ nr.
Definition bitmap_clear (nr_arg w : Z) : Z :=
  let nr := nr_arg &&& 63 in w &&& bnot 64 (2 ^ nr).
Definition bitmap_test (nr w : Z) : bool := Z.testbit w (nr &&& 63).
Definition bitmap_test_and_set (nr_arg w : Z) : bool * Z :=
  let nr := nr_arg &&& 63 in (Z.testbit w nr, w ||| 2 ^ nr).
Definition bitmap_test_and_clear (nr_arg w : Z) : bool * Z :=
  let nr := nr_arg &&& 63 in (Z.testbit w nr, w &&& bnot 64 (2 ^ nr)).
Definition bitmap_weight (bits : Z) : Z := u16 (cpop bits).

End X86Bits.

(** ** The interface the generic code is compiled against *)

Class BitmapOps := {
  bitmap_set_lock : Z → Z → Z;
  bitmap_clear_lock : Z → Z → Z;
  bitmap_set_nolock : Z → Z → Z;
  bitmap_clear_nolock : Z → Z → Z;
  bitmap_test : Z → Z → bool;
  bitmap_test_and_clear_lock : Z → Z → bool * Z;
  ffs64 : Z → Z;
  ffz64_ex : list Z → Z → option Z;
}.

(** What the callers of the locked primitives rely on, for bit numbers below
    [lim]. *)
Class BitmapSpec (ops : BitmapOps) (lim : Z) := {
  bs_set_word nr w : 0 ≤ nr < lim → word 64 w → word 64 (bitmap_set_lock nr w);
  bs_clear_word nr w : 0 ≤ nr < lim → word 64 w → word 64 (bitmap_clear_lock nr w);
  bs_set nr w i : 0 ≤ nr < lim → word 64 w → 0 ≤ i →
    Z.testbit (bitmap_set_lock nr w) i = Z.testbit w i || bool_decide (i = nr);
  bs_clear nr w i : 0 ≤ nr < lim → word 64 w → 0 ≤ i →
    Z.testbit (bitmap_clear_lock nr w) i = Z.testbit w i && negb (bool_decide (i = nr));
  bs_test nr w : 0 ≤ nr < lim → word 64 w → bitmap_test nr w = Z.testbit w nr;
  bs_test_and_clear nr w : 0 ≤ nr < lim → word 64 w →
    bitmap_test_and_clear_lock nr w = (Z.testbit w nr, bitmap_clear_lock nr w);
  bs_ffs64 w : word 64 w → w ≠ 0 →
    0 ≤ ffs64 w < 64 ∧ Z.testbit w (ffs64 w) = true ∧
    ∀ i, 0 ≤ i < ffs64 w → Z.testbit w i = false;
  bs_ffs64_zero : 64 ≤ ffs64 0 < 2 ^ 16;
}.

(** The unlocked variants are the same operations. *)
Class BitmapNolockSpec (ops : BitmapOps) := {
  bn_set nr w : bitmap_set_nolock nr w = bitmap_set_lock nr w;
  bn_clear nr w : bitmap_clear_nolock nr w = bitmap_clear_lock nr w;
}.

Definition riscv_bitmap : BitmapOps := {|
  bitmap_set_lock := RvBits.bitmap_set_lock;
  bitmap_clear_lock := RvBits.bitmap_clear_lock;
  bitmap_set_nolock := RvBits.bitmap_set_nolock;
  bitmap_clear_nolock := λ nr w, (RvBits.bitmap_clear_nolock nr w).2;
  bitmap_test := RvBits.bitmap_test;
  bitmap_test_and_clear_lock := RvBits.bitmap_test_and_clear_lock;
  ffs64 := RvBits.ffs64;
  ffz64_ex := RvBits.ffz64_ex;
|}.

Definition x86_bitmap : BitmapOps := {|
  bitmap_set_lock := X86Bits.bitmap_set;
  bitmap_clear_lock := X86Bits.bitmap_clear;
  bitmap_set_nolock := X86Bits.bitmap_set;
  bitmap_clear_nolock := X86Bits.bitmap_clear;
  bitmap_test := X86Bits.bitmap_test;
  bitmap_test_and_clear_lock := X86Bits.bitmap_test_and_clear;
  ffs64 := X86Bits.ffs64;
  ffz64_ex := X86Bits.ffz64_ex;
|}.

(** ** The count instructions *)

Lemma ctz_pos_spec p :
  0 ≤ ctz_pos p ∧ Z.testbit (Zpos p) (ctz_pos p) = true ∧
  ∀ i, 0 ≤ i < ctz_pos p → Z.testbit (Zpos p) i = false.
Proof.
  induction p as [p IH|p (Hnn & Ht & Hf)|]; simpl.
  - split_and!; [done|done|lia].
  - rewrite Pos2Z.inj_xO. split_and!; [lia| |].
    + replace (1 + ctz_pos p) with (Z.succ (ctz_pos p)) by lia.
      by rewrite Z.testbit_even_succ.
    + intros i Hi. destruct (Z.eq_dec i 0) as [->|]; [by rewrite Z.testbit_even_0|].
      replace i with (Z.succ (i - 1)) by lia.
      rewrite Z.testbit_even_succ by lia. apply Hf. lia.
  - split_and!; [done|done|lia].
Qed.

Lemma ctz_spec w x :
  word w x → x ≠ 0 →
  0 ≤ ctz w x < w ∧ Z.testbit x (ctz w x) = true ∧
  ∀ i, 0 ≤ i < ctz w x → Z.testbit x i = false.
Proof.
  intros Hx Hnz. destruct x as [|p|p]; [done| |unfold word in Hx; lia].
  simpl. destruct (ctz_pos_spec p) as (Hnn & Ht & Hf).
  split; [|done]. split; [done|].
  destruct (Z.lt_ge_cases (ctz_pos p) w) as [?|Hge]; [done|].
  destruct (Z.lt_ge_cases w 0) as [?|Hw].
  - unfold word in Hx. rewrite Z.pow_neg_r in Hx by done. lia.
  - rewrite (word_testbit_high w) in Ht by (auto with lia). done.
Qed.

(** [r] is the first index of [lo, hi) on which [f] holds, [hi] if none. *)
Definition is_next (f : Z → bool) (lo hi r : Z) : Prop :=
  lo ≤ r ≤ hi ∧ (∀ i, lo ≤ i < r → f i = false) ∧ (r < hi → f r = true).

Lemma is_next_unique f lo hi r r' : is_next f lo hi r → is_next f lo hi r' → r = r'.
Proof.
  intros (Hr & Hb & Ht) (Hr' & Hb' & Ht').
  destruct (Z.lt_trichotomy r r') as [Hlt|[?|Hlt]]; [|done|].
  - rewrite Hb' in Ht; [discriminate Ht; lia|lia].
  - rewrite Hb in Ht'; [discriminate Ht'; lia|lia].
Qed.

Lemma is_next_skip f lo mid hi r :
  lo ≤ mid → (∀ i, lo ≤ i < mid → f i = false) → is_next f mid hi r → is_next f lo hi r.
Proof.
  intros Hle Hskip (Hr & Hb & Ht). split; [lia|]. split; [|done].
  intros i Hi. destruct (Z.lt_ge_cases i mid); [apply Hskip|apply Hb]; lia.
Qed.

Lemma is_next_ext f g lo hi r :
  (∀ i, lo ≤ i < hi → f i = g i) → is_next f lo hi r → is_next g lo hi r.
Proof.
  intros Hfg (Hr & Hb & Ht). split; [done|]. split.
  - intros i Hi. rewrite <- Hfg by lia. by apply Hb.
  - intros. rewrite <- Hfg by lia. auto.
Qed.

(** Widening the upper end past a hit changes nothing. *)
Lemma is_next_widen f lo hi hi' r :
  hi ≤ hi' → r < hi → is_next f lo hi r → is_next f lo hi' r.
Proof. intros ? ? (Hr & Hb & Ht). split; [lia|]. split; [done|]. auto. Qed.

(** Bit [i] of an array of 64-bit words. *)
Definition bit_at (addr : list Z) (i : Z) : bool :=
  Z.testbit (nth (Z.to_nat (i / 64)) addr 0) (i mod 64).

Lemma bit_at_head w p i : 0 ≤ i < 64 → bit_at (w :: p) i = Z.testbit w i.
Proof.
  intros. unfold bit_at. by rewrite Z.div_small, Z.mod_small.
Qed.

Lemma bit_at_tail w p i : 64 ≤ i → bit_at (w :: p) i = bit_at p (i - 64).
Proof.
  intros. unfold bit_at.
  replace i with (i - 64 + 1 * 64) at 1 2 by lia.
  rewrite Z.div_add, Z.mod_add by lia.
  rewrite Z2Nat.inj_add by (try apply Z.div_pos; lia).
  by rewrite Nat.add_comm.
Qed.

Lemma bit_at_drop addr n i :
  0 ≤ i → bit_at (drop n addr) i = bit_at addr (i + 64 * Z.of_nat n).
Proof.
  intros Hi. revert addr. induction n as [|n IH]; intros addr.
  - by replace (i + 64 * Z.of_nat 0) with i by lia.
  - destruct addr as [|w p]; simpl.
    + unfold bit_at. by rewrite !nth_nil, !Z.bits_0.
    + rewrite IH, bit_at_tail by lia. f_equal. lia.
Qed.

Module RvBitsFacts.
Import RvBits.

Lemma more_words_ge size : 0 ≤ size → more_words size = (64 <=? size).
Proof.
  intros Hs. unfold more_words, nonzero, BITS_PER_LONG.
  change (64 - 1) with (Z.ones 6).
  rewrite Z.ldiff_ones_r, Z.shiftl_mul_pow2, Z.shiftr_div_pow2 by lia.
  change (2 ^ 6) with 64. pose proof (Z.div_mod size 64).
  pose proof (Z.mod_pos_bound size 64).
  destruct (64 <=? size) eqn:E; zreflect.
  - apply negb_true_iff, Z.eqb_neq. pose proof (Z.div_le_mono 64 size 64). lia.
  - apply negb_false_iff, Z.eqb_eq. rewrite Z.div_small; lia.
Qed.

Lemma shiftr_ones64 n : 0 ≤ n ≤ 64 → Z.shiftr (Z.ones 64) (64 - n) = Z.ones n.
Proof.
  intros. apply Z.bits_inj_iff'. intros i Hi.
  rewrite Z.shiftr_spec, !Z.testbit_ones_nonneg by lia.
  destruct (i <? n) eqn:E; zreflect; [apply Z.ltb_lt|apply Z.ltb_ge]; lia.
Qed.

Lemma shiftl_ones64_testbit n i :
  0 ≤ n → 0 ≤ i < 64 → Z.testbit (u64 (Z.shiftl (Z.ones 64) n)) i = (n <=? i).
Proof.
  intros. unfold u64. rewrite Z.mod_pow2_bits_low, Z.shiftl_spec by lia.
  destruct (n <=? i) eqn:E; zreflect.
  - rewrite Z.testbit_ones_nonneg by lia. apply Z.ltb_lt. lia.
  - apply Z.testbit_neg_r. lia.
Qed.

Lemma found_middle_spec tmp base :
  word 64 tmp → tmp ≠ 0 → 0 ≤ base → base + 64 ≤ 2 ^ 64 →
  found_middle tmp base < base + 64 ∧
  is_next (λ i, Z.testbit tmp (i - base)) base (base + 64) (found_middle tmp base).
Proof.
  intros Hw Hnz ? ?. unfold found_middle, ffsl.
  destruct (ctz_spec 64 tmp) as (Hr & Ht & Hf); [done..|].
  rewrite u64_id by (unfold word; lia).
  split; [lia|]. split_and!; [lia|lia| |].
  - intros i Hi. apply Hf. lia.
  - intros _. by replace (base + ctz 64 tmp - base) with (ctz 64 tmp) by lia.
Qed.

Lemma found_first_spec tmp base size :
  word 64 tmp → 0 < size < 64 → 0 ≤ base → base + size < 2 ^ 64 →
  is_next (λ i, Z.testbit tmp (i - base)) base (base + size) (found_first tmp base size).
Proof.
  intros Hw Hs ? ?. unfold found_first, BITS_PER_LONG.
  rewrite shiftr_ones64 by lia.
  assert (Hm : ∀ i, 0 ≤ i → Z.testbit (tmp &&& Z.ones size) i = Z.testbit tmp i && (i <? size)).
  { intros. rewrite Z.land_spec, Z.testbit_ones_nonneg by lia. done. }
  destruct (tmp &&& Z.ones size =? 0) eqn:E; zreflect.
  - rewrite u64_id by (unfold word; lia). split_and!; [lia|lia| |lia].
    intros i Hi. specialize (Hm (i - base) ltac:(lia)).
    rewrite E, Z.bits_0 in Hm. destruct (i - base <? size) eqn:?; zreflect; [|lia].
    by rewrite andb_true_r in Hm.
  - assert (Hw' : word size (tmp &&& Z.ones size)).
    { apply word_land_r; [lia|]. unfold word. rewrite Z.ones_equiv. lia. }
    destruct (ctz_spec size _ Hw' E) as (Hr & Ht & Hf).
    unfold found_middle, ffsl.
    replace (ctz 64 (tmp &&& Z.ones size)) with (ctz size (tmp &&& Z.ones size))
      by (destruct (tmp &&& Z.ones size); [done|done|unfold word in Hw'; lia]).
    rewrite u64_id by (unfold word; lia). split_and!; [lia|lia| |].
    + intros i Hi. specialize (Hf (i - base) ltac:(lia)).
      rewrite Hm in Hf by lia. destruct (i - base <? size) eqn:?; zreflect; [|lia].
      by rewrite andb_true_r in Hf.
    + intros _. rewrite Hm in Ht by lia. apply andb_true_iff in Ht as [Ht _].
      rewrite <- Ht. f_equal. lia.
Qed.

Lemma bit_words_spec p : ∀ base size,
  Forall (word 64) p → 0 ≤ base → 0 ≤ size ≤ 64 * Z.of_nat (length p) →
  base + size < 2 ^ 64 →
  ∃ r, bit_words p base size = Some r ∧
       is_next (λ i, bit_at p (i - base)) base (base + size) r.
Proof.
  induction p as [|w p IH]; intros base size Hp Hb Hs Hlt; simpl in *;
    rewrite more_words_ge by lia; unfold BITS_PER_LONG.
  - assert (size = 0) as -> by lia. simpl. exists base. split; [done|].
    split_and!; lia.
  - inv Hp. destruct (64 <=? size) eqn:E; zreflect.
    + destruct (nonzero w) eqn:Ew; zreflect.
      * destruct (found_middle_spec w base) as [? Hn]; [done|done|done|lia|].
        eexists. split; [done|]. apply (is_next_widen _ _ (base + 64)); [lia|done|].
        eapply is_next_ext; [|exact Hn]. intros. by rewrite bit_at_head by lia.
      * rewrite u64_id by (unfold word; lia).
        destruct (IH (base + 64) (size - 64)) as (r & Hr & Hn); [done|lia..|].
        exists r. split; [done|].
        apply (is_next_skip _ _ (base + 64)); [lia| |].
        -- intros i Hi. subst w. rewrite bit_at_head by lia. apply Z.bits_0.
        -- replace (base + size) with (base + 64 + (size - 64)) by lia.
           eapply is_next_ext; [|exact Hn]. intros. simpl.
           rewrite bit_at_tail by lia. f_equal. lia.
    + destruct (size =? 0) eqn:E0; zreflect.
      * subst. exists base. split; [done|]. split_and!; lia.
      * eexists. split; [done|].
        eapply is_next_ext; [|apply found_first_spec; (done || lia)].
        intros. by rewrite bit_at_head by lia.
Qed.

(** The zero scans are the bit scans of the complemented words. *)
Lemma zfound_first_bnot tmp base size :
  word 64 tmp → 0 < size < 64 →
  zfound_first tmp base size = found_first (bnot 64 tmp) base size.
Proof.
  intros Hw Hs. unfold zfound_first, found_first, zfound_middle, ffz, BITS_PER_LONG.
  rewrite shiftr_ones64 by lia.
  set (t := tmp ||| u64 (Z.shiftl (Z.ones 64) size)).
  assert (Ht : bnot 64 t = bnot 64 tmp &&& Z.ones size).
  { apply Z.bits_inj_iff'. intros i Hi.
    rewrite Z.land_spec, !bnot_testbit, Z.testbit_ones_nonneg by lia.
    subst t. rewrite Z.lor_spec. destruct (i <? 64) eqn:E; zreflect; [|done].
    rewrite shiftl_ones64_testbit by lia.
    destruct (i <? size) eqn:E'; zreflect; zcmp; bsolve. }
  assert (Hwt : word 64 t) by (subst t; auto with words lia).
  rewrite <- Ht. unfold found_middle.
  destruct (t =? Z.ones 64) eqn:E; zreflect.
  - by rewrite (proj2 (bnot_zero 64 t ltac:(lia) Hwt)).
  - destruct (bnot 64 t =? 0) eqn:E'; zreflect; [|done].
    by apply (bnot_zero 64 t ltac:(lia) Hwt) in E'.
Qed.

Lemma zero_words_bnot p : ∀ base size,
  Forall (word 64) p → 0 ≤ size →
  zero_words p base size = bit_words (bnot 64 <$> p) base size.
Proof.
  induction p as [|w p IH]; intros base size Hp Hs; [done|]. inv Hp.
  simpl. rewrite more_words_ge by lia. unfold BITS_PER_LONG.
  destruct (64 <=? size) eqn:E; zreflect.
  - rewrite IH by (done || lia). done.
  - destruct (size =? 0) eqn:E0; zreflect; [done|].
    by rewrite zfound_first_bnot by (done || lia).
Qed.

Lemma find_next_zero_bit_bnot addr size offset :
  Forall (word 64) addr → 0 ≤ offset →
  find_next_zero_bit addr size offset = find_next_bit (bnot 64 <$> addr) size offset.
Proof.
  intros Ha Ho. unfold find_next_zero_bit, find_next_bit, BITS_PER_LONG.
  rewrite <- fmap_drop.
  set (p := drop (Z.to_nat (offset / 64)) addr).
  assert (Hp : Forall (word 64) p) by (by apply Forall_drop).
  destruct (size <=? offset) eqn:E; [done|]; zreflect.
  change (64 - 1) with (Z.ones 6). rewrite Z.ldiff_ones_r by lia.
  rewrite Z.shiftl_mul_pow2, Z.shiftr_div_pow2 by lia. change (2 ^ 6) with 64.
  pose proof (Z.div_mod offset 64). pose proof (Z.mod_pos_bound offset 64).
  destruct (nonzero (offset mod 64)) eqn:En; zreflect.
  2: { apply zero_words_bnot; [done|lia]. }
  destruct p as [|w p']; [done|]. inv Hp. simpl.
  rewrite shiftr_ones64 by lia.
  set (o := offset mod 64) in *.
  assert (Hb : bnot 64 (w ||| Z.ones o) = bnot 64 w &&& u64 (Z.shiftl (Z.ones 64) o)).
  { apply Z.bits_inj_iff'. intros i Hi.
    rewrite Z.land_spec, !bnot_testbit, Z.lor_spec, Z.testbit_ones_nonneg by lia.
    destruct (i <? 64) eqn:E64; zreflect; [|done].
    rewrite shiftl_ones64_testbit by lia.
    destruct (i <? o) eqn:E'; zreflect; zcmp; bsolve. }
  assert (word 64 (w ||| Z.ones o)).
  { apply word_lor; [lia|done|]. apply (word_mono o); [lia|].
    unfold word. rewrite Z.ones_equiv. lia. }
  rewrite <- Hb. destruct (size - offset / 64 * 64 <? 64) eqn:El; zreflect.
  - by rewrite zfound_first_bnot by (done || lia).
  - unfold zfound_middle, found_middle, ffz.
    rewrite zero_words_bnot by (done || lia). done.
Qed.

Lemma bit_at_bnot addr i :
  0 ≤ i < 64 * Z.of_nat (length addr) → bit_at (bnot 64 <$> addr) i = negb (bit_at addr i).
Proof.
  intros Hi. unfold bit_at. pose proof (Z.mod_pos_bound i 64).
  assert (Hd : (Z.to_nat (i / 64) < length addr)%nat).
  { apply Nat2Z.inj_lt. rewrite Z2Nat.id by (apply Z.div_pos; lia).
    apply Z.div_lt_upper_bound; lia. }
  rewrite (nth_indep _ 0 (bnot 64 0)) by (rewrite length_fmap; done).
  rewrite (map_nth (bnot 64)), bnot_testbit by lia.
  replace (i mod 64 <? 64) with true by (symmetry; apply Z.ltb_lt; lia). done.
Qed.

(** Masking off the bits below [offset] of the word that holds it. *)
Lemma masked_word_next w base o hi r :
  0 ≤ o < 64 → base ≤ hi ≤ base + 64 → base + o ≤ hi →
  is_next (λ i, Z.testbit (w &&& u64 (Z.shiftl (Z.ones 64) o)) (i - base)) base hi r →
  is_next (λ i, Z.testbit w (i - base)) (base + o) hi r.
Proof.
  intros Ho ? ? (Hr & Hbelow & Hhit).
  assert (Ht : ∀ i, 0 ≤ i < 64 →
    Z.testbit (w &&& u64 (Z.shiftl (Z.ones 64) o)) i = Z.testbit w i && (o <=? i)).
  { intros. rewrite Z.land_spec, shiftl_ones64_testbit by lia. done. }
  assert (base + o ≤ r).
  { destruct (Z.lt_ge_cases r (base + o)); [|done].
    specialize (Hhit ltac:(lia)). rewrite Ht in Hhit by lia. zreflect. lia. }
  split_and!; [lia|lia| |].
  - intros i ?. specialize (Hbelow i ltac:(lia)). rewrite Ht in Hbelow by lia.
    revert Hbelow. zcmp. by rewrite andb_true_r.
  - intros. specialize (Hhit ltac:(lia)). rewrite Ht in Hhit by lia. by zreflect.
Qed.

(** The scan that starts inside the first word. *)
Lemma find_next_in_word w p base o size :
  word 64 w → Forall (word 64) p → 0 ≤ base → 0 < o < 64 → o < size →
  size ≤ 64 + 64 * Z.of_nat (length p) → base + size < 2 ^ 64 →
  let tmp := w &&& u64 (Z.shiftl (Z.ones 64) o) in
  ∃ r, (if size <? 64 then Some (found_first tmp base size)
        else if nonzero tmp then Some (found_middle tmp base)
        else bit_words p (u64 (base + 64)) (size - 64)) = Some r ∧
       is_next (λ i, bit_at (w :: p) (i - base)) (base + o) (base + size) r.
Proof.
  intros Hw Hp Hb Ho Hs Hl Hlt tmp.
  assert (Hwt : word 64 tmp) by (apply word_land_l; [lia|done]).
  assert (Hin : ∀ hi r, hi ≤ base + 64 → base + o ≤ hi →
    is_next (λ i, Z.testbit tmp (i - base)) base hi r →
    is_next (λ i, bit_at (w :: p) (i - base)) (base + o) hi r).
  { intros hi r ? ? Hn%masked_word_next; [|lia..].
    eapply is_next_ext; [|exact Hn]. intros. by rewrite bit_at_head by lia. }
  destruct (size <? 64) eqn:El; zreflect.
  { eexists. split; [done|]. apply Hin; [lia|lia|]. apply found_first_spec; (done || lia). }
  destruct (nonzero tmp) eqn:Et; zreflect.
  { destruct (found_middle_spec tmp base) as [? Hn]; [done|done|lia|lia|].
    eexists. split; [done|]. apply (is_next_widen _ _ (base + 64)); [lia|done|].
    apply Hin; [lia|lia|done]. }
  rewrite u64_id by (unfold word; lia).
  destruct (bit_words_spec p (base + 64) (size - 64)) as (r & Hr & Hn); [done|lia..|].
  exists r. split; [done|]. apply (is_next_skip _ _ (base + 64)); [lia| |].
  - assert (is_next (λ i, Z.testbit tmp (i - base)) base (base + 64) (base + 64)) as Hz.
    { split_and!; [lia|lia| |lia]. intros. rewrite Et. apply Z.bits_0. }
    apply Hin in Hz as (_ & Hz & _); [exact Hz|lia..].
  - replace (base + 64 + (size - 64)) with (base + size) in Hn by lia.
    eapply is_next_ext; [|exact Hn]. intros i ?. simpl.
    rewrite bit_at_tail by lia. f_equal. lia.
Qed.

Lemma find_next_bit_is_next addr size offset :
  Forall (word 64) addr → 0 ≤ offset < size → size ≤ 64 * Z.of_nat (length addr) →
  size < 2 ^ 64 →
  ∃ r, find_next_bit addr size offset = Some r ∧ is_next (bit_at addr) offset size r.
Proof.
  intros Ha Ho Hs Hlt. unfold find_next_bit, BITS_PER_LONG.
  replace (size <=? offset) with false by (symmetry; apply Z.leb_gt; lia).
  change (64 - 1) with (Z.ones 6). rewrite Z.ldiff_ones_r by lia.
  rewrite Z.shiftl_mul_pow2, Z.shiftr_div_pow2 by lia. change (2 ^ 6) with 64.
  pose proof (Z.div_mod offset 64). pose proof (Z.mod_pos_bound offset 64).
  assert (0 ≤ offset / 64) by (apply Z.div_pos; lia).
  set (q := offset / 64) in *. set (o := offset mod 64) in *.
  set (p := drop (Z.to_nat q) addr).
  assert (Hd : ∀ i, q * 64 ≤ i → bit_at p (i - q * 64) = bit_at addr i).
  { intros. unfold p. rewrite bit_at_drop by lia. f_equal. lia. }
  assert (Hl : Z.of_nat (length p) = Z.of_nat (length addr) - q).
  { unfold p. rewrite length_drop. lia. }
  assert (Hp : Forall (word 64) p) by (by apply Forall_drop).
  assert (∃ r, (if nonzero o then
      match p with
      | [] => None
      | tmp :: p' =>
          if size - q * 64 <? 64
          then Some (found_first (tmp &&& u64 (Z.shiftl (Z.ones 64) o)) (q * 64) (size - q * 64))
          else if nonzero (tmp &&& u64 (Z.shiftl (Z.ones 64) o))
          then Some (found_middle (tmp &&& u64 (Z.shiftl (Z.ones 64) o)) (q * 64))
          else bit_words p' (u64 (q * 64 + 64)) (size - q * 64 - 64)
      end else bit_words p (q * 64) (size - q * 64)) = Some r ∧
    is_next (λ i, bit_at p (i - q * 64)) (q * 64 + o) (q * 64 + (size - q * 64)) r)
    as (r & Hr & Hn).
  { destruct (nonzero o) eqn:Eo; zreflect.
    - destruct p as [|w p']; [simpl in *; lia|]. inv Hp. simpl in Hl.
      apply find_next_in_word; (done || lia).
    - rewrite Eo, Z.add_0_r. apply bit_words_spec; (done || lia). }
  exists r. split; [done|].
  replace offset with (q * 64 + o) by lia. replace size with (q * 64 + (size - q * 64)) by lia.
  eapply is_next_ext; [|exact Hn]. intros. simpl. apply Hd. lia.
Qed.

End RvBitsFacts.

(** ** Instances of the interface *)

Lemma ffz64_spec w :
  word 64 w → w ≠ Z.ones 64 →
  let n := ctz 64 (bnot 64 w) in
  0 ≤ n < 64 ∧ Z.testbit w n = false ∧ ∀ i, 0 ≤ i < n → Z.testbit w i = true.
Proof.
  intros Hw Hne n.
  destruct (ctz_spec 64 (bnot 64 w)) as (Hr & Ht & Hf).
  - apply word_bnot. lia.
  - intros E. by apply (bnot_zero 64 w ltac:(lia) Hw) in E.
  - fold n in Hr, Ht, Hf. split; [done|]. split.
    + rewrite bnot_testbit in Ht by lia. by zreflect.
    + intros i Hi. specialize (Hf i Hi). rewrite bnot_testbit in Hf by lia.
      revert Hf. zcmp. by intros ?%negb_false_iff.
Qed.

Lemma int_1_shl_pow2 nr : 0 ≤ nr < 31 → RvBits.int_1_shl nr = 2 ^ nr.
Proof.
  intros. unfold RvBits.int_1_shl, s32, signed. rewrite (Z.mod_small nr) by lia.
  pose proof (Z.pow_lt_mono_r 2 nr 31). rewrite Z.mod_small by lia.
  replace (2 ^ nr <? 2 ^ (32 - 1)) with true; [done|].
  symmetry. apply Z.ltb_lt. change (32 - 1) with 31. lia.
Qed.

Lemma land_lnot x y : x &&& Z.lnot y = Z.ldiff x y.
Proof. by rewrite Z.ldiff_land. Qed.

Lemma land_bnot64 x y : word 64 x → x &&& bnot 64 y = Z.ldiff x y.
Proof.
  intros Hx. apply Z.bits_inj_iff'. intros i Hi.
  rewrite Z.land_spec, bnot_testbit, Z.ldiff_spec by lia.
  destruct (i <? 64) eqn:E; zreflect; [done|].
  by rewrite (word_testbit_high 64 x) by (done || lia).
Qed.

Lemma land_63_small nr : 0 ≤ nr < 64 → nr &&& 63 = nr.
Proof.
  intros. change 63 with (Z.ones 6). rewrite Z.land_ones by lia.
  apply Z.mod_small. done.
Qed.

#[export] Instance riscv_bitmap_spec : BitmapSpec riscv_bitmap 31.
Proof.
  split; simpl; unfold RvBits.bitmap_set_lock, RvBits.bitmap_clear_lock,
    RvBits.bitmap_test, RvBits.bitmap_test_and_clear_lock, RvBits.ffs64, RvBits.ffsl.
  - intros. apply word_u64.
  - intros. apply word_u64.
  - intros nr w i Hnr Hw Hi. rewrite int_1_shl_pow2 by done.
    assert (word 64 (w ||| 2 ^ nr)) by (apply word_lor; [lia|done|apply word_pow2; lia]).
    rewrite u64_id by done. apply lor_pow2_testbit. lia.
  - intros nr w i Hnr Hw Hi. rewrite int_1_shl_pow2, land_lnot by done.
    rewrite u64_id by auto with words lia. apply ldiff_pow2_testbit. lia.
  - intros nr w Hnr Hw. rewrite int_1_shl_pow2 by done.
    rewrite u64_id by auto with words lia. apply land_pow2_nonzero. lia.
  - intros nr w Hnr Hw. rewrite int_1_shl_pow2, land_lnot by done.
    rewrite !u64_id by auto with words lia. rewrite land_pow2_nonzero by lia.
    destruct (Z.testbit w nr) eqn:E; [done|]. f_equal.
    apply Z.bits_inj_iff'. intros i Hi. rewrite ldiff_pow2_testbit by lia.
    case_bool_decide; subst; [by rewrite E|by rewrite andb_true_r].
  - intros w Hw Hnz. by apply ctz_spec.
  - done.
Qed.

#[export] Instance x86_bitmap_spec : BitmapSpec x86_bitmap 64.
Proof.
  split; simpl; unfold X86Bits.bitmap_set, X86Bits.bitmap_clear, X86Bits.bitmap_test,
    X86Bits.bitmap_test_and_clear.
  - intros nr w Hnr Hw. rewrite land_63_small by done.
    apply word_lor; [lia|done|]. by apply word_pow2.
  - intros. auto with words lia.
  - intros. rewrite land_63_small by done. apply lor_pow2_testbit. lia.
  - intros. rewrite land_63_small, land_bnot64 by done. apply ldiff_pow2_testbit. lia.
  - intros. by rewrite land_63_small.
  - intros. by rewrite land_63_small.
  - intros w Hw Hnz. unfold X86Bits.ffs64. zcmp.
    destruct (ctz_spec 64 w) as (Hr & ?); [done..|].
    unfold u16. rewrite Z.mod_small by lia. done.
  - by vm_compute.
Qed.

#[export] Instance x86_nolock_spec : BitmapNolockSpec x86_bitmap.
Proof. by split. Qed.

(** ** Properties *)

(** on an array that covers [size] bits, find_next_bit never reads past
    the array and returns the index of the first set bit at or after [offset],
    or [size] when there is none (or [offset] is not below [size]);
    find_first_bit is the same scan from bit 0. *)
Theorem bit_scans_correct addr size offset :
  Forall (word 64) addr → 0 ≤ size ≤ 64 * Z.of_nat (length addr) → size < 2 ^ 64 →
  0 ≤ offset →
  (∃ r, RvBits.find_next_bit addr size offset = Some r ∧
        if size <=? offset then r = size else is_next (bit_at addr) offset size r) ∧
  (∃ r, RvBits.find_first_bit addr size = Some r ∧ is_next (bit_at addr) 0 size r).
Proof.
  intros Ha Hs Hlt Ho. split.
  - destruct (size <=? offset) eqn:E.
    + exists size. unfold RvBits.find_next_bit. by rewrite E.
    + zreflect. apply RvBitsFacts.find_next_bit_is_next; (done || lia).
  - unfold RvBits.find_first_bit.
    destruct (RvBitsFacts.bit_words_spec addr 0 size) as (r & Hr & Hn); [done|lia..|].
    exists r. split; [done|]. eapply is_next_ext; [|exact Hn].
    intros. simpl. by rewrite Z.sub_0_r.
Qed.

Lemma bit_scans_correct_witness :
  (∃ r, RvBits.find_next_bit [0; 0x10] 100 3 = Some r ∧ is_next (bit_at [0; 0x10]) 3 100 r) ∧
  (∃ r, RvBits.find_first_bit [0; 0x10] 100 = Some r ∧ is_next (bit_at [0; 0x10]) 0 100 r).
Proof.
  apply (bit_scans_correct [0; 0x10] 100 3).
  - solve_words.
  - simpl. lia.
  - lia.
  - lia.
Defined.

Example find_next_bit_ex : RvBits.find_next_bit [0; 0x10] 100 3 = Some 68.
Proof. reflexivity. Qed.

(** the zero scans find the first clear bit in the same sense:
    find_next_zero_bit from [offset], find_first_zero_bit from bit 0. *)
Theorem zero_scans_correct addr size offset :
  Forall (word 64) addr → 0 ≤ size ≤ 64 * Z.of_nat (length addr) → size < 2 ^ 64 →
  0 ≤ offset →
  (∃ r, RvBits.find_next_zero_bit addr size offset = Some r ∧
        if size <=? offset then r = size
        else is_next (λ i, negb (bit_at addr i)) offset size r) ∧
  (∃ r, RvBits.find_first_zero_bit addr size = Some r ∧
        is_next (λ i, negb (bit_at addr i)) 0 size r).
Proof.
  intros Ha Hs Hlt Ho.
  assert (Hb : Forall (word 64) (bnot 64 <$> addr)).
  { apply Forall_fmap, Forall_true. intros. apply word_bnot. lia. }
  assert (Hl : Z.of_nat (length (bnot 64 <$> addr)) = Z.of_nat (length addr)).
  { by rewrite length_fmap. }
  split.
  - rewrite RvBitsFacts.find_next_zero_bit_bnot by done.
    destruct (size <=? offset) eqn:E.
    + exists size. unfold RvBits.find_next_bit. by rewrite E.
    + zreflect.
      destruct (RvBitsFacts.find_next_bit_is_next (bnot 64 <$> addr) size offset)
        as (r & Hr & Hn); [done|lia..|].
      exists r. split; [done|]. eapply is_next_ext; [|exact Hn].
      intros. apply RvBitsFacts.bit_at_bnot. lia.
  - unfold RvBits.find_first_zero_bit. rewrite RvBitsFacts.zero_words_bnot by (done || lia).
    destruct (RvBitsFacts.bit_words_spec (bnot 64 <$> addr) 0 size) as (r & Hr & Hn);
      [done|lia..|].
    exists r. split; [done|]. eapply is_next_ext; [|exact Hn].
    intros. simpl. rewrite Z.sub_0_r. apply RvBitsFacts.bit_at_bnot. lia.
Qed.

Lemma zero_scans_correct_witness :
  (∃ r, RvBits.find_next_zero_bit [Z.ones 64; 0x1f] 100 64 = Some r ∧
        is_next (λ i, negb (bit_at [Z.ones 64; 0x1f] i)) 64 100 r) ∧
  (∃ r, RvBits.find_first_zero_bit [Z.ones 64; 0x1f] 100 = Some r ∧
        is_next (λ i, negb (bit_at [Z.ones 64; 0x1f] i)) 0 100 r).
Proof.
  apply (zero_scans_correct [Z.ones 64; 0x1f] 100 64).
  - solve_words.
  - simpl. lia.
  - lia.
  - lia.
Defined.
