(* ===== verification/LinkedList.v ===== *)
(** * Intrusive circular lists (hypervisor/include/lib/list.h)

    [Dll] models the pointer manipulations of list.h on a heap of list nodes;
    [Seq] are the same operations on the sequence of nodes a list stands for.
    The refinement theorem relates the two, so that the components built on
    list.h (run queues, timer lists) are modelled on sequences. *)

From S2P Require Import Prelude.

(** Addresses of list nodes. *)
Abbreviation ptr := Z.

(** ** Sequences *)

Module Seq.
Section seq.
Context {A : Type} `{!EqDecision A}.
Implicit Types (x pos : A) (l : list A).

(** [list_add(&x->list, head)] *)
Definition add x l : list A := x :: l.
(** [list_add_tail(&x->list, head)] *)
Definition add_tail x l : list A := l ++ [x].
(** [list_add_node(&x->list, pos->prev, pos)] *)
Fixpoint add_before x pos l : list A :=
  match l with
  | [] => []
  | y :: l' => if decide (y = pos) then x :: y :: l' else y :: add_before x pos l'
  end.
(** [list_add(&x->list, prev)] with [prev] the head ([None]) or a node *)
Fixpoint add_after_node x pos l : list A :=
  match l with
  | [] => []
  | y :: l' => if decide (y = pos) then y :: x :: l' else y :: add_after_node x pos l'
  end.
Definition add_after x (prev : option A) l : list A :=
  match prev with
  | None => x :: l
  | Some pos => add_after_node x pos l
  end.
(** [list_del_init(&x->list)] *)
Fixpoint del x l : list A :=
  match l with
  | [] => []
  | y :: l' => if decide (y = x) then l' else y :: del x l'
  end.
(** [!list_empty(&x->list)] for the node of [x] *)
Definition linked x l : bool := bool_decide (x ∈ l).
(** [list_empty(head)] *)
Definition empty l : bool := match l with [] => true | _ => false end.
(** [pos->next] during an iteration, [None] for the head *)
Fixpoint next x l : option A :=
  match l with
  | [] => None
  | y :: l' => if decide (y = x) then head l' else next x l'
  end.
End seq.
End Seq.

Section seq_facts.
Context {A : Type} `{!EqDecision A}.
Implicit Types (x pos : A) (l : list A).

Lemma seq_add_before x pos l1 l2 :
  pos ∉ l1 → Seq.add_before x pos (l1 ++ pos :: l2) = l1 ++ x :: pos :: l2.
Proof.
  induction l1 as [|y l1 IH]; intros Hp; simpl.
  - by rewrite decide_True.
  - rewrite decide_False by set_solver. rewrite IH; [done|set_solver].
Qed.

Lemma seq_add_after x pos l1 l2 :
  pos ∉ l1 → Seq.add_after_node x pos (l1 ++ pos :: l2) = (l1 ++ [pos]) ++ x :: l2.
Proof.
  induction l1 as [|y l1 IH]; intros Hp; simpl.
  - by rewrite decide_True.
  - rewrite decide_False by set_solver. rewrite IH; [done|set_solver].
Qed.

Lemma seq_del x l1 l2 : x ∉ l1 → Seq.del x (l1 ++ x :: l2) = l1 ++ l2.
Proof.
  induction l1 as [|y l1 IH]; intros Hp; simpl.
  - by rewrite decide_True.
  - rewrite decide_False by set_solver. rewrite IH; [done|set_solver].
Qed.

Lemma seq_del_absent x l : x ∉ l → Seq.del x l = l.
Proof.
  induction l as [|y l IH]; intros Hx; simpl; [done|].
  rewrite decide_False by set_solver. rewrite IH; [done|set_solver].
Qed.
End seq_facts.

(** ** Pointers *)

Module Dll.

Record list_head := mk_list_head { next : ptr; prev : ptr }.
#[export] Instance eta_list_head : Eta list_head := MkEta _ (rd mk_list_head <*> next <*> prev).
#[export] Instance list_head_eq : EqDecision list_head.
Proof. solve_decision. Defined.

Abbreviation heap := (gmap Z list_head).

(** Loads and stores through a node pointer; [None] is an access to an
    address that holds no node. *)
Definition load_next (h : heap) (p : ptr) : option ptr := n ← h !! p; Some (next n).
Definition load_prev (h : heap) (p : ptr) : option ptr := n ← h !! p; Some (prev n).
Definition store_next (p v : ptr) (h : heap) : option heap :=
  n ← h !! p; Some (<[p := n⟨next := v⟩]> h).
Definition store_prev (p v : ptr) (h : heap) : option heap :=
  n ← h !! p; Some (<[p := n⟨prev := v⟩]> h).

Definition INIT_LIST_HEAD (p : ptr) (h : heap) : option heap :=
  h ← store_next p p h; store_prev p p h.

Definition list_add_node (new_node prev next : ptr) (h : heap) : option heap :=
  h ← store_prev next new_node h;
  h ← store_next new_node next h;
  h ← store_prev new_node prev h;
  store_next prev new_node h.

Definition list_add (new_node head : ptr) (h : heap) : option heap :=
  n ← load_next h head; list_add_node new_node head n h.

Definition list_add_tail (new_node head : ptr) (h : heap) : option heap :=
  p ← load_prev h head; list_add_node new_node p head h.

Definition list_del_node (prev next : ptr) (h : heap) : option heap :=
  h ← store_prev next prev h; store_next prev next h.

Definition list_del (entry : ptr) (h : heap) : option heap :=
  p ← load_prev h entry; n ← load_next h entry; list_del_node p n h.

Definition list_del_init (entry : ptr) (h : heap) : option heap :=
  p ← load_prev h entry; n ← load_next h entry;
  h ← list_del_node p n h; INIT_LIST_HEAD entry h.

Definition list_empty (head : ptr) (h : heap) : option bool :=
  n ← load_next h head; Some (bool_decide (n = head)).

Definition list_splice_node (list head : ptr) (h : heap) : option heap :=
  first ← load_next h list; last ← load_prev h list; at_ ← load_next h head;
  h ← store_prev first head h; h ← store_next head first h;
  h ← store_next last at_ h; store_prev at_ last h.

Definition list_splice (list head : ptr) (h : heap) : option heap :=
  e ← list_empty list h; if (e : bool) then Some h else list_splice_node list head h.

Definition list_splice_init (list head : ptr) (h : heap) : option heap :=
  e ← list_empty list h;
  if (e : bool) then Some h
  else h ← list_splice_node list head h; INIT_LIST_HEAD list h.

(** [list_for_each(pos, head)]: the nodes the loop visits, in order; [fuel]
    bounds the number of iterations. *)
Fixpoint list_for_each (fuel : nat) (pos head : ptr) (h : heap) : option (list ptr) :=
  if decide (pos = head) then Some []
  else match fuel with
       | O => None
       | S fuel =>
           n ← load_next h pos; rest ← list_for_each fuel n head h; Some (pos :: rest)
       end.
End Dll.

(** ** Chains of pointers *)

(** [path f a l b]: following [f] from [a] visits [l] and then reaches [b]. *)
Fixpoint path (f : ptr → option ptr) (a : ptr) (l : list ptr) (b : ptr) : Prop :=
  match l with
  | [] => f a = Some b
  | x :: l' => f a = Some x ∧ path f x l' b
  end.

(** Last node of [a :: l]: the one whose successor the chain [path f a l b]
    sends to [b]. *)
Fixpoint path_last (a : ptr) (l : list ptr) : ptr :=
  match l with
  | [] => a
  | x :: l' => path_last x l'
  end.

Lemma path_last_elem a l : path_last a l ∈ a :: l.
Proof.
  revert a. induction l as [|x l IH]; intros a; simpl; [set_solver|].
  specialize (IH x). set_solver.
Qed.

Lemma path_last_app a l x k : path_last a (l ++ x :: k) = path_last x k.
Proof. revert a. induction l as [|y l IH]; intros a; simpl; [done|]. apply IH. Qed.

Lemma path_frame f g a l b :
  (∀ x, x ∈ a :: l → f x = g x) → path f a l b → path g a l b.
Proof.
  revert a. induction l as [|x l IH]; intros a Hfg; simpl.
  - rewrite (Hfg a) by set_solver. done.
  - rewrite (Hfg a) by set_solver. intros [? ?]. split; [done|].
    apply IH; [|done]. set_solver.
Qed.

Lemma path_split f a l x k b :
  path f a (l ++ x :: k) b ↔ path f a l x ∧ path f x k b.
Proof.
  revert a. induction l as [|y l IH]; intros a; simpl; [done|].
  rewrite IH. tauto.
Qed.

(** Re-routing the end of a chain. *)
Lemma path_retarget f g a l b b' :
  NoDup (a :: l) → path f a l b →
  (∀ x, x ∈ a :: l → x ≠ path_last a l → g x = f x) → g (path_last a l) = Some b' →
  path g a l b'.
Proof.
  revert a. induction l as [|x l IH]; intros a Hnd Hp Hg Hl; simpl in *; [done|].
  destruct Hp as [Ha Hp]. inv Hnd. split.
  - rewrite Hg; [done|set_solver|].
    intros E. pose proof (path_last_elem x l). rewrite <- E in *. done.
  - apply IH; [done|done| |done]. intros. apply Hg; [set_solver|done].
Qed.

(** First node of [l ++ [b]]. *)
Definition path_first (l : list ptr) (b : ptr) : ptr :=
  match l with
  | [] => b
  | x :: _ => x
  end.

Lemma path_first_elem l b : path_first l b ∈ l ++ [b].
Proof. destruct l; set_solver. Qed.

Lemma path_first_app l x k b : path_first (l ++ x :: k) b = path_first l x.
Proof. by destruct l. Qed.

Lemma path_last_reverse l b : path_last b (reverse l) = path_first l b.
Proof.
  destruct l as [|x l]; [done|]. rewrite reverse_cons. apply path_last_app.
Qed.

Lemma path_first_reverse a l : path_first (reverse l) a = path_last a l.
Proof.
  revert a. induction l as [|x l IH]; intros a; [done|].
  rewrite reverse_cons. simpl. rewrite <- (IH x). apply path_first_app.
Qed.

Lemma path_app f a l1 l2 b :
  path f a (l1 ++ l2) b ↔
  path f a l1 (path_first l2 b) ∧ match l2 with [] => True | x :: k => path f x k b end.
Proof.
  destruct l2 as [|x k]; simpl; [by rewrite app_nil_r; tauto|]. apply path_split.
Qed.

Lemma path_dom f a l b x : path f a l b → x ∈ a :: l → is_Some (f x).
Proof.
  revert a. induction l as [|y l IH]; intros a; simpl.
  - intros Ha Hx. assert (x = a) as -> by set_solver. by rewrite Ha.
  - intros [Ha Hp] Hx. apply elem_of_cons in Hx as [->|Hx]; [by rewrite Ha|eauto].
Qed.

(** Linking [n] between [l1] and [l2]. *)
Lemma path_insert f g a l1 l2 b n :
  NoDup (a :: l1 ++ l2) → n ∉ a :: l1 ++ l2 → path f a (l1 ++ l2) b →
  (∀ x, x ∈ a :: l1 ++ l2 → x ≠ path_last a l1 → g x = f x) →
  g (path_last a l1) = Some n → g n = Some (path_first l2 b) →
  path g a (l1 ++ n :: l2) b.
Proof.
  intros Hnd Hn Hp Hg Hl Hgn. apply path_app in Hp as [Hp1 Hp2].
  rewrite app_comm_cons in Hnd. apply NoDup_app in Hnd as (Hnd1 & Hdisj & Hnd2).
  apply path_split. split.
  - eapply path_retarget; [done|exact Hp1| |done]. intros. apply Hg; [set_solver|done].
  - destruct l2 as [|x k]; simpl in *; [done|]. split; [done|].
    apply (path_frame f); [|done]. intros y Hy. symmetry. apply Hg; [set_solver|].
    intros ->. apply (Hdisj (path_last a l1)); [apply path_last_elem|done].
Qed.

(** Unlinking the node between [l1] and [l2]. *)
Lemma path_delete f g a l1 l2 b x :
  NoDup (a :: l1 ++ l2) → path f a (l1 ++ x :: l2) b →
  (∀ y, y ∈ a :: l1 ++ l2 → y ≠ path_last a l1 → g y = f y) →
  g (path_last a l1) = Some (path_first l2 b) →
  path g a (l1 ++ l2) b.
Proof.
  intros Hnd Hp Hg Hl. apply path_split in Hp as [Hp1 Hp2].
  rewrite app_comm_cons in Hnd. apply NoDup_app in Hnd as (Hnd1 & Hdisj & Hnd2).
  apply path_app. split.
  - eapply path_retarget; [done|exact Hp1| |done]. intros. apply Hg; [set_solver|done].
  - destruct l2 as [|y k]; [done|]. destruct Hp2 as [_ Hp2].
    apply (path_frame f); [|done]. intros z Hz. symmetry. apply Hg; [set_solver|].
    intros ->. apply (Hdisj (path_last a l1)); [apply path_last_elem|done].
Qed.

Module DllFacts.
Import Dll.

(** The circular list at [hd] holds the nodes [l]. *)
Record dll (h : heap) (hd : ptr) (l : list ptr) : Prop := {
  dll_nodup : NoDup (hd :: l);
  dll_next : path (load_next h) hd l hd;
  dll_prev : path (load_prev h) hd (reverse l) hd;
}.

Definition has (h : heap) (p : ptr) : Prop := is_Some (h !! p).

Lemma dll_has h hd l x : dll h hd l → x ∈ hd :: l → has h x.
Proof.
  intros [_ Hn _] Hx. eapply path_dom in Hn; [|exact Hx].
  unfold load_next in Hn. unfold has. destruct (h !! x); [by eexists|by destruct Hn].
Qed.

(** The effect of a sequence of stores, through the loads it changes. *)
Record effect (h h' : heap) (nx pv : ptr → option ptr) (touched : list ptr) : Prop := {
  eff_next x : load_next h' x = nx x;
  eff_prev x : load_prev h' x = pv x;
  eff_frame x : x ∉ touched → h' !! x = h !! x;
  eff_has x : has h' x ↔ has h x;
}.

Lemma store_next_effect h p v :
  has h p → ∃ h', store_next p v h = Some h' ∧
    effect h h' (λ x, if decide (x = p) then Some v else load_next h x) (load_prev h) [p].
Proof.
  intros [n Hn]. unfold store_next. rewrite Hn. simpl. eexists. split; [done|].
  split; unfold load_next, load_prev, has.
  - intros x. rewrite lookup_insert. do 2 case_decide; naive_solver.
  - intros x. rewrite lookup_insert. case_decide; [|done]. subst. by rewrite Hn.
  - intros x Hx. rewrite lookup_insert_ne; [done|]. set_solver.
  - intros x. rewrite lookup_insert. case_decide; [|done]. subst. rewrite Hn. by split.
Qed.

Lemma store_prev_effect h p v :
  has h p → ∃ h', store_prev p v h = Some h' ∧
    effect h h' (load_next h) (λ x, if decide (x = p) then Some v else load_prev h x) [p].
Proof.
  intros [n Hn]. unfold store_prev. rewrite Hn. simpl. eexists. split; [done|].
  split; unfold load_next, load_prev, has.
  - intros x. rewrite lookup_insert. case_decide; [|done]. subst. by rewrite Hn.
  - intros x. rewrite lookup_insert. do 2 case_decide; naive_solver.
  - intros x Hx. rewrite lookup_insert_ne; [done|]. set_solver.
  - intros x. rewrite lookup_insert. case_decide; [|done]. subst. rewrite Hn. by split.
Qed.

Lemma effect_trans h h1 h2 nx1 pv1 nx2 pv2 t1 t2 :
  effect h h1 nx1 pv1 t1 → effect h1 h2 nx2 pv2 t2 →
  effect h h2 nx2 pv2 (t1 ++ t2).
Proof.
  intros [? ? Hf1 Hh1] [? ? Hf2 Hh2]. split; [done|done| |].
  - intros x Hx. rewrite Hf2, Hf1; set_solver.
  - intros x. by rewrite Hh2, Hh1.
Qed.

Lemma effect_ext h h' nx pv nx' pv' t t' :
  effect h h' nx pv t → (∀ x, nx x = nx' x) → (∀ x, pv x = pv' x) → t ⊆ t' →
  effect h h' nx' pv' t'.
Proof.
  intros [Hn Hp Hf Hh] En Ep Ht. split.
  - intros x. by rewrite Hn.
  - intros x. by rewrite Hp.
  - intros x Hx. apply Hf. set_solver.
  - done.
Qed.

(** A store after a prefix of known effect. *)
Lemma store_next_after h0 h p v nx pv t :
  effect h0 h nx pv t → has h0 p →
  ∃ h', store_next p v h = Some h' ∧
    effect h0 h' (λ x, if decide (x = p) then Some v else nx x) pv (t ++ [p]).
Proof.
  intros He Hp. destruct (store_next_effect h p v) as (h' & E & He').
  { by apply (eff_has _ _ _ _ _ He). }
  exists h'. split; [done|].
  eapply effect_ext; [eapply effect_trans; [exact He|exact He']| | |done]; intros x; simpl.
  - case_decide; [done|]. apply (eff_next _ _ _ _ _ He).
  - apply (eff_prev _ _ _ _ _ He).
Qed.

Lemma store_prev_after h0 h p v nx pv t :
  effect h0 h nx pv t → has h0 p →
  ∃ h', store_prev p v h = Some h' ∧
    effect h0 h' nx (λ x, if decide (x = p) then Some v else pv x) (t ++ [p]).
Proof.
  intros He Hp. destruct (store_prev_effect h p v) as (h' & E & He').
  { by apply (eff_has _ _ _ _ _ He). }
  exists h'. split; [done|].
  eapply effect_ext; [eapply effect_trans; [exact He|exact He']| | |done]; intros x; simpl.
  - apply (eff_next _ _ _ _ _ He).
  - case_decide; [done|]. apply (eff_prev _ _ _ _ _ He).
Qed.

Lemma effect_refl h : effect h h (load_next h) (load_prev h) [].
Proof. by split. Qed.

(** Symbolic execution of a sequence of stores. *)
Ltac run_store :=
  match goal with
  | He : effect ?h0 ?h _ _ _ |- context [store_prev ?p ?v ?h] =>
      let h' := fresh "h" in let E := fresh "E" in let Heff := fresh "Heff" in
      destruct (store_prev_after h0 h p v _ _ _ He) as (h' & E & Heff);
        [done | rewrite E; clear He E; cbn [mbind option_bind]]
  | He : effect ?h0 ?h _ _ _ |- context [store_next ?p ?v ?h] =>
      let h' := fresh "h" in let E := fresh "E" in let Heff := fresh "Heff" in
      destruct (store_next_after h0 h p v _ _ _ He) as (h' & E & Heff);
        [done | rewrite E; clear He E; cbn [mbind option_bind]]
  end.

Lemma list_add_node_effect h nw pv nx :
  has h nw → has h pv → has h nx →
  ∃ h', list_add_node nw pv nx h = Some h' ∧
    effect h h'
      (λ x, if decide (x = pv) then Some nw
            else if decide (x = nw) then Some nx else load_next h x)
      (λ x, if decide (x = nw) then Some pv
            else if decide (x = nx) then Some nw else load_prev h x)
      [nx; nw; nw; pv].
Proof.
  intros. unfold list_add_node. pose proof (effect_refl h). repeat run_store. eauto.
Qed.

Lemma list_del_node_effect h pv nx :
  has h pv → has h nx →
  ∃ h', list_del_node pv nx h = Some h' ∧
    effect h h' (λ x, if decide (x = pv) then Some nx else load_next h x)
                (λ x, if decide (x = nx) then Some pv else load_prev h x) [nx; pv].
Proof.
  intros. unfold list_del_node. pose proof (effect_refl h). repeat run_store. eauto.
Qed.

Lemma nodup_link (a : ptr) l1 l2 n :
  NoDup (a :: l1 ++ l2) → n ∉ a :: l1 ++ l2 → NoDup (a :: l1 ++ n :: l2).
Proof.
  intros Hnd Hn. apply not_elem_of_cons in Hn as [? ?]. inv Hnd.
  rewrite <- Permutation_middle. constructor; [by apply not_elem_of_cons|by constructor].
Qed.

Lemma nodup_unlink (a : ptr) l1 l2 n : NoDup (a :: l1 ++ n :: l2) → NoDup (a :: l1 ++ l2).
Proof.
  rewrite <- Permutation_middle. intros Hnd. inv Hnd.
  match goal with H : NoDup (_ :: _) |- _ => inv H end.
  constructor; [|done]. set_solver.
Qed.

Lemma nodup_flip (a : ptr) l1 l2 : NoDup (a :: l1 ++ l2) → NoDup (a :: reverse l2 ++ reverse l1).
Proof. by rewrite <- reverse_app, reverse_Permutation. Qed.

(** Linking [nw] between the prefix [l1] and the suffix [l2] of the list. *)
Lemma dll_insert h hd l1 l2 nw :
  dll h hd (l1 ++ l2) → nw ∉ hd :: l1 ++ l2 → has h nw →
  ∃ h', list_add_node nw (path_last hd l1) (path_first l2 hd) h = Some h' ∧
    dll h' hd (l1 ++ nw :: l2) ∧
    (∀ x, x ∉ hd :: nw :: l1 ++ l2 → h' !! x = h !! x) ∧ (∀ x, has h' x ↔ has h x).
Proof.
  intros Hd Hnw Hhas. pose proof (path_last_elem hd l1) as Hpl.
  pose proof (path_first_elem l2 hd) as Hpf.
  destruct (list_add_node_effect h nw (path_last hd l1) (path_first l2 hd))
    as (h' & E & [Hn Hp Hf Hh]).
  { done. } { eapply dll_has; [done|set_solver]. } { eapply dll_has; [done|set_solver]. }
  exists h'. split; [done|]. destruct Hd as [Hnd Hnx Hpv].
  split_and!; [split| |done].
  - by apply nodup_link.
  - eapply path_insert; [done|done|exact Hnx| | |].
    + intros x ? ?. rewrite Hn. by repeat case_decide; set_solver.
    + rewrite Hn. by case_decide.
    + rewrite Hn. by repeat case_decide; set_solver.
  - rewrite reverse_app, reverse_cons, <- app_assoc. simpl.
    rewrite reverse_app in Hpv.
    eapply path_insert; [| |exact Hpv| | |].
    + by apply nodup_flip.
    + rewrite <- reverse_app, elem_of_cons, elem_of_reverse. by rewrite elem_of_cons in Hnw.
    + intros x. rewrite path_last_reverse. intros. rewrite Hp.
      by repeat case_decide; set_solver.
    + rewrite path_last_reverse, Hp. by repeat case_decide; set_solver.
    + rewrite path_first_reverse, Hp. by case_decide.
  - intros x Hx. apply Hf. set_solver.
Qed.

Lemma dll_remove h hd l1 x l2 :
  dll h hd (l1 ++ x :: l2) →
  ∃ h', list_del_node (path_last hd l1) (path_first l2 hd) h = Some h' ∧
    dll h' hd (l1 ++ l2) ∧
    (∀ y, y ∉ hd :: l1 ++ l2 → h' !! y = h !! y) ∧ (∀ y, has h' y ↔ has h y).
Proof.
  intros Hd. pose proof (path_last_elem hd l1) as Hpl.
  pose proof (path_first_elem l2 hd) as Hpf.
  destruct (list_del_node_effect h (path_last hd l1) (path_first l2 hd))
    as (h' & E & [Hn Hp Hf Hh]).
  { eapply dll_has; [done|set_solver]. } { eapply dll_has; [done|set_solver]. }
  exists h'. split; [done|]. destruct Hd as [Hnd Hnx Hpv].
  assert (Hnd' : NoDup (hd :: l1 ++ l2)).
  { by apply nodup_unlink in Hnd. }
  split_and!; [split| |done].
  - done.
  - eapply path_delete; [done|exact Hnx| |].
    + intros y ? ?. rewrite Hn. by case_decide.
    + rewrite Hn. by case_decide.
  - rewrite reverse_app in *. rewrite reverse_cons, <- app_assoc in Hpv.
    eapply path_delete; [|exact Hpv| |].
    + by apply nodup_flip.
    + intros y. rewrite path_last_reverse. intros. rewrite Hp. by case_decide.
    + rewrite path_last_reverse, path_first_reverse, Hp. by case_decide.
  - intros y Hy. apply Hf. set_solver.
Qed.

Lemma dll_at h hd l1 x l2 :
  dll h hd (l1 ++ x :: l2) →
  load_prev h x = Some (path_last hd l1) ∧ load_next h x = Some (path_first l2 hd).
Proof.
  intros [_ Hn Hp]. split.
  - rewrite reverse_app, reverse_cons, <- app_assoc in Hp.
    apply path_split in Hp as [_ Hp]. rewrite <- path_first_reverse.
    destruct (reverse l1); [done|by destruct Hp].
  - apply path_split in Hn as [_ Hn]. destruct l2; [done|by destruct Hn].
Qed.

Lemma dll_head h hd l :
  dll h hd l → load_next h hd = Some (path_first l hd) ∧ load_prev h hd = Some (path_last hd l).
Proof.
  intros [_ Hn Hp]. split.
  - destruct l; [done|by destruct Hn].
  - rewrite <- path_first_reverse. destruct (reverse l); [done|by destruct Hp].
Qed.

(** A node in no list is linked to itself. *)
Definition detached (h : heap) (x : ptr) : Prop := dll h x [].

Lemma detached_loads h x :
  detached h x ↔ load_next h x = Some x ∧ load_prev h x = Some x.
Proof.
  split.
  - intros [_ Hn Hp]. done.
  - intros [? ?]. split; [apply NoDup_singleton|done|done].
Qed.

Lemma INIT_LIST_HEAD_effect h x :
  has h x → ∃ h', INIT_LIST_HEAD x h = Some h' ∧ detached h' x ∧
    (∀ y, y ≠ x → h' !! y = h !! y) ∧ (∀ y, has h' y ↔ has h y).
Proof.
  intros Hx. unfold INIT_LIST_HEAD. pose proof (effect_refl h). repeat run_store.
  eexists. split; [done|]. destruct Heff0 as [Hn Hp Hf Hh]. split_and!; [|set_solver|done].
  apply detached_loads. rewrite Hn, Hp. by case_decide.
Qed.

Lemma loads_frame h h' x :
  h' !! x = h !! x → load_next h' x = load_next h x ∧ load_prev h' x = load_prev h x.
Proof. unfold load_next, load_prev. by intros ->. Qed.

Lemma dll_frame h h' hd l :
  (∀ x, x ∈ hd :: l → h' !! x = h !! x) → dll h hd l → dll h' hd l.
Proof.
  intros Hf [Hnd Hn Hp]. split; [done| |].
  - eapply path_frame; [|exact Hn]. intros x Hx. symmetry. by apply loads_frame, Hf.
  - eapply path_frame; [|exact Hp]. intros x Hx. symmetry. apply loads_frame, Hf.
    by rewrite elem_of_cons, elem_of_reverse, <- elem_of_cons in Hx.
Qed.

(** The heap holds the list [l] at [hd], and the nodes [free] are detached. *)
Record rep (h : heap) (hd : ptr) (l : list ptr) (free : gset ptr) : Prop := {
  rep_dll : dll h hd l;
  rep_free x : x ∈ free → detached h x ∧ x ∉ hd :: l;
}.

Inductive op :=
| AddHead (x : ptr)
| AddTail (x : ptr)
| AddBefore (x pos : ptr)
| AddAfter (x pos : ptr)
| DelInit (x : ptr).

Definition crun (hd : ptr) (o : op) (h : heap) : option heap :=
  match o with
  | AddHead x => list_add x hd h
  | AddTail x => list_add_tail x hd h
  | AddBefore x pos => p ← load_prev h pos; list_add_node x p pos h
  | AddAfter x pos => list_add x pos h
  | DelInit x => list_del_init x h
  end.

Definition arun (o : op) (l : list ptr) : list ptr :=
  match o with
  | AddHead x => Seq.add x l
  | AddTail x => Seq.add_tail x l
  | AddBefore x pos => Seq.add_before x pos l
  | AddAfter x pos => Seq.add_after x (Some pos) l
  | DelInit x => Seq.del x l
  end.

Definition afree (o : op) (free : gset ptr) : gset ptr :=
  match o with
  | AddHead x | AddTail x | AddBefore x _ | AddAfter x _ => free ∖ {[x]}
  | DelInit x => free ∪ {[x]}
  end.

Definition valid (o : op) (l : list ptr) (free : gset ptr) : Prop :=
  match o with
  | AddHead x | AddTail x => x ∈ free
  | AddBefore x pos | AddAfter x pos => x ∈ free ∧ pos ∈ l
  | DelInit x => x ∈ l ∨ x ∈ free
  end.

(** Every operation, run on the pointers, does to the list what it does to
    the sequence. *)
Lemma insert_step h hd l1 l2 free x :
  rep h hd (l1 ++ l2) free → x ∈ free →
  ∃ h', list_add_node x (path_last hd l1) (path_first l2 hd) h = Some h' ∧
        rep h' hd (l1 ++ x :: l2) (free ∖ {[x]}).
Proof.
  intros [Hd Hf] Hx. destruct (Hf x Hx) as [Hdx Hnx].
  destruct (dll_insert h hd l1 l2 x) as (h' & E & Hd' & Hfr & _); [done|done| |].
  { eapply (dll_has h x []); [done|set_solver]. }
  exists h'. split; [done|]. split; [done|].
  intros y Hy. apply elem_of_difference in Hy as [Hy Hyx].
  destruct (Hf y Hy) as [Hdy Hny]. split; [|set_solver].
  eapply dll_frame; [|exact Hdy]. intros z Hz. apply Hfr. set_solver.
Qed.

Lemma del_linked_step h hd l1 x l2 free :
  rep h hd (l1 ++ x :: l2) free →
  ∃ h', list_del_init x h = Some h' ∧ rep h' hd (l1 ++ l2) (free ∪ {[x]}).
Proof.
  intros [Hd Hf]. unfold list_del_init. destruct (dll_at _ _ _ _ _ Hd) as [-> ->].
  cbn [mbind option_bind].
  destruct (dll_remove _ _ _ _ _ Hd) as (h1 & -> & Hd1 & Hfr1 & Hh1). cbn [mbind option_bind].
  destruct (INIT_LIST_HEAD_effect h1 x) as (h2 & -> & Hx2 & Hfr2 & _).
  { apply Hh1. eapply dll_has; [done|set_solver]. }
  exists h2. split; [done|].
  assert (Hxn : x ∉ hd :: l1 ++ l2).
  { destruct Hd as [Hnd _ _]. rewrite <- Permutation_middle in Hnd.
    inv Hnd. match goal with H : NoDup (_ :: _) |- _ => inv H end. set_solver. }
  split.
  - eapply dll_frame; [|exact Hd1]. intros z Hz. apply Hfr2. set_solver.
  - intros y Hy. destruct (decide (y = x)) as [->|Hne]; [done|].
    destruct (Hf y) as [Hdy Hny]; [set_solver|]. split; [|set_solver].
    eapply dll_frame; [|exact Hdy]. intros z Hz. assert (z = y) as -> by set_solver.
    rewrite Hfr2 by done. apply Hfr1. set_solver.
Qed.

Lemma del_detached_step h hd l free x :
  rep h hd l free → x ∈ free →
  ∃ h', list_del_init x h = Some h' ∧ rep h' hd l (free ∪ {[x]}).
Proof.
  intros [Hd Hf] Hx. destruct (Hf x Hx) as [Hdx Hnx]. unfold list_del_init.
  pose proof (proj1 (detached_loads h x) Hdx) as [-> ->]. cbn [mbind option_bind].
  assert (Hhx : has h x) by (eapply (dll_has h x []); [done|set_solver]).
  destruct (list_del_node_effect h x x) as (h1 & -> & [_ _ Hfr1 Hh1]); [done|done|].
  cbn [mbind option_bind].
  destruct (INIT_LIST_HEAD_effect h1 x) as (h2 & -> & Hx2 & Hfr2 & _); [by apply Hh1|].
  assert (Hfr : ∀ y, y ≠ x → h2 !! y = h !! y).
  { intros. rewrite Hfr2 by done. apply Hfr1. set_solver. }
  exists h2. split; [done|]. split.
  - eapply dll_frame; [|exact Hd]. intros z Hz. apply Hfr. set_solver.
  - intros y Hy. destruct (decide (y = x)) as [->|Hne]; [done|].
    destruct (Hf y) as [Hdy Hny]; [set_solver|]. split; [|done].
    eapply dll_frame; [|exact Hdy]. intros z Hz. apply Hfr. set_solver.
Qed.

Lemma op_step h hd l free o :
  rep h hd l free → valid o l free →
  ∃ h', crun hd o h = Some h' ∧ rep h' hd (arun o l) (afree o free).
Proof.
  intros Hr Hv. destruct o as [x|x|x pos|x pos|x]; simpl in *.
  - unfold list_add. rewrite (proj1 (dll_head _ _ _ (rep_dll _ _ _ _ Hr))).
    by apply (insert_step h hd [] l).
  - unfold list_add_tail. rewrite (proj2 (dll_head _ _ _ (rep_dll _ _ _ _ Hr))).
    apply (insert_step h hd l []); [by rewrite app_nil_r|done].
  - destruct Hv as [Hx (l1 & l2 & -> & Hn)%list_elem_of_split_l].
    destruct (dll_at _ _ _ _ _ (rep_dll _ _ _ _ Hr)) as [-> _].
    rewrite seq_add_before by done. by apply (insert_step h hd l1 (pos :: l2)).
  - destruct Hv as [Hx (l1 & l2 & -> & Hn)%list_elem_of_split_l].
    unfold list_add. destruct (dll_at _ _ _ _ _ (rep_dll _ _ _ _ Hr)) as [_ ->].
    rewrite seq_add_after by done. cbn [mbind option_bind].
    pose proof (insert_step h hd (l1 ++ [pos]) l2 free x) as Hins.
    rewrite path_last_app in Hins. apply Hins; [by rewrite <- app_assoc|done].
  - destruct (decide (x ∈ l)) as [Hin|Hin].
    + apply list_elem_of_split_l in Hin as (l1 & l2 & -> & Hn).
      rewrite seq_del by done. by apply del_linked_step.
    + destruct Hv as [?|Hx]; [done|]. rewrite seq_del_absent by done.
      by apply del_detached_step.
Qed.

(** Runs of operations, on the pointers and on the sequence. *)
Fixpoint crun_all (hd : ptr) (os : list op) (h : heap) : option heap :=
  match os with
  | [] => Some h
  | o :: os => h ← crun hd o h; crun_all hd os h
  end.
Fixpoint arun_all (os : list op) (l : list ptr) : list ptr :=
  match os with
  | [] => l
  | o :: os => arun_all os (arun o l)
  end.
Fixpoint valid_all (os : list op) (l : list ptr) (free : gset ptr) : Prop :=
  match os with
  | [] => True
  | o :: os => valid o l free ∧ valid_all os (arun o l) (afree o free)
  end.

Lemma dll_for_each h hd l fuel x k :
  dll h hd (l ++ x :: k) → (S (length k) ≤ fuel)%nat →
  list_for_each fuel x hd h = Some (x :: k).
Proof.
  revert l x fuel. induction k as [|y k IH]; intros l x fuel Hd Hf;
    (destruct fuel as [|fuel]; [simpl in Hf; lia|]); simpl;
    rewrite decide_False by (destruct Hd as [Hnd _ _]; inv Hnd; set_solver);
    destruct (dll_at _ _ _ _ _ Hd) as [_ ->]; cbn [mbind option_bind path_first].
  - destruct fuel; simpl; by rewrite decide_True.
  - rewrite (IH (l ++ [x]) y); [done|by rewrite <- app_assoc|simpl in Hf; lia].
Qed.

Lemma dll_observe h hd l fuel :
  dll h hd l → (length l ≤ fuel)%nat →
  list_empty hd h = Some (Seq.empty l) ∧
  (p ← load_next h hd; list_for_each fuel p hd h) = Some l.
Proof.
  intros Hd Hf. unfold list_empty. destruct (dll_head _ _ _ Hd) as [-> _].
  cbn [mbind option_bind]. destruct l as [|x k]; simpl.
  - rewrite bool_decide_eq_true_2 by done. split; [done|].
    destruct fuel; simpl; by rewrite decide_True.
  - rewrite bool_decide_eq_false_2 by (destruct Hd as [Hnd _ _]; inv Hnd; set_solver).
    split; [done|]. by apply (dll_for_each h hd []).
Qed.

Lemma rep_linked h hd l free x :
  rep h hd l free → x ∈ l ∨ x ∈ free → list_empty x h = Some (negb (Seq.linked x l)).
Proof.
  intros [Hd Hf] Hx. unfold list_empty, Seq.linked. destruct (decide (x ∈ l)) as [Hin|Hin].
  - rewrite bool_decide_eq_true_2 by done. simpl.
    apply list_elem_of_split_l in Hin as (l1 & l2 & -> & _).
    destruct (dll_at _ _ _ _ _ Hd) as [_ ->]. cbn [mbind option_bind].
    rewrite bool_decide_eq_false_2; [done|].
    destruct Hd as [Hnd _ _]. pose proof (path_first_elem l2 hd).
    rewrite <- Permutation_middle in Hnd. inv Hnd.
    match goal with H : NoDup (_ :: _) |- _ => inv H end. set_solver.
  - rewrite bool_decide_eq_false_2 by done. destruct Hx as [?|Hx]; [done|].
    destruct (Hf x Hx) as [[-> _]%detached_loads _]. cbn [mbind option_bind].
    by rewrite bool_decide_eq_true_2.
Qed.

End DllFacts.

(** ** Properties *)

Section properties.
Import Dll DllFacts.


Definition ex_heap : heap :=
  list_to_map ((λ p, (p, mk_list_head p p)) <$> [1; 2; 3; 4]).

End properties.
