(* ===== verification/Timer.v ===== *)
(** * Per-CPU timers

    [Ticks] models hypervisor/common/ticks.c.  The timer list of one physical
    CPU and the operations on it are those of hypervisor/common/timer.h;
    [RvTimer] models hypervisor/arch/riscv/timer.c and [X86Timer] models
    hypervisor/common/timer.c, which differ in how the hardware comparator is
    programmed and in the loop that runs expired timers. *)

From S2P Require Import Prelude LinkedList.
From Stdlib Require Import Sorted.

(** ** Ticks *)

Module Ticks.

(** [cpu_tickrate] in kHz. *)
Definition us_to_ticks (cpu_tickrate us : Z) : Z := u64 (us * cpu_tickrate) / 1000.

Definition ticks_to_us (cpu_tickrate ticks : Z) : Z :=
  let khz := cpu_tickrate in
  if nonzero khz then u64 (ticks * 1000) / khz else 0.

(** Division by a zero tick rate is undefined: [None]. *)
Definition ticks_to_ms (cpu_tickrate ticks : Z) : option Z :=
  if nonzero cpu_tickrate then Some (ticks / cpu_tickrate) else None.

Definition TICKS_PER_MS (cpu_tickrate : Z) : Z := us_to_ticks cpu_tickrate 1000.

End Ticks.

(** ** Timers *)

(** Timer objects are identified by their address. *)
Abbreviation tmid := nat.

Inductive tick_mode := TICK_MODE_ONESHOT | TICK_MODE_PERIODIC.
#[export] Instance tick_mode_eq : EqDecision tick_mode.
Proof. solve_decision. Defined.

(** struct hv_timer; the [node] field is the timer's membership in
    [timer_list]. A handler is named by a number, [None] is NULL. *)
Record hv_timer := mk_hv_timer {
  mode : tick_mode;
  timeout : Z;
  period_in_cycle : Z;
  func : option nat;
  priv_data : Z;
}.
#[export] Instance eta_hv_timer : Eta hv_timer :=
  MkEta _ (rd mk_hv_timer <*> mode <*> timeout <*> period_in_cycle <*> func <*> priv_data).

(** The timers of one CPU: the timer objects, the active list
    (struct per_cpu_timers), the hardware deadline last programmed and the
    handlers called so far, in order. *)
Record timers := mk_timers {
  tobj : gmap tmid hv_timer;
  timer_list : list tmid;
  hw_deadline : option Z;
  fired : list (nat * Z);
}.
#[export] Instance eta_timers : Eta timers :=
  MkEta _ (rd mk_timers <*> tobj <*> timer_list <*> hw_deadline <*> fired).

Definition MAX_TIMER_ACTIONS : Z := 32.
Definition MIN_TIMER_PERIOD_US : Z := 500.

Definition timer_init (ts : timers) : timers := ts⟨timer_list := []⟩.

Definition set_tobj (t : tmid) (tm : hv_timer) (ts : timers) : timers :=
  ts⟨tobj := <[t := tm]> (tobj ts)⟩.

(** [timer_is_started] *)
Definition timer_is_started (t : tmid) (ts : timers) : bool :=
  Seq.linked t (timer_list ts).

(** [timer_expired(timer, now, delta)]: the result and the value stored
    through [delta]. *)
Definition timer_expired (tm : hv_timer) (now : Z) : bool * Z :=
  if nonzero (timeout tm) && (now <? timeout tm)
  then (false, timeout tm - now) else (true, 0).

(** Re-initialising the node of a linked timer breaks the list it is on, which
    timer.h forbids: [None]. *)
Definition initialize_timer (t : tmid) (f : option nat) (priv tmo period : Z)
    (ts : timers) : option timers :=
  if Seq.linked t (timer_list ts) then None else
  let tm :=
    if 0 <? period
    then mk_hv_timer TICK_MODE_PERIODIC tmo period f priv
    else mk_hv_timer TICK_MODE_ONESHOT tmo 0 f priv in
  Some (set_tobj t tm ts).

Definition update_timer (t : tmid) (tmo period : Z) (ts : timers) : timers :=
  match tobj ts !! t with
  | None => ts
  | Some tm =>
      let tm := tm⟨timeout := tmo⟩ in
      set_tobj t
        (if 0 <? period
         then tm⟨mode := TICK_MODE_PERIODIC⟩⟨period_in_cycle := period⟩
         else tm⟨mode := TICK_MODE_ONESHOT⟩⟨period_in_cycle := 0⟩) ts
  end.

Definition del_timer (t : tmid) (ts : timers) : timers :=
  if Seq.linked t (timer_list ts)
  then ts⟨timer_list := Seq.del t (timer_list ts)⟩ else ts.

(** The timeout of a timer object, 0 if there is none. *)
Definition tmo (objs : gmap tmid hv_timer) (t : tmid) : Z :=
  match objs !! t with Some tm => timeout tm | None => 0 end.

(** The scan of [local_add_timer]: the last node passed before the first
    timer due no earlier than [tick]; [None] is the list head. *)
Fixpoint scan_prev (objs : gmap tmid hv_timer) (tick : Z) (l : list tmid)
    (prev : option tmid) : option tmid :=
  match l with
  | [] => prev
  | x :: l' => if tmo objs x <? tick then scan_prev objs tick l' (Some x) else prev
  end.

(** Returns whether the timer became the head of the list. *)
Definition local_add_timer (t : tmid) (ts : timers) : timers * bool :=
  let prev := scan_prev (tobj ts) (tmo (tobj ts) t) (timer_list ts) None in
  (ts⟨timer_list := Seq.add_after t prev (timer_list ts)⟩,
   match prev with None => true | Some _ => false end).

Definition run_timer (tm : hv_timer) (ts : timers) : timers :=
  match func tm with
  | Some f => if nonzero (timeout tm)
              then ts⟨fired := fired ts ++ [(f, priv_data tm)]⟩ else ts
  | None => ts
  end.

(** add_timer up to the architecture's comparator update [arch]. The result
    is [None] when the assertion that the timer is not linked fails. *)
Definition add_timer_with (einval : Z) (arch : timers → timers) (tickrate : Z)
    (t : tmid) (ts : timers) : option (timers * Z) :=
  match tobj ts !! t with
  | None => Some (ts, einval)
  | Some tm =>
      if bool_decide (func tm = None) || (timeout tm =? 0) then Some (ts, einval)
      else if Seq.linked t (timer_list ts) then None
      else
        let tm := match mode tm with
                  | TICK_MODE_PERIODIC =>
                      tm⟨period_in_cycle :=
                           Z.max (period_in_cycle tm)
                             (Ticks.us_to_ticks tickrate MIN_TIMER_PERIOD_US)⟩
                  | TICK_MODE_ONESHOT => tm
                  end in
        let '(ts, first) := local_add_timer t (set_tobj t tm ts) in
        Some ((if first then arch ts else ts), 0)
  end.

(** The timer at the head of the list. *)
Definition first_timeout (ts : timers) : option Z :=
  match timer_list ts with [] => None | t :: _ => Some (tmo (tobj ts) t) end.

(** ** arch/riscv/timer.c *)

Module RvTimer.

Definition QEMU_CPUFREQ : Z := 0x1000000.
Definition get_cpu_khz : Z := QEMU_CPUFREQ / 1000.

(** [set_deadline(deadline)] with [ticks] read from the CLINT. *)
Definition set_deadline (tickrate ticks deadline : Z) (ts : timers) : timers :=
  let deadline :=
    if deadline <? ticks
    then u64 (ticks + Ticks.us_to_ticks tickrate MIN_TIMER_PERIOD_US) else deadline in
  ts⟨hw_deadline := Some deadline⟩.

(** [udelay(us)] on the successive values [ticks] of the counter: the number of
    polls after which it returns. *)
Fixpoint udelay_loop (fuel : nat) (deadline : Z) (ticks : nat → Z) (k : nat) : option nat :=
  match fuel with
  | O => None
  | S fuel => if ticks k <? deadline then udelay_loop fuel deadline ticks (S k) else Some k
  end.

Definition udelay (fuel : nat) (tickrate us : Z) (ticks : nat → Z) : option nat :=
  udelay_loop fuel (u64 (Ticks.us_to_ticks tickrate us + ticks O)) ticks 1.

Definition get_s_time (tickrate tick : Z) : Z := Ticks.ticks_to_us tickrate tick.

Definition CLINT_DISABLE_TIMER : Z := 0xffffffff.

(** preinit_timer: the tick rate, the boot count and the comparators of the
    [nr_cpus] harts. *)
Definition preinit_timer (nr_cpus : nat) (tick : Z) : Z * Z * list Z :=
  (get_cpu_khz, tick, replicate nr_cpus CLINT_DISABLE_TIMER).

Definition update_physical_timer (tickrate ticks : Z) (ts : timers) : timers :=
  match first_timeout ts with
  | None => ts
  | Some d => set_deadline tickrate ticks d ts
  end.

Definition add_timer (tickrate ticks : Z) : tmid → timers → option (timers * Z) :=
  add_timer_with (-1) (update_physical_timer tickrate ticks) tickrate.

(** The body of the loop of timer_deadline_handler on the timer [t] whose
    budget is not used up; [tick] is the value of get_tick() it may read. *)
Definition expire (t : tmid) (tick : Z) (ts : timers) : timers :=
  match tobj ts !! t with
  | None => ts
  | Some tm =>
      let ts := run_timer tm (del_timer t ts) in
      match mode tm with
      | TICK_MODE_PERIODIC =>
          (local_add_timer t
             (set_tobj t (tm⟨timeout := u64 (tick + period_in_cycle tm)⟩) ts)).1
      | TICK_MODE_ONESHOT => ts
      end
  end.

(** [list_for_each_safe(pos, n, &timer_list)]: [pos] is the current node and
    [n] the successor saved before the body ran, [None] being the list head;
    [ticks k] is what the counter reads in the [k]-th iteration. *)
Fixpoint deadline_loop (fuel : nat) (now : Z) (ticks : nat → Z) (k : nat)
    (pos n : option tmid) (tries : Z) (ts : timers) : option timers :=
  match pos with
  | None => Some ts
  | Some t =>
      match fuel with
      | O => None
      | S fuel =>
          let tries := u32 (tries - 1) in
          let ts :=
            if (tmo (tobj ts) t <=? now) && nonzero tries
            then expire t (ticks k) ts else ts in
          deadline_loop fuel now ticks (S k) n
            (match n with
             | None => head (timer_list ts)
             | Some n => Seq.next n (timer_list ts)
             end) tries ts
      end
  end.

(** [ticks 0] is the read at entry, [ticks (S i)] those of the loop and
    [last] the one that programs the comparator. *)
Definition timer_deadline_handler (fuel : nat) (tickrate : Z) (ticks : nat → Z) (last : Z)
    (ts : timers) : option timers :=
  let pos := head (timer_list ts) in
  let n := match pos with Some t => Seq.next t (timer_list ts) | None => None end in
  ts ← deadline_loop fuel (ticks O) ticks 1 pos n MAX_TIMER_ACTIONS ts;
  Some (update_physical_timer tickrate last ts).

(** Enough iterations for every node to be visited, once before and once after
    it is re-armed. *)
Definition handler_fuel (ts : timers) : nat := S (2 * length (timer_list ts)).

Definition hv_timer_handler (tickrate : Z) (ticks : nat → Z) (last : Z) (ts : timers) :=
  timer_deadline_handler (handler_fuel ts) tickrate ticks last ts.

End RvTimer.

(** ** common/timer.c (x86) *)

Module X86Timer.

Definition EINVAL : Z := 22.

(** The TSC deadline MSR takes any value, past ones included. *)
Definition update_physical_timer (ts : timers) : timers :=
  match first_timeout ts with
  | None => ts
  | Some d => ts⟨hw_deadline := Some d⟩
  end.

Definition add_timer (tickrate : Z) : tmid → timers → option (timers * Z) :=
  add_timer_with (- EINVAL) update_physical_timer tickrate.

Definition expire (t : tmid) (ts : timers) : timers :=
  match tobj ts !! t with
  | None => ts
  | Some tm =>
      let ts := run_timer tm (del_timer t ts) in
      match mode tm with
      | TICK_MODE_PERIODIC =>
          (local_add_timer t
             (set_tobj t (tm⟨timeout := u64 (timeout tm + period_in_cycle tm)⟩) ts)).1
      | TICK_MODE_ONESHOT => set_tobj t (tm⟨timeout := 0⟩) ts
      end
  end.

Fixpoint softirq_loop (fuel : nat) (now : Z) (pos n : option tmid) (tries : Z)
    (ts : timers) : option timers :=
  match pos with
  | None => Some ts
  | Some t =>
      match fuel with
      | O => None
      | S fuel =>
          let tries := u32 (tries - 1) in
          if (tmo (tobj ts) t <=? now) && nonzero tries then
            let ts := expire t ts in
            softirq_loop fuel now n
              (match n with
               | None => head (timer_list ts)
               | Some n => Seq.next n (timer_list ts)
               end) tries ts
          else Some ts
      end
  end.

Definition timer_softirq (now : Z) (ts : timers) : option timers :=
  let pos := head (timer_list ts) in
  let n := match pos with Some t => Seq.next t (timer_list ts) | None => None end in
  ts ← softirq_loop (Z.to_nat MAX_TIMER_ACTIONS) now pos n MAX_TIMER_ACTIONS ts;
  Some (update_physical_timer ts).

End X86Timer.

(** ** The timer list invariant *)

Definition by_timeout (objs : gmap tmid hv_timer) (a b : tmid) : Prop :=
  tmo objs a ≤ tmo objs b.

(** A timer that may be on the list: it was accepted by add_timer. *)
Definition armed (tm : hv_timer) : Prop :=
  func tm ≠ None ∧ 0 < timeout tm ∧ (mode tm = TICK_MODE_PERIODIC → 0 < period_in_cycle tm).

Record timers_wf (ts : timers) : Prop := {
  wf_nodup : NoDup (timer_list ts);
  wf_armed : ∀ t, t ∈ timer_list ts → ∃ tm, tobj ts !! t = Some tm ∧ armed tm;
  wf_sorted : StronglySorted (by_timeout (tobj ts)) (timer_list ts);
}.

Section list_lemmas.
Context (objs : gmap tmid hv_timer).

Lemma scan_prev_split tick l prev :
  ∃ l1 l2, l = l1 ++ l2 ∧ Forall (λ x, tmo objs x < tick) l1
    ∧ (∀ x, head l2 = Some x → tick ≤ tmo objs x)
    ∧ scan_prev objs tick l prev = match last l1 with Some x => Some x | None => prev end.
Proof.
  revert prev; induction l as [|x l IH]; intros prev; simpl.
  - exists [], []. by split_and!.
  - destruct (Z.ltb_spec (tmo objs x) tick).
    + destruct (IH (Some x)) as (l1 & l2 & -> & Hl1 & Hl2 & ->).
      exists (x :: l1), l2. split_and!; [done|by constructor|done|].
      rewrite last_cons. by destruct (last l1).
    + exists [], (x :: l). split_and!; [done|constructor| |done].
      intros y [= ->]; lia.
Qed.

Lemma sorted_insert t l1 l2 :
  StronglySorted (by_timeout objs) (l1 ++ l2) →
  Forall (λ x, tmo objs x < tmo objs t) l1 →
  (∀ x, head l2 = Some x → tmo objs t ≤ tmo objs x) →
  StronglySorted (by_timeout objs) (l1 ++ t :: l2).
Proof.
  induction l1 as [|x l1 IH]; simpl; intros Hs Hl1 Hl2.
  - constructor; [done|]. destruct l2 as [|y l2]; [constructor|].
    specialize (Hl2 y eq_refl). inv Hs. constructor; [done|].
    eapply Forall_impl; [done|]. unfold by_timeout. intros; lia.
  - inv Hs. inv Hl1. constructor; [by apply IH|].
    rewrite Forall_app in *. destruct_and!. split; [done|].
    constructor; [unfold by_timeout; lia|done].
Qed.

Lemma sorted_del t l : StronglySorted (by_timeout objs) l →
  StronglySorted (by_timeout objs) (Seq.del t l).
Proof.
  induction 1 as [|x l Hs IH Hx]; simpl; [constructor|].
  case_decide; [done|]. constructor; [done|].
  rewrite Forall_forall in *. intros y Hy. apply Hx.
  clear -Hy. induction l; simpl in *; [done|]. case_decide; set_solver.
Qed.

Lemma sorted_set t tm l : t ∉ l → StronglySorted (by_timeout objs) l →
  StronglySorted (by_timeout (<[t := tm]> objs)) l.
Proof.
  intros Ht. induction 1 as [|x l Hs IH Hx]; constructor; [set_solver|].
  rewrite Forall_forall in *. intros y Hy. specialize (Hx y Hy).
  unfold by_timeout, tmo in *. rewrite !lookup_insert_ne by set_solver. done.
Qed.
End list_lemmas.

Lemma elem_of_seq_del (t x : tmid) l : NoDup l → x ∈ Seq.del t l ↔ x ∈ l ∧ x ≠ t.
Proof.
  induction 1 as [|y l Hy Hl IH]; simpl; [set_solver|].
  case_decide; [subst|]; set_solver.
Qed.

Lemma nodup_seq_del (t : tmid) l : NoDup l → NoDup (Seq.del t l).
Proof.
  induction 1 as [|y l Hy Hl IH]; simpl; [constructor|].
  case_decide; [done|]. constructor; [|done]. rewrite elem_of_seq_del by done. tauto.
Qed.

Lemma nodup_insert (t : tmid) l1 l2 : t ∉ l1 ++ l2 → NoDup (l1 ++ l2) → NoDup (l1 ++ t :: l2).
Proof.
  intros Ht Hn. rewrite (Permutation_app_comm l1), <- app_comm_cons.
  constructor; [set_solver|]. by rewrite Permutation_app_comm.
Qed.

Lemma local_add_split t ts : t ∉ timer_list ts → NoDup (timer_list ts) →
  ∃ l1 l2, timer_list ts = l1 ++ l2
    ∧ Forall (λ x, tmo (tobj ts) x < tmo (tobj ts) t) l1
    ∧ (∀ x, head l2 = Some x → tmo (tobj ts) t ≤ tmo (tobj ts) x)
    ∧ local_add_timer t ts
      = (ts⟨timer_list := l1 ++ t :: l2⟩, match l1 with [] => true | _ => false end).
Proof.
  intros Ht Hn. unfold local_add_timer.
  destruct (scan_prev_split (tobj ts) (tmo (tobj ts) t) (timer_list ts) None)
    as (l1 & l2 & El & Hl1 & Hl2 & ->).
  exists l1, l2. split_and!; [done..|].
  destruct l1 as [|x l0 _] using rev_ind.
  - simpl. rewrite El. done.
  - rewrite last_snoc. simpl. rewrite El in *.
    rewrite <- app_assoc in *. simpl in *. rewrite seq_add_after.
    + destruct l0; by rewrite <- ?app_assoc.
    + apply NoDup_app in Hn as (_ & Hd & _). intros Hx. apply (Hd x Hx). set_solver.
Qed.

Lemma local_add_wf t tm ts : timers_wf ts → t ∉ timer_list ts →
  tobj ts !! t = Some tm → armed tm → timers_wf (local_add_timer t ts).1.
Proof.
  intros [Hn Ha Hs] Ht Hlk Htm.
  destruct (local_add_split t ts Ht Hn) as (l1 & l2 & El & Hl1 & Hl2 & ->).
  rewrite El in *. split; simpl.
  - by apply nodup_insert.
  - intros x Hx. destruct (decide (x = t)) as [->|]; [eauto|]. apply Ha. set_solver.
  - by apply sorted_insert.
Qed.

Lemma del_timer_list t ts : timer_list (del_timer t ts) = Seq.del t (timer_list ts).
Proof.
  unfold del_timer, Seq.linked. case_bool_decide; simpl; [done|]. by rewrite seq_del_absent.
Qed.
Lemma del_timer_tobj t ts : tobj (del_timer t ts) = tobj ts.
Proof. unfold del_timer. by case_if. Qed.
Lemma del_timer_fired t ts : fired (del_timer t ts) = fired ts.
Proof. unfold del_timer. by case_if. Qed.
Lemma del_timer_hw t ts : hw_deadline (del_timer t ts) = hw_deadline ts.
Proof. unfold del_timer. by case_if. Qed.

Lemma del_timer_wf t ts : timers_wf ts → timers_wf (del_timer t ts).
Proof.
  intros [Hn Ha Hs]. split; rewrite ?del_timer_list, ?del_timer_tobj.
  - by apply nodup_seq_del.
  - intros x Hx. apply Ha. by apply elem_of_seq_del in Hx as [? _].
  - by apply sorted_del.
Qed.

Lemma set_tobj_wf t tm ts : t ∉ timer_list ts → timers_wf ts → timers_wf (set_tobj t tm ts).
Proof.
  intros Ht [Hn Ha Hs]. split; simpl; [done| |by apply sorted_set].
  intros x Hx. rewrite lookup_insert_ne by set_solver. by apply Ha.
Qed.

Lemma run_timer_wf tm ts : timers_wf ts → timers_wf (run_timer tm ts).
Proof. intros [???]. unfold run_timer. destruct (func tm); [case_if|]; by split. Qed.

Lemma hw_wf h ts : timers_wf ts → timers_wf (ts⟨hw_deadline := h⟩).
Proof. intros [???]. by split. Qed.

Lemma run_timer_list tm ts : timer_list (run_timer tm ts) = timer_list ts.
Proof. unfold run_timer. destruct (func tm); [case_if|]; done. Qed.
Lemma run_timer_tobj tm ts : tobj (run_timer tm ts) = tobj ts.
Proof. unfold run_timer. destruct (func tm); [case_if|]; done. Qed.
Lemma run_timer_hw tm ts : hw_deadline (run_timer tm ts) = hw_deadline ts.
Proof. unfold run_timer. destruct (func tm); [case_if|]; done. Qed.

Create Rewrite HintDb timers.
#[export] Hint Rewrite del_timer_list del_timer_tobj del_timer_fired del_timer_hw
  run_timer_list run_timer_tobj run_timer_hw : timers.
#[export] Hint Resolve del_timer_wf set_tobj_wf run_timer_wf hw_wf : core.

(** The call made for an armed timer. *)
Definition call_of (objs : gmap tmid hv_timer) (t : tmid) : list (nat * Z) :=
  match objs !! t with
  | Some tm => match func tm with Some f => [(f, priv_data tm)] | None => [] end
  | None => []
  end.

Lemma run_timer_fired objs t tm ts : objs !! t = Some tm → 0 < timeout tm →
  fired (run_timer tm ts) = fired ts ++ call_of objs t.
Proof.
  intros Hlk Ht. unfold run_timer, call_of, nonzero. rewrite Hlk.
  destruct (func tm); simpl; [|by rewrite app_nil_r]. by zcmp.
Qed.

Lemma not_in_del t (l : list tmid) : NoDup l → t ∉ Seq.del t l.
Proof. intros Hn. rewrite elem_of_seq_del by done. tauto. Qed.

(** Removing an expired timer and putting it back with a later deadline. *)
Lemma rearm_wf t tm ts : timers_wf ts → armed tm →
  timers_wf (local_add_timer t (set_tobj t tm (del_timer t ts))).1.
Proof.
  intros Hw Htm. eapply local_add_wf; simpl.
  - apply set_tobj_wf; [|auto]. rewrite del_timer_list. apply not_in_del, Hw.
  - rewrite del_timer_list. apply not_in_del, Hw.
  - apply lookup_insert_eq.
  - done.
Qed.

(** ** add_timer and del_timer *)

(** The deadline the comparator holds is that of the first timer, or later
    if that one had already passed when it was programmed. *)
Definition due_by (h : option Z) (d : Z) : Prop := ∃ d', h = Some d' ∧ d ≤ d'.

Lemma tmo_set_tobj t tm ts : tmo (tobj (set_tobj t tm ts)) t = timeout tm.
Proof. unfold tmo. simpl. by rewrite lookup_insert_eq. Qed.

Definition with_min_period (tickrate : Z) (tm : hv_timer) : hv_timer :=
  match mode tm with
  | TICK_MODE_PERIODIC =>
      tm⟨period_in_cycle := Z.max (period_in_cycle tm)
                              (Ticks.us_to_ticks tickrate MIN_TIMER_PERIOD_US)⟩
  | TICK_MODE_ONESHOT => tm
  end.

(** add_timer on a valid timer that is not linked. *)
Lemma add_timer_ok einval arch tickrate t tm ts :
  (∀ ts, timer_list (arch ts) = timer_list ts ∧ tobj (arch ts) = tobj ts) →
  timers_wf ts → tobj ts !! t = Some tm → func tm ≠ None → 0 < timeout tm →
  (mode tm = TICK_MODE_PERIODIC → 0 < Ticks.us_to_ticks tickrate MIN_TIMER_PERIOD_US) →
  t ∉ timer_list ts →
  ∃ l1 l2, timer_list ts = l1 ++ l2
    ∧ let ts0 := set_tobj t (with_min_period tickrate tm) ts in
      let ts1 := ts0⟨timer_list := l1 ++ t :: l2⟩ in
      timers_wf ts1
      ∧ Forall (λ x, tmo (tobj ts) x < timeout tm) l1
      ∧ add_timer_with einval arch tickrate t ts
        = Some ((match l1 with [] => arch ts1 | _ => ts1 end), 0).
Proof.
  intros Harch Hw Hlk Hf Ht Hp Hni.
  assert (Htm : armed (with_min_period tickrate tm)).
  { unfold armed, with_min_period. destruct (mode tm) eqn:Em; simpl; split_and!; try done.
    all: rewrite ?Em; intros ?; try done. specialize (Hp eq_refl). lia. }
  assert (Hw0 := set_tobj_wf t (with_min_period tickrate tm) ts Hni Hw).
  destruct (local_add_split t (set_tobj t (with_min_period tickrate tm) ts) Hni
    (wf_nodup _ Hw0)) as (l1 & l2 & El & Hl1 & Hl2 & Ea).
  exists l1, l2. split; [done|]. cbv zeta. split_and!.
  - assert (Hw1 := local_add_wf t _ (set_tobj t _ ts) Hw0 Hni (lookup_insert_eq _ _ _) Htm).
    by rewrite Ea in Hw1.
  - rewrite tmo_set_tobj in Hl1. rewrite Forall_forall in *. intros x Hx.
    specialize (Hl1 x Hx). simpl in Hl1. unfold tmo in *.
    rewrite lookup_insert_ne in Hl1 by (intros ->; apply Hni; simpl in El; rewrite El; apply elem_of_app; by left).
    replace (timeout tm) with (timeout (with_min_period tickrate tm)); [done|].
    unfold with_min_period. by destruct (mode tm).
  - unfold add_timer_with. rewrite Hlk, bool_decide_false by done.
    rewrite (proj2 (Z.eqb_neq _ _)) by lia. unfold Seq.linked.
    rewrite bool_decide_false by done. cbn [orb].
    fold (with_min_period tickrate tm). rewrite Ea. by destruct l1.
Qed.

Lemma rv_update_inert tickrate tick ts :
  timer_list (RvTimer.update_physical_timer tickrate tick ts) = timer_list ts
  ∧ tobj (RvTimer.update_physical_timer tickrate tick ts) = tobj ts.
Proof.
  unfold RvTimer.update_physical_timer, first_timeout, RvTimer.set_deadline.
  by destruct (timer_list ts) eqn:?.
Qed.

Lemma timers_wf_inert ts ts' : timer_list ts' = timer_list ts → tobj ts' = tobj ts →
  timers_wf ts → timers_wf ts'.
Proof. intros El Eo [???]. split; by rewrite El, ?Eo. Qed.

(** Arming a one-shot timer changes no timer object and calls no handler. *)
Lemma rv_add_timer_frame tickrate tick t tm ts ts' r : tobj ts !! t = Some tm → mode tm = TICK_MODE_ONESHOT →
  RvTimer.add_timer tickrate tick t ts = Some (ts', r) → tobj ts' = tobj ts ∧ fired ts' = fired ts.
Proof.
  intros Ht Hm. unfold RvTimer.add_timer, add_timer_with. rewrite Ht, Hm.
  case_if; [by intros [= <- _]|]. case_if; [done|]. unfold local_add_timer. cbn [fst snd].
  set (ts1 := (set_tobj t tm ts)⟨timer_list := _⟩). intros [= <- _].
  assert (Hf : fired ts1 = fired ts) by done. assert (Ho : tobj ts1 = tobj ts) by by apply insert_id. clearbody ts1.
  destruct (scan_prev _ _ _ _); [done|].
  rewrite (proj2 (rv_update_inert tickrate tick ts1)). split; [done|].
  unfold RvTimer.update_physical_timer. by destruct (first_timeout ts1).
Qed.

Lemma rv_add_timer_spec tickrate tick t tm ts :
  timers_wf ts → tobj ts !! t = Some tm → func tm ≠ None → 0 < timeout tm →
  (mode tm = TICK_MODE_PERIODIC → 0 < Ticks.us_to_ticks tickrate MIN_TIMER_PERIOD_US) →
  t ∉ timer_list ts →
  ∃ ts' l1 l2, RvTimer.add_timer tickrate tick t ts = Some (ts', 0)
    ∧ timers_wf ts'
    ∧ timer_list ts = l1 ++ l2 ∧ timer_list ts' = l1 ++ t :: l2
    ∧ Forall (λ x, tmo (tobj ts) x < timeout tm) l1
    ∧ hw_deadline ts' =
      (if bool_decide (l1 = [])
       then Some (if timeout tm <? tick
                  then u64 (tick + Ticks.us_to_ticks tickrate MIN_TIMER_PERIOD_US)
                  else timeout tm)
       else hw_deadline ts).
Proof.
  intros Hw Hlk Hf Ht Hp Hni. unfold RvTimer.add_timer.
  destruct (add_timer_ok (-1) (RvTimer.update_physical_timer tickrate tick) tickrate t tm ts)
    as (l1 & l2 & El & Hw1 & Hl1 & ->); try done; [apply rv_update_inert|].
  eexists _, l1, l2. split_and!; [done| |done| |done|]; destruct l1 as [|x l1]; try done.
  - eapply timers_wf_inert, Hw1; apply rv_update_inert.
  - rewrite bool_decide_true by done. unfold RvTimer.update_physical_timer, first_timeout, RvTimer.set_deadline. simpl.
    unfold tmo. rewrite lookup_insert_eq.
    replace (timeout (with_min_period tickrate tm)) with (timeout tm); [done|].
    unfold with_min_period. by destruct (mode tm).
Qed.

(** ** The RISC-V deadline handler *)

Section rv_handler.
Context (now : Z) (ticks : nat → Z).
Hypothesis ticks_later : ∀ i, now ≤ ticks i.

Definition no_wrap (ts : timers) : Prop :=
  ∀ t tm i, tobj ts !! t = Some tm → ticks i + period_in_cycle tm < 2 ^ 64.

Definition periodic (objs : gmap tmid hv_timer) (t : tmid) : bool :=
  match objs !! t with
  | Some tm => bool_decide (mode tm = TICK_MODE_PERIODIC)
  | None => false
  end.

Lemma next_head (t : tmid) p s : t ∉ p → Seq.next t (p ++ t :: s) = head s.
Proof.
  induction p as [|x p IH]; simpl; intros Ht; [by rewrite decide_True|].
  rewrite decide_False by set_solver. apply IH. set_solver.
Qed.

(** Past the expired timers the loop changes nothing. *)
Lemma loop_idle s : ∀ fuel k p tries ts,
  timer_list ts = p ++ s → NoDup (p ++ s) →
  Forall (λ t, now < tmo (tobj ts) t) (p ++ s) → (length s ≤ fuel)%nat →
  RvTimer.deadline_loop fuel now ticks k (head s)
    (match s with [] => head (timer_list ts) | _ :: s' => head s' end) tries ts = Some ts.
Proof.
  induction s as [|t s IH]; intros fuel k p tries ts El Hn Hf Hl; simpl.
  - by destruct fuel.
  - simpl in Hl. destruct fuel as [|fuel]; [lia|]. simpl.
    assert (now < tmo (tobj ts) t) by (rewrite Forall_forall in Hf; apply Hf; set_solver).
    rewrite (proj2 (Z.leb_gt _ _)) by done. cbn [andb].
    rewrite <- (IH fuel (S k) (p ++ [t]) (u32 (tries - 1)) ts);
      [|by rewrite <- app_assoc; [] ..|lia].
    destruct s as [|t' s]; simpl; [done|]. f_equal.
    rewrite El. replace (p ++ t :: t' :: s) with ((p ++ [t]) ++ t' :: s) in *
      by (by rewrite <- app_assoc).
    apply next_head. apply NoDup_app in Hn as (_ & Hd & _). set_solver.
Qed.

Lemma tmo_set_ne t x tm (objs : gmap tmid hv_timer) : x ≠ t → tmo (<[t := tm]> objs) x = tmo objs x.
Proof. intros. unfold tmo. by rewrite lookup_insert_ne. Qed.

Lemma loop_idle_from fuel k r tries ts :
  (∀ t, r = Some t → t ∈ timer_list ts) → NoDup (timer_list ts) →
  Forall (λ t, now < tmo (tobj ts) t) (timer_list ts) → (length (timer_list ts) ≤ fuel)%nat →
  RvTimer.deadline_loop fuel now ticks k r
    (match r with None => head (timer_list ts) | Some t => Seq.next t (timer_list ts) end)
    tries ts = Some ts.
Proof.
  intros Hr Hn Hf Hl. destruct r as [t|]; [|by destruct fuel].
  destruct (list_elem_of_split _ _ (Hr t eq_refl)) as (p & s & El).
  rewrite El in *. rewrite next_head by (apply NoDup_app in Hn; set_solver).
  apply (loop_idle (t :: s) fuel k p); [done..|]. rewrite length_app in Hl. simpl in *. lia.
Qed.

(** What expiring the timer [t] at the head of the list, followed by the
    expired [rem] and the pending [R], leaves behind. *)
Record expired_head (t : tmid) (rem R : list tmid) (ts ts' : timers) : Prop := {
  eh_wf : timers_wf ts';
  eh_nowrap : no_wrap ts';
  eh_hw : hw_deadline ts' = hw_deadline ts;
  eh_fired : fired ts' = fired ts ++ call_of (tobj ts) t;
  eh_tobj : ∀ x, x ≠ t → tobj ts' !! x = tobj ts !! x;
  eh_list : ∃ R1 R2, R = R1 ++ R2
    ∧ timer_list ts' = rem ++ R1 ++ (if periodic (tobj ts) t then [t] else []) ++ R2
    ∧ Forall (λ x, now < tmo (tobj ts') x)
        (R1 ++ (if periodic (tobj ts) t then [t] else []) ++ R2);
}.

Lemma insert_after_expired (objs : gmap tmid hv_timer) d rem R l1 l2 :
  rem ++ R = l1 ++ l2 → Forall (λ x, tmo objs x < d) rem →
  (∀ x, head l2 = Some x → d ≤ tmo objs x) →
  ∃ R1, l1 = rem ++ R1 ∧ R = R1 ++ l2.
Proof.
  intros E Hr Hl. apply app_eq_inv in E as [(k & -> & ->)|(k & -> & ->)]; [|eauto].
  destruct k as [|x k]; [exists []; by rewrite !app_nil_r|].
  specialize (Hl x eq_refl). rewrite Forall_app in Hr. destruct Hr as [_ Hr]. inv Hr. lia.
Qed.

Lemma Forall_tmo_ext (P : Z → Prop) (o o' : gmap tmid hv_timer) l :
  (∀ x, x ∈ l → o' !! x = o !! x) →
  Forall (λ x, P (tmo o x)) l → Forall (λ x, P (tmo o' x)) l.
Proof.
  intros Ho. rewrite !Forall_forall. intros H x Hx. specialize (H x Hx).
  unfold tmo in *. by rewrite Ho.
Qed.

(** The periodic case: [t] is put back behind the expired timers. *)
Lemma rearm_head t tm rem R k ts :
  timers_wf ts → no_wrap ts → timer_list ts = rem ++ R → t ∉ rem ++ R →
  tobj ts !! t = Some tm → armed tm → mode tm = TICK_MODE_PERIODIC → timeout tm ≤ now →
  Forall (λ x, tmo (tobj ts) x ≤ now) rem → Forall (λ x, now < tmo (tobj ts) x) R →
  let ts' := (local_add_timer t
    (set_tobj t (tm⟨timeout := u64 (ticks k + period_in_cycle tm)⟩) ts)).1 in
  timers_wf ts' ∧ no_wrap ts' ∧ hw_deadline ts' = hw_deadline ts ∧ fired ts' = fired ts
  ∧ (∀ x, x ≠ t → tobj ts' !! x = tobj ts !! x)
  ∧ ∃ R1 R2, R = R1 ++ R2 ∧ timer_list ts' = rem ++ R1 ++ [t] ++ R2
    ∧ Forall (λ x, now < tmo (tobj ts') x) (R1 ++ [t] ++ R2).
Proof.
  intros Hw Hnw El Ht Hlk (Hf & Hpos & Hper) Em Hexp Hrem HR. cbv zeta.
  specialize (Hper Em). pose proof (ticks_later k). pose proof (Hnw t tm k Hlk).
  rewrite u64_id by (unfold word; lia). set (tm' := tm⟨timeout := _⟩). set (ts1 := set_tobj t tm' ts).
  assert (Hw1 : timers_wf ts1) by (apply set_tobj_wf; [by rewrite El|done]).
  assert (Ho : ∀ x, x ≠ t → tobj ts1 !! x = tobj ts !! x)
    by (intros; simpl; by rewrite lookup_insert_ne).
  assert (Htmo : tmo (tobj ts1) t = ticks k + period_in_cycle tm) by apply tmo_set_tobj.
  destruct (local_add_split t ts1) as (l1 & l2 & El1 & Hl1 & Hl2 & Ea);
    [by simpl; rewrite El|apply Hw1|]. simpl in El1. rewrite El in El1.
  assert (Hw2 : timers_wf (local_add_timer t ts1).1).
  { apply (local_add_wf t tm'); [done|by simpl; rewrite El|apply lookup_insert_eq|].
    split_and!; simpl; [done|lia|done]. }
  rewrite Ea in *. cbn [fst].
  destruct (insert_after_expired (tobj ts1) (tmo (tobj ts1) t) rem R l1 l2 El1)
    as (R1 & -> & ->); [|done|].
  { eapply (Forall_tmo_ext (λ z, z < tmo (tobj ts1) t)); [intros x Hx; apply Ho; set_solver|].
    eapply Forall_impl; [done|]. intros x Hx. cbv beta in *. rewrite Htmo. lia. }
  split_and!; [done| |done..|].
  - intros x y i Hx. simpl in Hx. apply lookup_insert_Some in Hx as [[<- <-]|[? ?]]; simpl; eauto.
  - exists R1, l2. split_and!; [done|by rewrite <- !app_assoc|].
    cbn [tobj]. rewrite Forall_app in *. destruct HR as [HR1 HR2].
    split; [|constructor; [change (now < tmo (tobj ts1) t); lia|]].
    all: eapply (Forall_tmo_ext (λ z, now < z)); [|done]; intros x Hx; apply Ho; set_solver.
Qed.

Lemma expire_head t rem R k ts :
  timers_wf ts → no_wrap ts → timer_list ts = t :: rem ++ R →
  Forall (λ x, tmo (tobj ts) x ≤ now) (t :: rem) → Forall (λ x, now < tmo (tobj ts) x) R →
  expired_head t rem R ts (RvTimer.expire t (ticks k) ts).
Proof.
  intros Hw Hnw El He HR.
  assert (Hn := wf_nodup _ Hw). rewrite El in Hn. apply NoDup_cons in Hn as [Ht Hn].
  destruct (wf_armed _ Hw t) as (tm & Hlk & Htm); [rewrite El; set_solver|].
  assert (Hexp : timeout tm ≤ now).
  { apply Forall_cons in He as [He _]. unfold tmo in He. by rewrite Hlk in He. }
  apply Forall_cons in He as [_ He]. unfold RvTimer.expire. rewrite Hlk.
  set (ts0 := run_timer tm (del_timer t ts)).
  assert (Ed : timer_list ts0 = rem ++ R).
  { unfold ts0. autorewrite with timers. rewrite El. simpl. by rewrite decide_True. }
  assert (Eo : tobj ts0 = tobj ts) by (unfold ts0; by autorewrite with timers).
  assert (Eh : hw_deadline ts0 = hw_deadline ts) by (unfold ts0; by autorewrite with timers).
  assert (Ef : fired ts0 = fired ts ++ call_of (tobj ts) t).
  { unfold ts0. erewrite run_timer_fired by (done || apply Htm). by autorewrite with timers. }
  assert (Hw0 : timers_wf ts0) by (unfold ts0; auto).
  assert (Hnw0 : no_wrap ts0) by (unfold no_wrap; by rewrite Eo).
  assert (Ep : periodic (tobj ts) t = bool_decide (mode tm = TICK_MODE_PERIODIC))
    by (unfold periodic; by rewrite Hlk).
  clearbody ts0. destruct (mode tm) eqn:Em.
  - split; [done..|by rewrite Eo|]. exists [], R. rewrite Ep. simpl. by rewrite Ed, Eo.
  - rewrite <- Eo in Hlk, He, HR.
    destruct (rearm_head t tm rem R k ts0 Hw0 Hnw0 Ed Ht Hlk Htm Em Hexp He HR)
      as (?&?&?&?&?&R1&R2&?&?&?).
    split; [done..|congruence|congruence|by rewrite <- Eo|].
    exists R1, R2. rewrite Ep. by rewrite bool_decide_true.
Qed.

Definition rv_next (n : option tmid) (l : list tmid) : option tmid :=
  match n with None => head l | Some n => Seq.next n l end.

(** The walk over the expired timers and then over the others. *)
Lemma loop_expired E : ∀ fuel k tries R ts,
  timers_wf ts → no_wrap ts → timer_list ts = E ++ R →
  Forall (λ x, tmo (tobj ts) x ≤ now) E → Forall (λ x, now < tmo (tobj ts) x) R →
  Z.of_nat (length E) < tries < 2 ^ 32 →
  (2 * length E + length R ≤ fuel)%nat →
  ∃ ts', RvTimer.deadline_loop fuel now ticks k (head (E ++ R))
           (match head (E ++ R) with
            | None => head (timer_list ts) | Some t => Seq.next t (timer_list ts) end)
           tries ts = Some ts'
    ∧ timers_wf ts' ∧ hw_deadline ts' = hw_deadline ts
    ∧ fired ts' = fired ts ++ concat (call_of (tobj ts) <$> E)
    ∧ (∀ x, x ∈ timer_list ts' ↔ x ∈ R ∨ x ∈ E ∧ periodic (tobj ts) x = true)
    ∧ Forall (λ x, now < tmo (tobj ts') x) (timer_list ts').
Proof.
  induction E as [|t E IH]; intros fuel k tries R ts Hw Hnw El HE HR Ht Hfuel.
  - exists ts. simpl in *. split_and!; [|done|done|by rewrite app_nil_r| |by rewrite El].
    + apply loop_idle_from; rewrite ?El; [|rewrite <- El; apply Hw|done|lia].
      destruct R; simpl; [done|]. intros ? [= ->]. set_solver.
    + rewrite El. set_solver.
  - simpl in Hfuel, Ht. destruct fuel as [|fuel]; [lia|]. rewrite El. cbn -[Seq.next].
    destruct (expire_head t E R k ts Hw Hnw El HE HR)
      as [Hw' Hnw' Hh Hfi Ho (R1 & R2 & -> & El' & HR')].
    assert (HtE : t ∉ E ++ R1 ++ R2).
    { pose proof (wf_nodup _ Hw) as Hn. rewrite El in Hn. by inv Hn. }
    apply Forall_cons in HE as [Ht0 HE].
    rewrite (proj2 (Z.leb_le _ _)) by done.
    rewrite (u32_id (tries - 1)) by (unfold word; lia).
    unfold nonzero. rewrite (proj2 (Z.eqb_neq _ _)) by lia. cbn [negb andb].
    pose proof (next_head t [] (E ++ R1 ++ R2)) as Hnx. cbn [app] in Hnx.
    rewrite Hnx by set_solver. clear Hnx.
    set (ts1 := RvTimer.expire t (ticks k) ts) in *. clearbody ts1.
    assert (HE1 : Forall (λ x, tmo (tobj ts1) x ≤ now) E).
    { eapply (Forall_tmo_ext (λ z, z ≤ now)); [|done]. intros x Hx. apply Ho. set_solver. }
    assert (Hlen : (length (R1 ++ (if periodic (tobj ts) t then [t] else []) ++ R2)
                    ≤ S (length (R1 ++ R2)))%nat).
    { rewrite !length_app. case_if; simpl; lia. }
    destruct (IH fuel (S k) (tries - 1) _ ts1 Hw' Hnw' El' HE1 HR')
      as (ts' & Hrun & Hw2 & Hh2 & Hf2 & Hin & Hall); [lia..|].
    exists ts'. split_and!; [|done|congruence| |..|done].
    + destruct E as [|e E]; [|by rewrite El' in *].
      rewrite <- Hrun. simpl in El'. rewrite !loop_idle_from; rewrite ?El'; try done.
      all: try (rewrite <- El'; apply Hw').
      all: try (simpl in *; lia).
      * intros x Hx%head_Some_elem_of. set_solver.
      * intros x Hx%head_Some_elem_of. set_solver.
    + rewrite Hf2, Hfi, <- app_assoc. simpl. do 3 f_equal.
      apply list_fmap_ext. intros i x Hx%list_elem_of_lookup_2. unfold call_of.
      by rewrite Ho by set_solver.
    + intros x. rewrite Hin. clear -Ho HtE. unfold periodic.
      destruct (decide (x = t)) as [->|Hx].
      * destruct (tobj ts !! t) as [[[] ]|]; simpl; set_solver.
      * rewrite Ho by done. destruct (tobj ts !! t) as [[[] ]|]; simpl; set_solver.
Qed.
End rv_handler.

Definition expired (now : Z) (ts : timers) : list tmid :=
  filter (λ t, tmo (tobj ts) t ≤ now) (timer_list ts).

Lemma sorted_split (objs : gmap tmid hv_timer) now l :
  StronglySorted (by_timeout objs) l →
  l = filter (λ t, tmo objs t ≤ now) l ++ filter (λ t, ¬ tmo objs t ≤ now) l.
Proof.
  induction 1 as [|x l Hs IH Hx]; simpl; [done|].
  destruct (decide (tmo objs x ≤ now)) as [Hle|Hgt].
  - rewrite !filter_cons, decide_True, (decide_False (P:=¬ _)) by tauto. simpl. by rewrite <- IH.
  - rewrite !filter_cons, decide_False, (decide_True (P:=¬ _)) by tauto.
    assert (E : filter (λ t, tmo objs t ≤ now) l = []).
    { apply elem_of_nil_inv. intros y [Hle Hy]%list_elem_of_filter.
      rewrite Forall_forall in Hx. specialize (Hx y Hy). unfold by_timeout in Hx. lia. }
    rewrite E in *. simpl in *. by rewrite <- IH.
Qed.

(** What an expiry leaves of a timer object: all but its timeout. *)
Definition static (tm : hv_timer) : tick_mode * Z * option nat * Z :=
  (mode tm, period_in_cycle tm, func tm, priv_data tm).

Lemma rv_expire_static t tick ts x :
  static <$> tobj (RvTimer.expire t tick ts) !! x = static <$> tobj ts !! x.
Proof.
  unfold RvTimer.expire. destruct (tobj ts !! t) as [tm|] eqn:Ht; [|done].
  assert (Ho : ∀ tm, tobj (run_timer tm (del_timer t ts)) = tobj ts).
  { intros tm0. rewrite <- (del_timer_tobj t ts). unfold run_timer. destruct (func tm0); [by case_if|done]. }
  destruct (mode tm) eqn:Em; simpl; rewrite ?Ho; [done|].
  destruct (decide (x = t)) as [->|]; [|by rewrite lookup_insert_ne].
  by rewrite lookup_insert_eq, Ht.
Qed.

Lemma rv_handler_static tickrate ticks last ts ts' x :
  RvTimer.hv_timer_handler tickrate ticks last ts = Some ts' →
  static <$> tobj ts' !! x = static <$> tobj ts !! x.
Proof.
  unfold RvTimer.hv_timer_handler, RvTimer.timer_deadline_handler.
  generalize (RvTimer.handler_fuel ts) 1%nat (head (timer_list ts))
    (match head (timer_list ts) with Some t => Seq.next t (timer_list ts) | None => None end) MAX_TIMER_ACTIONS.
  intros fuel. revert ts. induction fuel as [|fuel IH]; intros ts k [t|] n tries; cbn; try done.
  1, 3: intros [= <-]; by rewrite (proj2 (rv_update_inert tickrate last ts)).
  intros Hr. rewrite (IH _ _ _ _ _ Hr). case_if; [apply rv_expire_static|done].
Qed.

(** What the loop of the deadline handler leaves behind. *)
Lemma rv_handler_loop tickrate ticks last ts :
  timers_wf ts → (∀ i, ticks O ≤ ticks i) → no_wrap ticks ts →
  Z.of_nat (length (expired (ticks O) ts)) < MAX_TIMER_ACTIONS →
  ∃ ts1, RvTimer.hv_timer_handler tickrate ticks last ts
           = Some (RvTimer.update_physical_timer tickrate last ts1)
    ∧ timers_wf ts1 ∧ hw_deadline ts1 = hw_deadline ts
    ∧ fired ts1 = fired ts ++ concat (call_of (tobj ts) <$> expired (ticks O) ts)
    ∧ (∀ t, t ∈ timer_list ts1 ↔ t ∈ timer_list ts ∧
         (ticks O < tmo (tobj ts) t ∨ periodic (tobj ts) t = true))
    ∧ Forall (λ t, ticks O < tmo (tobj ts1) t) (timer_list ts1).
Proof.
  intros Hw Hmono Hnw Hlen. unfold MAX_TIMER_ACTIONS in Hlen.
  pose proof (sorted_split (tobj ts) (ticks O) _ (wf_sorted _ Hw)) as Esp.
  fold (expired (ticks O) ts) in Esp. set (R := filter _ _) in Esp.
  destruct (loop_expired (ticks O) ticks Hmono (expired (ticks O) ts)
    (RvTimer.handler_fuel ts) 1 MAX_TIMER_ACTIONS R ts)
    as (ts1 & Hrun & Hw1 & Hh & Hf & Hin & Hall); try done.
  { apply Forall_forall. intros x Hx. by apply list_elem_of_filter in Hx as [? _]. }
  { apply Forall_forall. intros x Hx. apply list_elem_of_filter in Hx as [? _]. lia. }
  { unfold RvTimer.handler_fuel. rewrite Esp. rewrite length_app. lia. }
  rewrite <- Esp in Hrun.
  assert (Hhd : RvTimer.hv_timer_handler tickrate ticks last ts
                = Some (RvTimer.update_physical_timer tickrate last ts1)).
  { unfold RvTimer.hv_timer_handler, RvTimer.timer_deadline_handler.
    destruct (head (timer_list ts)) as [t|]; [by rewrite Hrun|].
    unfold RvTimer.handler_fuel in *. simpl in *. by inv Hrun. }
  exists ts1. split_and!; [exact Hhd|done|done|done| |done].
  intros t. rewrite Hin. unfold R, expired. rewrite !list_elem_of_filter.
  rewrite (Z.lt_nge (ticks O)). destruct (decide (tmo (tobj ts) t ≤ ticks O)); tauto.
Qed.

(** C35: On RISC-V, when fewer than 32 timers are due and the tick counter does
    not run backwards, the deadline handler terminates, calls the handlers of
    exactly the timers that were due, once each and in deadline order, leaves
    on the list the timers that were not due and the periodic ones, all with a
    deadline in the future and still sorted, and programs the comparator for
    the first of them. *)
Theorem rv_handler_runs_expired tickrate ticks last ts :
  timers_wf ts → (∀ i, ticks O ≤ ticks i) → no_wrap ticks ts →
  Z.of_nat (length (expired (ticks O) ts)) < MAX_TIMER_ACTIONS →
  ∃ ts', RvTimer.hv_timer_handler tickrate ticks last ts = Some ts'
    ∧ timers_wf ts'
    ∧ fired ts' = fired ts ++ concat (call_of (tobj ts) <$> expired (ticks O) ts)
    ∧ (∀ t, t ∈ timer_list ts' ↔ t ∈ timer_list ts ∧
         (ticks O < tmo (tobj ts) t ∨ periodic (tobj ts) t = true))
    ∧ Forall (λ t, ticks O < tmo (tobj ts') t) (timer_list ts')
    ∧ hw_deadline ts' = match first_timeout ts' with
                        | None => hw_deadline ts
                        | Some d => Some (if d <? last
                            then u64 (last + Ticks.us_to_ticks tickrate MIN_TIMER_PERIOD_US)
                            else d)
                        end.
Proof.
  intros Hw Hmono Hnw Hlen.
  destruct (rv_handler_loop tickrate ticks last ts Hw Hmono Hnw Hlen)
    as (ts1 & -> & Hw1 & Hh & Hf & Hin & Hall).
  eexists; split; [done|].
  pose proof (rv_update_inert tickrate last ts1) as [El Eo]. rewrite El, Eo.
  split_and!; [by eapply timers_wf_inert| |done|done|].
  - rewrite <- Hf. unfold RvTimer.update_physical_timer. by destruct (first_timeout ts1).
  - unfold first_timeout. rewrite El, Eo, <- Hh. fold (first_timeout ts1).
    unfold RvTimer.update_physical_timer, RvTimer.set_deadline.
    by destruct (first_timeout ts1).
Qed.

Definition ex_timers : timers :=
  mk_timers {[ 1%nat := mk_hv_timer TICK_MODE_ONESHOT 10 0 (Some 7%nat) 70;
               2%nat := mk_hv_timer TICK_MODE_PERIODIC 20 50 (Some 8%nat) 80;
               3%nat := mk_hv_timer TICK_MODE_ONESHOT 90 0 (Some 9%nat) 90 ]}
    [1; 2; 3]%nat (Some 10) [].

Lemma ex_timers_wf : timers_wf ex_timers.
Proof.
  split.
  - by apply (bool_decide_unpack _).
  - intros t Ht. unfold ex_timers in *. simpl in *.
    repeat (apply elem_of_cons in Ht as [->|Ht]; [eexists; split; [reflexivity|]; unfold armed; simpl; split_and!; [done|lia|done || lia]|]).
    by apply elem_of_nil in Ht.
  - repeat constructor; vm_compute; done.
Qed.

Lemma ex_timers_no_wrap : no_wrap (λ i, 30 + Z.min (Z.of_nat i) 40) ex_timers.
Proof.
  intros t tm i Hlk. unfold ex_timers in Hlk. cbn [tobj] in Hlk.
  repeat (apply lookup_insert_Some in Hlk as [[<- <-]|[? Hlk]]; [simpl; lia|]).
  apply lookup_singleton_Some in Hlk as [<- <-]. simpl. lia.
Qed.

Lemma rv_handler_runs_expired_witness :
  ∃ ts', RvTimer.hv_timer_handler 1000 (λ i, 30 + Z.min (Z.of_nat i) 40) 35 ex_timers = Some ts'
    ∧ fired ts' = [(7%nat, 70); (8%nat, 80)].
Proof.
  destruct (rv_handler_runs_expired 1000 (λ i, 30 + Z.min (Z.of_nat i) 40) 35 ex_timers)
    as (ts' & Hrun & _ & Hf & _).
  - apply ex_timers_wf.
  - intros i. lia.
  - apply ex_timers_no_wrap.
  - vm_compute. reflexivity.
  - exists ts'. split; [exact Hrun|]. rewrite Hf. reflexivity.
Defined.

(** [n] one-shot timers that are all due. *)
Definition due_timers (n : nat) : timers :=
  mk_timers (list_to_map ((λ i, (i, mk_hv_timer TICK_MODE_ONESHOT (Z.of_nat i + 1) 0
                                      (Some i) 0)) <$> seq 0 n)) (seq 0 n) None [].

(** The RISC-V loop has no [break]: with 40 timers due, the one visited
    when the action budget reaches zero (the 32nd) is skipped, and the loop
    goes on with a wrapped counter and runs the other 39; the common (x86)
    loop stops after 31. *)
Theorem rv_handler_budget_wraps :
  (ts ← RvTimer.hv_timer_handler 1000 (λ _, 100) 100 (due_timers 40);
   Some (length (fired ts), timer_list ts)) = Some (39%nat, [31%nat])
  ∧ (ts ← X86Timer.timer_softirq 100 (due_timers 40);
     Some (length (fired ts), timer_list ts)) = Some (31%nat, seq 31 9).
Proof. split; vm_compute; reflexivity. Qed.

(** ** The common softirq *)

(** Room for [n] more periods before the 64-bit deadline wraps. *)
Definition headroom (n : nat) (ts : timers) : Prop :=
  ∀ t tm, tobj ts !! t = Some tm → 0 ≤ timeout tm ∧ 0 ≤ period_in_cycle tm
    ∧ timeout tm + Z.of_nat n * period_in_cycle tm < 2 ^ 64.

Lemma x86_expire_wf t n ts : timers_wf ts → t ∈ timer_list ts → headroom (S n) ts →
  timers_wf (X86Timer.expire t ts) ∧ headroom n (X86Timer.expire t ts)
  ∧ (∀ x, x ≠ t → x ∈ timer_list ts → x ∈ timer_list (X86Timer.expire t ts))
  ∧ ∃ c, fired (X86Timer.expire t ts) = fired ts ++ [c].
Proof.
  intros Hw Ht Hh. destruct (wf_armed _ Hw t Ht) as (tm & Hlk & Hf & Hpos & Hper).
  unfold X86Timer.expire. rewrite Hlk. set (ts0 := run_timer tm (del_timer t ts)).
  assert (Hw0 : timers_wf ts0) by (unfold ts0; auto).
  assert (Ed : timer_list ts0 = Seq.del t (timer_list ts))
    by (unfold ts0; by autorewrite with timers).
  assert (Hnt : t ∉ timer_list ts0) by (rewrite Ed; apply not_in_del, Hw).
  assert (Eo : tobj ts0 = tobj ts) by (unfold ts0; by autorewrite with timers).
  assert (Hfi : ∃ c, fired ts0 = fired ts ++ [c]).
  { unfold ts0. rewrite (run_timer_fired _ _ _ _ Hlk Hpos). autorewrite with timers.
    unfold call_of. rewrite Hlk. destruct (func tm); [eauto|done]. }
  assert (Hin : ∀ x, x ≠ t → x ∈ timer_list ts → x ∈ timer_list ts0).
  { intros x Hx Hxi. rewrite Ed. apply elem_of_seq_del; [apply Hw|done]. }
  assert (Hhr : ∀ tm', 0 ≤ timeout tm' → 0 ≤ period_in_cycle tm' →
    timeout tm' + Z.of_nat n * period_in_cycle tm' < 2 ^ 64 → headroom n (set_tobj t tm' ts0)).
  { intros tm' ??? x y Hx. simpl in Hx. rewrite Eo in Hx.
    apply lookup_insert_Some in Hx as [[<- <-]|[_ Hx]]; [done|].
    specialize (Hh x y Hx). lia. }
  specialize (Hh t tm Hlk). clearbody ts0. destruct (mode tm).
  - split_and!; [by apply set_tobj_wf| |done|done]. apply Hhr; simpl; lia.
  - specialize (Hper eq_refl). rewrite u64_id by (unfold word; nia).
    set (tm' := tm⟨timeout := _⟩).
    destruct (local_add_split t (set_tobj t tm' ts0)) as (l1 & l2 & El & _ & _ & Ea);
      [done|apply Hw0|]. assert (Hw1 := local_add_wf t tm' (set_tobj t tm' ts0)).
    rewrite Ea in *. cbn [fst] in *. simpl in El. split_and!; [| | |done].
    + apply Hw1; [by apply set_tobj_wf|done|apply lookup_insert_eq|].
      split_and!; simpl; [done|lia|done].
    + intros x y Hx. eapply (Hhr tm'); simpl; [nia..|]. exact Hx.
    + intros x Hx Hxi. specialize (Hin x Hx Hxi). rewrite El in Hin. simpl. set_solver.
Qed.

Lemma next_in (t x : tmid) l : NoDup l → Seq.next t l = Some x → x ∈ l ∧ x ≠ t.
Proof.
  induction 1 as [|y l Hy Hl IH]; simpl; [done|].
  case_decide; [subst; intros ?%head_Some_elem_of; set_solver|].
  intros [??]%IH. set_solver.
Qed.

Lemma no_calls {A} (l : list A) n : ∃ calls, l = l ++ calls ∧ (length calls ≤ n)%nat.
Proof. exists []. rewrite app_nil_r. split; [done|simpl; lia]. Qed.

Lemma x86_loop_bounded now n : ∀ fuel pos nx ts,
  (S n ≤ fuel)%nat → Z.of_nat (S n) < 2 ^ 32 → timers_wf ts → headroom n ts →
  (∀ t, pos = Some t → t ∈ timer_list ts) →
  (∀ t x, pos = Some t → nx = Some x → x ≠ t ∧ x ∈ timer_list ts) →
  ∃ ts', X86Timer.softirq_loop fuel now pos nx (Z.of_nat (S n)) ts = Some ts'
    ∧ timers_wf ts' ∧ ∃ calls, fired ts' = fired ts ++ calls ∧ (length calls ≤ n)%nat.
Proof.
  induction n as [|n IH]; intros fuel pos nx ts Hfuel Hn Hw Hh Hpos Hnx;
    (destruct pos as [t|]; [|exists ts; destruct fuel; (split_and!; [done..|apply no_calls])]);
    (destruct fuel as [|fuel]; [lia|]); cbn [X86Timer.softirq_loop].
  - rewrite u32_id by (unfold word; lia). replace (Z.of_nat 1 - 1) with 0 by lia.
    unfold nonzero. simpl. rewrite andb_false_r. exists ts.
    split_and!; [done..|apply no_calls].
  - rewrite u32_id by (unfold word; lia).
    replace (Z.of_nat (S (S n)) - 1) with (Z.of_nat (S n)) by lia.
    case_if; [|exists ts; split_and!; [done..|apply no_calls]].
    destruct (x86_expire_wf t n ts Hw (Hpos t eq_refl) Hh) as (Hw1 & Hh1 & Hin & c & Hc).
    set (ts1 := X86Timer.expire t ts) in *.
    destruct (IH fuel nx (match nx with None => head (timer_list ts1)
                          | Some x => Seq.next x (timer_list ts1) end) ts1)
      as (ts' & Hrun & Hw' & calls & Hf & Hl); [..|exists ts'; split_and!].
    + lia.
    + lia.
    + exact Hw1.
    + exact Hh1.
    + intros x ->. destruct (Hnx t x eq_refl eq_refl). by apply Hin.
    + intros x y ->. intros [??]%next_in; [done|apply Hw1].
    + exact Hrun.
    + done.
    + exists (c :: calls). rewrite Hf, Hc, <- app_assoc. simpl. split; [done|lia].
Qed.

(** The timer softirq of the common code terminates on every timer list
    that satisfies the invariant, calls at most 31 handlers, keeps the
    invariant, and leaves the TSC deadline at the first remaining timer. *)
Theorem x86_softirq_bounded now ts :
  timers_wf ts → headroom 31 ts →
  ∃ ts', X86Timer.timer_softirq now ts = Some ts' ∧ timers_wf ts'
    ∧ (∃ calls, fired ts' = fired ts ++ calls ∧ (length calls ≤ 31)%nat)
    ∧ (∀ d, first_timeout ts' = Some d → hw_deadline ts' = Some d).
Proof.
  intros Hw Hh. unfold X86Timer.timer_softirq.
  set (nx := match head (timer_list ts) with Some t => _ | None => None end).
  destruct (x86_loop_bounded now 31 32 (head (timer_list ts)) nx ts)
    as (ts1 & Hrun & Hw1 & Hcalls); [lia|lia|done|done| |..|].
  - intros t. apply head_Some_elem_of.
  - intros t x Ht. unfold nx. rewrite Ht. intros [??]%next_in; [done|apply Hw].
  - change (Z.to_nat MAX_TIMER_ACTIONS) with 32%nat.
    change MAX_TIMER_ACTIONS with (Z.of_nat 32). rewrite Hrun. simpl.
    eexists; split; [done|]. unfold X86Timer.update_physical_timer, first_timeout.
    destruct (timer_list ts1) as [|t l] eqn:El; split_and!; auto.
    + rewrite El. done.
    + simpl. rewrite El. auto.
Qed.

Lemma x86_softirq_bounded_witness :
  ∃ ts', X86Timer.timer_softirq 30 ex_timers = Some ts' ∧ timers_wf ts'.
Proof.
  destruct (x86_softirq_bounded 30 ex_timers) as (ts' & Hrun & Hw & _).
  - apply ex_timers_wf.
  - intros t tm Hlk. unfold ex_timers in Hlk. cbn [tobj] in Hlk.
    repeat (apply lookup_insert_Some in Hlk as [[<- <-]|[_ Hlk]]; [simpl; lia|]).
    apply lookup_singleton_Some in Hlk as [<- <-]. simpl. lia.
  - exists ts'. auto.
Defined.

(** ** add_timer, udelay and tick conversions *)

(** add_timer on RISC-V rejects a NULL timer, one without a handler and
    one without a deadline with -1 and no effect; panics on a timer already
    on the list; and otherwise inserts the timer behind exactly the timers
    due earlier, keeping the list sorted, and reprograms the comparator when
    the new timer is the first one. Deleting the timer restores the list. *)
Theorem rv_add_timer_correct tickrate tick t ts :
  timers_wf ts → 0 < Ticks.us_to_ticks tickrate MIN_TIMER_PERIOD_US →
  match tobj ts !! t with
  | None => RvTimer.add_timer tickrate tick t ts = Some (ts, -1)
  | Some tm =>
      if bool_decide (func tm = None) || (timeout tm =? 0)
      then RvTimer.add_timer tickrate tick t ts = Some (ts, -1)
      else if timer_is_started t ts then RvTimer.add_timer tickrate tick t ts = None
      else 0 < timeout tm →
        ∃ ts' l1 l2, RvTimer.add_timer tickrate tick t ts = Some (ts', 0)
          ∧ timers_wf ts'
          ∧ timer_list ts = l1 ++ l2 ∧ timer_list ts' = l1 ++ t :: l2
          ∧ Forall (λ x, tmo (tobj ts) x < timeout tm) l1
          ∧ hw_deadline ts' =
            (if bool_decide (l1 = [])
             then Some (if timeout tm <? tick
                        then u64 (tick + Ticks.us_to_ticks tickrate MIN_TIMER_PERIOD_US)
                        else timeout tm)
             else hw_deadline ts)
          ∧ timer_list (del_timer t ts') = timer_list ts
  end.
Proof.
  intros Hw Hp. unfold timer_is_started, Seq.linked.
  destruct (tobj ts !! t) as [tm|] eqn:Hlk.
  2: { unfold RvTimer.add_timer, add_timer_with. by rewrite Hlk. }
  destruct (bool_decide (func tm = None) || (timeout tm =? 0)) eqn:Hbad.
  { unfold RvTimer.add_timer, add_timer_with. by rewrite Hlk, Hbad. }
  destruct (bool_decide_reflect (t ∈ timer_list ts)) as [Hin|Hin].
  { unfold RvTimer.add_timer, add_timer_with, Seq.linked. rewrite Hlk, Hbad.
    by rewrite bool_decide_true. }
  intros Hpos. apply orb_false_iff in Hbad as [Hf%bool_decide_eq_false _].
  destruct (rv_add_timer_spec tickrate tick t tm ts)
    as (ts' & l1 & l2 & ?&?& El & El' &?&?); [done..|].
  exists ts', l1, l2. split_and!; [done..|]. rewrite del_timer_list, El'.
  rewrite seq_del; [done|]. intros ?. apply Hin. rewrite El. set_solver.
Qed.

Lemma rv_add_timer_correct_witness :
  ∃ ts', RvTimer.add_timer 1000 5 4
    (set_tobj 4 (mk_hv_timer TICK_MODE_PERIODIC 15 1 (Some 3%nat) 0) ex_timers) = Some (ts', 0)
    ∧ timer_list ts' = [1; 4; 2; 3]%nat.
Proof.
  set (ts := set_tobj 4 _ ex_timers).
  assert (Hw : timers_wf ts).
  { apply set_tobj_wf; [by apply (bool_decide_unpack _)|apply ex_timers_wf]. }
  pose proof (rv_add_timer_correct 1000 5 4 ts Hw ltac:(vm_compute; reflexivity)) as H.
  vm_compute (tobj ts !! 4%nat) in H. cbv beta iota in H.
  change (timer_is_started 4 ts) with false in H. cbn in H.
  destruct (H ltac:(lia)) as (ts' & _ & _ & Hrun & _). exists ts'. split; [exact Hrun|].
  vm_compute in Hrun. injection Hrun as <-. reflexivity.
Defined.

(** Converting microseconds to ticks and back loses less than one tick and
    one microsecond, and neither conversion overflows 64 bits on 32-bit
    inputs. *)
Theorem us_ticks_round_trip tickrate us :
  0 < tickrate < 2 ^ 32 → 0 ≤ us < 2 ^ 32 →
  let t := Ticks.us_to_ticks tickrate us in
  let us' := Ticks.ticks_to_us tickrate t in
  t = us * tickrate / 1000 ∧ us' ≤ us ∧ tickrate * (us - us' - 1) < 1000.
Proof.
  intros Hr Hu. cbv zeta. unfold Ticks.us_to_ticks, Ticks.ticks_to_us, nonzero.
  rewrite (proj2 (Z.eqb_neq tickrate 0)) by lia. cbn [negb].
  rewrite (u64_id (us * tickrate)) by (unfold word; nia).
  pose proof (Z.div_mod (us * tickrate) 1000 ltac:(lia)).
  pose proof (Z.mod_pos_bound (us * tickrate) 1000 ltac:(lia)).
  set (t := us * tickrate / 1000) in *. rewrite (u64_id (t * 1000)) by (unfold word; nia).
  pose proof (Z.div_mod (t * 1000) tickrate ltac:(lia)).
  pose proof (Z.mod_pos_bound (t * 1000) tickrate ltac:(lia)).
  set (us' := t * 1000 / tickrate) in *. split_and!; [done|nia|nia].
Qed.

Lemma us_ticks_round_trip_witness :
  Ticks.ticks_to_us RvTimer.get_cpu_khz (Ticks.us_to_ticks RvTimer.get_cpu_khz 500) ≤ 500.
Proof.
  destruct (us_ticks_round_trip RvTimer.get_cpu_khz 500) as (_ & H & _);
    [vm_compute; auto|lia|exact H].
Defined.

Lemma udelay_loop_spec deadline ticks n : ∀ fuel k, (n < fuel)%nat →
  deadline ≤ ticks (k + n)%nat →
  ∃ j, RvTimer.udelay_loop fuel deadline ticks k = Some j ∧ deadline ≤ ticks j
    ∧ (k ≤ j ≤ k + n)%nat ∧ (∀ i, (k ≤ i < j)%nat → ticks i < deadline).
Proof.
  induction n as [|n IH]; intros [|fuel] k Hf Hd; try lia; simpl;
    (destruct (Z.ltb_spec (ticks k) deadline);
      [|exists k; split_and!; [done|done|lia|lia|intros; lia]]).
  - rewrite Nat.add_0_r in Hd. lia.
  - destruct (IH fuel (S k)) as (j & Hj & Hdj & ? & Hlt); [lia|by replace (S k + n)%nat with (k + S n)%nat by lia|].
    exists j. split_and!; [done|done|lia|lia|]. intros i Hi.
    destruct (decide (i = k)) as [->|]; [done|]. apply Hlt. lia.
Qed.

(** udelay returns as soon as the counter is read past the deadline: it
    waits at least the requested time and polls no further, provided the
    counter gets there within [n] polls. *)
Theorem udelay_waits tickrate us ticks n :
  0 ≤ ticks O → Ticks.us_to_ticks tickrate us + ticks O < 2 ^ 64 →
  0 ≤ Ticks.us_to_ticks tickrate us →
  Ticks.us_to_ticks tickrate us + ticks O ≤ ticks (S n) →
  ∃ j, RvTimer.udelay (S n) tickrate us ticks = Some j
    ∧ Ticks.us_to_ticks tickrate us ≤ ticks j - ticks O
    ∧ (∀ i, (1 ≤ i < j)%nat → ticks i - ticks O < Ticks.us_to_ticks tickrate us).
Proof.
  intros H0 Hw Hp Hn. unfold RvTimer.udelay. rewrite u64_id by (unfold word; lia).
  destruct (udelay_loop_spec (Ticks.us_to_ticks tickrate us + ticks O) ticks n (S n) 1)
    as (j & -> & Hd & _ & Hlt); [lia|done|].
  exists j. split_and!; [done|lia|]. intros i Hi. specialize (Hlt i Hi). lia.
Qed.

Lemma udelay_waits_witness :
  RvTimer.udelay 100 1000 3 (λ i, Z.of_nat i) = Some 3%nat
  ∧ ∃ j, RvTimer.udelay 100 1000 3 (λ i, Z.of_nat i) = Some j ∧ 3 ≤ Z.of_nat j - 0.
Proof.
  split; [reflexivity|].
  destruct (udelay_waits 1000 3 (λ i, Z.of_nat i) 99) as (j & Hj & Hd & _);
    [vm_compute; done..|]. exists j. split; [exact Hj|exact Hd].
Defined.
