(* ===== verification/Schedule.v ===== *)
(** * The scheduling framework (hypervisor/common/schedule.c)

    The state of one physical CPU: its [sched_control], the thread objects
    assigned to it, its timers, and the context-switch actions performed so
    far. A scheduling policy is a record of optional operations
    ([acrn_scheduler]); [RunQueue] states what the framework relies on, and
    the framework's theorems are proved against it. Each function holds the
    scheduler lock over its accesses to this state, so it is one step. *)

From S2P Require Import Prelude Bits LinkedList Timer.

(** Thread objects are identified by their address; [IDLE] is that of
    [per_cpu(idle, pcpu_id)]. *)
Abbreviation tid := nat.
Definition IDLE : tid := 0%nat.

Definition NEED_RESCHEDULE : Z := 1.
Definition DEL_MODE_INIT : Z := 1.
Definition DEL_MODE_IPI : Z := 2.
Definition IDLE_MODE_PAUSE : Z := 1.
Definition IDLE_MODE_HLT : Z := 2.

Inductive thread_object_state :=
  THREAD_STS_RUNNING | THREAD_STS_RUNNABLE | THREAD_STS_BLOCKED.
#[export] Instance thread_object_state_eq : EqDecision thread_object_state.
Proof. solve_decision. Defined.

Inductive thread_priority := PRIO_IDLE | PRIO_LOW | PRIO_HIGH | PRIO_MAX.
Definition prio_val (p : thread_priority) : Z :=
  match p with PRIO_IDLE => 0 | PRIO_LOW => 1 | PRIO_HIGH => 2 | PRIO_MAX => 3 end.

Record sched_params := mk_sched_params {
  prio : Z;
  bvt_weight : Z;
  bvt_warp_value : Z;
  bvt_warp_limit : Z;
  bvt_unwarp_period : Z;
}.

(** struct thread_object, with the policy's view [D] of its [data] bytes.
    The callbacks are those of the vCPU code: [true] when the pointer is set. *)
Record thread_object (D : Type) := mk_thread_object {
  thread_entry : bool;
  status : thread_object_state;
  be_blocking : bool;
  switch_out : bool;
  switch_in : bool;
  data : D;
}.
Arguments mk_thread_object {D}.
Arguments thread_entry {D}.
Arguments status {D}.
Arguments be_blocking {D}.
Arguments switch_out {D}.
Arguments switch_in {D}.
Arguments data {D}.
#[export] Instance eta_thread_object D : Eta (thread_object D) :=
  MkEta _ (rd mk_thread_object <*> thread_entry <*> status <*> be_blocking
             <*> switch_out <*> switch_in <*> data).

(** The control transfers the framework performs. *)
Inductive action :=
  | SwitchOut (t : tid)
  | SwitchIn (t : tid)
  | ArchSwitch (prev next : tid)
  | KickPcpu (pcpu : Z)
  | Entry (t : tid).

(** What the code reads from its surroundings: the CPU it runs on, the tick
    rate, and the successive values of the tick counter. *)
Record env := mk_env { self : Z; khz : Z; clock : nat → Z }.

(** struct sched_control and the per-CPU data the framework touches. [P] is
    the policy's control block, to which [priv] points. *)
Record pcpu (P D : Type) := mk_pcpu {
  pcpu_id : Z;
  flags : Z;
  curr_obj : option tid;
  priv : P;
  threads : gmap tid (thread_object D);
  cpu_timers : timers;
  mode_to_idle : Z;
  mode_to_kick_pcpu : Z;
  actions : list action;
}.
Arguments mk_pcpu {P D}.
Arguments pcpu_id {P D}.
Arguments flags {P D}.
Arguments curr_obj {P D}.
Arguments priv {P D}.
Arguments threads {P D}.
Arguments cpu_timers {P D}.
Arguments mode_to_idle {P D}.
Arguments mode_to_kick_pcpu {P D}.
Arguments actions {P D}.
#[export] Instance eta_pcpu P D : Eta (pcpu P D) :=
  MkEta _ (rd mk_pcpu <*> pcpu_id <*> flags <*> curr_obj <*> priv <*> threads
             <*> cpu_timers <*> mode_to_idle <*> mode_to_kick_pcpu <*> actions).

(** struct acrn_scheduler. [None] results are dereferences of a NULL or
    unknown thread object, failed assertions and loops that do not end. *)
Record acrn_scheduler (P D : Type) := mk_acrn_scheduler {
  init : option (env → pcpu P D → option (pcpu P D * Z));
  init_data : option (env → tid → sched_params → pcpu P D → option (pcpu P D));
  pick_next : option (env → pcpu P D → option (pcpu P D * tid));
  sleep : option (env → tid → pcpu P D → option (pcpu P D));
  wake : option (env → tid → pcpu P D → option (pcpu P D));
  deinit_data : option (env → tid → pcpu P D → option (pcpu P D));
  deinit : option (env → pcpu P D → option (pcpu P D));
}.
Arguments mk_acrn_scheduler {P D}.
Arguments init {P D}.
Arguments init_data {P D}.
Arguments pick_next {P D}.
Arguments sleep {P D}.
Arguments wake {P D}.
Arguments deinit_data {P D}.
Arguments deinit {P D}.

Section framework.
Context {P D : Type} `{!BitmapOps}.
Implicit Types (s : pcpu P D) (obj : tid) (sched : acrn_scheduler P D).

(** Updating fields of a thread object. *)
Definition upd_thread obj (f : thread_object D → thread_object D) s : option (pcpu P D) :=
  th ← threads s !! obj; Some (s⟨threads := <[obj := f th]> (threads s)⟩).

Definition set_data obj (d : D) s : option (pcpu P D) := upd_thread obj (λ th, th⟨data := d⟩) s.
Definition get_data obj s : option D := th ← threads s !! obj; Some (data th).

Definition emit (a : action) s : pcpu P D := s⟨actions := actions s ++ [a]⟩.

Definition is_idle_thread obj : bool := bool_decide (obj = IDLE).
Definition is_blocked (th : thread_object D) : bool := bool_decide (status th = THREAD_STS_BLOCKED).
Definition is_running (th : thread_object D) : bool := bool_decide (status th = THREAD_STS_RUNNING).
Definition set_thread_status obj (st : thread_object_state) s : option (pcpu P D) :=
  upd_thread obj (λ th, th⟨status := st⟩) s.
Definition set_be_blocking obj (b : bool) s : option (pcpu P D) :=
  upd_thread obj (λ th, th⟨be_blocking := b⟩) s.

Definition sched_get_current s : option tid := curr_obj s.

Definition init_sched sched (e : env) (cpu : Z) s : option (pcpu P D) :=
  let s := s⟨mode_to_idle := IDLE_MODE_HLT⟩⟨mode_to_kick_pcpu := DEL_MODE_IPI⟩
            ⟨flags := 0⟩⟨curr_obj := None⟩⟨pcpu_id := cpu⟩ in
  match init sched with
  | Some f => '(s, _) ← f e s; Some s
  | None => Some s
  end.

Definition deinit_sched sched (e : env) s : option (pcpu P D) :=
  match deinit sched with
  | Some f => f e s
  | None => Some s
  end.

Definition init_thread_data sched (e : env) obj (params : sched_params) s : option (pcpu P D) :=
  s ← match init_data sched with Some f => f e obj params s | None => Some s end;
  set_thread_status obj THREAD_STS_BLOCKED s.

Definition deinit_thread_data sched (e : env) obj s : option (pcpu P D) :=
  match deinit_data sched with Some f => f e obj s | None => Some s end.

(** [make_reschedule_request(pcpu_id)] for this CPU, called on CPU [self e]. *)
Definition make_reschedule_request (e : env) s : pcpu P D :=
  let s := s⟨flags := bitmap_set_lock NEED_RESCHEDULE (flags s)⟩ in
  if bool_decide (self e = pcpu_id s) then s else emit (KickPcpu (pcpu_id s)) s.

Definition need_reschedule s : bool := bitmap_test NEED_RESCHEDULE (flags s).

(** schedule(), up to and including the switch of stacks. Without a current
    thread arch_switch_to gets the address of a field of NULL: [None]. *)
Definition schedule sched (e : env) s : option (pcpu P D) :=
  let prev := curr_obj s in
  '(s, next) ← match pick_next sched with Some f => f e s | None => Some (s, IDLE) end;
  let s := s⟨flags := bitmap_clear_lock NEED_RESCHEDULE (flags s)⟩ in
  if bool_decide (prev = Some next) then Some s else
  s ← match prev with
      | Some p =>
          th ← threads s !! p;
          let s := if switch_out th then emit (SwitchOut p) s else s in
          s ← set_thread_status p
                (if be_blocking th then THREAD_STS_BLOCKED else THREAD_STS_RUNNABLE) s;
          set_be_blocking p false s
      | None => Some s
      end;
  th ← threads s !! next;
  let s := if switch_in th then emit (SwitchIn next) s else s in
  s ← set_thread_status next THREAD_STS_RUNNING s;
  let s := s⟨curr_obj := Some next⟩ in
  match prev with
  | Some p => Some (emit (ArchSwitch p next) s)
  | None => None
  end.

Definition sleep_thread sched (e : env) obj s : option (pcpu P D) :=
  s ← match sleep sched with Some f => f e obj s | None => Some s end;
  th ← threads s !! obj;
  if is_running th
  then set_be_blocking obj true (make_reschedule_request e s)
  else set_thread_status obj THREAD_STS_BLOCKED s.

(** One test of the loop of sleep_thread_sync: whether it is left. *)
Definition sleep_thread_sync_done obj s : option bool :=
  th ← threads s !! obj; Some (is_blocked th).

Definition wake_thread sched (e : env) obj s : option (pcpu P D) :=
  th ← threads s !! obj;
  if is_blocked th || be_blocking th then
    s ← match wake sched with Some f => f e obj s | None => Some s end;
    th ← threads s !! obj;
    s ← (if is_blocked th
         then s ← set_thread_status obj THREAD_STS_RUNNABLE s; Some (make_reschedule_request e s)
         else Some s);
    set_be_blocking obj false s
  else Some s.

Definition yield_current (e : env) s : pcpu P D := make_reschedule_request e s.

Definition run_thread obj s : option (pcpu P D) :=
  s ← set_thread_status obj THREAD_STS_RUNNING (s⟨curr_obj := Some obj⟩);
  th ← threads s !! obj;
  Some (if thread_entry th then emit (Entry obj) s else s).

(** run_idle_thread (hv_main.c) up to the entry of default_idle. *)
Definition run_idle_thread sched (e : env) s : option (pcpu P D) :=
  s ← upd_thread IDLE (λ th, th⟨thread_entry := true⟩⟨switch_out := false⟩⟨switch_in := false⟩) s;
  s ← init_thread_data sched e IDLE (mk_sched_params (prio_val PRIO_IDLE) 0 0 0 0) s;
  run_thread IDLE s.

(** Starting the CPU: init_sched and then run_idle_thread. *)
Definition boot sched (e : env) (cpu : Z) s : option (pcpu P D) :=
  s ← init_sched sched e cpu s; run_idle_thread sched e s.

(** One iteration of default_idle (hv_main.c). *)
Inductive idle_step := IdleScheduled | IdleOffline | IdleShutdownVm | IdleHalt.

Definition default_idle (need_offline need_shutdown_vm : bool) sched (e : env) s
    : option (pcpu P D * idle_step) :=
  if need_reschedule s then s ← schedule sched e s; Some (s, IdleScheduled)
  else if need_offline then Some (s, IdleOffline)
  else if need_shutdown_vm then Some (s, IdleShutdownVm)
  else Some (s, IdleHalt).
End framework.

(** ** What the framework relies on *)

Definition env_ok (e : env) : Prop := 0 < khz e < 2 ^ 32.

Section interface.
Context {P D : Type} `{!BitmapOps}.
Implicit Types (s : pcpu P D).

Definition datas s : gmap tid D := data <$> threads s.

(** The fields of a thread object that belong to the framework. *)
Definition shape (th : thread_object D) :=
  (thread_entry th, status th, be_blocking th, switch_out th, switch_in th).

(** A policy changes its control block, the threads' data and the timers. *)
Record frame s s' : Prop := {
  fr_pcpu_id : pcpu_id s' = pcpu_id s;
  fr_flags : flags s' = flags s;
  fr_curr : curr_obj s' = curr_obj s;
  fr_actions : actions s' = actions s;
  fr_mode_idle : mode_to_idle s' = mode_to_idle s;
  fr_mode_kick : mode_to_kick_pcpu s' = mode_to_kick_pcpu s;
  fr_threads : ∀ t, shape <$> threads s' !! t = shape <$> threads s !! t;
}.

(** A run-queue policy: the threads that may run, in the order in which they
    are picked, and the condition [room] under which one more can be queued. *)
Class RunQueue (sched : acrn_scheduler P D) := {
  queue : P → list tid;
  ready : D → Prop;
  room : P → Prop;
  rq_wf : P → gmap tid D → timers → Prop;
  tick_handler : env → pcpu P D → option (pcpu P D);
  rq_nodup p ds ts : rq_wf p ds ts → NoDup (queue p);
  rq_ready p ds ts t : rq_wf p ds ts → t ∈ queue p → ∃ d, ds !! t = Some d ∧ ready d;
  rq_wf_fresh p ds ts t d : rq_wf p ds ts → t ∉ queue p → rq_wf p (<[t := d]> ds) ts;
  rq_pick e s c : rq_wf (priv s) (datas s) (cpu_timers s) →
    curr_obj s = Some c → is_Some (threads s !! c) →
    (c ≠ IDLE → ∃ d, datas s !! c = Some d ∧ ready d) →
    ∃ f s' next, pick_next sched = Some f ∧ f e s = Some (s', next)
      ∧ frame s s' ∧ rq_wf (priv s') (datas s') (cpu_timers s')
      ∧ (∀ t d, datas s !! t = Some d → ready d → ∃ d', datas s' !! t = Some d' ∧ ready d')
      ∧ queue (priv s') ≡ₚ queue (priv s)
      ∧ next = default IDLE (head (queue (priv s')));
  rq_sleep e s t : rq_wf (priv s) (datas s) (cpu_timers s) → is_Some (threads s !! t) →
    ∃ f s', sleep sched = Some f ∧ f e t s = Some s'
      ∧ frame s s' ∧ rq_wf (priv s') (datas s') (cpu_timers s') ∧ datas s' = datas s
      ∧ queue (priv s') = Seq.del t (queue (priv s));
  rq_wake e s t d : rq_wf (priv s) (datas s) (cpu_timers s) →
    datas s !! t = Some d → ready d → t ∉ queue (priv s) → room (priv s) →
    ∃ f s', wake sched = Some f ∧ f e t s = Some s'
      ∧ frame s s' ∧ rq_wf (priv s') (datas s') (cpu_timers s')
      ∧ (∀ t d, datas s !! t = Some d → ready d → ∃ d', datas s' !! t = Some d' ∧ ready d')
      ∧ queue (priv s') ≡ₚ t :: queue (priv s);
  rq_tick e s c : rq_wf (priv s) (datas s) (cpu_timers s) →
    curr_obj s = Some c → is_Some (threads s !! c) →
    ∃ s', (tick_handler e s = Some s' ∨ tick_handler e s = Some (make_reschedule_request e s'))
      ∧ frame s s' ∧ rq_wf (priv s') (datas s') (cpu_timers s')
      ∧ (∀ t d, datas s !! t = Some d → ready d → ∃ d', datas s' !! t = Some d' ∧ ready d')
      ∧ queue (priv s') = queue (priv s);
  rq_init_data e s t params : env_ok e → rq_wf (priv s) (datas s) (cpu_timers s) →
    is_Some (threads s !! t) → t ∉ queue (priv s) →
    ∃ s', match init_data sched with
          | Some f => f e t params s | None => Some s
          end = Some s'
      ∧ frame s s' ∧ rq_wf (priv s') (datas s') (cpu_timers s')
      ∧ queue (priv s') = queue (priv s)
      ∧ (∃ d, datas s' !! t = Some d ∧ ready d)
      ∧ (∀ x, x ≠ t → datas s' !! x = datas s !! x);
}.
End interface.

(** Frames of the operations policies are made of. *)
Section frames.
Context {P D : Type}.
Implicit Types (s : pcpu P D).

Lemma frame_refl s : frame s s.
Proof. by split. Qed.

Lemma frame_trans s1 s2 s3 : frame s1 s2 → frame s2 s3 → frame s1 s3.
Proof.
  intros [] []. split; congruence.
Qed.

Lemma frame_priv s p : frame s (s⟨priv := p⟩).
Proof. by split. Qed.

Lemma frame_timers s ts : frame s (s⟨cpu_timers := ts⟩).
Proof. by split. Qed.

(** Writing the data of a thread. *)
Record data_written s s' (t : tid) (d : D) : Prop := {
  dw_frame : frame s s';
  dw_datas : datas s' = <[t := d]> (datas s);
  dw_priv : priv s' = priv s;
  dw_timers : cpu_timers s' = cpu_timers s;
}.

Lemma set_data_spec s t d : is_Some (threads s !! t) →
  ∃ s', set_data t d s = Some s' ∧ data_written s s' t d.
Proof.
  intros [th Ht]. unfold set_data, upd_thread. rewrite Ht. simpl. eexists. split; [done|]. split.
  - split; try done. intros x. simpl. destruct (decide (x = t)) as [->|].
    + by rewrite lookup_insert_eq, Ht.
    + by rewrite lookup_insert_ne.
  - unfold datas. simpl. by rewrite fmap_insert.
  - done.
  - done.
Qed.

Lemma get_data_spec s t : get_data t s = datas s !! t.
Proof. unfold get_data, datas. rewrite lookup_fmap. by destruct (threads s !! t). Qed.

Lemma datas_is_Some s t : is_Some (datas s !! t) ↔ is_Some (threads s !! t).
Proof. unfold datas. rewrite lookup_fmap. apply fmap_is_Some. Qed.

Lemma frame_is_Some s s' t : frame s s' → is_Some (threads s !! t) → is_Some (threads s' !! t).
Proof.
  intros F Hs. pose proof (fr_threads _ _ F t) as E.
  rewrite <- (fmap_is_Some shape), E. by apply fmap_is_Some.
Qed.

Lemma ready_insert (rdy : D → Prop) (ds : gmap tid D) t d : rdy d →
  ∀ x y, ds !! x = Some y → rdy y → ∃ y', <[t := d]> ds !! x = Some y' ∧ rdy y'.
Proof.
  intros Hd x y Hx Hy. destruct (decide (x = t)) as [->|].
  - rewrite lookup_insert_eq. eauto.
  - rewrite lookup_insert_ne by done. eauto.
Qed.

(** An operation of a policy that keeps every thread's data usable. *)
Record kept (rdy : D → Prop) s s' : Prop := {
  kp_frame : frame s s';
  kp_ready : ∀ t d, datas s !! t = Some d → rdy d → ∃ d', datas s' !! t = Some d' ∧ rdy d';
}.

Lemma kept_refl rdy s : kept rdy s s.
Proof. split; eauto using frame_refl. Qed.

Lemma kept_trans rdy s1 s2 s3 : kept rdy s1 s2 → kept rdy s2 s3 → kept rdy s1 s3.
Proof.
  intros [F1 R1] [F2 R2]. split; [by eapply frame_trans|].
  intros t d Hd Hr. destruct (R1 t d Hd Hr) as (?&?&?). eauto.
Qed.

Lemma kept_data rdy s s' t d : data_written s s' t d →
  (∀ d0, datas s !! t = Some d0 → rdy d0 → rdy d) → kept rdy s s'.
Proof.
  intros [F Hd Hp Ht] Hr. split; [done|]. rewrite Hd. intros x y Hx Hy.
  destruct (decide (x = t)) as [->|].
  - rewrite lookup_insert_eq. eauto.
  - rewrite lookup_insert_ne by done. eauto.
Qed.

Lemma kept_same rdy s s' : frame s s' → datas s' = datas s → kept rdy s s'.
Proof. intros F E. split; [done|]. rewrite E. eauto. Qed.
End frames.

(** ** The framework's invariant *)

Section invariant.
Context {P D : Type} `{!BitmapOps} (sched : acrn_scheduler P D) `{!RunQueue sched}.
Implicit Types (s : pcpu P D) (t : tid).

Definition wf s : Prop := rq_wf (priv s) (datas s) (cpu_timers s).
Definition runq s : list tid := queue (priv s).

Definition runnable (th : thread_object D) : Prop :=
  status th ≠ THREAD_STS_BLOCKED ∧ be_blocking th = false.

#[global] Instance runnable_dec th : Decision (runnable th).
Proof. unfold runnable. apply _. Defined.

Record sched_inv s : Prop := {
  inv_wf : wf s;
  (** every thread but the idle one is in the run queue exactly when it may run *)
  inv_queue t th : t ≠ IDLE → threads s !! t = Some th → (t ∈ runq s ↔ runnable th);
  inv_ready t th : t ≠ IDLE → threads s !! t = Some th → ready (data th);
  inv_idle : IDLE ∉ runq s;
  inv_idle_runs : ∃ th, threads s !! IDLE = Some th ∧ runnable th;
  (** one thread runs, the current one *)
  inv_curr : ∃ c th, curr_obj s = Some c ∧ threads s !! c = Some th
                     ∧ status th = THREAD_STS_RUNNING;
  inv_running t th : threads s !! t = Some th → status th = THREAD_STS_RUNNING →
    curr_obj s = Some t;
  inv_blocking t th : threads s !! t = Some th → be_blocking th = true →
    status th = THREAD_STS_RUNNING;
  inv_flags : word 64 (flags s);
  (** a thread that gave up the CPU, or one that can replace the idle thread,
      has asked for a reschedule *)
  inv_leave t th : threads s !! t = Some th → be_blocking th = true →
    need_reschedule s = true;
  inv_work : curr_obj s = Some IDLE → runq s ≠ [] → need_reschedule s = true;
}.

(** *** Lookups *)

Lemma frame_lookup s s' t th' : frame s s' → threads s' !! t = Some th' →
  ∃ th, threads s !! t = Some th ∧ shape th = shape th'.
Proof.
  intros F Ht. pose proof (fr_threads _ _ F t) as E. rewrite Ht in E. simpl in E.
  destruct (threads s !! t) as [th|]; [|done]. apply (inj Some) in E. eauto.
Qed.

Lemma frame_lookup_inv s s' t th : frame s s' → threads s !! t = Some th →
  ∃ th', threads s' !! t = Some th' ∧ shape th' = shape th.
Proof.
  intros F Ht. pose proof (fr_threads _ _ F t) as E. rewrite Ht in E. simpl in E.
  destruct (threads s' !! t) as [th'|]; [|done]. apply (inj Some) in E. eauto.
Qed.

Lemma shape_fields (a b : thread_object D) : shape a = shape b →
  status a = status b ∧ be_blocking a = be_blocking b
  ∧ switch_out a = switch_out b ∧ switch_in a = switch_in b.
Proof. unfold shape. intros [= ?????]. done. Qed.

Lemma upd_thread_Some t th f s : threads s !! t = Some th →
  upd_thread t f s = Some (s⟨threads := <[t := f th]> (threads s)⟩).
Proof. intros Ht. unfold upd_thread. by rewrite Ht. Qed.

Lemma datas_lookup s t th : threads s !! t = Some th → datas s !! t = Some (data th).
Proof. intros Ht. unfold datas. by rewrite lookup_fmap, Ht. Qed.

(** Framework updates do not touch the policy's data. *)
Lemma datas_upd s t th th' : threads s !! t = Some th → data th' = data th →
  data <$> <[t := th']> (threads s) = datas s.
Proof.
  intros Ht Hd. unfold datas. rewrite fmap_insert, Hd. apply insert_id.
  by rewrite lookup_fmap, Ht.
Qed.

Lemma ready_of_datas s s' t th : (∀ t d, datas s !! t = Some d → ready d →
    ∃ d', datas s' !! t = Some d' ∧ ready d') →
  threads s' !! t = Some th → (∃ d, datas s !! t = Some d ∧ ready d) → ready (data th).
Proof.
  intros Hrd Ht (d & Hd & Hr). destruct (Hrd t d Hd Hr) as (d' & Hd' & Hr').
  rewrite (datas_lookup _ _ _ Ht) in Hd'. by simplify_eq.
Qed.

Lemma need_reschedule_flags s s' : flags s = flags s' → need_reschedule s = need_reschedule s'.
Proof. unfold need_reschedule. by intros ->. Qed.

(** A policy operation that keeps the set of queued threads. *)
Lemma inv_frame s s' : sched_inv s → frame s s' → wf s' →
  (∀ t d, datas s !! t = Some d → ready d → ∃ d', datas s' !! t = Some d' ∧ ready d') →
  runq s' ≡ₚ runq s → sched_inv s'.
Proof.
  intros I F Hw Hr Hq.
  assert (Hnr := need_reschedule_flags _ _ (fr_flags _ _ F)). split; try done.
  - intros t th' Ht Hl. rewrite Hq. destruct (frame_lookup _ _ _ _ F Hl) as (th & Hl0 & Hs).
    rewrite (inv_queue _ I t th) by done. unfold runnable.
    apply shape_fields in Hs as (-> & -> & _). done.
  - intros t th' Ht Hl. eapply ready_of_datas; [done..|].
    destruct (frame_lookup _ _ _ _ F Hl) as (th & Hl0 & Hs).
    eauto using datas_lookup, inv_ready.
  - rewrite Hq. apply I.
  - destruct (inv_idle_runs _ I) as (th & Hl & Hrun).
    destruct (frame_lookup_inv _ _ _ _ F Hl) as (th' & Hl' & Hs).
    exists th'. split; [done|]. unfold runnable in *.
    by apply shape_fields in Hs as (-> & -> & _).
  - destruct (inv_curr _ I) as (c & th & Hc & Hl & Hrun).
    destruct (frame_lookup_inv _ _ _ _ F Hl) as (th' & Hl' & Hs).
    exists c, th'. rewrite (fr_curr _ _ F). split_and!; [done..|].
    by apply shape_fields in Hs as (-> & _).
  - intros t th' Hl Hrun. rewrite (fr_curr _ _ F).
    destruct (frame_lookup _ _ _ _ F Hl) as (th & Hl0 & Hs).
    apply shape_fields in Hs as (Hs & _). apply (inv_running _ I t th); congruence.
  - intros t th' Hl Hb. destruct (frame_lookup _ _ _ _ F Hl) as (th & Hl0 & Hs).
    apply shape_fields in Hs as (Hs & Hs' & _). rewrite <- Hs. apply (inv_blocking _ I t); congruence.
  - rewrite (fr_flags _ _ F). apply I.
  - intros t th' Hl Hb. rewrite Hnr. destruct (frame_lookup _ _ _ _ F Hl) as (th & Hl0 & Hs).
    apply shape_fields in Hs as (Hs & Hs' & _). apply (inv_leave _ I t th); congruence.
  - rewrite (fr_curr _ _ F), Hnr. intros Hc Hne. apply (inv_work _ I); [done|].
    intros E. apply Hne. apply Permutation_nil_r. by rewrite Hq, E.
Qed.
End invariant.

(** ** The operations preserve the invariant *)

Section operations.
Context {P D : Type} {ops : BitmapOps} (lim : Z) {bspec : BitmapSpec ops lim}.
Context (Hlim : NEED_RESCHEDULE < lim).
Context (sched : acrn_scheduler P D) {rq : RunQueue sched}.
Implicit Types (s : pcpu P D) (t : tid) (e : env).

Lemma request_need e s : word 64 (flags s) →
  need_reschedule (make_reschedule_request e s) = true.
Proof using bspec Hlim.
  intros Hw. unfold NEED_RESCHEDULE in *.
  assert (Hf : flags (make_reschedule_request e s) = bitmap_set_lock NEED_RESCHEDULE (flags s)).
  { unfold make_reschedule_request. by case_bool_decide. }
  unfold need_reschedule. rewrite Hf, bs_test; unfold NEED_RESCHEDULE;
    [|lia|apply bs_set_word; [lia|done]].
  rewrite bs_set by (done || lia). by rewrite bool_decide_true, orb_true_r.
Qed.

Lemma request_word e s : word 64 (flags s) → word 64 (flags (make_reschedule_request e s)).
Proof using bspec Hlim.
  intros Hw. unfold make_reschedule_request, NEED_RESCHEDULE in *.
  case_bool_decide; simpl; apply bs_set_word; (done || lia).
Qed.

Lemma clear_need s : word 64 (flags s) →
  need_reschedule (s⟨flags := bitmap_clear_lock NEED_RESCHEDULE (flags s)⟩) = false.
Proof using bspec Hlim.
  intros Hw. unfold need_reschedule, NEED_RESCHEDULE in *. simpl.
  rewrite bs_test; [|lia|apply bs_clear_word; (done || lia)].
  rewrite bs_clear by (done || lia). by rewrite bool_decide_true, andb_false_r.
Qed.

(** The fields of a CPU the invariant does not speak of. *)
Lemma inv_ext s s' : sched_inv sched s → priv s' = priv s → threads s' = threads s →
  cpu_timers s' = cpu_timers s → curr_obj s' = curr_obj s → word 64 (flags s') →
  (need_reschedule s = true → need_reschedule s' = true) → sched_inv sched s'.
Proof.
  intros I Ep Et Em Ec Hf Hn. destruct I.
  split; unfold wf, runq, datas in *; rewrite ?Ep, ?Et, ?Em, ?Ec; eauto.
Qed.

Lemma request_inv e s : sched_inv sched s → sched_inv sched (make_reschedule_request e s).
Proof using bspec Hlim.
  intros I. pose proof (inv_flags _ _ I).
  eapply inv_ext; [exact I|..]; try (by unfold make_reschedule_request; case_bool_decide).
  - by apply request_word.
  - intros _. by apply request_need.
Qed.

(** *** schedule *)

(** The state after a switch from [p] to another thread [n]. *)
Definition switched (p n : tid) (thp thn : thread_object D) s : pcpu P D :=
  s⟨flags := bitmap_clear_lock NEED_RESCHEDULE (flags s)⟩
   ⟨threads := <[n := thn⟨status := THREAD_STS_RUNNING⟩]>
      (<[p := thp⟨status := if be_blocking thp then THREAD_STS_BLOCKED else THREAD_STS_RUNNABLE⟩
                 ⟨be_blocking := false⟩]> (threads s))⟩
   ⟨curr_obj := Some n⟩
   ⟨actions := actions s ++ (if switch_out thp then [SwitchOut p] else [])
                 ++ (if switch_in thn then [SwitchIn n] else []) ++ [ArchSwitch p n]⟩.

Lemma datas_switched p n thp thn s : threads s !! p = Some thp → threads s !! n = Some thn →
  p ≠ n → datas (switched p n thp thn s) = datas s.
Proof.
  intros Hp Hn Hne. unfold datas. apply map_eq. intros i. simpl.
  rewrite !lookup_fmap. destruct (decide (i = n)) as [->|].
  { by rewrite lookup_insert_eq, Hn. }
  rewrite lookup_insert_ne by done. destruct (decide (i = p)) as [->|].
  { by rewrite lookup_insert_eq, Hp. }
  by rewrite lookup_insert_ne.
Qed.

Lemma switched_inv p n thp thn s : sched_inv sched s → curr_obj s = Some p →
  threads s !! p = Some thp → threads s !! n = Some thn → p ≠ n →
  n = default IDLE (head (runq sched s)) → sched_inv sched (switched p n thp thn s).
Proof using bspec Hlim.
  intros I Hc Hp Hn Hne En.
  assert (Hrp : status thp = THREAD_STS_RUNNING).
  { destruct (inv_curr _ _ I) as (c & th & Hc' & Hl & Hr). congruence. }
  assert (Hrn : runnable thn).
  { destruct (head (runq sched s)) as [h|] eqn:Eh; simpl in En; subst.
    - destruct (decide (h = IDLE)) as [->|Hh]; [by apply head_Some_elem_of, inv_idle in Eh|].
      apply (inv_queue _ _ I h); [done..|]. by apply head_Some_elem_of.
    - destruct (inv_idle_runs _ _ I) as (th & Hl & ?). congruence. }
  assert (Hlk : ∀ t th, threads (switched p n thp thn s) !! t = Some th →
    (t = n ∧ th = thn⟨status := THREAD_STS_RUNNING⟩)
    ∨ (t = p ∧ th = thp⟨status := if be_blocking thp then THREAD_STS_BLOCKED
                                   else THREAD_STS_RUNNABLE⟩⟨be_blocking := false⟩)
    ∨ (t ≠ n ∧ t ≠ p ∧ threads s !! t = Some th)).
  { simpl. intros t th [[<- <-]|[? [[<- <-]|[? ?]]%lookup_insert_Some]]%lookup_insert_Some; auto. }
  assert (Hq : runq sched (switched p n thp thn s) = runq sched s) by done.
  split.
  - unfold wf. rewrite datas_switched by done. apply I.
  - rewrite Hq. intros t th Ht [[-> ->]|[[-> ->]|(?&?&?)]]%Hlk; [..|by apply I].
    + rewrite (inv_queue _ _ I n thn) by done. unfold runnable in *. simpl. naive_solver.
    + rewrite (inv_queue _ _ I p thp) by done. unfold runnable. simpl. rewrite Hrp.
      destruct (be_blocking thp); naive_solver.
  - intros t th Ht [[-> ->]|[[-> ->]|(?&?&?)]]%Hlk; simpl; eauto using inv_ready.
  - rewrite Hq. apply I.
  - destruct (inv_idle_runs _ _ I) as (th & Hl & Hr). simpl.
    destruct (decide (IDLE = n)) as [<-|]; [|destruct (decide (IDLE = p)) as [<-|]].
    + rewrite lookup_insert_eq. eexists; split; [done|]. unfold runnable in *. naive_solver.
    + rewrite lookup_insert_ne, lookup_insert_eq by done. eexists; split; [done|].
      unfold runnable in *. simplify_eq. destruct Hr as [? Hb]. rewrite Hb. done.
    + rewrite !lookup_insert_ne by done. eauto.
  - exists n, (thn⟨status := THREAD_STS_RUNNING⟩). simpl. by rewrite lookup_insert_eq.
  - intros t th [[-> ->]|[[-> ->]|(?&?&?)]]%Hlk Hr; [done|..].
    + simpl in Hr. by destruct (be_blocking thp).
    + assert (curr_obj s = Some t) by eauto using inv_running. congruence.
  - intros t th [[-> ->]|[[-> ->]|(?&?&?)]]%Hlk Hb; [done|done|eauto using inv_blocking].
  - simpl. unfold NEED_RESCHEDULE in *. apply bs_clear_word; [lia|apply I].
  - intros t th [[-> ->]|[[-> ->]|(?&?&?)]]%Hlk Hb; [|done|].
    + unfold runnable in Hrn. simpl in Hb. naive_solver congruence.
    + assert (curr_obj s = Some t) by eauto using inv_running, inv_blocking. congruence.
  - intros [= ->] Hne'. rewrite Hq in Hne'. exfalso.
    destruct (runq sched s) as [|h q] eqn:Eq; [done|]. simpl in En. subst.
    apply (inv_idle _ _ I). rewrite Eq. set_solver.
Qed.

Lemma clear_same_inv p s : sched_inv sched s → curr_obj s = Some p →
  p = default IDLE (head (runq sched s)) →
  sched_inv sched (s⟨flags := bitmap_clear_lock NEED_RESCHEDULE (flags s)⟩).
Proof using bspec Hlim.
  intros I Hc Ep. set (s' := s⟨flags := _⟩).
  assert (Hrun : ∀ th, threads s !! p = Some th → runnable th).
  { intros th Hl. destruct (decide (p = IDLE)) as [->|Hi].
    - destruct (inv_idle_runs _ _ I) as (?&?&?). congruence.
    - apply (inv_queue _ _ I p th); [done..|].
      destruct (head (runq sched s)) eqn:Eh; simpl in Ep; [|done]. subst.
      by apply head_Some_elem_of. }
  destruct I as [Hw Hq Hr Hid Hidr Hcur Hrn Hb Hf Hl Hwk]. split; try done.
  - simpl. unfold NEED_RESCHEDULE in *. apply bs_clear_word; [lia|done].
  - intros t th Ht Hbl. exfalso. assert (curr_obj s = Some t) by eauto. simplify_eq.
    destruct (Hrun th Ht). congruence.
  - simpl. rewrite Hc. intros [= ->] Hne. exfalso. unfold runq in *. simpl in Hne.
    destruct (queue (priv s)) as [|h q] eqn:Eq; [done|]. simpl in Ep. subst.
    apply Hid. set_solver.
Qed.

(** The functional behaviour of schedule(). *)
Lemma schedule_spec e s p thp : sched_inv sched s →
  curr_obj s = Some p → threads s !! p = Some thp →
  ∃ s' n, schedule sched e s = Some s' ∧ sched_inv sched s'
    ∧ n = default IDLE (head (runq sched s')) ∧ curr_obj s' = Some n
    ∧ runq sched s' ≡ₚ runq sched s
    ∧ need_reschedule s' = false
    ∧ (∀ th', threads s' !! p = Some th' → p ≠ n →
         status th' = (if be_blocking thp then THREAD_STS_BLOCKED else THREAD_STS_RUNNABLE)
         ∧ be_blocking th' = false)
    ∧ (∀ thn, threads s' !! n = Some thn →
         actions s' = actions s ++
           (if decide (p = n) then []
            else (if switch_out thp then [SwitchOut p] else [])
                   ++ (if switch_in thn then [SwitchIn n] else []) ++ [ArchSwitch p n])).
Proof using bspec Hlim.
  intros I Hc Hp. destruct (rq_pick e s p (inv_wf _ _ I) Hc)
    as (f & s1 & n & Hf & Hpick & F & Hw1 & Hr1 & Hq1 & En);
    [eauto|intros; exists (data thp); eauto using datas_lookup, inv_ready|].
  assert (I1 : sched_inv sched s1) by by eapply inv_frame.
  assert (Hc1 : curr_obj s1 = Some p) by by rewrite (fr_curr _ _ F).
  destruct (frame_lookup_inv _ _ _ _ F Hp) as (thp1 & Hp1 & Hsh).
  pose proof (shape_fields _ _ Hsh) as (Hst & Hbb & Hso & Hsi).
  unfold schedule. rewrite Hf. simpl. rewrite Hpick. simpl. rewrite Hc.
  destruct (decide (p = n)) as [<-|Hne].
  - rewrite bool_decide_true by done. eexists _, p. split; [done|].
    split_and!; simpl; try done; [by eapply clear_same_inv|by apply clear_need, I1|].
    intros. by rewrite decide_True, app_nil_r, (fr_actions _ _ F).
  - rewrite bool_decide_false by congruence. rewrite Hp1. simpl.
    assert (is_Some (threads s1 !! n)) as [thn Hn].
    { destruct (head (queue (priv s1))) as [h|] eqn:Eh; simpl in En; subst.
      - destruct (rq_ready _ _ _ h Hw1) as (d & Hd & _); [by apply head_Some_elem_of|].
        unfold datas in Hd. rewrite lookup_fmap in Hd. destruct (threads s1 !! h); [eauto|done].
      - destruct (inv_idle_runs _ _ I1) as (th & ? & _). eauto. }
    exists (switched p n thp1 thn s1), n. split.
    { unfold switched, set_be_blocking, set_thread_status, upd_thread.
      destruct (switch_out thp1); simpl; rewrite Hp1; simpl; rewrite lookup_insert_eq; simpl;
      rewrite !insert_insert_eq, lookup_insert_ne, Hn by done; simpl;
      destruct (switch_in thn); simpl; rewrite lookup_insert_ne, Hn by done; simpl;
      unfold emit; simpl; by rewrite ?app_nil_r, <- ?app_assoc. }
    split_and!; [by apply switched_inv|done|done|done| | |].
    + apply clear_need. apply I1.
    + intros th' Hl _. simpl in Hl. rewrite lookup_insert_ne, lookup_insert_eq in Hl by done.
      simplify_eq. simpl. by rewrite Hbb.
    + intros thn' Hl. simpl in Hl. rewrite lookup_insert_eq in Hl. simplify_eq. simpl.
      by rewrite decide_False, Hso, (fr_actions _ _ F).
Qed.

(** *** sleep_thread and wake_thread *)

(** Changing the framework fields of one thread of a CPU whose queue and flags
    already account for it. *)
Lemma set_thread_inv s0 s t th th' : sched_inv sched s0 → frame s0 s → wf sched s →
  (∀ t d, datas s0 !! t = Some d → ready d → ∃ d', datas s !! t = Some d' ∧ ready d') →
  threads s !! t = Some th → t ≠ IDLE → data th' = data th →
  (status th' = THREAD_STS_RUNNING ↔ status th = THREAD_STS_RUNNING) →
  (be_blocking th' = true → status th' = THREAD_STS_RUNNING) →
  (∀ x, x ∈ runq sched s ↔ x ≠ t ∧ x ∈ runq sched s0 ∨ x = t ∧ runnable th') →
  ∀ s', priv s' = priv s → threads s' = <[t := th']> (threads s) →
  cpu_timers s' = cpu_timers s → curr_obj s' = curr_obj s → word 64 (flags s') →
  (need_reschedule s' = true ∨
   (need_reschedule s' = need_reschedule s ∧ be_blocking th' = false
    ∧ (runnable th' → curr_obj s ≠ Some IDLE ∨ t ∈ runq sched s0))) →
  sched_inv sched s'.
Proof.
  intros I F Hw Hr Ht Hi Hd Hrun Hbl Hq s' Ep Et Em Ec Hfl Hneed.
  assert (Hlk : ∀ x y, threads s' !! x = Some y →
    (x = t ∧ y = th') ∨ (x ≠ t ∧ ∃ y0, threads s0 !! x = Some y0 ∧ shape y0 = shape y
      ∧ threads s !! x = Some y)).
  { intros x y. rewrite Et. intros [[<- <-]|[? Hx]]%lookup_insert_Some; [auto|].
    destruct (frame_lookup _ _ _ _ F Hx) as (y0 & ?&?). eauto 10. }
  assert (Hq' : ∀ x, x ∈ runq sched s' ↔ x ≠ t ∧ x ∈ runq sched s0 ∨ x = t ∧ runnable th').
  { unfold runq. rewrite Ep. exact Hq. }
  assert (Hdat : datas s' = datas s) by (unfold datas; rewrite Et; by eapply datas_upd).
  split.
  - unfold wf. by rewrite Ep, Hdat, Em.
  - intros x y Hx Hl. rewrite Hq'. apply Hlk in Hl as [[-> ->]|(Hne & y0 & Hl0 & Hs & _)];
      [naive_solver|]. rewrite (inv_queue _ _ I x y0) by done. unfold runnable.
    apply shape_fields in Hs as (-> & -> & _). naive_solver.
  - intros x y Hx Hl. eapply (ready_of_datas sched s0 s'); [by rewrite Hdat|done|].
    destruct (frame_lookup s0 s x (if decide (x = t) then th else y)) as (y0 & Hl0 & _); [done| |].
    { apply Hlk in Hl as [[-> ->]|(?&?&?&?&?)]; [by rewrite decide_True|by rewrite decide_False]. }
    eauto using datas_lookup, inv_ready.
  - rewrite Hq'. pose proof (inv_idle _ _ I). naive_solver.
  - destruct (inv_idle_runs _ _ I) as (y & Hl & Hry).
    destruct (frame_lookup_inv _ _ _ _ F Hl) as (y' & Hl' & Hs).
    exists y'. rewrite Et, lookup_insert_ne by done. split; [done|].
    unfold runnable in *. by apply shape_fields in Hs as (-> & -> & _).
  - destruct (inv_curr _ _ I) as (c & y & Hc & Hl & Hry).
    destruct (frame_lookup_inv _ _ _ _ F Hl) as (y' & Hl' & Hs).
    exists c. rewrite Ec, (fr_curr _ _ F), Et. apply shape_fields in Hs as (Hs & _).
    destruct (decide (c = t)) as [->|].
    + exists th'. rewrite lookup_insert_eq. split_and!; [done..|]. apply Hrun. congruence.
    + exists y'. rewrite lookup_insert_ne by done. split_and!; congruence.
  - intros x y Hl Hry. rewrite Ec, (fr_curr _ _ F).
    apply Hlk in Hl as [[-> ->]|(Hne & y0 & Hl0 & Hs & _)].
    + apply Hrun in Hry. destruct (frame_lookup _ _ _ _ F Ht) as (y0 & Hl0 & Hs).
      apply shape_fields in Hs as (Hs & _). apply (inv_running _ _ I t y0); congruence.
    + apply shape_fields in Hs as (Hs & _). apply (inv_running _ _ I x y0); congruence.
  - intros x y Hl Hb. apply Hlk in Hl as [[-> ->]|(Hne & y0 & Hl0 & Hs & _)]; [auto|].
    apply shape_fields in Hs as (<- & Hs & _). apply (inv_blocking _ _ I x y0); congruence.
  - done.
  - intros x y Hl Hb. destruct Hneed as [|(-> & Hb' & _)]; [done|].
    apply Hlk in Hl as [[-> ->]|(Hne & y0 & Hl0 & Hs & _)]; [congruence|].
    rewrite (need_reschedule_flags s s0) by apply F.
    apply shape_fields in Hs as (_ & Hs & _). apply (inv_leave _ _ I x y0); congruence.
  - rewrite Ec. intros Hc Hne. destruct Hneed as [|(-> & Hb' & Hwork)]; [done|].
    rewrite (need_reschedule_flags s s0) by apply F.
    apply (inv_work _ _ I); [by rewrite <- (fr_curr _ _ F)|]. intros E.
    destruct (runq sched s') as [|x q] eqn:Eq; [done|].
    destruct (proj1 (Hq' x)) as [[? Hx]|[-> Hx]]; [set_solver|rewrite E in Hx; set_solver|].
    destruct (Hwork Hx) as [?|Hin]; [done|]. rewrite E in Hin. set_solver.
Qed.

(** make_reschedule_request notifies a remote CPU. *)
Definition kicked e s s' : Prop :=
  need_reschedule s' = true
  ∧ actions s' = actions s ++ (if decide (self e = pcpu_id s) then [] else [KickPcpu (pcpu_id s)]).

Lemma request_kicked e s : word 64 (flags s) → kicked e s (make_reschedule_request e s).
Proof using bspec Hlim.
  intros Hw. split; [by apply request_need|]. unfold make_reschedule_request. simpl.
  case_bool_decide; [rewrite decide_True by done; by rewrite app_nil_r|by rewrite decide_False].
Qed.

Lemma elem_of_del_queue t x s : wf sched s →
  x ∈ Seq.del t (runq sched s) ↔ x ∈ runq sched s ∧ x ≠ t.
Proof. intros Hw. apply elem_of_seq_del. eapply rq_nodup, Hw. Qed.

Lemma sleep_spec e s t th : sched_inv sched s → t ≠ IDLE → threads s !! t = Some th →
  ∃ s' th', sleep_thread sched e t s = Some s' ∧ sched_inv sched s'
    ∧ runq sched s' = Seq.del t (runq sched s) ∧ curr_obj s' = curr_obj s
    ∧ threads s' !! t = Some th' ∧ ¬ runnable th'
    ∧ (status th = THREAD_STS_RUNNING → status th' = THREAD_STS_RUNNING ∧ kicked e s s')
    ∧ (status th ≠ THREAD_STS_RUNNING → status th' = THREAD_STS_BLOCKED ∧ flags s' = flags s).
Proof using bspec Hlim.
  intros I Hi Ht. destruct (rq_sleep e s t (inv_wf _ _ I)) as (f & s1 & Hf & Hs & F & Hw1 & Hd1 & Hq1);
    [eauto|]. destruct (frame_lookup_inv _ _ _ _ F Ht) as (th1 & Ht1 & Hsh).
  apply shape_fields in Hsh as (Hst & Hbb & _).
  assert (Hfw : word 64 (flags s1)) by (rewrite (fr_flags _ _ F); apply I).
  assert (Hrd : ∀ x d, datas s !! x = Some d → ready d → ∃ d', datas s1 !! x = Some d' ∧ ready d')
    by (rewrite Hd1; eauto).
  assert (Hq : ∀ th' : thread_object D, ¬ runnable th' → ∀ x, x ∈ runq sched s1 ↔
    x ≠ t ∧ x ∈ runq sched s ∨ x = t ∧ runnable th').
  { intros th' Hn x. unfold runq at 1. rewrite Hq1. fold (runq sched s).
    rewrite elem_of_del_queue by apply I. naive_solver. }
  unfold sleep_thread, is_running. rewrite Hf. simpl. rewrite Hs. simpl. rewrite Ht1. simpl.
  case_bool_decide as Hrun.
  - set (s2 := make_reschedule_request e s1).
    assert (Et : threads s2 = threads s1)
      by (unfold s2, make_reschedule_request; by case_bool_decide).
    assert (Hk := request_kicked e s1 Hfw). fold s2 in Hk.
    unfold set_be_blocking, upd_thread. rewrite Et, Ht1. simpl.
    assert (Hn : ¬ runnable (th1⟨be_blocking := true⟩)) by (unfold runnable; simpl; naive_solver).
    eexists _, (th1⟨be_blocking := true⟩). split; [done|]. split_and!.
    + eapply (set_thread_inv s s1 t th1 (th1⟨be_blocking := true⟩)); try done; auto; try (by unfold s2, make_reschedule_request; case_bool_decide).
      * by apply request_word.
      * left. apply Hk.
    + unfold runq. rewrite <- Hq1. simpl. unfold s2, make_reschedule_request. by case_bool_decide.
    + simpl. rewrite <- (fr_curr _ _ F). unfold s2, make_reschedule_request. by case_bool_decide.
    + simpl. by rewrite lookup_insert_eq.
    + done.
    + intros _. split; [done|]. destruct Hk as [Hk1 Hk2]. split; [done|]. simpl.
      by rewrite Hk2, (fr_actions _ _ F), (fr_pcpu_id _ _ F).
    + intros Hx. congruence.
  - unfold set_thread_status, upd_thread. rewrite Ht1. simpl.
    assert (Hn : ¬ runnable (th1⟨status := THREAD_STS_BLOCKED⟩)) by (unfold runnable; simpl; naive_solver).
    assert (Hb0 : be_blocking th1 = false).
    { destruct (be_blocking th1) eqn:Eb; [|done].
      exfalso. apply Hrun. rewrite Hst. apply (inv_blocking _ _ I t th); congruence. }
    eexists _, (th1⟨status := THREAD_STS_BLOCKED⟩). split; [done|]. split_and!.
    + eapply (set_thread_inv s s1 t th1 (th1⟨status := THREAD_STS_BLOCKED⟩)); try done; auto; simpl; [congruence|].
      right. split_and!; [done|done|]. naive_solver.
    + unfold runq. by rewrite <- Hq1.
    + apply (fr_curr _ _ F).
    + simpl. by rewrite lookup_insert_eq.
    + done.
    + congruence.
    + intros _. split; [done|]. apply (fr_flags _ _ F).
Qed.

Lemma wake_spec e s t th : sched_inv sched s → threads s !! t = Some th →
  (runnable th ∧ wake_thread sched e t s = Some s)
  ∨ (¬ runnable th ∧ (room (priv s) →
     ∃ s' th', wake_thread sched e t s = Some s' ∧ sched_inv sched s'
       ∧ runq sched s' ≡ₚ t :: runq sched s ∧ curr_obj s' = curr_obj s
       ∧ threads s' !! t = Some th' ∧ runnable th'
       ∧ (status th = THREAD_STS_BLOCKED → status th' = THREAD_STS_RUNNABLE ∧ kicked e s s')
       ∧ (status th ≠ THREAD_STS_BLOCKED → status th' = status th ∧ flags s' = flags s))).
Proof using bspec Hlim.
  intros I Ht. unfold wake_thread, is_blocked. rewrite Ht. simpl.
  destruct (decide (runnable th)) as [Hrun|Hrun].
  { left. split; [done|]. unfold runnable in Hrun. destruct Hrun as [? ->].
    by rewrite bool_decide_false. }
  right. split; [done|]. intros Hroom.
  assert (Hi : t ≠ IDLE).
  { intros ->. destruct (inv_idle_runs _ _ I) as (th0 & ? & ?). by simplify_eq. }
  assert (Hnq : t ∉ runq sched s) by (rewrite (inv_queue _ _ I t th); done).
  replace (bool_decide (status th = THREAD_STS_BLOCKED) || be_blocking th) with true.
  2: { unfold runnable in Hrun. case_bool_decide; [done|]. destruct (be_blocking th); naive_solver. }
  destruct (rq_wake e s t (data th) (inv_wf _ _ I)) as (f & s1 & Hf & Hs & F & Hw1 & Hrd & Hq1);
    [by apply datas_lookup|by eapply inv_ready|done|done|].
  destruct (frame_lookup_inv _ _ _ _ F Ht) as (th1 & Ht1 & Hsh).
  apply shape_fields in Hsh as (Hst & Hbb & _).
  assert (Hfw : word 64 (flags s1)) by (rewrite (fr_flags _ _ F); apply I).
  assert (Hq : ∀ th' : thread_object D, runnable th' → ∀ x, x ∈ runq sched s1 ↔
    x ≠ t ∧ x ∈ runq sched s ∨ x = t ∧ runnable th').
  { intros th' Hn x. unfold runq at 1. rewrite Hq1. fold (runq sched s).
    rewrite elem_of_cons. destruct (decide (x = t)); naive_solver. }
  rewrite Hf. simpl. rewrite Hs. simpl. rewrite Ht1. simpl. rewrite Hst.
  case_bool_decide as Hblk.
  - unfold set_thread_status, set_be_blocking, upd_thread. rewrite Ht1. simpl.
    set (s1' := s1⟨threads := _⟩). set (s2 := make_reschedule_request e s1').
    assert (Et : threads s2 = <[t := th1⟨status := THREAD_STS_RUNNABLE⟩]> (threads s1))
      by (unfold s2, make_reschedule_request; by case_bool_decide).
    assert (Hk : kicked e s1 s2) by exact (request_kicked e s1' Hfw).
    rewrite Et, lookup_insert_eq. simpl. rewrite insert_insert_eq.
    set (th' := th1⟨status := _⟩⟨be_blocking := _⟩).
    assert (Hn : runnable th') by done.
    eexists _, th'. split; [done|]. split_and!.
    + eapply (set_thread_inv s s1 t th1 th'); try done; auto; try (by unfold s2, make_reschedule_request; case_bool_decide).
      * simpl. rewrite Hst, Hblk. done.
      * by apply request_word.
      * left. exact (proj1 Hk).
    + unfold runq in *. rewrite <- Hq1. simpl. unfold s2, make_reschedule_request. by case_bool_decide.
    + simpl. rewrite <- (fr_curr _ _ F). unfold s2, make_reschedule_request. by case_bool_decide.
    + simpl. by rewrite lookup_insert_eq.
    + done.
    + intros _. split; [done|]. destruct Hk as [Hk1 Hk2]. split; [done|]. simpl in *.
      by rewrite Hk2, (fr_actions _ _ F), (fr_pcpu_id _ _ F).
    + congruence.
  - unfold set_be_blocking, upd_thread. simpl. rewrite Ht1. simpl.
    assert (Hb : be_blocking th = true) by (destruct (be_blocking th) eqn:?; [done|unfold runnable in Hrun; naive_solver]).
    assert (Hrn := inv_blocking _ _ I t th Ht Hb).
    set (th' := th1⟨be_blocking := false⟩). assert (Hn : runnable th') by (split; simpl; congruence).
    eexists _, th'. split; [done|]. split_and!.
    + eapply (set_thread_inv s s1 t th1 th'); try done; auto.
      right. split_and!; [done..|]. intros _. left. rewrite (fr_curr _ _ F).
      rewrite (inv_running _ _ I t th Ht Hrn). congruence.
    + done.
    + apply (fr_curr _ _ F).
    + simpl. by rewrite lookup_insert_eq.
    + done.
    + done.
    + intros _. split; [done|]. apply (fr_flags _ _ F).
Qed.

(** *** Creating a thread, and the tick *)

(** A vCPU's thread object, zeroed but for its callbacks, is given to the
    scheduler. *)
Definition create_thread e t (th : thread_object D) (params : sched_params) s
    : option (pcpu P D) :=
  init_thread_data sched e t params (s⟨threads := <[t := th]> (threads s)⟩).

Lemma create_spec e s t th params : sched_inv sched s → env_ok e → t ≠ IDLE →
  threads s !! t = None → be_blocking th = false →
  ∃ s' th', create_thread e t th params s = Some s' ∧ sched_inv sched s'
    ∧ threads s' !! t = Some th' ∧ status th' = THREAD_STS_BLOCKED
    ∧ runq sched s' = runq sched s ∧ curr_obj s' = curr_obj s
    ∧ (∀ x, is_Some (threads s !! x) → is_Some (threads s' !! x)).
Proof.
  intros I He Hi Hfresh Hb. unfold create_thread. set (s1 := s⟨threads := _⟩).
  assert (Hl1 : threads s1 !! t = Some th) by apply lookup_insert_eq.
  assert (Hnq : t ∉ queue (priv s1)).
  { intros Hin. destruct (rq_ready _ _ _ t (inv_wf _ _ I) Hin) as (d & Hd & _).
    unfold datas in Hd. by rewrite lookup_fmap, Hfresh in Hd. }
  assert (Hw1 : wf sched s1).
  { unfold wf, datas. simpl. rewrite fmap_insert. apply rq_wf_fresh; [exact (inv_wf _ _ I)|done]. }
  destruct (rq_init_data e s1 t params He Hw1) as (s2 & Hrun & F & Hw2 & Hq & (d & Hd & Hr) & Ho);
    [eauto|done|].
  destruct (frame_lookup_inv _ _ _ _ F Hl1) as (th2 & Hl2 & Hsh).
  unfold init_thread_data. rewrite Hrun. simpl.
  unfold set_thread_status. rewrite (upd_thread_Some _ th2) by done.
  set (th' := th2⟨status := THREAD_STS_BLOCKED⟩). set (s3 := s2⟨threads := _⟩).
  apply shape_fields in Hsh as (Hst & Hbb & _).
  assert (Hlk : ∀ x y, threads s3 !! x = Some y → (x = t ∧ y = th') ∨
    (x ≠ t ∧ threads s2 !! x = Some y ∧ ∃ y0, threads s !! x = Some y0 ∧ shape y0 = shape y)).
  { intros x y Hl. change (<[t := th']> (threads s2) !! x = Some y) in Hl.
    apply lookup_insert_Some in Hl as [[<- <-]|[? Hx]]; [auto|].
    destruct (frame_lookup _ _ _ _ F Hx) as (y0 & Hy0 & ?). simpl in Hy0.
    rewrite lookup_insert_ne in Hy0 by done. eauto 10. }
  assert (Hq3 : runq sched s3 = runq sched s) by exact Hq.
  assert (Hkeep : ∀ x y, x ≠ t → threads s !! x = Some y →
    ∃ y', threads s3 !! x = Some y' ∧ shape y' = shape y).
  { intros x y Hx Hl. simpl. rewrite lookup_insert_ne by done.
    apply (frame_lookup_inv s1 s2); [done|]. simpl. by rewrite lookup_insert_ne. }
  exists s3, th'. split_and!; [done| |apply lookup_insert_eq|done|done|apply F|].
  2: { intros x [y Hy]. destruct (decide (x = t)) as [->|Hx]; [congruence|].
       destruct (Hkeep x y Hx Hy) as (y' & ? & _). eauto. }
  split.
  - unfold wf, datas. simpl. erewrite datas_upd by done. done.
  - rewrite Hq3. intros x y Hx [[-> ->]|(Hne & _ & y0 & Hl & Hs)]%Hlk.
    + split; [done|intros [Hx' _]; by destruct Hx'].
    + rewrite (inv_queue _ _ I x y0) by done. unfold runnable.
      by apply shape_fields in Hs as (-> & -> & _).
  - intros x y Hx [[-> ->]|(Hne & Hl2' & y0 & Hl & Hs)]%Hlk.
    + simpl. rewrite (datas_lookup _ _ _ Hl2) in Hd. by simplify_eq.
    + pose proof (Ho x Hne) as E. rewrite (datas_lookup _ _ _ Hl2') in E.
      assert (Hlx : threads s1 !! x = Some y0) by (simpl; by rewrite lookup_insert_ne).
      rewrite (datas_lookup _ _ _ Hlx) in E. injection E as ->. by eapply inv_ready.
  - rewrite Hq3. apply I.
  - destruct (inv_idle_runs _ _ I) as (y & Hl & Hy).
    destruct (Hkeep IDLE y) as (y' & Hl' & Hs); [done..|]. exists y'. split; [done|].
    unfold runnable in *. by apply shape_fields in Hs as (-> & -> & _).
  - destruct (inv_curr _ _ I) as (c & y & Hc & Hl & Hy).
    destruct (Hkeep c y) as (y' & Hl' & Hs); [congruence|done|].
    exists c, y'. apply shape_fields in Hs as (-> & _). simpl. rewrite (fr_curr _ _ F). done.
  - intros x y [[-> ->]|(Hne & _ & y0 & Hl & Hs)]%Hlk Hy; [done|]. simpl. rewrite (fr_curr _ _ F).
    apply shape_fields in Hs as (Hs & _). apply (inv_running _ _ I x y0); congruence.
  - intros x y [[-> ->]|(Hne & _ & y0 & Hl & Hs)]%Hlk Hy; [simpl in Hy; congruence|].
    apply shape_fields in Hs as (<- & Hs & _). apply (inv_blocking _ _ I x y0); congruence.
  - simpl. rewrite (fr_flags _ _ F). apply I.
  - intros x y [[-> ->]|(Hne & _ & y0 & Hl & Hs)]%Hlk Hy; [simpl in Hy; congruence|].
    rewrite (need_reschedule_flags s3 s) by apply F.
    apply shape_fields in Hs as (_ & Hs & _). apply (inv_leave _ _ I x y0); congruence.
  - simpl. rewrite (fr_curr _ _ F), Hq3, (need_reschedule_flags s3 s) by apply F. apply I.
Qed.

Lemma tick_spec e s : sched_inv sched s →
  ∃ s', tick_handler e s = Some s' ∧ sched_inv sched s' ∧ runq sched s' = runq sched s
    ∧ curr_obj s' = curr_obj s ∧ (∀ x, is_Some (threads s !! x) → is_Some (threads s' !! x)).
Proof using bspec Hlim.
  intros I. destruct (inv_curr _ _ I) as (c & th & Hc & Hl & _).
  destruct (rq_tick e s c (inv_wf _ _ I) Hc) as (s1 & Hrun & F & Hw & Hr & Hq); [eauto|].
  assert (I1 : sched_inv sched s1).
  { eapply inv_frame; try done. unfold runq. by rewrite Hq. }
  destruct Hrun as [Hrun|Hrun]; (eexists; split; [done|]).
  - split_and!; [done|done|apply F|]. intros x. by apply frame_is_Some.
  - split_and!; [by apply request_inv| | |]; unfold make_reschedule_request, runq.
    + rewrite <- Hq. by case_bool_decide.
    + rewrite <- (fr_curr _ _ F). by case_bool_decide.
    + intros x Hx%(frame_is_Some _ _ x F). by case_bool_decide.
Qed.

(** *** Starting a CPU *)

Lemma boot_spec e s raw : wf sched s → runq sched s = [] → threads s = {[ IDLE := raw ]} →
  be_blocking raw = false → flags s = 0 → env_ok e →
  ∃ s', run_idle_thread sched e s = Some s' ∧ sched_inv sched s'
    ∧ curr_obj s' = Some IDLE ∧ runq sched s' = [] ∧ dom (threads s') = {[ IDLE ]}
    ∧ actions s' = actions s ++ [Entry IDLE] ∧ pcpu_id s' = pcpu_id s.
Proof using rq.
  clear Hlim bspec.
  intros Hw Hq Ht Hb Hf He. unfold run_idle_thread.
  rewrite (upd_thread_Some IDLE raw) by (rewrite Ht; apply lookup_singleton_eq). simpl.
  set (th0 := raw⟨thread_entry := _⟩⟨switch_out := _⟩⟨switch_in := _⟩).
  set (s1 := s⟨threads := _⟩).
  assert (Et1 : threads s1 = {[ IDLE := th0 ]}) by (simpl; rewrite Ht; apply insert_singleton_eq).
  assert (Hw1 : wf sched s1).
  { unfold wf. replace (datas s1) with (datas s); [done|]. unfold datas.
    by rewrite Et1, Ht, !map_fmap_singleton. }
  destruct (rq_init_data e s1 IDLE (mk_sched_params (prio_val PRIO_IDLE) 0 0 0 0) He Hw1)
    as (s2 & Hrun & F & Hw2 & Hq2 & _ & _).
  { rewrite Et1, lookup_singleton_eq. eauto. }
  { change (IDLE ∉ runq sched s). rewrite Hq. set_solver. }
  unfold init_thread_data. cbn [prio_val] in Hrun. rewrite Hrun. simpl.
  destruct (frame_lookup_inv _ _ IDLE th0 F) as (th2 & Ht2 & Hsh);
    [by rewrite Et1, lookup_singleton_eq|].
  assert (Hdom : ∀ x y, threads s2 !! x = Some y → x = IDLE ∧ y = th2).
  { intros x y Hx. destruct (frame_lookup _ _ _ _ F Hx) as (y0 & Hy0 & _).
    rewrite Et1 in Hy0. apply lookup_singleton_Some in Hy0 as [<- _]. split; congruence. }
  assert (Et2 : threads s2 = {[ IDLE := th2 ]}).
  { apply map_eq. intros x. destruct (decide (x = IDLE)) as [->|Hx].
    - by rewrite lookup_singleton_eq.
    - rewrite lookup_singleton_ne by done. destruct (threads s2 !! x) eqn:Ex; [|done].
      by apply Hdom in Ex as [-> _]. }
  apply shape_fields in Hsh as Hsh'. destruct Hsh' as (Hst & Hbb & _).
  change (be_blocking th2 = be_blocking raw) in Hbb.
  unfold shape in Hsh. injection Hsh as Hen _ _ _ _.
  unfold set_thread_status. rewrite (upd_thread_Some IDLE th2) by done. simpl.
  unfold run_thread, set_thread_status.
  rewrite (upd_thread_Some IDLE (th2⟨status := THREAD_STS_BLOCKED⟩)) by apply lookup_insert_eq.
  simpl. rewrite lookup_insert_eq. simpl. rewrite Hen. simpl.
  eexists. split; [done|]. unfold emit. simpl. rewrite Et2, !insert_singleton_eq.
  assert (Hq2' : queue (priv s2) = []) by (rewrite Hq2; exact Hq).
  assert (Hlk : ∀ t th, ({[ IDLE := th2⟨status := THREAD_STS_BLOCKED⟩⟨status := THREAD_STS_RUNNING⟩ ]}
      : gmap tid (thread_object D)) !! t = Some th → t = IDLE ∧ th = th2⟨status := THREAD_STS_RUNNING⟩).
  { intros t th [<- <-]%lookup_singleton_Some. done. }
  split_and!; [split|..]; unfold wf, runq, datas; simpl; rewrite ?Hq2'.
  - rewrite map_fmap_singleton. unfold wf, datas in Hw2. by rewrite Et2, map_fmap_singleton in Hw2.
  - by intros t th Hx [-> _]%Hlk.
  - by intros t th Hx [-> _]%Hlk.
  - set_solver.
  - rewrite lookup_singleton_eq. eexists; split; [done|]. split; [done|]. simpl. congruence.
  - eexists IDLE, _. by rewrite lookup_singleton_eq.
  - by intros t th [-> _]%Hlk.
  - intros t th [-> ->]%Hlk. done.
  - rewrite (fr_flags _ _ F). simpl. rewrite Hf. unfold word. lia.
  - intros t th [-> ->]%Hlk. simpl. congruence.
  - done.
  - done.
  - done.
  - by rewrite dom_singleton_L.
  - by rewrite (fr_actions _ _ F).
  - apply F.
Qed.
End operations.

(** schedule() leaves the policy's state as pick_next does. *)
Lemma upd_thread_inert {P D} (t : tid) (f : thread_object D → thread_object D) (s s' : pcpu P D) :
  (∀ th, data (f th) = data th) → upd_thread t f s = Some s' →
  priv s' = priv s ∧ datas s' = datas s ∧ cpu_timers s' = cpu_timers s.
Proof.
  intros Hf. unfold upd_thread. destruct (threads s !! t) as [th|] eqn:Ht; [|done].
  intros [= <-]. split_and!; [done| |done]. unfold datas. simpl.
  by erewrite datas_upd by done.
Qed.

Lemma schedule_pick {P D} `{!BitmapOps} (sched : acrn_scheduler P D) f e s s' s1 n :
  pick_next sched = Some f → f e s = Some (s1, n) → schedule sched e s = Some s' →
  priv s' = priv s1 ∧ datas s' = datas s1 ∧ cpu_timers s' = cpu_timers s1.
Proof.
  intros Hf Hpick. unfold schedule. rewrite Hf, Hpick. cbn [mbind option_bind].
  case_if; [by intros [= <-]|]. destruct (curr_obj s) as [p|]; cbn [mbind option_bind].
  2: { destruct (threads _ !! n); [|done]. cbn [mbind option_bind].
       by destruct (set_thread_status n _ _). }
  destruct (threads _ !! p) as [thp|]; [|done]. cbn [mbind option_bind].
  destruct (set_thread_status p _ _) as [sa|] eqn:Ea; [|done]. cbn [mbind option_bind].
  destruct (set_be_blocking p _ _) as [sb|] eqn:Eb; [|done]. cbn [mbind option_bind].
  destruct (threads sb !! n) as [thn|]; [|done]. cbn [mbind option_bind].
  destruct (set_thread_status n _ _) as [sc|] eqn:Ec; [|done]. cbn [mbind option_bind].
  intros [= <-]. apply upd_thread_inert in Ea as (Ea1 & Ea2 & Ea3); [|done].
  apply upd_thread_inert in Eb as (Eb1 & Eb2 & Eb3); [|done].
  apply upd_thread_inert in Ec as (Ec1 & Ec2 & Ec3); [|done].
  change (datas (emit _ _)) with (datas sc). simpl.
  rewrite Ec1, Ec2, Ec3. clear Ec1 Ec2 Ec3.
  destruct (switch_in thn), (switch_out thp); unfold emit in *; simpl in *;
    change (datas (sb⟨actions := _⟩)) with (datas sb);
    rewrite ?Eb1, ?Eb2, ?Eb3, ?Ea1, ?Ea2, ?Ea3; done.
Qed.

(** schedule() loses no thread. *)
Lemma upd_thread_keeps {P D} (t : tid) f (s s' : pcpu P D) x :
  upd_thread t f s = Some s' → is_Some (threads s !! x) → is_Some (threads s' !! x).
Proof.
  unfold upd_thread. destruct (threads s !! t) as [th|]; [|done]. intros [= <-] Hx. simpl.
  destruct (decide (x = t)) as [->|]; [rewrite lookup_insert_eq|rewrite lookup_insert_ne]; eauto.
Qed.

Lemma schedule_keeps {P D} `{!BitmapOps} (sched : acrn_scheduler P D) {rq : RunQueue sched} e s s' x :
  sched_inv sched s → schedule sched e s = Some s' →
  is_Some (threads s !! x) → is_Some (threads s' !! x).
Proof.
  intros I. destruct (inv_curr _ _ I) as (c & th & Hc & Hl & _).
  destruct (rq_pick e s c (inv_wf _ _ I) Hc) as (f & s1 & n & Hf & Hpick & F & _);
    [eauto|intros; exists (data th); split; [by apply datas_lookup|by eapply (inv_ready _ _ I)]|].
  clear th Hl I.
  unfold schedule. rewrite Hf, Hpick, Hc. cbn [mbind option_bind]. intros Hrun Hx.
  apply (frame_is_Some _ _ x F) in Hx. case_if; [by injection Hrun as <-|].
  destruct (threads _ !! c) as [thp|]; [|done]. cbn [mbind option_bind] in Hrun.
  destruct (set_thread_status c _ _) as [sa|] eqn:Ea; [|done]. cbn [mbind option_bind] in Hrun.
  destruct (set_be_blocking c _ _) as [sb|] eqn:Eb; [|done]. cbn [mbind option_bind] in Hrun.
  destruct (threads sb !! n) as [thn|]; [|done]. cbn [mbind option_bind] in Hrun.
  destruct (set_thread_status n _ _) as [sc|] eqn:Ec; [|done]. injection Hrun as <-.
  change (is_Some (threads sc !! x)).
  eapply upd_thread_keeps; [exact Ec|]. case_if; unfold emit; simpl;
  (eapply upd_thread_keeps; [exact Eb|]; eapply upd_thread_keeps; [exact Ea|]; by case_if).
Qed.

(** wake_thread of a thread that may not run leaves the policy's state as the
    policy's wake does. *)
Lemma wake_inert {P D} `{!BitmapOps} (sched : acrn_scheduler P D) f e t th s s0 s1 :
  threads s !! t = Some th → ¬ runnable th → wake sched = Some f → f e t s = Some s0 →
  wake_thread sched e t s = Some s1 →
  priv s1 = priv s0 ∧ datas s1 = datas s0 ∧ cpu_timers s1 = cpu_timers s0.
Proof.
  intros Ht Hn Hf Hrun. unfold wake_thread. rewrite Ht. cbn [mbind option_bind].
  replace (is_blocked th || be_blocking th) with true.
  2: { unfold runnable, is_blocked in *. case_bool_decide; [done|].
       destruct (be_blocking th); [done|]. by destruct Hn. }
  rewrite Hf, Hrun. cbn [mbind option_bind].
  destruct (threads s0 !! t) as [th0|]; [|done]. cbn [mbind option_bind].
  destruct (is_blocked th0).
  - destruct (set_thread_status t _ s0) as [sa|] eqn:Ea; [|done]. cbn [mbind option_bind].
    apply upd_thread_inert in Ea as (Ea & Ed & Et); [|done].
    intros (-> & Ed' & ->)%upd_thread_inert; [|done]. rewrite Ed'. clear Ed'.
    unfold make_reschedule_request. case_bool_decide; (split_and!; [exact Ea|exact Ed|exact Et]).
  - cbn [mbind option_bind]. by intros ?%upd_thread_inert.
Qed.

(** ** Sequences of operations *)

Section runs.
Context {P D : Type} {ops : BitmapOps} (sched : acrn_scheduler P D) {rq : RunQueue sched}.

(** The entry points of the framework, each with the CPU and clock it runs on. *)
Inductive sched_op :=
  | OpSchedule
  | OpSleep (t : tid)
  | OpWake (t : tid)
  | OpYield
  | OpTick
  | OpCreate (t : tid) (th : thread_object D) (params : sched_params).

Definition exec (e : env) (op : sched_op) (s : pcpu P D) : option (pcpu P D) :=
  match op with
  | OpSchedule => schedule sched e s
  | OpSleep t => sleep_thread sched e t s
  | OpWake t => wake_thread sched e t s
  | OpYield => Some (yield_current e s)
  | OpTick => tick_handler e s
  | OpCreate t th params => create_thread sched e t th params s
  end.

(** What the callers respect: only existing threads are slept and woken, the
    idle thread is never put to sleep, new threads are new. *)
Definition op_ok (e : env) (op : sched_op) (s : pcpu P D) : Prop :=
  match op with
  | OpSchedule | OpYield | OpTick => True
  | OpSleep t => t ≠ IDLE ∧ is_Some (threads s !! t)
  | OpWake t => ∃ th, threads s !! t = Some th ∧ (¬ runnable th → room (priv s))
  | OpCreate t th _ => env_ok e ∧ t ≠ IDLE ∧ threads s !! t = None ∧ be_blocking th = false
  end.

Fixpoint exec_all (l : list (env * sched_op)) (s : pcpu P D) : option (pcpu P D) :=
  match l with
  | [] => Some s
  | (e, op) :: l => s ← exec e op s; exec_all l s
  end.

(** Every operation of the sequence is permitted in the state it starts in. *)
Fixpoint ops_ok (l : list (env * sched_op)) (s : pcpu P D) : Prop :=
  match l with
  | [] => True
  | (e, op) :: l => op_ok e op s ∧ ∀ s', exec e op s = Some s' → ops_ok l s'
  end.

Context (lim : Z) {bspec : BitmapSpec ops lim} (Hlim : NEED_RESCHEDULE < lim).

Lemma exec_inv e op s : sched_inv sched s → op_ok e op s →
  ∃ s', exec e op s = Some s' ∧ sched_inv sched s'.
Proof using bspec Hlim.
  intros I. destruct op as [|t|t| | |t th params]; simpl.
  - intros _. destruct (inv_curr _ _ I) as (c & th & Hc & Hl & _).
    edestruct (schedule_spec lim Hlim sched e s c th) as (s' & ? & ? & ? & _); eauto.
  - intros (Hi & [th Ht]). edestruct (sleep_spec lim Hlim sched e s t th) as (s' & ? & ? & ? & _); eauto.
  - intros (th & Ht & Hroom). destruct (wake_spec lim Hlim sched e s t th I Ht) as [[_ ?]|[Hn Hw]];
      [eauto|]. destruct (Hw (Hroom Hn)) as (s' & ? & ? & ? & _). eauto.
  - intros _. eexists; split; [done|]. by eapply request_inv.
  - intros _. destruct (tick_spec lim Hlim sched e s I) as (s' & ? & ? & _). eauto.
  - intros (? & ? & ? & ?).
    destruct (create_spec sched e s t th params I) as (s' & ? & ? & ? & _); eauto.
Qed.

Lemma exec_all_inv l : ∀ s, sched_inv sched s → ops_ok l s →
  ∃ s', exec_all l s = Some s' ∧ sched_inv sched s'.
Proof using bspec Hlim.
  induction l as [|[e op] l IH]; simpl; intros s I; [eauto|]. intros [Hop Hl].
  destruct (exec_inv e op s I Hop) as (s1 & Hrun & I1). rewrite Hrun. simpl.
  apply IH; [done|]. by apply Hl.
Qed.
End runs.
Arguments sched_op : clear implicits.
