(* ===== verification/SchedIorr.v ===== *)
(** * The IO-sensitive round-robin policy (hypervisor/common/sched_iorr.c)

    The run queue is the sequence of threads linked through their
    [sched_iorr_data.list]. The instance [iorr_run_queue] shows that the policy
    implements the interface of the framework. *)

From S2P Require Import Prelude Bits LinkedList Timer Schedule.

Definition CONFIG_SLICE_MS : Z := 10.
(** The identity of [iorr_ctl->tick_timer] and of its handler. *)
Definition TICK_TIMER : tmid := 0%nat.
Definition TICK_HANDLER : nat := 0%nat.

Record sched_iorr_data := mk_iorr_data {
  slice_cycles : Z;
  last_cycles : Z;
  left_cycles : Z;
}.
#[export] Instance eta_iorr_data : Eta sched_iorr_data :=
  MkEta _ (rd mk_iorr_data <*> slice_cycles <*> last_cycles <*> left_cycles).

Record sched_iorr_control := mk_iorr_control { runqueue : list tid }.
#[export] Instance eta_iorr_control : Eta sched_iorr_control :=
  MkEta _ (rd mk_iorr_control <*> runqueue).

Section policy.
Context `{!BitmapOps}.
Abbreviation st := (pcpu sched_iorr_control sched_iorr_data).
Implicit Types (s : st) (obj : tid) (e : env).

Definition is_inqueue obj s : bool := Seq.linked obj (runqueue (priv s)).

Definition set_runqueue (q : list tid) s : st := s⟨priv := mk_iorr_control q⟩.

Definition runqueue_add_head obj s : st :=
  if is_inqueue obj s then s else set_runqueue (Seq.add obj (runqueue (priv s))) s.

Definition runqueue_add_tail obj s : st :=
  if is_inqueue obj s then s else set_runqueue (Seq.add_tail obj (runqueue (priv s))) s.

Definition runqueue_remove obj s : st := set_runqueue (Seq.del obj (runqueue (priv s))) s.

(** The tick timer runs on the CPU it was started on, whose requests
    [make_reschedule_request e] makes. *)
Definition sched_tick_handler e s : option st :=
  let now := clock e O in
  match curr_obj s with
  | None => Some s
  | Some current =>
      if is_idle_thread current && Seq.empty (runqueue (priv s)) then Some s else
      data ← get_data current s;
      let data := if is_idle_thread current then data
                  else data⟨left_cycles := s64 (left_cycles data - u64 (now - last_cycles data))⟩
                           ⟨last_cycles := now⟩ in
      s ← set_data current data s;
      Some (if is_idle_thread current || (left_cycles data <=? 0)
            then make_reschedule_request e s else s)
  end.

Definition sched_iorr_init e s : option (st * Z) :=
  let tick_period := Ticks.TICKS_PER_MS (khz e) in
  if negb (bool_decide (self e = pcpu_id s)) then None else
  let s := set_runqueue [] s in
  ts ← initialize_timer TICK_TIMER (Some TICK_HANDLER) (pcpu_id s)
         (u64 (clock e 0%nat + tick_period)) tick_period (cpu_timers s);
  '(ts, r) ← RvTimer.add_timer (khz e) (clock e 1%nat) TICK_TIMER ts;
  Some (s⟨cpu_timers := ts⟩, if r <? 0 then -1 else 0).

Definition sched_iorr_deinit e s : option st :=
  Some (s⟨cpu_timers := del_timer TICK_TIMER (cpu_timers s)⟩).

(** INIT_LIST_HEAD on a queued thread would break the run queue: [None]. *)
Definition sched_iorr_init_data e obj (params : sched_params) s : option st :=
  if is_inqueue obj s then None else
  data ← get_data obj s;
  let slice := u64 (CONFIG_SLICE_MS * Ticks.TICKS_PER_MS (khz e)) in
  set_data obj (data⟨slice_cycles := slice⟩⟨left_cycles := s64 slice⟩) s.

(** [while (data->left_cycles <= 0) data->left_cycles += data->slice_cycles] *)
Fixpoint replenish (fuel : nat) (slice left : Z) : option Z :=
  match fuel with
  | O => None
  | S fuel => if left <=? 0 then replenish fuel slice (s64 (left + slice)) else Some left
  end.

Definition replenish_fuel (slice left : Z) : nat := S (S (Z.to_nat (Z.max 0 (- left) / slice))).

(** The first half of pick_next: charge the current thread [current], with
    data [data], and move it to the tail. *)
Definition requeue_current (now : Z) (current : tid) (data : sched_iorr_data) s : option st :=
  if negb (is_idle_thread current) && is_inqueue current s then
    let left := s64 (left_cycles data - u64 (now - last_cycles data)) in
    let left := if left <=? 0 then s64 (left + slice_cycles data) else left in
    s ← set_data current (data⟨left_cycles := left⟩) s;
    Some (runqueue_add_tail current (runqueue_remove current s))
  else Some s.

Definition sched_iorr_pick_next e s : option (st * tid) :=
  let now := clock e O in
  current ← curr_obj s;
  data ← get_data current s;
  s ← requeue_current now current data s;
  match runqueue (priv s) with
  | next :: _ =>
      data ← get_data next s;
      left ← replenish (replenish_fuel (slice_cycles data) (left_cycles data))
               (slice_cycles data) (left_cycles data);
      s ← set_data next (data⟨last_cycles := now⟩⟨left_cycles := left⟩) s;
      Some (s, next)
  | [] => Some (s, IDLE)
  end.

Definition sched_iorr_sleep e obj s : option st := Some (runqueue_remove obj s).

Definition sched_iorr_wake e obj s : option st := Some (runqueue_add_head obj s).

Definition sched_iorr : acrn_scheduler sched_iorr_control sched_iorr_data := {|
  init := Some sched_iorr_init;
  init_data := Some sched_iorr_init_data;
  pick_next := Some sched_iorr_pick_next;
  sleep := Some sched_iorr_sleep;
  wake := Some sched_iorr_wake;
  deinit_data := None;
  deinit := Some sched_iorr_deinit;
|}.
End policy.

(** ** The policy implements the run-queue interface *)

Definition iorr_ready (d : sched_iorr_data) : Prop :=
  0 < slice_cycles d < 2 ^ 63 ∧ - 2 ^ 63 ≤ left_cycles d < 2 ^ 63.

Record iorr_wf (p : sched_iorr_control) (ds : gmap tid sched_iorr_data) (ts : timers) : Prop := {
  iw_nodup : NoDup (runqueue p);
  iw_ready t : t ∈ runqueue p → ∃ d, ds !! t = Some d ∧ iorr_ready d;
}.

(** The loop ends, with a positive budget of at most one slice unless some was
    left. *)
Lemma replenish_spec slice k : ∀ left fuel,
  0 < slice < 2 ^ 63 → - 2 ^ 63 ≤ left < 2 ^ 63 → - left ≤ (Z.of_nat k - 1) * slice + (slice - 1) →
  (k < fuel)%nat →
  ∃ r, replenish fuel slice left = Some r ∧ 0 < r ∧ (0 < left → r = left)
    ∧ (left ≤ 0 → r ≤ slice).
Proof.
  induction k as [|k IH]; intros left [|fuel] Hs Hl Hk Hf; try lia; simpl;
    (destruct (Z.leb_spec left 0); [|exists left; split_and!; [done|lia|done|lia]]); [lia|].
  rewrite s64_small by lia. destruct (IH (left + slice) fuel) as (r & -> & ? & Hgt & Hle);
    [done|lia|lia|lia|]. exists r. split_and!; [done|done|lia|].
  intros _. destruct (decide (0 < left + slice)); [rewrite Hgt by done; lia|apply Hle; lia].
Qed.

Lemma replenish_enough slice left : 0 < slice < 2 ^ 63 → - 2 ^ 63 ≤ left < 2 ^ 63 →
  ∃ r, replenish (replenish_fuel slice left) slice left = Some r ∧ 0 < r ∧ (0 < left → r = left)
    ∧ (left ≤ 0 → r ≤ slice).
Proof.
  intros Hs Hl. unfold replenish_fuel.
  apply (replenish_spec slice (S (Z.to_nat (Z.max 0 (- left) / slice)))); [done|done| |lia].
  pose proof (Z.div_pos (Z.max 0 (- left)) slice ltac:(lia) ltac:(lia)).
  pose proof (Z.div_mod (Z.max 0 (- left)) slice ltac:(lia)).
  pose proof (Z.mod_pos_bound (Z.max 0 (- left)) slice ltac:(lia)).
  rewrite Nat2Z.inj_succ, Z2Nat.id by done. nia.
Qed.

Section instance.
Context `{!BitmapOps}.
Implicit Types (s : pcpu sched_iorr_control sched_iorr_data).

Definition iorr_ok s : Prop := iorr_wf (priv s) (datas s) (cpu_timers s).

(** The queue after the current thread went to the tail. *)
Definition rotate_current (c : tid) (q : list tid) : list tid :=
  if negb (is_idle_thread c) && Seq.linked c q then Seq.del c q ++ [c] else q.

Lemma rotate_current_perm c q : rotate_current c q ≡ₚ q.
Proof.
  unfold rotate_current, Seq.linked.
  destruct (is_idle_thread c); [done|]. simpl. case_bool_decide as Hin; [|done].
  apply list_elem_of_split_l in Hin as (l1 & l2 & -> & Hl1).
  rewrite seq_del by done. rewrite <- app_assoc. f_equiv. by rewrite Permutation_app_comm.
Qed.

Lemma iorr_wf_queue q q' ds ts : q' ≡ₚ q → iorr_wf (mk_iorr_control q) ds ts →
  iorr_wf (mk_iorr_control q') ds ts.
Proof.
  intros Hq [Hn Hr]. split; simpl in *; [by rewrite Hq|]. intros t Ht. apply Hr. by rewrite <- Hq.
Qed.

Lemma iorr_wf_data p ds ts t d : iorr_wf p ds ts → iorr_ready d → iorr_wf p (<[t := d]> ds) ts.
Proof.
  intros [Hn Hr] Hd. split; [done|]. intros x Hx. destruct (Hr x Hx) as (y & Hy & Hry).
  by eapply ready_insert.
Qed.

Lemma iorr_kept_wf s s' : iorr_ok s → kept iorr_ready s s' → runqueue (priv s') ≡ₚ runqueue (priv s) →
  iorr_ok s'.
Proof.
  intros [Hn Hr] [F R] Hq. split; [by rewrite Hq|]. intros t Ht. rewrite Hq in Ht.
  destruct (Hr t Ht) as (d & ? & ?). eauto.
Qed.

(** Charging the current thread and moving it to the tail. *)
Lemma iorr_requeue e s c : iorr_ok s → is_Some (threads s !! c) →
  ∃ data s', get_data c s = Some data
    ∧ requeue_current (clock e O) c data s = Some s'
    ∧ kept iorr_ready s s' ∧ runqueue (priv s') = rotate_current c (runqueue (priv s)).
Proof.
  intros Hw Hc. destruct (proj2 (datas_is_Some s c) Hc) as [d Hd].
  exists d. unfold requeue_current, rotate_current, is_inqueue.
  destruct (negb (is_idle_thread c) && Seq.linked c (runqueue (priv s))) eqn:E.
  2: { exists s. rewrite get_data_spec. split_and!; auto using kept_refl. }
  cbv zeta. set (left := s64 _). set (left' := if left <=? 0 then _ else _).
  destruct (set_data_spec s c (d⟨left_cycles := left'⟩) Hc) as (s1 & Hrun & Hdw).
  exists (runqueue_add_tail c (runqueue_remove c s1)). rewrite get_data_spec, Hrun.
  apply andb_true_iff in E as [_ E]. unfold Seq.linked in E. apply bool_decide_eq_true in E.
  destruct (iw_ready _ _ _ Hw c E) as (d' & Hd' & Hr). simplify_eq.
  assert (Hr' : iorr_ready (d⟨left_cycles := left'⟩)).
  { split; [apply Hr|]. simpl. unfold left'. case_if; apply s64_range. }
  assert (Hk := kept_data iorr_ready _ _ _ _ Hdw (λ _ _ _, Hr')).
  assert (Hni : c ∉ Seq.del c (runqueue (priv s1))).
  { rewrite (dw_priv _ _ _ _ Hdw). apply not_in_del, Hw. }
  unfold runqueue_add_tail, runqueue_remove, is_inqueue, Seq.linked. simpl.
  rewrite bool_decide_false by done. split_and!; [done|done| |].
  - eapply kept_trans; [exact Hk|]. by apply kept_same.
  - simpl. by rewrite (dw_priv _ _ _ _ Hdw).
Qed.

(** The thread picked from a non-empty queue, with its replenished budget. *)
Definition granted (now : Z) (d : sched_iorr_data) : Prop :=
  last_cycles d = now ∧ 0 < left_cycles d.

Lemma iorr_pick e s c : iorr_ok s → curr_obj s = Some c → is_Some (threads s !! c) →
  ∃ s' next, sched_iorr_pick_next e s = Some (s', next)
    ∧ kept iorr_ready s s' ∧ iorr_ok s'
    ∧ runqueue (priv s') = rotate_current c (runqueue (priv s))
    ∧ next = default IDLE (head (runqueue (priv s')))
    ∧ (runqueue (priv s') ≠ [] → ∃ d, datas s' !! next = Some d ∧ granted (clock e O) d).
Proof.
  intros Hw Hc Hs. destruct (iorr_requeue e s c Hw Hs) as (d & s1 & Hd & Hrun & Hk & Hq).
  assert (Hw1 : iorr_ok s1).
  { eapply iorr_kept_wf; [done..|]. rewrite Hq. apply rotate_current_perm. }
  unfold sched_iorr_pick_next. rewrite Hc. cbn [mbind option_bind]. rewrite Hd.
  cbn [mbind option_bind]. rewrite Hrun. cbn [mbind option_bind].
  destruct (runqueue (priv s1)) as [|n q] eqn:Eq.
  { exists s1, IDLE. rewrite Eq, <- Hq. by split_and!. }
  destruct (iw_ready _ _ _ Hw1 n) as (dn & Hdn & Hrn & Hln); [rewrite Eq; set_solver|].
  rewrite get_data_spec, Hdn. cbn [mbind option_bind].
  destruct (replenish_enough _ _ Hrn Hln) as (r & Hr & Hpos & Hsame & Hle). rewrite Hr.
  cbn [mbind option_bind]. set (dn' := dn⟨last_cycles := _⟩⟨left_cycles := r⟩).
  destruct (set_data_spec s1 n dn') as (s2 & Hrun2 & Hdw); [by apply datas_is_Some|].
  rewrite Hrun2. cbn [mbind option_bind]. exists s2, n.
  assert (Hk2 : kept iorr_ready s1 s2).
  { eapply kept_data; [done|]. intros _ _ _. split; [done|]. simpl.
    destruct (decide (0 < left_cycles dn)); [rewrite Hsame by done|]; lia. }
  rewrite (dw_priv _ _ _ _ Hdw), Eq. split_and!; [done|by eapply kept_trans| |done|done|].
  - eapply (iorr_kept_wf s1); [done..|]. by rewrite (dw_priv _ _ _ _ Hdw).
  - intros _. rewrite (dw_datas _ _ _ _ Hdw), lookup_insert_eq. by eexists.
Qed.

Lemma iorr_tick e s c : iorr_ok s → curr_obj s = Some c → is_Some (threads s !! c) →
  ∃ s', (sched_tick_handler e s = Some s'
         ∨ sched_tick_handler e s = Some (make_reschedule_request e s'))
    ∧ kept iorr_ready s s' ∧ iorr_ok s' ∧ priv s' = priv s.
Proof.
  intros Hw Hc Hs. unfold sched_tick_handler. rewrite Hc.
  case_if; [exists s; split_and!; auto using kept_refl|].
  destruct (proj2 (datas_is_Some s c) Hs) as [d Hd]. rewrite get_data_spec, Hd.
  cbn [mbind option_bind]. set (d' := if is_idle_thread c then d else _).
  destruct (set_data_spec s c d' Hs) as (s1 & Hrun & Hdw). rewrite Hrun. cbn [mbind option_bind].
  assert (Hr : iorr_ready d → iorr_ready d').
  { intros [H1 H2]. unfold d'. case_if; [done|]. split; [done|]. simpl. apply s64_range. }
  assert (Hk : kept iorr_ready s s1).
  { eapply kept_data; [done|]. intros d0 Hd0. by simplify_eq. }
  exists s1. split_and!; [|done| |apply Hdw].
  - case_if; auto.
  - eapply iorr_kept_wf; [done..|]. by rewrite (dw_priv _ _ _ _ Hdw).
Qed.

Lemma ticks_per_ms k : 0 < k < 2 ^ 32 → Ticks.TICKS_PER_MS k = k.
Proof.
  intros Hk. unfold Ticks.TICKS_PER_MS, Ticks.us_to_ticks. rewrite u64_id by (unfold word; lia).
  rewrite Z.mul_comm. apply Z.div_mul. lia.
Qed.

#[global, refine] Instance iorr_run_queue : RunQueue sched_iorr := {
  queue := runqueue;
  ready := iorr_ready;
  room := λ _, True;
  rq_wf := iorr_wf;
  tick_handler := sched_tick_handler;
}.
Proof.
  - intros p ds ts Hw. apply Hw.
  - intros p ds ts t Hw. apply Hw.
  - intros p ds ts t d [Hn Hr] Ht. split; [done|]. intros x Hx.
    rewrite lookup_insert_ne by set_solver. auto.
  - intros e s c Hw Hc Hs _. destruct (iorr_pick e s c Hw Hc Hs) as (s' & n & Hrun & Hk & Hw' & Hq & En & _).
    eexists _, s', n. split_and!; [done|done|apply Hk|done|apply Hk| |done].
    rewrite Hq. apply rotate_current_perm.
  - intros e s t Hw Ht. eexists _, _. split_and!; [done|done|by split| |done|done].
    destruct Hw as [Hn Hr]. split; simpl; [by apply nodup_seq_del|].
    intros x Hx. apply Hr. by apply elem_of_seq_del in Hx as [? _].
  - intros e s t d Hw Hd Hr Ht _. eexists _, _. split_and!; [done|done|..].
    + unfold runqueue_add_head. case_if; [apply frame_refl|by split].
    + unfold runqueue_add_head, is_inqueue, Seq.linked. rewrite bool_decide_false by done.
      destruct Hw as [Hn Hrd]. split; simpl; [by constructor|].
      intros x [->|Hx]%elem_of_cons; [|by apply Hrd]. eauto.
    + intros x y Hx Hy. unfold runqueue_add_head. case_if; eauto.
    + unfold runqueue_add_head, is_inqueue, Seq.linked. by rewrite bool_decide_false.
  - intros e s c Hw Hc Hs. destruct (iorr_tick e s c Hw Hc Hs) as (s' & Hrun & Hk & Hw' & Hp).
    exists s'. split_and!; [done|apply Hk|done|apply Hk|by rewrite Hp].
  - intros e s t params He Hw Ht Hn. simpl. unfold sched_iorr_init_data, is_inqueue, Seq.linked.
    rewrite bool_decide_false by done. destruct (proj2 (datas_is_Some s t) Ht) as [d Hd].
    rewrite get_data_spec, Hd. cbn [mbind option_bind].
    unfold env_ok in He. rewrite ticks_per_ms by done.
    rewrite u64_id by (unfold word, CONFIG_SLICE_MS; lia).
    rewrite s64_small by (unfold CONFIG_SLICE_MS; lia). set (d' := d⟨slice_cycles := _⟩⟨left_cycles := _⟩).
    assert (Hr : iorr_ready d') by (unfold iorr_ready, d', CONFIG_SLICE_MS; simpl; lia).
    destruct (set_data_spec s t d' Ht) as (s' & -> & [F Edat Ep Et]).
    exists s'. rewrite Edat, Ep, Et. split_and!; [done|done|by apply iorr_wf_data|done| |].
    + rewrite lookup_insert_eq. eauto.
    + intros x Hx. by rewrite lookup_insert_ne.
Defined.
End instance.

(** ** Properties of the policy *)

Section properties.
Context {ops : BitmapOps} (lim : Z) {bspec : BitmapSpec ops lim}.
Context (Hlim : NEED_RESCHEDULE < lim).
Implicit Types (s : pcpu sched_iorr_control sched_iorr_data).

Lemma iorr_schedule e s c : sched_inv sched_iorr s → curr_obj s = Some c →
  ∃ s', schedule sched_iorr e s = Some s' ∧ sched_inv sched_iorr s'
    ∧ runqueue (priv s') = rotate_current c (runqueue (priv s))
    ∧ curr_obj s' = Some (default IDLE (head (runqueue (priv s'))))
    ∧ (runqueue (priv s') ≠ [] → ∃ t d, curr_obj s' = Some t ∧ datas s' !! t = Some d
         ∧ granted (clock e O) d).
Proof using bspec Hlim.
  intros I Hc. destruct (inv_curr _ _ I) as (c' & th & Hc' & Hl & _). simplify_eq.
  destruct (schedule_spec lim Hlim sched_iorr e s c th I Hc Hl)
    as (s' & n & Hrun & I' & En & Hcur & _).
  destruct (iorr_pick e s c (inv_wf _ _ I) Hc) as (s1 & n1 & Hpick & _ & _ & Hq & En1 & Hg); [eauto|].
  destruct (schedule_pick sched_iorr sched_iorr_pick_next e s s' s1 n1 eq_refl Hpick Hrun)
    as (Hp & Hd & _).
  exists s'. rewrite Hp, Hd. unfold runq in En. simpl in En. rewrite Hp in En. subst.
  split_and!; [done|done|done|done|]. intros Hne. destruct (Hg Hne) as (d & ? & ?). eauto.
Qed.

Lemma rotate_snoc n (c : tid) q : rotate n (q ++ [c]) = rotate (S n) (c :: q).
Proof.
  unfold rotate. rewrite length_app. simpl length. rewrite Nat.add_1_r.
  pose proof (Nat.mod_upper_bound n (S (length q)) ltac:(lia)) as Hk.
  pose proof (Nat.div_mod n (S (length q)) ltac:(lia)) as Hn.
  set (k := (n mod S (length q))%nat) in *. destruct (decide (k = length q)) as [E|E].
  - replace (S n mod S (length q))%nat with 0%nat.
    + rewrite E, drop_app_length, take_app_length. simpl. by rewrite app_nil_r.
    + symmetry. apply Nat.Div0.mod_divides. exists (S (n / S (length q))). nia.
  - replace (S n mod S (length q))%nat with (S k).
    + simpl. rewrite drop_app_le, take_app_le by lia. by rewrite <- app_assoc.
    + apply (Nat.mod_unique _ _ (n / S (length q))); lia.
Qed.

(** Successive calls of schedule(). *)
Fixpoint schedule_n (es : list env) s : option (pcpu sched_iorr_control sched_iorr_data) :=
  match es with
  | [] => Some s
  | e :: es => s ← schedule sched_iorr e s; schedule_n es s
  end.

Lemma schedule_n_rotates es : ∀ s c q, sched_inv sched_iorr s →
  runqueue (priv s) = c :: q → curr_obj s = Some c →
  ∃ s', schedule_n es s = Some s' ∧ sched_inv sched_iorr s'
    ∧ runqueue (priv s') = rotate (length es) (c :: q)
    ∧ curr_obj s' = head (runqueue (priv s')).
Proof using bspec Hlim.
  induction es as [|e es IH]; intros s c q I Eq Hc; cbn [schedule_n length].
  - exists s. rewrite Eq. split_and!; try done. unfold rotate. by rewrite Nat.Div0.mod_0_l, app_nil_r.
  - destruct (iorr_schedule e s c I Hc) as (s1 & Hrun & I1 & Eq1 & Hc1 & _).
    rewrite Hrun. cbn [mbind option_bind].
    assert (Hi : c ≠ IDLE).
    { intros ->. apply (inv_idle _ _ I). unfold runq. simpl. rewrite Eq. set_solver. }
    assert (E : runqueue (priv s1) = q ++ [c]).
    { rewrite Eq1, Eq. unfold rotate_current, is_idle_thread, Seq.linked.
      rewrite bool_decide_false, bool_decide_true by (done || set_solver). simpl.
      by rewrite decide_True. }
    destruct (q ++ [c]) as [|c1 q1] eqn:E1; [by destruct q|].
    destruct (IH s1 c1 q1 I1) as (s' & Hrun' & I' & Eq' & Hc'); [done|by rewrite Hc1, E|].
    exists s'. split_and!; [done|done| |done]. rewrite Eq', <- E1.
    apply rotate_snoc.
Qed.

Lemma iorr_boots e cpu raw s : threads s = {[ IDLE := raw ]} → be_blocking raw = false →
  TICK_TIMER ∉ timer_list (cpu_timers s) → env_ok e → self e = cpu →
  ∃ s', boot sched_iorr e cpu s = Some s' ∧ sched_inv sched_iorr s' ∧ curr_obj s' = Some IDLE
    ∧ runqueue (priv s') = [] ∧ dom (threads s') = {[ IDLE ]}.
Proof using ops.
  intros Ht Hb Hti He Hself. unfold boot, init_sched.
  cbn [init sched_iorr]. set (s0 := s⟨mode_to_idle := _⟩⟨mode_to_kick_pcpu := _⟩⟨flags := _⟩
    ⟨curr_obj := _⟩⟨pcpu_id := _⟩). unfold sched_iorr_init, initialize_timer, Seq.linked.
  change (timer_list (cpu_timers (set_runqueue [] s0))) with (timer_list (cpu_timers s)).
  change (pcpu_id s0) with cpu. rewrite bool_decide_true by done.
  rewrite bool_decide_false by done. cbn [negb mbind option_bind].
  set (ts := set_tobj TICK_TIMER _ _).
  assert (Hadd : ∃ ts' r, RvTimer.add_timer (khz e) (clock e 1%nat) TICK_TIMER ts = Some (ts', r)).
  { unfold RvTimer.add_timer, add_timer_with, Seq.linked.
    destruct (tobj ts !! TICK_TIMER) as [tm|]; [|eauto]. case_if; [eauto|].
    rewrite bool_decide_false by done. destruct (local_add_timer _ _) as [ts' []]; eauto. }
  destruct Hadd as (ts' & r & ->). cbn [mbind option_bind].
  set (s1 := (set_runqueue [] s0)⟨cpu_timers := ts'⟩).
  destruct (boot_spec sched_iorr e s1 raw) as (s2 & Hrun & I & Hc & Hq & Hd & _); try done.
  { split; [constructor|]. intros t Hx. by apply elem_of_nil in Hx. }
  exists s2. split_and!; done.
Qed.

(** Round robin: while threads neither sleep nor wake, [n] calls of
    schedule() rotate the run queue by [n], and the thread that then runs is
    the one that stood at position [n] modulo the length of the queue, so
    every runnable thread gets the CPU within one round. *)
Theorem iorr_round_robin es s t q :
  sched_inv sched_iorr s → runqueue (priv s) = t :: q → curr_obj s = Some t →
  ∃ s', schedule_n es s = Some s' ∧ sched_inv sched_iorr s'
    ∧ runqueue (priv s') = rotate (length es) (runqueue (priv s))
    ∧ curr_obj s' = runqueue (priv s) !! (length es mod length (runqueue (priv s)))%nat.
Proof using bspec Hlim.
  intros I Eq Hc. destruct (schedule_n_rotates es s t q I Eq Hc) as (s' & ? & ? & E & Hc').
  exists s'. rewrite Eq. split_and!; [done..|]. rewrite Hc', E. unfold rotate.
  set (k := (length es mod _)%nat). assert (Hk : (k < length (t :: q))%nat).
  { apply Nat.mod_upper_bound. simpl. lia. } clearbody k.
  destruct (lookup_lt_is_Some_2 _ _ Hk) as [x Hx]. rewrite Hx.
  by rewrite (drop_S _ x).
Qed.

(** A thread woken from sleep goes to the head of the queue: the next
    schedule() on the CPU, which wake_thread has requested, runs it, with a
    positive budget. *)
Theorem iorr_woken_runs_next e e' s t th :
  sched_inv sched_iorr s → threads s !! t = Some th → status th = THREAD_STS_BLOCKED →
  ∃ s1 s2, wake_thread sched_iorr e t s = Some s1 ∧ need_reschedule s1 = true
    ∧ schedule sched_iorr e' s1 = Some s2 ∧ curr_obj s2 = Some t
    ∧ ∃ d, datas s2 !! t = Some d ∧ granted (clock e' O) d.
Proof using bspec Hlim.
  intros I Ht Hst.
  destruct (wake_spec lim Hlim sched_iorr e s t th I Ht) as [[[? _] _]|[Hn Hw]]; [done|].
  destruct (Hw Logic.I) as (s1 & th1 & Hrun & I1 & _ & Hc & Ht1 & _ & Hk & _).
  destruct (Hk Hst) as [Hst1 [Hneed _]].
  destruct (inv_curr _ _ I1) as (c & thc & Hcc & Hlc & Hrc).
  assert (Hct : c ≠ t) by congruence.
  assert (Eq : ∃ q, runqueue (priv s1) = t :: q).
  { assert (Hnq : t ∉ runq sched_iorr s).
    { destruct (decide (t = IDLE)) as [->|]; [apply I|].
      rewrite (inv_queue _ _ I t th) by done. intros [Hx _]. congruence. }
    assert (Hni : is_inqueue t s = false).
    { unfold is_inqueue, Seq.linked. by apply bool_decide_false. }
    exists (runqueue (priv s)).
    destruct (wake_inert sched_iorr sched_iorr_wake e t th s (runqueue_add_head t s) s1)
      as (-> & _); try done.
    unfold runqueue_add_head. by rewrite Hni. }
  destruct Eq as [q Eq].
  destruct (iorr_schedule e' s1 c I1 Hcc) as (s2 & Hrun2 & I2 & Eq2 & Hc2 & Hg).
  exists s1, s2.
  assert (Hhd : ∃ q', runqueue (priv s2) = t :: q').
  { rewrite Eq2, Eq. unfold rotate_current. case_if; [|eauto]. simpl.
    rewrite decide_False by done. simpl. eauto. }
  destruct Hhd as [q' Eq'].
  destruct Hg as (t' & d & Ht' & Hd & Hg); [by rewrite Eq'|].
  rewrite Hc2, Eq' in Ht'. simplify_eq/=. rewrite Hc2, Eq'. eauto 10.
Qed.

(** The tick charges the running thread with the cycles that passed since
    it was last charged, and requests a reschedule exactly when its budget is
    used up. *)
Theorem iorr_tick_charges e s t d :
  sched_inv sched_iorr s → curr_obj s = Some t → t ≠ IDLE → datas s !! t = Some d →
  let left := s64 (left_cycles d - u64 (clock e O - last_cycles d)) in
  ∃ s', sched_tick_handler e s = Some s'
    ∧ datas s' !! t = Some (d⟨left_cycles := left⟩⟨last_cycles := clock e O⟩)
    ∧ need_reschedule s' = need_reschedule s || (left <=? 0).
Proof using bspec Hlim.
  intros I Hc Ht Hd left. unfold sched_tick_handler, is_idle_thread. rewrite Hc.
  rewrite bool_decide_false by done. cbn [andb orb]. rewrite get_data_spec, Hd.
  cbn [mbind option_bind]. fold left. set (d' := d⟨left_cycles := _⟩⟨last_cycles := _⟩).
  destruct (set_data_spec s t d') as (s1 & Hrun & [F Edat _ _]); [by apply datas_is_Some|].
  rewrite Hrun. cbn [mbind option_bind]. eexists. split; [done|].
  change (left_cycles d') with left.
  assert (Hw : word 64 (flags s1)) by (rewrite (fr_flags _ _ F); apply I).
  assert (Hn := need_reschedule_flags _ _ (fr_flags _ _ F)).
  assert (Hl : datas s1 !! t = Some d') by (rewrite Edat; apply lookup_insert_eq).
  case_if.
  - rewrite (request_need lim Hlim) by done. rewrite orb_true_r. split; [|done].
    unfold make_reschedule_request. by case_bool_decide.
  - rewrite Hn, orb_false_r. done.
Qed.
End properties.

(** ** A concrete CPU *)

Section example.
#[local] Existing Instance riscv_bitmap.

Definition ex_env (t : Z) : env := mk_env 0 RvTimer.get_cpu_khz (λ i, t + Z.of_nat i).
Definition ex_thread : thread_object sched_iorr_data :=
  mk_thread_object true THREAD_STS_BLOCKED false true true (mk_iorr_data 0 0 0).
Definition ex_raw : pcpu sched_iorr_control sched_iorr_data :=
  mk_pcpu 0 0 None (mk_iorr_control []) {[ IDLE := ex_thread ]}
    (mk_timers ∅ [] None []) 0 0 [].
Definition ex_params : sched_params := mk_sched_params 1 1 0 0 0.

(** Threads 1 and 2 are created, woken, and 2 is running. *)
Definition ex_ops : list (env * sched_op sched_iorr_data) :=
  [ (ex_env 10, OpCreate 1%nat ex_thread ex_params);
    (ex_env 11, OpCreate 2%nat ex_thread ex_params);
    (ex_env 12, OpWake 1%nat); (ex_env 13, OpWake 2%nat); (ex_env 14, OpSchedule) ].

Definition ex_state : pcpu sched_iorr_control sched_iorr_data :=
  default ex_raw (s ← boot sched_iorr (ex_env 1) 0 ex_raw; exec_all sched_iorr ex_ops s).

Lemma iorr_ex_inv : sched_inv sched_iorr ex_state.
Proof.
  destruct (iorr_boots (ex_env 1) 0 ex_thread ex_raw) as (s1 & Hrun & I & _); [done|done| |by vm_compute|done|].
  { apply not_elem_of_nil. }
  unfold ex_state. rewrite Hrun. cbn [mbind option_bind].
  vm_compute in Hrun. injection Hrun as <-.
  edestruct (exec_all_inv sched_iorr (ops := riscv_bitmap) 31 ltac:(done) ex_ops) as (s2 & Hrun2 & I2);
    [exact I| |by rewrite Hrun2].
  clear. repeat (split; [first [done | by vm_compute | (eexists; split; [reflexivity|done])
    | (split_and!; by vm_compute)]|intros ? Hs; vm_compute in Hs; injection Hs as <-]).
  done.
Qed.

Lemma iorr_round_robin_witness :
  ∃ s', schedule_n [ex_env 20; ex_env 30; ex_env 40] ex_state = Some s'
    ∧ curr_obj s' = Some 1%nat.
Proof.
  destruct (iorr_round_robin 31 ltac:(done) [ex_env 20; ex_env 30; ex_env 40] ex_state 2%nat [1%nat])
    as (s' & Hrun & _ & _ & Hc).
  - apply iorr_ex_inv.
  - vm_compute. reflexivity.
  - vm_compute. reflexivity.
  - exists s'. split; [exact Hrun|]. rewrite Hc. vm_compute. reflexivity.
Defined.

(** Thread 3 sleeps while 2 runs. *)
Definition ex_asleep : pcpu sched_iorr_control sched_iorr_data :=
  default ex_raw (exec_all sched_iorr [ (ex_env 50, OpCreate 3%nat ex_thread ex_params) ] ex_state).

Lemma ex_asleep_inv : sched_inv sched_iorr ex_asleep.
Proof.
  edestruct (exec_all_inv sched_iorr (ops := riscv_bitmap) 31 ltac:(done)
    [ (ex_env 50, OpCreate 3%nat ex_thread ex_params) ]) as (s2 & Hrun2 & I2);
    [exact iorr_ex_inv| |].
  - split; [|done]. by vm_compute.
  - unfold ex_asleep. by rewrite Hrun2.
Qed.

Lemma iorr_woken_runs_next_witness :
  ∃ s1 s2, wake_thread sched_iorr (ex_env 60) 3 ex_asleep = Some s1
    ∧ schedule sched_iorr (ex_env 70) s1 = Some s2 ∧ curr_obj s2 = Some 3%nat.
Proof.
  destruct (threads ex_asleep !! 3%nat) as [th|] eqn:Eth; [|vm_compute in Eth; discriminate].
  destruct (iorr_woken_runs_next 31 ltac:(done) (ex_env 60) (ex_env 70) ex_asleep 3%nat th)
    as (s1 & s2 & H1 & _ & H2 & H3 & _).
  - apply ex_asleep_inv.
  - exact Eth.
  - vm_compute in Eth. injection Eth as <-. reflexivity.
  - exists s1, s2. auto.
Defined.

Lemma iorr_tick_charges_witness :
  ∃ s' d, sched_tick_handler (ex_env 1000) ex_state = Some s' ∧ datas s' !! 2%nat = Some d
    ∧ last_cycles d = 1000.
Proof.
  destruct (datas ex_state !! 2%nat) as [d|] eqn:Ed; [|vm_compute in Ed; discriminate].
  destruct (iorr_tick_charges 31 ltac:(done) (ex_env 1000) ex_state 2%nat d) as (s' & H1 & H2 & _).
  - apply iorr_ex_inv.
  - vm_compute. reflexivity.
  - discriminate.
  - exact Ed.
  - eexists s', _. split; [exact H1|]. split; [exact H2|reflexivity].
Defined.
End example.
