(* ===== verification/SortedQueue.v ===== *)
(** * Ordered insertion into a run queue

    The loop shared by runqueue_add of hypervisor/common/sched_bvt.c and
    prio_queue_add of hypervisor/common/sched_prio.c: insert a node before the
    first one that comes later in the order, at the tail if there is none. *)

From S2P Require Import Prelude LinkedList Timer Schedule.
From Stdlib Require Import Sorted.

(** [list_for_each(pos, queue)] up to the first node for which the test of the
    loop holds. *)
Fixpoint scan_first (later : tid → bool) (q : list tid) : option tid :=
  match q with
  | [] => None
  | pos :: q => if later pos then Some pos else scan_first later q
  end.

Definition ordered_add (later : tid → bool) (obj : tid) (q : list tid) : list tid :=
  if Seq.empty q then Seq.add obj q
  else
    let q := match scan_first later q with
             | Some pos => Seq.add_before obj pos q
             | None => q
             end in
    if Seq.linked obj q then q else Seq.add_tail obj q.

Lemma scan_first_split later q :
  ∃ l1 l2, q = l1 ++ l2 ∧ Forall (λ x, later x = false) l1
    ∧ scan_first later q = head l2 ∧ (∀ x, head l2 = Some x → later x = true).
Proof.
  induction q as [|y q IH]; simpl; [by exists [], []|].
  destruct (later y) eqn:Ey.
  - exists [], (y :: q). split_and!; [done|constructor|done|]. by intros ? [= <-].
  - destruct IH as (l1 & l2 & -> & Hl1 & Hs & Hl2). exists (y :: l1), l2.
    split_and!; [done|by constructor|done|done].
Qed.

Lemma ordered_add_split later obj q : obj ∉ q → NoDup q →
  ∃ l1 l2, q = l1 ++ l2 ∧ ordered_add later obj q = l1 ++ obj :: l2
    ∧ Forall (λ x, later x = false) l1 ∧ (∀ x, head l2 = Some x → later x = true).
Proof.
  intros Ho Hn. destruct (scan_first_split later q) as (l1 & l2 & E & Hl1 & Hs & Hl2).
  exists l1, l2. split_and!; [done| |done|done]. unfold ordered_add.
  rewrite Hs. destruct q as [|y q]; cbn [Seq.empty].
  { symmetry in E. apply app_nil in E as [-> ->]. done. }
  destruct l2 as [|z l2]; cbn [head].
  - rewrite app_nil_r in E. subst. unfold Seq.linked. by rewrite bool_decide_false.
  - rewrite E in *. rewrite seq_add_before.
    + unfold Seq.linked. rewrite bool_decide_true by set_solver. done.
    + apply NoDup_app in Hn as (_ & Hd & _). intros Hz. apply (Hd z Hz). set_solver.
Qed.

Lemma ordered_add_perm later obj q : obj ∉ q → NoDup q → ordered_add later obj q ≡ₚ obj :: q.
Proof.
  intros Ho Hn. destruct (ordered_add_split later obj q Ho Hn) as (l1 & l2 & -> & -> & _).
  by rewrite Permutation_middle.
Qed.

Section sorted.
Context (key : tid → Z).

Definition by_key (a b : tid) : Prop := key a ≤ key b.

Lemma by_key_insert obj l1 l2 : StronglySorted by_key (l1 ++ l2) →
  Forall (λ x, key x ≤ key obj) l1 → (∀ x, head l2 = Some x → key obj ≤ key x) →
  StronglySorted by_key (l1 ++ obj :: l2).
Proof.
  induction l1 as [|x l1 IH]; simpl; intros Hs Hl1 Hl2.
  - constructor; [done|]. destruct l2 as [|y l2]; [constructor|].
    specialize (Hl2 y eq_refl). inv Hs. constructor; [done|].
    eapply Forall_impl; [done|]. unfold by_key. intros; lia.
  - inv Hs. inv Hl1. constructor; [by apply IH|].
    rewrite Forall_app in *. destruct_and!. split; [done|].
    constructor; [unfold by_key; lia|done].
Qed.

Lemma by_key_del t q : StronglySorted by_key q → StronglySorted by_key (Seq.del t q).
Proof.
  induction 1 as [|x l Hs IH Hx]; simpl; [constructor|].
  case_decide; [done|]. constructor; [done|].
  rewrite Forall_forall in *. intros y Hy. apply Hx.
  clear -Hy. induction l; simpl in *; [done|]. case_decide; set_solver.
Qed.

Lemma ordered_add_sorted later obj q : obj ∉ q → NoDup q →
  (∀ x, later x = true ↔ key obj < key x) →
  StronglySorted by_key q → StronglySorted by_key (ordered_add later obj q).
Proof.
  intros Ho Hn Hl Hs. destruct (ordered_add_split later obj q Ho Hn) as (l1 & l2 & -> & -> & H1 & H2).
  apply by_key_insert; [done| |].
  - eapply Forall_impl; [done|]. intros x Hx. cbv beta in *.
    destruct (Z.le_gt_cases (key x) (key obj)) as [|Hlt]; [done|]. apply Hl in Hlt. congruence.
  - intros x Hx. specialize (H2 x Hx). apply Hl in H2. lia.
Qed.

Lemma sorted_head_min h q t : StronglySorted by_key (h :: q) → t ∈ h :: q → key h ≤ key t.
Proof.
  intros Hs [->|Ht]%elem_of_cons; [lia|]. inv Hs.
  by eapply (proj1 (Forall_forall _ _)) in Ht; [exact Ht|].
Qed.
End sorted.

Lemma by_key_ext key key' q : (∀ t, t ∈ q → key' t = key t) →
  StronglySorted (by_key key) q → StronglySorted (by_key key') q.
Proof.
  intros He. induction 1 as [|x l Hs IH Hx]; constructor; [set_solver|].
  rewrite Forall_forall in *. intros y Hy. specialize (Hx y Hy). unfold by_key in *.
  rewrite !He by set_solver. done.
Qed.
