(* ===== verification/SchedBvt.v ===== *)
(** * The borrowed-virtual-time policy (hypervisor/common/sched_bvt.c)

    The run queue is ordered by the threads' effective virtual time. The
    64-bit fields are kept at their width. The instance [bvt_run_queue] shows
    that the policy implements the interface of the framework. *)

From S2P Require Import Prelude Bits LinkedList Timer Schedule SortedQueue.
From Stdlib Require Import Sorted.

Definition BVT_MCU_MS : Z := 1.
Definition BVT_CSA_MCU : Z := 5.
Definition BVT_WEIGHT_MIN : Z := 1.
Definition BVT_WEIGHT_MAX : Z := 128.
Definition BVT_VT_RATIO_MIN : Z := 8.
Definition BVT_VT_RATIO_MAX : Z := BVT_WEIGHT_MAX * BVT_VT_RATIO_MIN / BVT_WEIGHT_MIN.
Definition UINT64_MAX : Z := 2 ^ 64 - 1.

(** The identity of [bvt_ctl->tick_timer] and of its handler. *)
Definition TICK_TIMER : tmid := 0%nat.
Definition TICK_HANDLER : nat := 1%nat.

Record sched_bvt_data := mk_bvt_data {
  mcu : Z;
  weight : Z;
  vt_ratio : Z;
  warp_on : bool;
  warp_value : Z;
  warp_limit : Z;
  unwarp_period : Z;
  avt : Z;
  evt : Z;
  residual : Z;
  start_tsc : Z;
}.
#[export] Instance eta_bvt_data : Eta sched_bvt_data :=
  MkEta _ (rd mk_bvt_data <*> mcu <*> weight <*> vt_ratio <*> warp_on <*> warp_value
             <*> warp_limit <*> unwarp_period <*> avt <*> evt <*> residual <*> start_tsc).

Record sched_bvt_control := mk_bvt_control { runqueue : list tid; svt : Z }.
#[export] Instance eta_bvt_control : Eta sched_bvt_control :=
  MkEta _ (rd mk_bvt_control <*> runqueue <*> svt).

(** The effective virtual time of a thread. *)
Definition evt_of (ds : gmap tid sched_bvt_data) (t : tid) : Z :=
  match ds !! t with Some d => evt d | None => 0 end.

Definition v2p (virt_time ratio : Z) : option Z :=
  if ratio =? 0 then None else Some (virt_time / ratio).
Definition p2v (phy_time ratio : Z) : Z := u64 (phy_time * ratio).

Section policy.
Context `{!BitmapOps}.
Abbreviation st := (pcpu sched_bvt_control sched_bvt_data).
Implicit Types (s : st) (obj : tid) (e : env).

Definition is_inqueue obj s : bool := Seq.linked obj (runqueue (priv s)).

Definition set_runqueue (q : list tid) s : st := s⟨priv := (priv s)⟨runqueue := q⟩⟩.

Definition update_svt s : option st :=
  match runqueue (priv s) with
  | [] => Some s
  | tmp_obj :: _ =>
      obj_data ← get_data tmp_obj s;
      Some (s⟨priv := (priv s)⟨svt := avt obj_data⟩⟩)
  end.

Definition runqueue_add obj s : st :=
  set_runqueue
    (ordered_add (λ pos, evt_of (datas s) obj <? evt_of (datas s) pos) obj (runqueue (priv s))) s.

Definition runqueue_remove obj s : st := set_runqueue (Seq.del obj (runqueue (priv s))) s.

Definition get_svt s : Z := svt (priv s).

Definition sched_tick_handler e s : option st :=
  match curr_obj s with
  | None => Some s
  | Some current =>
      Some (if negb (is_idle_thread current) then make_reschedule_request e s
            else if negb (Seq.empty (runqueue (priv s))) then make_reschedule_request e s
            else s)
  end.

Definition sched_bvt_init e s : option (st * Z) :=
  if negb (bool_decide (self e = pcpu_id s)) then None else
  let s := set_runqueue [] s in
  ts ← initialize_timer TICK_TIMER (Some TICK_HANDLER) (pcpu_id s) 0 0 (cpu_timers s);
  Some (s⟨cpu_timers := ts⟩, 0).

Definition sched_bvt_deinit e s : option st :=
  Some (s⟨cpu_timers := del_timer TICK_TIMER (cpu_timers s)⟩).

(** [avt], [evt] and [start_tsc] keep the values the object had. *)
Definition sched_bvt_init_data e obj (params : sched_params) s : option st :=
  if is_inqueue obj s then None else
  data ← get_data obj s;
  let w := Z.min (Z.max (bvt_weight params) BVT_WEIGHT_MIN) BVT_WEIGHT_MAX in
  set_data obj
    (data⟨mcu := u64 (BVT_MCU_MS * Ticks.TICKS_PER_MS (khz e))⟩
         ⟨weight := w⟩
         ⟨warp_value := bvt_warp_value params⟩
         ⟨warp_limit := bvt_warp_limit params⟩
         ⟨unwarp_period := bvt_unwarp_period params⟩
         ⟨warp_on := false⟩
         ⟨vt_ratio := BVT_VT_RATIO_MAX / w⟩
         ⟨residual := 0⟩) s.

(** The virtual-time bookkeeping of update_vt. *)
Definition charge (now_tsc : Z) (data : sched_bvt_data) : option sched_bvt_data :=
  '(data, delta_mcu) ←
    (if start_tsc data <? now_tsc then
       let v_delta := u64 (p2v (u64 (now_tsc - start_tsc data)) (vt_ratio data) + residual data) in
       if mcu data =? 0 then None
       else Some (data⟨residual := v_delta mod mcu data⟩, v_delta / mcu data)
     else Some (data, 0));
  let data := data⟨avt := s64 (avt data + delta_mcu)⟩ in
  Some (data⟨evt := avt data⟩).

Definition update_vt (now_tsc : Z) obj s : option st :=
  data ← get_data obj s;
  data ← charge now_tsc data;
  s ← set_data obj data s;
  Some (if is_inqueue obj s then runqueue_add obj (runqueue_remove obj s) else s).

(** The part of pick_next that computes [run_countdown]; [rest] are the nodes
    behind the first one. *)
Definition get_run_countdown (first_data : sched_bvt_data) (rest : list tid) s : option Z :=
  match rest with
  | sec :: _ =>
      second_data ← get_data sec s;
      let delta_mcu := u64 (evt second_data - evt first_data) in
      v ← v2p delta_mcu (vt_ratio first_data);
      Some (u64 (v + BVT_CSA_MCU))
  | [] => Some UINT64_MAX
  end.

(** The clock is read for [now_tsc], by update_vt, for the deadline and by
    add_timer, in this order. *)
Definition sched_bvt_pick_next e s : option (st * tid) :=
  current ← curr_obj s;
  let now_tsc := clock e 0%nat in
  let tick_period := u64 (BVT_MCU_MS * Ticks.TICKS_PER_MS (khz e)) in
  s ← (if negb (is_idle_thread current) then update_vt (clock e 1%nat) current s else Some s);
  s ← update_svt s;
  let s := s⟨cpu_timers := del_timer TICK_TIMER (cpu_timers s)⟩ in
  match runqueue (priv s) with
  | [] => Some (s, IDLE)
  | first :: rest =>
      first_data ← get_data first s;
      run_countdown ← get_run_countdown first_data rest s;
      s ← set_data first (first_data⟨start_tsc := now_tsc⟩) s;
      if run_countdown =? UINT64_MAX then Some (s, first) else
      let ts := update_timer TICK_TIMER
                  (u64 (clock e 2%nat + u64 (run_countdown * tick_period))) 0 (cpu_timers s) in
      '(ts, _) ← RvTimer.add_timer (khz e) (clock e 3%nat) TICK_TIMER ts;
      Some (s⟨cpu_timers := ts⟩, first)
  end.

Definition sched_bvt_sleep e obj s : option st := Some (runqueue_remove obj s).

Definition sched_bvt_wake e obj s : option st :=
  data ← get_data obj s;
  let svt := get_svt s in
  let threshold := s64 (svt - BVT_CSA_MCU) in
  let data := data⟨avt := if threshold <? avt data then avt data else svt⟩ in
  let data := data⟨evt := avt data⟩ in
  s ← set_data obj data s;
  Some (runqueue_add obj s).

Definition sched_bvt : acrn_scheduler sched_bvt_control sched_bvt_data := {|
  init := Some sched_bvt_init;
  init_data := Some sched_bvt_init_data;
  pick_next := Some sched_bvt_pick_next;
  sleep := Some sched_bvt_sleep;
  wake := Some sched_bvt_wake;
  deinit_data := None;
  deinit := Some sched_bvt_deinit;
|}.
End policy.

(** ** The policy implements the run-queue interface *)

Definition bvt_ready (d : sched_bvt_data) : Prop := 0 < mcu d ∧ 0 < vt_ratio d.

Record bvt_wf (p : sched_bvt_control) (ds : gmap tid sched_bvt_data) (ts : timers) : Prop := {
  bw_nodup : NoDup (runqueue p);
  bw_ready t : t ∈ runqueue p → ∃ d, ds !! t = Some d ∧ bvt_ready d;
  bw_sorted : StronglySorted (by_key (evt_of ds)) (runqueue p);
  bw_timers : timers_wf ts;
}.

Lemma charge_ready now d : bvt_ready d → ∃ d', charge now d = Some d' ∧ bvt_ready d'.
Proof.
  intros [Hm Hr]. unfold charge. case_if; [|eexists; by split].
  rewrite (proj2 (Z.eqb_neq _ _)) by lia. eexists. by split.
Qed.

(** The tick timer is deleted, given a new deadline and started again. *)
Lemma rearm_tick rate tick tmo ts : timers_wf ts → TICK_TIMER ∉ timer_list ts → 0 ≤ tmo →
  ∃ ts' r, RvTimer.add_timer rate tick TICK_TIMER (update_timer TICK_TIMER tmo 0 ts) = Some (ts', r)
    ∧ timers_wf ts'
    ∧ (0 < tmo → (∃ tm, tobj ts !! TICK_TIMER = Some tm ∧ func tm ≠ None) →
       r = 0 ∧ TICK_TIMER ∈ timer_list ts'
       ∧ ∃ tm, tobj ts' !! TICK_TIMER = Some tm ∧ timeout tm = tmo ∧ mode tm = TICK_MODE_ONESHOT).
Proof.
  intros Hw Hn Ht. unfold update_timer. destruct (tobj ts !! TICK_TIMER) as [tm|] eqn:E.
  2: { unfold RvTimer.add_timer, add_timer_with. rewrite E. eexists _, _. split_and!; [done|done|].
       intros _ (tm & ? & _). done. }
  cbn [Z.ltb Z.compare]. set (tm' := tm⟨timeout := tmo⟩⟨mode := TICK_MODE_ONESHOT⟩⟨period_in_cycle := 0⟩).
  set (ts1 := set_tobj TICK_TIMER tm' ts).
  assert (E1 : tobj ts1 !! TICK_TIMER = Some tm') by apply lookup_insert_eq.
  assert (Hw1 : timers_wf ts1) by by apply set_tobj_wf.
  destruct (decide (func tm = None ∨ tmo = 0)) as [Hbad|Hok].
  - unfold RvTimer.add_timer, add_timer_with. rewrite E1.
    replace (bool_decide (func tm' = None) || (timeout tm' =? 0)) with true.
    + eexists _, _. split_and!; [done|done|]. intros ? (tm0 & [= <-] & Hf). naive_solver lia.
    + change (func tm') with (func tm). change (timeout tm') with tmo.
      destruct Hbad as [->| ->]; [by rewrite bool_decide_true|by rewrite orb_true_r].
  - destruct (rv_add_timer_spec rate tick TICK_TIMER tm' ts1) as (ts' & l1 & l2 & Hrun & Hw' & _ & El' & _ & _);
      try done; [naive_solver|change (timeout tm') with tmo; naive_solver lia|].
    rewrite Hrun. eexists _, _. split_and!; [done|done|]. intros _ _. split_and!; [done|rewrite El'; set_solver|].
    unfold RvTimer.add_timer, add_timer_with in Hrun. rewrite E1 in Hrun.
    case_if; [by injection Hrun|]. case_if; [done|].
    change (mode tm') with TICK_MODE_ONESHOT in Hrun. cbv iota beta in Hrun.
    destruct (local_add_timer _ _) as [ts2 b] eqn:El. injection Hrun as Hts.
    exists tm'. split_and!; [|done|done].
    assert (tobj ts2 !! TICK_TIMER = Some tm').
    { unfold local_add_timer in El. injection El as <- <-. simpl. apply lookup_insert_eq. }
    destruct b; subst ts'; [|done]. by rewrite (proj2 (rv_update_inert _ _ _)).
Qed.

Section instance.
Context `{!BitmapOps}.
Implicit Types (s : pcpu sched_bvt_control sched_bvt_data).

Definition bvt_ok s : Prop := bvt_wf (priv s) (datas s) (cpu_timers s).

Lemma evt_of_insert ds t d x : evt_of (<[t := d]> ds) x = if decide (x = t) then evt d else evt_of ds x.
Proof.
  unfold evt_of. case_decide as E; [subst; by rewrite lookup_insert_eq|by rewrite lookup_insert_ne].
Qed.

(** A thread that is not queued may get any new data. *)
Lemma bvt_wf_data p ds ts t d : bvt_wf p ds ts → t ∉ runqueue p → bvt_wf p (<[t := d]> ds) ts.
Proof.
  intros [Hn Hr Hs Ht] Hni. split; [done| | |done].
  - intros x Hx. rewrite lookup_insert_ne by set_solver. auto.
  - eapply by_key_ext; [|done]. intros x Hx. rewrite evt_of_insert, decide_False by set_solver. done.
Qed.

Lemma bvt_wf_remove p ds ts t : bvt_wf p ds ts →
  bvt_wf (p⟨runqueue := Seq.del t (runqueue p)⟩) ds ts.
Proof.
  intros [Hn Hr Hs Ht]. split; simpl; [by apply nodup_seq_del| |by apply by_key_del|done].
  intros x Hx. apply Hr. by apply elem_of_seq_del in Hx as [? _].
Qed.

(** Queueing a thread in the order of its virtual time. *)
Lemma bvt_add t d s : bvt_ok s → t ∉ runqueue (priv s) → datas s !! t = Some d → bvt_ready d →
  bvt_ok (runqueue_add t s) ∧ runqueue (priv (runqueue_add t s)) ≡ₚ t :: runqueue (priv s).
Proof.
  intros [Hn Hr Hs Ht] Hni Hd Hrd. unfold runqueue_add. cbn.
  assert (Hp := ordered_add_perm (λ pos, evt_of (datas s) t <? evt_of (datas s) pos) t
    (runqueue (priv s)) Hni Hn).
  split; [|done]. split; simpl; [rewrite Hp; by constructor| | |done].
  - intros x. rewrite Hp, elem_of_cons. intros [->|Hx]; [|by apply Hr]. eauto.
  - change (datas (set_runqueue _ s)) with (datas s).
    apply (ordered_add_sorted (evt_of (datas s))); try done. intros x. apply Z.ltb_lt.
Qed.

Lemma bvt_update_vt now t d s : bvt_ok s → datas s !! t = Some d → bvt_ready d →
  ∃ d' s', charge now d = Some d' ∧ update_vt now t s = Some s'
    ∧ kept bvt_ready s s' ∧ bvt_ok s' ∧ runqueue (priv s') ≡ₚ runqueue (priv s)
    ∧ datas s' = <[t := d']> (datas s) ∧ cpu_timers s' = cpu_timers s
    ∧ svt (priv s') = svt (priv s).
Proof.
  intros Hw Hd Hr. destruct (charge_ready now d Hr) as (d' & Hch & Hr').
  assert (Hts : is_Some (threads s !! t)) by (apply datas_is_Some; eauto).
  destruct (set_data_spec s t d' Hts) as (s1 & Hrun & Hdw).
  unfold update_vt. rewrite get_data_spec, Hd. cbn [mbind option_bind].
  rewrite Hch. cbn [mbind option_bind]. rewrite Hrun. cbn [mbind option_bind].
  assert (Hk := kept_data bvt_ready _ _ _ _ Hdw (λ _ _ _, Hr')).
  destruct Hdw as [F Ed Ep Et]. exists d'. eexists. split; [done|]. split; [done|].
  unfold is_inqueue, Seq.linked. case_bool_decide as Hin.
  - set (s2 := runqueue_remove t s1).
    assert (Hn2 : t ∉ runqueue (priv s2)).
    { simpl. rewrite Ep. apply not_in_del, Hw. }
    assert (Hw2 : bvt_ok s2).
    { unfold bvt_ok. change (datas s2) with (datas s1). simpl in *. rewrite Ep, Ed, Et in *.
      apply bvt_wf_data; [by apply bvt_wf_remove|done]. }
    assert (Hd2 : datas s2 !! t = Some d').
    { change (datas s2) with (datas s1). rewrite Ed. apply lookup_insert_eq. }
    destruct (bvt_add t d' s2 Hw2 Hn2 Hd2 Hr') as [Hw3 Hq3].
    split_and!; [by apply (kept_trans _ _ s1); [|apply kept_same]|done| |done|done|simpl; by rewrite Ep].
    rewrite Hq3. simpl. rewrite Ep in *.
    apply list_elem_of_split_l in Hin as (l1 & l2 & -> & Hl1).
    rewrite seq_del by done. by rewrite Permutation_middle.
  - split_and!; [done| |by rewrite Ep|done|done|by rewrite Ep].
    unfold bvt_ok. rewrite Ep, Ed, Et. rewrite Ep in Hin. by apply bvt_wf_data.
Qed.

(** update_svt and the deletion of the timer. *)
Lemma bvt_update_svt s : bvt_ok s →
  ∃ s', update_svt s = Some s' ∧ frame s s' ∧ datas s' = datas s
    ∧ cpu_timers s' = cpu_timers s ∧ runqueue (priv s') = runqueue (priv s)
    ∧ (∀ t q d, runqueue (priv s) = t :: q → datas s !! t = Some d → svt (priv s') = avt d)
    ∧ bvt_ok s'.
Proof.
  intros Hw. unfold update_svt. destruct (runqueue (priv s)) as [|t q] eqn:Eq.
  { exists s. split_and!; auto using frame_refl. done. }
  destruct (bw_ready _ _ _ Hw t) as (d & Hd & _); [rewrite Eq; set_solver|].
  rewrite get_data_spec, Hd. cbn [mbind option_bind]. eexists. split; [done|].
  split_and!; [by split|done|done|done| |].
  - intros ? ? ? [= <- <-] ?. by simplify_eq.
  - destruct Hw. by split.
Qed.

(** How many charging units the first thread may run before the second, and
    the tick at which that time is over. *)
Definition countdown (fd sd : sched_bvt_data) : Z :=
  u64 (u64 (evt sd - evt fd) / vt_ratio fd + BVT_CSA_MCU).
Definition deadline (e : env) (n : Z) : Z :=
  u64 (clock e 2%nat + u64 (n * u64 (BVT_MCU_MS * Ticks.TICKS_PER_MS (khz e)))).

(** What a run of pick_next leaves behind, and the thread it picks. *)
Record bvt_picked e s s' (next : tid) : Prop := {
  bp_kept : kept bvt_ready s s';
  bp_ok : bvt_ok s';
  bp_perm : runqueue (priv s') ≡ₚ runqueue (priv s);
  bp_next : next = default IDLE (head (runqueue (priv s')));
  (** a lone thread is not preempted, otherwise the tick timer is due when the
      next thread in the queue has caught up, plus the context-switch allowance *)
  bp_alone : (length (runqueue (priv s')) ≤ 1)%nat → TICK_TIMER ∉ timer_list (cpu_timers s');
  bp_preempt first sec rest fd sd tm :
    runqueue (priv s') = first :: sec :: rest →
    datas s' !! first = Some fd → datas s' !! sec = Some sd →
    tobj (cpu_timers s) !! TICK_TIMER = Some tm → func tm ≠ None →
    countdown fd sd ≠ UINT64_MAX → 0 < deadline e (countdown fd sd) →
    start_tsc fd = clock e 0%nat
    ∧ TICK_TIMER ∈ timer_list (cpu_timers s')
    ∧ ∃ tm', tobj (cpu_timers s') !! TICK_TIMER = Some tm'
             ∧ timeout tm' = deadline e (countdown fd sd) ∧ mode tm' = TICK_MODE_ONESHOT;
}.

Lemma evt_start_tsc ds t d x n : ds !! t = Some d →
  evt_of (<[t := d⟨start_tsc := n⟩]> ds) x = evt_of ds x.
Proof.
  intros Hd. rewrite evt_of_insert. case_decide; [subst|done]. unfold evt_of. by rewrite Hd.
Qed.

Lemma bvt_wf_start p ds ts t d n : bvt_wf p ds ts → ds !! t = Some d →
  bvt_wf p (<[t := d⟨start_tsc := n⟩]> ds) ts.
Proof.
  intros [Hn Hr Hs Ht] Hd. split; [done| | |done].
  - intros x Hx. destruct (Hr x Hx) as (y & Hy & Hry). destruct (decide (x = t)) as [->|].
    + rewrite lookup_insert_eq. simplify_eq. eauto.
    + rewrite lookup_insert_ne by done. eauto.
  - eapply by_key_ext; [|done]. intros x _. by apply evt_start_tsc.
Qed.

Lemma bvt_countdown s first rest fd : bvt_ok s → runqueue (priv s) = first :: rest →
  datas s !! first = Some fd →
  ∃ n, get_run_countdown fd rest s = Some n ∧ (rest = [] → n = UINT64_MAX)
    ∧ (∀ sec rest' sd, rest = sec :: rest' → datas s !! sec = Some sd → n = countdown fd sd).
Proof.
  intros Hw Eq Hd. destruct rest as [|sec rest]; [by eexists|].
  unfold get_run_countdown.
  destruct (bw_ready _ _ _ Hw sec) as (sd & Hsd & _); [rewrite Eq; set_solver|].
  destruct (bw_ready _ _ _ Hw first) as (fd' & Hfd & _ & Hvr); [rewrite Eq; set_solver|]. simplify_eq.
  rewrite get_data_spec, Hsd. cbn [mbind option_bind]. unfold v2p.
  rewrite (proj2 (Z.eqb_neq _ _)) by lia. cbn [mbind option_bind]. eexists. split_and!; [done|done|].
  intros ? ? ? [= <- <-] ?. by simplify_eq.
Qed.

Lemma bvt_pick e s c : bvt_ok s → curr_obj s = Some c → is_Some (threads s !! c) →
  (c ≠ IDLE → ∃ d, datas s !! c = Some d ∧ bvt_ready d) →
  ∃ s' next, sched_bvt_pick_next e s = Some (s', next) ∧ bvt_picked e s s' next.
Proof.
  intros Hw Hc Hts Hrd. unfold sched_bvt_pick_next. rewrite Hc. cbn [mbind option_bind].
  assert (Hup : ∃ s1, (if negb (is_idle_thread c) then update_vt (clock e 1%nat) c s else Some s)
      = Some s1 ∧ kept bvt_ready s s1 ∧ bvt_ok s1 ∧ runqueue (priv s1) ≡ₚ runqueue (priv s)
      ∧ cpu_timers s1 = cpu_timers s).
  { unfold is_idle_thread. case_bool_decide as Hi; simpl; [eauto 10 using kept_refl|].
    destruct (Hrd Hi) as (d & Hd & Hr).
    destruct (bvt_update_vt (clock e 1%nat) c d s Hw Hd Hr) as (d' & s1 & _ & Hrun & ? & ? & ? & _ & ? & _).
    eauto 10. }
  destruct Hup as (s1 & -> & Hk1 & Hw1 & Hq1 & Et1). cbn [mbind option_bind].
  destruct (bvt_update_svt s1 Hw1) as (s2 & -> & F2 & Ed2 & Et2 & Eq2 & _ & Hw2).
  cbn [mbind option_bind]. set (s3 := s2⟨cpu_timers := _⟩).
  assert (Hw3 : bvt_ok s3).
  { destruct Hw2. split; try done. by apply del_timer_wf. }
  assert (Hti : TICK_TIMER ∉ timer_list (cpu_timers s3)).
  { simpl. rewrite del_timer_list. apply not_in_del, Hw2. }
  assert (Hk3 : kept bvt_ready s s3).
  { eapply kept_trans; [exact Hk1|]. apply kept_same; [|done].
    eapply frame_trans; [exact F2|apply frame_timers]. }
  assert (Hq3 : runqueue (priv s3) ≡ₚ runqueue (priv s)) by (simpl; by rewrite Eq2).
  assert (Eo3 : tobj (cpu_timers s3) = tobj (cpu_timers s)).
  { simpl. by rewrite del_timer_tobj, Et2, Et1. }
  clearbody s3. clear s1 s2 Hk1 Hw1 Hq1 F2 Ed2 Et1 Et2 Eq2 Hw2.
  destruct (runqueue (priv s3)) as [|first rest] eqn:Eq.
  { exists s3, IDLE. split; [done|]. split; rewrite ?Eq; done. }
  destruct (bw_ready _ _ _ Hw3 first) as (fd & Hfd & Hfr); [rewrite Eq; set_solver|].
  rewrite get_data_spec, Hfd. cbn [mbind option_bind].
  destruct (bvt_countdown s3 first rest fd Hw3 Eq Hfd) as (n & -> & Hn & Hcd). cbn [mbind option_bind].
  destruct (set_data_spec s3 first (fd⟨start_tsc := clock e 0%nat⟩)) as (s4 & Hrun4 & Hdw);
    [by apply datas_is_Some|]. rewrite Hrun4. cbn [mbind option_bind].
  assert (Hk4 : kept bvt_ready s s4).
  { eapply kept_trans; [exact Hk3|]. eapply kept_data; [exact Hdw|]. intros. by simplify_eq. }
  destruct Hdw as [F4 Ed4 Ep4 Et4].
  assert (Hw4 : bvt_ok s4) by (unfold bvt_ok; rewrite Ep4, Ed4, Et4; by apply bvt_wf_start).
  assert (Hcd4 : ∀ sec rest' fd' sd, rest = sec :: rest' → datas s4 !! first = Some fd' →
    datas s4 !! sec = Some sd → n = countdown fd' sd ∧ start_tsc fd' = clock e 0%nat).
  { intros sec rest' fd' sd -> Hf' Hs'. rewrite Ed4, lookup_insert_eq in Hf'. injection Hf' as <-.
    rewrite Ed4, lookup_insert_ne in Hs'; [by rewrite (Hcd _ _ _ eq_refl Hs')|].
    pose proof (bw_nodup _ _ _ Hw3) as Hnd. rewrite Eq in Hnd. inv Hnd. set_solver. }
  case_if.
  { exists s4, first. split; [done|]. split; rewrite ?Ep4, ?Et4, ?Eq; try done.
    intros f' sec rest' fd' sd tm [= -> ->] Hf' Hs' _ _ Hne. zreflect.
    destruct (Hcd4 _ _ _ _ eq_refl Hf' Hs') as [Hx _]. congruence. }
  rewrite Et4 in *. destruct (rearm_tick (khz e) (clock e 3%nat)
    (u64 (clock e 2%nat + u64 (n * u64 (BVT_MCU_MS * Ticks.TICKS_PER_MS (khz e))))) (cpu_timers s3))
    as (ts' & r & Hrt & Hwt & Harm); [apply Hw3|done|apply word_u64|].
  rewrite Hrt. cbn [mbind option_bind]. eexists _, first. split; [done|]. split.
  - eapply kept_trans; [exact Hk4|]. by apply kept_same; [apply frame_timers|].
  - destruct Hw4. by split.
  - simpl. by rewrite Ep4, Eq.
  - simpl. by rewrite Ep4, Eq.
  - simpl. rewrite Ep4, Eq. simpl. intros Hlen. destruct rest; [|simpl in Hlen; lia].
    rewrite Hn in * by done. zreflect. done.
  - simpl. rewrite Ep4, Eq. intros f' sec rest' fd' sd tm [= -> ->] Hf' Hs' Htm Hfn _ Hpos.
    change (datas (s4⟨cpu_timers := ts'⟩)) with (datas s4) in *.
    destruct (Hcd4 _ _ _ _ eq_refl Hf' Hs') as [Hx Hst]. rewrite <- Hx in Hpos |- *.
    destruct Harm as (_ & ? & ?); [exact Hpos|rewrite Eo3; eauto|done].
Qed.

Lemma bvt_ticks_per_ms k : 0 < k < 2 ^ 32 → u64 (BVT_MCU_MS * Ticks.TICKS_PER_MS k) = k.
Proof.
  intros Hk. unfold Ticks.TICKS_PER_MS, Ticks.us_to_ticks, BVT_MCU_MS.
  rewrite (u64_id (1000 * k)) by (unfold word; lia).
  rewrite (Z.mul_comm 1000), Z.div_mul, Z.mul_1_l by lia. apply u64_id. unfold word. lia.
Qed.

Lemma vt_ratio_range w : BVT_WEIGHT_MIN ≤ w ≤ BVT_WEIGHT_MAX →
  BVT_VT_RATIO_MIN ≤ BVT_VT_RATIO_MAX / w ≤ BVT_VT_RATIO_MAX.
Proof.
  unfold BVT_WEIGHT_MIN, BVT_WEIGHT_MAX. intros Hw.
  change BVT_VT_RATIO_MAX with 1024. unfold BVT_VT_RATIO_MIN. split.
  - apply Z.div_le_lower_bound; lia.
  - apply Z.div_le_upper_bound; lia.
Qed.

#[global, refine] Instance bvt_run_queue : RunQueue sched_bvt := {
  queue := runqueue;
  ready := bvt_ready;
  room := λ _, True;
  rq_wf := bvt_wf;
  tick_handler := sched_tick_handler;
}.
Proof.
  - intros p ds ts Hw. apply Hw.
  - intros p ds ts t Hw. apply Hw.
  - intros p ds ts t d Hw Ht. by apply bvt_wf_data.
  - intros e s c Hw Hc Hs Hr. destruct (bvt_pick e s c Hw Hc Hs Hr) as (s' & n & Hrun & [Hk Hw' Hq En _ _]).
    eexists _, s', n. split_and!; [done|done|apply Hk|done|apply Hk|done|done].
  - intros e s t Hw Ht. eexists _, _. split_and!; [done|done|by split| |done|done].
    by apply bvt_wf_remove.
  - intros e s t d Hw Hd Hr Ht _. simpl.
    set (d' := d⟨avt := if s64 (get_svt s - BVT_CSA_MCU) <? avt d then avt d else get_svt s⟩).
    destruct (set_data_spec s t (d'⟨evt := avt d'⟩)) as (s1 & Hrun & Hdw);
      [apply datas_is_Some; eauto|].
    assert (Hk := kept_data bvt_ready _ _ _ _ Hdw (λ _ _ _, Hr)). destruct Hdw as [F Ed Ep Et].
    destruct (bvt_add t (d'⟨evt := avt d'⟩) s1) as [Hw2 Hq2].
    { unfold bvt_ok. rewrite Ep, Ed, Et. by apply bvt_wf_data. }
    { by rewrite Ep. }
    { by rewrite Ed, lookup_insert_eq. }
    { done. }
    eexists _, (runqueue_add t s1). split_and!; [done| | |done| |by rewrite Hq2, Ep].
    + unfold sched_bvt_wake. rewrite get_data_spec, Hd. cbn [mbind option_bind].
      fold d'. by rewrite Hrun.
    + eapply frame_trans; [exact F|]. by split.
    + apply Hk.
  - intros e s c Hw Hc Hs. exists s. simpl. unfold sched_tick_handler. rewrite Hc.
    split_and!; [|apply frame_refl|done|eauto|done]. repeat case_if; auto.
  - intros e s t params He Hw Ht Hn. simpl. unfold sched_bvt_init_data, is_inqueue, Seq.linked.
    rewrite bool_decide_false by done. destruct (proj2 (datas_is_Some s t) Ht) as [d Hd].
    rewrite get_data_spec, Hd. cbn [mbind option_bind].
    set (w := Z.min _ _). set (d' := d⟨mcu := _⟩⟨weight := _⟩⟨warp_value := _⟩⟨warp_limit := _⟩
      ⟨unwarp_period := _⟩⟨warp_on := _⟩⟨vt_ratio := _⟩⟨residual := _⟩).
    assert (Hr : bvt_ready d').
    { split; simpl; [rewrite bvt_ticks_per_ms by done; apply He|].
      pose proof (vt_ratio_range w ltac:(unfold w, BVT_WEIGHT_MIN, BVT_WEIGHT_MAX; lia)).
      unfold BVT_VT_RATIO_MIN in *. lia. }
    destruct (set_data_spec s t d' Ht) as (s' & -> & [F Edat Ep Et]).
    exists s'. rewrite Edat, Ep, Et. split_and!; [done|done|by apply bvt_wf_data|done| |].
    + rewrite lookup_insert_eq. eauto.
    + intros x Hx. by rewrite lookup_insert_ne.
Defined.
End instance.

(** ** Properties of the policy *)

(** Virtual time is conserved: as long as nothing overflows, charging a
    thread for the cycles it ran moves exactly the elapsed time, scaled by the
    inverse of its weight, into its actual virtual time and its residual, and
    the residual stays below one charging unit. *)
Theorem bvt_virtual_time_conserved now d :
  bvt_ready d → 0 ≤ start_tsc d ≤ now → now < 2 ^ 64 → 0 ≤ residual d →
  (now - start_tsc d) * vt_ratio d + residual d < 2 ^ 62 → - 2 ^ 62 ≤ avt d < 2 ^ 62 →
  ∃ d', charge now d = Some d'
    ∧ avt d' * mcu d + residual d'
      = avt d * mcu d + residual d + (now - start_tsc d) * vt_ratio d
    ∧ evt d' = avt d' ∧ avt d ≤ avt d'
    ∧ (start_tsc d < now → 0 ≤ residual d' < mcu d).
Proof.
  intros [Hm Hr] [H0 Hle] Hn Hres Hv Ha. unfold charge.
  destruct (Z.ltb_spec (start_tsc d) now) as [Hlt|Hge].
  - assert (0 ≤ (now - start_tsc d) * vt_ratio d) by nia. unfold p2v.
    rewrite (u64_id (now - _)) by (unfold word; lia).
    rewrite (u64_id (_ * _)) by (unfold word; lia).
    rewrite (u64_id (_ + _)) by (unfold word; lia).
    set (v := (now - start_tsc d) * vt_ratio d + residual d) in *.
    rewrite (proj2 (Z.eqb_neq _ _)) by lia. eexists. split; [done|]. simpl.
    pose proof (Z.div_mod v (mcu d) ltac:(lia)). pose proof (Z.mod_pos_bound v (mcu d) Hm).
    pose proof (Z.div_pos v (mcu d) ltac:(lia) Hm).
    rewrite s64_small by nia. split_and!; (done || lia || nia).
  - eexists. split; [done|]. simpl. rewrite s64_small by lia. split_and!; (done || lia || nia).
Qed.

Lemma bvt_virtual_time_conserved_witness :
  ∃ d', charge 5000 (mk_bvt_data 1000 2 512 false 0 0 0 7 7 300 4000) = Some d'
    ∧ avt d' * 1000 + residual d' = 7 * 1000 + 300 + 1000 * 512.
Proof.
  destruct (bvt_virtual_time_conserved 5000 (mk_bvt_data 1000 2 512 false 0 0 0 7 7 300 4000))
    as (d' & H1 & H2 & _).
  - split; reflexivity.
  - split; [discriminate|]. vm_compute. discriminate.
  - reflexivity.
  - discriminate.
  - reflexivity.
  - split; [discriminate|reflexivity].
  - exists d'. split; [exact H1|]. exact H2.
Defined.

Section properties.
Context {ops : BitmapOps} (lim : Z) {bspec : BitmapSpec ops lim}.
Context (Hlim : NEED_RESCHEDULE < lim).
Implicit Types (s : pcpu sched_bvt_control sched_bvt_data).

Lemma bvt_boots e cpu raw s : threads s = {[ IDLE := raw ]} → be_blocking raw = false →
  timers_wf (cpu_timers s) → TICK_TIMER ∉ timer_list (cpu_timers s) → env_ok e → self e = cpu →
  ∃ s', boot sched_bvt e cpu s = Some s' ∧ sched_inv sched_bvt s' ∧ curr_obj s' = Some IDLE
    ∧ runqueue (priv s') = [] ∧ dom (threads s') = {[ IDLE ]}.
Proof using ops.
  intros Ht Hb Hwt Hti He Hself. unfold boot, init_sched.
  cbn [init sched_bvt]. set (s0 := s⟨mode_to_idle := _⟩⟨mode_to_kick_pcpu := _⟩⟨flags := _⟩
    ⟨curr_obj := _⟩⟨pcpu_id := _⟩). unfold sched_bvt_init, initialize_timer, Seq.linked.
  change (timer_list (cpu_timers (set_runqueue [] s0))) with (timer_list (cpu_timers s)).
  change (pcpu_id s0) with cpu. rewrite bool_decide_true by done.
  rewrite bool_decide_false by done. cbn [negb mbind option_bind].
  set (s1 := (set_runqueue [] s0)⟨cpu_timers := _⟩).
  destruct (boot_spec sched_bvt e s1 raw) as (s2 & Hrun & I & Hc & Hq & Hd & _); try done.
  { split; [constructor| |constructor|by apply set_tobj_wf].
    intros t Hx. by apply elem_of_nil in Hx. }
  exists s2. split_and!; done.
Qed.

(** schedule() runs the runnable thread with the least effective virtual
    time, or the idle thread when none is runnable. A thread that is alone in
    the queue is not preempted; otherwise a one-shot timer is armed for the
    moment the next thread will have caught up, plus the context-switch
    allowance. *)
Theorem bvt_runs_earliest e s : sched_inv sched_bvt s →
  ∃ s' next, schedule sched_bvt e s = Some s' ∧ sched_inv sched_bvt s'
    ∧ curr_obj s' = Some next
    ∧ runqueue (priv s') ≡ₚ runqueue (priv s)
    ∧ (runqueue (priv s) = [] → next = IDLE)
    ∧ (∀ t, t ∈ runqueue (priv s) → evt_of (datas s') next ≤ evt_of (datas s') t)
    ∧ ((length (runqueue (priv s)) ≤ 1)%nat → TICK_TIMER ∉ timer_list (cpu_timers s'))
    ∧ (∀ sec rest fd sd tm, runqueue (priv s') = next :: sec :: rest →
         datas s' !! next = Some fd → datas s' !! sec = Some sd →
         tobj (cpu_timers s) !! TICK_TIMER = Some tm → func tm ≠ None →
         countdown fd sd ≠ UINT64_MAX → 0 < deadline e (countdown fd sd) →
         TICK_TIMER ∈ timer_list (cpu_timers s')
         ∧ tmo (tobj (cpu_timers s')) TICK_TIMER = deadline e (countdown fd sd)).
Proof using bspec Hlim.
  intros I. destruct (inv_curr _ _ I) as (c & th & Hc & Hl & _).
  destruct (schedule_spec lim Hlim sched_bvt e s c th I Hc Hl)
    as (s' & n & Hrun & I' & En & Hcur & Hq & _).
  destruct (bvt_pick e s c (inv_wf _ _ I) Hc) as (s1 & n1 & Hpick & [Hk Hw Hq1 En1 Hal Hpre]);
    [eauto|intros; exists (data th); split; [by apply datas_lookup|by eapply (inv_ready _ _ I)]|].
  destruct (schedule_pick sched_bvt sched_bvt_pick_next e s s' s1 n1 eq_refl Hpick Hrun)
    as (Ep & Ed & Et).
  exists s', n. unfold runq in *. simpl in *. rewrite Ep, Ed, Et in *.
  split_and!; [done|done|done|done| | | |].
  - intros E. rewrite E in Hq. apply Permutation_nil_r in Hq. by rewrite En, Hq.
  - intros t Ht. rewrite <- Hq in Ht. subst n. pose proof (bw_sorted _ _ _ Hw) as Hs.
    destruct (runqueue (priv s1)) as [|h q]; [by apply elem_of_nil in Ht|].
    by eapply (sorted_head_min (evt_of (datas s1))).
  - rewrite <- Hq. done.
  - intros sec rest fd sd tm Eq Hf Hs Htm Hfn Hcd Hpos.
    destruct (Hpre n sec rest fd sd tm) as (_ & ? & tm' & Htm' & ? & _); [done..|].
    split; [done|]. unfold tmo. by rewrite Htm'.
Qed.

(** A thread that slept for long does not hoard virtual time: wake_thread
    lifts its actual virtual time to the scheduler virtual time unless it is
    within the context-switch allowance of it, so afterwards it lags by less
    than that allowance. *)
Theorem bvt_wake_does_not_hoard e s t th :
  sched_inv sched_bvt s → threads s !! t = Some th → ¬ runnable th →
  - 2 ^ 62 ≤ svt (priv s) < 2 ^ 62 →
  ∃ s' d', wake_thread sched_bvt e t s = Some s' ∧ sched_inv sched_bvt s'
    ∧ t ∈ runqueue (priv s') ∧ datas s' !! t = Some d'
    ∧ svt (priv s) - BVT_CSA_MCU < avt d' ∧ evt d' = avt d'
    ∧ (avt d' = avt (data th) ∨ avt d' = svt (priv s)).
Proof using bspec Hlim.
  intros I Ht Hn Hsvt.
  destruct (wake_spec lim Hlim sched_bvt e s t th I Ht) as [[? _]|[_ Hw]]; [done|].
  destruct (Hw Logic.I) as (s1 & th1 & Hrun & I1 & Hq & _ & Ht1 & _).
  set (d' := (data th)⟨avt := if s64 (svt (priv s) - BVT_CSA_MCU) <? avt (data th)
                              then avt (data th) else svt (priv s)⟩).
  exists s1, (d'⟨evt := avt d'⟩). split_and!; [done|done| | |..].
  - change (t ∈ runq sched_bvt s1). rewrite Hq. set_solver.
  - assert (Hts : is_Some (threads s !! t)) by eauto.
    destruct (set_data_spec s t (d'⟨evt := avt d'⟩) Hts) as (s2 & Hset & [F Ed Ep Et]).
    destruct (wake_inert sched_bvt sched_bvt_wake e t th s (runqueue_add t s2) s1)
      as (_ & -> & _); try done.
    + unfold sched_bvt_wake. rewrite get_data_spec, (datas_lookup _ _ _ Ht). cbn [mbind option_bind].
      unfold get_svt. fold d'. by rewrite Hset.
    + change (datas (runqueue_add t s2)) with (datas s2). rewrite Ed. apply lookup_insert_eq.
  - simpl. rewrite s64_small by (unfold BVT_CSA_MCU; lia). case_if; zreflect; [lia|].
    unfold BVT_CSA_MCU. lia.
  - done.
  - simpl. case_if; auto.
Qed.
End properties.

(** ** A concrete CPU *)

Section example.
#[local] Existing Instance riscv_bitmap.

Definition ex_env (t : Z) : env := mk_env 0 RvTimer.get_cpu_khz (λ i, t + Z.of_nat i).
Definition ex_thread : thread_object sched_bvt_data :=
  mk_thread_object true THREAD_STS_BLOCKED false true true (mk_bvt_data 0 0 0 false 0 0 0 0 0 0 0).
Definition ex_raw : pcpu sched_bvt_control sched_bvt_data :=
  mk_pcpu 0 0 None (mk_bvt_control [] 0) {[ IDLE := ex_thread ]}
    (mk_timers ∅ [] None []) 0 0 [].

(** Threads 1 and 2 of different weight are runnable, 3 sleeps. *)
Definition ex_ops : list (env * sched_op sched_bvt_data) :=
  [ (ex_env 10, OpCreate 1%nat ex_thread (mk_sched_params 1 1 0 0 0));
    (ex_env 11, OpCreate 2%nat ex_thread (mk_sched_params 1 64 0 0 0));
    (ex_env 12, OpWake 1%nat); (ex_env 13, OpWake 2%nat);
    (ex_env 14, OpCreate 3%nat ex_thread (mk_sched_params 1 1 0 0 0));
    (ex_env 15, OpSchedule) ].

Definition ex_state : pcpu sched_bvt_control sched_bvt_data :=
  default ex_raw (s ← boot sched_bvt (ex_env 1) 0 ex_raw; exec_all sched_bvt ex_ops s).

Lemma bvt_ex_inv : sched_inv sched_bvt ex_state.
Proof.
  destruct (bvt_boots (ex_env 1) 0 ex_thread ex_raw) as (s1 & Hrun & I & _);
    [done|done| | |by vm_compute|done|].
  { split; [constructor| |constructor]. intros t Hx. by apply elem_of_nil in Hx. }
  { apply not_elem_of_nil. }
  unfold ex_state. rewrite Hrun. cbn [mbind option_bind].
  vm_compute in Hrun. injection Hrun as <-.
  edestruct (exec_all_inv sched_bvt (ops := riscv_bitmap) 31 ltac:(done) ex_ops) as (s2 & Hrun2 & I2);
    [exact I| |by rewrite Hrun2].
  clear. repeat (split; [first [done | by vm_compute | (eexists; split; [reflexivity|done])
    | (split_and!; by vm_compute)]|intros ? Hs; vm_compute in Hs; injection Hs as <-]).
  done.
Qed.

Lemma bvt_runs_earliest_witness :
  ∃ s' next, schedule sched_bvt (ex_env 200000) ex_state = Some s' ∧ curr_obj s' = Some next
    ∧ evt_of (datas s') next ≤ evt_of (datas s') 1%nat.
Proof.
  destruct (bvt_runs_earliest 31 ltac:(done) (ex_env 200000) ex_state bvt_ex_inv)
    as (s' & n & H1 & _ & H2 & _ & _ & H3 & _).
  exists s', n. split; [exact H1|]. split; [exact H2|]. apply H3.
  apply (bool_decide_unpack _). vm_compute. exact Logic.I.
Defined.

Lemma bvt_wake_does_not_hoard_witness :
  ∃ s' d, wake_thread sched_bvt (ex_env 300000) 3 ex_state = Some s' ∧ datas s' !! 3%nat = Some d
    ∧ svt (priv ex_state) - BVT_CSA_MCU < avt d.
Proof.
  destruct (threads ex_state !! 3%nat) as [th|] eqn:Eth; [|vm_compute in Eth; discriminate].
  destruct (bvt_wake_does_not_hoard 31 ltac:(done) (ex_env 300000) ex_state 3%nat th)
    as (s' & d & H1 & _ & _ & H2 & H3 & _).
  - apply bvt_ex_inv.
  - exact Eth.
  - vm_compute in Eth. injection Eth as <-. intros [Hb _]. apply Hb. reflexivity.
  - vm_compute. split; [discriminate|reflexivity].
  - exists s', d. auto.
Defined.
End example.
