(* ===== verification/SchedPrio.v ===== *)
(** * The fixed-priority and the no-op policies

    [Prio] models hypervisor/common/sched_prio.c, whose queue is ordered by
    decreasing priority; [Noop] models hypervisor/common/sched_noop.c, which
    serves a single thread. Both implement the run-queue interface, [Noop] with
    room for one thread. *)

From S2P Require Import Prelude Bits LinkedList Timer Schedule SortedQueue.
From Stdlib Require Import Sorted.

Module Prio.

Record sched_prio_data := mk_prio_data { priority : Z }.
#[export] Instance eta_prio_data : Eta sched_prio_data := MkEta _ (rd mk_prio_data <*> priority).

Record sched_prio_control := mk_prio_control { prio_queue : list tid }.

Definition priority_of (ds : gmap tid sched_prio_data) (t : tid) : Z :=
  match ds !! t with Some d => priority d | None => 0 end.

Section policy.
Context `{!BitmapOps}.
Abbreviation st := (pcpu sched_prio_control sched_prio_data).
Implicit Types (s : st) (obj : tid) (e : env).

Definition set_queue (q : list tid) s : st := s⟨priv := mk_prio_control q⟩.

Definition sched_prio_init e s : option (st * Z) :=
  if negb (bool_decide (self e = pcpu_id s)) then None else Some (set_queue [] s, 0).

(** [params->priority] is the field [prio] of struct sched_params. *)
Definition sched_prio_init_data e obj (params : sched_params) s : option st :=
  if Seq.linked obj (prio_queue (priv s)) then None else
  data ← get_data obj s;
  set_data obj (data⟨priority := s32 (prio params)⟩) s.

Definition sched_prio_pick_next e s : option (st * tid) :=
  match prio_queue (priv s) with
  | next :: _ => Some (s, next)
  | [] => Some (s, IDLE)
  end.

Definition prio_queue_add obj s : st :=
  set_queue
    (ordered_add (λ pos, priority_of (datas s) pos <? priority_of (datas s) obj) obj
       (prio_queue (priv s))) s.

Definition prio_queue_remove obj s : st := set_queue (Seq.del obj (prio_queue (priv s))) s.

Definition sched_prio_sleep e obj s : option st := Some (prio_queue_remove obj s).
Definition sched_prio_wake e obj s : option st := Some (prio_queue_add obj s).

Definition sched_prio : acrn_scheduler sched_prio_control sched_prio_data := {|
  init := Some sched_prio_init;
  init_data := Some sched_prio_init_data;
  pick_next := Some sched_prio_pick_next;
  sleep := Some sched_prio_sleep;
  wake := Some sched_prio_wake;
  deinit_data := None;
  deinit := None;
|}.
End policy.

Record prio_wf (p : sched_prio_control) (ds : gmap tid sched_prio_data) (ts : timers) : Prop := {
  pw_nodup : NoDup (prio_queue p);
  pw_known t : t ∈ prio_queue p → ∃ d, ds !! t = Some d ∧ True;
  pw_sorted : StronglySorted (by_key (λ t, - priority_of ds t)) (prio_queue p);
}.

Section instance.
Context `{!BitmapOps}.
Implicit Types (s : pcpu sched_prio_control sched_prio_data).

Lemma prio_wf_data p ds ts t d : prio_wf p ds ts → t ∉ prio_queue p → prio_wf p (<[t := d]> ds) ts.
Proof.
  intros [Hn Hk Hs] Ht. split; [done| |].
  - intros x Hx. rewrite lookup_insert_ne by set_solver. auto.
  - eapply by_key_ext; [|done]. intros x Hx. unfold priority_of.
    by rewrite lookup_insert_ne by set_solver.
Qed.

#[global, refine] Instance prio_run_queue : RunQueue sched_prio := {
  queue := prio_queue;
  ready := λ _, True;
  room := λ _, True;
  rq_wf := prio_wf;
  tick_handler := λ _ s, Some s;
}.
Proof.
  - intros p ds ts Hw. apply Hw.
  - intros p ds ts t Hw. apply Hw.
  - intros p ds ts t d Hw Ht. by apply prio_wf_data.
  - intros e s c Hw Hc Hs Hr. exists sched_prio_pick_next, s, (default IDLE (head (prio_queue (priv s)))).
    unfold sched_prio_pick_next. destruct (prio_queue (priv s)) eqn:Eq;
      split_and!; rewrite ?Eq; eauto using frame_refl.
  - intros e s t Hw Ht. eexists _, _. split_and!; [done|done|by split| |done|done].
    destruct Hw as [Hn Hk Hs]. split; simpl; [by apply nodup_seq_del| |by apply by_key_del].
    intros x Hx. apply Hk. by apply elem_of_seq_del in Hx as [? _].
  - intros e s t d [Hn Hk Hs] Hd _ Ht _. eexists _, _.
    assert (Hp := ordered_add_perm (λ pos, priority_of (datas s) pos <? priority_of (datas s) t) t
      (prio_queue (priv s)) Ht Hn).
    split_and!; [done|done|by split| |eauto|done]. split; simpl.
    + rewrite Hp. by constructor.
    + intros x. rewrite Hp, elem_of_cons. intros [->|Hx]; [|by apply Hk]. eauto.
    + change (datas (set_queue _ s)) with (datas s).
      apply (ordered_add_sorted (λ t, - priority_of (datas s) t)); try done.
      intros x. rewrite Z.ltb_lt. lia.
  - intros e s c Hw Hc Hs. exists s. split_and!; eauto using frame_refl.
  - intros e s t params He Hw Ht Hn. simpl. unfold sched_prio_init_data, Seq.linked.
    rewrite bool_decide_false by done. destruct (proj2 (datas_is_Some s t) Ht) as [d Hd].
    rewrite get_data_spec, Hd. cbn [mbind option_bind].
    destruct (set_data_spec s t (d⟨priority := s32 (prio params)⟩) Ht) as (s' & -> & [F Edat Ep Et]).
    exists s'. rewrite Edat, Ep, Et. split_and!; [done|done|by apply prio_wf_data|done| |].
    + rewrite lookup_insert_eq. eauto.
    + intros x Hx. by rewrite lookup_insert_ne.
Defined.
End instance.

Section properties.
Context {ops : BitmapOps} (lim : Z) {bspec : BitmapSpec ops lim}.
Context (Hlim : NEED_RESCHEDULE < lim).
Implicit Types (s : pcpu sched_prio_control sched_prio_data).

(** Under the fixed-priority policy schedule() runs a runnable thread of
    the highest priority, and a woken thread queues behind every runnable
    thread of the same or a higher priority (first come, first served). *)
Theorem prio_runs_highest e e' s t th :
  sched_inv sched_prio s → threads s !! t = Some th → ¬ runnable th →
  ∃ s1 s2 next l1 l2,
    wake_thread sched_prio e t s = Some s1 ∧ sched_inv sched_prio s1
    ∧ prio_queue (priv s) = l1 ++ l2 ∧ prio_queue (priv s1) = l1 ++ t :: l2
    ∧ (∀ x, x ∈ prio_queue (priv s) → priority_of (datas s) t ≤ priority_of (datas s) x ↔ x ∈ l1)
    ∧ schedule sched_prio e' s1 = Some s2 ∧ curr_obj s2 = Some next
    ∧ (∀ x, x ∈ prio_queue (priv s1) →
         priority_of (datas s1) x ≤ priority_of (datas s1) next).
Proof using bspec Hlim.
  intros I Ht Hn.
  destruct (wake_spec lim Hlim sched_prio e s t th I Ht) as [[? _]|[_ Hw]]; [done|].
  destruct (Hw Logic.I) as (s1 & th1 & Hrun & I1 & Hq & _ & Ht1 & _).
  assert (Hnq : t ∉ prio_queue (priv s)).
  { destruct (decide (t = IDLE)) as [->|]; [apply I|].
    change (t ∉ runq sched_prio s). by rewrite (inv_queue _ _ I t th). }
  assert (Ep : priv s1 = priv (prio_queue_add t s) ∧ datas s1 = datas s).
  { destruct (wake_inert sched_prio sched_prio_wake e t th s (prio_queue_add t s) s1)
      as (? & ? & _); done. }
  destruct Ep as [Ep Ed].
  destruct (inv_curr _ _ I1) as (c & thc & Hc & Hl & _).
  destruct (schedule_spec lim Hlim sched_prio e' s1 c thc I1 Hc Hl)
    as (s2 & n & Hrun2 & I2 & En & Hcur & Hq2 & _).
  destruct (ordered_add_split (λ pos, priority_of (datas s) pos <? priority_of (datas s) t) t
    (prio_queue (priv s)) Hnq (pw_nodup _ _ _ (inv_wf _ _ I))) as (l1 & l2 & El & El' & Hl1 & Hl2).
  exists s1, s2, n, l1, l2. split_and!; [done|done|done|by rewrite Ep| |done|done|].
  - intros x Hx. pose proof (pw_sorted _ _ _ (inv_wf _ _ I)) as Hs. rewrite El in Hs, Hx.
    rewrite Forall_forall in Hl1. split.
    + intros Hle. apply elem_of_app in Hx as [?|Hx]; [done|].
      destruct l2 as [|y l2]; [by apply elem_of_nil in Hx|].
      specialize (Hl2 y eq_refl). apply Z.ltb_lt in Hl2.
      assert (Hs2 : StronglySorted (by_key (λ t, - priority_of (datas s) t)) (y :: l2)).
      { clear -Hs. induction l1; [done|]. simpl in Hs. inv Hs. auto. }
      apply (sorted_head_min _ _ _ _ Hs2) in Hx. cbv beta in Hx. lia.
    + intros Hx1. apply Hl1, Z.ltb_ge in Hx1. done.
  - intros x Hx. pose proof (pw_sorted _ _ _ (inv_wf _ _ I1)) as Hs.
    destruct (schedule_pick sched_prio sched_prio_pick_next e' s1 s2 s1
      (default IDLE (head (prio_queue (priv s1)))) eq_refl) as (Ep2 & _).
    { unfold sched_prio_pick_next. by destruct (prio_queue (priv s1)). }
    { done. }
    unfold runq in En. simpl in En. rewrite Ep2 in En. subst n.
    destruct (prio_queue (priv s1)) as [|h q]; [by apply elem_of_nil in Hx|].
    apply (sorted_head_min _ _ _ _ Hs) in Hx. cbv beta in Hx. simpl. lia.
Qed.

Lemma prio_boots e cpu raw s : threads s = {[ IDLE := raw ]} → be_blocking raw = false →
  env_ok e → self e = cpu →
  ∃ s', boot sched_prio e cpu s = Some s' ∧ sched_inv sched_prio s' ∧ curr_obj s' = Some IDLE.
Proof using ops.
  intros Ht Hb He Hself. unfold boot, init_sched. cbn [init sched_prio].
  set (s0 := s⟨mode_to_idle := _⟩⟨mode_to_kick_pcpu := _⟩⟨flags := _⟩
    ⟨curr_obj := _⟩⟨pcpu_id := _⟩). unfold sched_prio_init.
  change (pcpu_id s0) with cpu. rewrite bool_decide_true by done. cbn [negb mbind option_bind].
  destruct (boot_spec sched_prio e (set_queue [] s0) raw) as (s2 & Hrun & I & Hc & _); try done.
  { split; [constructor| |constructor]. intros t Hx. by apply elem_of_nil in Hx. }
  eauto.
Qed.
End properties.

Section example.
#[local] Existing Instance riscv_bitmap.

Definition ex_env (t : Z) : env := mk_env 0 RvTimer.get_cpu_khz (λ i, t + Z.of_nat i).
Definition ex_thread : thread_object sched_prio_data :=
  mk_thread_object true THREAD_STS_BLOCKED false true true (mk_prio_data 0).
Definition ex_raw : pcpu sched_prio_control sched_prio_data :=
  mk_pcpu 0 0 None (mk_prio_control []) {[ IDLE := ex_thread ]} (mk_timers ∅ [] None []) 0 0 [].

(** Two threads of different priority run, a third sleeps. *)
Definition ex_ops : list (env * sched_op sched_prio_data) :=
  [ (ex_env 10, OpCreate 1%nat ex_thread (mk_sched_params (prio_val PRIO_LOW) 0 0 0 0));
    (ex_env 11, OpCreate 2%nat ex_thread (mk_sched_params (prio_val PRIO_HIGH) 0 0 0 0));
    (ex_env 12, OpCreate 3%nat ex_thread (mk_sched_params (prio_val PRIO_HIGH) 0 0 0 0));
    (ex_env 13, OpWake 1%nat); (ex_env 14, OpWake 2%nat); (ex_env 15, OpSchedule) ].

Definition ex_state : pcpu sched_prio_control sched_prio_data :=
  default ex_raw (s ← boot sched_prio (ex_env 1) 0 ex_raw; exec_all sched_prio ex_ops s).

Lemma prio_ex_inv : sched_inv sched_prio ex_state.
Proof.
  destruct (prio_boots (ex_env 1) 0 ex_thread ex_raw) as (s1 & Hrun & I & _);
    [done|done|by vm_compute|done|].
  unfold ex_state. rewrite Hrun. cbn [mbind option_bind].
  vm_compute in Hrun. injection Hrun as <-.
  edestruct (exec_all_inv sched_prio (ops := riscv_bitmap) 31 ltac:(done) ex_ops) as (s2 & Hrun2 & I2);
    [exact I| |by rewrite Hrun2].
  clear. repeat (split; [first [done | by vm_compute | (eexists; split; [reflexivity|done])
    | (split_and!; by vm_compute)]|intros ? Hs; vm_compute in Hs; injection Hs as <-]).
  done.
Qed.

Lemma prio_runs_highest_witness :
  ∃ s1 s2, wake_thread sched_prio (ex_env 20) 3 ex_state = Some s1
    ∧ schedule sched_prio (ex_env 21) s1 = Some s2.
Proof.
  destruct (threads ex_state !! 3%nat) as [th|] eqn:Eth; [|vm_compute in Eth; discriminate].
  destruct (prio_runs_highest 31 ltac:(done) (ex_env 20) (ex_env 21) ex_state 3%nat th)
    as (s1 & s2 & n & l1 & l2 & H1 & _ & _ & _ & _ & H2 & _).
  - apply prio_ex_inv.
  - exact Eth.
  - vm_compute in Eth. injection Eth as <-. intros [Hb _]. apply Hb. reflexivity.
  - exists s1, s2. auto.
Defined.
End example.
End Prio.

(** ** The no-op policy *)

Module Noop.

Record sched_noop_control := mk_noop_control { noop_thread_obj : option tid }.

Section policy.
Context `{!BitmapOps}.
Abbreviation st := (pcpu sched_noop_control ()).
Implicit Types (s : st) (obj : tid) (e : env).

Definition sched_noop_init e s : option (st * Z) := Some (s, 0).

Definition sched_noop_pick_next e s : option (st * tid) :=
  match noop_thread_obj (priv s) with
  | Some next => Some (s, next)
  | None => Some (s, IDLE)
  end.

Definition sched_noop_sleep e obj s : option st :=
  if bool_decide (noop_thread_obj (priv s) = Some obj)
  then Some (s⟨priv := mk_noop_control None⟩) else Some s.

Definition sched_noop_wake e obj s : option st :=
  match noop_thread_obj (priv s) with
  | None => Some (s⟨priv := mk_noop_control (Some obj)⟩)
  | Some _ => Some s
  end.

Definition sched_noop : acrn_scheduler sched_noop_control () := {|
  init := Some sched_noop_init;
  init_data := None;
  pick_next := Some sched_noop_pick_next;
  sleep := Some sched_noop_sleep;
  wake := Some sched_noop_wake;
  deinit_data := None;
  deinit := None;
|}.
End policy.

Section instance.
Context `{!BitmapOps}.
Implicit Types (s : pcpu sched_noop_control ()).

Definition noop_queue (p : sched_noop_control) : list tid := option_list (noop_thread_obj p).

Record noop_wf (p : sched_noop_control) (ds : gmap tid ()) (ts : timers) : Prop := {
  nw_known t : t ∈ noop_queue p → ∃ d, ds !! t = Some d ∧ True;
}.

#[global, refine] Instance noop_run_queue : RunQueue sched_noop := {
  queue := noop_queue;
  ready := λ _, True;
  room := λ p, noop_thread_obj p = None;
  rq_wf := noop_wf;
  tick_handler := λ _ s, Some s;
}.
Proof.
  - intros [[t|]] ds ts Hw; simpl; repeat constructor; set_solver.
  - intros p ds ts t Hw. apply Hw.
  - intros p ds ts t d [Hk] Ht. split. intros x Hx. rewrite lookup_insert_ne by set_solver. auto.
  - intros e s c Hw Hc Hs Hr.
    exists sched_noop_pick_next, s, (default IDLE (head (noop_queue (priv s)))).
    unfold sched_noop_pick_next, noop_queue. destruct (noop_thread_obj (priv s));
      split_and!; eauto using frame_refl.
  - intros e s t [Hk] Ht. eexists _, _. split; [done|]. unfold sched_noop_sleep. split; [|].
    { instantiate (1 := if bool_decide (noop_thread_obj (priv s) = Some t)
                        then s⟨priv := mk_noop_control None⟩ else s). by case_if. }
    unfold noop_queue in *. case_bool_decide as E; simpl; split_and!;
      try done; try apply frame_refl; try (by split).
    + split. intros x Hx. by apply elem_of_nil in Hx.
    + rewrite E. simpl. by rewrite decide_True.
    + destruct (noop_thread_obj (priv s)) as [x|]; [|done]. simpl.
      rewrite decide_False; congruence.
  - intros e s t d [Hk] Hd _ Ht Hr. eexists _, (s⟨priv := mk_noop_control (Some t)⟩).
    split; [done|]. unfold sched_noop_wake. rewrite Hr. split; [done|].
    split_and!; [by split| |eauto|by unfold noop_queue; rewrite Hr].
    split. intros x Hx. simpl in Hx. apply list_elem_of_singleton in Hx as ->. eauto.
  - intros e s c Hw Hc Hs. exists s. split_and!; eauto using frame_refl.
  - intros e s t params He Hw Ht Hn. simpl. exists s. split_and!; eauto using frame_refl.
    destruct (proj2 (datas_is_Some s t) Ht). eauto.
Defined.
End instance.
End Noop.
