(* ===== verification/SchedTheorems.v ===== *)
(** * Theorems on the scheduling framework

    The properties of hypervisor/common/schedule.c that hold for every policy
    implementing the run-queue interface, with the round-robin policy as the
    witness. *)

From S2P Require Import Prelude Bits LinkedList Timer Schedule SchedIorr.

Section theorems.
Context {P D : Type} {ops : BitmapOps} (lim : Z) {bspec : BitmapSpec ops lim}.
Context (sched : acrn_scheduler P D) {rq : RunQueue sched}.
Implicit Types (s : pcpu P D) (t : tid) (e : env).

(** C2: Every permitted sequence of scheduler operations (schedule, sleep, wake,
    yield, tick, thread creation, from any CPU) runs to completion, and in the
    state it leaves exactly the current thread is RUNNING, a thread is in the
    run queue exactly when it is neither blocked nor blocking, a thread that is
    blocking or could replace the idle thread has a reschedule pending, and
    the idle thread can always run. *)
Theorem sched_runs_keep_invariant l s :
  NEED_RESCHEDULE < lim → sched_inv sched s → ops_ok sched l s →
  ∃ s', exec_all sched l s = Some s'
    ∧ (∀ t th, threads s' !! t = Some th →
         status th = THREAD_STS_RUNNING ↔ curr_obj s' = Some t)
    ∧ (∀ t th, t ≠ IDLE → threads s' !! t = Some th →
         t ∈ runq sched s' ↔ status th ≠ THREAD_STS_BLOCKED ∧ be_blocking th = false)
    ∧ NoDup (runq sched s')
    ∧ (∀ t th, threads s' !! t = Some th → be_blocking th = true → need_reschedule s' = true)
    ∧ (curr_obj s' = Some IDLE → runq sched s' ≠ [] → need_reschedule s' = true)
    ∧ (∃ th, threads s' !! IDLE = Some th ∧ runnable th).
Proof.
  intros Hlim I Hok. destruct (exec_all_inv sched lim Hlim l s I Hok) as (s' & Hrun & I').
  exists s'. split_and!; [done| | | | | |]; try apply I'.
  - intros t th Ht. split; [by apply (inv_running _ _ I')|]. intros Hc.
    destruct (inv_curr _ _ I') as (c & th' & Hc' & Hl & Hr). congruence.
  - eapply rq_nodup, (inv_wf _ _ I').
Qed.

(** schedule() runs the thread the policy puts first (the idle thread if the
    queue is empty), clears the reschedule flag, marks the thread it leaves
    BLOCKED if it was going to sleep and RUNNABLE otherwise, and performs the
    switch_out and switch_in callbacks and the stack switch in that order, or
    nothing if the thread does not change. *)
Theorem schedule_switches e s p thp :
  NEED_RESCHEDULE < lim → sched_inv sched s →
  curr_obj s = Some p → threads s !! p = Some thp →
  ∃ s' n thn, schedule sched e s = Some s'
    ∧ n = default IDLE (head (runq sched s')) ∧ runq sched s' ≡ₚ runq sched s
    ∧ curr_obj s' = Some n ∧ threads s' !! n = Some thn ∧ status thn = THREAD_STS_RUNNING
    ∧ need_reschedule s' = false
    ∧ (p ≠ n → ∃ th', threads s' !! p = Some th' ∧ be_blocking th' = false
         ∧ status th' = (if be_blocking thp then THREAD_STS_BLOCKED else THREAD_STS_RUNNABLE))
    ∧ actions s' = actions s ++
        (if decide (p = n) then []
         else (if switch_out thp then [SwitchOut p] else [])
                ++ (if switch_in thn then [SwitchIn n] else []) ++ [ArchSwitch p n]).
Proof.
  intros Hlim I Hc Hp.
  destruct (schedule_spec lim Hlim sched e s p thp I Hc Hp)
    as (s' & n & Hrun & I' & En & Hcur & Hq & Hn & Hprev & Hact).
  destruct (inv_curr _ _ I') as (c & thn & Hc' & Hl & Hr). simplify_eq.
  eexists s', _, thn. split_and!; eauto. intros Hne.
  destruct (schedule_keeps sched e s s' p I Hrun) as [th' Hth']; [eauto|].
  destruct (Hprev th' Hth' Hne). eauto.
Qed.
End theorems.

Section witnesses.
#[local] Existing Instance riscv_bitmap.

Definition ex_more : list (env * sched_op sched_iorr_data) :=
  [ (mk_env 3 1000 (λ _, 60), OpSleep 2%nat); (ex_env 61, OpSchedule);
    (ex_env 62, OpTick); (mk_env 3 1000 (λ _, 63), OpWake 2%nat); (ex_env 64, OpSchedule) ].

Lemma sched_runs_keep_invariant_witness :
  ∃ s', exec_all sched_iorr ex_more ex_state = Some s' ∧ NoDup (runq sched_iorr s').
Proof.
  destruct (sched_runs_keep_invariant 31 sched_iorr ex_more ex_state) as (s' & H1 & _ & _ & H2 & _).
  - reflexivity.
  - apply iorr_ex_inv.
  - repeat (split; [first [exact I | by vm_compute | (split; [discriminate|vm_compute; eexists; reflexivity])
      | (eexists; split; [vm_compute; reflexivity|done])]
      |intros ? Hs; vm_compute in Hs; injection Hs as <-]).
    exact I.
  - exists s'. auto.
Defined.

Lemma schedule_switches_witness :
  ∃ s', schedule sched_iorr (ex_env 61) ex_state = Some s' ∧ need_reschedule s' = false.
Proof.
  destruct (threads ex_state !! 2%nat) as [th|] eqn:Eth; [|vm_compute in Eth; discriminate].
  destruct (schedule_switches 31 sched_iorr (ex_env 61) ex_state 2%nat th)
    as (s' & n & thn & H1 & _ & _ & _ & _ & _ & H2 & _).
  - reflexivity.
  - apply iorr_ex_inv.
  - vm_compute. reflexivity.
  - exact Eth.
  - exists s'. auto.
Defined.
End witnesses.
