(* ===== verification/Event.v ===== *)
(** * Scheduler events (hypervisor/common/event.c)

    An event is waited for by one thread and signalled from any CPU.
    wait_event gives up the event lock while it sleeps, so it is modelled by
    its atomic parts, and the interleavings of a waiter with signals and with
    every other scheduler operation are the step relation [sys_step]. *)

From stdpp Require Import relations.
From S2P Require Import Prelude Bits LinkedList Timer Schedule SchedIorr.

Record sched_event := mk_event { set : bool; waiting_thread : option tid }.
#[export] Instance eta_event : Eta sched_event := MkEta _ (rd mk_event <*> set <*> waiting_thread).

Definition init_event : sched_event := mk_event false None.
Definition reset_event (ev : sched_event) : sched_event :=
  ev⟨set := false⟩⟨waiting_thread := None⟩.

Section event.
Context {P D : Type} {ops : BitmapOps} (sched : acrn_scheduler P D) {rq : RunQueue sched}.
Implicit Types (s : pcpu P D) (ev : sched_event) (e : env).

(** The test of the loop of wait_event, with the event lock held: either the
    waiter goes to sleep and releases the lock ([false]), or wait_event clears
    the event and returns ([true]). *)
Definition wait_check e ev s : option (sched_event * pcpu P D * bool) :=
  match waiting_thread ev with
  | Some w =>
      if negb (set ev)
      then s ← sleep_thread sched e w s; Some (ev, s, false)
      else Some (ev⟨set := false⟩⟨waiting_thread := None⟩, s, true)
  | None => Some (ev⟨set := false⟩⟨waiting_thread := None⟩, s, true)
  end.

(** The entry of wait_event: a second waiter fails the assertion. *)
Definition wait_begin e ev s : option (sched_event * pcpu P D * bool) :=
  match waiting_thread ev with
  | Some _ => None
  | None => wait_check e (ev⟨waiting_thread := sched_get_current s⟩) s
  end.

Definition signal_event e ev s : option (sched_event * pcpu P D) :=
  let ev := ev⟨set := true⟩ in
  match waiting_thread ev with
  | Some w => s ← wake_thread sched e w s; Some (ev, s)
  | None => Some (ev, s)
  end.

(** ** Interleavings *)

(** Where the waiter is: before wait_event, asleep and about to call
    schedule(), waiting to be resumed in schedule(), or past wait_event. *)
Inductive wpc := WReady | WSlept | WResume | WDone.

Record sys := mk_sys { ev_of : sched_event; cpu_of : pcpu P D; pc_of : wpc }.

Definition after_check (b : bool) : wpc := if b then WDone else WSlept.

(** The operations of the other threads and CPUs: they do not sleep or wake
    the waiter, and schedule() is called by the thread that runs. *)
Definition other_op (w : tid) (op : sched_op D) s : Prop :=
  match op with
  | OpSchedule => curr_obj s ≠ Some w
  | OpSleep t | OpWake t => t ≠ w
  | OpYield | OpTick | OpCreate _ _ _ => True
  end.

Inductive sys_step (w : tid) : sys → sys → Prop :=
  | step_wait e ev s ev' s' b :
      curr_obj s = Some w → wait_begin e ev s = Some (ev', s', b) →
      sys_step w (mk_sys ev s WReady) (mk_sys ev' s' (after_check b))
  | step_schedule e ev s s' :
      schedule sched e s = Some s' →
      sys_step w (mk_sys ev s WSlept) (mk_sys ev s' WResume)
  | step_resume e ev s ev' s' b :
      curr_obj s = Some w → wait_check e ev s = Some (ev', s', b) →
      sys_step w (mk_sys ev s WResume) (mk_sys ev' s' (after_check b))
  | step_signal e ev s ev' s' pc :
      signal_event e ev s = Some (ev', s') →
      sys_step w (mk_sys ev s pc) (mk_sys ev' s' pc)
  | step_other e op ev s s' pc :
      op_ok sched e op s → other_op w op s → exec sched e op s = Some s' →
      sys_step w (mk_sys ev s pc) (mk_sys ev s' pc).

(** While it waits, the waiter is in the run queue exactly when the event is
    set. *)
Record sys_inv (w : tid) (x : sys) : Prop := {
  si_sched : sched_inv sched (cpu_of x);
  si_thread : is_Some (threads (cpu_of x) !! w);
  si_waiting : waiting_thread (ev_of x)
    = match pc_of x with WSlept | WResume => Some w | WReady | WDone => None end;
  si_queue : pc_of x = WSlept ∨ pc_of x = WResume →
    (set (ev_of x) = true ↔ w ∈ runq sched (cpu_of x));
  si_current : pc_of x = WSlept → curr_obj (cpu_of x) = Some w;
}.

Context (lim : Z) {bspec : BitmapSpec ops lim} (Hlim : NEED_RESCHEDULE < lim).
Context (Hroom : ∀ p, room p).

Lemma sleep_keeps e t s s' x : sched_inv sched s → t ≠ IDLE → is_Some (threads s !! t) →
  sleep_thread sched e t s = Some s' → is_Some (threads s !! x) → is_Some (threads s' !! x).
Proof.
  intros I Hi Ht. destruct (rq_sleep e s t (inv_wf _ _ I) Ht) as (f & s1 & Hf & Hrun & F & _).
  unfold sleep_thread. rewrite Hf. cbn [mbind option_bind]. rewrite Hrun. cbn [mbind option_bind].
  destruct (threads s1 !! t); [|done]. cbn [mbind option_bind]. intros Hs Hx.
  apply (frame_is_Some _ _ x F) in Hx. case_if; (eapply upd_thread_keeps; [exact Hs|]); [|done].
  unfold make_reschedule_request. by case_bool_decide.
Qed.

Lemma wake_keeps e t s s' x : sched_inv sched s → is_Some (threads s !! t) →
  wake_thread sched e t s = Some s' → is_Some (threads s !! x) → is_Some (threads s' !! x).
Proof using Hroom.
  intros I [th Ht]. unfold wake_thread. rewrite Ht. cbn [mbind option_bind].
  case_if; [|by intros [= <-]].
  assert (Hnr : ¬ runnable th).
  { unfold runnable, is_blocked in *. intros [Hb Hbb]. rewrite Hbb, orb_false_r in E.
    by apply bool_decide_eq_true in E. }
  assert (Hi : t ≠ IDLE).
  { intros ->. destruct (inv_idle_runs _ _ I) as (th0 & ? & ?). by simplify_eq. }
  destruct (rq_wake e s t (data th) (inv_wf _ _ I)) as (f & s1 & Hf & Hrun & F & _).
  { by apply datas_lookup. } { by eapply inv_ready. }
  { change (t ∉ runq sched s). by rewrite (inv_queue _ _ I t th). } { apply Hroom. }
  rewrite Hf, Hrun. cbn [mbind option_bind]. destruct (threads s1 !! t) as [th1|]; [|done].
  cbn [mbind option_bind]. intros Hs Hx. apply (frame_is_Some _ _ x F) in Hx.
  destruct (is_blocked th1).
  - destruct (set_thread_status t _ s1) as [sa|] eqn:Ea; [|done]. cbn [mbind option_bind] in Hs.
    eapply upd_thread_keeps; [exact Hs|]. apply (upd_thread_keeps _ _ _ _ x) in Ea; [|done].
    unfold make_reschedule_request. by case_bool_decide.
  - eapply upd_thread_keeps; [exact Hs|done].
Qed.

Lemma other_step w e op s s' : sched_inv sched s → op_ok sched e op s → other_op w op s →
  exec sched e op s = Some s' → is_Some (threads s !! w) →
  sched_inv sched s' ∧ is_Some (threads s' !! w) ∧ (w ∈ runq sched s' ↔ w ∈ runq sched s)
  ∧ (curr_obj s = Some w → curr_obj s' = Some w).
Proof using bspec Hlim Hroom.
  intros I Hok Ho Hrun Hw. destruct (exec_inv sched lim Hlim e op s I Hok) as (s1 & E1 & I1).
  rewrite Hrun in E1. injection E1 as <-. split; [done|].
  destruct op as [|t|t| | |t th params]; simpl in *.
  - destruct (inv_curr _ _ I) as (c & th & Hc & Hl & _).
    destruct (schedule_spec lim Hlim sched e s c th I Hc Hl) as (s2 & n & E2 & _ & _ & _ & Hq & _).
    rewrite Hrun in E2. injection E2 as <-. split_and!; [by eapply (schedule_keeps sched e s)|by rewrite Hq|done].
  - destruct Hok as [Hi [th Ht]].
    destruct (sleep_spec lim Hlim sched e s t th I Hi Ht) as (s2 & th' & E2 & _ & Hq & Hc & _).
    rewrite Hrun in E2. injection E2 as <-. split_and!; [by apply (sleep_keeps e t s); eauto| |congruence].
    rewrite Hq, elem_of_del_queue by apply I. naive_solver.
  - destruct Hok as (th & Ht & Hr).
    split; [by apply (wake_keeps e t s); eauto|].
    destruct (wake_spec lim Hlim sched e s t th I Ht) as [[_ E2]|[Hn Hwk]].
    + rewrite Hrun in E2. by injection E2 as ->.
    + destruct (Hwk (Hr Hn)) as (s2 & th' & E2 & _ & Hq & Hc & _).
      rewrite Hrun in E2. injection E2 as <-. split; [rewrite Hq; set_solver|congruence].
  - injection Hrun as <-. unfold yield_current, make_reschedule_request, runq.
    by case_bool_decide.
  - destruct (tick_spec lim Hlim sched e s I) as (s2 & E2 & _ & Hq & Hc & Hk).
    rewrite Hrun in E2. injection E2 as <-. split_and!; [auto|by rewrite Hq|congruence].
  - destruct Hok as (He & Hi & Hf & Hb).
    destruct (create_spec sched e s t th params I He Hi Hf Hb)
      as (s2 & th' & E2 & _ & _ & _ & Hq & Hc & Hk).
    rewrite Hrun in E2. injection E2 as <-. rewrite Hq, Hc. auto.
Qed.

(** The waiter goes to sleep, or finds the event set. *)
Lemma wait_check_inv w e ev s ev' s' b : sched_inv sched s → w ≠ IDLE → is_Some (threads s !! w) →
  curr_obj s = Some w → waiting_thread ev = Some w → wait_check e ev s = Some (ev', s', b) →
  sys_inv w (mk_sys ev' s' (after_check b)).
Proof using bspec Hlim.
  intros I Hi [th Hw] Hc Hwt. unfold wait_check. rewrite Hwt. destruct (set ev) eqn:Es; simpl.
  - intros [= <- <- <-]. split; simpl; eauto; naive_solver.
  - destruct (sleep_spec lim Hlim sched e s w th I Hi Hw) as (s1 & th1 & -> & I1 & Hq & Hc1 & Hl1 & _).
    cbn [mbind option_bind]. intros [= <- <- <-]. split; simpl; eauto; [|congruence].
    intros _. rewrite Es, Hq, elem_of_del_queue by apply I. naive_solver.
Qed.

Lemma sys_step_inv w x y : w ≠ IDLE → sys_inv w x → sys_step w x y → sys_inv w y.
Proof using bspec Hlim Hroom.
  intros Hi [I Hw Hwt Hq Hc] Hstep.
  destruct Hstep as [e ev s ev' s' b Hcur Hrun|e ev s s' Hrun|e ev s ev' s' b Hcur Hrun
    |e ev s ev' s' pc Hrun|e op ev s s' pc Hok Ho Hrun]; simpl in *.
  - unfold wait_begin in Hrun. rewrite Hwt in Hrun. unfold sched_get_current in Hrun.
    eapply wait_check_inv; [exact I|done|done|done| |exact Hrun]. done.
  - destruct (inv_curr _ _ I) as (c & th & Hcc & Hl & _).
    destruct (schedule_spec lim Hlim sched e s c th I Hcc Hl) as (s2 & n & E2 & I2 & _ & _ & Hq2 & _).
    rewrite Hrun in E2. injection E2 as <-. split; simpl; [done| |done| |done].
    + by apply (schedule_keeps sched e s).
    + intros _. rewrite Hq2. auto.
  - by eapply wait_check_inv.
  - unfold signal_event in Hrun. simpl in Hrun. rewrite Hwt in Hrun.
    destruct Hw as [th Ht].
    assert (Hsleep : wake_thread sched e w s ≫= (λ s, Some (ev⟨set := true⟩, s)) = Some (ev', s') →
      waiting_thread ev = Some w → (pc = WSlept → curr_obj s = Some w) →
      (match pc with WSlept | WResume => Some w | _ => None end = Some w) →
      sys_inv w (mk_sys ev' s' pc)).
    { intros Hr Hev Hcu Hpc. destruct (wake_thread sched e w s) as [s1|] eqn:E1; [|done].
      injection Hr as <- <-.
      destruct (wake_spec lim Hlim sched e s w th I Ht) as [[Hrn E2]|[Hn Hwk]].
      - rewrite E1 in E2. injection E2 as ->. split; simpl; eauto.
        intros _. split; [|done]. intros _. by apply (inv_queue _ _ I w th).
      - destruct (Hwk (Hroom _)) as (s2 & th' & E2 & I2 & Hq2 & Hc2 & Hl2 & _).
        rewrite E1 in E2. injection E2 as ->. split; simpl; eauto.
        + intros _. rewrite Hq2. set_solver.
        + rewrite Hc2. done. }
    destruct pc; try (apply Hsleep; done).
    + injection Hrun as <- <-. split; simpl; eauto. naive_solver.
    + injection Hrun as <- <-. split; simpl; eauto. naive_solver.
  - destruct (other_step w e op s s' I Hok Ho Hrun Hw) as (I' & Hw' & Hq' & Hc').
    split; simpl; [done|done|done| |auto]. intros Hpc. rewrite Hq'. auto.
Qed.

Lemma sys_steps_inv w x y : w ≠ IDLE → rtc (sys_step w) x y → sys_inv w x → sys_inv w y.
Proof using bspec Hlim Hroom.
  intros Hi. induction 1 as [|x y z Hxy Hyz IH]; [done|]. intros Hx. apply IH.
  by eapply sys_step_inv.
Qed.
End event.

Section theorems.
Context {P D : Type} {ops : BitmapOps} (lim : Z) {bspec : BitmapSpec ops lim}.
Context (sched : acrn_scheduler P D) {rq : RunQueue sched}.

(** C3: A signal is not lost, and there is no spurious wake-up: however the
    waiter, the signals and the other threads interleave, while the waiter is
    inside wait_event it is in the run queue exactly when the event is set; the
    idle thread, if running then, has a reschedule pending; and a waiter that
    runs again with the event set returns, leaving the event clear. *)
Theorem signal_not_lost w s0 ev s pc :
  NEED_RESCHEDULE < lim → (∀ p, room p) → w ≠ IDLE →
  sched_inv sched s0 → is_Some (threads s0 !! w) →
  rtc (sys_step sched w) (mk_sys init_event s0 WReady) (mk_sys ev s pc) →
  pc = WSlept ∨ pc = WResume →
  waiting_thread ev = Some w
  ∧ (set ev = true ↔ w ∈ runq sched s)
  ∧ (set ev = true → curr_obj s = Some IDLE → need_reschedule s = true)
  ∧ (set ev = true → ∀ e, wait_check sched e ev s = Some (init_event, s, true)).
Proof.
  intros Hlim Hroom Hi I Hw Hsteps Hpc.
  assert (Hinv : sys_inv sched w (mk_sys ev s pc)).
  { eapply (sys_steps_inv sched lim Hlim Hroom); [done|exact Hsteps|].
    split; simpl; eauto; naive_solver. }
  destruct Hinv as [I' Hw' Hwt Hq Hc]. simpl in *.
  assert (Hwt' : waiting_thread ev = Some w) by (rewrite Hwt; by destruct Hpc as [->| ->]).
  split_and!; [done|by apply Hq| |].
  - intros Hs Hcur. apply (inv_work _ _ I'); [done|]. apply Hq in Hs; [|done]. intros E.
    rewrite E in Hs. by apply elem_of_nil in Hs.
  - intros Hs e. unfold wait_check. by rewrite Hwt', Hs.
Qed.
End theorems.

(** ** A concrete run *)

Section example.
#[local] Existing Instance riscv_bitmap.

(** Thread 2 waits, is switched out, and is signalled. *)
Lemma signal_not_lost_witness :
  ∃ ev s, rtc (sys_step sched_iorr 2%nat) (mk_sys init_event ex_state WReady) (mk_sys ev s WResume)
    ∧ set ev = true ∧ 2%nat ∈ runq sched_iorr s.
Proof.
  destruct (wait_begin sched_iorr (ex_env 100) init_event ex_state) as [[[ev1 s1] b1]|] eqn:E1;
    [|vm_compute in E1; discriminate].
  destruct (schedule sched_iorr (ex_env 101) s1) as [s2|] eqn:E2;
    [|vm_compute in E1; injection E1 as <- <- <-; vm_compute in E2; discriminate].
  destruct (signal_event sched_iorr (ex_env 102) ev1 s2) as [[ev3 s3]|] eqn:E3;
    [|vm_compute in E1; injection E1 as <- <- <-; vm_compute in E2; injection E2 as <-;
      vm_compute in E3; discriminate].
  assert (Eb : b1 = false) by (vm_compute in E1; injection E1 as _ _ <-; reflexivity).
  assert (Hsteps : rtc (sys_step sched_iorr 2%nat) (mk_sys init_event ex_state WReady)
                     (mk_sys ev3 s3 WResume)).
  { eapply rtc_l; [refine (step_wait sched_iorr 2%nat _ _ _ _ _ _ _ E1); vm_compute; reflexivity|]. rewrite Eb.
    eapply rtc_l; [apply (step_schedule sched_iorr 2%nat _ _ _ _ E2)|].
    eapply rtc_l; [apply (step_signal sched_iorr 2%nat _ _ _ _ _ _ E3)|apply rtc_refl]. }
  assert (Hset : set ev3 = true).
  { vm_compute in E1; injection E1 as <- <- <-; vm_compute in E2; injection E2 as <-;
      vm_compute in E3. injection E3 as <- _. reflexivity. }
  exists ev3, s3. split; [exact Hsteps|]. split; [exact Hset|].
  destruct (signal_not_lost 31 sched_iorr 2%nat ex_state ev3 s3 WResume) as (_ & Hq & _).
  - reflexivity.
  - intros p. exact Logic.I.
  - discriminate.
  - apply iorr_ex_inv.
  - vm_compute. eexists. reflexivity.
  - exact Hsteps.
  - right. reflexivity.
  - apply Hq. exact Hset.
Defined.
End example.
