(* ===== verification/Irq.v ===== *)
(** * Softirqs and interrupt descriptors

    [Softirq] models hypervisor/common/softirq.c and [Irq] models
    hypervisor/common/irq.c, both over the bit operations of the architecture
    (the interface [BitmapOps]). *)

From S2P Require Import Prelude Bits.

(** ** Softirqs *)

Module Softirq.

Definition SOFTIRQ_TIMER : Z := 0.
Definition SOFTIRQ_PTDEV : Z := 1.
Definition NR_SOFTIRQS : Z := 2.

Section softirq.
Context {ops : BitmapOps} {W : Type}.

(** The per-CPU words, and the state [world] the handlers work on. *)
Record softirq := mk_softirq { softirq_pending : Z; softirq_servicing : Z; world : W }.
#[global] Instance eta_softirq : Eta softirq :=
  MkEta _ (rd mk_softirq <*> softirq_pending <*> softirq_servicing <*> world).

(** A handler may change the world and fire softirqs; [None] is NULL. *)
Definition handler := Z → softirq → softirq.
Definition handlers := Z → option handler.

Definition register_softirq (nr : Z) (h : handler) (hs : handlers) : handlers :=
  λ i, if i =? nr then Some h else hs i.

Definition fire_softirq (nr : Z) (s : softirq) : softirq :=
  s⟨softirq_pending := bitmap_set_lock nr (softirq_pending s)⟩.

(** The loop ends when no softirq below NR_SOFTIRQS is pending. *)
Fixpoint do_softirq_internal (fuel : nat) (hs : handlers) (cpu_id : Z) (s : softirq)
    : option softirq :=
  let nr := u16 (ffs64 (softirq_pending s)) in
  if nr <? NR_SOFTIRQS then
    match fuel with
    | O => None
    | S fuel =>
        let s := s⟨softirq_pending := bitmap_clear_lock nr (softirq_pending s)⟩ in
        match hs nr with
        | None => None
        | Some h => do_softirq_internal fuel hs cpu_id (h cpu_id s)
        end
    end
  else Some s.

Definition do_softirq (fuel : nat) (hs : handlers) (cpu_id : Z) (s : softirq) : option softirq :=
  if softirq_servicing s =? 0 then
    let s := s⟨softirq_servicing := 1⟩ in
    s ← do_softirq_internal fuel hs cpu_id s;
    s ← do_softirq_internal fuel hs cpu_id s;
    Some (s⟨softirq_servicing := 0⟩)
  else Some s.
End softirq.
Arguments softirq : clear implicits.
Arguments handler : clear implicits.
Arguments handlers : clear implicits.

(** *** Serving softirqs *)

Lemma list_filter_iff_elem {A} (P Q : A → Prop) `{!∀ x, Decision (P x), !∀ x, Decision (Q x)} (l : list A) :
  (∀ x, x ∈ l → P x ↔ Q x) → filter P l = filter Q l.
Proof.
  induction l as [|x l IH]; intros Hl; [done|]. rewrite !filter_cons.
  rewrite IH by set_solver. destruct (decide (P x)), (decide (Q x)); set_solver.
Qed.

Lemma list_filter_ext_seqZ (f g : Z → bool) k n : (∀ i, k ≤ i → f i = g i) →
  filter (λ i, f i = true) (seqZ k n) = filter (λ i, g i = true) (seqZ k n).
Proof.
  intros Hfg. apply list_filter_iff_elem. intros i Hi%elem_of_seqZ. rewrite Hfg by lia. done.
Qed.

Section facts.
Context {ops : BitmapOps} (lim : Z) {bspec : BitmapSpec ops lim} {W : Type}.
Context (Hlim : NR_SOFTIRQS ≤ lim).
Context (hs : handlers W) (cpu_id : Z).

(** Handlers that do their work without firing softirqs themselves. *)
Definition quiet : Prop :=
  ∀ nr, 0 ≤ nr < NR_SOFTIRQS → ∃ h, hs nr = Some h
    ∧ ∀ s, softirq_pending (h cpu_id s) = softirq_pending s
           ∧ softirq_servicing (h cpu_id s) = softirq_servicing s.

Definition serve (s : softirq W) (nr : Z) : softirq W :=
  let s := s⟨softirq_pending := bitmap_clear_lock nr (softirq_pending s)⟩ in
  match hs nr with Some h => h cpu_id s | None => s end.

(** The softirqs that are pending, lowest number first. *)
Definition pending_list (w : Z) : list Z :=
  filter (λ nr, Z.testbit w nr = true) (seqZ 0 NR_SOFTIRQS).

Lemma ffs_at w nr : word 64 w → 0 ≤ nr < 64 → Z.testbit w nr = true →
  (∀ i, 0 ≤ i < nr → Z.testbit w i = false) → u16 (ffs64 w) = nr.
Proof using bspec.
  intros Hw Hnr Ht Hlow.
  destruct (bs_ffs64 w Hw) as (Hr & Hb & Hf); [intros ->; by rewrite Z.testbit_0_l in Ht|].
  unfold u16. rewrite Z.mod_small by lia.
  destruct (Z.lt_trichotomy (ffs64 w) nr) as [Hlt|[?|Hgt]]; [|done|].
  - rewrite Hlow in Hb by lia. done.
  - rewrite Hf in Ht by lia. done.
Qed.

Lemma ffs_none w : word 64 w → (∀ i, 0 ≤ i < NR_SOFTIRQS → Z.testbit w i = false) →
  (u16 (ffs64 w) <? NR_SOFTIRQS) = false.
Proof using bspec.
  intros Hw Hlow. apply Z.ltb_ge. unfold u16. destruct (decide (w = 0)) as [->|Hnz].
  - pose proof bs_ffs64_zero as Hz. rewrite Z.mod_small by lia. unfold NR_SOFTIRQS. lia.
  - destruct (bs_ffs64 w Hw Hnz) as (Hr & Hb & _). rewrite Z.mod_small by lia.
    destruct (Z.lt_ge_cases (ffs64 w) NR_SOFTIRQS); [|done]. rewrite Hlow in Hb by lia. done.
Qed.

Lemma serve_quiet s nr : quiet → 0 ≤ nr < NR_SOFTIRQS → word 64 (softirq_pending s) →
  word 64 (softirq_pending (serve s nr))
  ∧ softirq_servicing (serve s nr) = softirq_servicing s
  ∧ ∀ i, 0 ≤ i → Z.testbit (softirq_pending (serve s nr)) i
      = Z.testbit (softirq_pending s) i && negb (bool_decide (i = nr)).
Proof using bspec Hlim.
  intros Hq Hnr Hw. unfold serve. destruct (Hq nr Hnr) as (h & -> & Hh).
  destruct (Hh (s⟨softirq_pending := bitmap_clear_lock nr (softirq_pending s)⟩)) as [-> ->].
  simpl. unfold NR_SOFTIRQS in *. split_and!; [apply bs_clear_word; (done || lia)|done|].
  intros i Hi. apply bs_clear; (done || lia).
Qed.

Lemma internal_step fuel s nr : quiet → 0 ≤ nr < NR_SOFTIRQS → u16 (ffs64 (softirq_pending s)) = nr →
  do_softirq_internal (S fuel) hs cpu_id s = do_softirq_internal fuel hs cpu_id (serve s nr).
Proof.
  intros Hq Hnr E. simpl. rewrite E. rewrite (proj2 (Z.ltb_lt _ _)) by lia.
  unfold serve. destruct (Hq nr Hnr) as (h & -> & _). done.
Qed.

Lemma internal_done fuel s : word 64 (softirq_pending s) →
  (∀ i, 0 ≤ i < NR_SOFTIRQS → Z.testbit (softirq_pending s) i = false) →
  do_softirq_internal fuel hs cpu_id s = Some s.
Proof using bspec.
  intros Hw Hlow. pose proof (ffs_none _ Hw Hlow) as E. by destruct fuel; simpl; rewrite E.
Qed.

(** The softirqs from [k] on, when those below are not pending. *)
Lemma internal_from n : ∀ fuel s k, quiet → word 64 (softirq_pending s) →
  0 ≤ k → k + Z.of_nat n = NR_SOFTIRQS → (n ≤ fuel)%nat →
  (∀ i, 0 ≤ i < k → Z.testbit (softirq_pending s) i = false) →
  ∃ s', do_softirq_internal fuel hs cpu_id s = Some s'
    ∧ s' = foldl serve s (filter (λ nr, Z.testbit (softirq_pending s) nr = true) (seqZ k (Z.of_nat n)))
    ∧ softirq_servicing s' = softirq_servicing s
    ∧ (∀ i, 0 ≤ i → Z.testbit (softirq_pending s') i
        = Z.testbit (softirq_pending s) i && (NR_SOFTIRQS <=? i))
    ∧ word 64 (softirq_pending s').
Proof using bspec Hlim.
  induction n as [|n IH]; intros fuel s k Hq Hw Hk Hn Hf Hlow.
  - rewrite internal_done by (done || (intros; apply Hlow; lia)). exists s. split_and!; try done.
    intros i Hi. destruct (Z.leb_spec NR_SOFTIRQS i); [by rewrite andb_true_r|].
    by rewrite Hlow by lia.
  - rewrite seqZ_cons by lia. replace (Z.pred (Z.of_nat (S n))) with (Z.of_nat n) by lia.
    destruct (Z.testbit (softirq_pending s) k) eqn:Ek.
    + destruct fuel as [|fuel]; [lia|]. rewrite filter_cons_True by done.
      assert (Hk2 : 0 ≤ k < NR_SOFTIRQS) by lia.
      destruct (serve_quiet s k Hq Hk2 Hw) as (Hw1 & Hs1 & Hb1).
      rewrite (internal_step _ s k Hq Hk2)
        by (apply ffs_at; [done|unfold NR_SOFTIRQS in *; lia|done|done]).
      destruct (IH fuel (serve s k) (Z.succ k)) as (s' & Hrun & -> & Hsv & Hb & Hw'); try done; try lia.
      { intros i Hi. rewrite Hb1 by lia. destruct (decide (i = k)) as [->|].
        - by rewrite bool_decide_true, andb_false_r.
        - by rewrite Hlow by lia. }
      eexists. split_and!; [exact Hrun| |congruence| |done].
      * simpl. f_equal. apply list_filter_ext_seqZ. intros i Hi. rewrite Hb1 by lia.
        rewrite bool_decide_false by lia. by rewrite andb_true_r.
      * intros i Hi. rewrite Hb, Hb1 by lia. destruct (decide (i = k)) as [->|].
        -- rewrite (proj2 (Z.leb_gt _ _)) by lia. by rewrite !andb_false_r.
        -- by rewrite bool_decide_false, andb_true_r.
    + rewrite filter_cons_False by congruence. apply IH; try done; try lia.
      intros i Hi. destruct (decide (i = k)) as [->|]; [done|]. apply Hlow. lia.
Qed.

(** One pass serves the pending softirqs in order and leaves none. *)
Lemma internal_spec fuel s : quiet → word 64 (softirq_pending s) → (2 ≤ fuel)%nat →
  ∃ s', do_softirq_internal fuel hs cpu_id s = Some s'
    ∧ s' = foldl serve s (pending_list (softirq_pending s))
    ∧ softirq_servicing s' = softirq_servicing s
    ∧ (∀ i, 0 ≤ i → Z.testbit (softirq_pending s') i
        = Z.testbit (softirq_pending s) i && (NR_SOFTIRQS <=? i))
    ∧ word 64 (softirq_pending s').
Proof using bspec Hlim. intros. apply (internal_from 2 fuel s 0); (done || lia). Qed.

(** do_softirq does nothing while softirqs are already being served on the
    CPU. Otherwise it terminates, has run the handler of each pending softirq
    exactly once, lowest number first and with its pending bit already
    cleared, leaves none of them pending and the other bits alone, and allows
    softirqs to be served again. *)
Theorem do_softirq_serves fuel s : quiet → word 64 (softirq_pending s) → (2 ≤ fuel)%nat →
  ∃ s', do_softirq fuel hs cpu_id s = Some s'
    ∧ (softirq_servicing s ≠ 0 → s' = s)
    ∧ (softirq_servicing s = 0 →
         s' = (foldl serve (s⟨softirq_servicing := 1⟩)
                 (pending_list (softirq_pending s)))⟨softirq_servicing := 0⟩
         ∧ ∀ i, 0 ≤ i → Z.testbit (softirq_pending s') i
             = Z.testbit (softirq_pending s) i && (NR_SOFTIRQS <=? i)).
Proof using bspec Hlim.
  intros Hq Hw Hf. unfold do_softirq. destruct (Z.eqb_spec (softirq_servicing s) 0) as [E|E].
  - cbv zeta. set (s0 := s⟨softirq_servicing := 1⟩).
    destruct (internal_spec fuel s0 Hq Hw Hf) as (s1 & -> & Es & _ & Hb & Hw1).
    cbn [mbind option_bind]. rewrite internal_done; [|done|].
    + cbn [mbind option_bind]. eexists. split_and!; [done|done|]. intros _. split; [by rewrite Es|].
      exact Hb.
    + intros i Hi. rewrite Hb by lia. rewrite (proj2 (Z.leb_gt _ _)) by lia. apply andb_false_r.
  - eexists. split_and!; [done|done|done].
Qed.
End facts.

(** The timer softirq counts its runs. *)
Lemma do_softirq_serves_witness :
  let hs : handlers Z := λ nr, Some (λ cpu s, s⟨world := world s + 10 ^ nr⟩) in
  ∃ s', do_softirq (ops := riscv_bitmap) 2 hs 0 (mk_softirq 7 0 0) = Some s'
    ∧ softirq_servicing s' = 0.
Proof.
  intros hs. destruct (do_softirq_serves (ops := riscv_bitmap) 31 ltac:(done) hs 0 2 (mk_softirq 7 0 0))
    as (s' & H1 & _ & H2).
  - intros nr Hnr. eexists. split; [reflexivity|]. intros s. split; reflexivity.
  - split; [discriminate|reflexivity].
  - lia.
  - exists s'. split; [exact H1|]. destruct (H2 eq_refl) as [-> _]. reflexivity.
Defined.

End Softirq.

(** ** Interrupts *)

Module Irq.

Definition NR_IRQS : Z := 256.
Definition IRQ_INVALID : Z := 0xffffffff.
Definition IRQF_NONE : Z := 0.
Definition IRQF_LEVEL : Z := 2.
Definition IRQF_PT : Z := 4.
Definition EINVAL : Z := 22.
Definition EBUSY : Z := 16.

(** struct irq_desc; an action is named by a number, [None] is NULL. *)
Record irq_desc := mk_irq_desc {
  irq : Z;
  action : option nat;
  priv_data : Z;
  flags : Z;
}.
#[export] Instance eta_irq_desc : Eta irq_desc :=
  MkEta _ (rd mk_irq_desc <*> irq <*> action <*> priv_data <*> flags).

(** The descriptors, the allocation and reservation bitmaps, the interrupt
    counts of the CPU, and the actions called so far with their arguments. *)
Record irqs := mk_irqs {
  irq_desc_array : list irq_desc;
  irq_alloc_bitmap : list Z;
  irq_rsvd_bitmap : list Z;
  irq_count : list Z;
  called : list (nat * Z * Z);
}.
#[export] Instance eta_irqs : Eta irqs :=
  MkEta _ (rd mk_irqs <*> irq_desc_array <*> irq_alloc_bitmap <*> irq_rsvd_bitmap
             <*> irq_count <*> called).

(** [op((uint16_t)(irq & 0x3FU), map + (irq >> 6U))] *)
Definition upd_bit (op : Z → Z → Z) (i : Z) (map : list Z) : list Z :=
  let k := Z.to_nat (Z.shiftr i 6) in <[k := op (i &&& 63) (nth k map 0)]> map.

Section irq.
Context {ops : BitmapOps}.
(** The architecture's part of request_irq (true on RISC-V). *)
Variable request_irq_arch : Z → bool.

Definition test_map (i : Z) (map : list Z) : bool :=
  bitmap_test (i &&& 63) (nth (Z.to_nat (Z.shiftr i 6)) map 0).

(** [None] is a read past the end of the bitmap. *)
Definition alloc_irq_num (req_irq : Z) (reserve : bool) (s : irqs) : option (irqs * Z) :=
  if (NR_IRQS <=? req_irq) && negb (req_irq =? IRQ_INVALID) then Some (s, IRQ_INVALID)
  else
    i ← (if req_irq =? IRQ_INVALID
         then r ← ffz64_ex (irq_alloc_bitmap s) NR_IRQS; Some (u32 r) else Some req_irq);
    if NR_IRQS <=? i then Some (s, IRQ_INVALID)
    else
      let s := s⟨irq_alloc_bitmap := upd_bit bitmap_set_nolock i (irq_alloc_bitmap s)⟩ in
      let s := if reserve
               then s⟨irq_rsvd_bitmap := upd_bit bitmap_set_nolock i (irq_rsvd_bitmap s)⟩
               else s in
      Some (s, i).

Definition reserve_irq_num (i : Z) (s : irqs) : option (irqs * Z) := alloc_irq_num i true s.

Definition free_irq_num (i : Z) (s : irqs) : irqs :=
  if i <? NR_IRQS then
    if negb (test_map i (irq_rsvd_bitmap s))
    then s⟨irq_alloc_bitmap := upd_bit bitmap_clear_nolock i (irq_alloc_bitmap s)⟩
    else s
  else s.

Definition desc_of (i : Z) (s : irqs) : option irq_desc := irq_desc_array s !! Z.to_nat i.
Definition set_desc (i : Z) (d : irq_desc) (s : irqs) : irqs :=
  s⟨irq_desc_array := <[Z.to_nat i := d]> (irq_desc_array s)⟩.

Definition free_irq (i : Z) (s : irqs) : option irqs :=
  if i <? NR_IRQS then
    desc ← desc_of i s;
    Some (free_irq_num i
            (set_desc i (desc⟨action := None⟩⟨priv_data := 0⟩⟨flags := IRQF_NONE⟩) s))
  else Some s.

Definition request_irq (req_irq : Z) (action_fn : nat) (pd fl : Z) (s : irqs)
    : option (irqs * Z) :=
  '(s, i) ← alloc_irq_num req_irq false s;
  if i =? IRQ_INVALID then Some (s, - EINVAL)
  else if negb (request_irq_arch i) then Some (free_irq_num i s, - EINVAL)
  else
    desc ← desc_of i s;
    match action desc with
    | None =>
        Some (set_desc i (desc⟨flags := fl⟩⟨priv_data := pd⟩⟨action := Some action_fn⟩) s, i)
    | Some _ => Some (s, - EBUSY)
    end.

Definition set_irq_trigger_mode (i : Z) (is_level_triggered : bool) (s : irqs) : option irqs :=
  if i <? NR_IRQS then
    desc ← desc_of i s;
    Some (set_desc i
      (if is_level_triggered then desc⟨flags := flags desc ||| IRQF_LEVEL⟩
       else desc⟨flags := flags desc &&& bnot 32 IRQF_LEVEL⟩) s)
  else Some s.

Definition handle_irq (desc : irq_desc) (s : irqs) : irqs :=
  match action desc with
  | Some a => s⟨called := called s ++ [(a, irq desc, priv_data desc)]⟩
  | None => s
  end.

(** do_irq up to the call of do_softirq. *)
Definition dispatch (i : Z) (s : irqs) : option irqs :=
  if i <? NR_IRQS then
    desc ← desc_of i s;
    let k := Z.to_nat i in
    let s := s⟨irq_count := <[k := u64 (nth k (irq_count s) 0 + 1)]> (irq_count s)⟩ in
    Some (if test_map i (irq_alloc_bitmap s) then handle_irq desc s else s)
  else Some s.

Definition do_irq {W} (fuel : nat) (hs : Softirq.handlers W) (cpu_id i : Z)
    (s : irqs * Softirq.softirq W) : option (irqs * Softirq.softirq W) :=
  q ← dispatch i s.1;
  f ← Softirq.do_softirq fuel hs cpu_id s.2;
  Some (q, f).

(** init_irq_descs: number the descriptors. *)
Definition init_irq_descs (s : irqs) : irqs :=
  s⟨irq_desc_array := imap (λ i d, d⟨irq := Z.of_nat i⟩) (irq_desc_array s)⟩.
End irq.


(** *** Well-formed interrupt state *)

Record irqs_wf (s : irqs) : Prop := {
  iq_desc : length (irq_desc_array s) = 256%nat;
  iq_alloc : length (irq_alloc_bitmap s) = 4%nat ∧ Forall (word 64) (irq_alloc_bitmap s);
  iq_rsvd : length (irq_rsvd_bitmap s) = 4%nat ∧ Forall (word 64) (irq_rsvd_bitmap s);
}.

Definition allocated (s : irqs) (i : Z) : Prop := bit_at (irq_alloc_bitmap s) i = true.
Definition reserved (s : irqs) (i : Z) : Prop := bit_at (irq_rsvd_bitmap s) i = true.

Section bits.
Context {ops : BitmapOps} {bspec : BitmapSpec ops 64} {bnolock : BitmapNolockSpec ops}.

Lemma index_split i : 0 ≤ i → Z.shiftr i 6 = i / 64 ∧ (i &&& 63) = i mod 64.
Proof.
  intros Hi. split; [by rewrite Z.shiftr_div_pow2|].
  change 63 with (Z.ones 6). by rewrite Z.land_ones.
Qed.

Lemma test_map_spec i map : 0 ≤ i → Forall (word 64) map → test_map i map = bit_at map i.
Proof using bspec.
  intros Hi Hm. unfold test_map, bit_at. destruct (index_split i Hi) as [-> ->].
  apply bs_test; [apply Z.mod_pos_bound; lia|].
  destruct (nth_in_or_default (Z.to_nat (i / 64)) map 0) as [Hin|E].
  - by eapply (proj1 (List.Forall_forall _ _)) in Hm.
  - rewrite E. unfold word. lia.
Qed.

(** Updating one bit of a bitmap. *)
Lemma upd_bit_spec (op : Z → Z → Z) (f : bool → bool) i map :
  (∀ nr w, 0 ≤ nr < 64 → word 64 w → word 64 (op nr w)) →
  (∀ nr w j, 0 ≤ nr < 64 → word 64 w → 0 ≤ j →
     Z.testbit (op nr w) j = if decide (j = nr) then f (Z.testbit w j) else Z.testbit w j) →
  0 ≤ i < 64 * Z.of_nat (length map) → Forall (word 64) map →
  length (upd_bit op i map) = length map ∧ Forall (word 64) (upd_bit op i map)
  ∧ ∀ j, 0 ≤ j → bit_at (upd_bit op i map) j
         = if decide (j = i) then f (bit_at map i) else bit_at map j.
Proof.
  intros Hw Ht Hi Hm. unfold upd_bit. destruct (index_split i ltac:(lia)) as [-> ->].
  set (k := Z.to_nat (i / 64)).
  assert (Hk : (k < length map)%nat).
  { unfold k. apply Nat2Z.inj_lt. rewrite Z2Nat.id by (apply Z.div_pos; lia).
    apply Z.div_lt_upper_bound; lia. }
  assert (Hmod := Z.mod_pos_bound i 64 ltac:(lia)).
  assert (Hnk : word 64 (nth k map 0)).
  { apply (proj1 (List.Forall_forall _ _) Hm), nth_In, Hk. }
  split_and!.
  - apply length_insert.
  - apply Forall_insert; auto.
  - intros j Hj. unfold bit_at. fold k.
    destruct (decide (Z.to_nat (j / 64) = k)) as [Ej|Ej].
    + rewrite Ej. rewrite nth_lookup, list_lookup_insert_eq by done. simpl.
      rewrite Ht by (apply Z.mod_pos_bound || done; lia).
      assert (j / 64 = i / 64).
      { unfold k in Ej. apply Z2Nat.inj in Ej; [done|apply Z.div_pos; lia..]. }
      pose proof (Z.div_mod j 64 ltac:(lia)). pose proof (Z.div_mod i 64 ltac:(lia)).
      destruct (decide (j mod 64 = i mod 64)) as [Em|Em], (decide (j = i)) as [->|]; try lia; try done.
    + rewrite !nth_lookup, list_lookup_insert_ne by done.
      rewrite decide_False; [done|]. intros ->. by destruct Ej.
Qed.

Lemma set_bit_spec i map : 0 ≤ i < 64 * Z.of_nat (length map) → Forall (word 64) map →
  let map' := upd_bit bitmap_set_nolock i map in
  length map' = length map ∧ Forall (word 64) map'
  ∧ ∀ j, 0 ≤ j → bit_at map' j = if decide (j = i) then true else bit_at map j.
Proof using bspec bnolock.
  intros Hi Hm. apply (upd_bit_spec bitmap_set_nolock (λ _, true)); [..|done|done].
  - intros. rewrite bn_set. by apply bs_set_word.
  - intros nr w j Hnr Hw Hj. rewrite bn_set, bs_set by done.
    case_bool_decide; [rewrite decide_True by done; by rewrite orb_true_r|].
    rewrite decide_False by done. by rewrite orb_false_r.
Qed.

Lemma clear_bit_spec i map : 0 ≤ i < 64 * Z.of_nat (length map) → Forall (word 64) map →
  let map' := upd_bit bitmap_clear_nolock i map in
  length map' = length map ∧ Forall (word 64) map'
  ∧ ∀ j, 0 ≤ j → bit_at map' j = if decide (j = i) then false else bit_at map j.
Proof using bspec bnolock.
  intros Hi Hm. apply (upd_bit_spec bitmap_clear_nolock (λ _, false)); [..|done|done].
  - intros. rewrite bn_clear. by apply bs_clear_word.
  - intros nr w j Hnr Hw Hj. rewrite bn_clear, bs_clear by done.
    case_bool_decide; [rewrite decide_True by done; by rewrite andb_false_r|].
    rewrite decide_False by done. by rewrite andb_true_r.
Qed.
End bits.


(** *** Finding a free number *)

Lemma x86_ffz64_ex_loop p : ∀ idx size, Forall (word 64) p → 0 ≤ idx →
  size = 64 * (idx + Z.of_nat (length p)) → size < 2 ^ 32 →
  ∃ r, X86Bits.ffz64_ex_loop p idx size = Some (64 * idx + r)
    ∧ is_next (λ i, negb (bit_at p i)) 0 (64 * Z.of_nat (length p)) r.
Proof.
  induction p as [|w p IH]; intros idx size Hp Hidx Hsz Hlt; simpl X86Bits.ffz64_ex_loop;
    rewrite Z.shiftl_mul_pow2 by lia; change (2 ^ 6) with 64; simpl length in *.
  - rewrite (proj2 (Z.ltb_ge _ _)) by lia. exists 0. split; [f_equal; lia|].
    split; [lia|]. split; [intros; lia|lia].
  - apply Forall_cons in Hp as [Hw Hp]. rewrite (proj2 (Z.ltb_lt _ _)) by lia.
    destruct (Z.eqb_spec w (Z.ones 64)) as [->|Hne]; cbn [negb].
    + destruct (IH (idx + 1) size Hp) as (r & -> & Hr & Hb & Ht); [lia|lia|lia|].
      exists (64 + r). split; [f_equal; lia|]. split; [lia|]. split.
      * intros i Hi. destruct (Z.lt_ge_cases i 64).
        -- rewrite bit_at_head, Z.ones_spec_low by lia. done.
        -- rewrite bit_at_tail by lia. apply Hb. lia.
      * intros Hlt'. rewrite bit_at_tail by lia. replace (64 + r - 64) with r by lia. apply Ht. lia.
    + destruct (ffz64_spec w Hw Hne) as (Hr & Ht & Hf).
      assert (E : X86Bits.ffz64 w = ctz 64 (bnot 64 w)).
      { unfold X86Bits.ffz64, X86Bits.ffs64. rewrite (proj2 (Z.eqb_neq _ _)).
        - unfold u16. apply Z.mod_small. lia.
        - intros E. apply Hne. by apply (bnot_zero 64 w ltac:(lia) Hw). }
      exists (ctz 64 (bnot 64 w)). rewrite E. split.
      { f_equal. rewrite u64_id by (unfold word; lia). lia. }
      split; [lia|]. split.
      * intros i Hi. rewrite bit_at_head, Hf by lia. done.
      * intros _. rewrite bit_at_head, Ht by lia. done.
Qed.

Section properties.
#[local] Existing Instance x86_bitmap.

(** With the bit operations of x86, asking for any interrupt number yields
    the lowest one that is not allocated and allocates it and no other, and
    IRQ_INVALID exactly when all 256 are taken, in which case nothing changes. *)
Theorem alloc_irq_lowest_free s : irqs_wf s →
  ∃ s' i, alloc_irq_num IRQ_INVALID false s = Some (s', i) ∧ irqs_wf s'
    ∧ ((i = IRQ_INVALID ∧ s' = s ∧ ∀ j, 0 ≤ j < NR_IRQS → allocated s j)
       ∨ (0 ≤ i < NR_IRQS ∧ ¬ allocated s i ∧ (∀ j, 0 ≤ j < i → allocated s j)
          ∧ ∀ j, 0 ≤ j → allocated s' j ↔ allocated s j ∨ j = i)).
Proof.
  intros [Hd [Hal Haw] Hr]. unfold alloc_irq_num.
  change ((NR_IRQS <=? IRQ_INVALID) && negb (IRQ_INVALID =? IRQ_INVALID)) with false.
  change (IRQ_INVALID =? IRQ_INVALID) with true. cbv iota.
  destruct (x86_ffz64_ex_loop (irq_alloc_bitmap s) 0 NR_IRQS Haw) as (r & Hrun & Hb & Hlow & Hhit);
    [lia|rewrite Hal; done|done|].
  simpl. unfold X86Bits.ffz64_ex. rewrite Hrun. cbn [mbind option_bind].
  rewrite Hal in Hb, Hhit. unfold u32. rewrite Z.mod_small by lia. unfold NR_IRQS, allocated.
  destruct (Z.leb_spec 256 (64 * 0 + r)).
  - eexists _, _. split_and!; [done|done|]. left. split_and!; [done|done|].
    intros j Hj. specialize (Hlow j ltac:(lia)). by apply negb_false_iff.
  - destruct (set_bit_spec (64 * 0 + r) (irq_alloc_bitmap s)) as (Hl & Hw & Hbit); [lia|done|].
    eexists _, _. split_and!; [done| |].
    + split; [done|split; [exact (eq_trans Hl Hal)|exact Hw]|done].
    + right. replace (64 * 0 + r) with r in * by lia. split_and!; [lia|lia| | |].
      * specialize (Hhit ltac:(lia)). apply negb_true_iff in Hhit. congruence.
      * intros j Hj. specialize (Hlow j ltac:(lia)). by apply negb_false_iff.
      * intros j Hj. simpl. rewrite Hbit by done. case_decide; naive_solver.
Qed.

Definition ex_irqs : irqs :=
  mk_irqs (imap (λ i _, mk_irq_desc (Z.of_nat i) None 0 0) (replicate 256 ()))
    [Z.ones 64; 5; 0; 0] [0; 0; 0; 0] (replicate 256 0) [].

Lemma ex_irqs_wf : irqs_wf ex_irqs.
Proof. split; [done|split; [done|solve_words]|split; [done|solve_words]]. Qed.

Lemma alloc_irq_lowest_free_witness :
  ∃ s' i, alloc_irq_num IRQ_INVALID false ex_irqs = Some (s', i) ∧ irqs_wf s'.
Proof.
  destruct (alloc_irq_lowest_free ex_irqs ex_irqs_wf) as (s' & i & H1 & H2 & _).
  exists s', i. auto.
Defined.

Lemma dispatch_spec i d s : irqs_wf s → 0 ≤ i < NR_IRQS → desc_of i s = Some d →
  ∃ s', dispatch i s = Some s'
    ∧ called s' = called s ++
        (if bit_at (irq_alloc_bitmap s) i
         then match action d with Some a => [(a, irq d, priv_data d)] | None => [] end
         else []).
Proof.
  intros [_ [_ Haw] _] Hi Hd. unfold dispatch. rewrite (proj2 (Z.ltb_lt _ _)) by lia.
  rewrite Hd. cbn [mbind option_bind]. eexists. split; [done|]. cbn [irq_alloc_bitmap].
  rewrite test_map_spec by (done || lia). unfold handle_irq.
  destruct (bit_at _ i); [destruct (action d)|]; by rewrite ?app_nil_r.
Qed.

Lemma alloc_given i q : 0 ≤ i < NR_IRQS → alloc_irq_num i false q
  = Some (q⟨irq_alloc_bitmap := upd_bit bitmap_set_nolock i (irq_alloc_bitmap q)⟩, i).
Proof.
  intros Hi. unfold alloc_irq_num, NR_IRQS, IRQ_INVALID in *.
  rewrite (proj2 (Z.leb_gt _ _)), (proj2 (Z.eqb_neq _ _)) by lia. cbn [andb mbind option_bind].
  by rewrite (proj2 (Z.leb_gt _ _)) by lia.
Qed.

Lemma alloc_given_wf i q : irqs_wf q → 0 ≤ i < NR_IRQS →
  let q' := q⟨irq_alloc_bitmap := upd_bit bitmap_set_nolock i (irq_alloc_bitmap q)⟩ in
  irqs_wf q' ∧ bit_at (irq_alloc_bitmap q') i = true.
Proof.
  intros [Hd [Hal Haw] Hr] Hi. unfold NR_IRQS in Hi.
  destruct (set_bit_spec i (irq_alloc_bitmap q)) as (Hl & Hw & Hb); [lia|done|].
  split; [split; [done|split; [exact (eq_trans Hl Hal)|exact Hw]|done]|].
  cbn [irq_alloc_bitmap]. rewrite Hb by lia. by rewrite decide_True.
Qed.

Lemma clear_wf i q : irqs_wf q → 0 ≤ i < NR_IRQS →
  let q' := q⟨irq_alloc_bitmap := upd_bit bitmap_clear_nolock i (irq_alloc_bitmap q)⟩ in
  irqs_wf q' ∧ ¬ allocated q' i.
Proof.
  intros [Hd [Hal Haw] Hr] Hi. unfold NR_IRQS in Hi.
  destruct (clear_bit_spec i (irq_alloc_bitmap q)) as (Hl & Hw & Hb); [lia|done|].
  split; [split; [done|split; [exact (eq_trans Hl Hal)|exact Hw]|done]|].
  unfold allocated. cbn [irq_alloc_bitmap]. rewrite Hb by lia. by rewrite decide_True.
Qed.

Lemma set_desc_wf i d q : irqs_wf q → irqs_wf (set_desc i d q).
Proof. intros [Hd Ha Hr]. split; [|done|done]. simpl. by rewrite length_insert. Qed.

Lemma desc_of_set i d q : irqs_wf q → 0 ≤ i < NR_IRQS → desc_of i (set_desc i d q) = Some d.
Proof.
  intros [Hd _ _] Hi. unfold NR_IRQS in Hi. unfold desc_of, set_desc. simpl.
  apply list_lookup_insert_eq. lia.
Qed.

(** The life of an interrupt, with the bit operations of x86: request_irq on
    a free descriptor returns its number; from then on do_irq calls exactly the
    registered action, with the number and the private data given, and a
    second request fails with -EBUSY; after free_irq of an unreserved number
    do_irq calls nothing and the number is free again. *)
Theorem irq_request_dispatch_free arch i a pd fl d s :
  irqs_wf s → 0 ≤ i < NR_IRQS → arch i = true →
  desc_of i s = Some d → action d = None → irq d = i → ¬ reserved s i →
  ∃ s1 s2 s3 s4, request_irq arch i a pd fl s = Some (s1, i)
    ∧ dispatch i s1 = Some s2 ∧ called s2 = called s1 ++ [(a, i, pd)]
    ∧ (∃ s', ∀ a' pd' fl', request_irq arch i a' pd' fl' s1 = Some (s', - EBUSY))
    ∧ free_irq i s1 = Some s3 ∧ ¬ allocated s3 i
    ∧ dispatch i s3 = Some s4 ∧ called s4 = called s3.
Proof.
  intros Hwf Hi Ha Hd Hact Hirq Hres.
  set (q1 := s⟨irq_alloc_bitmap := upd_bit bitmap_set_nolock i (irq_alloc_bitmap s)⟩).
  destruct (alloc_given_wf i s Hwf Hi) as [Hw1 Hb1]. fold q1 in Hw1, Hb1.
  set (d1 := d⟨flags := fl⟩⟨priv_data := pd⟩⟨action := Some a⟩). set (s1 := set_desc i d1 q1).
  assert (Hw1' : irqs_wf s1) by by apply set_desc_wf.
  assert (Hd1 : desc_of i s1 = Some d1) by by apply desc_of_set.
  destruct (dispatch_spec i d1 s1 Hw1' Hi Hd1) as (s2 & Hrun2 & Hc2).
  set (d3 := d1⟨action := None⟩⟨priv_data := 0⟩⟨flags := IRQF_NONE⟩).
  set (s3 := (set_desc i d3 s1)⟨irq_alloc_bitmap :=
    upd_bit bitmap_clear_nolock i (irq_alloc_bitmap s1)⟩).
  destruct (clear_wf i (set_desc i d3 s1)) as [Hw3 Hb3]; [by apply set_desc_wf|done|].
  change (irqs_wf s3) in Hw3. change (¬ allocated s3 i) in Hb3.
  assert (Hd3 : desc_of i s3 = Some d3) by (by apply (desc_of_set i d3 s1)).
  destruct (dispatch_spec i d3 s3 Hw3 Hi Hd3) as (s4 & Hrun4 & Hc4).
  exists s1, s2, s3, s4. split_and!; [|done| | | |done|done|].
  - unfold request_irq. rewrite alloc_given by done. cbn [mbind option_bind]. fold q1.
    rewrite (proj2 (Z.eqb_neq _ _)) by (unfold NR_IRQS, IRQ_INVALID in *; lia). rewrite Ha. cbn [negb].
    change (desc_of i q1) with (desc_of i s). rewrite Hd. cbn [mbind option_bind]. by rewrite Hact.
  - rewrite Hc2. change (irq_alloc_bitmap s1) with (irq_alloc_bitmap q1). rewrite Hb1. simpl.
    by rewrite Hirq.
  - eexists. intros a' pd' fl'. unfold request_irq. rewrite alloc_given by done.
    cbn [mbind option_bind]. rewrite (proj2 (Z.eqb_neq _ _)) by (unfold NR_IRQS, IRQ_INVALID in *; lia).
    rewrite Ha. cbn [negb]. match goal with |- context [desc_of i ?x] => change (desc_of i x) with (desc_of i s1) end.
    rewrite Hd1. done.
  - unfold free_irq. rewrite (proj2 (Z.ltb_lt _ _)) by lia. rewrite Hd1. cbn [mbind option_bind].
    fold d3. f_equal. unfold free_irq_num. rewrite (proj2 (Z.ltb_lt _ _)) by lia.
    change (irq_rsvd_bitmap (set_desc i d3 s1)) with (irq_rsvd_bitmap s).
    rewrite test_map_spec by (apply Hwf || lia). unfold reserved in Hres.
    by destruct (bit_at (irq_rsvd_bitmap s) i).
  - rewrite Hc4. unfold allocated in Hb3. destruct (bit_at (irq_alloc_bitmap s3) i); [done|].
    by rewrite app_nil_r.
Qed.

Lemma irq_request_dispatch_free_witness :
  ∃ s1 s2, request_irq (λ _, true) 70 3 99 0 ex_irqs = Some (s1, 70)
    ∧ dispatch 70 s1 = Some s2 ∧ called s2 = called s1 ++ [(3%nat, 70, 99)].
Proof.
  destruct (irq_request_dispatch_free (λ _, true) 70 3 99 0 (mk_irq_desc 70 None 0 0) ex_irqs)
    as (s1 & s2 & s3 & s4 & H1 & H2 & H3 & _).
  - apply ex_irqs_wf.
  - split; [discriminate|reflexivity].
  - reflexivity.
  - vm_compute. reflexivity.
  - reflexivity.
  - reflexivity.
  - vm_compute. discriminate.
  - exists s1, s2. auto.
Defined.
End properties.

(** *** RISC-V *)

(** The operations that manage interrupts. *)
Inductive irq_op :=
  | OpReserve (i : Z)
  | OpRequest (i : Z) (a : nat) (pd fl : Z)
  | OpFree (i : Z)
  | OpTrigger (i : Z) (level : bool)
  | OpDispatch (i : Z).

Definition irq_exec {ops : BitmapOps} (op : irq_op) (s : irqs) : option irqs :=
  match op with
  | OpReserve i => '(s, _) ← reserve_irq_num i s; Some s
  | OpRequest i a pd fl => '(s, _) ← request_irq (λ _, true) i a pd fl s; Some s
  | OpFree i => free_irq i s
  | OpTrigger i l => set_irq_trigger_mode i l s
  | OpDispatch i => dispatch i s
  end.

Fixpoint irq_exec_all {ops : BitmapOps} (l : list irq_op) (s : irqs) : option irqs :=
  match l with
  | [] => Some s
  | op :: l => s ← irq_exec op s; irq_exec_all l s
  end.

Section riscv.
#[local] Existing Instance riscv_bitmap.

Lemma upd_bit_id i map : upd_bit (λ _ w, w) i map = map.
Proof.
  unfold upd_bit. set (k := Z.to_nat _). destruct (decide (k < length map)%nat).
  - apply list_insert_id. rewrite nth_lookup.
    by destruct (lookup_lt_is_Some_2 map k l) as [x ->].
  - apply list_insert_ge. lia.
Qed.

Lemma rv_alloc_inert i b s s' r : alloc_irq_num i b s = Some (s', r) →
  irq_alloc_bitmap s' = irq_alloc_bitmap s ∧ called s' = called s
  ∧ irq_desc_array s' = irq_desc_array s.
Proof.
  unfold alloc_irq_num. case_if; [by intros [= <- <-]|].
  destruct (if i =? IRQ_INVALID then _ else _) as [x|]; [|done]. cbn [mbind option_bind].
  case_if; [by intros [= <- <-]|]. intros [= <- <-].
  case_if; simpl; (split_and!; [apply upd_bit_id|done|done]).
Qed.

Lemma rv_free_num_inert i s : irq_alloc_bitmap (free_irq_num i s) = irq_alloc_bitmap s
  ∧ called (free_irq_num i s) = called s.
Proof.
  unfold free_irq_num. repeat case_if; try done. split; [apply upd_bit_id|done].
Qed.

Lemma rv_exec_inert op s s' : Forall (λ w, w = 0) (irq_alloc_bitmap s) →
  irq_exec op s = Some s' →
  Forall (λ w, w = 0) (irq_alloc_bitmap s') ∧ called s' = called s.
Proof.
  intros Hz. destruct op as [i|i a pd fl|i|i l|i]; simpl.
  - unfold reserve_irq_num. destruct (alloc_irq_num i true s) as [[s1 r]|] eqn:E; [|done].
    intros [= <-]. by apply rv_alloc_inert in E as (-> & -> & _).
  - unfold request_irq. destruct (alloc_irq_num i false s) as [[s1 r]|] eqn:E; [|done].
    apply rv_alloc_inert in E as (Ea & Ec & _). cbn [mbind option_bind negb].
    case_if; [intros [= <-]; by rewrite Ea, Ec|].
    destruct (desc_of r s1) as [d|]; [|done]. cbn [mbind option_bind].
    destruct (action d); intros [= <-]; simpl; by rewrite Ea, Ec.
  - unfold free_irq. case_if; [|by intros [= <-]]. destruct (desc_of i s); [|done].
    intros [= <-]. destruct (rv_free_num_inert i (set_desc i (i0⟨action := None⟩⟨priv_data := 0⟩⟨flags := IRQF_NONE⟩) s)) as [-> ->].
    done.
  - unfold set_irq_trigger_mode. case_if; [|by intros [= <-]]. destruct (desc_of i s); [|done].
    by intros [= <-].
  - unfold dispatch. case_if; [|by intros [= <-]]. destruct (desc_of i s); [|done].
    intros [= <-]. cbn [irq_alloc_bitmap]. unfold test_map.
    replace (nth _ _ 0) with 0; [done|].
    destruct (nth_in_or_default (Z.to_nat (Z.shiftr i 6)) (irq_alloc_bitmap s) 0) as [Hin|Hd0].
    + by eapply (proj1 (List.Forall_forall _ _)) in Hz; [symmetry|].
    + done.
Qed.

(** On RISC-V bitmap_set_nolock is an empty stub, so the allocation bitmap
    stays zero and do_irq never calls an action, whatever interrupts have been
    reserved and requested. *)
Theorem riscv_irq_never_dispatched l s s' :
  Forall (λ w, w = 0) (irq_alloc_bitmap s) → irq_exec_all l s = Some s' →
  called s' = called s.
Proof.
  revert s. induction l as [|op l IH]; simpl; intros s Hz; [by intros [= <-]|].
  destruct (irq_exec op s) as [s1|] eqn:E; [|done]. cbn [mbind option_bind].
  apply (rv_exec_inert op s s1 Hz) in E as [Hz1 Hc]. intros Hrun.
  rewrite <- Hc. by apply IH.
Qed.

Lemma riscv_irq_never_dispatched_witness :
  ∃ s', irq_exec_all [OpRequest 10 3 99 0; OpDispatch 10]
          (ex_irqs⟨irq_alloc_bitmap := [0; 0; 0; 0]⟩) = Some s' ∧ called s' = [].
Proof.
  destruct (irq_exec_all [OpRequest 10 3 99 0; OpDispatch 10]
    (ex_irqs⟨irq_alloc_bitmap := [0; 0; 0; 0]⟩)) as [s'|] eqn:E; [|vm_compute in E; discriminate].
  exists s'. split; [reflexivity|].
  rewrite (riscv_irq_never_dispatched _ _ _) with (2 := E); [reflexivity|].
  cbn. repeat constructor.
Defined.
End riscv.

End Irq.
