(* ===== verification/Sbuf.v ===== *)
(** * The shared ring buffer (sbuf)

    The writer is hypervisor/common/sbuf.c, the reader
    misc/debug_tools/acrn_trace/sbuf.c in the Service VM, the header layout
    struct shared_buf of hypervisor/include/public/acrn_common.h, and the
    table of buffers hypervisor/debug/sbuf.c. Offsets and counts are 32-bit.
    The refinement theorem relates the ring to a bounded queue of elements. *)

From S2P Require Import Prelude.

Definition OVERRUN_CNT_EN : Z := 1.
Definition OVERWRITE_EN : Z := 2.
Definition EINVAL : Z := 22.

(** struct shared_buf, followed in memory by the [raw] bytes. *)
Record shared_buf := mk_sbuf {
  ele_num : Z;
  ele_size : Z;
  head_ : Z;
  tail_ : Z;
  flags : Z;
  overrun_cnt : Z;
  size : Z;
  raw : list Z;
}.
#[export] Instance eta_sbuf : Eta shared_buf :=
  MkEta _ (rd mk_sbuf <*> ele_num <*> ele_size <*> head_ <*> tail_ <*> flags
             <*> overrun_cnt <*> size <*> raw).

Definition sbuf_next_ptr (pos_arg span scope : Z) : Z :=
  let pos := u32 (pos_arg + span) in
  if scope <=? pos then u32 (pos - scope) else pos.

(** memcpy to and from the bytes behind the header; [None] is an access past
    the end of the buffer. *)
Definition store (off : Z) (d : list Z) (mem : list Z) : option (list Z) :=
  if off + Z.of_nat (length d) <=? Z.of_nat (length mem)
  then Some (take (Z.to_nat off) mem ++ d ++ drop (Z.to_nat off + length d) mem) else None.
Definition load (off n : Z) (mem : list Z) : option (list Z) :=
  if off + n <=? Z.of_nat (length mem)
  then Some (take (Z.to_nat n) (drop (Z.to_nat off) mem)) else None.

Definition sbuf_put (data : list Z) (sb : shared_buf) : option (shared_buf * Z) :=
  let next_tail := sbuf_next_ptr (tail_ sb) (ele_size sb) (size sb) in
  if (next_tail =? head_ sb) && negb (nonzero (flags sb &&& OVERWRITE_EN)) then Some (sb, 0)
  else
    let trigger_overwrite := next_tail =? head_ sb in
    let sb := if trigger_overwrite
              then sb⟨overrun_cnt := u32 (overrun_cnt sb + (flags sb &&& OVERRUN_CNT_EN))⟩
              else sb in
    mem ← store (tail_ sb) (take (Z.to_nat (ele_size sb)) data) (raw sb);
    let sb := sb⟨raw := mem⟩ in
    let sb := if trigger_overwrite
              then sb⟨head_ := sbuf_next_ptr (head_ sb) (ele_size sb) (size sb)⟩ else sb in
    let sb := sb⟨tail_ := next_tail⟩ in
    Some (sb, ele_size sb).

Definition sbuf_is_empty (sb : shared_buf) : bool := head_ sb =? tail_ sb.

(** The element read, if any, and the return value. *)
Definition sbuf_get (sb : shared_buf) : option (shared_buf * option (list Z) * Z) :=
  if sbuf_is_empty sb then Some (sb, None, 0)
  else
    data ← load (head_ sb) (ele_size sb) (raw sb);
    let sb := sb⟨head_ := sbuf_next_ptr (head_ sb) (ele_size sb) (size sb)⟩ in
    Some (sb, Some data, ele_size sb).

(** sbuf_write on a file descriptor whose write(2) returns [written n] for a
    request of [n] bytes; the element written, if any. *)
Definition sbuf_write (written : Z → Z) (sb : shared_buf)
    : option (shared_buf * option (list Z) * Z) :=
  if sbuf_is_empty sb then Some (sb, None, 0)
  else
    data ← load (head_ sb) (ele_size sb) (raw sb);
    if negb (written (ele_size sb) =? ele_size sb) then Some (sb, None, -1)
    else
      let sb := sb⟨head_ := sbuf_next_ptr (head_ sb) (ele_size sb) (size sb)⟩ in
      Some (sb, Some data, ele_size sb).

Definition sbuf_clear_buffered (sb : shared_buf) : shared_buf := sb⟨head_ := tail_ sb⟩.

(** ** The table of buffers *)

Definition ACRN_SBUF_PER_PCPU_ID_MAX : Z := 4.

(** [per_cpu(sbuf, pcpu_id)[sbuf_id]], absent when NULL. *)
Definition sbuf_share_setup (pcpu_nums pcpu_id sbuf_id hva : Z) (m : gmap (Z * Z) Z)
    : gmap (Z * Z) Z * Z :=
  if (pcpu_nums <=? pcpu_id) || (ACRN_SBUF_PER_PCPU_ID_MAX <=? sbuf_id) then (m, - EINVAL)
  else (<[(pcpu_id, sbuf_id) := hva]> m, 0).

Fixpoint sbuf_reset_cpu (ids : list Z) (pcpu_id : Z) (m : gmap (Z * Z) Z) : gmap (Z * Z) Z :=
  match ids with
  | [] => m
  | id :: ids => sbuf_reset_cpu ids pcpu_id (delete (pcpu_id, id) m)
  end.

Fixpoint sbuf_reset_cpus (cpus : list Z) (m : gmap (Z * Z) Z) : gmap (Z * Z) Z :=
  match cpus with
  | [] => m
  | c :: cpus => sbuf_reset_cpus cpus (sbuf_reset_cpu (seqZ 0 ACRN_SBUF_PER_PCPU_ID_MAX) c m)
  end.

Definition sbuf_reset (pcpu_nums : Z) (m : gmap (Z * Z) Z) : gmap (Z * Z) Z :=
  sbuf_reset_cpus (seqZ 0 pcpu_nums) m.

(** ** The ring as a bounded queue *)

(** What the Service VM sets up: [n] elements of [es] bytes each, positions at
    element boundaries. *)
Record ring_wf (n es : nat) (h t : nat) (sb : shared_buf) : Prop := {
  rw_n : (2 ≤ n)%nat;
  rw_es : (0 < es)%nat;
  rw_fit : Z.of_nat (n * es) + Z.of_nat es < 2 ^ 32;
  rw_ele : ele_size sb = Z.of_nat es;
  rw_size : size sb = Z.of_nat (n * es);
  rw_h : (h < n)%nat;
  rw_t : (t < n)%nat;
  rw_head : head_ sb = Z.of_nat (h * es);
  rw_tail : tail_ sb = Z.of_nat (t * es);
  rw_raw : length (raw sb) = (n * es)%nat;
}.

Definition chunk (es k : nat) (mem : list Z) : list Z := take es (drop (k * es) mem).

(** The number of elements between head and tail, and the elements. *)
Definition count (n h t : nat) : nat := ((t + n - h) mod n)%nat.
Definition contents (n es h t : nat) (mem : list Z) : list (list Z) :=
  (λ i, chunk es ((h + i) mod n)%nat mem) <$> seq 0 (count n h t).

(** A queue that holds at most [cap] elements; when full it refuses an element
    or, in overwrite mode, drops the oldest. *)
Definition queue_put (cap : nat) (overwrite : bool) (v : list Z) (q : list (list Z))
    : list (list Z) * bool :=
  if decide (length q < cap)%nat then (q ++ [v], true)
  else if overwrite then (tail q ++ [v], true) else (q, false).

(** [sb] stands for the queue [q]. *)
Definition represents (n es : nat) (sb : shared_buf) (q : list (list Z)) : Prop :=
  ∃ h t, ring_wf n es h t sb ∧ q = contents n es h t (raw sb).

(** *** Index arithmetic *)

Lemma mod_wrap x n : (x < 2 * n)%nat → (x mod n)%nat = if decide (x < n)%nat then x else (x - n)%nat.
Proof.
  intros Hx. destruct (decide (x < n)%nat); [by apply Nat.mod_small|].
  symmetry. apply (Nat.mod_unique _ _ 1); lia.
Qed.

Lemma count_eq n h t : (h < n)%nat → (t < n)%nat →
  count n h t = if decide (h ≤ t)%nat then (t - h)%nat else (t + n - h)%nat.
Proof. intros Hh Ht. unfold count. rewrite mod_wrap by lia. repeat case_decide; lia. Qed.

Lemma succ_mod n k : (k < n)%nat → (S k mod n)%nat = if decide (S k = n) then 0%nat else S k.
Proof. intros Hk. rewrite mod_wrap by lia. repeat case_decide; lia. Qed.

(** Positions relative to the head. *)
Lemma ring_facts n h t : (2 ≤ n)%nat → (h < n)%nat → (t < n)%nat →
  let c := count n h t in
  (c < n)%nat ∧ ((h + c) mod n)%nat = t
  ∧ (S t mod n = h ↔ c = n - 1)%nat
  ∧ (∀ i, (i < c)%nat → ((h + i) mod n)%nat ≠ t)
  ∧ ((c < n - 1)%nat → count n h (S t mod n) = S c)
  ∧ ((0 < c)%nat → count n (S h mod n) t = (c - 1)%nat)
  ∧ (h = t ↔ c = 0%nat).
Proof.
  intros Hn Hh Ht. cbv zeta. rewrite (count_eq n h t), !(succ_mod n) by done.
  split_and!.
  - case_decide; lia.
  - rewrite mod_wrap; repeat case_decide; lia.
  - repeat case_decide; lia.
  - intros i Hi. rewrite mod_wrap; repeat case_decide; lia.
  - intros Hc. rewrite count_eq; repeat case_decide; lia.
  - intros Hc. rewrite count_eq; repeat case_decide; lia.
  - repeat case_decide; lia.
Qed.

Lemma next_ptr_spec n es h t sb k : ring_wf n es h t sb → (k < n)%nat →
  sbuf_next_ptr (Z.of_nat (k * es)) (ele_size sb) (size sb) = Z.of_nat (S k mod n * es).
Proof.
  intros [] Hk. unfold sbuf_next_ptr. rewrite rw_ele0, rw_size0, succ_mod by done.
  rewrite (u32_id (_ + _)) by (unfold word; nia).
  destruct (decide (S k = n)) as [<-|].
  - rewrite (proj2 (Z.leb_le _ _)) by lia. rewrite u32_id by (unfold word; nia). lia.
  - rewrite (proj2 (Z.leb_gt _ _)) by nia. lia.
Qed.

(** *** Storing and loading elements *)

Lemma chunk_store es n k v mem : length v = es → length mem = (n * es)%nat → (k < n)%nat →
  ∃ mem', store (Z.of_nat (k * es)) v mem = Some mem' ∧ length mem' = length mem
    ∧ (∀ j, (j < n)%nat → chunk es j mem' = if decide (j = k) then v else chunk es j mem).
Proof.
  intros Hv Hm Hk. unfold store. rewrite (proj2 (Z.leb_le _ _)) by nia.
  rewrite Nat2Z.id. eexists. split; [done|].
  assert (Hlen : length (take (k * es) mem) = (k * es)%nat) by (rewrite length_take; nia).
  split.
  { rewrite !length_app, Hlen, length_drop. nia. }
  intros j Hj. unfold chunk. apply list_eq. intros i.
  destruct (decide (i < es)%nat) as [Hi|Hi].
  2: { rewrite !lookup_take_ge by lia. case_decide; [|by rewrite lookup_take_ge by lia].
       symmetry. apply lookup_ge_None_2. lia. }
  rewrite !lookup_take_lt, lookup_drop by done.
  destruct (decide (j = k)) as [->|Hjk].
  - rewrite lookup_app_r by (rewrite Hlen; lia). rewrite Hlen, lookup_app_l by lia. f_equal. lia.
  - rewrite lookup_take_lt, lookup_drop by done. destruct (decide (j < k)%nat).
    + rewrite lookup_app_l by (rewrite Hlen; nia). by rewrite lookup_take_lt by nia.
    + rewrite lookup_app_r by (rewrite Hlen; nia).
      rewrite Hlen, lookup_app_r by nia. rewrite lookup_drop. f_equal. nia.
Qed.

Lemma chunk_load es n k mem : length mem = (n * es)%nat → (k < n)%nat →
  load (Z.of_nat (k * es)) (Z.of_nat es) mem = Some (chunk es k mem).
Proof.
  intros Hm Hk. unfold load, chunk. rewrite (proj2 (Z.leb_le _ _)) by nia. by rewrite !Nat2Z.id.
Qed.

Lemma contents_length n es h t mem : length (contents n es h t mem) = count n h t.
Proof. unfold contents. by rewrite length_fmap, length_seq. Qed.

Lemma contents_snoc n es h t t' mem mem' v :
  count n h t' = S (count n h t) → chunk es ((h + count n h t) mod n)%nat mem' = v →
  (∀ i, (i < count n h t)%nat → chunk es ((h + i) mod n)%nat mem' = chunk es ((h + i) mod n)%nat mem) →
  contents n es h t' mem' = contents n es h t mem ++ [v].
Proof.
  intros Hc Hv Hold. unfold contents. rewrite Hc, seq_S, fmap_app. simpl. f_equal; [|by rewrite Hv].
  apply list_fmap_ext. intros i x Hx. apply lookup_seq in Hx as [-> Hi]. apply Hold. lia.
Qed.

Lemma contents_cons n es h t mem : (0 < n)%nat → (0 < count n h t)%nat → (h < n)%nat →
  count n (S h mod n) t = (count n h t - 1)%nat →
  contents n es h t mem = chunk es h mem :: contents n es (S h mod n) t mem.
Proof.
  intros Hn Hc Hh Hc'. unfold contents. rewrite Hc'.
  replace (count n h t) with (S (count n h t - 1)) at 1 by lia. simpl.
  rewrite Nat.add_0_r, Nat.mod_small by done. f_equal.
  rewrite <- (fmap_S_seq 0), <- list_fmap_compose. apply list_fmap_ext.
  intros i x _. simpl. f_equal. rewrite Nat.Div0.add_mod_idemp_l. f_equal. lia.
Qed.

(** *** The operations *)

Definition overwrites (sb : shared_buf) : bool := nonzero (flags sb &&& OVERWRITE_EN).

Lemma next_is_head n es h t sb : ring_wf n es h t sb →
  (sbuf_next_ptr (tail_ sb) (ele_size sb) (size sb) =? head_ sb)
  = bool_decide (S t mod n = h)%nat.
Proof.
  intros Hw. pose proof Hw as []. rewrite rw_tail0, (next_ptr_spec n es h t), rw_head0 by done.
  case_bool_decide as E; [apply Z.eqb_eq; by rewrite E|].
  apply Z.eqb_neq. intros E'. apply E. nia.
Qed.

(** An element is appended to a ring that is not full. *)
Lemma put_room n es h t sb v : ring_wf n es h t sb → length v = es → (S t mod n ≠ h)%nat →
  ∃ sb', sbuf_put v sb = Some (sb', Z.of_nat es) ∧ flags sb' = flags sb
    ∧ ring_wf n es h (S t mod n) sb'
    ∧ contents n es h (S t mod n) (raw sb') = contents n es h t (raw sb) ++ [v].
Proof.
  intros Hw Hv Hroom. pose proof Hw as [].
  destruct (ring_facts n h t) as (Hc & Hct & Hfull & Hne & Hinc & _); [done..|].
  destruct (chunk_store es n t v (raw sb) Hv rw_raw0 rw_t0) as (mem' & Hst & Hlen & Hch).
  unfold sbuf_put. rewrite (next_is_head n es h t), bool_decide_false by done. cbn [andb].
  cbv zeta. rewrite rw_ele0, Nat2Z.id, firstn_all2, rw_tail0, Hst by lia. cbn [mbind option_bind].
  eexists. split; [f_equal; apply (f_equal2 pair); [reflexivity|exact rw_ele0]|].
  split; [done|]. split.
  - split; simpl; try done; [apply Nat.mod_upper_bound; lia| |congruence].
    rewrite <- rw_ele0. by eapply next_ptr_spec.
  - simpl. apply contents_snoc.
    + apply Hinc. destruct (decide (count n h t = n - 1)%nat) as [E|]; [tauto|lia].
    + rewrite Hct, Hch by done. by rewrite decide_True.
    + intros i Hi. rewrite Hch by (apply Nat.mod_upper_bound; lia).
      rewrite decide_False by auto. done.
Qed.

(** The oldest element of a full ring is overwritten. *)
Lemma put_overwrite n es h t sb v : ring_wf n es h t sb → length v = es →
  (S t mod n = h)%nat → overwrites sb = true →
  ∃ sb', sbuf_put v sb = Some (sb', Z.of_nat es) ∧ flags sb' = flags sb
    ∧ ring_wf n es (S h mod n) (S t mod n) sb'
    ∧ contents n es (S h mod n) (S t mod n) (raw sb') = tail (contents n es h t (raw sb)) ++ [v]
    ∧ overrun_cnt sb' = u32 (overrun_cnt sb + (flags sb &&& OVERRUN_CNT_EN)).
Proof.
  intros Hw Hv Hfl Hov. pose proof Hw as [].
  assert (Hh' : (S h mod n < n)%nat) by (apply Nat.mod_upper_bound; lia).
  destruct (ring_facts n h t) as (Hc & Hct & Hfull & Hne & _ & Hdec & _); [done..|].
  destruct (ring_facts n (S h mod n) t) as (_ & Hct' & _ & Hne' & Hinc' & _); [done..|].
  apply Hfull in Hfl as Hcn. specialize (Hdec ltac:(lia)).
  destruct (chunk_store es n t v (raw sb) Hv rw_raw0 rw_t0) as (mem' & Hst & Hlen & Hch).
  unfold sbuf_put. rewrite (next_is_head n es h t), bool_decide_true by done.
  unfold overwrites in Hov. rewrite Hov. cbn [andb negb]. cbv zeta.
  set (sb0 := sb⟨overrun_cnt := _⟩). change (ele_size sb0) with (ele_size sb).
  change (tail_ sb0) with (tail_ sb). change (raw sb0) with (raw sb).
  rewrite rw_ele0, Nat2Z.id, firstn_all2, rw_tail0, Hst by lia. cbn [mbind option_bind].
  eexists. split; [f_equal; apply (f_equal2 pair); [reflexivity|exact rw_ele0]|].
  split; [done|]. split_and!.
  - split; simpl; try done; [apply Nat.mod_upper_bound; lia| | |congruence].
    + rewrite rw_head0. by eapply next_ptr_spec.
    + rewrite <- rw_ele0. by eapply next_ptr_spec.
  - simpl. rewrite (contents_cons n es h t (raw sb)) by (done || lia). simpl.
    apply contents_snoc.
    + apply Hinc'. lia.
    + rewrite Hct', Hch by done. by rewrite decide_True.
    + intros i Hi. rewrite Hch by (apply Nat.mod_upper_bound; lia).
      rewrite decide_False by auto. done.
  - done.
Qed.

Lemma put_refines n es sb q v : represents n es sb q → length v = es →
  ∃ sb' r, sbuf_put v sb = Some (sb', r) ∧ flags sb' = flags sb
    ∧ represents n es sb' (queue_put (n - 1) (overwrites sb) v q).1
    ∧ r = (if (queue_put (n - 1) (overwrites sb) v q).2 then Z.of_nat es else 0).
Proof.
  intros (h & t & Hw & ->) Hv. unfold queue_put. rewrite contents_length.
  destruct (ring_facts n h t) as (Hc & _ & Hfull & _); [apply Hw..|].
  destruct (decide (S t mod n = h)%nat) as [Hfl|Hroom].
  - apply Hfull in Hfl as Hcn. rewrite decide_False by lia. destruct (overwrites sb) eqn:Eo.
    + destruct (put_overwrite n es h t sb v) as (sb' & Hrun & ? & Hw' & Hq & _); [done..|].
      eexists _, _. split_and!; [done|done|by eexists _, _|done].
    + eexists sb, 0. split_and!; [|done|by exists h, t|done].
      unfold sbuf_put, overwrites in *. rewrite (next_is_head n es h t), bool_decide_true by done.
      by rewrite Eo.
  - rewrite decide_True by (destruct (decide (count n h t = n - 1)%nat) as [E|]; [tauto|lia]).
    destruct (put_room n es h t sb v) as (sb' & Hrun & ? & Hw' & Hq); [done..|].
    eexists _, _. split_and!; [done|done|by eexists _, _|done].
Qed.

Lemma get_refines n es sb q : represents n es sb q →
  ∃ sb', sbuf_get sb = Some (sb', head q, if decide (q = []) then 0 else Z.of_nat es)
    ∧ flags sb' = flags sb ∧ represents n es sb' (tail q).
Proof.
  intros (h & t & Hw & ->). pose proof Hw as [].
  destruct (ring_facts n h t) as (Hc & _ & _ & _ & _ & Hdec & Hemp); [done..|].
  unfold sbuf_get, sbuf_is_empty. rewrite rw_head0, rw_tail0.
  destruct (Z.eqb_spec (Z.of_nat (h * es)) (Z.of_nat (t * es))) as [E|E].
  - assert (h = t) as Eh by nia. assert (En : contents n es h t (raw sb) = []).
    { apply nil_length_inv. rewrite contents_length. tauto. }
    rewrite En. exists sb. split_and!; [done|done|]. exists h, t. by rewrite En.
  - assert (count n h t ≠ 0%nat) by (intros Hz; apply Hemp in Hz as ->; done).
    rewrite rw_ele0, (chunk_load es n h (raw sb)) by done. cbn [mbind option_bind].
    rewrite (contents_cons n es h t) by (lia || auto with lia). simpl.
    eexists. split_and!; [f_equal; apply (f_equal2 pair); [reflexivity|exact rw_ele0]|done|]. exists (S h mod n)%nat, t. split; [|done].
    split; simpl; try done; [apply Nat.mod_upper_bound; lia|].
    rewrite <- rw_ele0. by eapply next_ptr_spec.
Qed.

(** ** Runs of the writer and the reader *)

Inductive sbuf_op := SPut (v : list Z) | SGet | SClear.

(** The element delivered, if any, and the return value. *)
Definition sbuf_exec (op : sbuf_op) (sb : shared_buf) : option (shared_buf * (option (list Z) * Z)) :=
  match op with
  | SPut v => '(sb, r) ← sbuf_put v sb; Some (sb, (None, r))
  | SGet => '(sb, x, r) ← sbuf_get sb; Some (sb, (x, r))
  | SClear => Some (sbuf_clear_buffered sb, (None, 0))
  end.

Definition queue_exec (cap es : nat) (ow : bool) (op : sbuf_op) (q : list (list Z))
    : list (list Z) * (option (list Z) * Z) :=
  match op with
  | SPut v => let '(q, ok) := queue_put cap ow v q in
              (q, (None, if (ok : bool) then Z.of_nat es else 0))
  | SGet => (tail q, (head q, if decide (q = []) then 0 else Z.of_nat es))
  | SClear => ([], (None, 0))
  end.

Fixpoint sbuf_run (l : list sbuf_op) (sb : shared_buf)
    : option (shared_buf * list (option (list Z) * Z)) :=
  match l with
  | [] => Some (sb, [])
  | op :: l => '(sb, o) ← sbuf_exec op sb; '(sb, os) ← sbuf_run l sb; Some (sb, o :: os)
  end.

Fixpoint queue_run (cap es : nat) (ow : bool) (l : list sbuf_op) (q : list (list Z))
    : list (list Z) * list (option (list Z) * Z) :=
  match l with
  | [] => (q, [])
  | op :: l => let '(q, o) := queue_exec cap es ow op q in
               let '(q, os) := queue_run cap es ow l q in (q, o :: os)
  end.

Definition op_fits (es : nat) (op : sbuf_op) : Prop :=
  match op with SPut v => length v = es | _ => True end.

Lemma exec_refines n es sb q op : represents n es sb q → op_fits es op →
  ∃ sb', sbuf_exec op sb = Some (sb', (queue_exec (n - 1) es (overwrites sb) op q).2)
    ∧ flags sb' = flags sb ∧ represents n es sb' (queue_exec (n - 1) es (overwrites sb) op q).1.
Proof.
  intros Hr Hf. destruct op as [v| |]; simpl in *.
  - destruct (put_refines n es sb q v Hr Hf) as (sb' & r & -> & Hfl & Hr' & ->).
    cbn [mbind option_bind]. destruct (queue_put _ _ _ _) as [q' ok]. eauto.
  - destruct (get_refines n es sb q Hr) as (sb' & -> & ? & ?). cbn [mbind option_bind]. eauto.
  - eexists. split_and!; [done|done|]. destruct Hr as (h & t & Hw & ->). pose proof Hw as [].
    exists t, t. split; [by split|].
    symmetry. apply nil_length_inv. rewrite contents_length, count_eq by done.
    rewrite decide_True by lia. lia.
Qed.

(** C25: The shared buffer implements a bounded queue: any sequence of sbuf_put
    by the hypervisor and sbuf_get and sbuf_clear_buffered by the reader, on a
    buffer of [n] elements, stays inside the buffer and delivers exactly the
    elements and return values of a first-in first-out queue of capacity
    [n - 1], which when full refuses elements or, with OVERWRITE_EN, drops the
    oldest one. *)
Theorem sbuf_refines_queue n es l : ∀ sb q,
  represents n es sb q → Forall (op_fits es) l →
  ∃ sb', sbuf_run l sb = Some (sb', (queue_run (n - 1) es (overwrites sb) l q).2)
    ∧ represents n es sb' (queue_run (n - 1) es (overwrites sb) l q).1.
Proof.
  induction l as [|op l IH]; simpl; intros sb q Hr Hf; [eauto|].
  apply Forall_cons in Hf as [Hop Hf].
  destruct (exec_refines n es sb q op Hr Hop) as (sb1 & Hrun & Hfl & Hr1). rewrite Hrun.
  cbn [mbind option_bind]. destruct (queue_exec _ _ _ op q) as [q1 o]. simpl in *.
  destruct (IH sb1 q1 Hr1 Hf) as (sb2 & -> & Hr2). cbn [mbind option_bind].
  unfold overwrites in *. rewrite Hfl in *. destruct (queue_run _ _ _ l q1) as [q2 os]. eauto.
Qed.

Definition ex_sbuf (fl : Z) : shared_buf := mk_sbuf 3 2 4 4 fl 0 6 [0; 0; 0; 0; 0; 0].

Lemma sbuf_refines_queue_witness :
  ∃ sb', sbuf_run [SPut [1; 2]; SPut [3; 4]; SPut [5; 6]; SGet; SGet; SGet] (ex_sbuf 0)
    = Some (sb', [(None, 2); (None, 2); (None, 0); (Some [1; 2], 2); (Some [3; 4], 2); (None, 0)]).
Proof.
  destruct (sbuf_refines_queue 3 2 [SPut [1; 2]; SPut [3; 4]; SPut [5; 6]; SGet; SGet; SGet]
    (ex_sbuf 0) []) as (sb' & Hrun & _).
  - exists 2%nat, 2%nat. split; [split; simpl; lia|reflexivity].
  - repeat constructor.
  - exists sb'. exact Hrun.
Defined.
