(* ===== verification/Vuart.v ===== *)
(** * The virtual UART

    hypervisor/dm/vuart.c with include/dm/vuart.h and the register layout of
    include/debug/uart16550.h: the receive and transmit FIFOs, the 16550
    register interface of the guests, the link between the vuarts of two VMs,
    and their set-up and tear-down. The state is the table of all vuarts, the
    vuart configuration, and the trace of calls into the interrupt controllers,
    newest first. Locks are not modelled: each operation is one step. [None] is
    undefined behaviour of the C code: a NULL dereference, a division by zero
    or an access outside a FIFO buffer. *)

From S2P Require Import Prelude.

Definition RX_BUF_SIZE : Z := 256.
Definition TX_BUF_SIZE : Z := 8192.
Definition INVALID_COM_BASE : Z := 0.
Definition CONFIG_MAX_VM_NUM : Z := 6.
Definition MAX_VUART_NUM_PER_VM : Z := 2.
Definition UART_CLOCK_RATE : Z := 1843200.
Definition BAUD_115200 : Z := 115200.

Definition UART16550_RBR : Z := 0.
Definition UART16550_THR : Z := 0.
Definition UART16550_DLL : Z := 0.
Definition UART16550_IER : Z := 1.
Definition UART16550_DLM : Z := 1.
Definition UART16550_IIR : Z := 2.
Definition UART16550_FCR : Z := 2.
Definition UART16550_LCR : Z := 3.
Definition UART16550_MCR : Z := 4.
Definition UART16550_LSR : Z := 5.
Definition UART16550_MSR : Z := 6.
Definition UART16550_SCR : Z := 7.

Definition IIR_FIFO_MASK : Z := 0xc0.
Definition IIR_RXTOUT : Z := 0x0c.
Definition IIR_RLS : Z := 0x06.
Definition IIR_TXRDY : Z := 0x02.
Definition IIR_NOPEND : Z := 0x01.
Definition IIR_MLSC : Z := 0x00.
Definition IER_EMSC : Z := 0x08.
Definition IER_ELSI : Z := 0x04.
Definition IER_ETBEI : Z := 0x02.
Definition IER_ERBFI : Z := 0x01.
Definition LCR_DLAB : Z := 2 ^ 7.
Definition LSR_TEMT : Z := 2 ^ 6.
Definition LSR_THRE : Z := 2 ^ 5.
Definition LSR_OE : Z := 2 ^ 1.
Definition LSR_DR : Z := 2 ^ 0.
Definition MCR_LOOPBACK : Z := 2 ^ 4.
Definition MCR_OUT2 : Z := 2 ^ 3.
Definition MCR_OUT1 : Z := 2 ^ 2.
Definition MCR_RTS : Z := 2 ^ 1.
Definition MCR_DTR : Z := 2 ^ 0.
Definition MSR_DCD : Z := 2 ^ 7.
Definition MSR_RI : Z := 2 ^ 6.
Definition MSR_DSR : Z := 2 ^ 5.
Definition MSR_CTS : Z := 2 ^ 4.
Definition MSR_DDCD : Z := 2 ^ 3.
Definition MSR_TERI : Z := 2 ^ 2.
Definition MSR_DDSR : Z := 2 ^ 1.
Definition MSR_DCTS : Z := 2 ^ 0.
Definition MSR_DELTA_MASK : Z := 0x0F.
Definition FCR_RX_MASK : Z := 0xc0.
Definition FCR_DMA : Z := 2 ^ 3.
Definition FCR_RFR : Z := 2 ^ 1.
Definition FCR_FIFOE : Z := 2 ^ 0.

(** ** FIFOs *)

(** [buf] is the array the field points to once [init_fifo] has run. The
    pointer and [size] are only ever set together, so NULL is [size = 0]. *)
Record vuart_fifo := mk_fifo {
  buf : list Z;
  rindex : Z;
  windex : Z;
  num : Z;
  size : Z;
}.
#[export] Instance eta_fifo : Eta vuart_fifo :=
  MkEta _ (rd mk_fifo <*> buf <*> rindex <*> windex <*> num <*> size).

Definition reset_fifo (f : vuart_fifo) : vuart_fifo :=
  f⟨rindex := 0⟩⟨windex := 0⟩⟨num := 0⟩.

Definition fifo_putchar (ch : Z) (f : vuart_fifo) : option vuart_fifo :=
  if (size f =? 0) || (Z.of_nat (length (buf f)) <=? windex f) then None
  else
    let f := f⟨buf := <[Z.to_nat (windex f) := ch]> (buf f)⟩ in
    if num f <? size f then
      let f := f⟨windex := u32 (windex f + 1) mod size f⟩ in
      Some f⟨num := u32 (num f + 1)⟩
    else
      let f := f⟨rindex := u32 (rindex f + 1) mod size f⟩ in
      Some f⟨windex := u32 (windex f + 1) mod size f⟩.

(** A [char] is its byte; [-1] is 0xFF. *)
Definition fifo_getchar (f : vuart_fifo) : option (vuart_fifo * Z) :=
  if 0 <? num f then
    if size f =? 0 then None
    else
      c ← buf f !! Z.to_nat (rindex f);
      let f := f⟨rindex := u32 (rindex f + 1) mod size f⟩ in
      Some (f⟨num := u32 (num f - 1)⟩, c)
  else Some (f, 0xFF).

Definition fifo_numchars (f : vuart_fifo) : Z := num f.
Definition fifo_isfull (f : vuart_fifo) : bool := u32 (size f - num f) <? 64.

(** ** The vuarts *)

(** [&vm->vuart[i]]: the VM id and the index. *)
Definition vid : Type := Z * Z.

Record acrn_vuart := mk_vuart {
  ier : Z;
  lcr : Z;
  mcr : Z;
  lsr : Z;
  msr : Z;
  fcr : Z;
  scr : Z;
  dll : Z;
  dlh : Z;
  rxfifo : vuart_fifo;
  txfifo : vuart_fifo;
  port_base : Z;
  irq : Z;
  thre_int_pending : bool;
  active : bool;
  target_vu : option vid;
  vm : option Z;
  vdev : option Z;
}.
#[export] Instance eta_vuart : Eta acrn_vuart :=
  MkEta _ (rd mk_vuart <*> ier <*> lcr <*> mcr <*> lsr <*> msr <*> fcr <*> scr
             <*> dll <*> dlh <*> rxfifo <*> txfifo <*> port_base <*> irq
             <*> thre_int_pending <*> active <*> target_vu <*> vm <*> vdev).

(** A vuart in zero-initialised memory. *)
Definition zero_vuart : acrn_vuart :=
  mk_vuart 0 0 0 0 0 0 0 0 0
    (mk_fifo (replicate (Z.to_nat RX_BUF_SIZE) 0) 0 0 0 0)
    (mk_fifo (replicate (Z.to_nat TX_BUF_SIZE) 0) 0 0 0 0)
    0 0 false false None None None.
#[export] Instance vuart_inhabited : Inhabited acrn_vuart := populate zero_vuart.

Inductive vuart_type := VUART_LEGACY_PIO | VUART_PCI.
#[export] Instance vuart_type_eq_dec : EqDecision vuart_type.
Proof. solve_decision. Defined.

Record vuart_config := mk_config {
  type : vuart_type;
  cfg_port_base : Z;
  cfg_irq : Z;
  t_vuart : vid;
}.
#[export] Instance eta_config : Eta vuart_config :=
  MkEta _ (rd mk_config <*> type <*> cfg_port_base <*> cfg_irq <*> t_vuart).
#[export] Instance config_inhabited : Inhabited vuart_config :=
  populate (mk_config VUART_LEGACY_PIO 0 0 (0, 0)).

Inductive gsi_op := GSI_SET_HIGH | GSI_SET_LOW.
#[export] Instance gsi_op_eq_dec : EqDecision gsi_op.
Proof. solve_decision. Defined.

(** Calls to other components. *)
Inductive effect :=
  | vpic_set_irqline (vm irq : Z) (op : gsi_op)
  | vioapic_set_irqline (vm irq : Z) (op : gsi_op)
  | trigger_vmcs9900_msix (vdev : Z)
  | register_pio_emulation_handler (vm idx base : Z).

Record world := mk_world {
  vuarts : gmap vid acrn_vuart;
  configs : gmap vid vuart_config;
  trace : list effect;
}.
#[export] Instance eta_world : Eta world :=
  MkEta _ (rd mk_world <*> vuarts <*> configs <*> trace).

Definition vu_at (w : world) (v : vid) : acrn_vuart := vuarts w !!! v.
Definition set_vu (v : vid) (u : acrn_vuart) (w : world) : world :=
  w⟨vuarts := <[v := u]> (vuarts w)⟩.
Definition emit (e : effect) (w : world) : world := w⟨trace := e :: trace w⟩.

Definition init_fifo (u : acrn_vuart) : acrn_vuart :=
  let u := u⟨txfifo := (txfifo u)⟨size := TX_BUF_SIZE⟩⟩ in
  let u := u⟨rxfifo := (rxfifo u)⟨size := RX_BUF_SIZE⟩⟩ in
  let u := u⟨txfifo := reset_fifo (txfifo u)⟩ in
  u⟨rxfifo := reset_fifo (rxfifo u)⟩.

Definition vuart_putchar (v : vid) (ch : Z) (w : world) : option world :=
  f ← fifo_putchar ch (rxfifo (vu_at w v));
  Some (set_vu v (vu_at w v)⟨rxfifo := f⟩ w).

Definition vuart_getchar (v : vid) (w : world) : option (world * Z) :=
  '(f, c) ← fifo_getchar (txfifo (vu_at w v));
  Some (set_vu v (vu_at w v)⟨txfifo := f⟩ w, c).

(** ** Interrupts *)

Definition vuart_intr_reason (u : acrn_vuart) : Z :=
  if nonzero (lsr u &&& LSR_OE) && nonzero (ier u &&& IER_ELSI) then IIR_RLS
  else if (0 <? fifo_numchars (rxfifo u)) && nonzero (ier u &&& IER_ERBFI) then IIR_RXTOUT
  else if thre_int_pending u && nonzero (ier u &&& IER_ETBEI) then IIR_TXRDY
  else if nonzero (msr u &&& MSR_DELTA_MASK) && nonzero (ier u &&& IER_EMSC) then IIR_MLSC
  else IIR_NOPEND.

Section vuart.
(** The polarity the guests programmed into their virtual I/O APIC: is the pin
    [irq] of VM [vm] active low? *)
Variable active_low : Z → Z → bool.

Definition line_op (m i : Z) (assert : bool) : gsi_op :=
  if active_low m i then if assert then GSI_SET_LOW else GSI_SET_HIGH
  else if assert then GSI_SET_HIGH else GSI_SET_LOW.

Definition vuart_trigger_level_intr (u : acrn_vuart) (assert : bool) (w : world)
    : option world :=
  m ← vm u;
  let operation := line_op m (irq u) assert in
  let w := emit (vpic_set_irqline m (irq u) operation) w in
  Some (emit (vioapic_set_irqline m (irq u) operation) w).

Definition vuart_toggle_intr (u : acrn_vuart) (w : world) : option world :=
  let pending := negb (vuart_intr_reason u =? IIR_NOPEND) in
  match vdev u with
  | Some d => if pending then Some (emit (trigger_vmcs9900_msix d) w)
              else vuart_trigger_level_intr u false w
  | None => vuart_trigger_level_intr u pending w
  end.

(** Store a vuart and toggle its interrupt. *)
Definition commit (v : vid) (u : acrn_vuart) (w : world) : option world :=
  vuart_toggle_intr u (set_vu v u w).

Definition find_vuart_by_port (m offset : Z) (w : world) : option vid :=
  head (filter (λ v, active (vu_at w v) ∧ port_base (vu_at w v) = offset &&& bnot 32 7)
          (pair m <$> seqZ 0 MAX_VUART_NUM_PER_VM)).

(** ** Register writes *)

(** The target after the byte, and whether its FIFO is now full. *)
Definition send_to_target (t : vid) (value_u8 : Z) (w : world) : option (world * bool) :=
  let u := vu_at w t in
  if active u then
    f ← fifo_putchar value_u8 (rxfifo u);
    w ← commit t u⟨rxfifo := f⟩ w;
    Some (w, fifo_isfull f)
  else Some (w, false).

Definition get_modem_status (mcr : Z) : Z :=
  if nonzero (mcr &&& MCR_LOOPBACK) then
    let msr := 0 in
    let msr := if nonzero (mcr &&& MCR_RTS) then msr ||| MSR_CTS else msr in
    let msr := if nonzero (mcr &&& MCR_DTR) then msr ||| MSR_DSR else msr in
    let msr := if nonzero (mcr &&& MCR_OUT1) then msr ||| MSR_RI else msr in
    if nonzero (mcr &&& MCR_OUT2) then msr ||| MSR_DCD else msr
  else MSR_DCD ||| MSR_DSR.

Definition update_modem_status (new_msr old_msr : Z) : Z :=
  let changed mask := nonzero (Z.lxor (new_msr &&& mask) (old_msr &&& mask)) in
  let m := old_msr in
  let m := if changed MSR_CTS then m ||| MSR_DCTS else m in
  let m := if changed MSR_DSR then m ||| MSR_DDSR else m in
  let m := if changed MSR_DCD then m ||| MSR_DDCD else m in
  let m := if (new_msr &&& MSR_RI =? 0) && nonzero (old_msr &&& MSR_RI)
           then m ||| MSR_TERI else m in
  (m &&& MSR_DELTA_MASK) ||| new_msr.

(** The switch of write_reg on the vuart itself. *)
Definition write_reg_switch (reg value_u8 : Z) (u : acrn_vuart) : option acrn_vuart :=
  if nonzero (lcr u &&& LCR_DLAB) && (reg =? UART16550_DLL) then Some u⟨dll := value_u8⟩
  else if nonzero (lcr u &&& LCR_DLAB) && (reg =? UART16550_DLM) then Some u⟨dlh := value_u8⟩
  else if reg =? UART16550_THR then
    u ← (if nonzero (mcr u &&& MCR_LOOPBACK) then
           f ← fifo_putchar value_u8 (rxfifo u);
           let u := u⟨rxfifo := f⟩ in
           Some u⟨lsr := lsr u ||| LSR_OE⟩
         else
           f ← fifo_putchar value_u8 (txfifo u);
           Some u⟨txfifo := f⟩);
    Some u⟨thre_int_pending := true⟩
  else if reg =? UART16550_IER then
    let u := if (ier u &&& IER_ETBEI =? 0) && nonzero (value_u8 &&& IER_ETBEI)
             then u⟨thre_int_pending := true⟩ else u in
    Some u⟨ier := value_u8 &&& 0x0F⟩
  else if reg =? UART16550_FCR then
    if value_u8 &&& FCR_FIFOE =? 0 then Some u⟨fcr := 0⟩
    else
      let u := if nonzero (value_u8 &&& FCR_RFR) then u⟨rxfifo := reset_fifo (rxfifo u)⟩ else u in
      Some u⟨fcr := value_u8 &&& (FCR_FIFOE ||| FCR_DMA ||| FCR_RX_MASK)⟩
  else if reg =? UART16550_LCR then Some u⟨lcr := value_u8⟩
  else if reg =? UART16550_MCR then
    let u := u⟨mcr := value_u8 &&& 0x1F⟩ in
    Some u⟨msr := update_modem_status (get_modem_status (mcr u)) (msr u)⟩
  else if reg =? UART16550_LSR then Some u
  else if reg =? UART16550_MSR then Some u
  else if reg =? UART16550_SCR then Some u⟨scr := value_u8⟩
  else Some u.

Definition write_reg (v : vid) (reg value_u8 : Z) (w : world) : option world :=
  u ← write_reg_switch reg value_u8 (vu_at w v);
  commit v u w.

Definition vuart_write_reg (v : vid) (offset value_u8 : Z) (w : world) : option world :=
  let u := vu_at w v in
  match target_vu u with
  | Some t =>
      if (mcr u &&& MCR_LOOPBACK =? 0) && (lcr u &&& LCR_DLAB =? 0)
         && (offset =? UART16550_THR) then
        '(w, full) ← send_to_target t value_u8 w;
        if (full : bool) then Some w
        else commit v (vu_at w v)⟨thre_int_pending := true⟩ w
      else write_reg v offset value_u8 w
  | None => write_reg v offset value_u8 w
  end.

Definition vuart_write (m offset_arg value : Z) (w : world) : option world :=
  match find_vuart_by_port m offset_arg w with
  | Some v => vuart_write_reg v (u16 (offset_arg - port_base (vu_at w v))) (u8 value) w
  | None => Some w
  end.

(** ** Register reads *)

Definition notify_target (v : vid) (w : world) : option world :=
  match target_vu (vu_at w v) with
  | Some t =>
      if negb (fifo_isfull (rxfifo (vu_at w v))) then
        commit t (vu_at w t)⟨thre_int_pending := true⟩ w
      else Some w
  | None => Some w
  end.

(** The switch of vuart_read_reg; [t_full] is whether the receive FIFO of the
    target is full, when there is a target. *)
Definition read_reg_switch (t_full : option bool) (offset : Z) (u : acrn_vuart)
    : option (acrn_vuart * Z) :=
  if nonzero (lcr u &&& LCR_DLAB) then
    Some (u, if offset =? UART16550_DLL then dll u
             else if offset =? UART16550_DLM then dlh u else 0)
  else if offset =? UART16550_RBR then
    let u := u⟨lsr := u8 (lsr u &&& bnot 32 LSR_OE)⟩ in
    '(f, c) ← fifo_getchar (rxfifo u);
    Some (u⟨rxfifo := f⟩, c)
  else if offset =? UART16550_IER then Some (u, ier u)
  else if offset =? UART16550_IIR then
    let iir := if nonzero (fcr u &&& FCR_FIFOE) then IIR_FIFO_MASK else 0 in
    let intr_reason := vuart_intr_reason u in
    let u := if intr_reason =? IIR_TXRDY then u⟨thre_int_pending := false⟩ else u in
    Some (u, iir ||| intr_reason)
  else if offset =? UART16550_LCR then Some (u, lcr u)
  else if offset =? UART16550_MCR then Some (u, mcr u)
  else if offset =? UART16550_LSR then
    let u := if bool_decide (t_full = Some true) then u
             else u⟨lsr := lsr u ||| (LSR_TEMT ||| LSR_THRE)⟩ in
    let u := if 0 <? fifo_numchars (rxfifo u) then u⟨lsr := lsr u ||| LSR_DR⟩
             else u⟨lsr := u8 (lsr u &&& bnot 32 LSR_DR)⟩ in
    Some (u⟨lsr := u8 (lsr u &&& bnot 32 LSR_OE)⟩, lsr u)
  else if offset =? UART16550_MSR then
    Some (u⟨msr := u8 (msr u &&& bnot 32 MSR_DELTA_MASK)⟩, msr u)
  else if offset =? UART16550_SCR then Some (u, scr u)
  else Some (u, 0xFF).

Definition vuart_read_reg (v : vid) (offset : Z) (w : world) : option (world * Z) :=
  let t_full := (λ t, fifo_isfull (rxfifo (vu_at w t))) <$> target_vu (vu_at w v) in
  '(u, reg) ← read_reg_switch t_full offset (vu_at w v);
  w ← commit v u w;
  w ← (if offset =? UART16550_RBR then notify_target v w else Some w);
  Some (w, reg).

(** [value] is the field of the pending request. *)
Definition vuart_read (m offset_arg value : Z) (w : world) : option (world * Z) :=
  match find_vuart_by_port m offset_arg w with
  | Some v => vuart_read_reg v (u16 (offset_arg - port_base (vu_at w v))) w
  | None => Some (w, value)
  end.

(** ** Set-up and tear-down *)

Definition vuart_register_io_handler (m base idx : Z) (w : world) : world * bool :=
  if idx <? MAX_VUART_NUM_PER_VM then
    (emit (register_pio_emulation_handler m idx base) w, true)
  else (w, false).

Definition setup_vuart (v : vid) (w : world) : option world :=
  let divisor := Z.shiftr (UART_CLOCK_RATE / BAUD_115200) 4 in
  let u := vu_at w v in
  let u := u⟨dll := u8 divisor⟩ in
  let u := u⟨dlh := u8 (Z.shiftr divisor 8)⟩ in
  let u := u⟨vm := Some v.1⟩ in
  let u := init_fifo u in
  let u := u⟨thre_int_pending := true⟩ in
  let u := u⟨ier := 0⟩ in
  w ← commit v u w;
  Some (set_vu v u⟨target_vu := None⟩ w).

Definition find_active_target_vuart (c : vuart_config) (w : world) : option vid :=
  let t := t_vuart c in
  if (t.1 <? CONFIG_MAX_VM_NUM) && (t.2 <? MAX_VUART_NUM_PER_VM) then
    if active (vu_at w t) then Some t else None
  else None.

Definition vuart_setup_connection (c : vuart_config) (v : vid) (w : world) : world :=
  if active (vu_at w v) then
    match find_active_target_vuart c w with
    | Some t =>
        match target_vu (vu_at w t) with
        | None =>
            let w := set_vu v (vu_at w v)⟨target_vu := Some t⟩ w in
            set_vu t (vu_at w t)⟨target_vu := Some v⟩ w
        | Some _ => w
        end
    | None => w
    end
  else w.

Definition vuart_deinit_connection (v : vid) (w : world) : option world :=
  t ← target_vu (vu_at w v);
  let w := set_vu t (vu_at w t)⟨target_vu := None⟩ w in
  Some (set_vu v (vu_at w v)⟨target_vu := None⟩ w).

Definition is_vuart_intx (m intx_gsi : Z) (w : world) : bool :=
  existsb (λ i, active (vu_at w (m, i)) && (irq (vu_at w (m, i)) =? intx_gsi))
    (seqZ 0 MAX_VUART_NUM_PER_VM).

(** One round of the loop of init_legacy_vuarts. *)
Definition init_legacy_vuart (m i : Z) (w : world) : option world :=
  let c := configs w !!! (m, i) in
  if bool_decide (type c = VUART_LEGACY_PIO) && negb (cfg_port_base c =? INVALID_COM_BASE) then
    w ← setup_vuart (m, i) w;
    let w := set_vu (m, i) (vu_at w (m, i))⟨port_base := cfg_port_base c⟩ w in
    let w := set_vu (m, i) (vu_at w (m, i))⟨irq := cfg_irq c⟩ w in
    let '(w, ok) := vuart_register_io_handler m (port_base (vu_at w (m, i))) i w in
    let w := if (ok : bool) then set_vu (m, i) (vu_at w (m, i))⟨active := true⟩ w else w in
    Some (if negb (i =? 0) then vuart_setup_connection c (m, i) w else w)
  else Some w.

Fixpoint each (f : Z → world → option world) (l : list Z) (w : world) : option world :=
  match l with
  | [] => Some w
  | i :: l => w ← f i w; each f l w
  end.

Definition init_legacy_vuarts (m : Z) (w : world) : option world :=
  each (init_legacy_vuart m) (seqZ 0 MAX_VUART_NUM_PER_VM) w.

Definition deinit_legacy_vuart (m i : Z) (w : world) : option world :=
  if negb (port_base (vu_at w (m, i)) =? INVALID_COM_BASE) then
    let w := set_vu (m, i) (vu_at w (m, i))⟨active := false⟩ w in
    match target_vu (vu_at w (m, i)) with
    | Some _ => vuart_deinit_connection (m, i) w
    | None => Some w
    end
  else Some w.

Definition deinit_legacy_vuarts (m : Z) (w : world) : option world :=
  each (deinit_legacy_vuart m) (seqZ 0 MAX_VUART_NUM_PER_VM) w.

(** [v] is both [vdev->priv_data] and the vuart of the VM at [vuart_idx]; [d]
    is the device and [t] the [t_vuart] of its configuration. *)
Definition init_pci_vuart (d : Z) (v t : vid) (w : world) : option world :=
  w ← setup_vuart v w;
  let w := set_vu v (vu_at w v)⟨vdev := Some d⟩ w in
  let c := (configs w !!! v)⟨type := VUART_PCI⟩ in
  let c := c⟨t_vuart := t⟩ in
  let w := w⟨configs := <[v := c]> (configs w)⟩ in
  let w := set_vu v (vu_at w v)⟨active := true⟩ w in
  Some (if negb (v.2 =? 0) then vuart_setup_connection c v w else w).

Definition deinit_pci_vuart (v : vid) (w : world) : option world :=
  let w := set_vu v (vu_at w v)⟨active := false⟩ w in
  match target_vu (vu_at w v) with
  | Some _ => vuart_deinit_connection v w
  | None => Some w
  end.
End vuart.

(** ** A FIFO as a bounded queue *)

(** The [k] elements of a ring of [n] slots from slot [r] on. *)
Definition ring (n : nat) (b : list Z) (r k : nat) : list Z :=
  (λ i, b !!! ((r + i) mod n)%nat) <$> seq 0 k.

Definition fifo_queue (f : vuart_fifo) : list Z :=
  ring (Z.to_nat (size f)) (buf f) (Z.to_nat (rindex f)) (Z.to_nat (num f)).

Record fifo_wf (N : Z) (f : vuart_fifo) : Prop := {
  fw_size : size f = N;
  fw_buf : Z.of_nat (length (buf f)) = N;
  fw_rindex : 0 ≤ rindex f < N;
  fw_num : 0 ≤ num f ≤ N;
  fw_windex : windex f = (rindex f + num f) mod N;
}.

(** A queue of at most [cap] characters; a character put on a full queue
    replaces the oldest one. *)
Definition queue_put (cap : Z) (ch : Z) (q : list Z) : list Z :=
  if Z.of_nat (length q) <? cap then q ++ [ch] else tail q ++ [ch].

Lemma ring_cons n b r k :
  ring n b r (S k) = b !!! (r mod n)%nat :: ring n b (S r mod n) k.
Proof.
  unfold ring. simpl. rewrite Nat.add_0_r. f_equal.
  rewrite <- (fmap_S_seq 0), <- list_fmap_compose. apply list_fmap_ext.
  intros i x _. simpl. f_equal. rewrite Nat.Div0.add_mod_idemp_l. f_equal. lia.
Qed.

Lemma mod_inj n r i k : (i < k)%nat → (k < n)%nat → ((r + i) mod n ≠ (r + k) mod n)%nat.
Proof.
  intros Hi Hk E. pose proof (Nat.div_mod_eq (r + i) n). pose proof (Nat.div_mod_eq (r + k) n).
  assert (n * ((r + k) / n) - n * ((r + i) / n) = k - i)%nat by lia.
  rewrite <- Nat.mul_sub_distr_l in *. destruct ((r + k) / n - (r + i) / n)%nat; nia.
Qed.

Lemma ring_snoc n b r k ch : (k < n)%nat → length b = n →
  ring n (<[((r + k) mod n)%nat := ch]> b) r (S k) = ring n b r k ++ [ch].
Proof.
  intros Hk Hb. unfold ring. rewrite seq_S, fmap_app. simpl. f_equal.
  - apply list_fmap_ext. intros i x Hx. apply lookup_seq in Hx as [-> Hi].
    apply list_lookup_total_insert_ne. apply not_eq_sym, mod_inj; lia.
  - f_equal. apply list_lookup_total_insert_eq. rewrite Hb. apply Nat.mod_upper_bound. lia.
Qed.

Lemma fifo_queue_length N f : fifo_wf N f → Z.of_nat (length (fifo_queue f)) = num f.
Proof.
  intros []. unfold fifo_queue, ring. rewrite length_fmap, length_seq. lia.
Qed.

Lemma to_nat_mod a b : 0 ≤ a → 0 < b → Z.to_nat (a mod b) = (Z.to_nat a mod Z.to_nat b)%nat.
Proof. intros. apply Z2Nat.inj_mod; lia. Qed.

Lemma fifo_putchar_spec N ch f : 0 < N < 2 ^ 32 - 1 → fifo_wf N f →
  ∃ f', fifo_putchar ch f = Some f' ∧ fifo_wf N f'
    ∧ fifo_queue f' = queue_put N ch (fifo_queue f).
Proof.
  intros HN Hf. pose proof Hf as [Hsz Hbuf Hr Hn Hw]. unfold fifo_putchar, queue_put.
  rewrite (fifo_queue_length N) by done.
  assert (Hwb : 0 ≤ windex f < N) by (rewrite Hw; apply Z.mod_pos_bound; lia).
  rewrite Hsz. zcmp. rewrite Hsz. set (b := <[_ := _]> _).
  assert (Hlen : length b = Z.to_nat N) by (unfold b; rewrite length_insert; lia).
  destruct (Z.ltb_spec (num f) N).
  - rewrite !u32_id by (unfold word; lia). eexists. split; [done|]. split.
    + split; simpl; try done; try lia. rewrite Hw, Z.add_mod_idemp_l by lia. f_equal. lia.
    + unfold fifo_queue. simpl. rewrite Hsz, Z2Nat.inj_add by lia.
      rewrite Nat.add_1_r. unfold b. rewrite Hw, to_nat_mod, Z2Nat.inj_add by lia.
      apply ring_snoc; lia.
  - assert (num f = N) as En by lia. rewrite !u32_id by (unfold word; lia).
    assert (Hwr : windex f = rindex f).
    { rewrite Hw, En. rewrite <- (Z.mul_1_l N) at 1. rewrite Z.mod_add by lia.
      apply Z.mod_small. lia. }
    eexists. split; [done|]. split.
    + split; simpl; try done; try lia; [apply Z.mod_pos_bound; lia|].
      rewrite Hwr, En, Z.add_mod_idemp_l by lia.
      rewrite <- (Z_mod_plus_full (rindex f + 1) 1 N). f_equal. lia.
    + unfold fifo_queue. simpl. rewrite Hsz, En.
      replace (Z.to_nat N) with (S (Z.to_nat N - 1)) at 2 4 by lia.
      rewrite (ring_cons _ (buf f)). cbn [tail]. rewrite to_nat_mod, Z2Nat.inj_add by lia.
      rewrite Nat.add_1_r.
      rewrite <- ring_snoc by lia. f_equal. unfold b. f_equal. rewrite Hwr.
      rewrite Nat.Div0.add_mod_idemp_l. replace (S _ + _)%nat with (Z.to_nat (rindex f) + 1 * Z.to_nat N)%nat by lia.
      rewrite Nat.Div0.mod_add. symmetry. apply Nat.mod_small. lia.
Qed.

Lemma fifo_getchar_spec N f : 0 < N < 2 ^ 32 - 1 → fifo_wf N f →
  ∃ f', fifo_getchar f = Some (f', default 0xFF (head (fifo_queue f))) ∧ fifo_wf N f'
    ∧ fifo_queue f' = tail (fifo_queue f).
Proof.
  intros HN Hf. pose proof Hf as [Hsz Hbuf Hr Hn Hw]. unfold fifo_getchar.
  destruct (Z.ltb_spec 0 (num f)).
  - rewrite Hsz. zcmp. unfold fifo_queue at 1 3.
    replace (Z.to_nat (num f)) with (S (Z.to_nat (num f) - 1)) by lia.
    rewrite ring_cons, Nat.mod_small by lia. simpl.
    rewrite (list_lookup_lookup_total_lt (buf f)) by lia. simpl.
    rewrite !u32_id by (unfold word; lia). eexists. split; [done|]. split.
    + split; simpl; try done; try lia; [apply Z.mod_pos_bound; lia|].
      rewrite Hw, Z.add_mod_idemp_l by lia. f_equal. lia.
    + unfold fifo_queue. simpl. rewrite Hsz, to_nat_mod by lia. f_equal; [|lia].
      f_equal. lia.
  - assert (En : fifo_queue f = []).
    { unfold fifo_queue. replace (Z.to_nat (num f)) with 0%nat by lia. done. }
    exists f. rewrite En. done.
Qed.

Lemma reset_fifo_wf N f : 0 < N → fifo_wf N f → fifo_wf N (reset_fifo f).
Proof. intros HN []. split; simpl; try done; lia. Qed.

Lemma reset_fifo_queue f : fifo_queue (reset_fifo f) = [].
Proof. reflexivity. Qed.

(** ** The invariant of the table of vuarts *)

Record vuart_wf (u : acrn_vuart) : Prop := {
  vw_rx : Z.of_nat (length (buf (rxfifo u))) = RX_BUF_SIZE;
  vw_tx : Z.of_nat (length (buf (txfifo u))) = TX_BUF_SIZE;
  vw_active : active u = true →
    is_Some (vm u) ∧ fifo_wf RX_BUF_SIZE (rxfifo u) ∧ fifo_wf TX_BUF_SIZE (txfifo u);
}.

(** Links are symmetric and join active vuarts. *)
Record world_inv (w : world) : Prop := {
  wi_wf : ∀ v, vuart_wf (vu_at w v);
  wi_link : ∀ v t, target_vu (vu_at w v) = Some t →
    active (vu_at w v) = true ∧ active (vu_at w t) = true ∧ target_vu (vu_at w t) = Some v;
}.

(** What register accesses leave alone. *)
Record same_link (u u' : acrn_vuart) : Prop := {
  sl_active : active u' = active u;
  sl_target : target_vu u' = target_vu u;
  sl_vm : vm u' = vm u;
  sl_vdev : vdev u' = vdev u;
  sl_irq : irq u' = irq u;
  sl_port : port_base u' = port_base u;
}.
#[export] Instance same_link_refl : Reflexive same_link.
Proof. by intros u. Qed.
#[export] Instance same_link_trans : Transitive same_link.
Proof. intros u1 u2 u3 [] []. split; congruence. Qed.

Definition thre_kept (u u' : acrn_vuart) : Prop :=
  Z.testbit (lsr u) 5 = true → Z.testbit (lsr u') 5 = true.

Lemma vu_at_set v u w x : vu_at (set_vu v u w) x = if decide (x = v) then u else vu_at w x.
Proof.
  unfold vu_at, set_vu. simpl. case_decide as E; subst.
  - apply lookup_total_insert_eq.
  - by apply lookup_total_insert_ne.
Qed.

Lemma vuart_wf_same u u' : vuart_wf u → same_link u u' →
  rxfifo u' = rxfifo u → txfifo u' = txfifo u → vuart_wf u'.
Proof.
  intros [Hr Ht Ha] [] Er Et. split; [by rewrite Er|by rewrite Et|].
  by rewrite Er, Et, sl_active0, sl_vm0.
Qed.

Lemma vuart_wf_fifo u u' : vuart_wf u → active u = true → same_link u u' →
  fifo_wf RX_BUF_SIZE (rxfifo u') → fifo_wf TX_BUF_SIZE (txfifo u') → vuart_wf u'.
Proof.
  intros [Hr Ht Ha] Hact [] Er Et. split; [apply Er|apply Et|].
  intros _. rewrite sl_vm0. destruct (Ha Hact) as [? _]. done.
Qed.

Lemma rx_size : 0 < RX_BUF_SIZE < 2 ^ 32 - 1.
Proof. done. Qed.
Lemma tx_size : 0 < TX_BUF_SIZE < 2 ^ 32 - 1.
Proof. done. Qed.

Lemma rx_put u ch : vuart_wf u → active u = true →
  ∃ f, fifo_putchar ch (rxfifo u) = Some f ∧ fifo_wf RX_BUF_SIZE f
    ∧ fifo_queue f = queue_put RX_BUF_SIZE ch (fifo_queue (rxfifo u)).
Proof. intros [_ _ Ha] Hact. apply (fifo_putchar_spec _ _ _ rx_size). by apply Ha. Qed.

Lemma tx_put u ch : vuart_wf u → active u = true →
  ∃ f, fifo_putchar ch (txfifo u) = Some f ∧ fifo_wf TX_BUF_SIZE f
    ∧ fifo_queue f = queue_put TX_BUF_SIZE ch (fifo_queue (txfifo u)).
Proof. intros [_ _ Ha] Hact. apply (fifo_putchar_spec _ _ _ tx_size). by apply Ha. Qed.

Lemma clear_bit_keeps x n i : 0 ≤ n → i ≠ n → 0 ≤ i < 8 →
  Z.testbit (u8 (x &&& bnot 32 (2 ^ n))) i = Z.testbit x i.
Proof.
  intros Hn Hi Hb. unfold u8. rewrite Z.mod_pow2_bits_low by lia.
  rewrite Z.land_spec, bnot_testbit, testbit_pow2, bool_decide_false by lia.
  rewrite (proj2 (Z.ltb_lt i 32)) by lia. by rewrite andb_true_r.
Qed.

#[local] Arguments Z.testbit : simpl never.

(** The well-formedness of [u] after assignments to its fields. *)
Ltac vuart_fields u :=
  first [ done | by apply (vuart_wf_same u) | by apply (vuart_wf_fifo u) ].

Lemma write_reg_switch_spec reg val u : vuart_wf u → active u = true →
  ∃ u', write_reg_switch reg val u = Some u' ∧ vuart_wf u' ∧ same_link u u' ∧ thre_kept u u'.
Proof.
  intros Hw Ha. pose proof (vw_active u Hw Ha) as (Hvm & Hrx & Htx).
  destruct (rx_put u val Hw Ha) as (fr & Er & Hfr & _).
  destruct (tx_put u val Hw Ha) as (ft & Et & Hft & _).
  assert (Hre : fifo_wf RX_BUF_SIZE (reset_fifo (rxfifo u))) by by apply reset_fifo_wf.
  unfold write_reg_switch. cbv zeta. rewrite Er, Et.
  repeat case_if; cbn [mbind option_bind]; eexists; (split; [reflexivity|]); split_and!;
    try vuart_fields u; unfold thre_kept; simpl; rewrite ?Z.lor_spec; auto with bool.
Qed.

Lemma read_reg_switch_spec tf off u : vuart_wf u → active u = true →
  ∃ u' r, read_reg_switch tf off u = Some (u', r) ∧ vuart_wf u' ∧ same_link u u' ∧ thre_kept u u'.
Proof.
  intros Hw Ha. pose proof (vw_active u Hw Ha) as (Hvm & Hrx & Htx).
  destruct (fifo_getchar_spec _ _ rx_size Hrx) as (fr & Er & Hfr & _).
  unfold read_reg_switch. cbv zeta.
  change (rxfifo u⟨lsr := u8 (lsr u &&& bnot 32 LSR_OE)⟩) with (rxfifo u). rewrite Er.
  repeat case_if; cbn [mbind option_bind]; eexists _, _; (split; [reflexivity|]); split_and!;
    try vuart_fields u; unfold thre_kept, LSR_OE, LSR_DR; simpl;
    repeat (rewrite ?clear_bit_keeps, ?Z.lor_spec by done); try (intros ->); done.
Qed.

(** ** The interrupt line *)

(** The last operation on pin [i] of the PIC and of the I/O APIC of VM [m]. *)
Fixpoint pic_pin (m i : Z) (tr : list effect) : option gsi_op :=
  match tr with
  | [] => None
  | vpic_set_irqline m' i' op :: tr =>
      if decide ((m', i') = (m, i)) then Some op else pic_pin m i tr
  | _ :: tr => pic_pin m i tr
  end.
Fixpoint ioapic_pin (m i : Z) (tr : list effect) : option gsi_op :=
  match tr with
  | [] => None
  | vioapic_set_irqline m' i' op :: tr =>
      if decide ((m', i') = (m, i)) then Some op else ioapic_pin m i tr
  | _ :: tr => ioapic_pin m i tr
  end.

Definition pending (u : acrn_vuart) : bool := negb (vuart_intr_reason u =? IIR_NOPEND).
Definition line_of (u : acrn_vuart) : option Z * Z := (vm u, irq u).

Section line.
Variable active_low : Z → Z → bool.
#[local] Abbreviation commit := (commit active_low).

(** The pin of the vuart is asserted, with the polarity the guest chose,
    exactly when the vuart has an interrupt to report. *)
Definition line_ok (w : world) (x : vid) : Prop :=
  match vm (vu_at w x) with
  | Some m =>
      let i := irq (vu_at w x) in
      let op := line_op active_low m i (pending (vu_at w x)) in
      pic_pin m i (trace w) = Some op ∧ ioapic_pin m i (trace w) = Some op
  | None => True
  end.

(** [w'] is [w] with [v] updated to [u] and its interrupt toggled. *)
Record committed (v : vid) (u : acrn_vuart) (w w' : world) : Prop := {
  cm_at : ∀ x, vu_at w' x = if decide (x = v) then u else vu_at w x;
  cm_configs : configs w' = configs w;
  cm_line : vdev u = None → line_ok w' v;
  cm_others : ∀ x, x ≠ v → line_of (vu_at w x) ≠ line_of u → line_ok w x → line_ok w' x;
}.

Lemma commit_spec v u w : is_Some (vm u) →
  ∃ w', commit v u w = Some w' ∧ committed v u w w'.
Proof.
  intros [m Hm]. unfold commit, vuart_toggle_intr. fold (pending u).
  set (w0 := set_vu v u w).
  assert (Hat : ∀ x, vu_at w0 x = if decide (x = v) then u else vu_at w x) by apply vu_at_set.
  assert (Htr : trace w0 = trace w) by done. assert (Hcf : configs w0 = configs w) by done.
  clearbody w0.
  assert (Hdrive : ∀ b, (vdev u = None → b = pending u) →
    ∃ w', vuart_trigger_level_intr active_low u b w0 = Some w' ∧ committed v u w w').
  { intros b Hb. unfold vuart_trigger_level_intr. rewrite Hm. cbn [mbind option_bind].
    eexists. split; [done|]. split; [done|done| |].
    - intros Hd. unfold line_ok. change (vu_at (emit _ _) v) with (vu_at w0 v).
      rewrite Hat, decide_True, Hm by done. simpl. rewrite !decide_True by done. by rewrite Hb.
    - intros x Hx Hl. unfold line_ok. change (vu_at (emit _ _) x) with (vu_at w0 x).
      rewrite Hat, decide_False by done. destruct (vm (vu_at w x)) as [m'|] eqn:E; [|done].
      simpl. rewrite Htr, !decide_False; [done|..]; intros [= <- Ei]; apply Hl; unfold line_of; congruence. }
  destruct (vdev u) as [d|] eqn:Hd; [|by apply Hdrive].
  destruct (pending u); [|by apply Hdrive].
  eexists. split; [done|]. split; [done|done|by rewrite Hd|].
  intros x Hx _. unfold line_ok. change (vu_at (emit _ _) x) with (vu_at w0 x).
  rewrite Hat, decide_False by done. simpl. by rewrite Htr.
Qed.

(** No other vuart drives the pin of [x]. *)
Definition own_line (w : world) (x : vid) : Prop :=
  ∀ y, y ≠ x → line_of (vu_at w x) ≠ line_of (vu_at w y).

(** What every register access does to the table. *)
Record access (w w' : world) : Prop := {
  ac_inv : world_inv w';
  ac_same : ∀ x, same_link (vu_at w x) (vu_at w' x);
  ac_thre : ∀ x, thre_kept (vu_at w x) (vu_at w' x);
  ac_configs : configs w' = configs w;
  ac_lines : ∀ x, vdev (vu_at w x) = None → own_line w x → line_ok w x → line_ok w' x;
}.

Lemma same_line u u' : same_link u u' → line_of u' = line_of u.
Proof. intros []. unfold line_of. congruence. Qed.

Lemma access_own_line w w' x : access w w' → own_line w x → own_line w' x.
Proof.
  intros Ha Ho y Hy. rewrite (same_line _ _ (ac_same _ _ Ha x)), (same_line _ _ (ac_same _ _ Ha y)).
  by apply Ho.
Qed.

Lemma access_refl w : world_inv w → access w w.
Proof. intros. split; [done|done|by intros x ?|done|done]. Qed.

Lemma access_trans w1 w2 w3 : access w1 w2 → access w2 w3 → access w1 w3.
Proof.
  intros Ha [H1 H2 H3 H4 H5]. pose proof Ha as [G1 G2 G3 G4 G5].
  split; [done| |unfold thre_kept in *; auto|congruence|].
  - intros x. by transitivity (vu_at w2 x).
  - intros x Hd Ho Hl. apply H5; [|by eapply access_own_line|by apply G5].
    by rewrite (sl_vdev _ _ (G2 x)).
Qed.

Lemma committed_access v u w w' : world_inv w → vuart_wf u → same_link (vu_at w v) u →
  thre_kept (vu_at w v) u → committed v u w w' → access w w'.
Proof.
  intros [Hwf Hlink] Hu Hs Ht [Hat Hcf Hl Hlo].
  assert (Hsame : ∀ x, same_link (vu_at w x) (vu_at w' x)).
  { intros x. rewrite Hat. by case_decide; subst. }
  split; [|done| |done|].
  - split.
    + intros x. rewrite Hat. by case_decide.
    + intros x t. destruct (Hsame x) as [-> -> _ _ _ _], (Hsame t) as [-> -> _ _ _ _].
      apply Hlink.
  - intros x. rewrite Hat. unfold thre_kept in *. case_decide; subst; auto.
  - intros x Hd Ho Hx. destruct (decide (x = v)) as [->|Hne].
    + apply Hl. by rewrite (sl_vdev _ _ Hs).
    + apply Hlo; [done| |done]. rewrite (same_line _ _ Hs). apply Ho. congruence.
Qed.

Lemma commit_access v u w : world_inv w → active (vu_at w v) = true → vuart_wf u →
  same_link (vu_at w v) u → thre_kept (vu_at w v) u →
  ∃ w', commit v u w = Some w' ∧ committed v u w w' ∧ access w w'.
Proof.
  intros Hi Ha Hu Hs Ht. destruct (commit_spec v u w) as (w' & Hc & Hcm).
  - apply Hu. by rewrite (sl_active _ _ Hs).
  - exists w'. split_and!; [done|done|]. by eapply committed_access.
Qed.

(** Asking for a THRE interrupt. *)
Lemma commit_thre v w : world_inv w → active (vu_at w v) = true →
  ∃ w', commit v (vu_at w v)⟨thre_int_pending := true⟩ w = Some w'
    ∧ committed v (vu_at w v)⟨thre_int_pending := true⟩ w w' ∧ access w w'.
Proof.
  intros Hi Ha. apply commit_access; [done|done| |done|by unfold thre_kept].
  by apply (vuart_wf_same (vu_at w v)); [apply Hi|..].
Qed.

(** ** Register accesses *)

Definition rx_queue (w : world) (x : vid) : list Z := fifo_queue (rxfifo (vu_at w x)).
Definition tx_queue (w : world) (x : vid) : list Z := fifo_queue (txfifo (vu_at w x)).

(** [w'] differs from [w], as far as data and modes go, in the receive queue of [t]. *)
Record rx_step (t : vid) (q : list Z) (w w' : world) : Prop := {
  rs_rx : ∀ x, rx_queue w' x = if decide (x = t) then q else rx_queue w x;
  rs_mcr : ∀ x, mcr (vu_at w' x) = mcr (vu_at w x);
  rs_lcr : ∀ x, lcr (vu_at w' x) = lcr (vu_at w x);
}.

Lemma rx_step_thre t q v w w1 w2 : rx_step t q w w1 →
  committed v (vu_at w1 v)⟨thre_int_pending := true⟩ w1 w2 → rx_step t q w w2.
Proof.
  intros [Hr Hm Hl] [Hat _ _ _].
  split; intros x; [rewrite <- Hr; unfold rx_queue|rewrite <- Hm|rewrite <- Hl];
    rewrite Hat; by case_decide; subst.
Qed.

Lemma send_to_target_spec t val w : world_inv w → active (vu_at w t) = true →
  ∃ w' full, send_to_target active_low t val w = Some (w', full) ∧ access w w'
    ∧ rx_step t (queue_put RX_BUF_SIZE val (rx_queue w t)) w w'
    ∧ full = (RX_BUF_SIZE - 64 <? Z.of_nat (length (rx_queue w' t))).
Proof.
  intros Hi Ha. unfold send_to_target. rewrite Ha.
  pose proof (wi_wf w Hi t) as Hwf.
  destruct (rx_put (vu_at w t) val Hwf Ha) as (f & -> & Hf & Hq). cbn [mbind option_bind].
  destruct (commit_access t (vu_at w t)⟨rxfifo := f⟩ w) as (w' & -> & Hcm & Hac);
    [done|done| |done|by unfold thre_kept|].
  { apply (vuart_wf_fifo (vu_at w t)); try done. by apply (vw_active _ Hwf). }
  cbn [mbind option_bind]. destruct Hcm as [Hat _ _ _].
  eexists _, _. split; [done|]. split; [done|]. split.
  - split; intros x; unfold rx_queue; rewrite Hat; by case_decide; subst.
  - unfold rx_queue. rewrite Hat, decide_True by done. simpl.
    rewrite (fifo_queue_length _ _ Hf). destruct Hf. unfold fifo_isfull. rewrite fw_size0.
    unfold RX_BUF_SIZE in *. rewrite u32_id by (unfold word; lia).
    apply eq_true_iff_eq. rewrite !Z.ltb_lt. lia.
Qed.

(** A byte written to a linked vuart goes to the receive queue of its target;
    the writer is asked for more unless that queue is nearly full. *)
Lemma link_write v t val w : world_inv w → target_vu (vu_at w v) = Some t →
  mcr (vu_at w v) &&& MCR_LOOPBACK = 0 → lcr (vu_at w v) &&& LCR_DLAB = 0 →
  ∃ w', vuart_write_reg active_low v UART16550_THR val w = Some w' ∧ access w w'
    ∧ rx_step t (queue_put RX_BUF_SIZE val (rx_queue w t)) w w'
    ∧ (Z.of_nat (length (rx_queue w' t)) ≤ RX_BUF_SIZE - 64 →
       thre_int_pending (vu_at w' v) = true).
Proof.
  intros Hi Ht Hm Hl. destruct (wi_link w Hi v t Ht) as (Hv & Hat & _).
  unfold vuart_write_reg. cbv zeta. rewrite Ht, Hm, Hl. cbn [Z.eqb andb UART16550_THR].
  destruct (send_to_target_spec t val w Hi Hat) as (w1 & full & -> & Ha1 & Hr1 & Hfull).
  cbn [mbind option_bind]. destruct full.
  - exists w1. split_and!; [done..|]. symmetry in Hfull. zreflect. lia.
  - destruct (commit_thre v w1) as (w2 & -> & Hcm & Ha2); [apply Ha1| |].
    { by rewrite (sl_active _ _ (ac_same _ _ Ha1 v)). }
    exists w2. split_and!; [done|by eapply access_trans|by eapply rx_step_thre|].
    intros _. rewrite (cm_at _ _ _ _ Hcm), decide_True by done. done.
Qed.

Lemma write_reg_spec v reg val w : world_inv w → active (vu_at w v) = true →
  ∃ w', write_reg active_low v reg val w = Some w' ∧ access w w'
    ∧ (vdev (vu_at w v) = None → line_ok w' v).
Proof.
  intros Hi Ha. unfold write_reg.
  destruct (write_reg_switch_spec reg val (vu_at w v)) as (u & -> & Hu & Hs & Ht); [apply Hi|done|].
  cbn [mbind option_bind].
  destruct (commit_access v u w) as (w' & -> & Hcm & Hac); [done..|].
  exists w'. split_and!; [done|done|]. intros Hd. apply Hcm. by rewrite (sl_vdev _ _ Hs).
Qed.

Lemma vuart_write_reg_spec v reg val w : world_inv w → active (vu_at w v) = true →
  ∃ w', vuart_write_reg active_low v reg val w = Some w' ∧ access w w'
    ∧ (target_vu (vu_at w v) = None → vdev (vu_at w v) = None → line_ok w' v).
Proof.
  intros Hi Ha. destruct (write_reg_spec v reg val w Hi Ha) as (w' & Hw & Hac & Hl).
  destruct (target_vu (vu_at w v)) as [t|] eqn:Ht.
  - destruct (decide (mcr (vu_at w v) &&& MCR_LOOPBACK = 0 ∧ lcr (vu_at w v) &&& LCR_DLAB = 0
                      ∧ reg = UART16550_THR)) as [(Hm & Hlc & ->)|Hno].
    + destruct (link_write v t val w) as (w2 & Hw2 & Hac2 & _); [done..|]. by exists w2.
    + exists w'. split_and!; [|done|done]. unfold vuart_write_reg. cbv zeta. rewrite Ht.
      case_if; [zreflect; tauto|done].
  - exists w'. split_and!; [|done|auto]. unfold vuart_write_reg. cbv zeta. by rewrite Ht.
Qed.

Lemma notify_target_spec v w : world_inv w →
  ∃ w', notify_target active_low v w = Some w' ∧ access w w'
    ∧ rx_step v (rx_queue w v) w w'.
Proof.
  intros Hi. assert (Hr : rx_step v (rx_queue w v) w w).
  { split; try done. intros x. by case_decide; subst. }
  unfold notify_target. destruct (target_vu (vu_at w v)) as [t|] eqn:Ht.
  2: { exists w. split_and!; [done|by apply access_refl|done]. }
  case_if; [|exists w; split_and!; [done|by apply access_refl|done]].
  destruct (wi_link w Hi v t Ht) as (_ & Hat & _).
  destruct (commit_thre t w Hi Hat) as (w' & -> & Hcm & Hac).
  exists w'. split_and!; [done|done|by eapply rx_step_thre].
Qed.

Lemma vuart_read_reg_spec v off w : world_inv w → active (vu_at w v) = true →
  ∃ w' r, vuart_read_reg active_low v off w = Some (w', r) ∧ access w w'
    ∧ (vdev (vu_at w v) = None → own_line w v → line_ok w' v).
Proof.
  intros Hi Ha. unfold vuart_read_reg. cbv zeta. set (tf := _ <$> _).
  destruct (read_reg_switch_spec tf off (vu_at w v)) as (u & r & -> & Hu & Hs & Ht);
    [apply Hi|done|]. cbn [mbind option_bind].
  destruct (commit_access v u w) as (w1 & -> & Hcm & Hac); [done..|]. cbn [mbind option_bind].
  assert (Hl : vdev (vu_at w v) = None → line_ok w1 v).
  { intros Hd. apply Hcm. by rewrite (sl_vdev _ _ Hs). }
  case_if; [|exists w1, r; split_and!; auto].
  destruct (notify_target_spec v w1) as (w2 & -> & Hac2 & _); [apply Hac|].
  exists w2, r. split_and!; [done|by eapply access_trans|].
  intros Hd Ho. apply Hac2; [|by eapply access_own_line|by apply Hl].
  by rewrite (sl_vdev _ _ (ac_same _ _ Hac v)).
Qed.

(** Reading RBR takes the oldest byte of the receive queue. *)
Lemma link_read t w : world_inv w → active (vu_at w t) = true →
  lcr (vu_at w t) &&& LCR_DLAB = 0 →
  ∃ w', vuart_read_reg active_low t UART16550_RBR w = Some (w', default 0xFF (head (rx_queue w t)))
    ∧ access w w' ∧ rx_step t (tail (rx_queue w t)) w w'.
Proof.
  intros Hi Ha Hl. pose proof (wi_wf w Hi t) as Hwf.
  destruct (vw_active _ Hwf Ha) as (_ & Hrx & Htx).
  destruct (fifo_getchar_spec _ _ rx_size Hrx) as (f & Hg & Hf & Hq).
  unfold vuart_read_reg, read_reg_switch. cbv zeta. rewrite Hl. cbn [nonzero negb Z.eqb UART16550_RBR].
  change (rxfifo (vu_at w t)⟨lsr := _⟩) with (rxfifo (vu_at w t)). rewrite Hg. cbn [mbind option_bind].
  destruct (commit_access t (vu_at w t)⟨lsr := u8 (lsr (vu_at w t) &&& bnot 32 LSR_OE)⟩⟨rxfifo := f⟩ w)
    as (w1 & -> & Hcm & Hac); [done|done| |done| |].
  { by apply (vuart_wf_fifo (vu_at w t)). }
  { unfold thre_kept, LSR_OE. simpl. by rewrite clear_bit_keeps. }
  cbn [mbind option_bind].
  assert (Hr1 : rx_step t (tail (rx_queue w t)) w w1).
  { destruct Hcm as [Hat _ _ _]. split; intros x; unfold rx_queue; rewrite Hat; by case_decide; subst. }
  destruct (notify_target_spec t w1) as (w2 & -> & Hac2 & Hr2); [apply Hac|]. cbn [mbind option_bind].
  exists w2. split_and!; [done|by eapply access_trans|].
  destruct Hr1 as [A1 A2 A3], Hr2 as [B1 B2 B3].
  split; intros x; [rewrite B1, !A1|by rewrite B2|by rewrite B3]. by repeat case_decide.
Qed.

(** ** The link as a channel *)

Fixpoint write_all (v : vid) (bs : list Z) (w : world) : option world :=
  match bs with
  | [] => Some w
  | b :: bs => w ← vuart_write_reg active_low v UART16550_THR b w; write_all v bs w
  end.

Fixpoint read_all (t : vid) (n : nat) (w : world) : option (world * list Z) :=
  match n with
  | O => Some (w, [])
  | S n => '(w, b) ← vuart_read_reg active_low t UART16550_RBR w;
           '(w, bs) ← read_all t n w; Some (w, b :: bs)
  end.

Lemma write_all_spec v t bs : ∀ w, world_inv w → target_vu (vu_at w v) = Some t →
  mcr (vu_at w v) &&& MCR_LOOPBACK = 0 → lcr (vu_at w v) &&& LCR_DLAB = 0 →
  Z.of_nat (length (rx_queue w t) + length bs) ≤ RX_BUF_SIZE →
  ∃ w', write_all v bs w = Some w' ∧ access w w' ∧ rx_step t (rx_queue w t ++ bs) w w'.
Proof.
  induction bs as [|b bs IH]; intros w Hi Ht Hm Hl Hlen; simpl.
  - exists w. split_and!; [done|by apply access_refl|]. rewrite app_nil_r.
    split; try done. intros x. by case_decide; subst.
  - destruct (link_write v t b w) as (w1 & -> & Hac & Hr & _); [done..|]. cbn [mbind option_bind].
    pose proof (rs_rx _ _ _ _ Hr t) as Hq. rewrite decide_True in Hq by done.
    unfold queue_put in *. simpl in Hlen. rewrite (proj2 (Z.ltb_lt _ _)) in * by lia.
    destruct (IH w1) as (w2 & -> & Hac2 & Hr2); [apply Hac| | | | |].
    + by rewrite (sl_target _ _ (ac_same _ _ Hac v)).
    + by rewrite (rs_mcr _ _ _ _ Hr).
    + by rewrite (rs_lcr _ _ _ _ Hr).
    + rewrite Hq, length_app. simpl. lia.
    + exists w2. split_and!; [done|by eapply access_trans|].
      destruct Hr as [A1 A2 A3], Hr2 as [B1 B2 B3]. rewrite Hq, <- app_assoc in B1.
      split; intros x; [rewrite B1, A1|by rewrite B2|by rewrite B3]. by repeat case_decide.
Qed.

Lemma read_all_spec t n : ∀ w, world_inv w → active (vu_at w t) = true →
  lcr (vu_at w t) &&& LCR_DLAB = 0 → length (rx_queue w t) = n →
  ∃ w', read_all t n w = Some (w', rx_queue w t) ∧ access w w' ∧ rx_queue w' t = [].
Proof.
  induction n as [|n IH]; intros w Hi Ha Hl Hlen; simpl.
  - apply nil_length_inv in Hlen. exists w. rewrite Hlen. split_and!; [done|by apply access_refl|done].
  - destruct (link_read t w) as (w1 & -> & Hac & Hr); [done..|]. cbn [mbind option_bind].
    pose proof (rs_rx _ _ _ _ Hr t) as Hq. rewrite decide_True in Hq by done.
    destruct (rx_queue w t) as [|b q]; [done|]. simpl in Hq, Hlen. 
    destruct (IH w1) as (w2 & -> & Hac2 & Hr2); [apply Hac| | | |].
    + by rewrite (sl_active _ _ (ac_same _ _ Hac t)).
    + by rewrite (rs_lcr _ _ _ _ Hr).
    + rewrite Hq. lia.
    + cbn [mbind option_bind]. rewrite Hq. exists w2. split_and!; [done|by eapply access_trans|done].
Qed.

(** C36: A link between two vuarts is a reliable channel: the bytes one guest
    writes to THR arrive at the other, after the bytes already queued there, in
    order and without loss as long as they fit the 256-byte receive FIFO, and
    the reader that takes that many bytes from RBR gets exactly them and leaves
    the FIFO empty. No access is undefined. *)
Theorem vuart_link_delivers v t bs w : world_inv w → target_vu (vu_at w v) = Some t →
  mcr (vu_at w v) &&& MCR_LOOPBACK = 0 → lcr (vu_at w v) &&& LCR_DLAB = 0 →
  lcr (vu_at w t) &&& LCR_DLAB = 0 →
  Z.of_nat (length (rx_queue w t) + length bs) ≤ RX_BUF_SIZE →
  ∃ w' w'', write_all v bs w = Some w' ∧ rx_queue w' t = rx_queue w t ++ bs
    ∧ read_all t (length (rx_queue w t) + length bs) w' = Some (w'', rx_queue w t ++ bs)
    ∧ rx_queue w'' t = [] ∧ world_inv w''.
Proof.
  intros Hi Ht Hm Hl Hlt Hlen.
  destruct (write_all_spec v t bs w) as (w1 & Hw & Hac & Hr); [done..|].
  pose proof (rs_rx _ _ _ _ Hr t) as Hq. rewrite decide_True in Hq by done.
  destruct (read_all_spec t (length (rx_queue w t) + length bs) w1) as (w2 & Hrd & Hac2 & He).
  - apply Hac.
  - rewrite (sl_active _ _ (ac_same _ _ Hac t)). by apply (wi_link w Hi v t).
  - by rewrite (rs_lcr _ _ _ _ Hr).
  - by rewrite Hq, length_app.
  - exists w1, w2. rewrite Hq in Hrd. split_and!; try done. apply Hac2.
Qed.

(** ** Set-up and tear-down *)

(** [u] is [u0] ready to be activated. *)
Record fresh (u0 u : acrn_vuart) : Prop := {
  fr_vm : is_Some (vm u);
  fr_rx : fifo_wf RX_BUF_SIZE (rxfifo u);
  fr_tx : fifo_wf TX_BUF_SIZE (txfifo u);
  fr_target : target_vu u = None;
  fr_lsr : lsr u = lsr u0;
}.

Lemma fresh_wf u0 u : fresh u0 u → vuart_wf u.
Proof. intros []. split; [apply fr_rx0|apply fr_tx0|done]. Qed.

Lemma inactive_unlinked w v : world_inv w → active (vu_at w v) = false →
  ∀ x, target_vu (vu_at w x) ≠ Some v ∧ target_vu (vu_at w v) = None.
Proof.
  intros [_ Hl] Ha x. split.
  - intros E. destruct (Hl x v E) as (_ & ? & _). congruence.
  - destruct (target_vu (vu_at w v)) as [t|] eqn:E; [|done].
    destruct (Hl v t E) as (? & _). congruence.
Qed.

Lemma setup_vuart_spec v w : world_inv w → active (vu_at w v) = false →
  ∃ w' u, setup_vuart active_low v w = Some w' ∧ fresh (vu_at w v) u ∧ active u = false
    ∧ (∀ x, vu_at w' x = if decide (x = v) then u else vu_at w x) ∧ configs w' = configs w.
Proof.
  intros Hi Ha. destruct (wi_wf w Hi v) as [Hr Ht _]. unfold setup_vuart. cbv zeta.
  set (u := _⟨ier := 0⟩). destruct (commit_spec v u w) as (w1 & -> & [Hat Hcf _ _]); [by eexists|].
  cbn [mbind option_bind]. eexists _, u⟨target_vu := None⟩. split; [done|].
  split_and!; [|exact Ha| |done].
  - split; [by eexists|split; try done; exact Hr|split; try done; exact Ht|done|done].
  - intros x. rewrite vu_at_set, Hat. by repeat case_decide.
Qed.

(** Replacing an inactive vuart by an unlinked one. *)
Lemma inv_replace v u w w' : world_inv w → active (vu_at w v) = false → vuart_wf u →
  target_vu u = None → (∀ x, vu_at w' x = if decide (x = v) then u else vu_at w x) →
  world_inv w'.
Proof.
  intros Hi Ha Hu Ht Hat. split.
  - intros x. rewrite Hat. case_decide; [done|apply Hi].
  - intros x t. rewrite Hat. case_decide as E; [by rewrite Ht|]. intros Et.
    rewrite Hat, decide_False; [by apply (wi_link w Hi)|].
    intros ->. by apply (proj1 (inactive_unlinked w v Hi Ha x)).
Qed.

(** What set-up and tear-down do to the other vuarts and to the line status. *)
Definition others_active (v : vid) (w w' : world) : Prop :=
  ∀ x, x ≠ v → active (vu_at w' x) = active (vu_at w x).
Definition all_thre_kept (w w' : world) : Prop := ∀ x, thre_kept (vu_at w x) (vu_at w' x).

Lemma setup_connection_spec c v w : world_inv w → target_vu (vu_at w v) = None →
  let w' := vuart_setup_connection c v w in
  world_inv w' ∧ configs w' = configs w ∧ ∀ x, active (vu_at w' x) = active (vu_at w x)
    ∧ lsr (vu_at w' x) = lsr (vu_at w x).
Proof.
  intros Hi Hv. cbv zeta. unfold vuart_setup_connection, find_active_target_vuart. cbv zeta.
  set (t := t_vuart c). destruct (active (vu_at w v)) eqn:Ha; [|done].
  destruct (_ && _); [|done]. destruct (active (vu_at w t)) eqn:Hat; [|done].
  destruct (target_vu (vu_at w t)) eqn:Ht; [done|].
  set (w' := set_vu t _ _).
  assert (Hw : ∀ x, vu_at w' x = if decide (x = t) then (vu_at w t)⟨target_vu := Some v⟩
                      else if decide (x = v) then (vu_at w v)⟨target_vu := Some t⟩ else vu_at w x).
  { intros x. unfold w'. rewrite !vu_at_set. repeat case_decide; by subst. }
  assert (Hf : ∀ x, ∃ o, vu_at w' x = (vu_at w x)⟨target_vu := o⟩).
  { intros x. rewrite Hw. repeat case_decide; subst; [by eexists..|].
    exists (target_vu (vu_at w x)). by destruct (vu_at w x). }
  split_and!; [|done|by intros x; destruct (Hf x) as [o ->]].
  clearbody w'. destruct Hi as [Hwf Hl]. 
  split.
  - intros x. destruct (Hwf x), (Hf x) as [o ->]. by split.
  - intros x y. destruct (Hf x) as [o Ex], (Hf y) as [o' Ey].
    assert (Hax : active (vu_at w' x) = active (vu_at w x)) by by rewrite Ex.
    assert (Hay : active (vu_at w' y) = active (vu_at w y)) by by rewrite Ey.
    rewrite Hax, Hay, !Hw. clearbody t. repeat case_decide; subst; simpl; intros E;
      first [by apply Hl|by split_and!|destruct (Hl _ _ E) as (?&?&?); congruence|congruence].
Qed.

Lemma tear_down_spec v w : world_inv w →
  ∃ w', deinit_pci_vuart v w = Some w' ∧ world_inv w' ∧ configs w' = configs w
    ∧ all_thre_kept w w'.
Proof.
  intros Hi. unfold deinit_pci_vuart, vuart_deinit_connection. cbv zeta.
  rewrite !vu_at_set, decide_True by done. simpl.
  destruct (target_vu (vu_at w v)) as [t|] eqn:Ht.
  - cbn [mbind option_bind]. eexists. split; [done|]. set (w' := set_vu v _ _).
    assert (Hw : ∀ x, ∃ b, vu_at w' x = if decide (x = t ∨ x = v)
        then (vu_at w x)⟨active := b⟩⟨target_vu := None⟩ else vu_at w x).
    { intros x. exists (if decide (x = v) then false else active (vu_at w x)).
      unfold w'. rewrite !vu_at_set.
      repeat case_decide; subst; try tauto; by destruct (vu_at w _). }
    split_and!; [|done|].
    + destruct Hi as [Hwf Hl]. destruct (Hl v t Ht) as (Hav & Hat & Htv). split.
      * intros x. destruct (Hw x) as [b ->], (Hwf x). case_decide; [|done]. split; try done.
        simpl. intros ->. apply vw_active0. destruct_or?; by subst.
      * intros x y. destruct (Hw x) as [b ->]. case_decide as Ex; [done|].
        intros E. destruct (Hl x y E) as (?&?&?), (Hw y) as [b' ->].
        rewrite decide_False; [done|]. intros [->| ->]; naive_solver.
    + intros x. unfold thre_kept. destruct (Hw x) as [b ->]. by case_decide.
  - eexists. split; [done|]. split_and!; [|done|].
    + destruct Hi as [Hwf Hl]. split.
      * intros x. rewrite vu_at_set. case_decide; [|done]. destruct (Hwf v). by split.
      * intros x y. rewrite !vu_at_set. case_decide; simpl; [by rewrite Ht|].
        intros E. destruct (Hl x y E) as (?&?&?). rewrite decide_False; [done|]. naive_solver.
    + intros x. unfold thre_kept. rewrite vu_at_set. by case_decide; subst.
Qed.

(** Activating a vuart that was just set up. *)
Lemma activate_spec v u w w1 : world_inv w → active (vu_at w v) = false →
  fresh (vu_at w v) u → (∀ x, vu_at w1 x = if decide (x = v) then u else vu_at w x) →
  world_inv w1 ∧ target_vu (vu_at w1 v) = None ∧ others_active v w w1 ∧ all_thre_kept w w1.
Proof.
  intros Hi Ha Hf Hat. split_and!.
  - eapply inv_replace; [done|done|by eapply fresh_wf|apply Hf|done].
  - rewrite Hat, decide_True by done. apply Hf.
  - intros x Hx. by rewrite Hat, decide_False.
  - intros x. unfold thre_kept. rewrite Hat. case_decide; subst; [|done]. by rewrite (fr_lsr _ _ Hf).
Qed.

Lemma connect_spec c (b : bool) v w w1 : world_inv w1 → target_vu (vu_at w1 v) = None →
  others_active v w w1 → all_thre_kept w w1 → configs w1 = configs w →
  let w' := if b then vuart_setup_connection c v w1 else w1 in
  world_inv w' ∧ configs w' = configs w ∧ others_active v w w' ∧ all_thre_kept w w'.
Proof.
  intros Hi Ht Ho Hk Hc. destruct b; [|done]. cbv zeta.
  destruct (setup_connection_spec c v w1 Hi Ht) as (H1 & H2 & H3).
  split_and!; [done|congruence| |].
  - intros x Hx. destruct (H3 x) as [-> _]. by apply Ho.
  - intros x. unfold thre_kept. destruct (H3 x) as [_ ->]. apply Hk.
Qed.

Lemma fresh_fields u0 u (p i : Z) (b : bool) (d : option Z) : fresh u0 u →
  fresh u0 u⟨port_base := p⟩⟨irq := i⟩⟨active := b⟩ ∧ fresh u0 u⟨port_base := p⟩⟨irq := i⟩
  ∧ fresh u0 u⟨vdev := d⟩⟨active := b⟩.
Proof. intros []. by split_and!. Qed.

(** A VM may initialise a legacy vuart that is not active. *)
Definition may_init (m i : Z) (w : world) : bool :=
  negb (bool_decide (type (configs w !!! (m, i)) = VUART_LEGACY_PIO)) || negb (active (vu_at w (m, i))).

Lemma init_legacy_vuart_spec m i w : world_inv w → may_init m i w = true →
  ∃ w', init_legacy_vuart active_low m i w = Some w' ∧ world_inv w' ∧ configs w' = configs w
    ∧ others_active (m, i) w w' ∧ all_thre_kept w w'.
Proof.
  intros Hi Hm. unfold init_legacy_vuart, may_init in *. cbv zeta. set (c := configs w !!! (m, i)) in *.
  destruct (bool_decide (type c = VUART_LEGACY_PIO)) eqn:E; cbn [andb].
  2: { exists w. split_and!; [done..|]. by intros x ?. }
  apply negb_true_iff in Hm.
  destruct (negb _); [|exists w; split_and!; [done..|]; by intros x ?].
  destruct (setup_vuart_spec (m, i) w Hi Hm) as (w1 & u & -> & Hf & Hau & Hat & Hcf).
  cbn [mbind option_bind]. destruct (fresh_fields _ _ (cfg_port_base c) (cfg_irq c) true None Hf)
    as (Hf1 & Hf2 & _).
  unfold vuart_register_io_handler. rewrite !vu_at_set, !decide_True by done.
  destruct (i <? MAX_VUART_NUM_PER_VM); eexists; (split; [done|]).
  1: eapply connect_spec; try exact Hcf; eapply (activate_spec _ _ w _ Hi Hm Hf1); intros x.
  5: eapply connect_spec; try exact Hcf; eapply (activate_spec _ _ w _ Hi Hm Hf2); intros x.
  all: unfold vu_at; simpl; destruct (decide (x = (m, i))) as [->|Hx];
    [by rewrite !lookup_total_insert_eq; fold (vu_at w1 (m, i)); rewrite Hat, decide_True
    |rewrite !lookup_total_insert_ne by done; fold (vu_at w1 x); by rewrite Hat, decide_False].
Qed.

Lemma init_pci_vuart_spec d v t w : world_inv w → active (vu_at w v) = false →
  ∃ w', init_pci_vuart active_low d v t w = Some w' ∧ world_inv w' ∧ all_thre_kept w w'.
Proof.
  intros Hi Ha. unfold init_pci_vuart. cbv zeta.
  destruct (setup_vuart_spec v w Hi Ha) as (w1 & u & -> & Hf & Hau & Hat & Hcf).
  cbn [mbind option_bind]. destruct (fresh_fields _ _ 0 0 true (Some d) Hf) as (_ & _ & Hf').
  set (c := _⟨t_vuart := t⟩). set (w2 := set_vu v _ _⟨configs := _⟩).
  eexists. split; [done|].
  destruct (activate_spec v _ w w2 Hi Ha Hf') as (H1 & H2 & H3 & H4).
  { intros x. unfold w2. rewrite vu_at_set.
    change (vu_at _⟨configs := _⟩ ?y) with (vu_at (set_vu v (vu_at w1 v)⟨vdev := Some d⟩ w1) y).
    rewrite !vu_at_set, !Hat. by repeat case_decide. }
  destruct (v.2 =? 0); cbn [negb]; [done|].
  destruct (setup_connection_spec c v w2 H1 H2) as (G1 & _ & G3). split; [done|].
  intros x. unfold thre_kept. destruct (G3 x) as [_ ->]. apply H4.
Qed.

(** A loop over distinct indices, each round of which keeps the invariant and
    the guard of the later rounds. *)
Lemma each_spec (f : Z → world → option world) (G : Z → world → Prop) :
  (∀ i w, world_inv w → G i w → ∃ w', f i w = Some w' ∧ world_inv w'
     ∧ all_thre_kept w w' ∧ ∀ j, j ≠ i → G j w → G j w') →
  ∀ l w, NoDup l → world_inv w → Forall (λ i, G i w) l →
  ∃ w', each f l w = Some w' ∧ world_inv w' ∧ all_thre_kept w w'.
Proof.
  intros Hf. induction l as [|i l IH]; intros w Hnd Hi HG; simpl.
  - exists w. split_and!; [done..|]. by intros x ?.
  - apply NoDup_cons in Hnd as [Hni Hnd]. apply Forall_cons in HG as [Hg HG].
    destruct (Hf i w Hi Hg) as (w1 & -> & Hi1 & Hk1 & Hkeep). cbn [mbind option_bind].
    destruct (IH w1 Hnd Hi1) as (w2 & -> & Hi2 & Hk2).
    + rewrite Forall_forall in *. intros j Hj. apply Hkeep; [by intros ->|auto].
    + exists w2. split_and!; [done..|]. unfold all_thre_kept, thre_kept in *. auto.
Qed.

(** ** Runs *)

Inductive vuart_op :=
  | OpWrite (m port value : Z)
  | OpRead (m port : Z)
  | OpPutchar (v : vid) (ch : Z)
  | OpGetchar (v : vid)
  | OpInit (m : Z)
  | OpDeinit (m : Z)
  | OpInitPci (d : Z) (v t : vid)
  | OpDeinitPci (v : vid).

Definition exec (op : vuart_op) (w : world) : option world :=
  match op with
  | OpWrite m port value => vuart_write active_low m port value w
  | OpRead m port => fst <$> vuart_read active_low m port 0 w
  | OpPutchar v ch => vuart_putchar v ch w
  | OpGetchar v => fst <$> vuart_getchar v w
  | OpInit m => init_legacy_vuarts active_low m w
  | OpDeinit m => deinit_legacy_vuarts m w
  | OpInitPci d v t => init_pci_vuart active_low d v t w
  | OpDeinitPci v => deinit_pci_vuart v w
  end.

(** The console only uses active vuarts, and a VM is set up only when its
    vuarts are not in use; guests may access any port at any time. *)
Definition op_ok (op : vuart_op) (w : world) : bool :=
  match op with
  | OpPutchar v _ | OpGetchar v => active (vu_at w v)
  | OpInit m => forallb (λ i, may_init m i w) (seqZ 0 MAX_VUART_NUM_PER_VM)
  | OpInitPci _ v _ => negb (active (vu_at w v))
  | _ => true
  end.

Fixpoint exec_all (ops : list vuart_op) (w : world) : option world :=
  match ops with
  | [] => Some w
  | op :: ops => w ← exec op w; exec_all ops w
  end.

Fixpoint ops_ok (ops : list vuart_op) (w : world) : bool :=
  match ops with
  | [] => true
  | op :: ops => op_ok op w && (if exec op w is Some w then ops_ok ops w else true)
  end.

Lemma find_vuart_active m off w v : find_vuart_by_port m off w = Some v → active (vu_at w v) = true.
Proof.
  unfold find_vuart_by_port. intros H. apply head_Some_elem_of in H.
  apply list_elem_of_filter in H as [[H _] _]. by apply Is_true_true.
Qed.

Lemma set_vu_inv v u w : world_inv w → vuart_wf u → same_link (vu_at w v) u →
  world_inv (set_vu v u w).
Proof.
  intros [Hwf Hl] Hu Hs. split; intros x; [rewrite vu_at_set; by case_decide|].
  intros t. rewrite !vu_at_set. destruct Hs.
  repeat case_decide; subst; rewrite ?sl_active0, ?sl_target0; apply Hl.
Qed.

Lemma set_vu_kept v u w : lsr u = lsr (vu_at w v) → all_thre_kept w (set_vu v u w).
Proof.
  intros E x. unfold thre_kept. rewrite vu_at_set. case_decide; subst; [by rewrite E|done].
Qed.

Lemma exec_spec op w : world_inv w → op_ok op w = true →
  ∃ w', exec op w = Some w' ∧ world_inv w' ∧ all_thre_kept w w'.
Proof.
  intros Hi Hok. pose proof (λ x, wi_wf w Hi x) as Hwf. destruct op; cbn [exec op_ok] in *.
  - unfold vuart_write. destruct (find_vuart_by_port _ _ _) as [v|] eqn:E.
    + apply find_vuart_active in E. set (o := u16 _). set (b := u8 _).
      destruct (vuart_write_reg_spec v o b w Hi E) as (w' & -> & [] & _). eauto.
    + exists w. split_and!; [done..|]. by intros x ?.
  - unfold vuart_read. destruct (find_vuart_by_port _ _ _) as [v|] eqn:E.
    + apply find_vuart_active in E. set (o := u16 _).
      destruct (vuart_read_reg_spec v o w Hi E) as (w' & r & -> & [] & _). eexists. eauto.
    + exists w. split_and!; [done..|]. by intros x ?.
  - unfold vuart_putchar. destruct (rx_put _ ch (Hwf v) Hok) as (f & -> & Hf & _).
    cbn [mbind option_bind]. eexists. split_and!; [done| |by apply set_vu_kept].
    apply set_vu_inv; [done| |done]. apply (vuart_wf_fifo (vu_at w v)); try done.
    by apply (vw_active _ (Hwf v)).
  - unfold vuart_getchar. destruct (vw_active _ (Hwf v) Hok) as (_ & Hrx & Htx).
    destruct (fifo_getchar_spec _ _ tx_size Htx) as (f & -> & Hf & _).
    cbn [mbind option_bind]. eexists. split_and!; [done| |by apply set_vu_kept].
    apply set_vu_inv; [done| |done]. by apply (vuart_wf_fifo (vu_at w v)).
  - unfold init_legacy_vuarts. apply (each_spec _ (λ i w, may_init m i w = true));
      [|apply NoDup_seqZ|done|by apply Forall_forall; intros i Hin; apply (proj1 (forallb_forall _ _) Hok), list_elem_of_In].
    intros i w0 Hi0 Hg. destruct (init_legacy_vuart_spec m i w0 Hi0 Hg) as (w' & -> & ? & Hc & Ho & ?).
    exists w'. split_and!; [done..|]. intros j Hj. unfold may_init.
    by rewrite Hc, Ho by congruence.
  - apply (each_spec _ (λ _ _, True)); [|apply NoDup_seqZ|done|by apply Forall_true].
    intros i w0 Hi0 _. unfold deinit_legacy_vuart. fold (deinit_pci_vuart (m, i) w0).
    destruct (negb _); [|exists w0; split_and!; [done..| |done]; by intros x ?].
    destruct (tear_down_spec (m, i) w0 Hi0) as (w' & Hw' & ? & ? & ?).
    exists w'. by split_and!.
  - apply negb_true_iff in Hok. by apply init_pci_vuart_spec.
  - destruct (tear_down_spec v w Hi) as (w' & -> & ? & ? & ?). eauto.
Qed.

Lemma exec_all_spec ops : ∀ w, world_inv w → ops_ok ops w = true →
  ∃ w', exec_all ops w = Some w' ∧ world_inv w' ∧ all_thre_kept w w'.
Proof.
  induction ops as [|op ops IH]; intros w Hi Hok; simpl.
  - exists w. split_and!; [done..|]. by intros x ?.
  - simpl in Hok. apply andb_true_iff in Hok as [Hop Hok].
    destruct (exec_spec op w Hi Hop) as (w1 & E & Hi1 & Hk1). rewrite E in *. cbn [mbind option_bind].
    destruct (IH w1 Hi1 Hok) as (w2 & -> & Hi2 & Hk2). exists w2. split_and!; [done..|].
    unfold all_thre_kept, thre_kept in *. auto.
Qed.

(** All memory zero, with the configuration of the VMs. *)
Definition zero_world (cfg : gmap vid vuart_config) : world := mk_world ∅ cfg [].

Lemma zero_world_inv cfg : world_inv (zero_world cfg).
Proof.
  assert (E : ∀ v, vu_at (zero_world cfg) v = zero_vuart).
  { intros v. unfold vu_at. simpl. by rewrite lookup_total_empty. }
  split; intros v; rewrite E; [|done]. by split; vm_compute.
Qed.


(** The interrupt line of a legacy vuart tracks its interrupt conditions.
    A register read, or a register write of a vuart without a link, leaves the
    vuart's PIC and I/O APIC pins asserted, in the polarity of the I/O APIC,
    exactly when an enabled interrupt reason is pending; and no access to any
    vuart disturbs a line that is right. *)
Theorem vuart_line_tracks v off val w : world_inv w → active (vu_at w v) = true →
  ∃ wr r ww, vuart_read_reg active_low v off w = Some (wr, r)
    ∧ vuart_write_reg active_low v off val w = Some ww
    ∧ (vdev (vu_at w v) = None → own_line w v →
       line_ok wr v ∧ (target_vu (vu_at w v) = None → line_ok ww v))
    ∧ (∀ x, vdev (vu_at w x) = None → own_line w x → line_ok w x → line_ok wr x ∧ line_ok ww x).
Proof.
  intros Hi Ha. destruct (vuart_read_reg_spec v off w Hi Ha) as (wr & r & Hr & Hac & Hl).
  destruct (vuart_write_reg_spec v off val w Hi Ha) as (ww & Hw & Hac' & Hl').
  exists wr, r, ww. split_and!; [done|done|auto|].
  intros x Hd Ho Hx. split; [by apply Hac|by apply Hac'].
Qed.

(** Once the line status register of a vuart has THRE set, it reports THRE
    for ever: no register access, console access, tear-down or new set-up clears
    it, and a later read of LSR shows THRE whether or not the FIFO of the target
    is full. *)
Theorem lsr_thre_sticky v ops w w1 w2 r : world_inv w →
  Z.testbit (lsr (vu_at w v)) 5 = true →
  ops_ok ops w = true → exec_all ops w = Some w1 →
  lcr (vu_at w1 v) &&& LCR_DLAB = 0 →
  vuart_read_reg active_low v UART16550_LSR w1 = Some (w2, r) →
  Z.testbit r 5 = true.
Proof.
  intros Hi Hb Hok E Hl Hr.
  destruct (exec_all_spec ops w Hi Hok) as (w1' & E' & _ & Hk). rewrite E in E'.
  injection E' as <-. specialize (Hk v Hb).
  unfold vuart_read_reg, read_reg_switch in Hr. cbv zeta in Hr. rewrite Hl in Hr.
  cbn [nonzero negb Z.eqb UART16550_LSR UART16550_RBR UART16550_IER UART16550_IIR UART16550_LCR
       UART16550_MCR Pos.eqb mbind option_bind] in Hr.
  set (tf := _ <$> _) in Hr. destruct (commit _ _ _) as [w'|]; [|done].
  injection Hr as _ <-. repeat case_if; simpl; unfold LSR_DR;
    rewrite ?clear_bit_keeps, ?Z.lor_spec by done; simpl; rewrite ?Z.lor_spec, ?Hk; done.
Qed.
End line.

(** ** An example: two VMs with a console each and a link between them *)

Definition ex_low : Z → Z → bool := λ _ _, false.
Definition ex_cfg : gmap vid vuart_config :=
  {[ (0, 0) := mk_config VUART_LEGACY_PIO 0x3F8 4 (0, 0);
     (0, 1) := mk_config VUART_LEGACY_PIO 0x2F8 3 (1, 1);
     (1, 0) := mk_config VUART_LEGACY_PIO 0x3F8 4 (0, 0);
     (1, 1) := mk_config VUART_LEGACY_PIO 0x2F8 3 (0, 1) ]}.
Definition ex_boot : list vuart_op := [OpInit 0; OpInit 1].
Definition ex_run (ops : list vuart_op) : world :=
  default (zero_world ex_cfg) (exec_all ex_low ops (zero_world ex_cfg)).

Lemma ex_run_inv ops : ops_ok ex_low ops (zero_world ex_cfg) = true → world_inv (ex_run ops).
Proof.
  intros Hok. unfold ex_run.
  destruct (exec_all_spec ex_low ops _ (zero_world_inv ex_cfg) Hok) as (w & -> & ? & _). done.
Qed.

Lemma vuart_link_delivers_witness :
  ∃ w' w'', write_all ex_low (0, 1) [72; 105] (ex_run ex_boot) = Some w'
    ∧ read_all ex_low (1, 1) 2 w' = Some (w'', [72; 105]).
Proof.
  destruct (vuart_link_delivers ex_low (0, 1) (1, 1) [72; 105] (ex_run ex_boot))
    as (w' & w'' & Hw & _ & Hr & _).
  - apply ex_run_inv. by vm_compute.
  - by vm_compute.
  - by vm_compute.
  - by vm_compute.
  - by vm_compute.
  - by vm_compute.
  - exists w', w''. split; [exact Hw|exact Hr].
Defined.


Definition own_line_check (w : world) (x : vid) : bool :=
  bool_decide (vm (vu_at w x) ≠ None ∧
    map_Forall (λ y u, y = x ∨ line_of (vu_at w x) ≠ line_of u) (vuarts w)).

Lemma own_line_checked w x : own_line_check w x = true → own_line w x.
Proof.
  unfold own_line_check. rewrite bool_decide_eq_true. intros [Hn Hm] y Hy.
  unfold vu_at at 2. destruct (vuarts w !! y) as [u|] eqn:E.
  - rewrite (lookup_total_correct _ _ _ E). by destruct (Hm y u E).
  - rewrite lookup_total_alt, E. simpl. unfold line_of. simpl. congruence.
Qed.

(** Enabling the THRE interrupt raises the line of COM1. *)
Lemma vuart_line_tracks_witness :
  ∃ ww, vuart_write_reg ex_low (0, 0) UART16550_IER IER_ETBEI (ex_run ex_boot) = Some ww
    ∧ line_ok ex_low ww (0, 0).
Proof.
  destruct (vuart_line_tracks ex_low (0, 0) UART16550_IER IER_ETBEI (ex_run ex_boot))
    as (wr & r & ww & _ & Hw & Hl & _).
  - apply ex_run_inv. by vm_compute.
  - by vm_compute.
  - exists ww. split; [exact Hw|].
    apply Hl; [by vm_compute|apply own_line_checked; by vm_compute|by vm_compute].
Defined.

(** The writer of the link has read LSR once and then sends 200 bytes that
    nobody reads. *)
Definition ex_before : list vuart_op := ex_boot ++ [OpRead 0 0x2FD].
Definition ex_flood : list vuart_op := replicate 200 (OpWrite 0 0x2F8 65).

Lemma lsr_thre_sticky_witness :
  ∃ w1 w2 r, exec_all ex_low ex_flood (ex_run ex_before) = Some w1
    ∧ fifo_isfull (rxfifo (vu_at w1 (1, 1))) = true
    ∧ vuart_read_reg ex_low (0, 1) UART16550_LSR w1 = Some (w2, r) ∧ Z.testbit r 5 = true.
Proof.
  set (w1 := default (zero_world ex_cfg) (exec_all ex_low ex_flood (ex_run ex_before))).
  set (p := default (zero_world ex_cfg, 0) (vuart_read_reg ex_low (0, 1) UART16550_LSR w1)).
  assert (E1 : exec_all ex_low ex_flood (ex_run ex_before) = Some w1) by by vm_compute.
  assert (E2 : vuart_read_reg ex_low (0, 1) UART16550_LSR w1 = Some (p.1, p.2)) by by vm_compute.
  exists w1, p.1, p.2. split_and!; [exact E1|by vm_compute|exact E2|].
  apply (lsr_thre_sticky ex_low (0, 1) ex_flood (ex_run ex_before) w1 p.1 p.2);
    [|by vm_compute|by vm_compute|exact E1|by vm_compute|exact E2].
  apply ex_run_inv. by vm_compute.
Defined.
