(* ===== verification/Vpic.v ===== *)
(** * The virtual PIC

    hypervisor/dm/vpic.c with include/dm/vpic.h: the two cascaded i8259 chips
    of a VM, their initialisation and operation command words, the priority
    logic, pin changes, notification of the CPU, and the port handlers. Locks
    are not modelled: each operation that takes the lock is one step. Calls
    into other components are recorded in a trace, newest first. *)

From S2P Require Import Prelude.

Definition ICU_IMR_OFFSET : Z := 1.
Definition ICW1_IC4 : Z := 0x01.
Definition ICW1_SNGL : Z := 0x02.
Definition ICW4_8086 : Z := 0x01.
Definition ICW4_AEOI : Z := 0x02.
Definition ICW4_SFNM : Z := 0x10.
Definition OCW2_EOI : Z := 0x20.
Definition OCW2_SL : Z := 0x40.
Definition OCW2_R : Z := 0x80.
Definition OCW3_RIS : Z := 0x01.
Definition OCW3_RR : Z := 0x02.
Definition OCW3_P : Z := 0x04.
Definition OCW3_SMM : Z := 0x20.
Definition OCW3_ESMM : Z := 0x40.
Definition IO_ELCR1 : Z := 0x4d0.
Definition NR_VPIC_PINS_PER_CHIP : Z := 8.
Definition NR_VPIC_PINS_TOTAL : Z := 16.
Definition INVALID_INTERRUPT_PIN : Z := 0xffffffff.
Definition NR_MAX_VECTOR : Z := 0xFF.
Definition VECTOR_INVALID : Z := NR_MAX_VECTOR + 1.

Inductive vpic_wire_mode := VPIC_WIRE_INTR | VPIC_WIRE_LAPIC | VPIC_WIRE_IOAPIC | VPIC_WIRE_NULL.
Inductive vpic_trigger := EDGE_TRIGGER | LEVEL_TRIGGER.
Inductive gsi_op := GSI_SET_HIGH | GSI_SET_LOW | GSI_RAISING_PULSE | GSI_FALLING_PULSE.

Record i8259_reg_state := mk_i8259 {
  ready : bool;
  icw_num : Z;
  rd_cmd_reg : Z;
  aeoi : bool;
  poll : bool;
  rotate : bool;
  sfn : bool;
  irq_base : Z;
  request : Z;
  service : Z;
  mask : Z;
  smm : Z;
  pin_state : list Z;
  lowprio : Z;
  intr_raised : bool;
  elc : Z;
}.
#[export] Instance eta_i8259 : Eta i8259_reg_state :=
  MkEta _ (rd mk_i8259 <*> ready <*> icw_num <*> rd_cmd_reg <*> aeoi <*> poll <*> rotate
             <*> sfn <*> irq_base <*> request <*> service <*> mask <*> smm <*> pin_state
             <*> lowprio <*> intr_raised <*> elc).

(** The chip [&vpic->i8259[0]] or [&vpic->i8259[1]]. *)
Inductive chip := Primary | Secondary.
#[export] Instance chip_eq_dec : EqDecision chip.
Proof. solve_decision. Defined.
Definition primary_pic (c : chip) : bool := bool_decide (c = Primary).

(** Calls to other components. *)
Inductive effect :=
  | vcpu_inject_extint
  | vlapic_set_lint0
  | vioapic_pulse_pin0
  | ptirq_intx_pin_remap (vgsi : Z)
  | ptirq_intx_ack (vgsi : Z)
  | register_pio_emulation_handler (base len : Z).

Record acrn_vpic := mk_vpic {
  i8259_0 : i8259_reg_state;
  i8259_1 : i8259_reg_state;
  wire_mode : vpic_wire_mode;
  trace : list effect;
}.
#[export] Instance eta_vpic : Eta acrn_vpic :=
  MkEta _ (rd mk_vpic <*> i8259_0 <*> i8259_1 <*> wire_mode <*> trace).

Definition at_chip (v : acrn_vpic) (c : chip) : i8259_reg_state :=
  match c with Primary => i8259_0 v | Secondary => i8259_1 v end.
Definition set_chip (c : chip) (i : i8259_reg_state) (v : acrn_vpic) : acrn_vpic :=
  match c with Primary => v⟨i8259_0 := i⟩ | Secondary => v⟨i8259_1 := i⟩ end.
Definition emit (e : effect) (v : acrn_vpic) : acrn_vpic := v⟨trace := e :: trace v⟩.

(** ** Priority *)

Fixpoint isr_loop (n : nat) (pin : Z) (i : i8259_reg_state) : Z :=
  match n with
  | O => INVALID_INTERRUPT_PIN
  | S n =>
      let bit := 2 ^ pin in
      if nonzero (service i &&& bit) then
        if nonzero (smm i) && nonzero (mask i &&& bit) then isr_loop n (u32 (pin + 1) &&& 0x7) i
        else pin
      else isr_loop n (u32 (pin + 1) &&& 0x7) i
  end.

Definition vpic_get_highest_isrpin (i : i8259_reg_state) : Z :=
  isr_loop (Z.to_nat NR_VPIC_PINS_PER_CHIP) (u32 (lowprio i + 1) &&& 0x7) i.

Fixpoint irr_loop (n : nat) (pin serviced : Z) (i : i8259_reg_state) : Z :=
  match n with
  | O => INVALID_INTERRUPT_PIN
  | S n =>
      let bit := 2 ^ pin in
      if nonzero (serviced &&& bit) then INVALID_INTERRUPT_PIN
      else if nonzero (request i &&& bit) && (mask i &&& bit =? 0) then pin
      else irr_loop n (u32 (pin + 1) &&& 0x7) serviced i
  end.

Definition vpic_get_highest_irrpin (i : i8259_reg_state) : Z :=
  let serviced := service i in
  let serviced := if sfn i then u8 (serviced &&& bnot 32 (2 ^ 2)) else serviced in
  let serviced := if nonzero (smm i) then 0 else serviced in
  irr_loop (Z.to_nat NR_VPIC_PINS_PER_CHIP) (u32 (lowprio i + 1) &&& 0x7) serviced i.

(** ** Pins and notification *)

(** The chip of a pin below 16, [pin >> 3]. *)
Definition chip_of (pin : Z) : chip := if Z.shiftr pin 3 =? 0 then Primary else Secondary.

Definition level_triggered (i : i8259_reg_state) (p : Z) : bool := nonzero (elc i &&& 2 ^ p).

Definition set_pin (p level : Z) (i : i8259_reg_state) : i8259_reg_state :=
  let old_lvl := nth (Z.to_nat p) (pin_state i) 0 in
  let i := i⟨pin_state := <[Z.to_nat p := if nonzero level then 1 else 0]> (pin_state i)⟩ in
  let lvl_trigger := level_triggered i p in
  if ((old_lvl =? 0) && (level =? 1)) || ((level =? 1) && lvl_trigger) then
    i⟨request := request i ||| 2 ^ p⟩
  else if (old_lvl =? 1) && (level =? 0) then
    if lvl_trigger then i⟨request := u8 (request i &&& bnot 32 (2 ^ p))⟩ else i
  else i.

Definition vpic_set_pinstate (pin level : Z) (v : acrn_vpic) : acrn_vpic :=
  if pin <? NR_VPIC_PINS_TOTAL then
    set_chip (chip_of pin) (set_pin (pin &&& 0x7) level (at_chip v (chip_of pin))) v
  else v.

Definition vpic_notify_intr (v : acrn_vpic) : acrn_vpic :=
  let i := i8259_1 v in
  let pin := vpic_get_highest_irrpin i in
  let v := if negb (intr_raised i) && (pin <? NR_VPIC_PINS_PER_CHIP) then
             let v := v⟨i8259_1 := i⟨intr_raised := true⟩⟩ in
             vpic_set_pinstate 2 0 (vpic_set_pinstate 2 1 v)
           else v in
  let i := i8259_0 v in
  let pin := vpic_get_highest_irrpin i in
  if negb (intr_raised i) && (pin <? NR_VPIC_PINS_PER_CHIP) then
    let v := v⟨i8259_0 := i⟨intr_raised := true⟩⟩ in
    match wire_mode v with
    | VPIC_WIRE_INTR => emit vcpu_inject_extint v
    | _ => emit vioapic_pulse_pin0 (emit vlapic_set_lint0 v)
    end
  else v.

(** ** Command words, with their return values *)

Definition vpic_icw1 (val : Z) (i : i8259_reg_state) : i8259_reg_state * Z :=
  let i := i⟨ready := false⟩ in
  let i := i⟨icw_num := 1⟩ in
  let i := i⟨request := 0⟩ in
  let i := i⟨mask := 0⟩ in
  let i := i⟨lowprio := 7⟩ in
  let i := i⟨rd_cmd_reg := 0⟩ in
  let i := i⟨poll := false⟩ in
  let i := i⟨smm := 0⟩ in
  if nonzero (val &&& ICW1_SNGL) then (i, -1)
  else if val &&& ICW1_IC4 =? 0 then (i, -1)
  else (i⟨icw_num := u8 (icw_num i + 1)⟩, 0).

Definition vpic_icw2 (val : Z) (i : i8259_reg_state) : i8259_reg_state * Z :=
  let i := i⟨irq_base := val &&& 0xf8⟩ in
  (i⟨icw_num := u8 (icw_num i + 1)⟩, 0).

Definition vpic_icw3 (val : Z) (i : i8259_reg_state) : i8259_reg_state * Z :=
  (i⟨icw_num := u8 (icw_num i + 1)⟩, 0).

Definition vpic_icw4 (c : chip) (val : Z) (i : i8259_reg_state) : i8259_reg_state * Z :=
  if val &&& ICW4_8086 =? 0 then (i, -1)
  else
    let i := if nonzero (val &&& ICW4_AEOI) then i⟨aeoi := true⟩ else i in
    let i := if nonzero (val &&& ICW4_SFNM) && primary_pic c then i⟨sfn := true⟩ else i in
    let i := i⟨icw_num := 0⟩ in
    (i⟨ready := true⟩, 0).

(** The kind of VM the PIC belongs to. *)
Inductive vm_kind := ServiceVM | PostLaunchedVM | PreLaunchedVM.

Section vm.
Variable kind : vm_kind.
(** The board's table of legacy pins, set up by the I/O APIC driver. *)
Variable get_pic_pin_from_ioapic_pin : Z → Z.

Definition vpin_to_vgsi (vpin : Z) : Z :=
  match kind with
  | ServiceVM => get_pic_pin_from_ioapic_pin vpin
  | PostLaunchedVM => if vpin =? 0 then 2 else vpin
  | PreLaunchedVM => vpin
  end.

Definition vgsi_to_vpin (vgsi : Z) : Z :=
  match kind with
  | ServiceVM => get_pic_pin_from_ioapic_pin vgsi
  | PostLaunchedVM => if vgsi =? 2 then 0 else vgsi
  | PreLaunchedVM => vgsi
  end.

(** The loop of vpic_ocw1 that remaps the pins that became unmasked. *)
Fixpoint remap_loop (n : nat) (c : chip) (pin old new : Z) (v : acrn_vpic) : acrn_vpic :=
  match n with
  | O => v
  | S n =>
      let bit := 2 ^ pin in
      let v := if (new &&& bit =? 0) && nonzero (old &&& bit) then
                 if (pin =? 2) && primary_pic c then v
                 else
                   let virt_pin := if primary_pic c then pin else pin + 8 in
                   emit (ptirq_intx_pin_remap (vpin_to_vgsi virt_pin)) v
               else v in
      remap_loop n c (u32 (pin + 1) &&& 0x7) old new v
  end.

Definition vpic_ocw1 (c : chip) (val : Z) (v : acrn_vpic) : acrn_vpic * Z :=
  let i := at_chip v c in
  let old := mask i in
  let i := i⟨mask := val &&& 0xff⟩ in
  let v := set_chip c i v in
  (remap_loop (Z.to_nat NR_VPIC_PINS_PER_CHIP) c (u32 (lowprio i + 1) &&& 0x7) old (mask i) v, 0).

Definition vpic_ocw2 (c : chip) (val : Z) (v : acrn_vpic) : acrn_vpic * Z :=
  let i := at_chip v c in
  let i := i⟨rotate := nonzero (val &&& OCW2_R)⟩ in
  if nonzero (val &&& OCW2_EOI) then
    let isr_bit := if nonzero (val &&& OCW2_SL) then val &&& 0x7 else vpic_get_highest_isrpin i in
    let i := if isr_bit <? NR_VPIC_PINS_PER_CHIP then
               let i := i⟨service := u8 (service i &&& bnot 32 (2 ^ isr_bit))⟩ in
               if rotate i then i⟨lowprio := isr_bit⟩ else i
             else i in
    let v := set_chip c i v in
    if nonzero (elc i &&& 2 ^ (isr_bit &&& 0x7)) then
      let vgsi := vpin_to_vgsi (if primary_pic c then isr_bit else u32 (isr_bit + 8)) in
      (emit (ptirq_intx_ack vgsi) v, 0)
    else (v, 0)
  else if nonzero (val &&& OCW2_SL) && rotate i then (set_chip c i⟨lowprio := val &&& 0x7⟩ v, 0)
  else (set_chip c i v, 0).

Definition vpic_ocw3 (val : Z) (i : i8259_reg_state) : i8259_reg_state * Z :=
  let i := if nonzero (val &&& OCW3_ESMM) then
             i⟨smm := if nonzero (val &&& OCW3_SMM) then 1 else 0⟩ else i in
  if nonzero (val &&& OCW3_RR) then
    let i := i⟨rd_cmd_reg := val &&& OCW3_RIS⟩ in
    (i⟨poll := nonzero (val &&& OCW3_P)⟩, 0)
  else (i, 0).

(** ** The interface to devices and to the CPU *)

Definition vpic_set_irqline (vgsi : Z) (operation : gsi_op) (v : acrn_vpic) : acrn_vpic :=
  if vgsi <? NR_VPIC_PINS_TOTAL then
    if ready (at_chip v (chip_of vgsi)) then
      let pin := vgsi_to_vpin vgsi in
      let v := match operation with
               | GSI_SET_HIGH => vpic_set_pinstate pin 1 v
               | GSI_SET_LOW => vpic_set_pinstate pin 0 v
               | GSI_RAISING_PULSE => vpic_set_pinstate pin 0 (vpic_set_pinstate pin 1 v)
               | GSI_FALLING_PULSE => vpic_set_pinstate pin 1 (vpic_set_pinstate pin 0 v)
               end in
      vpic_notify_intr v
    else v
  else v.

Definition vpic_pincount : Z := NR_VPIC_PINS_TOTAL.

Definition vpic_get_irqline_trigger_mode (vgsi : Z) (v : acrn_vpic) : vpic_trigger :=
  let irqline := vgsi_to_vpin vgsi in
  if level_triggered (at_chip v (chip_of irqline)) (irqline &&& 0x7)
  then LEVEL_TRIGGER else EDGE_TRIGGER.

Definition vpic_pending_intr (v : acrn_vpic) : Z :=
  let pin := vpic_get_highest_irrpin (i8259_0 v) in
  let '(i, pin) := if pin =? 2 then (i8259_1 v, vpic_get_highest_irrpin (i8259_1 v))
                   else (i8259_0 v, pin) in
  if NR_VPIC_PINS_PER_CHIP <=? pin then VECTOR_INVALID else u32 (irq_base i + pin).

Definition vpic_pin_accepted (pin : Z) (i : i8259_reg_state) : i8259_reg_state :=
  let i := i⟨intr_raised := false⟩ in
  let i := if elc i &&& 2 ^ pin =? 0 then i⟨request := u8 (request i &&& bnot 32 (2 ^ pin))⟩
           else i in
  if aeoi i then
    if rotate i then i⟨lowprio := pin⟩ else i
  else i⟨service := service i ||| 2 ^ pin⟩.

Definition vpic_intr_accepted (vector : Z) (v : acrn_vpic) : acrn_vpic :=
  let pin := vector &&& 0x7 in
  let v := if vector &&& bnot 32 0x7 =? irq_base (i8259_1 v) then
             let v := v⟨i8259_1 := vpic_pin_accepted pin (i8259_1 v)⟩ in
             v⟨i8259_0 := vpic_pin_accepted 2 (i8259_0 v)⟩
           else v⟨i8259_0 := vpic_pin_accepted pin (i8259_0 v)⟩ in
  vpic_notify_intr v.

(** The caller on the virtual CPU: vcpu_do_pending_extint of
    arch/x86/guest/virq.c. The vector injected, if any. *)
Definition vcpu_do_pending_extint (v : acrn_vpic) : acrn_vpic * option Z :=
  let vector := vpic_pending_intr v in
  if vector <=? NR_MAX_VECTOR then (vpic_intr_accepted vector v, Some (vector &&& 0xFF))
  else (v, None).

(** ** Ports *)

Definition vpic_read (c : chip) (port : Z) (v : acrn_vpic) : acrn_vpic * Z :=
  let i := at_chip v c in
  if poll i then
    let i := i⟨poll := false⟩ in
    let pin := vpic_get_highest_irrpin i in
    if pin <? NR_VPIC_PINS_PER_CHIP then (set_chip c (vpic_pin_accepted pin i) v, 0x80 ||| pin)
    else (set_chip c i v, 0)
  else
    (v, if nonzero (port &&& ICU_IMR_OFFSET) then mask i
        else if rd_cmd_reg i =? OCW3_RIS then service i else request i).

(** The decoding of a written byte; [vpic_write] then notifies. *)
Definition write_switch (c : chip) (port val : Z) (v : acrn_vpic) : acrn_vpic * Z :=
  let i := at_chip v c in
  let on_chip (r : i8259_reg_state * Z) := (set_chip c r.1 v, r.2) in
  if nonzero (port &&& ICU_IMR_OFFSET) then
    if icw_num i =? 2 then on_chip (vpic_icw2 val i)
    else if icw_num i =? 3 then on_chip (vpic_icw3 val i)
    else if icw_num i =? 4 then on_chip (vpic_icw4 c val i)
    else vpic_ocw1 c val v
  else
    let '(v, error) := if nonzero (val &&& 2 ^ 4) then on_chip (vpic_icw1 val i) else (v, 0) in
    let i := at_chip v c in
    if ready i then
      if nonzero (val &&& 2 ^ 3) then
        let '(i, error) := vpic_ocw3 val i in (set_chip c i v, error)
      else vpic_ocw2 c val v
    else (v, error).

Definition vpic_write (c : chip) (port eax : Z) (v : acrn_vpic) : acrn_vpic * Z :=
  let '(v, error) := write_switch c port (u8 eax) v in
  ((if ready (at_chip v c) then vpic_notify_intr v else v), error).

(** vpic_primary_handler and vpic_secondary_handler: the new state, the value
    of [eax] afterwards and the return value. *)
Definition vpic_handler (c : chip) (in_ : bool) (port bytes eax : Z) (v : acrn_vpic)
    : acrn_vpic * Z * Z :=
  if negb (bytes =? 1) then (v, eax, -1)
  else if in_ then let '(v, r) := vpic_read c port v in (v, r, 0)
  else let '(v, r) := vpic_write c port eax v in (v, eax, r).
Definition vpic_primary_handler := vpic_handler Primary.
Definition vpic_secondary_handler := vpic_handler Secondary.

(** The value of the pending request afterwards. *)
Definition vpic_primary_io_read (addr width value : Z) (v : acrn_vpic) : acrn_vpic * Z :=
  (vpic_primary_handler true addr width value v).1.
Definition vpic_primary_io_write (addr width val : Z) (v : acrn_vpic) : acrn_vpic :=
  (vpic_primary_handler false addr width val v).1.1.
Definition vpic_secondary_io_read (addr width value : Z) (v : acrn_vpic) : acrn_vpic * Z :=
  (vpic_secondary_handler true addr width value v).1.
Definition vpic_secondary_io_write (addr width val : Z) (v : acrn_vpic) : acrn_vpic :=
  (vpic_secondary_handler false addr width val v).1.1.

Definition vpic_elc_handler (in_ : bool) (port bytes eax : Z) (v : acrn_vpic)
    : acrn_vpic * Z * Z :=
  let is_primary_vpic := port =? IO_ELCR1 in
  if bytes =? 1 then
    if in_ then (v, (if is_primary_vpic then elc (i8259_0 v) else elc (i8259_1 v)), 0)
    else if is_primary_vpic then (v⟨i8259_0 := (i8259_0 v)⟨elc := u8 (eax &&& 0xf8)⟩⟩, eax, 0)
    else (v⟨i8259_1 := (i8259_1 v)⟨elc := u8 (eax &&& 0xde)⟩⟩, eax, 0)
  else (v, eax, -1).
Definition vpic_elc_io_read (addr width value : Z) (v : acrn_vpic) : acrn_vpic * Z :=
  (vpic_elc_handler true addr width value v).1.
Definition vpic_elc_io_write (addr width val : Z) (v : acrn_vpic) : acrn_vpic :=
  (vpic_elc_handler false addr width val v).1.1.

Definition vpic_register_io_handler (v : acrn_vpic) : acrn_vpic :=
  let v := emit (register_pio_emulation_handler 0x20 2) v in
  let v := emit (register_pio_emulation_handler 0xa0 2) v in
  emit (register_pio_emulation_handler 0x4d0 2) v.

Definition vpic_init (v : acrn_vpic) : acrn_vpic :=
  let v := vpic_register_io_handler v in
  let v := v⟨i8259_0 := (i8259_0 v)⟨mask := 0xff⟩⟩ in
  v⟨i8259_1 := (i8259_1 v)⟨mask := 0xff⟩⟩.
End vm.

(** A PIC in zero-initialised memory. *)
Definition zero_i8259 : i8259_reg_state :=
  mk_i8259 false 0 0 false false false false 0 0 0 0 0 (replicate 8 0) 0 false 0.
Definition zero_vpic : acrn_vpic := mk_vpic zero_i8259 zero_i8259 VPIC_WIRE_INTR [].

(** ** Priority order *)

(** The [k]-th pin in the order of priority, and the place of a pin in it: the
    pin after [lowprio] comes first. *)
Definition pin_at (i : i8259_reg_state) (k : Z) : Z := (lowprio i + 1 + k) mod 8.
Definition rank (i : i8259_reg_state) (p : Z) : Z := (p - lowprio i - 1) mod 8.

(** The in-service bits that lock out requests. *)
Definition serviced (i : i8259_reg_state) : Z :=
  if nonzero (smm i) then 0
  else if sfn i then u8 (service i &&& bnot 32 (2 ^ 2)) else service i.

(** Pin [p] is requested and not masked. *)
Definition eligible (i : i8259_reg_state) (p : Z) : bool :=
  Z.testbit (request i) p && negb (Z.testbit (mask i) p).

(** Pin [p] may interrupt the CPU: it is eligible and no pin of the same or of
    higher priority is in service. *)
Definition can_interrupt (i : i8259_reg_state) (p : Z) : Prop :=
  0 ≤ p < 8 ∧ eligible i p = true
  ∧ ∀ q, 0 ≤ q < 8 → rank i q ≤ rank i p → Z.testbit (serviced i) q = false.

(** Pin [p] is in service and can be ended by a non-specific EOI. *)
Definition can_end (i : i8259_reg_state) (p : Z) : Prop :=
  0 ≤ p < 8 ∧ Z.testbit (service i) p = true
  ∧ ¬ (smm i ≠ 0 ∧ Z.testbit (mask i) p = true).

Lemma pin_at_range i k : 0 ≤ pin_at i k < 8.
Proof. apply Z.mod_pos_bound. lia. Qed.

Lemma rank_pin_at i k : 0 ≤ k < 8 → rank i (pin_at i k) = k.
Proof. unfold rank, pin_at. intros Hk. Z.to_euclidean_division_equations. lia. Qed.

Lemma pin_at_rank i p : 0 ≤ p < 8 → pin_at i (rank i p) = p.
Proof. unfold rank, pin_at. intros Hp. Z.to_euclidean_division_equations. lia. Qed.

Lemma rank_range i p : 0 ≤ rank i p < 8.
Proof. apply Z.mod_pos_bound. lia. Qed.

Lemma and_7 x : u32 x &&& 0x7 = x mod 8.
Proof.
  change 0x7 with (Z.ones 3). rewrite Z.land_ones by lia. unfold u32.
  Z.to_euclidean_division_equations. lia.
Qed.

Lemma pin_at_succ i k : u32 (pin_at i k + 1) &&& 0x7 = pin_at i (k + 1).
Proof. rewrite and_7. unfold pin_at. Z.to_euclidean_division_equations. lia. Qed.

Lemma test_pin x p : 0 ≤ p → nonzero (x &&& 2 ^ p) = Z.testbit x p.
Proof. apply land_pow2_nonzero. Qed.

Lemma test_pin_clear x p : 0 ≤ p → (x &&& 2 ^ p =? 0) = negb (Z.testbit x p).
Proof. intros Hp. rewrite <- test_pin by done. unfold nonzero. by rewrite negb_involutive. Qed.

(** The loop over the pins from place [k] on stops at the first one in service
    or eligible. *)
Lemma irr_loop_spec i s n : ∀ k, k + Z.of_nat n = 8 → 0 ≤ k →
  (irr_loop n (pin_at i k) s i = INVALID_INTERRUPT_PIN
   ∧ ∀ m, k ≤ m < 8 → eligible i (pin_at i m) = true →
       ∃ j, k ≤ j ≤ m ∧ Z.testbit s (pin_at i j) = true)
  ∨ (∃ m, k ≤ m < 8 ∧ irr_loop n (pin_at i k) s i = pin_at i m
      ∧ eligible i (pin_at i m) = true
      ∧ ∀ j, k ≤ j ≤ m → Z.testbit s (pin_at i j) = false
          ∧ (j < m → eligible i (pin_at i j) = false)).
Proof.
  induction n as [|n IH]; intros k Hk Hk0; cbn [irr_loop].
  - left. split; [done|]. intros m ?. lia.
  - pose proof (pin_at_range i k). rewrite !test_pin, test_pin_clear by lia. fold (eligible i (pin_at i k)).
    destruct (Z.testbit s (pin_at i k)) eqn:Es.
    { left. split; [done|]. intros m Hm _. exists k. split; [lia|done]. }
    destruct (eligible i (pin_at i k)) eqn:Ee.
    { right. exists k. split_and!; [lia|lia|done|done|].
      intros j Hj. replace j with k by lia. split; [done|lia]. }
    rewrite pin_at_succ. destruct (IH (k + 1)) as [[-> Hno]|(m & Hm & -> & He & Hj)]; [lia|lia| |].
    + left. split; [done|]. intros m Hm Hem. destruct (decide (m = k)) as [->|]; [congruence|].
      destruct (Hno m) as (j & ? & ?); [lia|done|]. exists j. split; [lia|done].
    + right. exists m. split_and!; [lia|lia|done|done|].
      intros j Hjm. destruct (decide (j = k)) as [->|]; [done|]. apply Hj. lia.
Qed.

(** The same for the loop over the in-service pins. *)
Lemma isr_loop_spec i n : ∀ k, k + Z.of_nat n = 8 → 0 ≤ k →
  (isr_loop n (pin_at i k) i = INVALID_INTERRUPT_PIN ∧ ∀ m, k ≤ m < 8 → ¬ can_end i (pin_at i m))
  ∨ (∃ m, k ≤ m < 8 ∧ isr_loop n (pin_at i k) i = pin_at i m ∧ can_end i (pin_at i m)
      ∧ ∀ j, k ≤ j < m → ¬ can_end i (pin_at i j)).
Proof.
  induction n as [|n IH]; intros k Hk Hk0; cbn [isr_loop].
  - left. split; [done|]. intros m ?. lia.
  - pose proof (pin_at_range i k) as Hr. rewrite !test_pin by lia. rewrite pin_at_succ.
    assert (Hstep : ¬ can_end i (pin_at i k) →
      (isr_loop n (pin_at i (k + 1)) i = INVALID_INTERRUPT_PIN
       ∧ ∀ m, k ≤ m < 8 → ¬ can_end i (pin_at i m))
      ∨ (∃ m, k ≤ m < 8 ∧ isr_loop n (pin_at i (k + 1)) i = pin_at i m ∧ can_end i (pin_at i m)
          ∧ ∀ j, k ≤ j < m → ¬ can_end i (pin_at i j))).
    { intros Hn. destruct (IH (k + 1)) as [[-> Hno]|(m & Hm & -> & He & Hj)]; [lia|lia| |].
      - left. split; [done|]. intros m Hm. destruct (decide (m = k)) as [->|]; [done|]. apply Hno. lia.
      - right. exists m. split_and!; [lia|lia|done|done|].
        intros j Hjm. destruct (decide (j = k)) as [->|]; [done|]. apply Hj. lia. }
    unfold can_end at 1 in Hstep.
    destruct (Z.testbit (service i) (pin_at i k)) eqn:Es; [|apply Hstep; naive_solver].
    destruct (nonzero (smm i) && Z.testbit (mask i) (pin_at i k)) eqn:Em.
    + apply Hstep. zreflect. tauto.
    + right. exists k. split_and!; [lia|lia|done| |lia]. split_and!; [lia|lia|done|].
      intros [Hs Hmk]. rewrite Hmk, andb_true_r in Em. zreflect. done.
Qed.

Lemma first_pin i : u32 (lowprio i + 1) &&& 0x7 = pin_at i 0.
Proof. rewrite and_7. unfold pin_at. by rewrite Z.add_0_r. Qed.

Lemma irr_highest i : let p := vpic_get_highest_irrpin i in
  (can_interrupt i p ∧ ∀ q, can_interrupt i q → rank i p ≤ rank i q)
  ∨ (p = INVALID_INTERRUPT_PIN ∧ ∀ q, ¬ can_interrupt i q).
Proof.
  unfold vpic_get_highest_irrpin. cbv zeta. rewrite first_pin. fold (serviced i).
  change (Z.to_nat NR_VPIC_PINS_PER_CHIP) with 8%nat.
  destruct (irr_loop_spec i (serviced i) 8 0) as [[-> Hno]|(m & Hm & -> & He & Hj)]; [lia|lia| |].
  - right. split; [done|]. intros q (Hq & Hel & Hs). pose proof (rank_range i q).
    destruct (Hno (rank i q)) as (j & Hj & Hsj); [lia|by rewrite pin_at_rank|].
    rewrite Hs in Hsj; [done|apply pin_at_range|]. rewrite rank_pin_at; lia.
  - left. split.
    + split_and!; [apply pin_at_range..|done|]. intros q Hq. rewrite rank_pin_at by lia. intros Hr.
      rewrite <- (pin_at_rank i q) by done. apply Hj. pose proof (rank_range i q). lia.
    + intros q (Hq & Hel & _). rewrite rank_pin_at by lia.
      destruct (decide (m ≤ rank i q)) as [|Hlt]; [done|]. pose proof (rank_range i q).
      destruct (Hj (rank i q)) as [_ Hne]; [lia|]. rewrite pin_at_rank in Hne by done.
      rewrite Hne in Hel by lia. done.
Qed.

Lemma isr_highest i : let p := vpic_get_highest_isrpin i in
  (can_end i p ∧ ∀ q, can_end i q → rank i p ≤ rank i q)
  ∨ (p = INVALID_INTERRUPT_PIN ∧ ∀ q, ¬ can_end i q).
Proof.
  unfold vpic_get_highest_isrpin. cbv zeta. rewrite first_pin.
  change (Z.to_nat NR_VPIC_PINS_PER_CHIP) with 8%nat.
  destruct (isr_loop_spec i 8 0) as [[-> Hno]|(m & Hm & -> & He & Hj)]; [lia|lia| |].
  - right. split; [done|]. intros q Hq. pose proof (rank_range i q).
    apply (Hno (rank i q)); [lia|]. rewrite pin_at_rank; [done|apply Hq].
  - left. split; [done|]. intros q Hq. rewrite rank_pin_at by lia.
    destruct (decide (m ≤ rank i q)) as [|Hlt]; [done|]. pose proof (rank_range i q).
    exfalso. apply (Hj (rank i q)); [lia|]. rewrite pin_at_rank; [done|apply Hq].
Qed.

(** C38: The priority logic is that of the 8259. The pin reported as the highest
    request is the pin of highest priority among those that are requested, not
    masked, and not locked out by an in-service pin of the same or higher
    priority (the special mask and special fully nested modes included), and the
    invalid pin is reported exactly when there is none; the pin a non-specific
    EOI ends is the in-service pin of highest priority that special mask mode
    does not protect. *)
Theorem vpic_priority_correct i :
  (let p := vpic_get_highest_irrpin i in
   (can_interrupt i p ∧ ∀ q, can_interrupt i q → rank i p ≤ rank i q)
   ∨ (p = INVALID_INTERRUPT_PIN ∧ ∀ q, ¬ can_interrupt i q))
  ∧ (let p := vpic_get_highest_isrpin i in
     (can_end i p ∧ ∀ q, can_end i q → rank i p ≤ rank i q)
     ∨ (p = INVALID_INTERRUPT_PIN ∧ ∀ q, ¬ can_end i q)).
Proof. split; [apply irr_highest|apply isr_highest]. Qed.

(** ** The invariant of the registers *)

(** The pins that may be level triggered. *)
Definition elc_pins (c : chip) : Z := match c with Primary => 0xf8 | Secondary => 0xde end.

Record chip_wf (c : chip) (i : i8259_reg_state) : Prop := {
  cw_request : word 8 (request i);
  cw_service : word 8 (service i);
  cw_mask : word 8 (mask i);
  cw_lowprio : 0 ≤ lowprio i < 8;
  cw_icw : 0 ≤ icw_num i ≤ 4;
  cw_ready : ready i = true → icw_num i = 0;
  cw_pins : length (pin_state i) = 8%nat ∧ Forall (λ l, l = 0 ∨ l = 1) (pin_state i);
  cw_base : ∃ b, irq_base i = 8 * b ∧ 0 ≤ b < 32;
  cw_elc : elc i &&& elc_pins c = elc i;
  cw_sfn : sfn i = true → c = Primary;
}.

Definition vpic_wf (v : acrn_vpic) : Prop := ∀ c, chip_wf c (at_chip v c).

(** Every interrupt a ready chip could raise has been announced. *)
Definition announced (v : acrn_vpic) : Prop :=
  ∀ c, ready (at_chip v c) = true → vpic_get_highest_irrpin (at_chip v c) < 8 →
    intr_raised (at_chip v c) = true.

Lemma at_set_chip c c' i v : at_chip (set_chip c i v) c' = if decide (c' = c) then i else at_chip v c'.
Proof. by destruct c, c'. Qed.

Lemma set_chip_wf c i v : vpic_wf v → chip_wf c i → vpic_wf (set_chip c i v).
Proof. intros Hv Hi c'. rewrite at_set_chip. by case_decide; subst. Qed.

Lemma emit_wf e v : vpic_wf v → vpic_wf (emit e v).
Proof. intros Hv c. specialize (Hv c). by destruct c. Qed.

Lemma irrpin_valid i : vpic_get_highest_irrpin i < 8 → can_interrupt i (vpic_get_highest_irrpin i).
Proof. destruct (irr_highest i) as [[? _]|[E _]]; [done|]. rewrite E. unfold INVALID_INTERRUPT_PIN. lia. Qed.

Lemma isrpin_valid i : vpic_get_highest_isrpin i < 8 → can_end i (vpic_get_highest_isrpin i).
Proof. destruct (isr_highest i) as [[? _]|[E _]]; [done|]. rewrite E. unfold INVALID_INTERRUPT_PIN. lia. Qed.

Lemma word_set_pin x p : 0 ≤ p < 8 → word 8 x → word 8 (x ||| 2 ^ p).
Proof. intros. apply word_lor; [lia|done|by apply word_pow2]. Qed.

(** Fields of a well-formed chip after assignments to others. *)
Ltac chip_fields H :=
  destruct H; split; simpl; auto with words; try lia; try done.

Lemma set_pin_wf c p l i : 0 ≤ p < 8 → chip_wf c i → chip_wf c (set_pin p l i).
Proof.
  intros Hp H. pose proof (cw_pins _ _ H) as [Hl Hf]. pose proof (cw_request _ _ H) as Hr.
  assert (Hps : length (<[Z.to_nat p := if nonzero l then 1 else 0]> (pin_state i)) = 8%nat
    ∧ Forall (λ l, l = 0 ∨ l = 1) (<[Z.to_nat p := if nonzero l then 1 else 0]> (pin_state i))).
  { split; [by rewrite length_insert|]. apply Forall_insert; [done|]. destruct (nonzero l); auto. }
  unfold set_pin. cbv zeta. repeat case_if; chip_fields H; by apply word_set_pin.
Qed.

Lemma and7_range x : 0 ≤ x &&& 0x7 < 8.
Proof. change 0x7 with (Z.ones 3). rewrite Z.land_ones by lia. apply Z.mod_pos_bound. lia. Qed.

Lemma set_pinstate_wf pin l v : vpic_wf v → vpic_wf (vpic_set_pinstate pin l v).
Proof.
  intros Hv. unfold vpic_set_pinstate. case_if; [|done].
  apply set_chip_wf; [done|]. apply set_pin_wf; [apply and7_range|apply Hv].
Qed.

Lemma pin_accepted_wf c p i : 0 ≤ p < 8 → chip_wf c i → chip_wf c (vpic_pin_accepted p i).
Proof.
  intros Hp H. unfold vpic_pin_accepted. cbv zeta.
  repeat case_if; chip_fields H; by apply word_set_pin.
Qed.

Lemma raised_wf c b i : chip_wf c i → chip_wf c i⟨intr_raised := b⟩.
Proof. intros H. chip_fields H. Qed.

(** What vpic_notify_intr does: it only raises, and raises what can interrupt. *)
Definition cascades (v : acrn_vpic) : bool :=
  negb (intr_raised (i8259_1 v)) && (vpic_get_highest_irrpin (i8259_1 v) <? 8).
Definition after_cascade (v : acrn_vpic) : acrn_vpic :=
  if cascades v then
    vpic_set_pinstate 2 0 (vpic_set_pinstate 2 1 v⟨i8259_1 := (i8259_1 v)⟨intr_raised := true⟩⟩)
  else v.
Definition raises (v : acrn_vpic) : bool :=
  negb (intr_raised (i8259_0 v)) && (vpic_get_highest_irrpin (i8259_0 v) <? 8).

Lemma notify_eq v : vpic_notify_intr v =
  let v := after_cascade v in
  if raises v then
    let v := v⟨i8259_0 := (i8259_0 v)⟨intr_raised := true⟩⟩ in
    match wire_mode v with
    | VPIC_WIRE_INTR => emit vcpu_inject_extint v
    | _ => emit vioapic_pulse_pin0 (emit vlapic_set_lint0 v)
    end
  else v.
Proof. reflexivity. Qed.

Lemma after_cascade_1 v : i8259_1 (after_cascade v) =
  if cascades v then (i8259_1 v)⟨intr_raised := true⟩ else i8259_1 v.
Proof. unfold after_cascade. by destruct (cascades v). Qed.

Lemma after_cascade_0 v : i8259_0 (after_cascade v) =
  if cascades v then set_pin 2 0 (set_pin 2 1 (i8259_0 v)) else i8259_0 v.
Proof. unfold after_cascade. by destruct (cascades v). Qed.

Lemma notify_1 v : i8259_1 (vpic_notify_intr v) = i8259_1 (after_cascade v).
Proof. rewrite notify_eq. cbv zeta. destruct (raises _); [|done]. simpl. by destruct (wire_mode _). Qed.

Lemma notify_0 v : i8259_0 (vpic_notify_intr v) =
  let i := i8259_0 (after_cascade v) in
  if raises (after_cascade v) then i⟨intr_raised := true⟩ else i.
Proof. rewrite notify_eq. cbv zeta. destruct (raises _); [|done]. simpl. by destruct (wire_mode _). Qed.

Lemma notify_wf v : vpic_wf v → vpic_wf (vpic_notify_intr v).
Proof.
  intros Hv. pose proof (Hv Primary) as H0. pose proof (Hv Secondary) as H1. simpl in H0, H1.
  intros [|]; simpl; [rewrite notify_0|rewrite notify_1].
  - cbv zeta. rewrite after_cascade_0.
    destruct (raises _), (cascades v); try apply raised_wf; try done; by repeat apply set_pin_wf.
  - rewrite after_cascade_1. destruct (cascades v); [by apply raised_wf|done].
Qed.

Lemma notify_announced v : announced (vpic_notify_intr v).
Proof.
  intros [|]; simpl; [rewrite notify_0|rewrite notify_1]; cbv zeta.
  - unfold raises. destruct (intr_raised (i8259_0 (after_cascade v))) eqn:E; cbn [negb andb]; [done|].
    destruct (Z.ltb_spec (vpic_get_highest_irrpin (i8259_0 (after_cascade v))) 8); [done|lia].
  - rewrite after_cascade_1. unfold cascades.
    destruct (intr_raised (i8259_1 v)) eqn:E; cbn [negb andb]; [done|].
    destruct (Z.ltb_spec (vpic_get_highest_irrpin (i8259_1 v)) 8); [done|lia].
Qed.

(** *** The operations keep the invariant *)

Lemma base_wf val : word 8 val → ∃ b, val &&& 0xf8 = 8 * b ∧ 0 ≤ b < 32.
Proof.
  intros Hv. exists (val / 8). unfold word in Hv. split; [|Z.to_euclidean_division_equations; lia].
  change 0xf8 with (Z.shiftl (Z.ones 5) 3). apply Z.bits_inj_iff'. intros n Hn.
  change (8 * (val / 8)) with (2 ^ 3 * (val / 2 ^ 3)). rewrite Z.mul_comm, <- Z.shiftl_mul_pow2 by lia.
  rewrite <- Z.shiftr_div_pow2, Z.land_spec, !Z.shiftl_spec by lia.
  destruct (decide (n < 3)).
  - rewrite (Z.testbit_neg_r (Z.ones 5)), (Z.testbit_neg_r (Z.shiftr val 3)) by lia.
    by rewrite andb_false_r.
  - rewrite Z.shiftr_spec, Z.testbit_ones_nonneg by lia. replace (n - 3 + 3) with n by lia.
    destruct (Z.ltb_spec (n - 3) 5); [by rewrite andb_true_r|]. rewrite andb_false_r.
    symmetry. apply (word_testbit_high 8); [lia|done].
Qed.

Section ops.
Variable kind : vm_kind.
Variable pic_pin : Z → Z.

Lemma icw1_wf c val i : chip_wf c i → chip_wf c (vpic_icw1 val i).1.
Proof. intros H. unfold vpic_icw1. cbv zeta. repeat case_if; chip_fields H. Qed.

Lemma icw2_wf c val i : word 8 val → icw_num i = 2 → chip_wf c i → chip_wf c (vpic_icw2 val i).1.
Proof.
  intros Hv Hn H. pose proof (cw_ready _ _ H) as Hr. rewrite Hn in Hr. pose proof (base_wf val Hv).
  unfold vpic_icw2. chip_fields H; rewrite Hn; [by vm_compute|]. intros Hrd. by specialize (Hr Hrd).
Qed.

Lemma icw3_wf c val i : icw_num i = 3 → chip_wf c i → chip_wf c (vpic_icw3 val i).1.
Proof.
  intros Hn H. pose proof (cw_ready _ _ H) as Hr. rewrite Hn in Hr.
  unfold vpic_icw3. chip_fields H; rewrite Hn; [by vm_compute|]. intros Hrd. by specialize (Hr Hrd).
Qed.

Lemma icw4_wf c val i : chip_wf c i → chip_wf c (vpic_icw4 c val i).1.
Proof.
  intros H. unfold vpic_icw4, primary_pic. cbv zeta.
  destruct (val &&& ICW4_8086 =? 0); [done|]. destruct (nonzero (val &&& ICW4_SFNM)); cbn [andb];
    [destruct (bool_decide_reflect (c = Primary))|]; case_if; chip_fields H.
Qed.

Lemma ocw3_wf c val i : chip_wf c i → chip_wf c (vpic_ocw3 val i).1.
Proof. intros H. unfold vpic_ocw3. cbv zeta. repeat case_if; chip_fields H. Qed.

Lemma remap_at n c p old new : ∀ v c', at_chip (remap_loop kind pic_pin n c p old new v) c' = at_chip v c'.
Proof.
  revert p. induction n as [|n IH]; intros p v c'; cbn [remap_loop]; [done|].
  cbv zeta. rewrite IH. repeat case_if; by destruct c'.
Qed.

Lemma ocw1_at c val v c' : at_chip (vpic_ocw1 kind pic_pin c val v).1 c'
  = if decide (c' = c) then (at_chip v c)⟨mask := val &&& 0xff⟩ else at_chip v c'.
Proof. unfold vpic_ocw1. cbv zeta. cbn [fst]. rewrite remap_at. apply at_set_chip. Qed.

Lemma ocw1_wf c val v : word 8 val → vpic_wf v → vpic_wf (vpic_ocw1 kind pic_pin c val v).1.
Proof.
  intros Hval Hv c'. rewrite ocw1_at. case_decide; [subst|apply Hv].
  pose proof (Hv c) as H. pose proof (word_land_l 8 val 0xff ltac:(lia) Hval). chip_fields H.
Qed.

(** The chip after OCW2; the other chip is left alone. *)
Definition ocw2_chip (val : Z) (i : i8259_reg_state) : i8259_reg_state :=
  let i := i⟨rotate := nonzero (val &&& OCW2_R)⟩ in
  if nonzero (val &&& OCW2_EOI) then
    let isr_bit := if nonzero (val &&& OCW2_SL) then val &&& 0x7 else vpic_get_highest_isrpin i in
    if isr_bit <? 8 then
      let i := i⟨service := u8 (service i &&& bnot 32 (2 ^ isr_bit))⟩ in
      if rotate i then i⟨lowprio := isr_bit⟩ else i
    else i
  else if nonzero (val &&& OCW2_SL) && rotate i then i⟨lowprio := val &&& 0x7⟩ else i.

Lemma ocw2_at c val v c' : at_chip (vpic_ocw2 kind pic_pin c val v).1 c'
  = if decide (c' = c) then ocw2_chip val (at_chip v c) else at_chip v c'.
Proof.
  unfold vpic_ocw2, ocw2_chip, NR_VPIC_PINS_PER_CHIP. cbv zeta.
  destruct (nonzero (val &&& OCW2_EOI)).
  - set (i := if _ <? 8 then _ else _).
    destruct (nonzero (elc i &&& _)); cbn [fst]; rewrite <- at_set_chip; by destruct c, c'.
  - case_if; cbn [fst]; by rewrite at_set_chip.
Qed.

Lemma ocw2_chip_wf c val i : chip_wf c i → chip_wf c (ocw2_chip val i).
Proof.
  intros H. pose proof (and7_range val) as H7. unfold ocw2_chip. cbv zeta.
  set (i0 := i⟨rotate := _⟩). pose proof (isrpin_valid i0) as Hv.
  set (b := if nonzero (val &&& OCW2_SL) then val &&& 0x7 else vpic_get_highest_isrpin i0).
  assert (Hb : b < 8 → 0 ≤ b).
  { unfold b. case_if; [lia|]. intros Hlt. apply Hv in Hlt as [? _]. lia. }
  case_if; [destruct (Z.ltb_spec b 8)|]; repeat case_if; chip_fields H.
Qed.

Lemma ocw2_wf c val v : vpic_wf v → vpic_wf (vpic_ocw2 kind pic_pin c val v).1.
Proof.
  intros Hv c'. rewrite ocw2_at. case_decide; [subst|apply Hv]. apply ocw2_chip_wf, Hv.
Qed.

Lemma write_switch_wf c port val v : word 8 val → vpic_wf v →
  vpic_wf (write_switch kind pic_pin c port val v).1.
Proof.
  intros Hval Hv. unfold write_switch. cbv zeta.
  assert (Ho : ∀ w, vpic_wf w → vpic_wf (if ready (at_chip w c) then
    if nonzero (val &&& 2 ^ 3) then let '(i, e) := vpic_ocw3 val (at_chip w c) in (set_chip c i w, e)
    else vpic_ocw2 kind pic_pin c val w else (w, 0)).1).
  { intros w Hw. case_if; [|done]. case_if; [|by apply ocw2_wf].
    pose proof (ocw3_wf c val _ (Hw c)). destruct (vpic_ocw3 _ _). by apply set_chip_wf. }
  destruct (nonzero (port &&& ICU_IMR_OFFSET)).
  - destruct (Z.eqb_spec (icw_num (at_chip v c)) 2); [apply set_chip_wf, icw2_wf; auto|].
    destruct (Z.eqb_spec (icw_num (at_chip v c)) 3); [apply set_chip_wf, icw3_wf; auto|].
    case_if; [apply set_chip_wf, icw4_wf; auto|by apply ocw1_wf].
  - destruct (nonzero (val &&& 2 ^ 4)); [|by apply Ho].
    pose proof (Ho (set_chip c (vpic_icw1 val (at_chip v c)).1 v)) as Hi.
    rewrite at_set_chip, decide_True in * by done.
    assert (Hw : vpic_wf (set_chip c (vpic_icw1 val (at_chip v c)).1 v)) by by apply set_chip_wf, icw1_wf.
    specialize (Hi Hw). by destruct (ready _).
Qed.

(** A write only changes the chip it goes to. *)
Lemma write_switch_other c port val v c' : c' ≠ c →
  at_chip (write_switch kind pic_pin c port val v).1 c' = at_chip v c'.
Proof.
  intros Hc. unfold write_switch. cbv zeta.
  assert (Hs : ∀ i w, at_chip (set_chip c i w) c' = at_chip w c').
  { intros i w. by rewrite at_set_chip, decide_False. }
  repeat match goal with |- context [if ?b then _ else _] => destruct b end; cbn [fst];
    rewrite ?ocw1_at, ?ocw2_at, ?Hs, ?decide_False by done; rewrite ?Hs; try done;
    destruct (vpic_ocw3 _ _); cbn [fst]; by rewrite !Hs.
Qed.

Lemma write_wf c port eax v : vpic_wf v → vpic_wf (vpic_write kind pic_pin c port eax v).1.
Proof.
  intros Hv. unfold vpic_write.
  pose proof (write_switch_wf c port (u8 eax) v (word_u8 _) Hv) as Hw.
  destruct (write_switch _ _ _ _ _ _) as [w e]. cbn [fst] in *. case_if; [by apply notify_wf|done].
Qed.

Lemma write_announced c port eax v : announced v → announced (vpic_write kind pic_pin c port eax v).1.
Proof.
  intros Hv. unfold vpic_write.
  pose proof (write_switch_other c port (u8 eax) v) as Ho.
  destruct (write_switch _ _ _ _ _ _) as [w e]. cbn [fst] in *.
  destruct (ready (at_chip w c)) eqn:E; [apply notify_announced|].
  intros c' Hr. destruct (decide (c' = c)) as [->|Hne]; [congruence|].
  rewrite Ho in * by done. by apply Hv.
Qed.

Lemma read_wf c port v : vpic_wf v → vpic_wf (vpic_read c port v).1.
Proof.
  intros Hv. unfold vpic_read. cbv zeta. case_if; [|done].
  set (i := (at_chip v c)⟨poll := false⟩). assert (Hi : chip_wf c i).
  { pose proof (Hv c) as H. chip_fields H. }
  destruct (Z.ltb_spec (vpic_get_highest_irrpin i) NR_VPIC_PINS_PER_CHIP) as [Hlt|];
    apply set_chip_wf; try done.
  apply pin_accepted_wf; [|done]. by apply irrpin_valid in Hlt as [? _].
Qed.

Lemma read_announced c port v : poll (at_chip v c) = false → announced v →
  announced (vpic_read c port v).1.
Proof. intros Hp Hv. unfold vpic_read. cbv zeta. by rewrite Hp. Qed.

Lemma elc_wf in_ port bytes eax v : vpic_wf v → vpic_wf (vpic_elc_handler in_ port bytes eax v).1.1.
Proof.
  intros Hv. unfold vpic_elc_handler. cbv zeta. repeat case_if; cbn [fst]; try done.
  - apply (set_chip_wf Primary); [done|]. pose proof (Hv Primary) as H.
    chip_fields H. unfold u8. rewrite <- !(Z.land_ones _ 8), <- !Z.land_assoc by lia. f_equal.
  - apply (set_chip_wf Secondary); [done|]. pose proof (Hv Secondary) as H.
    chip_fields H. unfold u8. rewrite <- !(Z.land_ones _ 8), <- !Z.land_assoc by lia. f_equal.
Qed.

Lemma elc_announced in_ port bytes eax v : announced v →
  announced (vpic_elc_handler in_ port bytes eax v).1.1.
Proof.
  intros Hv. pose proof (Hv Primary) as H0. pose proof (Hv Secondary) as H1.
  unfold vpic_elc_handler. cbv zeta. repeat case_if; cbn [fst]; try done; by intros [|].
Qed.

Lemma irqline_wf g op v : vpic_wf v → vpic_wf (vpic_set_irqline kind pic_pin g op v).
Proof.
  intros Hv. unfold vpic_set_irqline. cbv zeta. do 2 (case_if; [|done]).
  apply notify_wf. destruct op; by repeat apply set_pinstate_wf.
Qed.

Lemma irqline_announced g op v : announced v → announced (vpic_set_irqline kind pic_pin g op v).
Proof.
  intros Hv. unfold vpic_set_irqline. cbv zeta. do 2 (case_if; [|done]). apply notify_announced.
Qed.

Lemma accepted_wf vector v : vpic_wf v → vpic_wf (vpic_intr_accepted vector v).
Proof.
  intros Hv. unfold vpic_intr_accepted. cbv zeta. apply notify_wf. case_if.
  - apply (set_chip_wf Primary), pin_accepted_wf; [|lia|apply (Hv Primary)].
    apply (set_chip_wf Secondary), pin_accepted_wf; [done|apply and7_range|apply (Hv Secondary)].
  - apply (set_chip_wf Primary), pin_accepted_wf; [done|apply and7_range|apply (Hv Primary)].
Qed.
End ops.

(** ** Runs *)

Section runs.
Variable kind : vm_kind.
Variable pic_pin : Z → Z.

Inductive vpic_op :=
  | OpLine (vgsi : Z) (op : gsi_op)
  | OpDeliver
  | OpRead (c : chip) (port width : Z)
  | OpWrite (c : chip) (port width val : Z)
  | OpElc (in_ : bool) (port width val : Z).

(** The state after an operation, and the vector it injected, if any. *)
Definition exec (op : vpic_op) (v : acrn_vpic) : acrn_vpic * option Z :=
  match op with
  | OpLine g op => (vpic_set_irqline kind pic_pin g op v, None)
  | OpDeliver => vcpu_do_pending_extint v
  | OpRead c port width => ((vpic_handler kind pic_pin c true port width 0 v).1.1, None)
  | OpWrite c port width val => ((vpic_handler kind pic_pin c false port width val v).1.1, None)
  | OpElc in_ port width val => ((vpic_elc_handler in_ port width val v).1.1, None)
  end.

Fixpoint exec_all (ops : list vpic_op) (v : acrn_vpic) : acrn_vpic * list Z :=
  match ops with
  | [] => (v, [])
  | op :: ops =>
      let '(v, o) := exec op v in
      let '(v, l) := exec_all ops v in
      (v, match o with Some vec => vec :: l | None => l end)
  end.

(** No read finds its chip in poll mode. *)
Fixpoint no_polls (ops : list vpic_op) (v : acrn_vpic) : bool :=
  match ops with
  | [] => true
  | op :: ops =>
      match op with OpRead c _ _ => negb (poll (at_chip v c)) | _ => true end
      && no_polls ops (exec op v).1
  end.

Lemma exec_wf op v : vpic_wf v → vpic_wf (exec op v).1.
Proof.
  intros Hv. destruct op; simpl.
  - by apply irqline_wf.
  - unfold vcpu_do_pending_extint. cbv zeta. case_if; [by apply accepted_wf|done].
  - unfold vpic_handler. case_if; [done|]. pose proof (read_wf c port v Hv).
    by destruct (vpic_read c port v).
  - unfold vpic_handler. case_if; [done|]. pose proof (write_wf kind pic_pin c port val v Hv).
    by destruct (vpic_write _ _ c port val v).
  - by apply elc_wf.
Qed.

Lemma exec_announced op v : match op with OpRead c _ _ => poll (at_chip v c) = false | _ => True end →
  announced v → announced (exec op v).1.
Proof.
  intros Hop Hv. destruct op; simpl.
  - by apply irqline_announced.
  - unfold vcpu_do_pending_extint. cbv zeta. case_if; [apply notify_announced|done].
  - unfold vpic_handler. case_if; [done|]. pose proof (read_announced c port v Hop Hv).
    by destruct (vpic_read c port v).
  - unfold vpic_handler. case_if; [done|]. pose proof (write_announced kind pic_pin c port val v Hv).
    by destruct (vpic_write _ _ c port val v).
  - by apply elc_announced.
Qed.

Lemma exec_all_wf ops : ∀ v, vpic_wf v →
  vpic_wf (exec_all ops v).1 ∧ (no_polls ops v = true → announced v → announced (exec_all ops v).1).
Proof.
  induction ops as [|op ops IH]; intros v Hv; simpl; [done|].
  pose proof (exec_wf op v Hv) as Hw. pose proof (exec_announced op v) as Ha.
  destruct (exec op v) as [v1 o]. cbn [fst] in *.
  destruct (IH v1 Hw) as [Hw2 Ha2]. destruct (exec_all ops v1) as [v2 l]. cbn [fst] in *.
  split; [done|]. intros [Hp Hn]%andb_true_iff Hv'. apply Ha2; [done|].
  apply Ha; [|done]. destruct op; try done. by apply negb_true_iff.
Qed.

End runs.

(** ** Delivery *)

Lemma vector_split b p : 0 ≤ b < 32 → 0 ≤ p < 8 →
  u32 (8 * b + p) = 8 * b + p ∧ 8 * b + p ≤ NR_MAX_VECTOR ∧ (8 * b + p) &&& 0xFF = 8 * b + p
  ∧ (8 * b + p) &&& 0x7 = p ∧ (8 * b + p) &&& bnot 32 0x7 = 8 * b.
Proof.
  intros Hb Hp. unfold NR_MAX_VECTOR.
  assert (Hw : word 8 (8 * b + p)) by (unfold word; lia).
  assert (Hm : (8 * b + p) &&& 0x7 = p).
  { change 0x7 with (Z.ones 3). rewrite Z.land_ones by lia. Z.to_euclidean_division_equations. lia. }
  split_and!; [apply u32_id; unfold word; lia|lia| |done|].
  - change 0xFF with (Z.ones 8). rewrite Z.land_ones by lia. by apply Z.mod_small.
  - assert (Hs : (8 * b + p) &&& bnot 32 0x7 = Z.ldiff (8 * b + p) 0x7).
    { apply Z.bits_inj_iff'. intros n Hn. rewrite Z.land_spec, Z.ldiff_spec, bnot_testbit by lia.
      destruct (Z.ltb_spec n 32); [done|]. by rewrite (word_testbit_high 8) by (done || lia). }
    rewrite Hs. change 0x7 with (Z.ones 3). rewrite Z.ldiff_ones_r by lia.
    rewrite Z.shiftl_mul_pow2, Z.shiftr_div_pow2 by lia. Z.to_euclidean_division_equations. lia.
Qed.

(** What notification and acceptance leave alone. *)
Record same_mode (i i' : i8259_reg_state) : Prop := {
  sm_service : service i' = service i;
  sm_lowprio : lowprio i' = lowprio i;
  sm_smm : smm i' = smm i;
  sm_sfn : sfn i' = sfn i;
}.

Lemma set_pin_mode p l i : same_mode i (set_pin p l i).
Proof. unfold set_pin. cbv zeta. repeat case_if; by split. Qed.

Lemma same_mode_trans i1 i2 i3 : same_mode i1 i2 → same_mode i2 i3 → same_mode i1 i3.
Proof. intros [] []. split; congruence. Qed.

Lemma notify_mode v c : same_mode (at_chip v c) (at_chip (vpic_notify_intr v) c).
Proof.
  assert (Hc : same_mode (i8259_0 v) (i8259_0 (after_cascade v))).
  { rewrite after_cascade_0. destruct (cascades v); [|done].
    eapply same_mode_trans; apply set_pin_mode. }
  destruct c; simpl; [rewrite notify_0|rewrite notify_1, after_cascade_1]; cbv zeta.
  - destruct (raises _); [|done]. destruct Hc. by split.
  - by destruct (cascades v).
Qed.

(** A pin accepted without automatic EOI is in service and locks out pins of
    its own and of lower priority. *)
Lemma accepted_nests p i i' : 0 ≤ p < 8 → aeoi i = false → smm i = 0 → sfn i = false →
  same_mode (vpic_pin_accepted p i) i' →
  Z.testbit (service i') p = true ∧ ∀ q, can_interrupt i' q → rank i' q < rank i' p.
Proof.
  intros Hp Ha Hs Hf [Es El Em En]. unfold vpic_pin_accepted in *. cbv zeta in *.
  assert (Hsv : Z.testbit (service i') p = true).
  { rewrite Es. case_if; simpl; rewrite Ha; simpl; rewrite Z.lor_spec, Z.pow2_bits_true by lia;
      apply orb_true_r. }
  split; [done|]. intros q (Hq & _ & Hlock).
  destruct (Z.lt_ge_cases (rank i' q) (rank i' p)) as [|Hge]; [done|].
  specialize (Hlock p Hp Hge). unfold serviced in Hlock.
  assert (Em' : smm i' = 0) by (rewrite Em; repeat case_if; done).
  assert (En' : sfn i' = false) by (rewrite En; repeat case_if; done).
  rewrite Em', En' in Hlock. simpl in Hlock. congruence.
Qed.

(** Pin [p] of chip [c] is the one the priority logic selects, through the
    cascade for the secondary chip. *)
Definition selected (v : acrn_vpic) (c : chip) (p : Z) : Prop :=
  can_interrupt (at_chip v c) p ∧ (∀ q, can_interrupt (at_chip v c) q → rank (at_chip v c) p ≤ rank (at_chip v c) q)
  ∧ match c with
    | Primary => p ≠ 2
    | Secondary => can_interrupt (i8259_0 v) 2
                   ∧ ∀ q, can_interrupt (i8259_0 v) q → rank (i8259_0 v) 2 ≤ rank (i8259_0 v) q
    end.

Lemma irr_invalid i : vpic_get_highest_irrpin i = INVALID_INTERRUPT_PIN → ∀ q, ¬ can_interrupt i q.
Proof.
  intros E. destruct (irr_highest i) as [[[H _] _]|[_ H]]; [|done].
  rewrite E in H. unfold INVALID_INTERRUPT_PIN in H. lia.
Qed.

Lemma pending_spec v : vpic_wf v →
  (∃ c p, selected v c p ∧ vpic_pending_intr v = irq_base (at_chip v c) + p
     ∧ vpic_pending_intr v ≤ NR_MAX_VECTOR)
  ∨ (vpic_pending_intr v = VECTOR_INVALID ∧ ∀ c p, ¬ selected v c p).
Proof.
  intros Hv. unfold vpic_pending_intr. cbv zeta.
  destruct (irr_highest (i8259_0 v)) as [[Hc Hmin]|[E Hno]].
  2: { right. rewrite E. split; [done|]. intros [|] p Hsel; [by apply (Hno p), Hsel|].
       apply (Hno 2). apply Hsel. }
  set (p := vpic_get_highest_irrpin (i8259_0 v)) in *.
  destruct (Z.eqb_spec p 2) as [E2|E2].
  - rewrite E2 in *. destruct (irr_highest (i8259_1 v)) as [[Hc1 Hmin1]|[E Hno]].
    + left. set (p1 := vpic_get_highest_irrpin (i8259_1 v)) in *. exists Secondary, p1.
      destruct (cw_base _ _ (Hv Secondary)) as (b & Hb & Hbr). simpl in *. rewrite Hb.
      destruct Hc1 as (Hp1 & Hc1). destruct (vector_split b p1 Hbr Hp1) as (-> & Hle & _).
      rewrite (proj2 (Z.leb_gt _ _)) by (unfold NR_VPIC_PINS_PER_CHIP; lia). done.
    + right. rewrite E. split; [done|]. intros [|] q (Hq & Hmq & Hx).
      * assert (rank (i8259_0 v) q = rank (i8259_0 v) 2) as Er.
        { apply Z.le_antisymm; [by apply Hmq|by apply Hmin]. }
        apply Hx. rewrite <- (pin_at_rank (i8259_0 v) q), Er by apply Hq. apply pin_at_rank. lia.
      * by apply (Hno q).
  - left. exists Primary, p. destruct (cw_base _ _ (Hv Primary)) as (b & Hb & Hbr). simpl in *.
    destruct Hc as (Hp & Hc). rewrite Hb. destruct (vector_split b p Hbr Hp) as (-> & Hle & _).
    rewrite (proj2 (Z.leb_gt _ _)) by (unfold NR_VPIC_PINS_PER_CHIP; lia). done.
Qed.

(** Delivery to the CPU follows the priorities of the cascaded chips. When
    the CPU takes an interrupt it gets the vector of the pin the priority logic
    selects, and gets none exactly when there is none; without automatic EOI and
    special modes the pin is then in service and only pins of strictly higher
    priority can interrupt that chip until an EOI. *)
Theorem vpic_delivery_nests v : vpic_wf v → irq_base (i8259_0 v) ≠ irq_base (i8259_1 v) →
  match vcpu_do_pending_extint v with
  | (v', None) => v' = v ∧ ∀ c p, ¬ selected v c p
  | (v', Some vec) => ∃ c p, selected v c p ∧ vec = irq_base (at_chip v c) + p
      ∧ (aeoi (at_chip v c) = false → smm (at_chip v c) = 0 → sfn (at_chip v c) = false →
         Z.testbit (service (at_chip v' c)) p = true
         ∧ ∀ q, can_interrupt (at_chip v' c) q → rank (at_chip v' c) q < rank (at_chip v' c) p)
  end.
Proof.
  intros Hv Hb. unfold vcpu_do_pending_extint. cbv zeta.
  destruct (pending_spec v Hv) as [(c & p & Hsel & Hvec & Hle)|[-> Hno]]; [|done].
  rewrite (proj2 (Z.leb_le _ _)) by done. exists c, p. rewrite Hvec.
  destruct (cw_base _ _ (Hv c)) as (b & Ec & Hbr). pose proof Hsel as ((Hp & _) & _). rewrite Ec in *.
  destruct (vector_split b p Hbr Hp) as (_ & _ & HFF & H7 & Hbase).
  split; [done|]. split; [by rewrite HFF|]. intros Ha Hs Hf.
  apply (accepted_nests p (at_chip v c)); try done. unfold vpic_intr_accepted. rewrite H7, Hbase.
  eapply same_mode_trans; [|apply notify_mode].
  destruct c; simpl in *.
  - rewrite (proj2 (Z.eqb_neq _ _)) by congruence. done.
  - rewrite (proj2 (Z.eqb_eq _ _)) by congruence. done.
Qed.

(** ** Re-initialisation *)

Section reinit.
Variable kind : vm_kind.
Variable pic_pin : Z → Z.

(** The usual initialisation of a chip: cascade mode with ICW4, vector base
    [base], ICW3 [icw3], 8086 mode. *)
Definition init_chip (c : chip) (base icw3 : Z) (v : acrn_vpic) : acrn_vpic :=
  let v := (vpic_write kind pic_pin c 0 0x11 v).1 in
  let v := (vpic_write kind pic_pin c 1 base v).1 in
  let v := (vpic_write kind pic_pin c 1 icw3 v).1 in
  (vpic_write kind pic_pin c 1 0x01 v).1.

Definition init_both (b0 b1 : Z) (v : acrn_vpic) : acrn_vpic :=
  init_chip Secondary (8 * b1) 0x02 (init_chip Primary (8 * b0) 0x04 v).

(** The registers of a chip after its initialisation. *)
Definition initialised (base : Z) (i : i8259_reg_state) : i8259_reg_state :=
  i⟨request := 0⟩⟨mask := 0⟩⟨lowprio := 7⟩⟨rd_cmd_reg := 0⟩⟨poll := false⟩⟨smm := 0⟩
   ⟨irq_base := u8 base &&& 0xf8⟩⟨icw_num := 0⟩⟨ready := true⟩.

Lemma init_chip_eq c base icw3 v :
  init_chip c base icw3 v = vpic_notify_intr (set_chip c (initialised base (at_chip v c)) v).
Proof. by destruct c, v as [[] [] ? ?]. Qed.

(** The secondary chip believes its interrupt is announced while the request
    is lost in the primary chip. *)
Record stranded (v : acrn_vpic) : Prop := {
  st_wf : vpic_wf v;
  st_raised : intr_raised (i8259_1 v) = true;
  st_lost : Z.testbit (request (i8259_0 v)) 2 = false;
  st_base : irq_base (i8259_0 v) ≠ irq_base (i8259_1 v);
  st_icw : ∀ c, icw_num (at_chip v c) = 0;
}.

(** What a guest does without initialising a chip again, without polling and
    without a device on the cascade pin. *)
Definition running_op (op : vpic_op) : Prop :=
  match op with
  | OpLine g _ => vgsi_to_vpin kind pic_pin g ≠ 2
  | OpDeliver => True
  | OpRead _ _ _ => False
  | OpWrite _ port _ val => Z.testbit port 0 = true ∨ Z.testbit val 4 = false
  | OpElc _ _ _ _ => True
  end.

(** The parts of the state that matter, kept by every such operation. *)
Record kept (v v' : acrn_vpic) : Prop := {
  kp_raised : intr_raised (i8259_1 v') = intr_raised (i8259_1 v);
  kp_request : Z.testbit (request (i8259_0 v')) 2 = Z.testbit (request (i8259_0 v)) 2;
  kp_base : ∀ c, irq_base (at_chip v' c) = irq_base (at_chip v c);
  kp_icw : ∀ c, icw_num (at_chip v' c) = icw_num (at_chip v c);
}.

Lemma vpic_kept_refl v : kept v v.
Proof. by split. Qed.
Lemma vpic_kept_trans v1 v2 v3 : kept v1 v2 → kept v2 v3 → kept v1 v3.
Proof. intros [] []. split; intros; congruence. Qed.

Lemma stranded_kept v v' : stranded v → vpic_wf v' → kept v v' → stranded v'.
Proof.
  intros [Hw Hr Hl Hb Hn] Hw' [Kr Kq Kb Ki]. split; [done|congruence|congruence| |].
  - specialize (Kb Primary) as K0. specialize (Kb Secondary) as K1. simpl in *. congruence.
  - intros c. by rewrite Ki.
Qed.

Lemma clear_other_pin x p : 0 ≤ p < 8 → p ≠ 2 →
  Z.testbit (u8 (x &&& bnot 32 (2 ^ p))) 2 = Z.testbit x 2.
Proof.
  intros Hp Hne. unfold u8. rewrite Z.mod_pow2_bits_low by lia.
  rewrite Z.land_spec, bnot_testbit, testbit_pow2, bool_decide_false by lia. simpl. apply andb_true_r.
Qed.

Lemma set_other_pin x p : 0 ≤ p < 8 → p ≠ 2 → Z.testbit (x ||| 2 ^ p) 2 = Z.testbit x 2.
Proof.
  intros Hp Hne. rewrite lor_pow2_testbit, bool_decide_false by lia. apply orb_false_r.
Qed.

Lemma set_pin_kept p l i : 0 ≤ p < 8 →
  let i' := set_pin p l i in
  intr_raised i' = intr_raised i ∧ irq_base i' = irq_base i ∧ icw_num i' = icw_num i
  ∧ (p ≠ 2 → Z.testbit (request i') 2 = Z.testbit (request i) 2).
Proof.
  intros Hp. unfold set_pin. cbv zeta. repeat case_if; split_and!; try done; intros Hne; simpl;
    first [by apply set_other_pin|by apply clear_other_pin].
Qed.

Lemma set_pinstate_kept pin l v : pin ≠ 2 → kept v (vpic_set_pinstate pin l v).
Proof.
  intros Hne. unfold vpic_set_pinstate. destruct (Z.ltb_spec pin NR_VPIC_PINS_TOTAL); [|apply vpic_kept_refl].
  pose proof (and7_range pin) as H7.
  pose proof (λ i, set_pin_kept (pin &&& 0x7) l i H7) as Hk. cbv zeta in Hk.
  unfold chip_of. destruct (Z.eqb_spec (Z.shiftr pin 3) 0) as [E|E]; simpl.
  - destruct (Hk (i8259_0 v)) as (A & B & C & D). split; simpl; [done| | |]; try by intros [|].
    apply D. intros E7. rewrite Z.shiftr_div_pow2 in E by lia.
    change 0x7 with (Z.ones 3) in E7. rewrite Z.land_ones in E7 by lia.
    Z.to_euclidean_division_equations. lia.
  - destruct (Hk (i8259_1 v)) as (A & B & C & D). split; simpl; [done|done| |]; by intros [|].
Qed.

Lemma notify_kept v : intr_raised (i8259_1 v) = true → kept v (vpic_notify_intr v).
Proof.
  intros Hr. assert (Hc : cascades v = false) by (unfold cascades; by rewrite Hr).
  split; try (intros [|]); simpl; rewrite ?notify_0, ?notify_1, ?after_cascade_1; cbv zeta;
    rewrite ?after_cascade_0, ?Hc; try done; by destruct (raises _).
Qed.

(** Changing one chip in registers that do not matter. *)
Lemma chip_kept c i v w : (∀ x, at_chip w x = if decide (x = c) then i else at_chip v x) →
  intr_raised i = intr_raised (at_chip v c) → request i = request (at_chip v c) →
  irq_base i = irq_base (at_chip v c) → icw_num i = icw_num (at_chip v c) → kept v w.
Proof.
  intros E Hr Hq Hb Hn. pose proof (E Primary) as E0. pose proof (E Secondary) as E1.
  cbn [at_chip] in E0, E1.
  split; [rewrite E1|rewrite E0|intros x; rewrite E|intros x; rewrite E];
    clear E E0 E1; case_decide; subst; cbn [at_chip] in *; congruence.
Qed.

Lemma ocw1_kept c val v : kept v (vpic_ocw1 kind pic_pin c val v).1.
Proof. by eapply chip_kept; [apply ocw1_at|..]. Qed.

Lemma ocw2_kept c val v : kept v (vpic_ocw2 kind pic_pin c val v).1.
Proof.
  eapply chip_kept; [apply ocw2_at|..]; unfold ocw2_chip; cbv zeta; repeat case_if; done.
Qed.

Lemma ocw3_kept c val v : kept v (set_chip c (vpic_ocw3 val (at_chip v c)).1 v).
Proof.
  eapply chip_kept; [intros x; apply at_set_chip|..]; unfold vpic_ocw3; cbv zeta;
    repeat case_if; done.
Qed.

Lemma write_kept c port val v : stranded v → Z.testbit port 0 = true ∨ Z.testbit val 4 = false →
  kept v (vpic_write kind pic_pin c port val v).1.
Proof.
  intros [Hw Hr Hl Hb Hn] Hop. unfold vpic_write.
  assert (Hs : kept v (write_switch kind pic_pin c port (u8 val) v).1).
  { unfold write_switch. cbv zeta. rewrite !(test_pin _ 4), (Hn c) by lia.
    change ICU_IMR_OFFSET with (2 ^ 0). rewrite (test_pin _ 0) by lia. cbn [Z.eqb].
    assert (H4 : Z.testbit (u8 val) 4 = Z.testbit val 4) by (apply Z.mod_pow2_bits_low; lia).
    rewrite H4. destruct (Z.testbit port 0); [apply ocw1_kept|].
    destruct Hop as [?|Hop]; [done|]. rewrite Hop.
    case_if; [|apply vpic_kept_refl]. case_if; [|apply ocw2_kept].
    pose proof (ocw3_kept c (u8 val) v). by destruct (vpic_ocw3 _ _). }
  destruct (write_switch _ _ _ _ _ _) as [w e]. cbn [fst] in *.
  case_if; [|done]. eapply vpic_kept_trans; [done|]. apply notify_kept. by rewrite (kp_raised _ _ Hs).
Qed.

Lemma accepted_primary_kept p v : 0 ≤ p < 8 → p ≠ 2 →
  kept v v⟨i8259_0 := vpic_pin_accepted p (i8259_0 v)⟩.
Proof.
  intros Hp Hne. unfold vpic_pin_accepted. cbv zeta.
  split; try (intros [|]); simpl; repeat case_if; simpl; try done; by apply clear_other_pin.
Qed.

(** A delivery from a stranded state is from the primary chip. *)
Lemma deliver_stranded v : stranded v →
  kept v (vcpu_do_pending_extint v).1
  ∧ ∀ vec, (vcpu_do_pending_extint v).2 = Some vec → ∃ p, 0 ≤ p < 8 ∧ vec = irq_base (i8259_0 v) + p.
Proof.
  intros [Hw Hr Hl Hb Hn]. unfold vcpu_do_pending_extint. cbv zeta.
  destruct (pending_spec v Hw) as [(c & p & Hsel & Hvec & Hle)|[-> _]]; [|by split].
  destruct c; destruct Hsel as (Hc & _ & Hx).
  2: { destruct Hx as [(_ & He & _) _]. unfold eligible in He. by rewrite Hl in He. }
  cbn [at_chip] in *. rewrite (proj2 (Z.leb_le _ _)), Hvec by done.
  destruct (cw_base _ _ (Hw Primary)) as (b & Ec & Hbr). cbn [at_chip] in Ec. destruct Hc as (Hp & _).
  destruct (vector_split b p Hbr Hp) as (_ & _ & HFF & H7 & Hbase). rewrite Ec in *. cbn [fst snd].
  split.
  - unfold vpic_intr_accepted. rewrite H7, Hbase, (proj2 (Z.eqb_neq _ _)) by congruence.
    eapply vpic_kept_trans; [by apply accepted_primary_kept|by apply notify_kept].
  - intros vec [= <-]. exists p. by rewrite HFF.
Qed.

Lemma running_stranded op v : stranded v → running_op op →
  stranded (exec kind pic_pin op v).1
  ∧ (∀ c, irq_base (at_chip (exec kind pic_pin op v).1 c) = irq_base (at_chip v c))
  ∧ ∀ vec, (exec kind pic_pin op v).2 = Some vec → ∃ p, 0 ≤ p < 8 ∧ vec = irq_base (i8259_0 v) + p.
Proof.
  intros Hst Hop. pose proof (exec_wf kind pic_pin op v (st_wf _ Hst)) as Hw.
  assert (Hk : kept v (exec kind pic_pin op v).1
    ∧ ∀ vec, (exec kind pic_pin op v).2 = Some vec → ∃ p, 0 ≤ p < 8 ∧ vec = irq_base (i8259_0 v) + p).
  { destruct op as [g op| |c port w|c port w val|i port w val]; cbn [exec running_op] in *.
    - split; [|done]. cbn [fst]. unfold vpic_set_irqline. cbv zeta.
      do 2 (case_if; [|apply vpic_kept_refl]). set (w := match op with GSI_SET_HIGH => _ | _ => _ end).
      assert (Hkw : kept v w).
      { unfold w. destruct op; try (by apply set_pinstate_kept);
          eapply vpic_kept_trans; by apply set_pinstate_kept. }
      eapply vpic_kept_trans; [done|]. apply notify_kept. by rewrite (kp_raised _ _ Hkw), (st_raised _ Hst).
    - by apply deliver_stranded.
    - done.
    - split; [|done]. cbn [fst]. unfold vpic_handler. case_if; [apply vpic_kept_refl|].
      pose proof (write_kept c port val v Hst Hop). by destruct (vpic_write _ _ _ _ _ _).
    - split; [|done]. cbn [fst]. unfold vpic_elc_handler. cbv zeta.
      repeat case_if; split; simpl; try done; by intros [|]. }
  destruct Hk as [Hk Hvec]. split_and!; [by eapply stranded_kept|apply Hk|done].
Qed.

Lemma runs_stranded ops : ∀ v, stranded v → Forall running_op ops →
  Forall (λ vec, ∃ p, 0 ≤ p < 8 ∧ vec = irq_base (i8259_0 v) + p) (exec_all kind pic_pin ops v).2.
Proof.
  induction ops as [|op ops IH]; intros v Hst Hops; cbn [exec_all]; [by constructor|].
  apply Forall_cons in Hops as [Hop Hops].
  destruct (running_stranded op v Hst Hop) as (Hst' & Hb & Hvec).
  destruct (exec kind pic_pin op v) as [v1 o]. cbn [fst snd] in *.
  specialize (IH v1 Hst' Hops). pose proof (Hb Primary) as Hb0. cbn [at_chip] in Hb0. rewrite Hb0 in IH.
  destruct (exec_all kind pic_pin ops v1) as [v2 l]. cbn [snd] in *.
  destruct o as [vec|]; [|done]. constructor; [by apply Hvec|done].
Qed.

Lemma init_base b : 0 ≤ b < 32 → u8 (8 * b) &&& 0xf8 = 8 * b.
Proof.
  intros Hb. rewrite u8_id by (unfold word; lia).
  destruct (base_wf (8 * b)) as (b' & E & _); [unfold word; lia|]. rewrite E.
  assert (Hl : 8 * b &&& 0x7 = 0).
  { change 0x7 with (Z.ones 3). rewrite Z.land_ones by lia. Z.to_euclidean_division_equations. lia. }
  assert (H : (8 * b &&& 0xf8) ||| (8 * b &&& 0x7) = 8 * b).
  { rewrite <- Z.land_lor_distr_r. change (0xf8 ||| 0x7) with (Z.ones 8). rewrite Z.land_ones by lia.
    apply Z.mod_small. lia. }
  rewrite Hl, Z.lor_0_r in H. congruence.
Qed.

Lemma initialised_wf c base i : chip_wf c i → chip_wf c (initialised base i).
Proof.
  intros H. pose proof (base_wf (u8 base) (word_u8 base)). chip_fields H.
Qed.

(** Notification changes neither masks nor readiness. *)
Lemma notify_mask v c : ready (at_chip (vpic_notify_intr v) c) = ready (at_chip v c)
  ∧ mask (at_chip (vpic_notify_intr v) c) = mask (at_chip v c).
Proof.
  assert (Hp : ∀ l i, ready (set_pin 2 l i) = ready i ∧ mask (set_pin 2 l i) = mask i).
  { intros l i. unfold set_pin. cbv zeta. repeat case_if; done. }
  destruct c; cbn [at_chip]; [rewrite notify_0|rewrite notify_1, after_cascade_1]; cbv zeta.
  - rewrite after_cascade_0. destruct (cascades v), (raises _); try done;
      destruct (Hp 0 (set_pin 2 1 (i8259_0 v))) as [A B], (Hp 1 (i8259_0 v)) as [C D];
      split; simpl; congruence.
  - by destruct (cascades v).
Qed.

Lemma initialised_base b i : 0 ≤ b < 32 → irq_base (initialised (8 * b) i) = 8 * b.
Proof. apply init_base. Qed.

Lemma init_both_eq b0 b1 v : init_both b0 b1 v =
  let w := vpic_notify_intr (set_chip Primary (initialised (8 * b0) (at_chip v Primary)) v) in
  vpic_notify_intr (set_chip Secondary (initialised (8 * b1) (at_chip w Secondary)) w).
Proof. unfold init_both. by rewrite !init_chip_eq. Qed.

(** One chip initialised while the secondary chip has raised its interrupt. *)
Lemma init_step c b v : vpic_wf v → intr_raised (i8259_1 v) = true → 0 ≤ b < 32 →
  let v' := vpic_notify_intr (set_chip c (initialised (8 * b) (at_chip v c)) v) in
  vpic_wf v' ∧ intr_raised (i8259_1 v') = true ∧ irq_base (at_chip v' c) = 8 * b
  ∧ (c = Primary → Z.testbit (request (at_chip v' c)) 2 = false) ∧ icw_num (at_chip v' c) = 0
  ∧ ready (at_chip v' c) = true ∧ mask (at_chip v' c) = 0
  ∧ ∀ x, x ≠ c → (x = Primary → Z.testbit (request (i8259_0 v')) 2 = Z.testbit (request (i8259_0 v)) 2)
      ∧ irq_base (at_chip v' x) = irq_base (at_chip v x) ∧ icw_num (at_chip v' x) = icw_num (at_chip v x)
      ∧ ready (at_chip v' x) = ready (at_chip v x) ∧ mask (at_chip v' x) = mask (at_chip v x).
Proof.
  intros Hw Hr Hb. cbv zeta. set (va := set_chip c _ v).
  assert (Hc : ∀ x, at_chip va x = if decide (x = c) then initialised (8 * b) (at_chip v c) else at_chip v x)
    by (intros x; apply at_set_chip).
  assert (Hwa : vpic_wf va) by (apply set_chip_wf, initialised_wf; [done|apply Hw]).
  assert (Hra : intr_raised (i8259_1 va) = true) by (by destruct c).
  assert (Hq : c ≠ Primary → request (i8259_0 va) = request (i8259_0 v)) by (by destruct c).
  clearbody va. destruct (notify_kept va Hra) as [Ra Qa Ba Na]. pose proof (notify_mask va) as Ma.
  pose proof (notify_wf va Hwa) as Hwa'. set (vb := vpic_notify_intr va) in *. clearbody vb.
  pose proof (Hc c) as Ec. rewrite decide_True in Ec by done.
  destruct (Ma c) as [-> ->]. rewrite Ra, Ba, Na, Ec. split_and!; try done.
  - by apply initialised_base.
  - intros ->. cbn [at_chip] in *. rewrite Qa, Ec. done.
  - intros x Hx. destruct (Ma x) as [-> ->]. rewrite Ba, Na, Qa, Hc, decide_False by done.
    split_and!; try done. intros ->. by rewrite Hq.
Qed.

#[local] Strategy 1000 [vpic_notify_intr].

Lemma init_both_stranded b0 b1 v : vpic_wf v → intr_raised (i8259_1 v) = true →
  0 ≤ b0 < 32 → 0 ≤ b1 < 32 → b0 ≠ b1 →
  let v' := init_both b0 b1 v in
  stranded v' ∧ irq_base (i8259_0 v') = 8 * b0 ∧ irq_base (i8259_1 v') = 8 * b1
  ∧ ∀ c, ready (at_chip v' c) = true ∧ mask (at_chip v' c) = 0.
Proof.
  intros Hw Hr H0 H1 Hne. cbv zeta. rewrite init_both_eq. cbv zeta.
  destruct (init_step Primary b0 v Hw Hr H0) as (Wa & Ra & Ba & Qa & Na & Ea & Ma & _).
  cbn [at_chip] in *. set (w := vpic_notify_intr _) in *. clearbody w.
  destruct (init_step Secondary b1 w Wa Ra H1) as (Wb & Rb & Bb & _ & Nb & Eb & Mb & Hother).
  specialize (Hother Primary ltac:(done)) as (Qo & Bo & No & Eo & Mo).
  cbn [at_chip] in *. set (w' := vpic_notify_intr _) in *. clearbody w'.
  split_and!; [|congruence|done|].
  - split; [done|done|by rewrite Qo, Qa|rewrite Bo, Ba, Bb; lia|]. intros [|]; cbn [at_chip]; congruence.
  - intros [|]; cbn [at_chip]; split; congruence.
Qed.

(** Initialising the PIC again can cut off the secondary chip for good. ICW1
    does not reset the flag that the chip has announced an interrupt. When the
    secondary chip had announced one that the CPU had not yet taken, the usual
    initialisation of both chips drops the cascaded request, after which no
    sequence of line changes, deliveries, masking and EOI ever delivers a vector of
    the secondary chip, although both chips are ready and nothing is masked. *)
Theorem vpic_reinit_strands_secondary v b0 b1 ops : vpic_wf v → intr_raised (i8259_1 v) = true →
  0 ≤ b0 < 32 → 0 ≤ b1 < 32 → b0 ≠ b1 → Forall running_op ops →
  (∀ c, ready (at_chip (init_both b0 b1 v) c) = true ∧ mask (at_chip (init_both b0 b1 v) c) = 0)
  ∧ Forall (λ vec, vec / 8 = b0) (exec_all kind pic_pin ops (init_both b0 b1 v)).2.
Proof.
  intros Hw Hr H0 H1 Hne Hops.
  destruct (init_both_stranded b0 b1 v) as (Hst & E0 & E1 & Hm); [done..|]. split; [done|].
  eapply Forall_impl; [by apply runs_stranded|]. intros vec (p & Hp & ->). rewrite E0.
  Z.to_euclidean_division_equations. lia.
Qed.
End reinit.

(** ** EOI without an interrupt in service *)

Lemma notify_trace v : ∃ l, trace (vpic_notify_intr v) = l ++ trace v.
Proof.
  rewrite notify_eq. cbv zeta. assert (Hc : trace (after_cascade v) = trace v).
  { unfold after_cascade. by destruct (cascades v). }
  destruct (raises _); [|by exists []].
  cbn [wire_mode upd]. destruct (wire_mode _); simpl; rewrite Hc; by eexists [_; _] + eexists [_].
Qed.

(** A non-specific EOI to the secondary chip when nothing is in service
    acknowledges an interrupt of the primary chip. The invalid pin number is
    masked to pin 7 for the test of the trigger mode and wraps around to pin 7 of
    the PIC when 8 is added, so with pin 15 level triggered the passthrough
    interrupt of pin 7 is acknowledged. *)
Theorem vpic_spurious_eoi_acks_pin7 kind pic_pin v :
  ready (i8259_1 v) = true → service (i8259_1 v) = 0 → Z.testbit (elc (i8259_1 v)) 7 = true →
  ∃ l, trace (vpic_write kind pic_pin Secondary 0 OCW2_EOI v).1
    = l ++ ptirq_intx_ack (vpin_to_vgsi kind pic_pin 7) :: trace v.
Proof.
  intros Hr Hs He. unfold vpic_write, write_switch. cbv zeta. cbn [at_chip].
  change (nonzero (0 &&& ICU_IMR_OFFSET)) with false.
  change (nonzero (u8 OCW2_EOI &&& 2 ^ 4)) with false. cbn [at_chip]. rewrite Hr.
  change (nonzero (u8 OCW2_EOI &&& 2 ^ 3)) with false.
  unfold vpic_ocw2. cbv zeta. cbn [at_chip].
  change (nonzero (u8 OCW2_EOI &&& OCW2_EOI)) with true.
  change (nonzero (u8 OCW2_EOI &&& OCW2_SL)) with false. cbv iota.
  set (i := (i8259_1 v)⟨rotate := _⟩).
  assert (Ei : vpic_get_highest_isrpin i = INVALID_INTERRUPT_PIN).
  { destruct (isr_highest i) as [[(_ & Hb & _) _]|[E _]]; [|done].
    change (service i) with (service (i8259_1 v)) in Hb. rewrite Hs, Z.bits_0 in Hb. done. }
  rewrite Ei. change (INVALID_INTERRUPT_PIN <? NR_VPIC_PINS_PER_CHIP) with false. cbv iota.
  change (2 ^ (INVALID_INTERRUPT_PIN &&& 0x7)) with (2 ^ 7). rewrite test_pin by lia.
  change (elc i) with (elc (i8259_1 v)). rewrite He. cbn [primary_pic].
  change (u32 (INVALID_INTERRUPT_PIN + 8)) with 7. cbv iota.
  set (w := emit _ _). assert (Hw : trace w = ptirq_intx_ack (vpin_to_vgsi kind pic_pin 7) :: trace v) by done.
  case_if; [|by exists []]. cbn [fst]. destruct (notify_trace w) as [l ->]. exists l. by rewrite Hw.
Qed.

(** ** Examples *)

Definition ex_id : Z → Z := λ p, p.
Definition ex_exec (ops : list vpic_op) (v : acrn_vpic) : acrn_vpic * list Z :=
  exec_all PreLaunchedVM ex_id ops v.
Definition ex_init_ops : list vpic_op :=
  [OpWrite Primary 0 1 0x11; OpWrite Primary 1 1 0x30; OpWrite Primary 1 1 4; OpWrite Primary 1 1 1;
   OpWrite Secondary 0 1 0x11; OpWrite Secondary 1 1 0x38; OpWrite Secondary 1 1 2; OpWrite Secondary 1 1 1].

(** Both chips initialised with the vectors of a PC, nothing masked, and then
    further operations. *)
Definition ex_after (ops : list vpic_op) : acrn_vpic :=
  (ex_exec (ex_init_ops ++ ops) (vpic_init zero_vpic)).1.
Definition ex_serial : acrn_vpic := ex_after [OpLine 4 GSI_RAISING_PULSE].
Definition ex_rtc : acrn_vpic := ex_after [OpLine 8 GSI_RAISING_PULSE].
Definition ex_level15 : acrn_vpic := ex_after [OpElc false 0x4d1 1 0x80].

Lemma ex_ops_wf ops : vpic_wf (ex_after ops).
Proof.
  apply exec_all_wf. intros c. destruct c; split; simpl; try (done || lia || by vm_compute);
    try (split; [done|by repeat constructor]); by exists 0.
Qed.

Lemma vpic_delivery_nests_witness :
  ∃ v' c p, vcpu_do_pending_extint ex_serial = (v', Some 0x34)
    ∧ selected ex_serial c p ∧ 0x34 = irq_base (at_chip ex_serial c) + p.
Proof.
  pose proof (ex_ops_wf [OpLine 4 GSI_RAISING_PULSE] : vpic_wf ex_serial) as Hw.
  assert (Hb : irq_base (i8259_0 ex_serial) ≠ irq_base (i8259_1 ex_serial)) by by vm_compute.
  pose proof (vpic_delivery_nests ex_serial Hw Hb) as H.
  assert (E : (vcpu_do_pending_extint ex_serial).2 = Some 0x34) by (vm_compute; reflexivity).
  clear Hw Hb.
  destruct (vcpu_do_pending_extint ex_serial) as [v' o]. simpl in E. subst o.
  destruct H as (c & p & Hs & Hv & _). by exists v', c, p.
Defined.

Lemma vpic_reinit_strands_secondary_witness :
  Forall (λ vec, vec / 8 = 6)
    (ex_exec [OpLine 9 GSI_RAISING_PULSE; OpDeliver; OpLine 4 GSI_RAISING_PULSE; OpDeliver;
              OpWrite Primary 0 1 0x20; OpLine 8 GSI_RAISING_PULSE; OpDeliver]
       (init_both PreLaunchedVM ex_id 6 7 ex_rtc)).2.
Proof.
  apply (vpic_reinit_strands_secondary PreLaunchedVM ex_id ex_rtc 6 7).
  - apply ex_ops_wf.
  - by vm_compute.
  - lia.
  - lia.
  - lia.
  - repeat constructor; vm_compute; try done; by right.
Defined.

Lemma vpic_spurious_eoi_acks_pin7_witness :
  ∃ l, trace (vpic_write PreLaunchedVM ex_id Secondary 0 OCW2_EOI ex_level15).1
    = l ++ ptirq_intx_ack 7 :: trace ex_level15.
Proof. apply (vpic_spurious_eoi_acks_pin7 PreLaunchedVM ex_id); by vm_compute. Defined.
