(* ===== verification/Pgtable.v ===== *)
(** * Page tables of the RISC-V port

    include/arch/riscv/asm/pgtable.h, arch/riscv/pgtable.c and
    arch/riscv/pager.c: Sv48 page-table entries, the statically allocated table
    pages of the hypervisor and of the VMs, adding, modifying and deleting
    mappings, and looking up an address. The memory that holds the tables maps
    the (hypervisor virtual) address of each 64-bit word to its value; an access
    to an address outside it is undefined and yields [None]. *)

From S2P Require Import Prelude.

(** ** Constants *)

Definition PG_TABLE_SHIFT : Z := 9.
Definition PG_TABLE_ENTRIES : Z := Z.shiftl 1 PG_TABLE_SHIFT.
Definition PAGE_SHIFT : Z := 12.
Definition PAGE_SIZE : Z := Z.shiftl 1 PAGE_SHIFT.
Definition PAGE_MASK : Z := bnot 64 (PAGE_SIZE - 1).
Definition PAGE_ATTR_PMA : Z := 0x0.
Definition PAGE_ATTR_UC : Z := Z.shiftl 0x1 61.
Definition PAGE_ATTR_IO : Z := Z.shiftl 0x2 61.
Definition PAGE_V : Z := 0x01.
Definition PAGE_R : Z := 0x02.
Definition PAGE_W : Z := 0x04.
Definition PAGE_X : Z := 0x08.
Definition PAGE_U : Z := 0x10.
Definition PAGE_TYPE_MASK : Z := 0xf.
Definition PAGE_TYPE_TABLE : Z := 0x0 ||| PAGE_V.

Definition PTE_SHIFT : Z := PAGE_SHIFT.
Definition PTRS_PER_PTE : Z := PG_TABLE_ENTRIES.
Definition PTE_SIZE : Z := Z.shiftl 1 PTE_SHIFT.
Definition VPN1_SHIFT : Z := PTE_SHIFT + PG_TABLE_SHIFT.
Definition PTRS_PER_VPN1 : Z := PG_TABLE_ENTRIES.
Definition VPN1_SIZE : Z := Z.shiftl 1 VPN1_SHIFT.
Definition VPN1_MASK : Z := bnot 64 (VPN1_SIZE - 1).
Definition VPN2_SHIFT : Z := VPN1_SHIFT + PG_TABLE_SHIFT.
Definition PTRS_PER_VPN2 : Z := PG_TABLE_ENTRIES.
Definition VPN2_SIZE : Z := Z.shiftl 1 VPN2_SHIFT.
Definition VPN2_MASK : Z := bnot 64 (VPN2_SIZE - 1).
Definition VPN3_SHIFT : Z := VPN2_SHIFT + PG_TABLE_SHIFT.
Definition PTRS_PER_VPN3 : Z := PG_TABLE_ENTRIES.
Definition VPN3_SIZE : Z := Z.shiftl 1 VPN3_SHIFT.
Definition VPN3_MASK : Z := bnot 64 (VPN3_SIZE - 1).
Definition VPN2_PFN_MASK : Z := 0x0000FFFFFFFFF000.
Definition VPN1_PFN_MASK : Z := 0x0000FFFFFFFFF000.

Definition MR_DEL : Z := 2.
Definition MR_MODIFY : Z := 3.

Definition MT_PMA : Z := 0x0.
Definition MT_UC : Z := 0x1.
Definition MT_IO : Z := 0x2.

(** The levels of an Sv48 table. *)
Inductive page_table_level := VPN3 | VPN2 | VPN1 | VPN0.
#[export] Instance level_eq_dec : EqDecision page_table_level.
Proof. solve_decision. Defined.

(** ** Memory *)

Abbreviation mem := (gmap Z Z).

Definition load (p : Z) (m : mem) : option Z := m !! p.
Definition store (p x : Z) (m : mem) : option mem := _ ← m !! p; Some (<[p := x]> m).

(** [memset] of the [n] words at [p] to zero. *)
Fixpoint memset_zero (n : nat) (p : Z) (m : mem) : option mem :=
  match n with
  | O => Some m
  | S n => m ← store p 0 m; memset_zero n (p + 8) m
  end.
Definition clear_page (page : Z) (m : mem) : option mem :=
  memset_zero (Z.to_nat (PAGE_SIZE / 8)) page m.

(** ** Entries *)

Record pgtable_pt_t := mk_pt {
  pt_v : Z; pt_r : Z; pt_w : Z; pt_x : Z; pt_u : Z; pt_g : Z; pt_a : Z; pt_d : Z;
  pt_rsw : Z;
  pt_base : Z;
  pt_rsv : Z;
  pt_pbmt : Z;
  pt_n : Z;
}.
#[export] Instance eta_pt : Eta pgtable_pt_t :=
  MkEta _ (rd mk_pt <*> pt_v <*> pt_r <*> pt_w <*> pt_x <*> pt_u <*> pt_g <*> pt_a <*> pt_d
             <*> pt_rsw <*> pt_base <*> pt_rsv <*> pt_pbmt <*> pt_n).

(** The member [bits] of the union: the packed bit-fields. *)
Definition bits (e : pgtable_pt_t) : Z :=
  pt_v e + 2 ^ 1 * pt_r e + 2 ^ 2 * pt_w e + 2 ^ 3 * pt_x e + 2 ^ 4 * pt_u e + 2 ^ 5 * pt_g e
  + 2 ^ 6 * pt_a e + 2 ^ 7 * pt_d e + 2 ^ 8 * pt_rsw e + 2 ^ 10 * pt_base e
  + 2 ^ 54 * pt_rsv e + 2 ^ 61 * pt_pbmt e + 2 ^ 63 * pt_n e.
(** The member [walk.base]. *)
Definition walk_base (e : Z) : Z := Z.shiftr e 10 mod 2 ^ 44.

Definition mfn_to_acrn_entry (mfn attr : Z) (table : bool) : pgtable_pt_t :=
  let e := mk_pt 1 1 1 0 0 0 0 0 0 0 0 0 0 in
  let e := if table then e⟨pt_r := 0⟩⟨pt_w := 0⟩ else e in
  let e := e⟨pt_pbmt := (pt_pbmt e |||
             (if attr =? MT_IO then PAGE_ATTR_IO
              else if attr =? MT_UC then PAGE_ATTR_UC else PAGE_ATTR_PMA)) mod 2 ^ 2⟩ in
  e⟨pt_base := mfn mod 2 ^ 44⟩.

Definition maddr_to_mfn (ma : Z) : Z := Z.shiftr ma PAGE_SHIFT.

(** ** Address arithmetic *)

Definition round_page_up (addr : Z) : Z := u64 (u64 (addr + PAGE_SIZE) - 1) &&& PAGE_MASK.
Definition round_page_down (addr : Z) : Z := addr &&& PAGE_MASK.
Definition mem_aligned_check (value req_align : Z) : bool := value &&& (req_align - 1) =? 0.

Definition vpn3_index (address : Z) : Z := Z.shiftr address VPN3_SHIFT &&& (PTRS_PER_VPN3 - 1).
Definition vpn2_index (address : Z) : Z := Z.shiftr address VPN2_SHIFT &&& (PTRS_PER_VPN2 - 1).
Definition vpn1_index (address : Z) : Z := Z.shiftr address VPN1_SHIFT &&& (PTRS_PER_VPN1 - 1).
Definition pte_index (address : Z) : Z := Z.shiftr address PTE_SHIFT &&& (PTRS_PER_PTE - 1).

Definition vpn_large (vpn : Z) : Z :=
  if nonzero (vpn &&& PAGE_V) && negb (vpn &&& PAGE_TYPE_MASK =? PAGE_TYPE_TABLE) then 1 else 0.

(** ** Table pages and the operations on them *)

(** [union pgtable_pages_info]: both members have this layout. *)
Record pgtable_pages_info := mk_info {
  top_address_space : Z;
  vpn3_base : Z;
  vpn2_base : Z;
  vpn1_base : Z;
  vpn0_base : Z;
}.

Record memory_ops := mk_memory_ops {
  info : pgtable_pages_info;
  large_page_support_op : page_table_level → bool;
  get_default_access_right : Z;
  pgentry_present : Z → Z;
  get_pml4_page : pgtable_pages_info → mem → option (mem * Z);
  get_pdpt_page : pgtable_pages_info → Z → mem → option (mem * Z);
  get_pd_page : pgtable_pages_info → Z → mem → option (mem * Z);
  get_pt_page : pgtable_pages_info → Z → mem → option (mem * Z);
  clflush_pagewalk : Z → mem → mem;
  tweak_exe_right : Z → Z;
  recover_exe_right : Z → Z;
}.

Definition large_page_support (level : page_table_level) : bool :=
  bool_decide (level = VPN1) || bool_decide (level = VPN2).
Definition ppt_get_default_access_right : Z := PAGE_V.
Definition ppt_clflush_pagewalk (entry : Z) (m : mem) : mem := m.
Definition ppt_pgentry_present (pte : Z) : Z := pte &&& PAGE_V.

Definition ppt_get_vpn3_page (info : pgtable_pages_info) (m : mem) : option (mem * Z) :=
  let vpn3_page := vpn3_base info in
  m ← clear_page vpn3_page m; Some (m, vpn3_page).
Definition ppt_get_vpn2_page (info : pgtable_pages_info) (gpa : Z) (m : mem) : option (mem * Z) :=
  let vpn2_page := u64 (vpn2_base info + PAGE_SIZE * Z.shiftr (gpa &&& VPN3_MASK) VPN3_SHIFT) in
  m ← clear_page vpn2_page m; Some (m, vpn2_page).
Definition ppt_get_vpn1_page (info : pgtable_pages_info) (gpa : Z) (m : mem) : option (mem * Z) :=
  let vpn1_page := u64 (vpn1_base info + PAGE_SIZE * Z.shiftr (gpa &&& VPN2_MASK) VPN2_SHIFT) in
  m ← clear_page vpn1_page m; Some (m, vpn1_page).
Definition ppt_get_vpn0_page (info : pgtable_pages_info) (gpa : Z) (m : mem) : option (mem * Z) :=
  let vpn0_page := u64 (vpn0_base info + PAGE_SIZE * Z.shiftr (gpa &&& VPN1_MASK) VPN1_SHIFT) in
  m ← clear_page vpn0_page m; Some (m, vpn0_page).

Definition nop_tweak_exe_right (entry : Z) : Z := entry.
Definition nop_recover_exe_right (entry : Z) : Z := entry.

Definition ppt_mem_ops (ppt_pages_info : pgtable_pages_info) : memory_ops := {|
  info := ppt_pages_info;
  large_page_support_op := large_page_support;
  get_default_access_right := ppt_get_default_access_right;
  pgentry_present := ppt_pgentry_present;
  get_pml4_page := ppt_get_vpn3_page;
  get_pdpt_page := ppt_get_vpn2_page;
  get_pd_page := ppt_get_vpn1_page;
  get_pt_page := ppt_get_vpn0_page;
  clflush_pagewalk := ppt_clflush_pagewalk;
  tweak_exe_right := nop_tweak_exe_right;
  recover_exe_right := nop_recover_exe_right;
|}.

Definition s2pt_get_vpn3_page (info : pgtable_pages_info) (m : mem) : option (mem * Z) :=
  let vpn3_page := vpn3_base info in
  m ← clear_page vpn3_page m; Some (m, vpn3_page).
Definition s2pt_get_vpn2_page (info : pgtable_pages_info) (gpa : Z) (m : mem) : option (mem * Z) :=
  let vpn2_page := u64 (vpn2_base info + PAGE_SIZE * Z.shiftr (gpa &&& VPN3_MASK) VPN3_SHIFT) in
  m ← clear_page vpn2_page m; Some (m, vpn2_page).
Definition s2pt_get_vpn1_page (info : pgtable_pages_info) (gpa : Z) (m : mem) : option (mem * Z) :=
  let vpn1_page := u64 (vpn1_base info + PAGE_SIZE * Z.shiftr (gpa &&& VPN2_MASK) VPN2_SHIFT) in
  m ← clear_page vpn1_page m; Some (m, vpn1_page).
Definition s2pt_get_vpn0_page (info : pgtable_pages_info) (gpa : Z) (m : mem) : option (mem * Z) :=
  let vpn0_page := u64 (vpn0_base info + PAGE_SIZE * Z.shiftr (gpa &&& VPN1_MASK) VPN1_SHIFT) in
  m ← clear_page vpn0_page m; Some (m, vpn0_page).
Definition s2pt_clflush_pagewalk (entry : Z) (m : mem) : mem := m.
Definition s2pt_get_default_access_right : Z := PAGE_V.
Definition s2pt_pgentry_present (pte : Z) : Z := pte &&& PAGE_V.

Definition CONFIG_GUEST_ADDRESS_SPACE_SIZE : Z := 0x100000000.

(** The operations for the stage-2 table of a VM, whose table pages are rows of
    the arrays [vm_vpn3_pages] to [vm_vpn0_pages]. *)
Definition init_s2pt_mem_ops
    (vm_vpn3_pages vm_vpn2_pages vm_vpn1_pages vm_vpn0_pages : Z → Z) (vm_id : Z) : memory_ops := {|
  info := mk_info CONFIG_GUEST_ADDRESS_SPACE_SIZE (vm_vpn3_pages vm_id) (vm_vpn2_pages vm_id)
            (vm_vpn1_pages vm_id) (vm_vpn0_pages vm_id);
  large_page_support_op := large_page_support;
  get_default_access_right := s2pt_get_default_access_right;
  pgentry_present := s2pt_pgentry_present;
  get_pml4_page := s2pt_get_vpn3_page;
  get_pdpt_page := s2pt_get_vpn2_page;
  get_pd_page := s2pt_get_vpn1_page;
  get_pt_page := s2pt_get_vpn0_page;
  clflush_pagewalk := s2pt_clflush_pagewalk;
  tweak_exe_right := nop_tweak_exe_right;
  recover_exe_right := nop_recover_exe_right;
|}.

(** ** pgtable.c *)

Section pgtable.
(** [phys_offset], and the linker symbols [_start] and [_end]. *)
Variables phys_offset kstart kend : Z.

Definition is_kernel (p : Z) : bool := (kstart <=? p) && (p <? kend).
Definition hpa2hva (hpa : Z) : Z :=
  if negb (is_kernel (u64 (hpa - phys_offset))) then hpa else u64 (hpa - phys_offset).
Definition hva2hpa (va : Z) : Z := if negb (is_kernel va) then va else u64 (va + phys_offset).

Definition vpn_to_vaddr (vpn : Z) (m : mem) : option Z :=
  e ← load vpn m;
  Some (hpa2hva (u64 (Z.shiftl (walk_base e) PTE_SHIFT) &&& VPN1_PFN_MASK)).
Definition vpn3_offset (pml4_page addr : Z) : Z := u64 (pml4_page + 8 * vpn3_index addr).
Definition vpn2_offset (vpn3 addr : Z) (m : mem) : option Z :=
  p ← vpn_to_vaddr vpn3 m; Some (u64 (p + 8 * vpn2_index addr)).
Definition vpn1_offset (vpn2 addr : Z) (m : mem) : option Z :=
  p ← vpn_to_vaddr vpn2 m; Some (u64 (p + 8 * vpn1_index addr)).
Definition pte_offset (vpn1 addr : Z) (m : mem) : option Z :=
  p ← vpn_to_vaddr vpn1 m; Some (u64 (p + 8 * pte_index addr)).

Definition pte_of_memaddr (va : Z) (table : bool) : pgtable_pt_t :=
  let ma := u64 (va + phys_offset) in
  mfn_to_acrn_entry (maddr_to_mfn ma) MT_PMA table.

Variable mem_ops : memory_ops.

Definition set_pgentry (ptep pte : Z) (m : mem) : option mem :=
  m ← store ptep pte m; Some (clflush_pagewalk mem_ops ptep m).

Definition construct_pgentry (ptep pd_page prot : Z) (m : mem) : option mem :=
  m ← store ptep (bits (pte_of_memaddr pd_page true)) m;
  Some (clflush_pagewalk mem_ops ptep m).

Definition construct_pte (ptep paddr prot : Z) (m : mem) : option mem :=
  m ← store ptep (bits (pte_of_memaddr paddr false)) m;
  e ← load ptep m;
  m ← store ptep (e ||| (PAGE_U ||| PAGE_X)) m;
  Some (clflush_pagewalk mem_ops ptep m).

(** The loop of split_large_page over the entries of the new page. *)
Fixpoint split_loop (n : nat) (level : page_table_level) (pte paddr paddrinc ref_prot : Z) (m : mem)
    : option mem :=
  match n with
  | O => Some m
  | S n =>
      m ← (if bool_decide (level = VPN1) then construct_pgentry pte paddr ref_prot m
           else construct_pte pte paddr ref_prot m);
      split_loop n level (u64 (pte + 8)) (u64 (paddr + paddrinc)) paddrinc ref_prot m
  end.

Definition split_large_page (pte : Z) (level : page_table_level) (vaddr : Z) (m : mem) : option mem :=
  e ← load pte m;
  '(m, pbase, ref_paddr, paddrinc, ref_prot) ←
    match level with
    | VPN2 =>
        '(m, pbase) ← get_pd_page mem_ops (info mem_ops) vaddr m;
        Some (m, pbase, e &&& VPN2_PFN_MASK, VPN1_SIZE, e &&& bnot 64 VPN2_PFN_MASK)
    | _ =>
        '(m, pbase) ← get_pt_page mem_ops (info mem_ops) vaddr m;
        Some (m, pbase, e &&& VPN1_PFN_MASK, PTE_SIZE,
              recover_exe_right mem_ops (e &&& bnot 64 VPN1_PFN_MASK))
    end;
  m ← split_loop (Z.to_nat PTRS_PER_PTE) level pbase ref_paddr paddrinc ref_prot m;
  construct_pgentry pte pbase (get_default_access_right mem_ops) m.

Definition local_modify_or_del_pte (pte prot_set prot_clr type : Z) (m : mem) : option mem :=
  new_pte ← load pte m;
  if type =? MR_MODIFY then set_pgentry pte ((new_pte &&& bnot 64 prot_clr) ||| prot_set) m
  else if type =? MR_DEL then set_pgentry pte 0 m
  else Some m.

Fixpoint modify_or_del_pte_loop (n : nat) (pt_page index vaddr vaddr_end prot_set prot_clr type : Z)
    (m : mem) : option mem :=
  match n with
  | O => Some m
  | S n =>
      let pte := u64 (pt_page + 8 * index) in
      e ← load pte m;
      m ← (if pgentry_present mem_ops e =? 0 then Some m
           else local_modify_or_del_pte pte prot_set prot_clr type m);
      let vaddr := u64 (vaddr + PTE_SIZE) in
      if vaddr_end <=? vaddr then Some m
      else modify_or_del_pte_loop n pt_page (index + 1) vaddr vaddr_end prot_set prot_clr type m
  end.

Definition modify_or_del_pte (vpn1 vaddr_start vaddr_end prot_set prot_clr type : Z) (m : mem)
    : option mem :=
  pt_page ← vpn_to_vaddr vpn1 m;
  let index := pte_index vaddr_start in
  modify_or_del_pte_loop (Z.to_nat (PTRS_PER_PTE - index)) pt_page index vaddr_start vaddr_end
    prot_set prot_clr type m.

Fixpoint modify_or_del_vpn1_loop (n : nat) (pd_page index vaddr vaddr_end prot_set prot_clr type : Z)
    (m : mem) : option mem :=
  match n with
  | O => Some m
  | S n =>
      let vpn1 := u64 (pd_page + 8 * index) in
      let vaddr_next := u64 ((vaddr &&& VPN1_MASK) + VPN1_SIZE) in
      e ← load vpn1 m;
      if pgentry_present mem_ops e =? 0 then
        if vaddr_end <=? vaddr_next then Some m
        else modify_or_del_vpn1_loop n pd_page (index + 1) vaddr_next vaddr_end prot_set prot_clr type m
      else if nonzero (vpn_large e)
              && negb ((vaddr_end <? vaddr_next) || negb (mem_aligned_check vaddr VPN1_SIZE)) then
        m ← local_modify_or_del_pte vpn1 prot_set prot_clr type m;
        if vaddr_next <? vaddr_end then
          modify_or_del_vpn1_loop n pd_page (index + 1) vaddr_next vaddr_end prot_set prot_clr type m
        else Some m
      else
        m ← (if nonzero (vpn_large e) then split_large_page vpn1 VPN1 vaddr m else Some m);
        m ← modify_or_del_pte vpn1 vaddr vaddr_end prot_set prot_clr type m;
        if vaddr_end <=? vaddr_next then Some m
        else modify_or_del_vpn1_loop n pd_page (index + 1) vaddr_next vaddr_end prot_set prot_clr type m
  end.

Definition modify_or_del_vpn1 (vpn2 vaddr_start vaddr_end prot_set prot_clr type : Z) (m : mem)
    : option mem :=
  pd_page ← vpn_to_vaddr vpn2 m;
  let index := vpn1_index vaddr_start in
  modify_or_del_vpn1_loop (Z.to_nat (PTRS_PER_VPN1 - index)) pd_page index vaddr_start vaddr_end
    prot_set prot_clr type m.

Fixpoint modify_or_del_vpn2_loop (n : nat) (vpn2_page index vaddr vaddr_end prot_set prot_clr type : Z)
    (m : mem) : option mem :=
  match n with
  | O => Some m
  | S n =>
      let vpn2 := u64 (vpn2_page + 8 * index) in
      let vaddr_next := u64 ((vaddr &&& VPN2_MASK) + VPN2_SIZE) in
      e ← load vpn2 m;
      if pgentry_present mem_ops e =? 0 then
        if vaddr_end <=? vaddr_next then Some m
        else modify_or_del_vpn2_loop n vpn2_page (index + 1) vaddr_next vaddr_end prot_set prot_clr type m
      else if nonzero (vpn_large e)
              && negb ((vaddr_end <? vaddr_next) || negb (mem_aligned_check vaddr VPN2_SIZE)) then
        m ← local_modify_or_del_pte vpn2 prot_set prot_clr type m;
        if vaddr_next <? vaddr_end then
          modify_or_del_vpn2_loop n vpn2_page (index + 1) vaddr_next vaddr_end prot_set prot_clr type m
        else Some m
      else
        m ← (if nonzero (vpn_large e) then split_large_page vpn2 VPN3 vaddr m else Some m);
        m ← modify_or_del_vpn1 vpn2 vaddr vaddr_end prot_set prot_clr type m;
        if vaddr_end <=? vaddr_next then Some m
        else modify_or_del_vpn2_loop n vpn2_page (index + 1) vaddr_next vaddr_end prot_set prot_clr type m
  end.

Definition modify_or_del_vpn2 (vpn3 vaddr_start vaddr_end prot_set prot_clr type : Z) (m : mem)
    : option mem :=
  vpn2_page ← vpn_to_vaddr vpn3 m;
  let index := vpn2_index vaddr_start in
  modify_or_del_vpn2_loop (Z.to_nat (PTRS_PER_VPN2 - index)) vpn2_page index vaddr_start vaddr_end
    prot_set prot_clr type m.

(** The loops over the root entries. One round passes a root entry, so [fuel]
    of one more than the entries up to [vaddr_end] is enough unless the
    address wraps around or the assertion fails, in which case the loop does not
    end. *)
Fixpoint mmu_modify_or_del_loop (fuel : nat) (vpn3_page vaddr vaddr_end prot_set prot_clr type : Z)
    (m : mem) : option mem :=
  match fuel with
  | O => None
  | S fuel =>
      if vaddr <? vaddr_end then
        let vaddr_next := u64 ((vaddr &&& VPN3_MASK) + VPN3_SIZE) in
        let vpn3 := vpn3_offset vpn3_page vaddr in
        e ← load vpn3 m;
        if (pgentry_present mem_ops e =? 0) && (type =? MR_MODIFY) then
          mmu_modify_or_del_loop fuel vpn3_page vaddr vaddr_end prot_set prot_clr type m
        else
          m ← modify_or_del_vpn2 vpn3 vaddr vaddr_end prot_set prot_clr type m;
          mmu_modify_or_del_loop fuel vpn3_page vaddr_next vaddr_end prot_set prot_clr type m
      else Some m
  end.

Definition root_fuel (vaddr_end : Z) : nat := S (S (Z.to_nat (Z.shiftr vaddr_end VPN3_SHIFT))).

Definition mmu_modify_or_del (vpn3_page vaddr_base size prot_set prot_clr type : Z) (m : mem)
    : option mem :=
  let vaddr := round_page_up vaddr_base in
  let vaddr_end := u64 (vaddr + round_page_down size) in
  mmu_modify_or_del_loop (root_fuel vaddr_end) vpn3_page vaddr vaddr_end prot_set prot_clr type m.

Fixpoint add_pte_loop (n : nat) (pt_page index paddr vaddr vaddr_end prot : Z) (m : mem) : option mem :=
  match n with
  | O => Some m
  | S n =>
      let pte := u64 (pt_page + 8 * index) in
      e ← load pte m;
      m ← (if nonzero (pgentry_present mem_ops e) then Some m else construct_pte pte paddr prot m);
      let paddr := u64 (paddr + PTE_SIZE) in
      let vaddr := u64 (vaddr + PTE_SIZE) in
      if vaddr_end <=? vaddr then Some m
      else add_pte_loop n pt_page (index + 1) paddr vaddr vaddr_end prot m
  end.

Definition add_pte (vpn1 paddr_start vaddr_start vaddr_end prot : Z) (m : mem) : option mem :=
  pt_page ← vpn_to_vaddr vpn1 m;
  let index := pte_index vaddr_start in
  add_pte_loop (Z.to_nat (PTRS_PER_PTE - index)) pt_page index paddr_start vaddr_start vaddr_end prot m.

Fixpoint add_vpn1_loop (n : nat) (pd_page index paddr vaddr vaddr_end prot : Z) (m : mem) : option mem :=
  match n with
  | O => Some m
  | S n =>
      let vpn1 := u64 (pd_page + 8 * index) in
      let vaddr_next := u64 ((vaddr &&& VPN1_MASK) + VPN1_SIZE) in
      let paddr_next := u64 (paddr + u64 (vaddr_next - vaddr)) in
      e ← load vpn1 m;
      if nonzero (vpn_large e) then
        if vaddr_end <=? vaddr_next then Some m
        else add_vpn1_loop n pd_page (index + 1) paddr_next vaddr_next vaddr_end prot m
      else if (pgentry_present mem_ops e =? 0)
              && (large_page_support_op mem_ops VPN1 && mem_aligned_check paddr VPN1_SIZE
                  && mem_aligned_check vaddr VPN1_SIZE && (vaddr_next <=? vaddr_end)) then
        let prot := tweak_exe_right mem_ops prot in
        m ← construct_pte vpn1 paddr prot m;
        if vaddr_next <? vaddr_end then
          add_vpn1_loop n pd_page (index + 1) paddr_next vaddr_next vaddr_end prot m
        else Some m
      else
        m ← (if pgentry_present mem_ops e =? 0 then
               '(m, pt_page) ← get_pt_page mem_ops (info mem_ops) vaddr m;
               construct_pgentry vpn1 pt_page (get_default_access_right mem_ops) m
             else Some m);
        m ← add_pte vpn1 paddr vaddr vaddr_end prot m;
        if vaddr_end <=? vaddr_next then Some m
        else add_vpn1_loop n pd_page (index + 1) paddr_next vaddr_next vaddr_end prot m
  end.

Definition add_vpn1 (vpn2 paddr_start vaddr_start vaddr_end prot : Z) (m : mem) : option mem :=
  pd_page ← vpn_to_vaddr vpn2 m;
  let index := vpn1_index vaddr_start in
  add_vpn1_loop (Z.to_nat (PTRS_PER_VPN1 - index)) pd_page index paddr_start vaddr_start vaddr_end prot m.

Fixpoint add_vpn2_loop (n : nat) (vpn2_page index paddr vaddr vaddr_end prot : Z) (m : mem) : option mem :=
  match n with
  | O => Some m
  | S n =>
      let vpn2 := u64 (vpn2_page + 8 * index) in
      let vaddr_next := u64 ((vaddr &&& VPN2_MASK) + VPN2_SIZE) in
      let paddr_next := u64 (paddr + u64 (vaddr_next - vaddr)) in
      e ← load vpn2 m;
      if nonzero (vpn_large e) then
        if vaddr_end <=? vaddr_next then Some m
        else add_vpn2_loop n vpn2_page (index + 1) paddr_next vaddr_next vaddr_end prot m
      else if (pgentry_present mem_ops e =? 0)
              && (large_page_support_op mem_ops VPN2 && mem_aligned_check paddr VPN2_SIZE
                  && mem_aligned_check vaddr VPN2_SIZE && (vaddr_next <=? vaddr_end)) then
        let prot := tweak_exe_right mem_ops prot in
        m ← construct_pte vpn2 paddr prot m;
        if vaddr_next <? vaddr_end then
          add_vpn2_loop n vpn2_page (index + 1) paddr_next vaddr_next vaddr_end prot m
        else Some m
      else
        m ← (if pgentry_present mem_ops e =? 0 then
               '(m, pd_page) ← get_pd_page mem_ops (info mem_ops) vaddr m;
               construct_pgentry vpn2 pd_page (get_default_access_right mem_ops) m
             else Some m);
        m ← add_vpn1 vpn2 paddr vaddr vaddr_end prot m;
        if vaddr_end <=? vaddr_next then Some m
        else add_vpn2_loop n vpn2_page (index + 1) paddr_next vaddr_next vaddr_end prot m
  end.

Definition add_vpn2 (vpn3 paddr_start vaddr_start vaddr_end prot : Z) (m : mem) : option mem :=
  vpn2_page ← vpn_to_vaddr vpn3 m;
  let index := vpn2_index vaddr_start in
  add_vpn2_loop (Z.to_nat (PTRS_PER_VPN2 - index)) vpn2_page index paddr_start vaddr_start vaddr_end prot m.

Fixpoint mmu_add_loop (fuel : nat) (vpn3_page paddr vaddr vaddr_end prot : Z) (m : mem) : option mem :=
  match fuel with
  | O => None
  | S fuel =>
      if vaddr <? vaddr_end then
        let vaddr_next := u64 ((vaddr &&& VPN3_MASK) + VPN3_SIZE) in
        let vpn3 := vpn3_offset vpn3_page vaddr in
        e ← load vpn3 m;
        m ← (if pgentry_present mem_ops e =? 0 then
               '(m, vpn2_page) ← get_pdpt_page mem_ops (info mem_ops) vaddr m;
               construct_pgentry vpn3 vpn2_page (get_default_access_right mem_ops) m
             else Some m);
        m ← add_vpn2 vpn3 paddr vaddr vaddr_end prot m;
        mmu_add_loop fuel vpn3_page (u64 (paddr + u64 (vaddr_next - vaddr))) vaddr_next vaddr_end prot m
      else Some m
  end.

Definition mmu_add (vpn3_page paddr_base vaddr_base size prot : Z) (m : mem) : option mem :=
  let vaddr := round_page_up vaddr_base in
  let paddr := round_page_up paddr_base in
  let vaddr_end := u64 (vaddr + round_page_down size) in
  mmu_add_loop (root_fuel vaddr_end) vpn3_page paddr vaddr vaddr_end prot m.

(** The entry that maps [addr], as a pointer and a page size. *)
Definition lookup_address (vpn3_page addr : Z) (m : mem) : option (option (Z * Z)) :=
  let vpn3 := vpn3_offset vpn3_page addr in
  e3 ← load vpn3 m;
  if nonzero (pgentry_present mem_ops e3) then
    vpn2 ← vpn2_offset vpn3 addr m;
    e2 ← load vpn2 m;
    if nonzero (pgentry_present mem_ops e2) then
      if nonzero (vpn_large e2) then Some (Some (vpn2, VPN2_SIZE))
      else
        vpn1 ← vpn1_offset vpn2 addr m;
        e1 ← load vpn1 m;
        if nonzero (pgentry_present mem_ops e1) then
          if nonzero (vpn_large e1) then Some (Some (vpn1, VPN1_SIZE))
          else
            pte ← pte_offset vpn1 addr m;
            e0 ← load pte m;
            if nonzero (pgentry_present mem_ops e0) then Some (Some (pte, PTE_SIZE)) else Some None
        else Some None
    else Some None
  else Some None.
End pgtable.

(** ** The translation the hardware performs *)

(** Level [l] of the table translates 9 bits from bit [12 + 9 l] up. *)
Definition region (l : nat) : Z := 2 ^ (12 + 9 * Z.of_nat l).

(** The Sv48 walk of the privileged architecture from level [l], whose table is
    at physical address [table]: the physical address, the flag bits of the leaf
    and its level, or [None] for a page fault. *)
Fixpoint sv48_walk (hva : Z → Z) (l : nat) (table va : Z) (m : mem) : option (Z * Z * nat) :=
  e ← load (hva table + 8 * (va / region l mod 512)) m;
  if negb (Z.testbit e 0) || (Z.testbit e 2 && negb (Z.testbit e 1)) then None
  else if Z.testbit e 1 || Z.testbit e 3 then
    let pa := walk_base e * 4096 in
    if pa mod region l =? 0 then Some (pa + va mod region l, e mod 2 ^ 8, l) else None
  else match l with O => None | S l => sv48_walk hva l (walk_base e * 4096) va m end.

(** ** The statically allocated tables *)

Definition table_base (i : pgtable_pages_info) (l : nat) : Z :=
  match l with O => vpn0_base i | S O => vpn1_base i | S (S O) => vpn2_base i | _ => vpn3_base i end.
(** Number of entries of the array of tables of level [l]. *)
Definition entries (i : pgtable_pages_info) (l : nat) : Z :=
  512 * ((top_address_space i + region (S l) - 1) / region (S l)).
(** Entry [n] of that array: the entry for the addresses from [n * region l]. *)
Definition slot (i : pgtable_pages_info) (l : nat) (n : Z) : Z := table_base i l + 8 * n.
Definition valid (i : pgtable_pages_info) (l : nat) (n : Z) : Prop :=
  (l ≤ 3)%nat ∧ 0 ≤ n < entries i l.

Record layout (phys_offset kstart kend : Z) (i : pgtable_pages_info) : Prop := {
  layout_top : 0 < top_address_space i ≤ 2 ^ 48;
  layout_offset : 0 ≤ phys_offset ∧ phys_offset mod region 2 = 0;
  layout_kernel l : (l ≤ 3)%nat → 0 ≤ kstart ≤ table_base i l
    ∧ table_base i l + 8 * entries i l ≤ kend;
  layout_kend : kend + phys_offset ≤ 2 ^ 44;
  layout_aligned l : (l ≤ 3)%nat → table_base i l mod 4096 = 0;
  layout_disjoint l l' : (l < l' ≤ 3)%nat →
    table_base i l + 8 * entries i l ≤ table_base i l'
    ∨ table_base i l' + 8 * entries i l' ≤ table_base i l;
}.

(** What the code relies on of the memory operations; both instances have it. *)
Record std_ops (ops : memory_ops) : Prop := {
  std_large : large_page_support_op ops = large_page_support;
  std_present e : pgentry_present ops e = e &&& PAGE_V;
  std_flush p m : clflush_pagewalk ops p m = m;
  std_pdpt : get_pdpt_page ops = s2pt_get_vpn2_page;
  std_pd : get_pd_page ops = s2pt_get_vpn1_page;
  std_pt : get_pt_page ops = s2pt_get_vpn0_page;
}.

Lemma ppt_std i : std_ops (ppt_mem_ops i).
Proof. by split. Qed.
Lemma s2pt_std a b c d v : std_ops (init_s2pt_mem_ops a b c d v).
Proof. by split. Qed.

Lemma region_pos l : 0 < region l.
Proof. apply Z.pow_pos_nonneg; lia. Qed.
Lemma region_S l : region (S l) = 512 * region l.
Proof.
  unfold region. replace (12 + 9 * Z.of_nat (S l)) with (9 + (12 + 9 * Z.of_nat l)) by lia.
  rewrite Z.pow_add_r by lia. done.
Qed.
Lemma region_0 : region 0 = 4096.
Proof. done. Qed.
Lemma region_divide l k : (l ≤ k)%nat → (region l | region k).
Proof.
  intros. unfold region. exists (2 ^ (9 * (Z.of_nat k - Z.of_nat l))).
  rewrite <- Z.pow_add_r by lia. f_equal. lia.
Qed.
Lemma shiftr_region va l : Z.shiftr va (12 + 9 * Z.of_nat l) = va / region l.
Proof. rewrite Z.shiftr_div_pow2 by lia. done. Qed.

Lemma land_ones_mod a n : 0 ≤ n → a &&& (2 ^ n - 1) = a mod 2 ^ n.
Proof.
  intros. rewrite <- Z.land_ones by done. f_equal. rewrite Z.ones_equiv. lia.
Qed.

Lemma land_mask x n : 0 ≤ n ≤ 64 → word 64 x → x &&& bnot 64 (2 ^ n - 1) = x / 2 ^ n * 2 ^ n.
Proof.
  intros Hn Hx. rewrite <- Z.shiftr_div_pow2, <- Z.shiftl_mul_pow2 by lia.
  apply Z.bits_inj_iff'. intros k Hk.
  rewrite Z.land_spec, bnot_testbit, Z.shiftl_spec by lia.
  replace (2 ^ n - 1) with (Z.ones n) by (rewrite Z.ones_equiv; lia).
  rewrite Z.testbit_ones_nonneg by lia.
  destruct (decide (k < n)).
  - rewrite (Z.testbit_neg_r _ (k - n)) by lia. zcmp. by rewrite !andb_false_r.
  - rewrite Z.shiftr_spec by lia. replace (k - n + n) with k by lia.
    destruct (k <? 64) eqn:E; zreflect; zcmp; [by rewrite andb_true_r|].
    by rewrite (word_testbit_high 64) by (done || lia).
Qed.

(** The masks of the levels. *)
Lemma land_region_mask x l : (l ≤ 3)%nat → word 64 x →
  x &&& bnot 64 (region l - 1) = x / region l * region l.
Proof. intros. apply land_mask; [lia|done]. Qed.
Lemma index_mod x : x &&& (PG_TABLE_ENTRIES - 1) = x mod 512.
Proof. apply (land_ones_mod x 9). lia. Qed.
Lemma pte_index_mod va : pte_index va = va / region 0 mod 512.
Proof. rewrite <- (shiftr_region va 0). apply index_mod. Qed.
Lemma vpn1_index_mod va : vpn1_index va = va / region 1 mod 512.
Proof. rewrite <- (shiftr_region va 1). apply index_mod. Qed.
Lemma vpn2_index_mod va : vpn2_index va = va / region 2 mod 512.
Proof. rewrite <- (shiftr_region va 2). apply index_mod. Qed.
Lemma vpn3_index_mod va : vpn3_index va = va / region 3 mod 512.
Proof. rewrite <- (shiftr_region va 3). apply index_mod. Qed.
Lemma aligned_mod x l : mem_aligned_check x (region l) = (x mod region l =? 0).
Proof. unfold mem_aligned_check, region. by rewrite land_ones_mod by lia. Qed.

Lemma present_testbit e : nonzero (e &&& PAGE_V) = Z.testbit e 0.
Proof. apply (land_pow2_nonzero e 0). lia. Qed.
Lemma absent_testbit e : (e &&& PAGE_V =? 0) = negb (Z.testbit e 0).
Proof. rewrite <- present_testbit. unfold nonzero. by rewrite negb_involutive. Qed.

Lemma vpn_large_table x : nonzero (vpn_large (1 + 2 ^ 10 * x)) = false.
Proof.
  unfold vpn_large. replace ((1 + 2 ^ 10 * x) &&& PAGE_TYPE_MASK) with 1; [by destruct (nonzero (_ &&& PAGE_V))|].
  change PAGE_TYPE_MASK with (2 ^ 4 - 1). rewrite land_ones_mod by lia.
  replace (1 + 2 ^ 10 * x) with (1 + (2 ^ 6 * x) * 2 ^ 4) by lia.
  rewrite Z_mod_plus_full. done.
Qed.
Lemma vpn_large_leaf e : Z.testbit e 0 = true → Z.testbit e 1 = true → nonzero (vpn_large e) = true.
Proof.
  intros H0 H1. unfold vpn_large. rewrite present_testbit, H0.
  destruct (_ =? PAGE_TYPE_TABLE) eqn:E; [|done]. zreflect.
  apply (f_equal (λ z, Z.testbit z 1)) in E.
  rewrite Z.land_spec, H1 in E. done.
Qed.
Lemma vpn_large_absent e : Z.testbit e 0 = false → nonzero (vpn_large e) = false.
Proof. intros H0. unfold vpn_large. by rewrite present_testbit, H0. Qed.

(** ** Well-formed tables *)

Section tables.
Context (phys_offset kstart kend : Z) (i : pgtable_pages_info).
Context (HL : layout phys_offset kstart kend i).
#[local] Abbreviation top := (top_address_space i).
#[local] Abbreviation hva := (hpa2hva phys_offset kstart kend).

(** The page that holds table [n] of level [l]. *)
Definition table_page (l : nat) (n : Z) : Z := table_base i l + 4096 * n.

(** The entry that points to the page of physical address [pa], and a leaf. *)
Definition table_entry (page : Z) : Z := 1 + 2 ^ 10 * ((page + phys_offset) / 4096).
Definition leaf_entry (pa : Z) : Z := 0x1f + 2 ^ 10 * (pa / 4096).

Definition is_leaf (l : nat) (e : Z) : Prop :=
  Z.testbit e 0 = true ∧ Z.testbit e 1 = true ∧ (walk_base e * 4096) mod region l = 0 ∧ word 64 e.

(** What entry [n] of level [l] may hold: nothing, a leaf below the root, or a
    pointer to the one page that holds the tables of its addresses. *)
Definition entry_ok (l : nat) (n e : Z) : Prop :=
  Z.testbit e 0 = false
  ∨ ((l ≤ 2)%nat ∧ is_leaf l e)
  ∨ (∃ k, l = S k ∧ e = table_entry (table_page k n)).

Definition tables_wf (m : mem) : Prop :=
  ∀ l n, valid i l n → ∃ e, m !! slot i l n = Some e ∧ entry_ok l n e.

(** The walk read off the arrays. *)
Fixpoint tr (l : nat) (va : Z) (m : mem) : option (Z * Z * nat) :=
  e ← m !! slot i l (va / region l);
  if negb (Z.testbit e 0) then None
  else if Z.testbit e 1 then Some (walk_base e * 4096 + va mod region l, e mod 2 ^ 8, l)
  else match l with O => None | S l => tr l va m end.

Definition translate (va : Z) (m : mem) : option (Z * Z * nat) :=
  sv48_walk hva 3 (hva2hpa phys_offset kstart kend (vpn3_base i)) va m.

Lemma entries_bound l n : 0 ≤ n → n * region (S l) < top → 512 * n + 511 < entries i l.
Proof using.
  intros. unfold entries. pose proof (region_pos (S l)).
  assert (n + 1 ≤ (top + region (S l) - 1) / region (S l)); [|lia].
  apply Z.div_le_lower_bound; lia.
Qed.

Lemma valid_va l va : (l ≤ 3)%nat → 0 ≤ va < top → valid i l (va / region l).
Proof using.
  intros Hl Hva. split; [done|]. pose proof (region_pos l). split; [apply Z.div_pos; lia|].
  pose proof (region_pos (S l)). set (q := va / region (S l)).
  assert (512 * q + 511 < entries i l).
  { apply entries_bound; [apply Z.div_pos; lia|].
    pose proof (Z.mul_div_le va (region (S l))). unfold q. lia. }
  assert (q = va / region l / 512).
  { unfold q. rewrite region_S, (Z.mul_comm 512), Z.div_div by lia. done. }
  pose proof (Z.div_mod (va / region l) 512). pose proof (Z.mod_pos_bound (va / region l) 512). lia.
Qed.

Lemma slot_bounds l n : valid i l n →
  kstart ≤ slot i l n ∧ slot i l n + 8 ≤ kend ∧ 0 ≤ slot i l n < 2 ^ 44.
Proof using HL.
  intros [Hl Hn]. pose proof (layout_kernel _ _ _ _ HL l Hl). pose proof (layout_kend _ _ _ _ HL).
  pose proof (layout_offset _ _ _ _ HL). unfold slot. lia.
Qed.

Lemma slot_inj l n l' n' : valid i l n → valid i l' n' → slot i l n = slot i l' n' → l = l' ∧ n = n'.
Proof using HL.
  unfold slot. intros [Hl Hn] [Hl' Hn'] E. destruct (decide (l = l')) as [->|Hne]; [split; lia|].
  destruct (decide (l < l')%nat).
  - destruct (layout_disjoint _ _ _ _ HL l l'); lia.
  - destruct (layout_disjoint _ _ _ _ HL l' l); lia.
Qed.

Lemma lookup_slot_ne l n l' n' e (m : mem) : valid i l n → valid i l' n' → (l, n) ≠ (l', n') →
  <[slot i l n := e]> m !! slot i l' n' = m !! slot i l' n'.
Proof using HL.
  intros Hv Hv' Hne. apply lookup_insert_ne. intros E.
  apply slot_inj in E as [-> ->]; done.
Qed.

(** *** Entries as numbers *)

Lemma testbit_low k f x : 0 ≤ k < 10 → 0 ≤ f → Z.testbit (f + 2 ^ 10 * x) k = Z.testbit f k.
Proof using.
  intros Hk Hf. rewrite <- (Z.mod_pow2_bits_low (f + 2 ^ 10 * x) 10 k) by lia.
  rewrite (Z.mul_comm (2 ^ 10)), Z_mod_plus_full. by rewrite Z.mod_pow2_bits_low by lia.
Qed.

Lemma walk_base_entry f x : 0 ≤ f < 2 ^ 10 → 0 ≤ x < 2 ^ 44 → walk_base (f + 2 ^ 10 * x) = x.
Proof using.
  intros. unfold walk_base. rewrite Z.shiftr_div_pow2 by lia.
  rewrite (Z.mul_comm (2 ^ 10)), Z.div_add, (Z.div_small f) by lia. apply Z.mod_small. lia.
Qed.

Lemma pte_of_memaddr_bits p table : 0 ≤ p + phys_offset < 2 ^ 56 →
  bits (pte_of_memaddr phys_offset p table)
  = (if table then 1 else 7) + 2 ^ 10 * ((p + phys_offset) / 4096).
Proof using.
  intros. unfold pte_of_memaddr, maddr_to_mfn. rewrite u64_id by (unfold word; lia).
  rewrite Z.shiftr_div_pow2 by done. change (2 ^ PAGE_SHIFT) with 4096.
  unfold mfn_to_acrn_entry, bits.
  assert (0 ≤ (p + phys_offset) / 4096 < 2 ^ 44) by
    (split; [apply Z.div_pos; lia|apply Z.div_lt_upper_bound; lia]).
  destruct table; cbn -[Z.pow Z.mul Z.add Z.modulo Z.div];
    change (_ mod 2 ^ 2) with 0; rewrite Z.mod_small by lia; lia.
Qed.

Lemma leaf_bits p : 0 ≤ p + phys_offset < 2 ^ 56 →
  bits (pte_of_memaddr phys_offset p false) ||| (PAGE_U ||| PAGE_X) = leaf_entry (p + phys_offset).
Proof using.
  intros. rewrite pte_of_memaddr_bits by done. unfold leaf_entry.
  set (x := (p + phys_offset) / 4096). apply Z.bits_inj_iff'. intros k Hk.
  rewrite Z.lor_spec.
  assert (Z.testbit (PAGE_U ||| PAGE_X) k = bool_decide (k = 3 ∨ k = 4)) as ->.
  { change (PAGE_U ||| PAGE_X) with (2 ^ 3 ||| 2 ^ 4). rewrite Z.lor_spec, !testbit_pow2 by lia.
    repeat case_bool_decide; try done; lia. }
  destruct (decide (k < 10)).
  - rewrite !testbit_low by lia.
    assert (k = 0 ∨ k = 1 ∨ k = 2 ∨ k = 3 ∨ k = 4 ∨ k = 5 ∨ k = 6 ∨ k = 7 ∨ k = 8 ∨ k = 9) by lia.
    destruct_or!; subst; done.
  - rewrite bool_decide_false, orb_false_r by lia.
    assert (∀ a, Z.testbit a k = Z.testbit (a / 2 ^ 10) (k - 10)) as Hs.
    { intros a. rewrite <- Z.shiftr_div_pow2, Z.shiftr_spec by lia. f_equal. lia. }
    rewrite !Hs, !(Z.mul_comm (2 ^ 10)), !Z.div_add by lia. done.
Qed.

Lemma is_leaf_entry l pa : 0 ≤ pa < 2 ^ 56 → pa mod region l = 0 → is_leaf l (leaf_entry pa).
Proof using.
  intros Hpa Ha. unfold leaf_entry.
  assert (pa mod 4096 = 0).
  { apply Z.mod_divide in Ha; [|pose proof (region_pos l); lia]. apply Z.mod_divide; [lia|].
    etrans; [apply (region_divide 0 l); lia|done]. }
  assert (4096 * (pa / 4096) = pa) by (pose proof (Z.div_mod pa 4096); lia).
  split_and!; rewrite ?testbit_low by lia; [done..| |unfold word; lia].
  rewrite walk_base_entry by lia. rewrite Z.mul_comm. congruence.
Qed.

(** *** Walking *)

Lemma va_split l va : 512 * (va / region (S l)) + va / region l mod 512 = va / region l.
Proof using.
  pose proof (region_pos l). rewrite region_S, (Z.mul_comm 512 (region l)), <- Z.div_div by lia.
  pose proof (Z.div_mod (va / region l) 512). lia.
Qed.

Lemma table_page_slot l va :
  table_page l (va / region (S l)) + 8 * (va / region l mod 512) = slot i l (va / region l).
Proof using. unfold table_page, slot. pose proof (va_split l va). lia. Qed.

Lemma table_page_bounds l n : (l ≤ 3)%nat → 0 ≤ n → n * region (S l) < top →
  0 ≤ kstart ≤ table_page l n ∧ table_page l n + 4096 ≤ kend ∧ table_page l n mod 4096 = 0.
Proof using HL.
  intros Hl Hn Ht. pose proof (entries_bound l n Hn Ht).
  pose proof (layout_kernel _ _ _ _ HL l Hl). pose proof (layout_aligned _ _ _ _ HL l Hl) as Ha.
  unfold table_page. split_and!; [lia..|].
  rewrite (Z.mul_comm 4096), Z_mod_plus_full. done.
Qed.

Lemma pfn_mask x : 0 ≤ x < 2 ^ 48 → x mod 4096 = 0 → x &&& VPN1_PFN_MASK = x.
Proof using.
  intros Hx Ha. replace x with (Z.shiftl (x / 4096) 12) at 2 by
    (rewrite Z.shiftl_mul_pow2 by lia; pose proof (Z.div_mod x 4096); lia).
  replace x with (Z.shiftl (x / 4096) 12) at 1 by
    (rewrite Z.shiftl_mul_pow2 by lia; pose proof (Z.div_mod x 4096); lia).
  change VPN1_PFN_MASK with (Z.shiftl (Z.ones 36) 12).
  rewrite <- Z.shiftl_land, Z.land_ones, Z.mod_small; [done| |lia].
  split; [apply Z.div_pos; lia|apply Z.div_lt_upper_bound; lia].
Qed.

Lemma page_hva p : kstart ≤ p < kend → 0 ≤ kstart → hva (p + phys_offset) = p.
Proof using HL.
  intros. pose proof (layout_kend _ _ _ _ HL). pose proof (layout_offset _ _ _ _ HL).
  unfold hpa2hva, is_kernel. replace (p + phys_offset - phys_offset) with p by lia.
  rewrite u64_id by (unfold word; lia). by zcmp.
Qed.

Lemma offset_aligned l : (l ≤ 2)%nat → phys_offset mod region l = 0.
Proof using HL.
  intros Hl. destruct (layout_offset _ _ _ _ HL) as [_ Ho].
  pose proof (region_pos l). pose proof (region_pos 2).
  apply Z.mod_divide in Ho; [|lia]. apply Z.mod_divide; [lia|].
  etrans; [by apply region_divide|done].
Qed.

Lemma page_frame p : p mod 4096 = 0 → (p + phys_offset) / 4096 * 4096 = p + phys_offset.
Proof using HL.
  intros Hp. pose proof (offset_aligned 0 ltac:(lia)) as Ho. rewrite region_0 in Ho.
  assert ((p + phys_offset) mod 4096 = 0) by (rewrite Z.add_mod, Hp, Ho by lia; done).
  pose proof (Z.div_mod (p + phys_offset) 4096). lia.
Qed.

Lemma walk_base_table p : kstart ≤ p < kend → 0 ≤ kstart → p mod 4096 = 0 →
  walk_base (table_entry p) * 4096 = p + phys_offset.
Proof using HL.
  intros. pose proof (layout_kend _ _ _ _ HL). pose proof (layout_offset _ _ _ _ HL).
  unfold table_entry. rewrite walk_base_entry; [by apply page_frame|lia|].
  split; [apply Z.div_pos; lia|apply Z.div_lt_upper_bound; lia].
Qed.

Lemma vpn_to_vaddr_table p l n m : (l ≤ 3)%nat → 0 ≤ n → n * region (S l) < top →
  m !! p = Some (table_entry (table_page l n)) →
  vpn_to_vaddr phys_offset kstart kend p m = Some (table_page l n).
Proof using HL.
  intros Hl Hn Ht Hp. destruct (table_page_bounds l n Hl Hn Ht) as (? & ? & Ha).
  pose proof (layout_kend _ _ _ _ HL). destruct (layout_offset _ _ _ _ HL) as [? _].
  pose proof (offset_aligned 0 ltac:(lia)) as Ho. rewrite region_0 in Ho.
  unfold vpn_to_vaddr, load. rewrite Hp. cbn [mbind option_bind]. f_equal.
  rewrite Z.shiftl_mul_pow2 by done. change (2 ^ PTE_SHIFT) with 4096.
  rewrite walk_base_table by lia. rewrite u64_id by (unfold word; lia).
  rewrite pfn_mask; [apply page_hva; lia|lia|]. rewrite Z.add_mod, Ha, Ho by lia. done.
Qed.

Lemma sv48_walk_tr m va : tables_wf m → 0 ≤ va < top → ∀ l, (l ≤ 3)%nat →
  sv48_walk hva l (table_page l (va / region (S l)) + phys_offset) va m = tr l va m.
Proof using HL.
  intros Hwf Hva l. induction l as [|l IH]; intros Hl.
  all: match goal with |- sv48_walk _ ?k _ _ _ = _ =>
    destruct (table_page_bounds k (va / region (S k))) as (? & ? & ?);
      [lia|apply Z.div_pos; [lia|apply region_pos]
      |pose proof (Z.mul_div_le va (region (S k)) (region_pos (S k))); lia|];
    destruct (Hwf k (va / region k)) as (e & He & Hok); [by apply valid_va|];
    cbn [sv48_walk tr]; unfold load; rewrite page_hva, table_page_slot, He by lia;
    cbn [mbind option_bind] end.
  all: destruct Hok as [->|[(? & -> & -> & Hal & _)|(k & Hk & ->)]]; [done| |].
  - cbn [negb orb andb]. rewrite andb_false_r, Hal. done.
  - done.
  - cbn [negb orb andb]. rewrite andb_false_r, Hal. done.
  - injection Hk as <-. destruct (table_page_bounds l (va / region (S l))) as (? & ? & ?);
      [lia|apply Z.div_pos; [lia|apply region_pos]
      |pose proof (Z.mul_div_le va (region (S l)) (region_pos (S l))); lia|].
    rewrite walk_base_table, IH by lia. unfold table_entry. by rewrite !testbit_low by lia.
Qed.

Lemma translate_root va : 0 ≤ va < top →
  hva2hpa phys_offset kstart kend (vpn3_base i) = table_page 3 (va / region 4) + phys_offset.
Proof using HL.
  intros Hva. pose proof (layout_top _ _ _ _ HL).
  pose proof (layout_kernel _ _ _ _ HL 3 ltac:(lia)) as Hk.
  destruct (valid_va 3 va) as [_ Hv]; [lia|done|].
  pose proof (layout_kend _ _ _ _ HL). pose proof (layout_offset _ _ _ _ HL).
  unfold table_page. rewrite (Z.div_small va (region 4)) by (change (region 4) with (2 ^ 48); lia).
  rewrite Z.mul_0_r, Z.add_0_r. cbn [table_base] in *. unfold hva2hpa, is_kernel.
  zcmp. apply u64_id. unfold word. lia.
Qed.

Lemma translate_tr m va : tables_wf m → 0 ≤ va < top → translate va m = tr 3 va m.
Proof using HL.
  intros Hwf Hva. rewrite <- sv48_walk_tr by (done || lia).
  unfold translate. by rewrite (translate_root va).
Qed.

(** *** Effect of writes on the translation *)

Lemma tr_ext l va m m' :
  (∀ k, (k ≤ l)%nat → m' !! slot i k (va / region k) = m !! slot i k (va / region k)) →
  tr l va m' = tr l va m.
Proof using.
  induction l as [|l IH]; intros Hk; cbn [tr]; rewrite Hk by lia; [done|].
  rewrite IH; [done|]. intros. apply Hk. lia.
Qed.

Lemma memset_zero_ok n p (m : mem) :
  (∀ k, (k < n)%nat → is_Some (m !! (p + 8 * Z.of_nat k))) →
  ∃ m', memset_zero n p m = Some m'
    ∧ (∀ k, (k < n)%nat → m' !! (p + 8 * Z.of_nat k) = Some 0)
    ∧ (∀ a, (∀ k, (k < n)%nat → a ≠ p + 8 * Z.of_nat k) → m' !! a = m !! a).
Proof using.
  revert p m. induction n as [|n IH]; intros p m Hm.
  - exists m. split_and!; [done|lia|done].
  - destruct (Hm O) as [x Hx]; [lia|]. rewrite Z.mul_0_r, Z.add_0_r in Hx.
    cbn [memset_zero]. unfold store. rewrite Hx. cbn [mbind option_bind].
    destruct (IH (p + 8) (<[p := 0]> m)) as (m' & -> & H0 & Hne).
    { intros k Hk. replace (p + 8 + 8 * Z.of_nat k) with (p + 8 * Z.of_nat (S k)) by lia.
      rewrite lookup_insert_ne by lia. apply Hm. lia. }
    exists m'. split_and!; [done| |].
    + intros [|k] Hk.
      * rewrite Z.mul_0_r, Z.add_0_r, Hne by lia. apply lookup_insert_eq.
      * replace (p + 8 * Z.of_nat (S k)) with (p + 8 + 8 * Z.of_nat k) by lia. apply H0. lia.
    + intros a Ha. rewrite Hne.
      * apply lookup_insert_ne. specialize (Ha O). lia.
      * intros k Hk. specialize (Ha (S k)). lia.
Qed.

Lemma valid_page l n n' : (l ≤ 3)%nat → 0 ≤ n → n * region (S l) < top → n' / 512 = n →
  valid i l n'.
Proof using.
  intros Hl Hn Ht E. split; [done|]. pose proof (entries_bound l n Hn Ht).
  pose proof (Z.div_mod n' 512). pose proof (Z.mod_pos_bound n' 512). lia.
Qed.

(** Words outside the tables. *)
Definition foreign (a : Z) : Prop := ∀ l n, valid i l n → a ≠ slot i l n.

Lemma clear_table l n m : tables_wf m → (l ≤ 3)%nat → 0 ≤ n → n * region (S l) < top →
  ∃ m', clear_page (table_page l n) m = Some m' ∧
    (∀ l' n', valid i l' n' →
      m' !! slot i l' n' = if bool_decide (l' = l ∧ n' / 512 = n) then Some 0 else m !! slot i l' n')
    ∧ ∀ a, foreign a → m' !! a = m !! a.
Proof using HL.
  intros Hwf Hl Hn Ht. unfold clear_page.
  assert (∀ k, (k < 512)%nat →
    table_page l n + 8 * Z.of_nat k = slot i l (512 * n + Z.of_nat k)
    ∧ (512 * n + Z.of_nat k) / 512 = n) as Hs.
  { intros k Hk. split; [unfold table_page, slot; lia|].
    rewrite (Z.mul_comm 512), Z.div_add_l, Z.div_small by lia. lia. }
  destruct (memset_zero_ok (Z.to_nat (PAGE_SIZE / 8)) (table_page l n) m) as (m' & Hm' & H0 & Hne).
  { intros k Hk. destruct (Hs k Hk) as [-> Hq].
    destruct (Hwf l (512 * n + Z.of_nat k)) as (e & -> & _); [|done].
    by apply (valid_page l n). }
  exists m'. split_and!; [done| |].
  2: { intros a Ha. apply Hne. intros k Hk E. destruct (Hs k Hk) as [Hk' Hq].
       apply (Ha l (512 * n + Z.of_nat k)); [by apply (valid_page l n)|congruence]. }
  intros l' n' Hv. case_bool_decide as Hc.
  - destruct Hc as [-> Hq]. pose proof (Z.div_mod n' 512). pose proof (Z.mod_pos_bound n' 512).
    replace (slot i l n') with (table_page l n + 8 * Z.of_nat (Z.to_nat (n' mod 512)))
      by (unfold slot, table_page; lia).
    apply H0. change (Z.to_nat (PAGE_SIZE / 8)) with 512%nat. lia.
  - apply Hne. intros k Hk E. destruct (Hs k Hk) as [Hk' Hq]. rewrite Hk' in E.
    apply slot_inj in E as [-> ->]; [by apply Hc|done|]. by apply (valid_page l n).
Qed.

(** [m'] is [m] with the addresses from [lo] to [hi] that were not mapped at
    level [l] or below mapped to the address [d] further on. *)
Record added (l : nat) (lo hi d : Z) (m m' : mem) : Prop := {
  added_wf : tables_wf m';
  added_upper k n : (l < k)%nat → valid i k n → m' !! slot i k n = m !! slot i k n;
  added_frame a : foreign a → m' !! a = m !! a;
  added_tr va : 0 ≤ va < top →
    match tr l va m with
    | Some t => tr l va m' = Some t
    | None =>
        if bool_decide (lo ≤ va < hi) then
          ∃ k, (k ≤ 2)%nat ∧ tr l va m' = Some (va + d, 0x1f, k)
            ∧ lo ≤ va / region k * region k ∧ (va / region k + 1) * region k ≤ hi
        else tr l va m' = None
    end;
}.

Lemma added_none l lo d m : tables_wf m → added l lo lo d m m.
Proof using.
  intros Hwf. split; [done..|]. intros va Hva. destruct (tr l va m); [done|].
  by rewrite bool_decide_false by lia.
Qed.

Lemma added_trans l lo mid hi d m1 m2 m3 : lo ≤ mid ≤ hi →
  added l lo mid d m1 m2 → added l mid hi d m2 m3 → added l lo hi d m1 m3.
Proof using.
  intros Hle [Hw1 Hu1 Hf1 Ht1] [Hw2 Hu2 Hf2 Ht2]. split; [done| |intros; by rewrite Hf2, Hf1|].
  - intros k n Hk Hv. rewrite Hu2, Hu1; done.
  - intros va Hva. specialize (Ht1 va Hva). specialize (Ht2 va Hva).
    destruct (tr l va m1) as [t|]; [by rewrite Ht1 in Ht2|].
    destruct (bool_decide_reflect (lo ≤ va < mid)).
    + destruct Ht1 as (k & Hk & E & Hr). rewrite E in Ht2.
      rewrite bool_decide_true by lia. exists k. split_and!; [done..|lia|lia].
    + rewrite Ht1 in Ht2. case_bool_decide.
      * rewrite bool_decide_true by lia. destruct Ht2 as (k & Hk & E & Hr).
        exists k. split_and!; [done..|lia|lia].
      * rewrite bool_decide_false by lia. done.
Qed.

(** Nothing is added where a leaf is present. *)
Lemma added_present l n lo hi d e m : tables_wf m → m !! slot i l n = Some e →
  Z.testbit e 0 = true → Z.testbit e 1 = true →
  n * region l ≤ lo → hi ≤ (n + 1) * region l → added l lo hi d m m.
Proof using.
  intros Hwf He H0 H1 Hlo Hhi. split; [done..|]. intros va Hva.
  destruct (tr l va m) eqn:E; [done|]. case_bool_decide as Hr; [|done]. exfalso.
  assert (va / region l = n) as Hn.
  { symmetry. apply (Z.div_unique_pos _ _ _ (va - region l * n)); lia. }
  destruct l; cbn [tr] in E; rewrite Hn, He in E; cbn [mbind option_bind] in E;
    rewrite H0, H1 in E; done.
Qed.

Lemma wf_insert l n e m : tables_wf m → valid i l n → entry_ok l n e →
  tables_wf (<[slot i l n := e]> m).
Proof using HL.
  intros Hwf Hv Hok k n' Hv'. destruct (decide ((l, n) = (k, n'))) as [[= <- <-]|Hne].
  - exists e. by rewrite lookup_insert_eq.
  - rewrite lookup_slot_ne by done. by apply Hwf.
Qed.

Lemma in_region l n va : n * region l ≤ va < (n + 1) * region l ↔ va / region l = n.
Proof using.
  pose proof (region_pos l). split.
  - intros. symmetry. apply (Z.div_unique_pos _ _ _ (va - region l * n)); lia.
  - intros <-. pose proof (Z.div_mod va (region l)). pose proof (Z.mod_pos_bound va (region l)). lia.
Qed.

Lemma tr_entry l va m e : m !! slot i l (va / region l) = Some e →
  tr l va m = if negb (Z.testbit e 0) then None
    else if Z.testbit e 1 then Some (walk_base e * 4096 + va mod region l, e mod 2 ^ 8, l)
    else match l with O => None | S l => tr l va m end.
Proof using. intros He. destruct l; cbn [tr]; rewrite He; done. Qed.

Lemma tr_insert_ne l n e va m : valid i l n → (l ≤ 3)%nat → 0 ≤ va < top → va / region l ≠ n →
  tr l va (<[slot i l n := e]> m) = tr l va m.
Proof using HL.
  intros Hv Hl Hva Hne. apply tr_ext. intros k Hk. apply lookup_slot_ne; [done| |congruence].
  apply valid_va; lia.
Qed.

(** A leaf written over an entry that is not present. *)
Lemma added_leaf l n e d m : tables_wf m → valid i l n → (l ≤ 2)%nat →
  m !! slot i l n = Some e → Z.testbit e 0 = false →
  0 ≤ n * region l + d < 2 ^ 56 → (n * region l + d) mod region l = 0 →
  added l (n * region l) ((n + 1) * region l) d m
    (<[slot i l n := leaf_entry (n * region l + d)]> m).
Proof using HL.
  intros Hwf Hv Hl He H0 Hb Ha. pose proof (is_leaf_entry l _ Hb Ha) as Hleaf. split.
  - apply wf_insert; [done..|]. right; left; done.
  - intros k n' Hk Hv'. apply lookup_slot_ne; [done..|]. intros [= -> ->]. lia.
  - intros a Hf. apply lookup_insert_ne. intros E. by apply (Hf l n).
  - intros va Hva. destruct (decide (va / region l = n)) as [Hn|Hn].
    + rewrite (tr_entry l va m e), H0 by congruence. cbn [negb].
      rewrite (tr_entry l va _ (leaf_entry (n * region l + d)))
        by (rewrite Hn; apply lookup_insert_eq).
      destruct Hleaf as (-> & -> & Hm). cbn [negb]. pose proof Hn as Hr. apply in_region in Hr.
      rewrite bool_decide_true by done. exists l. split_and!; [done| |rewrite Hn; lia..].
      assert (4096 * ((n * region l + d) / 4096) = n * region l + d) as Hp.
      { apply Z.mod_divide in Ha; [|pose proof (region_pos l); lia].
        assert ((4096 | n * region l + d)) as Hd
          by (etrans; [apply (region_divide 0 l); lia|done]).
        apply Z.mod_divide in Hd; [|lia]. pose proof (Z.div_mod (n * region l + d) 4096). lia. }
      unfold leaf_entry. rewrite walk_base_entry by lia.
      assert ((0x1f + 2 ^ 10 * ((n * region l + d) / 4096)) mod 2 ^ 8 = 0x1f) as ->.
      { replace (2 ^ 10 * ((n * region l + d) / 4096))
          with (4 * ((n * region l + d) / 4096) * 2 ^ 8) by lia. by rewrite Z_mod_plus_full. }
      do 3 f_equal. pose proof (Z.div_mod va (region l)). pose proof (region_pos l).
      rewrite Hn in *. lia.
    + rewrite tr_insert_ne by (done || lia). destruct (tr l va m); [done|].
      rewrite bool_decide_false; [done|]. by rewrite in_region.
Qed.

(** An empty table linked to an entry that is not present. *)
Lemma added_table l n e lo d m : tables_wf m → valid i (S l) n → n * region (S l) < top →
  m !! slot i (S l) n = Some e → Z.testbit e 0 = false →
  ∃ m', clear_page (table_page l n) m = Some m' ∧ is_Some (m' !! slot i (S l) n)
    ∧ added (S l) lo lo d m (<[slot i (S l) n := table_entry (table_page l n)]> m').
Proof using HL.
  intros Hwf Hv Ht He H0. destruct Hv as [Hl Hn].
  destruct (clear_table l n m) as (m' & -> & Hm' & Hfr); [done|lia|lia|done|].
  exists m'. split; [done|]. rewrite (Hm' (S l) n), bool_decide_false, He by (done || lia).
  split; [done|].
  assert (tables_wf m') as Hwf'.
  { intros k n' Hv'. rewrite Hm' by done. case_bool_decide; [|by apply Hwf].
    exists 0. split; [done|]. by left. }
  split.
  - apply wf_insert; [done|done|]. right; right. by exists l.
  - intros k n' Hk Hv'. rewrite lookup_slot_ne; [|done|done|intros [= <- <-]; lia].
    rewrite Hm', bool_decide_false by (done || lia). done.
  - intros a Hf. rewrite lookup_insert_ne by (intros E; by apply (Hf (S l) n)). by apply Hfr.
  - intros va Hva. rewrite (bool_decide_false (lo ≤ va < lo)) by lia.
    cut (tr (S l) va (<[slot i (S l) n := table_entry (table_page l n)]> m') = tr (S l) va m).
    { intros ->. by destruct (tr (S l) va m). }
    destruct (decide (va / region (S l) = n)) as [E|E].
    + rewrite (tr_entry (S l) va m e), H0 by congruence.
      rewrite (tr_entry (S l) va _ (table_entry (table_page l n)))
        by (rewrite E; apply lookup_insert_eq).
      unfold table_entry at 1 2. rewrite !testbit_low by lia. cbn [negb Z.testbit].
      rewrite (tr_entry l va _ 0); [done|].
      rewrite lookup_slot_ne; [|done|apply valid_va; lia|intros [= ? ?]; lia].
      rewrite Hm' by (apply valid_va; lia). rewrite bool_decide_true; [done|]. split; [done|].
      rewrite <- E, region_S, (Z.mul_comm 512), Z.div_div by (pose proof (region_pos l); lia). done.
    + rewrite tr_insert_ne by done. apply tr_ext. intros k Hk.
      rewrite Hm' by (apply valid_va; lia). rewrite bool_decide_false; [done|].
      intros [-> Hq]. apply E. rewrite <- Hq.
      rewrite region_S, (Z.mul_comm 512), Z.div_div by (pose proof (region_pos l); lia). done.
Qed.

(** Work on the table an entry points to, seen from the entry. *)
Lemma added_lift l n lo hi d m m' : valid i (S l) n → tables_wf m →
  m !! slot i (S l) n = Some (table_entry (table_page l n)) →
  n * region (S l) ≤ lo → hi ≤ (n + 1) * region (S l) →
  added l lo hi d m m' → added (S l) lo hi d m m'.
Proof using.
  intros Hv Hwf He Hlo Hhi [Hw Hu Hf Ht]. split; [done|intros; apply Hu; [lia|done]|done|].
  intros va Hva. specialize (Ht va Hva).
  assert (valid i (S l) (va / region (S l))) as Hv' by (apply valid_va; [apply Hv|done]).
  destruct (Hwf _ _ Hv') as (e & He' & Hok).
  rewrite (tr_entry (S l) va m e), (tr_entry (S l) va m' e); [|by rewrite Hu by (done || lia)|done].
  assert (¬ (lo ≤ va < hi) → tr l va m' = tr l va m) as Hout.
  { intros. rewrite (bool_decide_false (lo ≤ va < hi)) in Ht by done. by destruct (tr l va m). }
  destruct (decide (va / region (S l) = n)) as [<-|Hn].
  - rewrite He in He'. injection He' as <-. unfold table_entry.
    rewrite !testbit_low by lia. done.
  - assert (¬ (lo ≤ va < hi)) as Hr by (intros ?; apply Hn, in_region; lia).
    rewrite Hout by done. rewrite (bool_decide_false _ Hr).
    by destruct (negb _), (Z.testbit e 1), (tr l va m).
Qed.

(** *** Adding mappings *)

Context (ops : memory_ops) (Hops : std_ops ops) (Hinfo : info ops = i).

Lemma construct_pte_ok p paddr prot m : is_Some (m !! p) → 0 ≤ paddr → paddr + phys_offset < 2 ^ 56 →
  construct_pte phys_offset ops p paddr prot m = Some (<[p := leaf_entry (paddr + phys_offset)]> m).
Proof using HL Hops.
  intros [e He] ??. destruct (layout_offset _ _ _ _ HL).
  unfold construct_pte, store, load. rewrite He. cbn [mbind option_bind].
  rewrite lookup_insert_eq. cbn [mbind option_bind].
  rewrite std_flush, insert_insert_eq, leaf_bits by (done || lia). done.
Qed.

Lemma construct_pgentry_ok p page prot m : is_Some (m !! p) →
  0 ≤ page → page + phys_offset < 2 ^ 56 →
  construct_pgentry phys_offset ops p page prot m = Some (<[p := table_entry page]> m).
Proof using HL Hops.
  intros [e He] ??. destruct (layout_offset _ _ _ _ HL).
  unfold construct_pgentry, store. rewrite He. cbn [mbind option_bind].
  rewrite std_flush, pte_of_memaddr_bits by (done || lia). done.
Qed.

(** What a function that fills the table of level [l] below an entry does. *)
Definition adds (l : nat) (f : Z → Z → Z → Z → Z → mem → option mem) : Prop :=
  ∀ paddr vaddr vaddr_end prot m,
    tables_wf m → vaddr mod 4096 = 0 → vaddr_end mod 4096 = 0 → 0 ≤ vaddr < vaddr_end →
    vaddr_end ≤ top → 0 ≤ paddr → paddr mod 4096 = 0 →
    paddr + (vaddr_end - vaddr) + phys_offset ≤ 2 ^ 56 →
    let n := vaddr / region (S l) in
    m !! slot i (S l) n = Some (table_entry (table_page l n)) →
    ∃ m', f (slot i (S l) n) paddr vaddr vaddr_end prot m = Some m'
      ∧ added l vaddr (vaddr_end `min` ((n + 1) * region (S l))) (paddr - vaddr + phys_offset) m m'.

(** The loops of add_vpn1 and add_vpn2 are the same up to the level. *)
Section add_loop.
Variables (get : pgtable_pages_info → Z → mem → option (mem * Z)) (large : bool) (size mask : Z).
Variable child : Z → Z → Z → Z → Z → mem → option mem.
Fixpoint add_loop (n : nat) (page index paddr vaddr vaddr_end prot : Z) (m : mem) : option mem :=
  match n with
  | O => Some m
  | S n =>
      let vpn := u64 (page + 8 * index) in
      let vaddr_next := u64 ((vaddr &&& mask) + size) in
      let paddr_next := u64 (paddr + u64 (vaddr_next - vaddr)) in
      e ← load vpn m;
      if nonzero (vpn_large e) then
        if vaddr_end <=? vaddr_next then Some m
        else add_loop n page (index + 1) paddr_next vaddr_next vaddr_end prot m
      else if (pgentry_present ops e =? 0)
              && (large && mem_aligned_check paddr size
                  && mem_aligned_check vaddr size && (vaddr_next <=? vaddr_end)) then
        let prot := tweak_exe_right ops prot in
        m ← construct_pte phys_offset ops vpn paddr prot m;
        if vaddr_next <? vaddr_end then
          add_loop n page (index + 1) paddr_next vaddr_next vaddr_end prot m
        else Some m
      else
        m ← (if pgentry_present ops e =? 0 then
               '(m, page) ← get (info ops) vaddr m;
               construct_pgentry phys_offset ops vpn page (get_default_access_right ops) m
             else Some m);
        m ← child vpn paddr vaddr vaddr_end prot m;
        if vaddr_end <=? vaddr_next then Some m
        else add_loop n page (index + 1) paddr_next vaddr_next vaddr_end prot m
  end.

End add_loop.

Lemma add_vpn1_loop_eq : add_vpn1_loop phys_offset kstart kend ops
  = add_loop (get_pt_page ops) (large_page_support_op ops VPN1) VPN1_SIZE VPN1_MASK
      (add_pte phys_offset kstart kend ops).
Proof using. reflexivity. Qed.
Lemma add_vpn2_loop_eq : add_vpn2_loop phys_offset kstart kend ops
  = add_loop (get_pd_page ops) (large_page_support_op ops VPN2) VPN2_SIZE VPN2_MASK
      (add_vpn1 phys_offset kstart kend ops).
Proof using. reflexivity. Qed.

Lemma slot_ptr l va : (l ≤ 3)%nat → 0 ≤ va < top →
  u64 (table_page l (va / region (S l)) + 8 * (va / region l mod 512)) = slot i l (va / region l).
Proof using HL.
  intros. rewrite table_page_slot. apply u64_id.
  destruct (slot_bounds l (va / region l)) as (_ & _ & ?); [by apply valid_va|]. unfold word. lia.
Qed.

(** Next entry: [(vaddr & MASK) + SIZE]. *)
Lemma next_vaddr l va : (l ≤ 3)%nat → 0 ≤ va < top →
  u64 ((va &&& bnot 64 (region l - 1)) + region l) = (va / region l + 1) * region l.
Proof using HL.
  intros Hl Hva. pose proof (layout_top _ _ _ _ HL). pose proof (region_pos l).
  assert (region l ≤ 2 ^ 39) by (apply Z.pow_le_mono_r; lia).
  rewrite land_region_mask by (done || (unfold word; lia)).
  pose proof (Z.mul_div_le va (region l)). pose proof (Z.div_pos va (region l)).
  rewrite u64_id; [lia|]. unfold word. nia.
Qed.

Lemma region_multiple l x : (x * region l) mod 4096 = 0.
Proof using.
  apply Z.mod_divide; [lia|]. apply Z.divide_mul_r. apply (region_divide 0 l). lia.
Qed.

(** The page allocators pick the table page of the address. *)
Definition gets (l : nat) (get : pgtable_pages_info → Z → mem → option (mem * Z)) : Prop :=
  ∀ va m, 0 ≤ va < top → let page := table_page l (va / region (S l)) in
    get i va m = (m ← clear_page page m; Some (m, page)).

Lemma gets_page l va : (l ≤ 2)%nat → 0 ≤ va < top →
  u64 (table_base i l
       + PAGE_SIZE * Z.shiftr (va &&& bnot 64 (region (S l) - 1)) (12 + 9 * Z.of_nat (S l)))
  = table_page l (va / region (S l)).
Proof using HL.
  intros Hl Hva. pose proof (layout_top _ _ _ _ HL). pose proof (region_pos (S l)).
  rewrite land_region_mask, shiftr_region, Z.div_mul by (lia || (unfold word; lia)).
  destruct (table_page_bounds l (va / region (S l))) as (? & ? & _);
    [lia|apply Z.div_pos; lia|pose proof (Z.mul_div_le va (region (S l))); lia|].
  pose proof (layout_kend _ _ _ _ HL). pose proof (layout_offset _ _ _ _ HL).
  apply u64_id. change PAGE_SIZE with 4096. fold (table_page l (va / region (S l))).
  unfold word. lia.
Qed.

Lemma gets_pt : gets 0 (get_pt_page ops).
Proof using HL Hops.
  intros va m Hva page. rewrite (std_pt _ Hops). unfold s2pt_get_vpn0_page.
  rewrite (gets_page 0) by (done || lia). done.
Qed.
Lemma gets_pd : gets 1 (get_pd_page ops).
Proof using HL Hops.
  intros va m Hva page. rewrite (std_pd _ Hops). unfold s2pt_get_vpn1_page.
  rewrite (gets_page 1) by (done || lia). done.
Qed.
Lemma gets_pdpt : gets 2 (get_pdpt_page ops).
Proof using HL Hops.
  intros va m Hva page. rewrite (std_pdpt _ Hops). unfold s2pt_get_vpn2_page.
  rewrite (gets_page 2) by (done || lia). done.
Qed.

(** Linking a table where none is present, as the loops do before they descend. *)
Lemma link_table l get vaddr e lo d m : (l ≤ 2)%nat → gets l get → tables_wf m → 0 ≤ vaddr < top →
  let n := vaddr / region (S l) in
  m !! slot i (S l) n = Some e → nonzero (vpn_large e) = false →
  ∃ m', (if pgentry_present ops e =? 0 then
           '(m, page) ← get (info ops) vaddr m;
           construct_pgentry phys_offset ops (slot i (S l) n) page (get_default_access_right ops) m
         else Some m) = Some m'
    ∧ added (S l) lo lo d m m' ∧ m' !! slot i (S l) n = Some (table_entry (table_page l n)).
Proof using HL Hops Hinfo.
  intros Hl Hget Hwf Hva n He Hlarge. rewrite (std_present _ Hops), absent_testbit.
  assert (valid i (S l) n) as Hv by (apply valid_va; lia).
  pose proof (Z.mul_div_le vaddr (region (S l)) (region_pos _)) as Hle.
  assert (0 ≤ n) by apply Hv.
  destruct (Hwf _ _ Hv) as (e' & He' & Hok). rewrite He in He'. injection He' as <-.
  destruct Hok as [H0|[(_ & H0 & H1 & _)|(k & [= <-] & E)]].
  - rewrite H0, Hinfo. cbn [negb]. rewrite Hget by done. fold n. cbv zeta.
    destruct (added_table l n e lo d m) as (m1 & Hc & [x Hx] & Hadd); [done|done|lia|done..|].
    rewrite Hc. cbn [mbind option_bind].
    destruct (table_page_bounds l n) as (? & ? & ?); [lia..|].
    pose proof (layout_kend _ _ _ _ HL).
    rewrite construct_pgentry_ok by (rewrite ?Hx; (done || lia)). eexists. split; [done|].
    split; [done|apply lookup_insert_eq].
  - rewrite (vpn_large_leaf e) in Hlarge by done. done.
  - exists m. rewrite E. unfold table_entry. rewrite testbit_low by lia. split; [done|].
    split; [by apply added_none|]. by rewrite He, E.
Qed.

(** From one entry of a table to the next. *)
Lemma next_entry l va : let n := va / region l in let q := va / region (S l) in
  va < (n + 1) * region l ≤ (q + 1) * region (S l)
  ∧ (n mod 512 = 511 → (n + 1) * region l = (q + 1) * region (S l))
  ∧ (n mod 512 < 511 → (n + 1) * region l / region (S l) = q
     ∧ (n + 1) * region l / region l mod 512 = n mod 512 + 1).
Proof using.
  intros n q. pose proof (region_pos l). pose proof (va_split l va) as Hs. fold n q in Hs.
  pose proof (Z.mod_pos_bound n 512 ltac:(lia)). rewrite region_S.
  destruct (proj2 (in_region l n va) eq_refl) as [_ ?].
  split_and!; [done|nia|intros; nia|]. intros Hlt. rewrite Z.div_mul by lia.
  split; [|replace (n + 1) with (n mod 512 + 1 + q * 512) by lia; rewrite Z_mod_plus_full;
           apply Z.mod_small; lia].
  symmetry. apply (Z.div_unique_pos _ _ _ ((n mod 512 + 1) * region l));
    generalize dependent (n mod 512); intros x; intros; [nia|]. replace n with (512 * q + x) by done. ring.
Qed.

Lemma add_pte_loop_ok prot vaddr_end : vaddr_end mod 4096 = 0 → vaddr_end ≤ top →
  ∀ k paddr vaddr m, tables_wf m → vaddr mod 4096 = 0 → 0 ≤ vaddr < vaddr_end →
    0 ≤ paddr → paddr mod 4096 = 0 → paddr + (vaddr_end - vaddr) + phys_offset ≤ 2 ^ 56 →
    let index := vaddr / region 0 mod 512 in let q := vaddr / region 1 in
    Z.of_nat k = 512 - index →
    ∃ m', add_pte_loop phys_offset ops k (table_page 0 q) index paddr vaddr vaddr_end prot m = Some m'
      ∧ added 0 vaddr (vaddr_end `min` ((q + 1) * region 1)) (paddr - vaddr + phys_offset) m m'.
Proof using HL Hops.
  intros Hea Het k. induction k as [|k IH]; intros paddr vaddr m Hwf Ha Hlt Hp Hpa Hpe index q Hk.
  { pose proof (Z.mod_pos_bound (vaddr / region 0) 512). lia. }
  destruct (next_entry 0 vaddr) as (Hn & Hlast & Hnext). fold index q in Hn, Hlast, Hnext.
  set (n := vaddr / region 0) in *. set (d := paddr - vaddr + phys_offset).
  assert (vaddr = n * region 0) as Hv
    by (unfold n; rewrite region_0 in *; pose proof (Z.div_mod vaddr 4096); lia).
  assert (valid i 0 n) as Hval by (apply valid_va; lia).
  pose proof (layout_top _ _ _ _ HL). destruct (layout_offset _ _ _ _ HL) as [Ho _].
  destruct (Hwf 0%nat n Hval) as (e & He & Hok).
  assert (∃ m1, (if nonzero (pgentry_present ops e) then Some m
                 else construct_pte phys_offset ops (slot i 0 n) paddr prot m) = Some m1
    ∧ added 0 vaddr ((n + 1) * region 0) d m m1) as (m1 & Hm1 & Hadd).
  { rewrite (std_present _ Hops), present_testbit. destruct (Z.testbit e 0) eqn:H0.
    - exists m. split; [done|]. destruct Hok as [?|[(_ & ? & H1 & _)|(? & ? & _)]]; [congruence| |done].
      apply (added_present 0 n vaddr _ d e); (done || lia).
    - rewrite construct_pte_ok by (rewrite ?He; (done || lia)). eexists. split; [done|].
      replace (paddr + phys_offset) with (n * region 0 + d) by (unfold d; lia). rewrite Hv at 1.
      apply (added_leaf 0 n e d); [done|done|lia|done|done|unfold d; lia|].
      replace (n * region 0 + d) with (paddr + phys_offset) by (unfold d; lia).
      rewrite Z.add_mod, (offset_aligned 0), region_0, Hpa by lia. done. }
  cbn [add_pte_loop]. pose proof (slot_ptr 0 vaddr) as Hptr. fold n q in Hptr.
  unfold index. rewrite Hptr by lia. unfold load. rewrite He. cbn [mbind option_bind].
  rewrite Hm1. cbn [mbind option_bind]. change PTE_SIZE with 4096. rewrite region_0 in *.
  rewrite (u64_id (vaddr + 4096)), (u64_id (paddr + 4096)) by (unfold word; lia).
  replace (vaddr + 4096) with ((n + 1) * 4096) by lia.
  destruct (vaddr_end <=? (n + 1) * 4096) eqn:E; zreflect.
  - exists m1. split; [done|]. replace (vaddr_end `min` _) with ((n + 1) * 4096); [done|].
    pose proof (Z.div_mod vaddr_end 4096). lia.
  - destruct (decide (index = 511)) as [Hl|Hl].
    + assert (k = O) as -> by lia. exists m1. split; [done|].
      rewrite <- Hlast by done. rewrite Z.min_r by lia. done.
    + pose proof (Z.mod_pos_bound n 512 ltac:(lia)) as Hb. fold index in Hb.
      destruct Hnext as [Hq Hi]; [lia|].
      destruct (IH (paddr + 4096) ((n + 1) * 4096) m1) as (m' & Hm' & Hadd');
        [apply Hadd|by rewrite Z.mod_mul|lia|lia|rewrite Z.add_mod, Hpa by lia; done|lia| |].
      { rewrite Hi. lia. }
      rewrite Hi, Hq in Hm'. exists m'. split; [done|].
      eapply added_trans; [|done|]; [lia|]. rewrite Hq in Hadd'.
      replace (paddr + 4096 - (n + 1) * 4096 + phys_offset) with d in Hadd' by (unfold d; lia). done.
Qed.

Lemma add_pte_adds : adds 0 (add_pte phys_offset kstart kend ops).
Proof using HL Hops.
  intros paddr vaddr vaddr_end prot m Hwf Ha Hea Hlt Het Hp Hpa Hpe n Hn.
  unfold add_pte. rewrite (vpn_to_vaddr_table _ 0 n);
    [|lia|apply Z.div_pos; [lia|done]|pose proof (Z.mul_div_le vaddr (region 1) (region_pos _)); lia|done].
  cbn [mbind option_bind]. rewrite pte_index_mod.
  pose proof (Z.mod_pos_bound (vaddr / region 0) 512 ltac:(lia)).
  apply add_pte_loop_ok; try done; try lia. change PTRS_PER_PTE with 512. lia.
Qed.

Lemma add_loop_ok l get child vaddr_end : (l ≤ 1)%nat → gets l get → adds l child →
  vaddr_end mod 4096 = 0 → vaddr_end ≤ top →
  ∀ k paddr vaddr prot m, tables_wf m → vaddr mod 4096 = 0 → 0 ≤ vaddr < vaddr_end →
    0 ≤ paddr → paddr mod 4096 = 0 → paddr + (vaddr_end - vaddr) + phys_offset ≤ 2 ^ 56 →
    let index := vaddr / region (S l) mod 512 in let q := vaddr / region (S (S l)) in
    Z.of_nat k = 512 - index →
    ∃ m', add_loop get true (region (S l)) (bnot 64 (region (S l) - 1)) child
            k (table_page (S l) q) index paddr vaddr vaddr_end prot m = Some m'
      ∧ added (S l) vaddr (vaddr_end `min` ((q + 1) * region (S (S l))))
          (paddr - vaddr + phys_offset) m m'.
Proof using HL Hops Hinfo.
  intros Hl Hget Hchild Hea Het k.
  induction k as [|k IH]; intros paddr vaddr prot m Hwf Ha Hlt Hp Hpa Hpe index q Hk.
  { pose proof (Z.mod_pos_bound (vaddr / region (S l)) 512). lia. }
  destruct (next_entry (S l) vaddr) as (Hn & Hlast & Hnext). fold index q in Hn, Hlast, Hnext.
  set (n := vaddr / region (S l)) in *. set (d := paddr - vaddr + phys_offset) in *.
  set (next := (n + 1) * region (S l)) in *.
  pose proof (Z.mul_div_le vaddr (region (S l)) (region_pos _)) as Hle. fold n in Hle.
  assert (valid i (S l) n) as Hval by (apply valid_va; lia).
  pose proof (layout_top _ _ _ _ HL). destruct (layout_offset _ _ _ _ HL) as [Ho _].
  assert (region (S l) ≤ 2 ^ 39) by (apply Z.pow_le_mono_r; lia).
  assert (∀ prot m1, added (S l) vaddr (vaddr_end `min` next) d m m1 →
    ∃ m', (if vaddr_end <=? next then Some m1
           else add_loop get true (region (S l)) (bnot 64 (region (S l) - 1)) child k
                  (table_page (S l) q) (index + 1) (paddr + (next - vaddr)) next vaddr_end prot m1)
          = Some m' ∧ added (S l) vaddr (vaddr_end `min` ((q + 1) * region (S (S l)))) d m m') as Hcont.
  { intros prot' m1 Hadd. destruct (vaddr_end <=? next) eqn:E; zreflect.
    - exists m1. split; [done|]. rewrite Z.min_l in * by lia. done.
    - rewrite (Z.min_r _ next) in Hadd by lia. destruct (decide (index = 511)) as [Hi|Hi].
      + assert (k = O) as -> by lia. exists m1. split; [done|]. rewrite <- Hlast by done.
        by rewrite Z.min_r by lia.
      + pose proof (Z.mod_pos_bound n 512 ltac:(lia)) as Hb. fold index in Hb.
        destruct Hnext as [Hq Hi']; [lia|].
        assert (next mod 4096 = 0) as Hna by apply region_multiple.
        destruct (IH (paddr + (next - vaddr)) next prot' m1) as (m' & Hm' & Hadd');
          [apply Hadd|done|lia|lia| |lia|rewrite Hi'; lia|].
        { rewrite Z.add_mod, Zminus_mod, Ha, Hpa by lia. by rewrite Hna. }
        rewrite Hi', Hq in Hm'. exists m'. split; [done|].
        eapply added_trans; [|done|]; [lia|]. rewrite Hq in Hadd'.
        replace (paddr + (next - vaddr) - next + phys_offset) with d in Hadd' by (unfold d; lia). done. }
  assert (next < 2 ^ 50) by (unfold next in *; lia).
  cbn [add_loop]. pose proof (slot_ptr (S l) vaddr) as Hptr. fold n q in Hptr.
  unfold index in *. rewrite Hptr by lia. rewrite next_vaddr by lia. fold n next.
  rewrite (u64_id (next - vaddr)), (u64_id (paddr + _)) by (unfold word; lia).
  destruct (Hwf (S l) n Hval) as (e & He & Hok). unfold load. rewrite He. cbn [mbind option_bind].
  destruct (nonzero (vpn_large e)) eqn:Elarge.
  - apply Hcont. destruct Hok as [?|[(_ & ? & ? & _)|(? & ? & ->)]].
    + rewrite vpn_large_absent in Elarge; done.
    + apply (added_present (S l) n _ _ d e); try done; lia.
    + unfold table_entry in Elarge. by rewrite vpn_large_table in Elarge.
  - destruct (_ && _) eqn:Efit.
    + apply andb_true_iff in Efit as [Eabs Efit].
      rewrite (std_present _ Hops), absent_testbit in Eabs. apply negb_true_iff in Eabs.
      rewrite !aligned_mod in Efit. cbn [andb] in Efit. apply andb_true_iff in Efit as [Efit Efull].
      apply andb_true_iff in Efit as [Epa Eva]. zreflect.
      rewrite construct_pte_ok by (rewrite ?He; (done || lia)). cbn [mbind option_bind].
      rewrite Z.ltb_antisym.
      destruct (Hcont (tweak_exe_right ops prot) (<[slot i (S l) n := leaf_entry (paddr + phys_offset)]> m))
        as (m' & Hm' & Hadd); [|exists m'; split; [|done]; by destruct (vaddr_end <=? next)].
      assert (n * region (S l) = vaddr) as Hv
        by (pose proof (Z.div_mod vaddr (region (S l))); unfold n; lia).
      pose proof (added_leaf (S l) n e d m) as Hadd. rewrite Hv in Hadd. fold next in Hadd.
      replace (vaddr + d) with (paddr + phys_offset) in Hadd by (unfold d; lia).
      rewrite Z.min_r by lia. apply Hadd; try done; try lia.
      rewrite Z.add_mod by (pose proof (region_pos (S l)); lia).
      rewrite offset_aligned, Epa by lia. done.
    + destruct (link_table l get vaddr e vaddr d m) as (m1 & Hm1 & Hadd1 & Hs1); [lia|done|done|lia|done|done|].
      fold n in Hm1, Hs1. rewrite Hm1. cbn [mbind option_bind].
      destruct (Hchild paddr vaddr vaddr_end prot m1) as (m2 & Hm2 & Hadd2);
        [apply Hadd1|done|done|lia|done|done|done|lia|done|].
      fold n next in Hm2, Hadd2. rewrite Hm2. cbn [mbind option_bind]. apply Hcont.
      apply (added_trans _ _ vaddr _ _ _ m1); [lia|done|].
      apply (added_lift l n); [done|apply Hadd1|done|lia|lia|done].
Qed.

Lemma add_vpn1_adds : adds 1 (add_vpn1 phys_offset kstart kend ops).
Proof using HL Hops Hinfo.
  intros paddr vaddr vaddr_end prot m Hwf Ha Hea Hlt Het Hp Hpa Hpe n Hn.
  unfold add_vpn1. rewrite (vpn_to_vaddr_table _ 1 n);
    [|lia|apply Z.div_pos; [lia|done]|pose proof (Z.mul_div_le vaddr (region 2) (region_pos _)); lia|done].
  cbn [mbind option_bind]. rewrite vpn1_index_mod.
  pose proof (Z.mod_pos_bound (vaddr / region 1) 512 ltac:(lia)).
  rewrite add_vpn1_loop_eq, (std_large _ Hops).
  apply (add_loop_ok 0); try done; try lia; [apply gets_pt|apply add_pte_adds|].
  change PTRS_PER_VPN1 with 512. lia.
Qed.

Lemma add_vpn2_adds : adds 2 (add_vpn2 phys_offset kstart kend ops).
Proof using HL Hops Hinfo.
  intros paddr vaddr vaddr_end prot m Hwf Ha Hea Hlt Het Hp Hpa Hpe n Hn.
  unfold add_vpn2. rewrite (vpn_to_vaddr_table _ 2 n);
    [|lia|apply Z.div_pos; [lia|done]|pose proof (Z.mul_div_le vaddr (region 3) (region_pos _)); lia|done].
  cbn [mbind option_bind]. rewrite vpn2_index_mod.
  pose proof (Z.mod_pos_bound (vaddr / region 2) 512 ltac:(lia)).
  rewrite add_vpn2_loop_eq, (std_large _ Hops).
  apply (add_loop_ok 1); try done; try lia; [apply gets_pd|apply add_vpn1_adds|].
  change PTRS_PER_VPN2 with 512. lia.
Qed.

Lemma vpn3_slot vaddr : 0 ≤ vaddr < top → vpn3_offset (vpn3_base i) vaddr = slot i 3 (vaddr / region 3).
Proof using HL.
  intros Hva. pose proof (layout_top _ _ _ _ HL). unfold vpn3_offset. rewrite vpn3_index_mod.
  pose proof (slot_ptr 3 vaddr ltac:(lia) Hva) as <-. unfold table_page.
  rewrite (Z.div_small vaddr (region 4)) by (change (region 4) with (2 ^ 48); lia).
  by rewrite Z.mul_0_r, Z.add_0_r.
Qed.

(** Rounds the root loops need from [vaddr] on. *)
Definition rounds (vaddr vaddr_end : Z) : Z :=
  if vaddr <? vaddr_end then vaddr_end / region 3 - vaddr / region 3 + 2 else 1.

Lemma rounds_next vaddr vaddr_end : 0 ≤ vaddr < vaddr_end →
  rounds ((vaddr / region 3 + 1) * region 3) vaddr_end + 1 ≤ rounds vaddr vaddr_end.
Proof using.
  intros. unfold rounds. pose proof (region_pos 3). zcmp.
  pose proof (Z.div_le_mono vaddr vaddr_end (region 3)).
  case_if; zreflect; [|lia]. rewrite Z.div_mul by lia. lia.
Qed.

Lemma mmu_add_loop_ok vaddr_end prot : vaddr_end mod 4096 = 0 → vaddr_end ≤ top →
  ∀ fuel paddr vaddr m, tables_wf m → vaddr mod 4096 = 0 → 0 ≤ vaddr →
    0 ≤ paddr < 2 ^ 60 → paddr mod 4096 = 0 →
    paddr + (vaddr_end - vaddr) + phys_offset ≤ 2 ^ 56 → rounds vaddr vaddr_end ≤ Z.of_nat fuel →
    ∃ m', mmu_add_loop phys_offset kstart kend ops fuel (vpn3_base i) paddr vaddr vaddr_end prot m = Some m'
      ∧ if vaddr <? vaddr_end then added 3 vaddr vaddr_end (paddr - vaddr + phys_offset) m m' else m' = m.
Proof using HL Hops Hinfo.
  intros Hea Het fuel.
  induction fuel as [|fuel IH]; intros paddr vaddr m Hwf Ha Hv Hp Hpa Hpe Hf.
  { pose proof (Z.div_le_mono vaddr vaddr_end (region 3)). pose proof (region_pos 3).
    unfold rounds in Hf. case_if; zreflect; lia. }
  cbn [mmu_add_loop]. destruct (vaddr <? vaddr_end) eqn:Elt; [|by exists m]. zreflect.
  pose proof (rounds_next vaddr vaddr_end ltac:(lia)) as Hr.
  pose proof (layout_top _ _ _ _ HL). destruct (layout_offset _ _ _ _ HL) as [Ho _].
  rewrite vpn3_slot by lia. change VPN3_MASK with (bnot 64 (region 3 - 1)).
  change VPN3_SIZE with (region 3). rewrite next_vaddr by lia.
  destruct (proj2 (in_region 3 (vaddr / region 3) vaddr) eq_refl) as [Hlo Hnext].
  set (n := vaddr / region 3) in *. set (next := (n + 1) * region 3) in *.
  assert (next ≤ vaddr + 2 ^ 39) by (unfold next; change (region 3) with (2 ^ 39) in *; lia).
  rewrite (u64_id (next - vaddr)), (u64_id (paddr + _)) by (unfold word; lia).
  assert (valid i 3 n) as Hval by (apply valid_va; lia).
  destruct (Hwf 3%nat n Hval) as (e & He & Hok). unfold load. rewrite He. cbn [mbind option_bind].
  destruct (link_table 2 (get_pdpt_page ops) vaddr e vaddr (paddr - vaddr + phys_offset) m)
    as (m1 & Hm1 & Hadd1 & Hs1); [lia|apply gets_pdpt|done|lia|done| |].
  { destruct Hok as [?|[[? _]|(? & ? & ->)]]; [by apply vpn_large_absent|lia|apply vpn_large_table]. }
  fold n in Hm1, Hs1. rewrite Hm1. cbn [mbind option_bind].
  destruct (add_vpn2_adds paddr vaddr vaddr_end prot m1) as (m2 & Hm2 & Hadd2);
    [apply Hadd1|done|done|lia|done|lia|done|lia|done|].
  fold n next in Hm2, Hadd2. rewrite Hm2. cbn [mbind option_bind].
  assert (added 3 vaddr (vaddr_end `min` next) (paddr - vaddr + phys_offset) m m2) as Hadd.
  { apply (added_trans _ _ vaddr _ _ _ m1); [lia|done|].
    apply (added_lift 2 n); [done|apply Hadd1|done|lia|lia|done]. }
  assert (next mod 4096 = 0) as Hna by apply region_multiple.
  destruct (IH (paddr + (next - vaddr)) next m2) as (m' & Hm' & Hadd');
    [apply Hadd|done|lia|lia| |lia|fold n next in Hr; lia|].
  { rewrite Z.add_mod, Zminus_mod, Ha, Hna, Hpa by lia. done. }
  exists m'. split; [done|]. case_if; zreflect.
  - rewrite Z.min_r in Hadd by lia. eapply added_trans; [|done|]; [lia|].
    replace (paddr - vaddr + phys_offset) with (paddr + (next - vaddr) - next + phys_offset) by lia. done.
  - subst m'. rewrite Z.min_l in Hadd by lia. done.
Qed.

Lemma round_up_aligned x : round_page_up x mod 4096 = 0 ∧ 0 ≤ round_page_up x.
Proof using.
  unfold round_page_up. pose proof (word_u64 (u64 (x + PAGE_SIZE) - 1)) as Hw.
  change PAGE_MASK with (bnot 64 (region 0 - 1)). rewrite land_region_mask by (done || lia).
  rewrite region_0, Z.mod_mul by lia. split; [done|].
  pose proof (Z.div_pos (u64 (u64 (x + PAGE_SIZE) - 1)) 4096). unfold word in Hw. lia.
Qed.
Lemma round_down_aligned x : word 64 x → round_page_down x mod 4096 = 0 ∧ 0 ≤ round_page_down x ≤ x.
Proof using.
  intros Hw. unfold round_page_down.
  change PAGE_MASK with (bnot 64 (region 0 - 1)). rewrite land_region_mask by (done || lia).
  rewrite region_0, Z.mod_mul by lia. split; [done|]. unfold word in Hw.
  pose proof (Z.div_pos x 4096). pose proof (Z.mul_div_le x 4096). lia.
Qed.

Lemma mmu_add_ok paddr_base vaddr_base size prot m : tables_wf m → word 64 size →
  let vaddr := round_page_up vaddr_base in let paddr := round_page_up paddr_base in
  let len := round_page_down size in
  vaddr + len ≤ top → paddr + len + phys_offset ≤ 2 ^ 56 →
  ∃ m', mmu_add phys_offset kstart kend ops (vpn3_base i) paddr_base vaddr_base size prot m = Some m'
    ∧ added 3 vaddr (vaddr + len) (paddr - vaddr + phys_offset) m m'.
Proof using HL Hops Hinfo.
  intros Hwf Hs vaddr paddr len Ht Hpe.
  destruct (round_up_aligned vaddr_base) as [Hva Hv]. destruct (round_up_aligned paddr_base) as [Hpa Hp].
  destruct (round_down_aligned size Hs) as [Hla Hl]. fold vaddr paddr len in Hva, Hv, Hpa, Hp, Hla, Hl.
  pose proof (layout_top _ _ _ _ HL). destruct (layout_offset _ _ _ _ HL) as [Ho _].
  unfold mmu_add. fold vaddr paddr len. rewrite u64_id by (unfold word; lia).
  assert ((vaddr + len) mod 4096 = 0) as Hea by (rewrite Z.add_mod, Hva, Hla by lia; done).
  destruct (mmu_add_loop_ok (vaddr + len) prot Hea Ht (root_fuel (vaddr + len)) paddr vaddr m)
    as (m' & -> & Hadd); [done|done|lia|lia|done|lia| |].
  { unfold rounds, root_fuel. rewrite (shiftr_region _ 3).
    pose proof (Z.div_pos (vaddr + len) (region 3)). pose proof (Z.div_pos vaddr (region 3)).
    pose proof (region_pos 3). case_if; lia. }
  exists m'. split; [done|]. case_if; zreflect; [done|]. subst m'.
  replace (vaddr + len) with vaddr by lia. by apply added_none.
Qed.

(** *** Modifying and deleting mappings *)

Context (prot_set prot_clr type : Z).

(** What happens to a leaf and to its flag bits. *)
Definition update_leaf (e : Z) : Z :=
  if type =? MR_MODIFY then (e &&& bnot 64 prot_clr) ||| prot_set else 0.
Definition update_flags (f : Z) : option Z :=
  if type =? MR_MODIFY then Some ((f &&& bnot 64 prot_clr) ||| prot_set) else None.
(** The request keeps leaves leaves: it deletes, or changes flags other than
    validity and readability. *)
Definition request_ok : Prop :=
  type = MR_DEL ∨ (type = MR_MODIFY ∧ word 8 prot_set ∧ word 8 prot_clr
    ∧ Z.testbit prot_clr 0 = false ∧ Z.testbit prot_clr 1 = false).
Context (Hreq : request_ok).

Definition remap (t : option (Z * Z * nat)) : option (Z * Z * nat) :=
  '(pa, f, k) ← t; f ← update_flags f; Some (pa, f, k).

Lemma update_leaf_ok l e : is_leaf l e →
  match update_flags (e mod 2 ^ 8) with
  | None => Z.testbit (update_leaf e) 0 = false
  | Some f => is_leaf l (update_leaf e) ∧ update_leaf e mod 2 ^ 8 = f
      ∧ walk_base (update_leaf e) = walk_base e
  end.
Proof using Hreq.
  intros (H0 & H1 & Ha & Hw). unfold update_flags, update_leaf.
  destruct Hreq as [->|(-> & Hs & Hc & Hc0 & Hc1)]; [done|]. rewrite Z.eqb_refl.
  assert (∀ k, 0 ≤ k → Z.testbit ((e &&& bnot 64 prot_clr) ||| prot_set) k
    = Z.testbit e k && negb (Z.testbit prot_clr k) || Z.testbit prot_set k) as Hbit.
  { intros k Hk. rewrite Z.lor_spec, Z.land_spec, bnot_testbit by lia.
    destruct (k <? 64) eqn:E; zreflect; [done|].
    by rewrite (word_testbit_high 64 e) by (done || lia). }
  assert (walk_base ((e &&& bnot 64 prot_clr) ||| prot_set) = walk_base e) as Hb.
  { unfold walk_base. f_equal. apply Z.bits_inj_iff'. intros k Hk.
    rewrite !Z.shiftr_spec, Hbit by lia.
    rewrite (word_testbit_high 8 prot_clr), (word_testbit_high 8 prot_set) by (done || lia).
    by rewrite andb_true_r, orb_false_r. }
  split; [|split; [|exact Hb]].
  - split_and!; [..|by rewrite Hb|]; [rewrite Hbit by lia; rewrite ?H0, ?H1, ?Hc0, ?Hc1; done..|].
    apply word_lor; [lia|by apply word_land_l|]. by apply (word_mono 8 64).
  - apply Z.bits_inj_iff'. intros k Hk. rewrite Z.testbit_mod_pow2, Hbit by lia.
    rewrite Z.lor_spec, Z.land_spec, Z.testbit_mod_pow2, bnot_testbit by lia.
    destruct (k <? 8) eqn:E; zreflect; zcmp; [done|].
    by rewrite (word_testbit_high 8 prot_set) by (done || lia).
Qed.

Record remapped (l : nat) (lo hi : Z) (m m' : mem) : Prop := {
  remapped_wf : tables_wf m';
  remapped_upper k n : (l < k)%nat → valid i k n → m' !! slot i k n = m !! slot i k n;
  remapped_frame a : foreign a → m' !! a = m !! a;
  remapped_tr va : 0 ≤ va < top →
    tr l va m' = if bool_decide (lo ≤ va < hi) then remap (tr l va m) else tr l va m;
}.

Lemma remapped_trans l lo mid hi m1 m2 m3 : lo ≤ mid ≤ hi →
  remapped l lo mid m1 m2 → remapped l mid hi m2 m3 → remapped l lo hi m1 m3.
Proof using.
  intros Hle [Hw1 Hu1 Hf1 Ht1] [Hw2 Hu2 Hf2 Ht2]. split; [done| |intros; by rewrite Hf2, Hf1|].
  - intros k n Hk Hv. rewrite Hu2, Hu1; done.
  - intros va Hva. rewrite Ht2, Ht1 by done.
    destruct (bool_decide_reflect (mid ≤ va < hi)), (bool_decide_reflect (lo ≤ va < mid)),
      (bool_decide_reflect (lo ≤ va < hi)); done || lia.
Qed.

Lemma remapped_absent l n lo hi e m : tables_wf m → m !! slot i l n = Some e →
  Z.testbit e 0 = false → n * region l ≤ lo → hi ≤ (n + 1) * region l → remapped l lo hi m m.
Proof using.
  intros Hwf He H0 Hlo Hhi. split; [done..|]. intros va Hva. case_bool_decide as Hr; [|done].
  assert (va / region l = n) as Hn by (apply in_region; lia).
  rewrite (tr_entry l va m e), H0 by congruence. done.
Qed.

Lemma remapped_leaf l n e m : tables_wf m → valid i l n → (l ≤ 2)%nat →
  m !! slot i l n = Some e → is_leaf l e →
  remapped l (n * region l) ((n + 1) * region l) m (<[slot i l n := update_leaf e]> m).
Proof using HL Hreq.
  intros Hwf Hv Hl He Hleaf. pose proof (update_leaf_ok l e Hleaf) as Hu. split.
  - apply wf_insert; [done..|]. destruct (update_flags _); [right; left; by destruct Hu|by left].
  - intros k n' Hk Hv'. apply lookup_slot_ne; [done..|]. intros [= -> ->]. lia.
  - intros a Hf. apply lookup_insert_ne. intros E. by apply (Hf l n).
  - intros va Hva. destruct (decide (va / region l = n)) as [Hn|Hn].
    + rewrite bool_decide_true by by apply in_region.
      rewrite (tr_entry l va m e) by congruence.
      rewrite (tr_entry l va _ (update_leaf e)) by (rewrite Hn; apply lookup_insert_eq).
      destruct Hleaf as (-> & -> & _). cbn [negb remap mbind option_bind].
      destruct (update_flags _) as [f|]; [|by rewrite Hu].
      destruct Hu as ((-> & -> & _) & -> & ->). done.
    + rewrite tr_insert_ne by (done || lia). rewrite bool_decide_false; [done|]. by rewrite in_region.
Qed.

Lemma remapped_lift l n lo hi m m' : valid i (S l) n → tables_wf m →
  m !! slot i (S l) n = Some (table_entry (table_page l n)) →
  n * region (S l) ≤ lo → hi ≤ (n + 1) * region (S l) →
  remapped l lo hi m m' → remapped (S l) lo hi m m'.
Proof using.
  intros Hv Hwf He Hlo Hhi [Hw Hu Hf Ht]. split; [done|intros; apply Hu; [lia|done]|done|].
  intros va Hva. specialize (Ht va Hva).
  assert (valid i (S l) (va / region (S l))) as Hv' by (apply valid_va; [apply Hv|done]).
  destruct (Hwf _ _ Hv') as (e & He' & Hok).
  rewrite (tr_entry (S l) va m e), (tr_entry (S l) va m' e), Ht; [|by rewrite Hu by (done || lia)|done].
  destruct (decide (va / region (S l) = n)) as [<-|Hn].
  - rewrite He in He'. injection He' as <-. unfold table_entry.
    rewrite !testbit_low by lia. done.
  - rewrite bool_decide_false; [done|]. intros ?. apply Hn, in_region. lia.
Qed.

(** A page that is mapped at [va] lies between [lo] and [hi]. *)
Definition within (lo hi va : Z) (t : option (Z * Z * nat)) : Prop :=
  match t with
  | None => True
  | Some (_, _, k) => (k ≤ 2)%nat ∧ lo ≤ va / region k * region k ∧ (va / region k + 1) * region k ≤ hi
  end.

Lemma local_modify_ok p e m : m !! p = Some e →
  local_modify_or_del_pte ops p prot_set prot_clr type m = Some (<[p := update_leaf e]> m).
Proof using Hops Hreq.
  intros He. unfold local_modify_or_del_pte, load, set_pgentry, store, update_leaf. rewrite He.
  cbn [mbind option_bind].
  destruct Hreq as [->|(-> & _)]; cbn; by rewrite std_flush.
Qed.

(** What a function that changes the table of level [l] below an entry does. *)
Definition remaps (l : nat) (f : Z → Z → Z → Z → Z → Z → mem → option mem) : Prop :=
  ∀ vaddr vaddr_end m,
    tables_wf m → vaddr mod 4096 = 0 → vaddr_end mod 4096 = 0 → 0 ≤ vaddr < vaddr_end →
    vaddr_end ≤ top →
    let n := vaddr / region (S l) in let hi := vaddr_end `min` ((n + 1) * region (S l)) in
    m !! slot i (S l) n = Some (table_entry (table_page l n)) →
    (∀ va, vaddr ≤ va < hi → within vaddr vaddr_end va (tr l va m)) →
    ∃ m', f (slot i (S l) n) vaddr vaddr_end prot_set prot_clr type m = Some m'
      ∧ remapped l vaddr hi m m'.

(** The loops of modify_or_del_vpn1 and modify_or_del_vpn2. *)
Section mod_loop.
Variables (split : page_table_level) (size mask : Z).
Variable child : Z → Z → Z → Z → Z → Z → mem → option mem.
Fixpoint mod_loop (n : nat) (page index vaddr vaddr_end prot_set prot_clr type : Z)
    (m : mem) : option mem :=
  match n with
  | O => Some m
  | S n =>
      let vpn := u64 (page + 8 * index) in
      let vaddr_next := u64 ((vaddr &&& mask) + size) in
      e ← load vpn m;
      if pgentry_present ops e =? 0 then
        if vaddr_end <=? vaddr_next then Some m
        else mod_loop n page (index + 1) vaddr_next vaddr_end prot_set prot_clr type m
      else if nonzero (vpn_large e)
              && negb ((vaddr_end <? vaddr_next) || negb (mem_aligned_check vaddr size)) then
        m ← local_modify_or_del_pte ops vpn prot_set prot_clr type m;
        if vaddr_next <? vaddr_end then
          mod_loop n page (index + 1) vaddr_next vaddr_end prot_set prot_clr type m
        else Some m
      else
        m ← (if nonzero (vpn_large e) then split_large_page phys_offset ops vpn split vaddr m else Some m);
        m ← child vpn vaddr vaddr_end prot_set prot_clr type m;
        if vaddr_end <=? vaddr_next then Some m
        else mod_loop n page (index + 1) vaddr_next vaddr_end prot_set prot_clr type m
  end.
End mod_loop.

Lemma modify_or_del_vpn1_loop_eq : modify_or_del_vpn1_loop phys_offset kstart kend ops
  = mod_loop VPN1 VPN1_SIZE VPN1_MASK (modify_or_del_pte phys_offset kstart kend ops).
Proof using. reflexivity. Qed.
Lemma modify_or_del_vpn2_loop_eq : modify_or_del_vpn2_loop phys_offset kstart kend ops
  = mod_loop VPN3 VPN2_SIZE VPN2_MASK (modify_or_del_vpn1 phys_offset kstart kend ops).
Proof using. reflexivity. Qed.

Lemma tr_level l va m pa f k : tr l va m = Some (pa, f, k) → (k ≤ l)%nat.
Proof using.
  induction l as [|l IH]; cbn [tr]; destruct (m !! _) as [e|]; cbn [mbind option_bind]; try done;
    destruct (Z.testbit e 0), (Z.testbit e 1); cbn [negb]; try done; [by intros [= _ _ <-]..|].
  intros E. apply IH in E. lia.
Qed.

Lemma within_next l lo hi n va m : n * region l ≤ va →
  within lo hi va (tr l va m) → within (n * region l) hi va (tr l va m).
Proof using.
  intros Hn. destruct (tr l va m) as [[[pa f] k]|] eqn:E; [|done]. cbn [within].
  intros (Hk & _ & Hhi). split_and!; [done| |done]. apply tr_level in E.
  destruct (region_divide k l E) as [c Hc]. rewrite Hc, Z.mul_assoc in *.
  apply Z.mul_le_mono_nonneg_r; [pose proof (region_pos k); lia|].
  apply Z.div_le_lower_bound; [apply region_pos|]. lia.
Qed.

(** A leaf that lies in the range starts no earlier and ends no later. *)
Lemma within_leaf l n e vaddr vaddr_end m : (l ≤ 2)%nat → vaddr / region l = n →
  m !! slot i l n = Some e → is_leaf l e → within vaddr vaddr_end vaddr (tr l vaddr m) →
  vaddr = n * region l ∧ (n + 1) * region l ≤ vaddr_end.
Proof using.
  intros Hl Hn He (H0 & H1 & _) Hw. rewrite (tr_entry l vaddr m e), H0, H1 in Hw by congruence.
  cbn [negb within] in Hw. destruct Hw as (_ & Hlo & Hhi). rewrite Hn in *.
  destruct (proj2 (in_region l n vaddr) Hn). lia.
Qed.

Lemma modify_or_del_pte_loop_ok vaddr_end : vaddr_end mod 4096 = 0 → vaddr_end ≤ top →
  ∀ k vaddr m, tables_wf m → vaddr mod 4096 = 0 → 0 ≤ vaddr < vaddr_end →
    let index := vaddr / region 0 mod 512 in let q := vaddr / region 1 in
    Z.of_nat k = 512 - index →
    ∃ m', modify_or_del_pte_loop ops k (table_page 0 q) index vaddr vaddr_end prot_set prot_clr type m
          = Some m'
      ∧ remapped 0 vaddr (vaddr_end `min` ((q + 1) * region 1)) m m'.
Proof using HL Hops Hreq.
  intros Hea Het k. induction k as [|k IH]; intros vaddr m Hwf Ha Hlt index q Hk.
  { pose proof (Z.mod_pos_bound (vaddr / region 0) 512). lia. }
  destruct (next_entry 0 vaddr) as (Hn & Hlast & Hnext). fold index q in Hn, Hlast, Hnext.
  set (n := vaddr / region 0) in *.
  assert (vaddr = n * region 0) as Hv
    by (unfold n; rewrite region_0 in *; pose proof (Z.div_mod vaddr 4096); lia).
  assert (valid i 0 n) as Hval by (apply valid_va; lia). pose proof (layout_top _ _ _ _ HL).
  destruct (Hwf 0%nat n Hval) as (e & He & Hok).
  assert (∃ m1, (if pgentry_present ops e =? 0 then Some m
                 else local_modify_or_del_pte ops (slot i 0 n) prot_set prot_clr type m) = Some m1
    ∧ remapped 0 vaddr ((n + 1) * region 0) m m1) as (m1 & Hm1 & Hrem).
  { rewrite (std_present _ Hops), absent_testbit. destruct Hok as [H0|[(_ & Hleaf)|(? & ? & _)]]; [..|done].
    - exists m. rewrite H0. split; [done|]. apply (remapped_absent 0 n _ _ e); (done || lia).
    - rewrite (proj1 Hleaf). cbn [negb].
      rewrite (local_modify_ok _ e) by done. eexists. split; [done|]. rewrite Hv at 1.
      apply remapped_leaf; try done; lia. }
  cbn [modify_or_del_pte_loop]. pose proof (slot_ptr 0 vaddr) as Hptr. fold n q in Hptr.
  unfold index. rewrite Hptr by lia. unfold load. rewrite He. cbn [mbind option_bind].
  rewrite Hm1. cbn [mbind option_bind]. change PTE_SIZE with 4096. rewrite region_0 in *.
  rewrite (u64_id (vaddr + 4096)) by (unfold word; lia).
  replace (vaddr + 4096) with ((n + 1) * 4096) by lia.
  destruct (vaddr_end <=? (n + 1) * 4096) eqn:E; zreflect.
  - exists m1. split; [done|]. replace (vaddr_end `min` _) with ((n + 1) * 4096); [done|].
    pose proof (Z.div_mod vaddr_end 4096). lia.
  - destruct (decide (index = 511)) as [Hl|Hl].
    + assert (k = O) as -> by lia. exists m1. split; [done|].
      rewrite <- Hlast by done. rewrite Z.min_r by lia. done.
    + pose proof (Z.mod_pos_bound n 512 ltac:(lia)) as Hb. fold index in Hb.
      destruct Hnext as [Hq Hi]; [lia|].
      destruct (IH ((n + 1) * 4096) m1) as (m' & Hm' & Hrem');
        [apply Hrem|by rewrite Z.mod_mul|lia|rewrite Hi; lia|].
      rewrite Hi, Hq in Hm'. exists m'. split; [done|].
      eapply remapped_trans; [|done|]; [lia|]. by rewrite Hq in Hrem'.
Qed.

Lemma modify_or_del_pte_remaps : remaps 0 (modify_or_del_pte phys_offset kstart kend ops).
Proof using HL Hops Hreq.
  intros vaddr vaddr_end m Hwf Ha Hea Hlt Het n hi Hn _.
  unfold modify_or_del_pte. rewrite (vpn_to_vaddr_table _ 0 n);
    [|lia|apply Z.div_pos; [lia|done]|pose proof (Z.mul_div_le vaddr (region 1) (region_pos _)); lia|done].
  cbn [mbind option_bind]. rewrite pte_index_mod.
  pose proof (Z.mod_pos_bound (vaddr / region 0) 512 ltac:(lia)).
  apply modify_or_del_pte_loop_ok; try done. change PTRS_PER_PTE with 512. lia.
Qed.

Lemma mod_loop_ok l split child vaddr_end : (l ≤ 1)%nat → remaps l child →
  vaddr_end mod 4096 = 0 → vaddr_end ≤ top →
  ∀ k vaddr m, tables_wf m → vaddr mod 4096 = 0 → 0 ≤ vaddr < vaddr_end →
    let index := vaddr / region (S l) mod 512 in let q := vaddr / region (S (S l)) in
    let hi := vaddr_end `min` ((q + 1) * region (S (S l))) in
    Z.of_nat k = 512 - index →
    (∀ va, vaddr ≤ va < hi → within vaddr vaddr_end va (tr (S l) va m)) →
    ∃ m', mod_loop split (region (S l)) (bnot 64 (region (S l) - 1)) child k (table_page (S l) q)
            index vaddr vaddr_end prot_set prot_clr type m = Some m'
      ∧ remapped (S l) vaddr hi m m'.
Proof using HL Hops Hreq.
  intros Hl Hchild Hea Het k.
  induction k as [|k IH]; intros vaddr m Hwf Ha Hlt index q hi Hk Hin.
  { pose proof (Z.mod_pos_bound (vaddr / region (S l)) 512). lia. }
  destruct (next_entry (S l) vaddr) as (Hn & Hlast & Hnext). fold index q in Hn, Hlast, Hnext.
  set (n := vaddr / region (S l)) in *. set (next := (n + 1) * region (S l)) in *.
  pose proof (Z.mul_div_le vaddr (region (S l)) (region_pos _)) as Hle. fold n in Hle.
  assert (valid i (S l) n) as Hval by (apply valid_va; lia).
  pose proof (layout_top _ _ _ _ HL).
  assert (∀ m1, remapped (S l) vaddr (vaddr_end `min` next) m m1 →
    ∃ m', (if vaddr_end <=? next then Some m1
           else mod_loop split (region (S l)) (bnot 64 (region (S l) - 1)) child k
                  (table_page (S l) q) (index + 1) next vaddr_end prot_set prot_clr type m1)
          = Some m' ∧ remapped (S l) vaddr hi m m') as Hcont.
  { intros m1 Hrem. destruct (vaddr_end <=? next) eqn:E; zreflect.
    - exists m1. split; [done|]. unfold hi. rewrite Z.min_l in * by lia. done.
    - rewrite (Z.min_r _ next) in Hrem by lia. destruct (decide (index = 511)) as [Hi|Hi].
      + assert (k = O) as -> by lia. exists m1. split; [done|]. unfold hi. rewrite <- Hlast by done.
        by rewrite Z.min_r by lia.
      + pose proof (Z.mod_pos_bound n 512 ltac:(lia)) as Hb. fold index in Hb.
        destruct Hnext as [Hq Hi']; [lia|].
        destruct (IH next m1) as (m' & Hm' & Hrem');
          [apply Hrem|apply region_multiple|lia|rewrite Hi'; lia| |].
        { rewrite Hq. intros va Hva. apply within_next with vaddr; [fold next; lia|].
          rewrite (remapped_tr _ _ _ _ _ Hrem), bool_decide_false by lia. apply Hin. unfold hi. lia. }
        rewrite Hi', Hq in Hm'. exists m'. split; [done|].
        eapply remapped_trans; [|done|]; [unfold hi; lia|]. by rewrite Hq in Hrem'. }
  cbn [mod_loop]. pose proof (slot_ptr (S l) vaddr) as Hptr. fold n q in Hptr.
  unfold index in *. rewrite Hptr by lia. rewrite next_vaddr by lia. fold n next.
  destruct (Hwf (S l) n Hval) as (e & He & Hok). unfold load. rewrite He. cbn [mbind option_bind].
  rewrite (std_present _ Hops), absent_testbit.
  assert (within vaddr vaddr_end vaddr (tr (S l) vaddr m)) as Hfit by (apply Hin; unfold hi; lia).
  destruct Hok as [H0|[(_ & Hleaf)|(? & [= <-] & Etab)]].
  - rewrite H0. apply Hcont. apply (remapped_absent (S l) n _ _ e); (done || lia).
  - destruct (within_leaf (S l) n e vaddr vaddr_end m) as [Hv Hhi]; [lia|done..|]. fold next in Hhi.
    rewrite (proj1 Hleaf). cbn [negb].
    rewrite vpn_large_leaf, aligned_mod, Hv, Z.mod_mul by (apply Hleaf || (pose proof (region_pos (S l)); lia)).
    rewrite <- Hv. zcmp. rewrite (local_modify_ok _ e) by done. cbn [mbind option_bind].
    rewrite Z.ltb_antisym.
    destruct (Hcont (<[slot i (S l) n := update_leaf e]> m)) as (m' & Hm' & Hrem).
    { rewrite Z.min_r by lia. rewrite Hv at 1. apply remapped_leaf; try done; lia. }
    exists m'. split; [|done]. by destruct (vaddr_end <=? next).
  - subst e. unfold table_entry at 1. rewrite testbit_low by lia. cbn [negb Z.testbit].
    unfold table_entry. rewrite vpn_large_table. cbn [andb mbind option_bind].
    destruct (Hchild vaddr vaddr_end m) as (m2 & Hm2 & Hrem2); [done|done|done|lia|done|done| |].
    { fold n next. intros va Hva. specialize (Hin va ltac:(unfold hi; lia)).
      rewrite (tr_entry (S l) va m (table_entry (table_page l n))) in Hin.
      - unfold table_entry in Hin. by rewrite !testbit_low in Hin by lia.
      - replace (va / region (S l)) with n; [done|]. symmetry. apply in_region. lia. }
    fold n next in Hm2, Hrem2. rewrite Hm2. cbn [mbind option_bind]. apply Hcont.
    apply (remapped_lift l n); [done|done|done|lia|lia|done].
Qed.

Lemma modify_or_del_vpn1_remaps : remaps 1 (modify_or_del_vpn1 phys_offset kstart kend ops).
Proof using HL Hops Hreq.
  intros vaddr vaddr_end m Hwf Ha Hea Hlt Het n hi Hn Hin.
  unfold modify_or_del_vpn1. rewrite (vpn_to_vaddr_table _ 1 n);
    [|lia|apply Z.div_pos; [lia|done]|pose proof (Z.mul_div_le vaddr (region 2) (region_pos _)); lia|done].
  cbn [mbind option_bind]. rewrite vpn1_index_mod, modify_or_del_vpn1_loop_eq.
  pose proof (Z.mod_pos_bound (vaddr / region 1) 512 ltac:(lia)).
  apply (mod_loop_ok 0); try done; try lia; [apply modify_or_del_pte_remaps|].
  change PTRS_PER_VPN1 with 512. lia.
Qed.

Lemma modify_or_del_vpn2_remaps : remaps 2 (modify_or_del_vpn2 phys_offset kstart kend ops).
Proof using HL Hops Hreq.
  intros vaddr vaddr_end m Hwf Ha Hea Hlt Het n hi Hn Hin.
  unfold modify_or_del_vpn2. rewrite (vpn_to_vaddr_table _ 2 n);
    [|lia|apply Z.div_pos; [lia|done]|pose proof (Z.mul_div_le vaddr (region 3) (region_pos _)); lia|done].
  cbn [mbind option_bind]. rewrite vpn2_index_mod, modify_or_del_vpn2_loop_eq.
  pose proof (Z.mod_pos_bound (vaddr / region 2) 512 ltac:(lia)).
  apply (mod_loop_ok 1); try done; try lia; [apply modify_or_del_vpn1_remaps|].
  change PTRS_PER_VPN2 with 512. lia.
Qed.

(** The root entry for [va] is present. *)
Definition linked (va : Z) (m : mem) : Prop :=
  ∃ e, m !! slot i 3 (va / region 3) = Some e ∧ Z.testbit e 0 = true.

Lemma mmu_modify_or_del_loop_ok vaddr_end : vaddr_end mod 4096 = 0 → vaddr_end ≤ top →
  ∀ fuel vaddr m, tables_wf m → vaddr mod 4096 = 0 → 0 ≤ vaddr →
    rounds vaddr vaddr_end ≤ Z.of_nat fuel →
    (∀ va, vaddr ≤ va < vaddr_end → linked va m ∧ within vaddr vaddr_end va (tr 3 va m)) →
    ∃ m', mmu_modify_or_del_loop phys_offset kstart kend ops fuel (vpn3_base i) vaddr vaddr_end
            prot_set prot_clr type m = Some m'
      ∧ if vaddr <? vaddr_end then remapped 3 vaddr vaddr_end m m' else m' = m.
Proof using HL Hops Hreq.
  intros Hea Het fuel. induction fuel as [|fuel IH]; intros vaddr m Hwf Ha Hv Hf Hin.
  { pose proof (Z.div_le_mono vaddr vaddr_end (region 3)). pose proof (region_pos 3).
    unfold rounds in Hf. case_if; zreflect; lia. }
  cbn [mmu_modify_or_del_loop]. destruct (vaddr <? vaddr_end) eqn:Elt; [|by exists m]. zreflect.
  pose proof (rounds_next vaddr vaddr_end ltac:(lia)) as Hr. pose proof (layout_top _ _ _ _ HL).
  rewrite vpn3_slot by lia. change VPN3_MASK with (bnot 64 (region 3 - 1)).
  change VPN3_SIZE with (region 3). rewrite next_vaddr by lia.
  destruct (proj2 (in_region 3 (vaddr / region 3) vaddr) eq_refl) as [Hlo Hnext].
  destruct (Hin vaddr ltac:(lia)) as [(e & He & H0) _].
  set (n := vaddr / region 3) in *. set (next := (n + 1) * region 3) in *.
  assert (valid i 3 n) as Hval by (apply valid_va; lia).
  assert (m !! slot i 3 n = Some (table_entry (table_page 2 n))) as Htab.
  { destruct (Hwf 3%nat n Hval) as (e' & He' & Hok). rewrite He in He'. injection He' as <-.
    destruct Hok as [?|[[? _]|(? & [= <-] & ->)]]; [congruence|lia|done]. }
  unfold load. rewrite He. cbn [mbind option_bind].
  rewrite (std_present _ Hops), absent_testbit, H0. cbn [negb andb].
  destruct (modify_or_del_vpn2_remaps vaddr vaddr_end m) as (m2 & Hm2 & Hrem2);
    [done|done|done|lia|done|done| |].
  { fold n next. intros va Hva. destruct (Hin va ltac:(lia)) as [_ Hw].
    rewrite (tr_entry 3 va m (table_entry (table_page 2 n))) in Hw.
    - unfold table_entry in Hw. by rewrite !testbit_low in Hw by lia.
    - replace (va / region 3) with n; [done|]. symmetry. apply in_region. lia. }
  fold n next in Hm2, Hrem2. rewrite Hm2. cbn [mbind option_bind].
  assert (remapped 3 vaddr (vaddr_end `min` next) m m2) as Hrem
    by (apply (remapped_lift 2 n); [done|done|done|lia|lia|done]).
  destruct (IH next m2) as (m' & Hm' & Hrem');
    [apply Hrem|apply region_multiple|lia|fold n next in Hr; lia| |].
  { intros va Hva. destruct (Hin va ltac:(lia)) as [(x & Hx & Hx0) Hw]. split.
    - exists x. split; [|done]. rewrite (remapped_upper _ _ _ _ _ Hrem2); [done|lia|apply valid_va; lia].
    - apply within_next with vaddr; [fold next; lia|].
      rewrite (remapped_tr _ _ _ _ _ Hrem), bool_decide_false by lia. done. }
  exists m'. split; [done|]. case_if; zreflect.
  - rewrite Z.min_r in Hrem by lia. eapply remapped_trans; [|done|done]. lia.
  - subst m'. rewrite Z.min_l in Hrem by lia. done.
Qed.

Lemma mmu_modify_or_del_ok vaddr_base size m : tables_wf m → word 64 size →
  let vaddr := round_page_up vaddr_base in let len := round_page_down size in
  vaddr + len ≤ top →
  (∀ va, vaddr ≤ va < vaddr + len → linked va m ∧ within vaddr (vaddr + len) va (tr 3 va m)) →
  ∃ m', mmu_modify_or_del phys_offset kstart kend ops (vpn3_base i) vaddr_base size
          prot_set prot_clr type m = Some m'
    ∧ remapped 3 vaddr (vaddr + len) m m'.
Proof using HL Hops Hreq.
  intros Hwf Hs vaddr len Ht Hin.
  destruct (round_up_aligned vaddr_base) as [Hva Hv].
  destruct (round_down_aligned size Hs) as [Hla Hl]. fold vaddr len in Hva, Hv, Hla, Hl.
  pose proof (layout_top _ _ _ _ HL).
  unfold mmu_modify_or_del. fold vaddr len. rewrite u64_id by (unfold word; lia).
  assert ((vaddr + len) mod 4096 = 0) as Hea by (rewrite Z.add_mod, Hva, Hla by lia; done).
  destruct (mmu_modify_or_del_loop_ok (vaddr + len) Hea Ht (root_fuel (vaddr + len)) vaddr m)
    as (m' & -> & Hrem); [done|done|lia| |done|].
  { unfold rounds, root_fuel. rewrite (shiftr_region _ 3).
    pose proof (Z.div_pos (vaddr + len) (region 3)). pose proof (Z.div_pos vaddr (region 3)).
    pose proof (region_pos 3). case_if; lia. }
  exists m'. split; [done|]. case_if; zreflect; [done|]. subst m'. split; [done..|].
  intros va Hva'. by rewrite bool_decide_false by lia.
Qed.
End tables.

(** ** What the operations do to the translation *)



Lemma tr_linked i va m t : tr i 3 va m = Some t → linked i va m.
Proof.
  intros E. unfold linked. destruct (m !! slot i 3 (va / region 3)) as [e|] eqn:He.
  - rewrite (tr_entry i 3 va m e He) in E. exists e. split; [done|]. by destruct (Z.testbit e 0).
  - cbn [tr] in E. rewrite He in E. done.
Qed.

(** Deleting what was added restores the translation: when no page of the
    range is mapped, mmu_add of the range followed by MR_DEL of it leaves every
    address of the guest translated as it was, and in between every page of the
    range is mapped. *)
Theorem mmu_add_del_round_trip phys_offset kstart kend i ops paddr_base vaddr_base size prot m :
  layout phys_offset kstart kend i → std_ops ops → info ops = i → tables_wf phys_offset i m →
  word 64 size →
  let vaddr := round_page_up vaddr_base in let len := round_page_down size in
  let translate := translate phys_offset kstart kend i in
  vaddr + len ≤ top_address_space i → round_page_up paddr_base + len + phys_offset ≤ 2 ^ 56 →
  (∀ va, vaddr ≤ va < vaddr + len → translate va m = None) →
  ∃ m1 m2, mmu_add phys_offset kstart kend ops (vpn3_base i) paddr_base vaddr_base size prot m = Some m1
    ∧ (∀ va, vaddr ≤ va < vaddr + len → is_Some (translate va m1))
    ∧ mmu_modify_or_del phys_offset kstart kend ops (vpn3_base i) vaddr_base size 0 0 MR_DEL m1 = Some m2
    ∧ tables_wf phys_offset i m2
    ∧ ∀ va, 0 ≤ va < top_address_space i → translate va m2 = translate va m.
Proof.
  intros HL Hops Hinfo Hwf Hs vaddr len translate Ht Hpe Hnone.
  destruct (round_up_aligned vaddr_base) as [_ Hv]. fold vaddr in Hv.
  destruct (mmu_add_ok _ _ _ _ HL ops Hops Hinfo paddr_base vaddr_base size prot m)
    as (m1 & Hm1 & Hadd); [done..|]. fold vaddr len in Hadd.
  assert (tables_wf phys_offset i m1) as Hwf1 by apply Hadd.
  assert (∀ va, vaddr ≤ va < vaddr + len → ∃ t, tr i 3 va m1 = Some t
    ∧ within vaddr (vaddr + len) va (Some t)) as Hmap.
  { intros va Hva. pose proof (added_tr _ _ _ _ _ _ _ _ Hadd va ltac:(lia)) as Htr.
    specialize (Hnone va Hva). unfold translate in Hnone.
    rewrite (translate_tr _ _ _ _ HL) in Hnone by (done || lia).
    rewrite Hnone, bool_decide_true in Htr by done. destruct Htr as (k & Hk & E & Hr). by eexists. }
  destruct (mmu_modify_or_del_ok _ _ _ _ HL ops Hops 0 0 MR_DEL (or_introl eq_refl) vaddr_base size m1)
    as (m2 & Hm2 & Hrem); [done|done|done| |].
  { intros va Hva. destruct (Hmap va Hva) as (t & E & Hw). rewrite E. split; [by eapply tr_linked|done]. }
  exists m1, m2. split_and!; [done| |done|apply Hrem|].
  - intros va Hva. unfold translate. rewrite (translate_tr _ _ _ _ HL) by (done || lia).
    destruct (Hmap va Hva) as (t & -> & _). by eexists.
  - intros va Hva. unfold translate. rewrite !(translate_tr _ _ _ _ HL) by (done || apply Hrem).
    rewrite (remapped_tr _ _ _ _ _ _ _ _ _ _ Hrem) by done. fold vaddr len. case_bool_decide as Hr.
    + specialize (Hnone va Hr). unfold translate in Hnone.
      rewrite (translate_tr _ _ _ _ HL) in Hnone by (done || lia). rewrite Hnone.
      by destruct (tr i 3 va m1) as [[[? ?] ?]|].
    + pose proof (added_tr _ _ _ _ _ _ _ _ Hadd va Hva) as Htr.
      rewrite bool_decide_false in Htr by done. by destruct (tr i 3 va m).
Qed.

(** ** Looking up an address *)

Section lookup.
Context (phys_offset kstart kend : Z) (i : pgtable_pages_info) (ops : memory_ops).
Context (HL : layout phys_offset kstart kend i) (Hops : std_ops ops).
#[local] Abbreviation top := (top_address_space i).

Lemma table_valid p : Z.testbit (table_entry phys_offset p) 0 = true.
Proof using. unfold table_entry. by rewrite testbit_low by lia. Qed.
Lemma table_not_leaf p : Z.testbit (table_entry phys_offset p) 1 = false.
Proof using. unfold table_entry. by rewrite testbit_low by lia. Qed.
Lemma table_not_large p : nonzero (vpn_large (table_entry phys_offset p)) = false.
Proof using. apply vpn_large_table. Qed.

(** From the entry of a table to the entry below. *)
Lemma table_offset l va (m : mem) : (l ≤ 2)%nat → 0 ≤ va < top →
  m !! slot i (S l) (va / region (S l))
    = Some (table_entry phys_offset (table_page i l (va / region (S l)))) →
  (p ← vpn_to_vaddr phys_offset kstart kend (slot i (S l) (va / region (S l))) m;
   Some (u64 (p + 8 * (va / region l mod 512)))) = Some (slot i l (va / region l)).
Proof using HL.
  intros Hl Hva He. rewrite (vpn_to_vaddr_table _ _ _ _ HL _ l (va / region (S l)));
    [|lia|apply Z.div_pos; [lia|apply region_pos]
    |pose proof (Z.mul_div_le va (region (S l)) (region_pos _)); lia|done].
  cbn [mbind option_bind]. by rewrite (slot_ptr _ _ _ _ HL) by lia.
Qed.

Lemma lookup_address_ok va m : tables_wf phys_offset i m → 0 ≤ va < top →
  lookup_address phys_offset kstart kend ops (vpn3_base i) va m
  = Some ('(_, _, k) ← tr i 3 va m; Some (slot i k (va / region k), region k)).
Proof using HL Hops.
  intros Hwf Hva. unfold lookup_address, vpn2_offset, vpn1_offset, pte_offset, load.
  rewrite (vpn3_slot _ _ _ _ HL), vpn2_index_mod, vpn1_index_mod, pte_index_mod by done.
  destruct (Hwf 3%nat (va / region 3)) as (e3 & H3 & Hok3); [by apply valid_va; lia|].
  destruct (Hwf 2%nat (va / region 2)) as (e2 & H2 & Hok2); [by apply valid_va; lia|].
  destruct (Hwf 1%nat (va / region 1)) as (e1 & H1 & Hok1); [by apply valid_va; lia|].
  destruct (Hwf 0%nat (va / region 0)) as (e0 & H0 & Hok0); [by apply valid_va; lia|].
  rewrite (tr_entry i 3 va m e3), H3 by done. cbn [mbind option_bind].
  rewrite !(std_present _ Hops), !present_testbit.
  destruct Hok3 as [->|[[? _]|(? & [= <-] & ->)]]; [done|lia|].
  rewrite (table_offset 2), table_valid, table_not_leaf by (done || lia). cbn [mbind option_bind negb].
  rewrite (tr_entry i 2 va m e2), H2 by done. cbn [mbind option_bind].
  rewrite !(std_present _ Hops), !present_testbit.
  destruct Hok2 as [->|[[_ (Hv & Hr & _)]|(? & [= <-] & ->)]]; [done|by rewrite vpn_large_leaf, Hv, Hr|].
  rewrite (table_offset 1), table_valid, table_not_leaf, table_not_large by (done || lia).
  cbn [mbind option_bind negb].
  rewrite (tr_entry i 1 va m e1), H1 by done. cbn [mbind option_bind].
  rewrite !(std_present _ Hops), !present_testbit.
  destruct Hok1 as [->|[[_ (Hv & Hr & _)]|(? & [= <-] & ->)]]; [done|by rewrite vpn_large_leaf, Hv, Hr|].
  rewrite (table_offset 0), table_valid, table_not_leaf, table_not_large by (done || lia).
  cbn [mbind option_bind negb].
  rewrite (tr_entry i 0 va m e0), H0 by done. cbn [mbind option_bind].
  rewrite !(std_present _ Hops), !present_testbit.
  destruct Hok0 as [->|[[_ (-> & -> & _)]|(? & ? & _)]]; done.
Qed.

Lemma tr_leaf_slot l va m pa f k : tr i l va m = Some (pa, f, k) →
  ∃ e, m !! slot i k (va / region k) = Some e ∧ Z.testbit e 0 = true ∧ Z.testbit e 1 = true
    ∧ pa = walk_base e * 4096 + va mod region k ∧ f = e mod 2 ^ 8.
Proof using.
  induction l as [|l IH]; cbn [tr]; intros E;
    match type of E with context [m !! ?p] => destruct (m !! p) as [e|] eqn:He end; try done;
    cbn [mbind option_bind] in E; destruct (Z.testbit e 0) eqn:?, (Z.testbit e 1) eqn:?; try done;
    cbn [negb] in E; first [by apply IH|injection E as <- <- <-; by exists e].
Qed.
End lookup.

(** lookup_address finds the leaf the hardware uses: it runs to completion,
    returns NULL exactly when the address is not mapped, and otherwise the entry
    of the hardware walk, from whose page number and flags the translation is
    made, with the size of its page. *)
Theorem lookup_address_agrees phys_offset kstart kend i ops va m :
  layout phys_offset kstart kend i → std_ops ops → tables_wf phys_offset i m →
  0 ≤ va < top_address_space i →
  ∃ r, lookup_address phys_offset kstart kend ops (vpn3_base i) va m = Some r
    ∧ match translate phys_offset kstart kend i va m with
      | None => r = None
      | Some (pa, f, k) => ∃ p e, r = Some (p, region k) ∧ load p m = Some e
          ∧ pa = walk_base e * 4096 + va mod region k ∧ f = e mod 2 ^ 8
      end.
Proof.
  intros HL Hops Hwf Hva. rewrite (lookup_address_ok _ _ _ i) by done. eexists. split; [done|].
  rewrite (translate_tr _ _ _ _ HL) by done.
  destruct (tr i 3 va m) as [[[pa f] k]|] eqn:E; [|done]. cbn [mbind option_bind].
  destruct (tr_leaf_slot i 3 va m pa f k E) as (e & He & _ & _ & -> & ->). by exists (slot i k (va / region k)), e.
Qed.

(** ** Splitting a large page *)

Section split.
Context (phys_offset kstart kend : Z) (i : pgtable_pages_info) (ops : memory_ops).
Context (HL : layout phys_offset kstart kend i) (Hops : std_ops ops) (Hinfo : info ops = i).
#[local] Abbreviation top := (top_address_space i).

(** An entry in the form of a pointer to a table, which at the last level is
    not a translation. *)
Definition pointer (e : Z) : Prop := ∃ x, e = 1 + 2 ^ 10 * x.

Lemma pointer_bits p : pointer (bits (pte_of_memaddr phys_offset p true)).
Proof using.
  unfold pte_of_memaddr. set (x := maddr_to_mfn _). exists (x mod 2 ^ 44).
  unfold mfn_to_acrn_entry, bits. cbn -[Z.pow Z.mul Z.add Z.modulo].
  change (_ mod 2 ^ 2) with 0. lia.
Qed.

Lemma split_loop_ok k p paddr inc prot m :
  0 ≤ p → p + 8 * Z.of_nat k < 2 ^ 64 →
  (∀ j, (j < k)%nat → is_Some (m !! (p + 8 * Z.of_nat j))) →
  ∃ m', split_loop phys_offset ops k VPN1 p paddr inc prot m = Some m'
    ∧ (∀ j, (j < k)%nat → ∃ e, m' !! (p + 8 * Z.of_nat j) = Some e ∧ pointer e)
    ∧ (∀ a, (∀ j, (j < k)%nat → a ≠ p + 8 * Z.of_nat j) → m' !! a = m !! a).
Proof using Hops.
  revert p paddr m. induction k as [|k IH]; intros p paddr m Hp Hb Hm.
  - exists m. split_and!; [done|lia|done].
  - destruct (Hm O) as [x Hx]; [lia|]. rewrite Z.mul_0_r, Z.add_0_r in Hx.
    cbn [split_loop]. unfold construct_pgentry, store. rewrite Hx.
    cbn [mbind option_bind bool_decide decide_rel]. rewrite bool_decide_true by done.
    cbn [mbind option_bind]. rewrite (std_flush _ Hops), u64_id by (unfold word; lia).
    set (m1 := <[p := bits (pte_of_memaddr phys_offset paddr true)]> m).
    destruct (IH (p + 8) (u64 (paddr + inc)) m1) as (m' & -> & H0 & Hne); [lia|lia| |].
    { intros j Hj. unfold m1. replace (p + 8 + 8 * Z.of_nat j) with (p + 8 * Z.of_nat (S j)) by lia.
      rewrite lookup_insert_ne by lia. apply Hm. lia. }
    exists m'. split_and!; [done| |].
    + intros [|j] Hj.
      * rewrite Z.mul_0_r, Z.add_0_r, Hne by lia. unfold m1. rewrite lookup_insert_eq.
        eexists. split; [done|]. apply pointer_bits.
      * replace (p + 8 * Z.of_nat (S j)) with (p + 8 + 8 * Z.of_nat j) by lia. apply H0. lia.
    + intros a Ha. rewrite Hne.
      * unfold m1. apply lookup_insert_ne. specialize (Ha O). lia.
      * intros j Hj. specialize (Ha (S j)). lia.
Qed.

(** The entries after a 2 MiB leaf has been split and one of its pages deleted. *)
Record split_done (n : Z) (m m' : mem) : Prop := {
  split_link : m' !! slot i 1 n = Some (table_entry phys_offset (table_page i 0 n));
  split_pages n' : n' / 512 = n → ∃ e, m' !! slot i 0 n' = Some e ∧ (pointer e ∨ e = 0);
  split_others l n' : valid i l n' → (l, n') ≠ (1%nat, n) → (l = 0%nat → n' / 512 ≠ n) →
    m' !! slot i l n' = m !! slot i l n';
}.

Lemma split_large_ok va m : tables_wf phys_offset i m → 0 ≤ va < top →
  let n := va / region 1 in
  ∃ m', split_large_page phys_offset ops (slot i 1 n) VPN1 va m = Some m' ∧ split_done n m m'.
Proof using HL Hops Hinfo.
  intros Hwf Hva n. unfold split_large_page, load.
  assert (valid i 1 n) as Hv by (apply valid_va; lia). assert (0 ≤ n) by apply Hv.
  pose proof (Z.mul_div_le va (region 1) (region_pos _)) as Hle. fold n in Hle.
  destruct (Hwf 1%nat n Hv) as (e & He & _). rewrite He, Hinfo. cbn [mbind option_bind].
  rewrite (gets_pt _ _ _ _ HL ops Hops) by done. fold n. cbv zeta.
  destruct (clear_table _ _ _ _ HL 0 n m) as (m1 & -> & Hm1 & _); [done|lia|lia|lia|].
  cbn [mbind option_bind].
  destruct (table_page_bounds _ _ _ _ HL 0 n) as (? & ? & ?); [lia..|].
  pose proof (layout_kend _ _ _ _ HL). destruct (layout_offset _ _ _ _ HL) as [Ho _].
  assert (∀ j, (j < 512)%nat → table_page i 0 n + 8 * Z.of_nat j = slot i 0 (512 * n + Z.of_nat j)
    ∧ (512 * n + Z.of_nat j) / 512 = n) as Hs.
  { intros j Hj. split; [unfold table_page, slot; lia|].
    rewrite (Z.mul_comm 512), Z.div_add_l, Z.div_small by lia. lia. }
  assert (∀ n', n' / 512 = n → valid i 0 n') as Hval by (intros; apply (valid_page i 0 n); lia).
  destruct (split_loop_ok (Z.to_nat PTRS_PER_PTE) (table_page i 0 n) (e &&& VPN1_PFN_MASK) PTE_SIZE
    (recover_exe_right ops (e &&& bnot 64 VPN1_PFN_MASK)) m1) as (m2 & -> & Hp & Hne).
  { lia. }
  { change (Z.to_nat PTRS_PER_PTE) with 512%nat. lia. }
  { intros j Hj. destruct (Hs j Hj) as [-> Hq]. rewrite Hm1, bool_decide_true by auto. done. }
  cbn [mbind option_bind].
  assert (∀ l n', valid i l n' → (l = 0%nat → n' / 512 ≠ n) → m2 !! slot i l n' = m !! slot i l n') as Hout.
  { intros l n' Hv' Hn'. rewrite Hne.
    - rewrite Hm1 by done. rewrite bool_decide_false; [done|]. intros [-> ?]. by apply Hn'.
    - intros j Hj E. destruct (Hs j Hj) as [Hj' Hq]. rewrite Hj' in E.
      apply (slot_inj _ _ _ _ HL) in E as [-> ->]; [by apply Hn'|done|by apply Hval]. }
  rewrite (construct_pgentry_ok _ _ _ _ HL) by
    (done || lia || (rewrite Hout by (done || lia); by rewrite He)).
  eexists. split; [done|]. split.
  - apply lookup_insert_eq.
  - intros n' Hn'. rewrite (lookup_slot_ne _ _ _ _ HL) by (auto || lia).
    pose proof (Z.div_mod n' 512). pose proof (Z.mod_pos_bound n' 512).
    destruct (Hp (Z.to_nat (n' mod 512))) as (x & Hx & Hptr);
      [change (Z.to_nat PTRS_PER_PTE) with 512%nat; lia|].
    exists x. split; [|by left]. rewrite <- Hx. f_equal. unfold slot, table_page. lia.
  - intros l n' Hv' Hn1 Hn0. rewrite (lookup_slot_ne _ _ _ _ HL) by (done || congruence). by apply Hout.
Qed.

Lemma del_split_page va m m' : va mod 4096 = 0 → 0 ≤ va → va + 4096 ≤ top → let n := va / region 1 in
  split_done n m m' →
  ∃ m2, modify_or_del_pte phys_offset kstart kend ops (slot i 1 n) va (va + 4096) 0 0 MR_DEL m' = Some m2
    ∧ split_done n m m2.
Proof using HL Hops.
  intros Ha Hva Ht n [Hlink Hpages Hothers]. unfold modify_or_del_pte.
  pose proof (layout_top _ _ _ _ HL). assert (0 ≤ n) by (apply Z.div_pos; [lia|apply region_pos]).
  pose proof (Z.mul_div_le va (region 1) (region_pos _)) as Hle. fold n in Hle.
  rewrite (vpn_to_vaddr_table _ _ _ _ HL _ 0 n) by (done || lia). cbn [mbind option_bind].
  rewrite pte_index_mod. change PTRS_PER_PTE with 512.
  pose proof (Z.mod_pos_bound (va / region 0) 512 ltac:(lia)).
  destruct (Z.to_nat (512 - va / region 0 mod 512)) as [|k] eqn:Ek; [lia|].
  cbn [modify_or_del_pte_loop]. unfold n. rewrite (slot_ptr _ _ _ _ HL) by lia. fold n. unfold load.
  assert (va / region 0 / 512 = n) as Hn
    by (unfold n; rewrite (region_S 0), (Z.mul_comm 512), Z.div_div by (pose proof (region_pos 0); lia); done).
  assert (valid i 0 (va / region 0)) as Hv0 by (apply valid_va; lia).
  destruct (Hpages (va / region 0) Hn) as (e & He & Hpe). rewrite He. cbn [mbind option_bind].
  change PTE_SIZE with 4096. rewrite (u64_id (va + 4096)) by (unfold word; lia).
  rewrite (std_present _ Hops), absent_testbit. destruct (Z.testbit e 0) eqn:Hb0; cbn [negb].
  - rewrite (local_modify_ok ops Hops 0 0 MR_DEL (or_introl eq_refl) _ e) by done.
    cbn [mbind option_bind]. zcmp. eexists. split; [done|].
    assert (∀ l n', valid i l n' → (l = 0%nat → n' / 512 ≠ n) →
      <[slot i 0 (va / region 0) := update_leaf 0 0 MR_DEL e]> m' !! slot i l n' = m' !! slot i l n') as Hl.
    { intros l n' Hv' Hn'. apply (lookup_slot_ne _ _ _ _ HL); [done..|]. intros [= <- <-]. by apply Hn'. }
    split.
    + rewrite Hl; [done|apply valid_va; lia|lia].
    + intros n' Hn'. destruct (decide (n' = va / region 0)) as [->|Hne'].
      * exists 0. split; [apply lookup_insert_eq|by right].
      * rewrite (lookup_slot_ne _ _ _ _ HL); [by apply Hpages|done|apply (valid_page i 0 n); lia|congruence].
    + intros l n' Hv' Hn1 Hn0. rewrite Hl by done. by apply Hothers.
  - cbn [mbind option_bind]. zcmp. by eexists.
Qed.

Lemma walk_pointer l va (m : mem) : (l ≤ 2)%nat → 0 ≤ va < top →
  m !! slot i (S l) (va / region (S l))
    = Some (table_entry phys_offset (table_page i l (va / region (S l)))) →
  let walk l := sv48_walk (hpa2hva phys_offset kstart kend) l
                  (table_page i l (va / region (S l)) + phys_offset) va m in
  walk (S l) = walk l.
Proof using HL.
  intros Hl Hva He walk. unfold walk. cbn [sv48_walk].
  assert (∀ k, (k ≤ 3)%nat → kstart ≤ table_page i k (va / region (S k)) < kend ∧ 0 ≤ kstart
    ∧ table_page i k (va / region (S k)) mod 4096 = 0) as Hb.
  { intros k Hk. destruct (table_page_bounds _ _ _ _ HL k (va / region (S k))) as (? & ? & ?);
      [lia|apply Z.div_pos; [lia|apply region_pos]
      |pose proof (Z.mul_div_le va (region (S k)) (region_pos (S k))); lia|lia]. }
  destruct (Hb (S l) ltac:(lia)) as (? & ? & _). destruct (Hb l ltac:(lia)) as (? & ? & ?).
  unfold load. rewrite (page_hva _ _ _ _ HL), table_page_slot, He by lia. cbn [mbind option_bind].
  rewrite (walk_base_table _ _ _ _ HL) by lia. unfold table_entry. by rewrite !testbit_low by lia.
Qed.

(** The entries on the way to a 2 MiB leaf. *)
Lemma tr_level1 va m pa f : tables_wf phys_offset i m → 0 ≤ va < top → tr i 3 va m = Some (pa, f, 1%nat) →
  m !! slot i 3 (va / region 3) = Some (table_entry phys_offset (table_page i 2 (va / region 3)))
  ∧ m !! slot i 2 (va / region 2) = Some (table_entry phys_offset (table_page i 1 (va / region 2)))
  ∧ ∃ e, m !! slot i 1 (va / region 1) = Some e ∧ is_leaf 1 e.
Proof using.
  intros Hwf Hva E.
  destruct (Hwf 3%nat (va / region 3)) as (e3 & H3 & Hok3); [by apply valid_va; lia|].
  destruct (Hwf 2%nat (va / region 2)) as (e2 & H2 & Hok2); [by apply valid_va; lia|].
  destruct (Hwf 1%nat (va / region 1)) as (e1 & H1 & Hok1); [by apply valid_va; lia|].
  rewrite (tr_entry i 3 va m e3) in E by done.
  destruct Hok3 as [Hb|[[? _]|(? & [= <-] & ->)]]; [by rewrite Hb in E|lia|].
  rewrite table_valid, table_not_leaf, (tr_entry i 2 va m e2) in E by done.
  destruct Hok2 as [Hb|[[_ (Hv & Hr & _)]|(? & [= <-] & ->)]];
    [by rewrite Hb in E|by rewrite Hv, Hr in E|].
  rewrite table_valid, table_not_leaf, (tr_entry i 1 va m e1) in E by done.
  destruct Hok1 as [Hb|[[_ Hleaf]|(? & [= <-] & ->)]]; [by rewrite Hb in E|by eauto 10|].
  rewrite table_valid, table_not_leaf in E. cbn [negb] in E. apply tr_level in E. lia.
Qed.

Lemma del_page_vpn1 va m : tables_wf phys_offset i m → va mod 4096 = 0 → 0 ≤ va → va + 4096 ≤ top →
  m !! slot i 2 (va / region 2) = Some (table_entry phys_offset (table_page i 1 (va / region 2))) →
  (∃ e, m !! slot i 1 (va / region 1) = Some e ∧ is_leaf 1 e) →
  ∃ m', modify_or_del_vpn1 phys_offset kstart kend ops (slot i 2 (va / region 2)) va (va + 4096) 0 0 MR_DEL m
        = Some m' ∧ split_done (va / region 1) m m'.
Proof using HL Hops Hinfo.
  intros Hwf Ha Hva Ht H2 (e & He & Hleaf). unfold modify_or_del_vpn1.
  rewrite (vpn_to_vaddr_table _ _ _ _ HL _ 1 (va / region 2));
    [|lia|apply Z.div_pos; [lia|done]|pose proof (Z.mul_div_le va (region 2) (region_pos _)); lia|done].
  cbn [mbind option_bind]. rewrite vpn1_index_mod. change PTRS_PER_VPN1 with 512.
  pose proof (Z.mod_pos_bound (va / region 1) 512 ltac:(lia)).
  destruct (Z.to_nat (512 - va / region 1 mod 512)) as [|k] eqn:Ek; [lia|].
  cbn [modify_or_del_vpn1_loop]. rewrite (slot_ptr _ _ _ _ HL) by lia.
  change VPN1_MASK with (bnot 64 (region 1 - 1)). change VPN1_SIZE with (region 1).
  rewrite (next_vaddr _ _ _ _ HL) by lia. unfold load. rewrite He. cbn [mbind option_bind].
  rewrite (std_present _ Hops), absent_testbit, (proj1 Hleaf). cbn [negb].
  rewrite vpn_large_leaf, aligned_mod by apply Hleaf. cbn [andb].
  destruct (proj2 (in_region 1 (va / region 1) va) eq_refl) as [Hlo Hhi].
  assert (va + 4096 ≤ (va / region 1 + 1) * region 1) as Hend.
  { pose proof (region_multiple 1 (va / region 1 + 1)) as Hm. pose proof (Z.div_mod va 4096).
    pose proof (Z.div_mod ((va / region 1 + 1) * region 1) 4096). lia. }
  replace (negb _) with false.
  2: { symmetry. apply negb_false_iff, orb_true_iff.
       destruct (decide (va + 4096 < (va / region 1 + 1) * region 1)); [left; by apply Z.ltb_lt|].
       right. apply negb_true_iff, Z.eqb_neq. intros Hm. change (region 1) with 2097152 in *.
       pose proof (Z.div_mod va 2097152). lia. }
  destruct (split_large_ok va m) as (m1 & -> & Hs1); [done|lia|]. cbn [mbind option_bind].
  destruct (del_split_page va m m1) as (m2 & -> & Hs2); [done..|]. cbn [mbind option_bind]. zcmp.
  by exists m2.
Qed.

Lemma page_in_region l va : va mod 4096 = 0 → va + 4096 ≤ (va / region l + 1) * region l.
Proof using.
  intros. destruct (proj2 (in_region l (va / region l) va) eq_refl) as [Hlo Hhi].
  pose proof (region_multiple l (va / region l + 1)) as Hm. pose proof (Z.div_mod va 4096).
  pose proof (Z.div_mod ((va / region l + 1) * region l) 4096). lia.
Qed.

Lemma del_page_vpn2 va m pa f : tables_wf phys_offset i m → va mod 4096 = 0 → 0 ≤ va → va + 4096 ≤ top →
  tr i 3 va m = Some (pa, f, 1%nat) →
  ∃ m', modify_or_del_vpn2 phys_offset kstart kend ops (slot i 3 (va / region 3)) va (va + 4096) 0 0 MR_DEL m
        = Some m' ∧ split_done (va / region 1) m m'.
Proof using HL Hops Hinfo.
  intros Hwf Ha Hva Ht E. destruct (tr_level1 va m pa f) as (H3 & H2 & Hleaf); [done|lia|done|].
  unfold modify_or_del_vpn2. rewrite (vpn_to_vaddr_table _ _ _ _ HL _ 2 (va / region 3));
    [|lia|apply Z.div_pos; [lia|done]|pose proof (Z.mul_div_le va (region 3) (region_pos _)); lia|done].
  cbn [mbind option_bind]. rewrite vpn2_index_mod. change PTRS_PER_VPN2 with 512.
  pose proof (Z.mod_pos_bound (va / region 2) 512 ltac:(lia)).
  destruct (Z.to_nat (512 - va / region 2 mod 512)) as [|k] eqn:Ek; [lia|].
  cbn [modify_or_del_vpn2_loop]. rewrite (slot_ptr _ _ _ _ HL) by lia.
  change VPN2_MASK with (bnot 64 (region 2 - 1)). change VPN2_SIZE with (region 2).
  rewrite (next_vaddr _ _ _ _ HL) by lia. unfold load. rewrite H2. cbn [mbind option_bind].
  rewrite (std_present _ Hops), absent_testbit, table_valid, table_not_large. cbn [negb andb mbind option_bind].
  pose proof (page_in_region 2 va Ha).
  destruct (del_page_vpn1 va m) as (m1 & -> & Hs); [done..|]. cbn [mbind option_bind]. zcmp. by exists m1.
Qed.

Lemma split_untranslated va m m' pa f : tables_wf phys_offset i m → 0 ≤ va < top →
  tr i 3 va m = Some (pa, f, 1%nat) → split_done (va / region 1) m m' →
  ∀ va', 0 ≤ va' < top → va' / region 1 = va / region 1 →
    translate phys_offset kstart kend i va' m' = None.
Proof using HL.
  intros Hwf Hva E [Hlink Hpages Hothers] va' Hva' Hn.
  destruct (tr_level1 va m pa f) as (H3 & H2 & _); [done..|].
  assert (∀ l, va' / region (S l) = va / region (S l)) as Hup.
  { induction l as [|l IH]; [done|]. pose proof (region_pos (S l)).
    rewrite (region_S (S l)), (Z.mul_comm 512), <- !Z.div_div by lia. by rewrite IH. }
  unfold translate. rewrite (translate_root _ _ _ _ HL va') by done.
  rewrite (walk_pointer 2); [|lia|done|].
  2: { rewrite Hothers; [by rewrite Hup|by apply valid_va; lia|congruence|lia]. }
  rewrite (walk_pointer 1); [|lia|done|].
  2: { rewrite Hothers; [by rewrite Hup|by apply valid_va; lia|congruence|lia]. }
  rewrite (walk_pointer 0); [|lia|done|by rewrite Hn].
  destruct (table_page_bounds _ _ _ _ HL 0 (va' / region 1)) as (? & ? & _);
    [lia|apply Z.div_pos; [lia|done]|pose proof (Z.mul_div_le va' (region 1) (region_pos _)); lia|].
  cbn [sv48_walk]. unfold load. rewrite (page_hva _ _ _ _ HL), table_page_slot by lia.
  destruct (Hpages (va' / region 0)) as (e & -> & [[x ->] | ->]).
  { rewrite <- Hn, (region_S 0), (Z.mul_comm 512), Z.div_div by (pose proof (region_pos 0); lia). done. }
  - cbn [mbind option_bind]. rewrite !testbit_low by lia. done.
  - done.
Qed.

Lemma del_page_root va m pa f : tables_wf phys_offset i m → va mod 4096 = 0 → 0 ≤ va → va + 4096 ≤ top →
  tr i 3 va m = Some (pa, f, 1%nat) →
  ∃ m', mmu_modify_or_del phys_offset kstart kend ops (vpn3_base i) va PAGE_SIZE 0 0 MR_DEL m = Some m'
    ∧ split_done (va / region 1) m m'.
Proof using HL Hops Hinfo.
  intros Hwf Ha Hva Ht E. destruct (tr_level1 va m pa f) as (H3 & _ & _); [done|lia|done|].
  pose proof (layout_top _ _ _ _ HL). unfold mmu_modify_or_del.
  assert (round_page_up va = va) as ->.
  { unfold round_page_up. change PAGE_SIZE with 4096. rewrite (u64_id (va + 4096)) by (unfold word; lia).
    rewrite u64_id by (unfold word; lia).
    change PAGE_MASK with (bnot 64 (region 0 - 1)). rewrite land_region_mask by (unfold word; lia).
    rewrite region_0. pose proof (Z.div_mod va 4096).
    replace (va + 4096 - 1) with (4095 + va / 4096 * 4096) by lia. rewrite Z.div_add by lia.
    change (4095 / 4096) with 0. lia. }
  change (round_page_down PAGE_SIZE) with 4096. rewrite u64_id by (unfold word; lia).
  pose proof (page_in_region 3 va Ha).
  unfold root_fuel. cbn [mmu_modify_or_del_loop].
  rewrite (proj2 (Z.ltb_lt va (va + 4096))) by lia.
  rewrite (vpn3_slot _ _ _ _ HL) by lia. unfold load. rewrite H3. cbn [mbind option_bind].
  rewrite (std_present _ Hops), absent_testbit, table_valid. cbn [negb andb].
  destruct (del_page_vpn2 va m pa f) as (m' & -> & Hs); [done..|]. cbn [mbind option_bind].
  change VPN3_MASK with (bnot 64 (region 3 - 1)). change VPN3_SIZE with (region 3).
  rewrite (next_vaddr _ _ _ _ HL) by lia. rewrite (proj2 (Z.ltb_ge _ _)) by lia. by exists m'.
Qed.
End split.

(** Deleting one 4 KiB page out of a 2 MiB leaf unmaps all of it.
    split_large_page fills the new table with pointers to tables where it should
    put leaves (the test of the level is inverted), which at the last level are
    no translations, so after the deletion the hardware finds none of the 512
    pages mapped. *)
Theorem del_page_unmaps_superpage phys_offset kstart kend i ops va m pa f :
  layout phys_offset kstart kend i → std_ops ops → info ops = i → tables_wf phys_offset i m →
  va mod PAGE_SIZE = 0 → 0 ≤ va → va + PAGE_SIZE ≤ top_address_space i →
  translate phys_offset kstart kend i va m = Some (pa, f, 1%nat) →
  ∃ m', mmu_modify_or_del phys_offset kstart kend ops (vpn3_base i) va PAGE_SIZE 0 0 MR_DEL m = Some m'
    ∧ ∀ va', 0 ≤ va' < top_address_space i → va' / VPN1_SIZE = va / VPN1_SIZE →
        translate phys_offset kstart kend i va' m' = None.
Proof.
  change PAGE_SIZE with 4096 at 1 2. intros HL Hops Hinfo Hwf Ha Hva Ht E.
  rewrite (translate_tr _ _ _ _ HL) in E by (done || lia).
  destruct (del_page_root _ _ _ i ops HL Hops Hinfo va m pa f) as (m' & Hm' & Hs); [done..|].
  exists m'. split; [done|]. intros va' Hva' Hn.
  apply (split_untranslated _ _ _ i HL va m m' pa f); try done. lia.
Qed.

(** ** Examples *)

(** A guest of 4 MiB with its tables from [b], in a hypervisor image of 4 MiB at
    0x80000000. *)
Definition ex_at (b : Z) : pgtable_pages_info :=
  mk_info 0x400000 b (b + 0x1000) (b + 0x2000) (b + 0x3000).
Definition ex_info : pgtable_pages_info := ex_at 0x80200000.
Definition ex_ops : memory_ops := ppt_mem_ops ex_info.

Fixpoint zeros (n : nat) (p : Z) : mem :=
  match n with O => ∅ | S n => <[p := 0]> (zeros n (p + 8)) end.
Definition ex_mem : mem := zeros (Z.to_nat 2560) 0x80200000.

Lemma zeros_lookup n p k : 0 ≤ k < Z.of_nat n → zeros n p !! (p + 8 * k) = Some 0.
Proof.
  revert p k. induction n as [|n IH]; intros p k Hk; [lia|]. cbn [zeros].
  destruct (decide (k = 0)) as [->|]; [by rewrite Z.mul_0_r, Z.add_0_r, lookup_insert_eq|].
  rewrite lookup_insert_ne by lia. replace (p + 8 * k) with (p + 8 + 8 * (k - 1)) by lia. apply IH. lia.
Qed.

Lemma ex_entries b l : (l ≤ 3)%nat → entries (ex_at b) l = match l with O => 1024 | S _ => 512 end.
Proof. intros Hl. do 4 (destruct l as [|l]; [reflexivity|]). lia. Qed.

Lemma ex_at_layout b : 0x80000000 ≤ b → b + 0x5000 ≤ 0x80400000 → b mod 4096 = 0 →
  layout 0 0x80000000 0x80400000 (ex_at b).
Proof.
  intros Hlo Hhi Ha. split; [by vm_compute|by vm_compute| |by vm_compute| |].
  - intros l Hl. rewrite ex_entries by done. do 4 (destruct l as [|l]; [cbn; lia|]). lia.
  - intros l Hl. pose proof (Z.div_mod b 4096 ltac:(lia)).
    do 4 (destruct l as [|l]; [cbn; Z.div_mod_to_equations; lia|]). lia.
  - intros l l' Hl. rewrite !ex_entries by lia.
    do 4 (destruct l as [|l]; [do 4 (destruct l' as [|l']; [cbn; lia|]); lia|]). lia.
Qed.
Lemma ex_layout : layout 0 0x80000000 0x80400000 ex_info.
Proof. by apply ex_at_layout. Qed.

Lemma zeros_slot b n p l k : valid (ex_at b) l k → p ≤ b → (b - p) mod 8 = 0 →
  b + 0x5000 ≤ p + 8 * Z.of_nat n → zeros n p !! slot (ex_at b) l k = Some 0.
Proof.
  intros [Hl Hn] Hp Ha Hb. rewrite ex_entries in Hn by done.
  set (o := match l with O => 1536 | S O => 1024 | S (S O) => 512 | _ => 0 end).
  pose proof (Z.div_mod (b - p) 8 ltac:(lia)).
  replace (slot (ex_at b) l k) with (p + 8 * ((b - p) / 8 + o + k)).
  - apply zeros_lookup. unfold o. do 4 (destruct l as [|l]; [Z.div_mod_to_equations; lia|]). lia.
  - unfold slot, o. do 4 (destruct l as [|l]; [cbn; lia|]). lia.
Qed.
Lemma zeros_tables b n p : p ≤ b → (b - p) mod 8 = 0 → b + 0x5000 ≤ p + 8 * Z.of_nat n →
  tables_wf 0 (ex_at b) (zeros n p).
Proof. intros ??? l k Hv. exists 0. split; [by apply zeros_slot|by left]. Qed.

Lemma ex_tables : tables_wf 0 ex_info ex_mem.
Proof. apply zeros_tables; done. Qed.

Lemma ex_unmapped va : 0 ≤ va < 0x400000 → translate 0 0x80000000 0x80400000 ex_info va ex_mem = None.
Proof.
  intros Hva. rewrite (translate_tr _ _ _ _ ex_layout); [|apply ex_tables|done].
  rewrite (tr_entry ex_info 3 va _ 0); [done|].
  apply zeros_slot; [apply valid_va; [lia|done]|done..].
Qed.

(** Physical memory from 0x90000000 mapped at 0 with a 2 MiB and a 4 KiB leaf. *)
Definition ex_mapped : mem :=
  default ∅ (mmu_add 0 0x80000000 0x80400000 ex_ops (vpn3_base ex_info) 0x90000000 0 0x201000 0 ex_mem).

Lemma ex_added : added 0 ex_info 3 0 0x201000 0x90000000 ex_mem ex_mapped.
Proof.
  destruct (mmu_add_ok _ _ _ _ ex_layout ex_ops (ppt_std _) eq_refl 0x90000000 0 0x201000 0 ex_mem)
    as (m' & Hm' & Hadd); [apply ex_tables|by vm_compute..|].
  unfold ex_mapped. rewrite Hm'. exact Hadd.
Qed.

Lemma ex_mapped_within va : 0 ≤ va < 0x201000 →
  linked ex_info va ex_mapped
  ∧ within 0 0x201000 va (translate 0 0x80000000 0x80400000 ex_info va ex_mapped).
Proof.
  intros Hva. assert (0 ≤ va < top_address_space ex_info) as Hva' by (cbn; lia).
  pose proof (added_tr _ _ _ _ _ _ _ _ ex_added va Hva') as Htr.
  pose proof (ex_unmapped va Hva') as Hn. rewrite (translate_tr _ _ _ _ ex_layout) in Hn;
    [|apply ex_tables|done].
  rewrite Hn, bool_decide_true in Htr by done. destruct Htr as (k & Hk & E & Hr).
  rewrite (translate_tr _ _ _ _ ex_layout); [|apply ex_added|done]. rewrite E.
  exact (conj (tr_linked _ _ _ _ E) (conj Hk Hr)).
Qed.



Lemma mmu_add_del_round_trip_witness : ∃ m1 m2,
  mmu_add 0 0x80000000 0x80400000 ex_ops (vpn3_base ex_info) 0x90000000 0x1000 0x3000 0 ex_mem = Some m1
  ∧ mmu_modify_or_del 0 0x80000000 0x80400000 ex_ops (vpn3_base ex_info) 0x1000 0x3000 0 0 MR_DEL m1
    = Some m2.
Proof.
  destruct (mmu_add_del_round_trip 0 0x80000000 0x80400000 ex_info ex_ops 0x90000000 0x1000 0x3000 0 ex_mem
    ex_layout (ppt_std _) eq_refl ex_tables) as (m1 & m2 & H1 & _ & H2 & _); [by vm_compute..| |].
  - change (round_page_up 0x1000) with 0x1000. change (round_page_down 0x3000) with 0x3000.
    intros va Hva. apply ex_unmapped. lia.
  - exists m1, m2. split; assumption.
Defined.

Lemma lookup_address_agrees_witness : ∃ p,
  lookup_address 0 0x80000000 0x80400000 ex_ops (vpn3_base ex_info) 0x1000 ex_mapped
    = Some (Some (p, VPN1_SIZE)).
Proof.
  destruct (lookup_address_agrees 0 0x80000000 0x80400000 ex_info ex_ops 0x1000 ex_mapped ex_layout
    (ppt_std _) (added_wf _ _ _ _ _ _ _ _ ex_added)) as (r & Hr & Ht); [by vm_compute|].
  replace (translate _ _ _ _ _ _) with (Some (0x90001000, 0x1f, 1%nat)) in Ht by (by vm_compute).
  destruct Ht as (p & e & -> & _). exists p. exact Hr.
Defined.

Lemma del_page_unmaps_superpage_witness : ∃ m',
  mmu_modify_or_del 0 0x80000000 0x80400000 ex_ops (vpn3_base ex_info) 0x1000 PAGE_SIZE 0 0 MR_DEL ex_mapped
    = Some m'
  ∧ translate 0 0x80000000 0x80400000 ex_info 0x5000 ex_mapped = Some (0x90005000, 0x1f, 1%nat)
  ∧ translate 0 0x80000000 0x80400000 ex_info 0x5000 m' = None.
Proof.
  destruct (del_page_unmaps_superpage 0 0x80000000 0x80400000 ex_info ex_ops 0x1000 ex_mapped 0x90001000 0x1f
    ex_layout (ppt_std _) eq_refl (added_wf _ _ _ _ _ _ _ _ ex_added)) as (m' & Hm' & Hn); [by vm_compute..|].
  exists m'. split; [assumption|]. split; [by vm_compute|].
  exact (Hn 0x5000 ltac:(cbn; lia) eq_refl).
Defined.
