(* ===== verification/S2vm.v ===== *)
(** * Stage-2 translation of the guests

    arch/riscv/guest/s2vm.c, the mapping of guest memory in
    arch/riscv/guest/vm.c, and the copies between guest and hypervisor memory of
    arch/riscv/guest/guest_memory.c. The state is the memory of the tables and
    the CSR [hgatp]; a TLB flush is recorded with the value of [hgatp] it applies
    to. A memcpy_s between guest and hypervisor memory is recorded with its
    addresses and length; guest memory does not overlap the tables. *)

From S2P Require Import Prelude Pgtable.

Definition SATP_MODE_SV48 : Z := 0x9000000000000000.
Definition INVALID_HPA : Z := Z.shiftl 0x1 52.
Definition S2PT_PFN_HIGH_MASK : Z := 0xFFFF000000000000.
Definition EINVAL : Z := 22.

(** The fields of [struct acrn_vm] used here. *)
Record acrn_vm := mk_vm {
  vm_id : Z;
  s2ptp : Z;
  s2pt_satp : Z;
  s2pt_mem_ops : memory_ops;
}.
#[export] Instance eta_vm : Eta acrn_vm :=
  MkEta _ (rd mk_vm <*> vm_id <*> s2ptp <*> s2pt_satp <*> s2pt_mem_ops).

Record machine := mk_machine {
  tables : mem;
  hgatp : Z;
  flushes : list Z;
}.
#[export] Instance eta_machine : Eta machine :=
  MkEta _ (rd mk_machine <*> tables <*> hgatp <*> flushes).

(** The board configuration of include/arch/riscv/asm/qemu.h. *)
Definition SOS_DEVICE_MMIO_START : Z := 0x8000000.
Definition SOS_DEVICE_MMIO_SIZE : Z := 0x3000000.
Definition CONFIG_CLINT_BASE : Z := 0x02000000.
Definition CONFIG_CLINT_SIZE : Z := 0x10000.

Section s2vm.
Variables phys_offset kstart kend : Z.
#[local] Abbreviation hpa2hva := (hpa2hva phys_offset kstart kend).
#[local] Abbreviation hva2hpa := (hva2hpa phys_offset kstart kend).

(** ** s2vm.c *)

Definition get_s2pt_entry (vm : acrn_vm) : Z := s2ptp vm.

(** The address and, when it is mapped, the page size. *)
Definition local_gpa2hpa (vm : acrn_vm) (gpa : Z) (m : mem) : option (Z * option Z) :=
  r ← lookup_address phys_offset kstart kend (s2pt_mem_ops vm) (get_s2pt_entry vm) gpa m;
  match r with
  | None => Some (INVALID_HPA, None)
  | Some (pgentry, pg_size) =>
      e ← load pgentry m;
      let hpa := ((e &&& bnot 64 S2PT_PFN_HIGH_MASK) &&& bnot 64 (pg_size - 1))
                 ||| (gpa &&& (pg_size - 1)) in
      Some (hpa, if hpa =? INVALID_HPA then None else Some (u32 pg_size))
  end.

Definition gpa2hpa (vm : acrn_vm) (gpa : Z) (m : mem) : option Z :=
  '(hpa, _) ← local_gpa2hpa vm gpa m; Some hpa.

Definition generate_satp (vmid addr : Z) : Z :=
  SATP_MODE_SV48 ||| Z.shiftl vmid 44 ||| Z.shiftr addr 12.

Definition s2pt_flush_guest (vm : acrn_vm) (s : machine) : machine :=
  let satp := s2pt_satp vm in
  let osatp := hgatp s in
  let s := if negb (osatp =? satp) then s⟨hgatp := satp⟩ else s in
  let s := s⟨flushes := flushes s ++ [hgatp s]⟩ in
  if negb (osatp =? hgatp s) then s⟨hgatp := satp⟩ else s.

(** [s2vm_inital_level] is 0, set by setup_virt_paging. *)
Definition s2pt_setup_satp (s2vm_inital_level : Z) (vm : acrn_vm) (s : machine) : acrn_vm * machine * Z :=
  if s2vm_inital_level =? 0 then
    let satp := hva2hpa (vpn3_base (info (s2pt_mem_ops vm))) in
    let vm := vm⟨s2pt_satp := generate_satp (vm_id vm) satp⟩ in
    (vm, s2pt_flush_guest vm s, 0)
  else (vm, s, -1).

Definition s2pt_init (s2vm_inital_level : Z) (vm : acrn_vm) (s : machine) : acrn_vm * machine * Z :=
  let '(vm, s, _) := s2pt_setup_satp s2vm_inital_level vm s in (vm, s, 0).

Definition s2pt_add_mr (vm : acrn_vm) (vpn3_page hpa gpa size prot_orig : Z) (s : machine) : option machine :=
  m ← mmu_add phys_offset kstart kend (s2pt_mem_ops vm) vpn3_page hpa gpa size prot_orig (tables s);
  Some (s2pt_flush_guest vm (s⟨tables := m⟩)).

Definition s2pt_modify_mr (vm : acrn_vm) (vpn3_page gpa size prot_set prot_clr : Z) (s : machine)
    : option machine :=
  m ← mmu_modify_or_del phys_offset kstart kend (s2pt_mem_ops vm) vpn3_page gpa size
        prot_set prot_clr MR_MODIFY (tables s);
  Some (s2pt_flush_guest vm (s⟨tables := m⟩)).

Definition s2pt_del_mr (vm : acrn_vm) (vpn3_page gpa size : Z) (s : machine) : option machine :=
  m ← mmu_modify_or_del phys_offset kstart kend (s2pt_mem_ops vm) vpn3_page gpa size
        0 0 MR_DEL (tables s);
  Some (s2pt_flush_guest vm (s⟨tables := m⟩)).

(** The four loops of walk_s2pt_table, with [cb] acting on the memory. *)
Section walk.
Variables (vm : acrn_vm) (cb : Z → Z → mem → option mem).
#[local] Abbreviation present e := (nonzero (pgentry_present (s2pt_mem_ops vm) e)).

Fixpoint walk_pte (n : nat) (vpn1 k : Z) (m : mem) : option mem :=
  match n with
  | O => Some m
  | S n =>
      pte ← pte_offset phys_offset kstart kend vpn1 (Z.shiftl k PTE_SHIFT) m;
      e ← load pte m;
      m ← (if present e then cb pte PTE_SIZE m else Some m);
      walk_pte n vpn1 (k + 1) m
  end.
Fixpoint walk_vpn1 (n : nat) (vpn2 k : Z) (m : mem) : option mem :=
  match n with
  | O => Some m
  | S n =>
      vpn1 ← vpn1_offset phys_offset kstart kend vpn2 (Z.shiftl k VPN1_SHIFT) m;
      e ← load vpn1 m;
      m ← (if negb (present e) then Some m
           else if nonzero (vpn_large e) then cb vpn1 VPN1_SIZE m
           else walk_pte (Z.to_nat PTRS_PER_PTE) vpn1 0 m);
      walk_vpn1 n vpn2 (k + 1) m
  end.
Fixpoint walk_vpn2 (n : nat) (vpn3 k : Z) (m : mem) : option mem :=
  match n with
  | O => Some m
  | S n =>
      vpn2 ← vpn2_offset phys_offset kstart kend vpn3 (Z.shiftl k VPN2_SHIFT) m;
      e ← load vpn2 m;
      m ← (if negb (present e) then Some m
           else if nonzero (vpn_large e) then cb vpn2 VPN2_SIZE m
           else walk_vpn1 (Z.to_nat PTRS_PER_VPN1) vpn2 0 m);
      walk_vpn2 n vpn3 (k + 1) m
  end.
Fixpoint walk_vpn3 (n : nat) (k : Z) (m : mem) : option mem :=
  match n with
  | O => Some m
  | S n =>
      let vpn3 := vpn3_offset (get_s2pt_entry vm) (Z.shiftl k VPN3_SHIFT) in
      e ← load vpn3 m;
      m ← (if negb (present e) then Some m else walk_vpn2 (Z.to_nat PTRS_PER_VPN2) vpn3 0 m);
      walk_vpn3 n (k + 1) m
  end.
Definition walk_s2pt_table (m : mem) : option mem := walk_vpn3 (Z.to_nat PTRS_PER_VPN3) 0 m.
End walk.

(** ** vm.c *)

Definition allocate_guest_memory (vm : acrn_vm) (mem_start_gpa mem_size_gpa : Z) (s : machine)
    : option machine :=
  let gpa := mem_start_gpa in
  let hpa := gpa in
  s2pt_add_mr vm (s2ptp vm) hpa gpa mem_size_gpa
    (PAGE_V ||| (PAGE_V ||| PAGE_U ||| PAGE_R ||| PAGE_W) ||| PAGE_X) s.

Definition passthru_devices_to_sos (sos_vm : acrn_vm) (s : machine) : option machine :=
  s ← s2pt_add_mr sos_vm (s2ptp sos_vm) SOS_DEVICE_MMIO_START SOS_DEVICE_MMIO_START
        SOS_DEVICE_MMIO_SIZE PAGE_V s;
  s2pt_del_mr sos_vm (s2ptp sos_vm) CONFIG_CLINT_BASE CONFIG_CLINT_SIZE s.

(** ** guest_memory.c *)

(** memcpy_s of [copy_len] bytes between a guest page and hypervisor memory. *)
Record copy := mk_copy { g_ptr : Z; h_ptr : Z; copy_len : Z; cp_from_vm : bool }.

Definition local_copy_gpa (vm : acrn_vm) (h_ptr gpa size fix_pg_size : Z) (cp_from_vm : bool) (m : mem)
    : option (Z * list copy) :=
  '(hpa, pg_size) ← local_gpa2hpa vm gpa m;
  match pg_size with
  | None => Some (0, [])
  | Some pg_size =>
      let pg_size := if nonzero fix_pg_size then fix_pg_size else pg_size in
      let offset_in_pg := u32 gpa &&& u32 (pg_size - 1) in
      let room := u32 (pg_size - offset_in_pg) in
      let len := if room <? size then room else size in
      Some (len, [mk_copy (hpa2hva hpa) h_ptr len cp_from_vm])
  end.

(** Each round copies at least a byte, so [size] rounds are enough. *)
Fixpoint copy_gpa_loop (fuel : nat) (vm : acrn_vm) (h_ptr gpa size : Z) (cp_from_vm : bool) (m : mem)
    : option (Z * list copy) :=
  if 0 <? size then
    match fuel with
    | O => None
    | S fuel =>
        '(len, c) ← local_copy_gpa vm h_ptr gpa size 0 cp_from_vm m;
        if len =? 0 then Some (- EINVAL, c)
        else
          '(err, cs) ← copy_gpa_loop fuel vm (u64 (h_ptr + len)) (u64 (gpa + len)) (u32 (size - len)) cp_from_vm m;
          Some (err, c ++ cs)
    end
  else Some (0, []).
Definition copy_gpa (vm : acrn_vm) (h_ptr_arg gpa_arg size_arg : Z) (cp_from_vm : bool) (m : mem)
    : option (Z * list copy) :=
  copy_gpa_loop (Z.to_nat size_arg) vm h_ptr_arg gpa_arg size_arg cp_from_vm m.

Definition copy_from_gpa (vm : acrn_vm) (h_ptr gpa size : Z) (m : mem) : option (Z * list copy) :=
  copy_gpa vm h_ptr gpa size true m.
Definition copy_to_gpa (vm : acrn_vm) (h_ptr gpa size : Z) (m : mem) : option (Z * list copy) :=
  copy_gpa vm h_ptr gpa size false m.

Definition gpa2hva (vm : acrn_vm) (x : Z) (m : mem) : option Z :=
  hpa ← gpa2hpa vm x m;
  Some (if hpa =? INVALID_HPA then 0 else hpa2hva hpa).
End s2vm.

(** ** Flushing *)

(** s2pt_flush_guest flushes the TLB of the VM whose table has changed, but
    leaves the CPU in the address space of that VM: hgatp is not restored to the
    VM it held on entry, whatever it was. *)
Theorem flush_switches_address_space vm s :
  let s' := s2pt_flush_guest vm s in
  flushes s' = flushes s ++ [s2pt_satp vm] ∧ hgatp s' = s2pt_satp vm ∧ tables s' = tables s.
Proof.
  unfold s2pt_flush_guest. destruct (hgatp s =? s2pt_satp vm) eqn:E; zreflect; simpl.
  - rewrite Z.eqb_refl. simpl. by rewrite E.
  - rewrite (proj2 (Z.eqb_neq _ _) E). done.
Qed.

Section theory.
Context (phys_offset kstart kend : Z).
#[local] Abbreviation translate i := (translate phys_offset kstart kend i).

(** The stage-2 table of a VM: its root is the one of its operations. *)
Record vm_wf (vm : acrn_vm) (m : mem) : Prop := {
  vm_layout : layout phys_offset kstart kend (info (s2pt_mem_ops vm));
  vm_ops : std_ops (s2pt_mem_ops vm);
  vm_root : s2ptp vm = vpn3_base (info (s2pt_mem_ops vm));
  vm_tables : tables_wf phys_offset (info (s2pt_mem_ops vm)) m;
}.
#[local] Abbreviation space vm := (top_address_space (info (s2pt_mem_ops vm))).
#[local] Abbreviation gpa_tr vm := (translate (info (s2pt_mem_ops vm))).

(** ** Reading the address back *)

Lemma lor_disjoint a b n : 0 ≤ n → 0 ≤ b < 2 ^ n → (a * 2 ^ n) ||| b = a * 2 ^ n + b.
Proof using.
  intros Hn Hb. symmetry. apply Z.add_nocarry_lor, Z.bits_inj_iff'. intros k Hk.
  rewrite <- Z.shiftl_mul_pow2, Z.land_spec, Z.shiftl_spec, Z.bits_0 by lia.
  destruct (decide (k < n)); [by rewrite Z.testbit_neg_r by lia|].
  rewrite (word_testbit_high n b) by (done || lia). apply andb_false_r.
Qed.

(** What the code makes of a leaf: its low 48 bits, not its page number. *)
Lemma misread_leaf e gpa n : 12 ≤ n ≤ 30 → word 64 e → 0 ≤ gpa →
  ((e &&& bnot 64 S2PT_PFN_HIGH_MASK) &&& bnot 64 (2 ^ n - 1)) ||| (gpa &&& (2 ^ n - 1))
  = e mod 2 ^ 48 / 2 ^ n * 2 ^ n + gpa mod 2 ^ n.
Proof using.
  intros Hn He Hg. rewrite land_ones_mod by lia.
  assert (e &&& bnot 64 S2PT_PFN_HIGH_MASK = e mod 2 ^ 48) as ->.
  { rewrite <- Z.land_ones by lia. change (bnot 64 S2PT_PFN_HIGH_MASK) with (Z.ones 48). done. }
  pose proof (Z.mod_pos_bound e (2 ^ 48) ltac:(lia)).
  rewrite land_mask by (lia || (unfold word; lia)).
  pose proof (Z.mod_pos_bound gpa (2 ^ n) ltac:(lia)).
  apply lor_disjoint; lia.
Qed.

Lemma misread_page e gpa k pa : (k ≤ 2)%nat → 0 ≤ gpa → (walk_base e * 4096) mod region k = 0 →
  pa = walk_base e * 4096 + gpa mod region k → pa < 2 ^ 50 →
  e mod 2 ^ 48 / region k * region k = pa / (4 * region k) * region k.
Proof using.
  intros Hk Hg Ha Hpa Hb. pose proof (Z.mod_pos_bound gpa (region k) (region_pos k)).
  assert (e mod 2 ^ 48 = walk_base e * 1024 + e mod 1024) as ->.
  { unfold walk_base in *. rewrite Z.shiftr_div_pow2 in * by lia. change (2 ^ 10) with 1024 in *.
    clear Ha. Z.div_mod_to_equations. lia. }
  pose proof (Z.mod_pos_bound e 1024 ltac:(lia)). revert Ha Hpa. generalize (walk_base e). intros x Ha Hpa.
  generalize dependent (e mod 1024). intros r Hr. f_equal.
  generalize dependent (gpa mod region k). intros o Ho Hpa.
  destruct k as [|[|[|k]]]; [..|lia];
    [change (region 0) with 4096 in *|change (region 1) with 2097152 in *|change (region 2) with 1073741824 in *];
    Z.div_mod_to_equations; lia.
Qed.

(** The leaf of a translation in well-formed tables. *)
Lemma leaf_of vm gpa m pa f k : vm_wf vm m → 0 ≤ gpa < space vm → gpa_tr vm gpa m = Some (pa, f, k) →
  let i := info (s2pt_mem_ops vm) in
  ∃ e, m !! slot i k (gpa / region k) = Some e ∧ is_leaf k e ∧ (k ≤ 2)%nat
    ∧ pa = walk_base e * 4096 + gpa mod region k ∧ f = e mod 2 ^ 8.
Proof using.
  intros [HL Hops Hroot Hwf] Hg E i. rewrite (translate_tr _ _ _ _ HL) in E by done.
  destruct (tr_leaf_slot _ 3 gpa m pa f k E) as (e & He & H0 & H1 & Hpa & Hf).
  apply tr_level in E. destruct (Hwf k (gpa / region k)) as (e' & He' & Hok); [by apply valid_va|].
  fold i in He, He'. rewrite He in He'. injection He' as <-. exists e.
  destruct Hok as [?|[[? ?]|(? & ? & ->)]]; [congruence|done|].
  by rewrite table_not_leaf in H1.
Qed.

Lemma local_gpa2hpa_ok vm gpa m : vm_wf vm m → 0 ≤ gpa < space vm →
  match gpa_tr vm gpa m with
  | None => local_gpa2hpa phys_offset kstart kend vm gpa m = Some (INVALID_HPA, None)
  | Some (pa, f, k) => ∃ h, local_gpa2hpa phys_offset kstart kend vm gpa m = Some (h, Some (region k))
      ∧ h ≠ INVALID_HPA ∧ (k ≤ 2)%nat
      ∧ (pa < 2 ^ 50 → h = pa / (4 * region k) * region k + gpa mod region k)
  end.
Proof using.
  intros Hvm Hg. pose proof Hvm as [HL Hops Hroot Hwf]. unfold local_gpa2hpa, get_s2pt_entry.
  rewrite Hroot, (lookup_address_ok _ _ _ _ _ HL Hops) by done.
  destruct (gpa_tr vm gpa m) as [[[pa f] k]|] eqn:E.
  - destruct (leaf_of vm gpa m pa f k Hvm Hg E) as (e & He & (H0 & H1 & Ha & Hw) & Hk & Hpa & _).
    rewrite (translate_tr _ _ _ _ HL) in E by done. rewrite E. cbn [mbind option_bind]. unfold load.
    rewrite He. cbn [mbind option_bind].
    pose proof (misread_leaf e gpa (12 + 9 * Z.of_nat k) ltac:(lia) Hw ltac:(lia)) as Hmis.
    fold (region k) in Hmis. rewrite Hmis.
    assert (region k ≤ 2 ^ 30) by (apply Z.pow_le_mono_r; lia).
    assert (0 < region k) by apply region_pos.
    pose proof (Z.mod_pos_bound e (2 ^ 48) ltac:(lia)). pose proof (Z.mod_pos_bound gpa (region k) ltac:(lia)).
    pose proof (Z.mul_div_le (e mod 2 ^ 48) (region k) ltac:(lia)).
    rewrite (proj2 (Z.eqb_neq _ INVALID_HPA)) by (change INVALID_HPA with (2 ^ 52); lia).
    rewrite u32_id by (unfold word; lia). eexists. split; [done|].
    split; [change INVALID_HPA with (2 ^ 52); lia|]. split; [done|]. intros Hb.
    f_equal. apply (misread_page e gpa); (done || lia).
  - rewrite (translate_tr _ _ _ _ HL) in E by done. rewrite E. done.
Qed.

(** ** Isolation *)

(** Frame: an update of one VM's tables leaves the tables of another alone. *)
Lemma vm_frame vm m m' : vm_wf vm m →
  (∀ l n, valid (info (s2pt_mem_ops vm)) l n →
     m' !! slot (info (s2pt_mem_ops vm)) l n = m !! slot (info (s2pt_mem_ops vm)) l n) →
  vm_wf vm m' ∧ ∀ gpa, 0 ≤ gpa < space vm → gpa_tr vm gpa m' = gpa_tr vm gpa m.
Proof using.
  intros [HL Hops Hroot Hwf] Heq.
  assert (tables_wf phys_offset (info (s2pt_mem_ops vm)) m') as Hwf'.
  { intros l n Hv. rewrite Heq by done. by apply Hwf. }
  split; [done|]. intros gpa Hg. rewrite !(translate_tr _ _ _ _ HL) by done.
  apply tr_ext. intros k Hk. apply Heq. by apply valid_va.
Qed.

(** A request to change the mapping of a VM. *)
Inductive s2pt_op :=
  | AddMr (hpa gpa size prot : Z)
  | ModifyMr (gpa size prot_set prot_clr : Z)
  | DelMr (gpa size : Z).

Definition s2pt_exec (vm : acrn_vm) (op : s2pt_op) : machine → option machine :=
  match op with
  | AddMr hpa gpa size prot => s2pt_add_mr phys_offset kstart kend vm (s2ptp vm) hpa gpa size prot
  | ModifyMr gpa size prot_set prot_clr =>
      s2pt_modify_mr phys_offset kstart kend vm (s2ptp vm) gpa size prot_set prot_clr
  | DelMr gpa size => s2pt_del_mr phys_offset kstart kend vm (s2ptp vm) gpa size
  end.

(** The pages of the range are reached from the root and their leaves lie in it. *)
Definition range_ok (vm : acrn_vm) (gpa size : Z) (m : mem) : Prop :=
  word 64 size ∧
  let lo := round_page_up gpa in let hi := lo + round_page_down size in
  hi ≤ space vm ∧
  ∀ a, lo ≤ a < hi → linked (info (s2pt_mem_ops vm)) a m ∧ within lo hi a (gpa_tr vm a m).

Definition s2pt_op_ok (vm : acrn_vm) (op : s2pt_op) (m : mem) : Prop :=
  match op with
  | AddMr hpa gpa size prot => word 64 size
      ∧ round_page_up gpa + round_page_down size ≤ space vm
      ∧ round_page_up hpa + round_page_down size + phys_offset ≤ 2 ^ 56
  | ModifyMr gpa size prot_set prot_clr => range_ok vm gpa size m ∧ request_ok prot_set prot_clr MR_MODIFY
  | DelMr gpa size => range_ok vm gpa size m
  end.

Fixpoint s2pt_run (vm : acrn_vm) (ops : list s2pt_op) (s : machine) : option machine :=
  match ops with
  | [] => Some s
  | op :: ops => s ← s2pt_exec vm op s; s2pt_run vm ops s
  end.
Fixpoint s2pt_run_ok (vm : acrn_vm) (ops : list s2pt_op) (s : machine) : Prop :=
  match ops with
  | [] => True
  | op :: ops => s2pt_op_ok vm op (tables s) ∧ ∀ s', s2pt_exec vm op s = Some s' → s2pt_run_ok vm ops s'
  end.

Lemma flush_tables vm s : tables (s2pt_flush_guest vm s) = tables s.
Proof using. unfold s2pt_flush_guest. by repeat case_if. Qed.

Lemma remap_range vm gpa size set clr type s : vm_wf vm (tables s) → range_ok vm gpa size (tables s) →
  request_ok set clr type →
  ∃ m', mmu_modify_or_del phys_offset kstart kend (s2pt_mem_ops vm) (s2ptp vm) gpa size set clr type (tables s)
        = Some m'
    ∧ vm_wf vm m' ∧ ∀ a, foreign (info (s2pt_mem_ops vm)) a → m' !! a = tables s !! a.
Proof using.
  intros [HL Hops Hroot Hwf] (Hs & Ht & Hin) Hreq. rewrite Hroot.
  destruct (round_up_aligned gpa) as [_ Hlo].
  destruct (mmu_modify_or_del_ok _ _ _ _ HL _ Hops set clr type Hreq gpa size (tables s))
    as (m' & Hm' & Hrem); [done|done|done| |].
  { intros a Ha. destruct (Hin a Ha) as [? Hw]. rewrite (translate_tr _ _ _ _ HL) in Hw by (done || lia). done. }
  exists m'. split; [done|]. split; [|apply Hrem]. split; [done..|apply Hrem].
Qed.

Lemma s2pt_exec_ok vm op s : vm_wf vm (tables s) → s2pt_op_ok vm op (tables s) →
  ∃ s', s2pt_exec vm op s = Some s' ∧ vm_wf vm (tables s')
    ∧ ∀ a, foreign (info (s2pt_mem_ops vm)) a → tables s' !! a = tables s !! a.
Proof using.
  intros Hvm Hok. pose proof Hvm as [HL Hops Hroot Hwf]. destruct op as [hpa gpa size prot|gpa size set clr|gpa size].
  - destruct Hok as (Hs & Ht & Hp). cbn [s2pt_exec]. unfold s2pt_add_mr. rewrite Hroot.
    destruct (mmu_add_ok _ _ _ _ HL _ Hops eq_refl hpa gpa size prot (tables s)) as (m' & -> & Hadd); [done..|].
    eexists. split; [done|]. rewrite flush_tables. split; [|apply Hadd]. split; [done..|apply Hadd].
  - destruct Hok as (Hr & Hreq). destruct (remap_range vm gpa size set clr MR_MODIFY s) as (m' & Hm' & Hw & Hf); [done..|].
    cbn [s2pt_exec]. unfold s2pt_modify_mr. rewrite Hm'. eexists. split; [done|]. by rewrite flush_tables.
  - destruct (remap_range vm gpa size 0 0 MR_DEL s) as (m' & Hm' & Hw & Hf); [done|done|by left|].
    cbn [s2pt_exec]. unfold s2pt_del_mr. rewrite Hm'. eexists. split; [done|]. by rewrite flush_tables.
Qed.
End theory.


(** gpa2hpa reads the page number of a leaf two bits too low. For a mapped
    address it returns a quarter of the physical page address, rounded down to the
    page size, plus the offset, so beyond the first page of physical memory never
    the address the hardware uses; for an unmapped address it returns
    INVALID_HPA. *)
Theorem gpa2hpa_misreads phys_offset kstart kend vm gpa m :
  vm_wf phys_offset kstart kend vm m → 0 ≤ gpa < top_address_space (info (s2pt_mem_ops vm)) →
  match translate phys_offset kstart kend (info (s2pt_mem_ops vm)) gpa m with
  | None => gpa2hpa phys_offset kstart kend vm gpa m = Some INVALID_HPA
  | Some (pa, _, k) => pa < 2 ^ 50 →
      ∃ h, gpa2hpa phys_offset kstart kend vm gpa m = Some h
        ∧ h = pa / (4 * region k) * region k + gpa mod region k ∧ (region k ≤ pa → h < pa)
  end.
Proof.
  intros Hvm Hg. pose proof (local_gpa2hpa_ok _ _ _ vm gpa m Hvm Hg) as Hok. unfold gpa2hpa.
  destruct (translate _ _ _ _ gpa m) as [[[pa f] k]|] eqn:E; [|by rewrite Hok].
  destruct Hok as (h & -> & _ & Hk & Hh). intros Hb. exists h. split; [done|]. split; [by apply Hh|].
  intros Hge. rewrite Hh by done.
  destruct (leaf_of _ _ _ vm gpa m pa f k Hvm Hg E) as (e & _ & (_ & _ & Ha & _) & _ & Hpa & _).
  pose proof (region_pos k). pose proof (Z.mod_pos_bound gpa (region k) ltac:(lia)).
  apply Z.mod_divide in Ha as [c Hc]; [|lia]. rewrite Hc in Hpa.
  assert (1 ≤ c) by nia. rewrite (Z.mul_comm 4), <- Z.div_div by lia.
  assert (pa / region k = c) as -> by (symmetry; apply (Z.div_unique_pos _ _ _ (gpa mod region k)); lia).
  assert (c / 4 < c) by (apply Z.div_lt; lia). nia.
Qed.

(** ** Copies *)

Section copies.
Context (phys_offset kstart kend : Z) (vm : acrn_vm) (m : mem) (from : bool).
Context (Hvm : vm_wf phys_offset kstart kend vm m).
#[local] Abbreviation i := (info (s2pt_mem_ops vm)).

(** The copies move [size] bytes between [h] and [gpa], in order, without gap or
    overlap, each within one page of the guest. *)
Fixpoint tiles (h gpa size : Z) (cs : list copy) : Prop :=
  match cs with
  | [] => size = 0
  | c :: cs =>
      h_ptr c = h ∧ cp_from_vm c = from ∧ 0 < copy_len c ≤ size
      ∧ (∃ hpa, gpa2hpa phys_offset kstart kend vm gpa m = Some hpa ∧ hpa ≠ INVALID_HPA
          ∧ g_ptr c = hpa2hva phys_offset kstart kend hpa)
      ∧ (∃ pa f k, translate phys_offset kstart kend i gpa m = Some (pa, f, k)
          ∧ gpa mod region k + copy_len c ≤ region k)
      ∧ tiles (h + copy_len c) (gpa + copy_len c) (size - copy_len c) cs
  end.

Lemma local_copy_ok h gpa size : 0 ≤ gpa < top_address_space i → 0 < size < 2 ^ 32 →
  match translate phys_offset kstart kend i gpa m with
  | None => local_copy_gpa phys_offset kstart kend vm h gpa size 0 from m = Some (0, [])
  | Some (_, _, k) => ∃ hpa len,
      gpa2hpa phys_offset kstart kend vm gpa m = Some hpa ∧ hpa ≠ INVALID_HPA
      ∧ 0 < len ≤ size ∧ gpa mod region k + len ≤ region k
      ∧ local_copy_gpa phys_offset kstart kend vm h gpa size 0 from m
        = Some (len, [mk_copy (hpa2hva phys_offset kstart kend hpa) h len from])
  end.
Proof using Hvm.
  intros Hg Hs. pose proof (local_gpa2hpa_ok _ _ _ vm gpa m Hvm Hg) as Hok.
  unfold local_copy_gpa, gpa2hpa. destruct (translate _ _ _ _ gpa m) as [[[pa f] k]|]; [|by rewrite Hok].
  destruct Hok as (hpa & -> & Hne & Hk & _). cbn [mbind option_bind nonzero Z.eqb negb].
  assert (region k ≤ 2 ^ 30) by (apply Z.pow_le_mono_r; lia). pose proof (region_pos k).
  rewrite (u32_id (region k - 1)) by (unfold word; lia).
  assert (u32 gpa &&& (region k - 1) = gpa mod region k) as ->.
  { unfold region at 1. rewrite land_ones_mod by lia. fold (region k). unfold u32.
    apply Z.mod_mod_divide. exists (2 ^ (32 - (12 + 9 * Z.of_nat k))).
    unfold region. rewrite <- Z.pow_add_r by lia. f_equal. lia. }
  pose proof (Z.mod_pos_bound gpa (region k) ltac:(lia)).
  rewrite (u32_id (region k - gpa mod region k)) by (unfold word; lia).
  eexists hpa, _. split_and!; [done|done| | | |done]; case_if; zreflect; lia.
Qed.

Lemma copy_gpa_loop_ok fuel : ∀ h gpa size, 0 ≤ gpa → 0 ≤ size < 2 ^ 32 → (Z.to_nat size ≤ fuel)%nat →
  gpa + size ≤ top_address_space i → 0 ≤ h → h + size < 2 ^ 64 →
  ∃ n cs, copy_gpa_loop phys_offset kstart kend fuel vm h gpa size from m
      = Some (if n =? size then 0 else - EINVAL, cs)
    ∧ 0 ≤ n ≤ size ∧ tiles h gpa n cs
    ∧ (n < size → translate phys_offset kstart kend i (gpa + n) m = None).
Proof using Hvm.
  induction fuel as [|fuel IH]; intros h gpa size Hg Hs Hf Ht Hh Hhe.
  { exists 0, []. cbn [copy_gpa_loop]. zcmp. split_and!; [done|lia|lia|done|lia]. }
  cbn [copy_gpa_loop]. destruct (0 <? size) eqn:E; zreflect.
  2: { exists 0, []. zcmp. split_and!; [done|lia|lia|done|lia]. }
  pose proof (local_copy_ok h gpa size ltac:(lia) ltac:(lia)) as Hc.
  pose proof (layout_top _ _ _ _ (vm_layout _ _ _ _ _ Hvm)).
  destruct (translate _ _ _ _ gpa m) as [[[pa f] k]|] eqn:Etr.
  - destruct Hc as (hpa & len & Hhpa & Hne & Hlen & Hpg & ->). cbn [mbind option_bind].
    rewrite (proj2 (Z.eqb_neq len 0)) by lia.
    rewrite (u64_id (h + len)), (u64_id (gpa + len)), (u32_id (size - len)) by (unfold word; lia).
    destruct (IH (h + len) (gpa + len) (size - len)) as (n & cs & -> & Hn & Htl & Hun); [lia..|].
    cbn [mbind option_bind]. exists (len + n), (mk_copy (hpa2hva phys_offset kstart kend hpa) h len from :: cs).
    split_and!; [|lia|lia| |intros; rewrite Z.add_assoc; apply Hun; lia].
    + do 2 f_equal. case_if; case_if; zreflect; (done || lia).
    + cbn [tiles h_ptr cp_from_vm copy_len g_ptr]. replace (len + n - len) with n by lia.
      split_and!; [done|done|lia|lia|by eauto|by eauto|done].
  - rewrite Hc. cbn [mbind option_bind]. rewrite Z.eqb_refl. exists 0, [].
    zcmp. split_and!; [done|lia|lia|done|]. intros _. by rewrite Z.add_0_r.
Qed.
End copies.


(** ** Examples *)

(** The VM of the page-table example, and a second one with its tables behind. *)
Definition ex_vm : acrn_vm := mk_vm 0 0x80200000 0 ex_ops.
Definition ex_vm2 : acrn_vm := mk_vm 1 0x80205000 0 (ppt_mem_ops (ex_at 0x80205000)).
Definition ex_machine : machine := mk_machine (zeros (Z.to_nat 5120) 0x80200000) 0 [].

Lemma ex_vm_wf : vm_wf 0 0x80000000 0x80400000 ex_vm ex_mapped.
Proof. split; [apply ex_layout|apply ppt_std|done|apply ex_added]. Qed.

Lemma gpa2hpa_misreads_witness :
  gpa2hpa 0 0x80000000 0x80400000 ex_vm 0x200123 ex_mapped = Some 0x24080123
  ∧ translate 0 0x80000000 0x80400000 ex_info 0x200123 ex_mapped = Some (0x90200123, 0x1f, 0%nat).
Proof.
  pose proof (gpa2hpa_misreads 0 0x80000000 0x80400000 ex_vm 0x200123 ex_mapped ex_vm_wf ltac:(cbn; lia)) as H.
  assert (translate 0 0x80000000 0x80400000 ex_info 0x200123 ex_mapped = Some (0x90200123, 0x1f, 0%nat)) as E
    by (by vm_compute).
  change (info (s2pt_mem_ops ex_vm)) with ex_info in H. rewrite E in H.
  destruct H as (h & Hh & -> & _); [lia|]. split; [exact Hh|exact E].
Defined.


Lemma ex_vms_wf : vm_wf 0 0x80000000 0x80400000 ex_vm (tables ex_machine)
  ∧ vm_wf 0 0x80000000 0x80400000 ex_vm2 (tables ex_machine).
Proof.
  split; split; [by apply ex_at_layout|apply ppt_std|done|apply zeros_tables; done..|
    by apply ex_at_layout|apply ppt_std|done|apply zeros_tables; done].
Qed.

Lemma ex_vms_disjoint l n : valid (ex_at 0x80205000) l n → foreign ex_info (slot (ex_at 0x80205000) l n).
Proof.
  intros [Hl Hn] l' n' [Hl' Hn']. unfold ex_info in *. rewrite ex_entries in Hn, Hn' by done.
  unfold slot. do 4 (destruct l as [|l]; [do 4 (destruct l' as [|l']; [cbn in *; lia|]); lia|]). lia.
Qed.

