(* ===== verification/IoReq.v ===== *)
(** * I/O requests (hypervisor/dm/io_req.c)

    How an MMIO access of a guest is served: by a handler registered in the
    hypervisor ([hv_emulate_mmio] and the table of [mem_io_node]s), by an
    asynchronous I/O descriptor ([add_asyncio], ...), or by the device model
    in the Service VM, through one slot per vCPU of a page shared with it
    ([acrn_insert_request], [dm_emulate_io_complete]).  With it are modelled
    the hypercalls of hypervisor/common/hypercall.c that set the page up and
    report a completion.

    The code that waits is split at the waits: [emulate_io] returns [EWait]
    where the vCPU blocks, and [emulate_io_resume] is the code after it. *)

From stdpp Require Import relations.
From S2P Require Import Prelude Bits LinkedList Timer Schedule SchedIorr Event Sbuf.

Definition ACRN_IO_REQUEST_MAX : nat := 16.
Definition ACRN_ASYNCIO_MAX : nat := 64.
Definition CONFIG_MAX_EMULATED_MMIO_REGIONS : nat := 32.

Definition ACRN_IOREQ_STATE_PENDING : Z := 0.
Definition ACRN_IOREQ_STATE_COMPLETE : Z := 1.
Definition ACRN_IOREQ_STATE_PROCESSING : Z := 2.
Definition ACRN_IOREQ_STATE_FREE : Z := 3.

Definition ACRN_IOREQ_TYPE_PORTIO : Z := 0.
Definition ACRN_IOREQ_TYPE_MMIO : Z := 1.
Definition ACRN_IOREQ_TYPE_PCICFG : Z := 2.
Definition ACRN_IOREQ_TYPE_WP : Z := 3.

Definition ACRN_IOREQ_DIR_READ : Z := 0.
Definition ACRN_IOREQ_DIR_WRITE : Z := 1.

Definition ACRN_ASYNCIO_PIO : Z := 1.
Definition ACRN_ASYNCIO_MMIO : Z := 2.

Definition EIO : Z := 5.
Definition ENODEV : Z := 19.

(** The 64 bytes of the union [reqs]: the fields of acrn_mmio_request, and the
    last four words of [data].  acrn_pio_request has the same layout with a
    32-bit value, the low half of [value]. *)
Record io_reqs := mk_reqs {
  direction : Z;
  reserved : Z;
  address : Z;
  req_size : Z;
  value : Z;
  data_hi : list Z;
}.
#[export] Instance eta_reqs : Eta io_reqs :=
  MkEta _ (rd mk_reqs <*> direction <*> reserved <*> address <*> req_size <*> value <*> data_hi).

Definition pio_value (r : io_reqs) : Z := u32 (value r).
Definition set_pio_value (v : Z) (r : io_reqs) : io_reqs :=
  r⟨value := (value r / 2 ^ 32) * 2 ^ 32 + u32 v⟩.

Record io_request := mk_io_request { io_type : Z; reqs : io_reqs }.
#[export] Instance eta_io_request : Eta io_request :=
  MkEta _ (rd mk_io_request <*> io_type <*> reqs).

(** The fields of a slot of the shared page that the hypervisor accesses. *)
Record acrn_io_request := mk_slot {
  type : Z;
  completion_polling : Z;
  slot_reqs : io_reqs;
  processed : Z;
}.
#[export] Instance eta_slot : Eta acrn_io_request :=
  MkEta _ (rd mk_slot <*> type <*> completion_polling <*> slot_reqs <*> processed).

Record asyncio_desc := mk_aio { aio_type : Z; aio_addr : Z; aio_fd : Z }.
#[export] Instance eta_aio : Eta asyncio_desc :=
  MkEta _ (rd mk_aio <*> aio_type <*> aio_addr <*> aio_fd).

Inductive vcpu_state := VCPU_OFFLINE | VCPU_INIT | VCPU_RUNNING | VCPU_ZOMBIE.
#[export] Instance vcpu_state_eq : EqDecision vcpu_state.
Proof. solve_decision. Defined.

Inductive load_order := SERVICE_VM | PRE_LAUNCHED_VM | POST_LAUNCHED_VM.
#[export] Instance load_order_eq : EqDecision load_order.
Proof. solve_decision. Defined.

(** The part of struct acrn_vcpu that I/O emulation uses; [ioreq_event] is
    [events[VCPU_EVENT_IOREQ]], [thread] the thread the vCPU runs on, and
    [longs] the memory of [arch.contexts] in 64-bit words, which starts with the
    saved registers of the normal world, the current context. *)
Record io_vcpu := mk_io_vcpu {
  vcpu_st : vcpu_state;
  req : io_request;
  longs : list Z;
  ioreq_event : sched_event;
  thread : tid;
}.
#[export] Instance eta_io_vcpu : Eta io_vcpu :=
  MkEta _ (rd mk_io_vcpu <*> vcpu_st <*> req <*> longs <*> ioreq_event <*> thread).

(** arch/riscv/guest/vcpu.c *)
Definition CPU_REG_IP : nat := 0.
Definition vcpu_get_gpreg (v : io_vcpu) (reg : nat) : Z := default 0 (longs v !! reg).
Definition vcpu_set_gpreg (v : io_vcpu) (reg : nat) (val : Z) : io_vcpu :=
  v⟨longs := <[reg := val]> (longs v)⟩.

(** arch/riscv/guest/instr_emul.c *)
Definition emulate_instruction (v : io_vcpu) : io_vcpu * Z :=
  let pc := vcpu_get_gpreg v CPU_REG_IP in
  (vcpu_set_gpreg v CPU_REG_IP (u64 (pc + 4)), 0).
Definition decode_instruction (v : io_vcpu) : Z := 8.

Section io.
(** [W] is the state of the devices emulated in the hypervisor. *)
Context {W : Type}.

(** A handler gets the request and its private data; it may change the request
    (the value of a read) and its device, and returns a status. *)
Definition hv_mem_io_handler_t : Type := io_request → Z → W → W * io_request * Z.

Record mem_io_node := mk_node {
  hold_lock : bool;
  read_write : option hv_mem_io_handler_t;
  handler_private_data : Z;
  range_start : Z;
  range_end : Z;
}.
#[export] Instance eta_node : Eta mem_io_node :=
  MkEta _ (rd mk_node <*> hold_lock <*> read_write <*> handler_private_data
             <*> range_start <*> range_end).

(** The zeroed node. *)
Definition free_node : mem_io_node := mk_node false None 0 0 0.

(** The part of struct acrn_vm that I/O emulation uses.  [is_sos] tells whether
    it is the VM [sos_vm] points to, and [vm_load_order] is the load order of
    its configuration; [io_shared_page] is
    [None] when the pointer is NULL; [aio_heap] holds the list nodes of
    [aio_desc] and [aiodesc_queue]; [upcalls] counts the interrupts raised in
    the Service VM. *)
Record io_vm := mk_io_vm {
  is_sos : bool;
  vm_load_order : load_order;
  vcpus : list io_vcpu;
  io_shared_page : option (list acrn_io_request);
  is_polling_ioreq : bool;
  asyncio_sbuf : option shared_buf;
  aio_desc : list asyncio_desc;
  aio_heap : Dll.heap;
  nr_emul_mmio_regions : Z;
  emul_mmio : list mem_io_node;
  world : W;
  upcalls : Z;
}.
#[export] Instance eta_io_vm : Eta io_vm :=
  MkEta _ (rd mk_io_vm <*> is_sos <*> vm_load_order <*> vcpus <*> io_shared_page <*> is_polling_ioreq
             <*> asyncio_sbuf <*> aio_desc <*> aio_heap <*> nr_emul_mmio_regions <*> emul_mmio
             <*> world <*> upcalls).

Implicit Types (vm : io_vm) (v : io_vcpu) (n : mem_io_node) (i idx : nat).

Definition is_service_vm vm : bool := is_sos vm.
Definition is_prelaunched_vm vm : bool := bool_decide (vm_load_order vm = PRE_LAUNCHED_VM).

Definition set_vcpu i v vm : io_vm := vm⟨vcpus := <[i := v]> (vcpus vm)⟩.

(** arch/riscv/guest/vio.c; the state of the Service VM's vCPU is not part of
    this model. *)
Definition arch_fire_hsm_interrupt vm : io_vm := vm⟨upcalls := upcalls vm + 1⟩.

(** ** The state of a slot *)

(** [None] where the slot number is outside the page. *)
Definition get_io_req_state vm i : option Z :=
  match io_shared_page vm with
  | None => Some (2 ^ 32 - 1)
  | Some p => s ← p !! i; Some (processed s)
  end.

Definition update_slot i (f : acrn_io_request → acrn_io_request) (p : list acrn_io_request)
    : option (list acrn_io_request) :=
  s ← p !! i; Some (<[i := f s]> p).

Definition set_io_req_state vm i (state : Z) : option io_vm :=
  match io_shared_page vm with
  | None => Some vm
  | Some p => p ← update_slot i (λ s, s⟨processed := state⟩) p; Some (vm⟨io_shared_page := Some p⟩)
  end.

Fixpoint set_states (ids : list nat) (state : Z) vm : option io_vm :=
  match ids with
  | [] => Some vm
  | i :: ids => vm ← set_io_req_state vm i state; set_states ids state vm
  end.

Definition reset_vm_ioreqs vm : option io_vm :=
  set_states (seq 0 ACRN_IO_REQUEST_MAX) ACRN_IOREQ_STATE_FREE vm.

Definition has_complete_ioreq vm i : option bool :=
  s ← get_io_req_state vm i; Some (s =? ACRN_IOREQ_STATE_COMPLETE).

(** ** MMIO handlers *)

Definition mmio_default_access_handler : hv_mem_io_handler_t := λ r _ w,
  let m := reqs r in
  if direction m =? ACRN_IOREQ_DIR_READ then
    let m := if req_size m =? 1 then m⟨value := 0xFF⟩
             else if req_size m =? 2 then m⟨value := 0xFFFF⟩
             else if req_size m =? 4 then m⟨value := 0xFFFFFFFF⟩
             else if req_size m =? 8 then m⟨value := 0xFFFFFFFFFFFFFFFF⟩
             else m in
    (w, r⟨reqs := m⟩, 0)
  else (w, r, 0).

(** The loop of hv_emulate_mmio from index [idx]: the node that serves the
    access, [inr false] when the access straddles the border of a node,
    [inr true] when no node overlaps it. *)
Fixpoint mmio_scan (fuel idx : nat) (nodes : list mem_io_node) (nr addr size : Z)
    : option (mem_io_node + bool) :=
  if Z.of_nat idx <=? nr then
    match fuel with
    | O => None
    | S fuel =>
        n ← nodes !! idx;
        match read_write n with
        | None => mmio_scan fuel (S idx) nodes nr addr size
        | Some _ =>
            let base := range_start n in
            let end_ := range_end n in
            if (u64 (addr + size) <=? base) || (end_ <=? addr)
            then mmio_scan fuel (S idx) nodes nr addr size
            else if (base <=? addr) && (u64 (addr + size) <=? end_) then Some (inl n)
            else Some (inr false)
        end
    end
  else Some (inr true).

(** The call through [read_write], and the status when it is NULL. *)
Definition call_handler vm (r : io_request) (h : option hv_mem_io_handler_t) (priv : Z)
    : io_vm * io_request * Z :=
  match h with
  | Some h => let '(w, r, status) := h r priv (world vm) in (vm⟨world := w⟩, r, status)
  | None => (vm, r, - ENODEV)
  end.

Definition default_handler vm : option hv_mem_io_handler_t :=
  if is_service_vm vm || is_prelaunched_vm vm then Some mmio_default_access_handler else None.

Definition hv_emulate_mmio vm (r : io_request) : option (io_vm * io_request * Z) :=
  f ← mmio_scan (S (length (emul_mmio vm))) 0 (emul_mmio vm) (nr_emul_mmio_regions vm)
        (address (reqs r)) (req_size (reqs r));
  Some match f with
       | inl n => call_handler vm r (read_write n) (handler_private_data n)
       | inr false => (vm, r, - EIO)
       | inr true => call_handler vm r (default_handler vm) 0
       end.

(** The first node with the given range. *)
Fixpoint find_match_mmio_node (nodes : list mem_io_node) (start end_ : Z) : option nat :=
  match nodes with
  | [] => None
  | n :: nodes =>
      if (range_start n =? start) && (range_end n =? end_) then Some O
      else i ← find_match_mmio_node nodes start end_; Some (S i)
  end.

Definition find_free_mmio_node vm : io_vm * option nat :=
  match find_match_mmio_node (emul_mmio vm) 0 0 with
  | Some idx =>
      (if nr_emul_mmio_regions vm <? Z.of_nat idx
       then vm⟨nr_emul_mmio_regions := u16 (Z.of_nat idx)⟩ else vm, Some idx)
  | None => (vm, None)
  end.

Definition register_mmio_emulation_handler vm (h : option hv_mem_io_handler_t)
    (start end_ priv : Z) (hold : bool) : io_vm :=
  if bool_decide (is_Some h) && (start <? end_) then
    let '(vm, found) := find_free_mmio_node vm in
    match found with
    | Some idx =>
        vm⟨emul_mmio := <[idx := mk_node hold h priv start end_]> (emul_mmio vm)⟩
    | None => vm
    end
  else vm.

Definition unregister_mmio_emulation_handler vm (start end_ : Z) : io_vm :=
  match find_match_mmio_node (emul_mmio vm) start end_ with
  | Some idx => vm⟨emul_mmio := <[idx := free_node]> (emul_mmio vm)⟩
  | None => vm
  end.

Definition deinit_emul_io vm : io_vm :=
  vm⟨emul_mmio := replicate (length (emul_mmio vm)) free_node⟩.

(** ** Asynchronous I/O *)

(** The list nodes: of descriptor [i], and of the queue. No node is at NULL. *)
Definition aio_node i : ptr := Z.of_nat i + 1.
Definition aiodesc_queue : ptr := Z.of_nat ACRN_ASYNCIO_MAX + 1.

Fixpoint find_aio (ds : list asyncio_desc) (p : asyncio_desc → bool) : option nat :=
  match ds with
  | [] => None
  | d :: ds => if p d then Some O else i ← find_aio ds p; Some (S i)
  end.

Definition add_asyncio vm (ty addr fd : Z) : option (io_vm * Z) :=
  if negb (addr =? 0) then
    match find_aio (aio_desc vm) (λ d, (aio_addr d =? 0) && (aio_fd d =? 0)) with
    | Some i =>
        h ← Dll.INIT_LIST_HEAD (aio_node i) (aio_heap vm);
        h ← Dll.list_add (aio_node i) aiodesc_queue h;
        Some (vm⟨aio_desc := <[i := mk_aio ty addr fd]> (aio_desc vm)⟩⟨aio_heap := h⟩, 0)
    | None => Some (vm, -1)
    end
  else Some (vm, -1).

Definition remove_asyncio vm (ty addr fd : Z) : option (io_vm * Z) :=
  if negb (addr =? 0) then
    match find_aio (aio_desc vm)
            (λ d, (aio_type d =? ty) && (aio_addr d =? addr) && (aio_fd d =? fd)) with
    | Some i =>
        h ← Dll.list_del_init (aio_node i) (aio_heap vm);
        Some (vm⟨aio_desc := <[i := mk_aio 0 0 0]> (aio_desc vm)⟩⟨aio_heap := h⟩, 0)
    | None => Some (vm, -1)
    end
  else Some (vm, -1).

(** The buffer [sb] and its magic number were read from the Service VM. *)
Definition SBUF_MAGIC : Z := 0x5aa57aa71aa13aa3.

Definition init_asyncio vm (sb : option (Z * shared_buf)) : option (io_vm * Z) :=
  match sb with
  | Some (magic, sb) =>
      if magic =? SBUF_MAGIC then
        h ← Dll.INIT_LIST_HEAD aiodesc_queue (aio_heap vm);
        Some (vm⟨asyncio_sbuf := Some sb⟩⟨aio_heap := h⟩, 0)
      else Some (vm, -1)
  | None => Some (vm, -1)
  end.

(** The search over the queue: the descriptor of the list node, if it matches.
    [fuel] bounds the nodes visited. *)
Fixpoint aio_search (fuel : nat) (pos : ptr) vm (ty addr : Z) : option (option asyncio_desc) :=
  if decide (pos = aiodesc_queue) then Some None
  else match fuel with
       | O => None
       | S fuel =>
           d ← aio_desc vm !! Z.to_nat (pos - 1);
           if (aio_addr d =? addr) && (aio_type d =? ty) then Some (Some d)
           else nx ← Dll.load_next (aio_heap vm) pos; aio_search fuel nx vm ty addr
       end.

Definition get_asyncio_desc vm (r : io_request) : option (option asyncio_desc) :=
  match asyncio_sbuf vm with
  | None => Some None
  | Some _ =>
      let '(addr, ty) :=
        if io_type r =? ACRN_IOREQ_TYPE_PORTIO then (address (reqs r), ACRN_ASYNCIO_PIO)
        else if io_type r =? ACRN_IOREQ_TYPE_MMIO then (address (reqs r), ACRN_ASYNCIO_MMIO)
        else (0, 0) in
      if negb (addr =? 0) then
        first ← Dll.load_next (aio_heap vm) aiodesc_queue;
        aio_search (S ACRN_ASYNCIO_MAX) first vm ty addr
      else Some None
  end.

(** The eight bytes of a 64-bit word in memory. *)
Fixpoint le_bytes (n : nat) (x : Z) : list Z :=
  match n with
  | O => []
  | S n => u8 x :: le_bytes n (x / 2 ^ 8)
  end.

(** One round of the loop of acrn_insert_asyncio: [None] of the status when
    the ring is full, and the code yields and tries again. *)
Definition acrn_insert_asyncio vm (fd : Z) : option (io_vm * option Z) :=
  match asyncio_sbuf vm with
  | None => Some (vm, Some (- ENODEV))
  | Some sb =>
      '(sb, n) ← sbuf_put (le_bytes 8 fd) sb;
      let vm := vm⟨asyncio_sbuf := Some sb⟩ in
      if n =? 0 then Some (vm, None) else Some (arch_fire_hsm_interrupt vm, Some 0)
  end.

(** ** Requests to the device model *)

(** Waiting for an event, without the scheduler: [wait_enter] takes the event
    and [wait_test] is the test of the loop, [false] when the thread goes to
    sleep. *)
Definition wait_test (ev : sched_event) : sched_event * bool :=
  if negb (set ev) && bool_decide (is_Some (waiting_thread ev)) then (ev, false)
  else (ev⟨set := false⟩⟨waiting_thread := None⟩, true).
Definition wait_enter (t : tid) (ev : sched_event) : option (sched_event * bool) :=
  match waiting_thread ev with
  | Some _ => None
  | None => Some (wait_test (ev⟨waiting_thread := Some t⟩))
  end.
Definition post (ev : sched_event) : sched_event := ev⟨set := true⟩.

(** Where a vCPU is after a call: past it with a status, or inside
    acrn_insert_request, or in the loop of acrn_insert_asyncio. *)
Inductive emu := EDone (status : Z) | EWait | ERetry (fd : Z).

(** acrn_insert_request up to the wait. In event mode an event that is already
    set makes wait_event return at once. *)
Definition acrn_insert_request vm i (r : io_request) : option (io_vm * emu) :=
  st ← get_io_req_state vm i;
  match io_shared_page vm with
  | Some p =>
      if st =? ACRN_IOREQ_STATE_FREE then
        p ← update_slot i (λ s,
              let s := s⟨type := io_type r⟩⟨slot_reqs := reqs r⟩ in
              if is_polling_ioreq vm then s⟨completion_polling := 1⟩ else s) p;
        let vm := vm⟨io_shared_page := Some p⟩ in
        vm ← set_io_req_state vm i ACRN_IOREQ_STATE_PENDING;
        let vm := arch_fire_hsm_interrupt vm in
        if is_polling_ioreq vm then Some (vm, EWait)
        else
          v ← vcpus vm !! i;
          '(ev, b) ← wait_enter (thread v) (ioreq_event v);
          let vm := set_vcpu i (v⟨ioreq_event := ev⟩) vm in
          Some (vm, if (b : bool) then EDone 0 else EWait)
      else Some (vm, EDone (- EINVAL))
  | None => Some (vm, EDone (- EINVAL))
  end.

(** The loop of the wait, each time the vCPU runs again: [true] when the wait
    is over. *)
Definition insert_request_poll vm i : option (io_vm * bool) :=
  if is_polling_ioreq vm then b ← has_complete_ioreq vm i; Some (vm, b)
  else
    v ← vcpus vm !! i;
    let '(ev, b) := wait_test (ioreq_event v) in
    Some (set_vcpu i (v⟨ioreq_event := ev⟩) vm, b).

(** [io_req] is [&vcpu->req] or NULL. *)
Definition complete_ioreq vm i (has_req : bool) : option io_vm :=
  p ← io_shared_page vm;
  s ← p !! i;
  v ← vcpus vm !! i;
  let r := req v in
  let r := if has_req then
             if io_type r =? ACRN_IOREQ_TYPE_PORTIO
             then r⟨reqs := set_pio_value (pio_value (slot_reqs s)) (reqs r)⟩
             else if io_type r =? ACRN_IOREQ_TYPE_MMIO
             then r⟨reqs := (reqs r)⟨value := value (slot_reqs s)⟩⟩
             else r
           else r in
  p ← update_slot i (λ s, s⟨processed := ACRN_IOREQ_STATE_FREE⟩) p;
  Some (set_vcpu i (v⟨req := r⟩) (vm⟨io_shared_page := Some p⟩)).

Definition emulate_mmio_complete vm i (r : io_request) : option io_vm :=
  if direction (reqs r) =? ACRN_IOREQ_DIR_READ then
    v ← vcpus vm !! i;
    Some (set_vcpu i (emulate_instruction v).1 vm)
  else Some vm.

(** arch/riscv/guest/vio.c: only a message, port I/O does not exist. *)
Definition emulate_pio_complete vm i (r : io_request) : option io_vm := Some vm.

Definition dm_emulate_pio_complete vm i : option io_vm :=
  vm ← complete_ioreq vm i true;
  v ← vcpus vm !! i;
  emulate_pio_complete vm i (req v).

Definition dm_emulate_mmio_complete vm i : option io_vm :=
  vm ← complete_ioreq vm i true;
  v ← vcpus vm !! i;
  emulate_mmio_complete vm i (req v).

Definition dm_emulate_io_complete vm i : option io_vm :=
  st ← get_io_req_state vm i;
  if st =? ACRN_IOREQ_STATE_COMPLETE then
    v ← vcpus vm !! i;
    if decide (vcpu_st v = VCPU_ZOMBIE) then complete_ioreq vm i false
    else if io_type (req v) =? ACRN_IOREQ_TYPE_MMIO then dm_emulate_mmio_complete vm i
    else if (io_type (req v) =? ACRN_IOREQ_TYPE_PORTIO) || (io_type (req v) =? ACRN_IOREQ_TYPE_PCICFG)
    then dm_emulate_pio_complete vm i
    else complete_ioreq vm i false
  else Some vm.

(** ** Emulation of an access *)

Definition hv_emulate_pio vm (r : io_request) : io_vm * io_request * Z := (vm, r, -1).

(** The first half of emulate_io: the handlers of the hypervisor. The request
    is [&vcpu->req], as in the exit handlers. *)
Definition hv_emulate vm i : option (io_vm * Z) :=
  v ← vcpus vm !! i;
  let store := λ vm r, v ← vcpus vm !! i; Some (set_vcpu i (v⟨req := r⟩) vm) in
  if io_type (req v) =? ACRN_IOREQ_TYPE_PORTIO then
    let '(vm, r, status) := hv_emulate_pio vm (req v) in
    vm ← store vm r;
    if status =? 0 then vm ← emulate_pio_complete vm i r; Some (vm, status) else Some (vm, status)
  else if (io_type (req v) =? ACRN_IOREQ_TYPE_MMIO) || (io_type (req v) =? ACRN_IOREQ_TYPE_WP) then
    '(vm, r, status) ← hv_emulate_mmio vm (req v);
    vm ← store vm r;
    if status =? 0 then vm ← emulate_mmio_complete vm i r; Some (vm, status) else Some (vm, status)
  else Some (vm, - EINVAL).

(** After acrn_insert_request returned [status]. *)
Definition insert_done vm i (status : Z) : option (io_vm * emu) :=
  if status =? 0 then vm ← dm_emulate_io_complete vm i; Some (vm, EDone status)
  else Some (vm, EDone status).

Definition insert_asyncio vm (fd : Z) : option (io_vm * emu) :=
  '(vm, status) ← acrn_insert_asyncio vm fd;
  Some (vm, match status with Some st => EDone st | None => ERetry fd end).

Definition emulate_io vm i : option (io_vm * emu) :=
  '(vm, status) ← hv_emulate vm i;
  if (status =? - ENODEV) && bool_decide (vm_load_order vm = POST_LAUNCHED_VM) then
    v ← vcpus vm !! i;
    d ← get_asyncio_desc vm (req v);
    match d with
    | Some d => insert_asyncio vm (aio_fd d)
    | None =>
        '(vm, e) ← acrn_insert_request vm i (req v);
        match e with
        | EDone status => insert_done vm i status
        | _ => Some (vm, e)
        end
    end
  else Some (vm, EDone status).

(** The vCPU runs again inside emulate_io. *)
Definition emulate_io_resume vm i (e : emu) : option (io_vm * emu) :=
  match e with
  | EDone _ => Some (vm, e)
  | EWait =>
      '(vm, b) ← insert_request_poll vm i;
      if (b : bool) then insert_done vm i 0 else Some (vm, EWait)
  | ERetry fd => insert_asyncio vm fd
  end.

(** ** Hypercalls of the Service VM *)

(** hcall_set_ioreq_buffer after the address of the page was read and
    translated: [hpa] is the page, or [None] when it is not mapped. [created]
    is is_created_vm. *)
Definition hcall_set_ioreq_buffer vm (created : bool) (hpa : option (list acrn_io_request))
    : option (io_vm * Z) :=
  if created then
    match hpa with
    | None => Some (vm⟨io_shared_page := None⟩, -1)
    | Some p =>
        vm ← set_states (seq 0 ACRN_IO_REQUEST_MAX) ACRN_IOREQ_STATE_FREE
               (vm⟨io_shared_page := Some p⟩);
        Some (vm, 0)
    end
  else Some (vm, -1).

(** [severity] and [poweroff] are is_severity_pass and is_poweroff_vm of the
    target; the vCPUs of the model are the created ones. *)
Definition hcall_notify_ioreq_finish vm (severity poweroff : bool) (param2 : Z)
    : option (io_vm * Z) :=
  let vcpu_id := u16 param2 in
  if severity && negb poweroff && bool_decide (is_Some (io_shared_page vm)) then
    if Z.of_nat (length (vcpus vm)) <=? vcpu_id then Some (vm, -1)
    else
      v ← vcpus vm !! Z.to_nat vcpu_id;
      Some (if is_polling_ioreq vm then vm
            else set_vcpu (Z.to_nat vcpu_id) (v⟨ioreq_event := post (ioreq_event v)⟩) vm, 0)
  else Some (vm, -1).
End io.

(** The scheduler-free view of an event is what event.c does to it. *)
Section events.
Context {P D : Type} {ops : BitmapOps} (sched : acrn_scheduler P D) {rq : RunQueue sched}.

Lemma wait_check_test e ev s ev' s' b :
  wait_check sched e ev s = Some (ev', s', b) → wait_test ev = (ev', b).
Proof.
  unfold wait_check, wait_test. destruct (waiting_thread ev), (set ev); simpl;
    try by intros [= <- <- <-].
  destruct (sleep_thread _ _ _ _); simpl; [|done]. by intros [= <- <- <-].
Qed.

Lemma wait_begin_enter e ev s ev' s' b t : curr_obj s = Some t →
  wait_begin sched e ev s = Some (ev', s', b) → wait_enter t ev = Some (ev', b).
Proof.
  intros Hc. unfold wait_begin, wait_enter, sched_get_current. destruct (waiting_thread ev); [done|].
  rewrite Hc. intros H. by apply wait_check_test in H as ->.
Qed.

Lemma signal_event_post e ev s ev' s' :
  signal_event sched e ev s = Some (ev', s') → ev' = post ev.
Proof.
  unfold signal_event. simpl. destruct (waiting_thread ev); [|by intros [= <- _]].
  destruct (wake_thread _ _ _ _); simpl; [|done]. by intros [= <- _].
Qed.
End events.

(** ** The table of MMIO handlers *)

Section registry.
Context {W : Type}.
Implicit Types (vm : io_vm (W := W)) (n : mem_io_node (W := W)) (i : nat).

(** A node in use has a handler and a non-empty range; the others are zeroed. *)
Definition used n : Prop := is_Some (read_write n) ∧ 0 ≤ range_start n < range_end n.

Record mmio_wf vm : Prop := {
  mw_len : length (emul_mmio vm) = CONFIG_MAX_EMULATED_MMIO_REGIONS;
  mw_nr : 0 ≤ nr_emul_mmio_regions vm < Z.of_nat CONFIG_MAX_EMULATED_MMIO_REGIONS;
  mw_node i n : emul_mmio vm !! i = Some n → used n ∨ n = free_node;
  mw_max i n : emul_mmio vm !! i = Some n → used n → Z.of_nat i ≤ nr_emul_mmio_regions vm;
}.

Definition registered vm n : Prop := used n ∧ n ∈ emul_mmio vm.

Definition range n : Z * Z := (range_start n, range_end n).
Definition disjoint_ranges n n' : Prop :=
  range_end n ≤ range_start n' ∨ range_end n' ≤ range_start n.
Definition inside addr size n : Prop := range_start n ≤ addr ∧ addr + size ≤ range_end n.
Definition overlaps addr size n : Prop := range_start n < addr + size ∧ addr < range_end n.

(** No two nodes share an address. *)
Definition exclusive vm : Prop := ∀ i j n n', emul_mmio vm !! i = Some n → emul_mmio vm !! j = Some n' →
  used n → used n' → i ≠ j → disjoint_ranges n n'.

Lemma used_not_free n : used n → range n ≠ (0, 0).
Proof. intros [_ ?] [= ? ?]. lia. Qed.

Lemma free_node_unused : ¬ used free_node.
Proof. by intros [[? ?] _]. Qed.

Lemma find_match_Some (nodes : list mem_io_node) s e i : find_match_mmio_node (W := W) nodes s e = Some i →
  ∃ n, nodes !! i = Some n ∧ range n = (s, e).
Proof.
  revert i. induction nodes as [|n nodes IH]; intros i; simpl; [done|].
  case_if; zreflect.
  - intros [= <-]. exists n. unfold range. split; [done|]. congruence.
  - destruct (find_match_mmio_node nodes s e) as [j|]; simpl; [|done]. intros [= <-]. by apply IH.
Qed.

Lemma find_match_None (nodes : list mem_io_node) s e n : find_match_mmio_node (W := W) nodes s e = None →
  n ∈ nodes → range n ≠ (s, e).
Proof.
  induction nodes as [|n' nodes IH]; simpl; [by intros _ ?%elem_of_nil|].
  case_if; [done|]. destruct (find_match_mmio_node nodes s e); [done|]. intros _.
  intros [->|Hn]%elem_of_cons [= <- <-].
  - by rewrite !Z.eqb_refl in E.
  - by apply (IH eq_refl Hn).
Qed.

(** The table after node [i] is overwritten. *)
Lemma insert_wf vm i n nr : mmio_wf vm → (i < CONFIG_MAX_EMULATED_MMIO_REGIONS)%nat →
  used n ∨ n = free_node → nr_emul_mmio_regions vm ≤ nr < Z.of_nat CONFIG_MAX_EMULATED_MMIO_REGIONS →
  (used n → Z.of_nat i ≤ nr) →
  mmio_wf (vm⟨emul_mmio := <[i := n]> (emul_mmio vm)⟩⟨nr_emul_mmio_regions := nr⟩).
Proof.
  intros [Hl Hn Hu Hm] Hi Hn' Hnr Hmax. split; simpl; [by rewrite length_insert|lia| |].
  - intros j n1 [(-> & <- & _) | [_ Hj]]%list_lookup_insert_Some; [done|eauto].
  - intros j n1 [(-> & <- & _) | [_ Hj]]%list_lookup_insert_Some; [done|].
    intros Hus. pose proof (Hm j n1 Hj Hus). lia.
Qed.

(** ** Registering and unregistering *)

(** What register_mmio_emulation_handler does when a node is free. *)
Lemma register_spec vm h s e priv hold : mmio_wf vm → is_Some h → 0 ≤ s < e →
  let new := mk_node hold h priv s e in
  let vm' := register_mmio_emulation_handler vm h s e priv hold in
  (∃ i nr, emul_mmio vm !! i = Some free_node ∧
     vm' = vm⟨emul_mmio := <[i := new]> (emul_mmio vm)⟩⟨nr_emul_mmio_regions := nr⟩ ∧
     nr_emul_mmio_regions vm ≤ nr < Z.of_nat CONFIG_MAX_EMULATED_MMIO_REGIONS ∧ Z.of_nat i ≤ nr)
  ∨ (vm' = vm ∧ ∀ n, n ∈ emul_mmio vm → used n).
Proof.
  intros [Hl Hn Hu Hm] Hh Hse new vm'. subst vm'. unfold register_mmio_emulation_handler.
  rewrite bool_decide_eq_true_2 by done. zcmp. unfold find_free_mmio_node.
  destruct (find_match_mmio_node _ 0 0) as [i|] eqn:Ef.
  - left. destruct (find_match_Some _ _ _ _ Ef) as (n & Hi & Hr).
    assert (n = free_node) as ->.
    { destruct (Hu i n Hi) as [Hus | ->]; [|done]. by apply used_not_free in Hus. }
    assert (Hib : (i < CONFIG_MAX_EMULATED_MMIO_REGIONS)%nat).
    { rewrite <- Hl. by eapply lookup_lt_Some. }
    unfold CONFIG_MAX_EMULATED_MMIO_REGIONS in *. case_if; zreflect.
    + exists i, (Z.of_nat i). unfold u16. rewrite Z.mod_small by lia. by destruct vm; split_and!; [done| |lia..].
    + exists i, (nr_emul_mmio_regions vm). by destruct vm; split_and!; [done| |simpl in *; lia..].
  - right. split; [done|]. intros n Hin. apply list_elem_of_lookup in Hin as [i Hi].
    destruct (Hu i n Hi) as [? | ->]; [done|].
    destruct (find_match_None _ _ _ free_node Ef); [|done]. by eapply list_elem_of_lookup_2.
Qed.

Lemma registered_insert vm i n old nr n' : emul_mmio vm !! i = Some old → ¬ used old →
  registered (vm⟨emul_mmio := <[i := n]> (emul_mmio vm)⟩⟨nr_emul_mmio_regions := nr⟩) n' ↔
  registered vm n' ∨ (n' = n ∧ used n).
Proof.
  intros Hi Hold. unfold registered. simpl. rewrite !list_elem_of_lookup.
  assert (Hib : (i < length (emul_mmio vm))%nat) by by eapply lookup_lt_Some. split.
  - intros [Hus [j [(-> & <- & _) | [_ Hj]]%list_lookup_insert_Some]]; [by right|left; eauto].
  - intros [[Hus [j Hj]] | [-> Hus]].
    + split; [done|]. exists j. rewrite list_lookup_insert_ne; [done|]. intros ->. by simplify_eq.
    + split; [done|]. exists i. by rewrite list_lookup_insert_eq.
Qed.

Lemma exclusive_insert vm i n nr : exclusive vm →
  (∀ j n', emul_mmio vm !! j = Some n' → used n' → j ≠ i → used n → disjoint_ranges n n') →
  exclusive (vm⟨emul_mmio := <[i := n]> (emul_mmio vm)⟩⟨nr_emul_mmio_regions := nr⟩).
Proof.
  intros Hx Hn j k a b. simpl. intros Ha Hb.
  apply list_lookup_insert_Some in Ha as [(-> & <- & _) | [Hja Ha]];
  apply list_lookup_insert_Some in Hb as [(-> & <- & _) | [Hkb Hb]]; intros Hua Hub Hjk.
  - done.
  - by apply (Hn k).
  - destruct (Hn j a Ha Hua ltac:(done) Hub); [by right|by left].
  - by apply (Hx j k).
Qed.

(** ** Dispatch *)

#[export] Instance inside_dec addr size n : Decision (inside addr size n).
Proof. unfold inside. apply _. Defined.
#[export] Instance overlaps_dec addr size n : Decision (overlaps addr size n).
Proof. unfold overlaps. apply _. Defined.

Lemma mmio_scan_spec (nodes : list mem_io_node) nr addr size fuel idx :
  (∀ i n, nodes !! i = Some n → used n ∨ n = free_node) → nr < Z.of_nat (length nodes) →
  0 < size → 0 ≤ addr → addr + size < 2 ^ 64 → (length nodes < fuel + idx)%nat →
  ∃ f, mmio_scan (W := W) fuel idx nodes nr addr size = Some f ∧
    match f with
    | inl n => n ∈ nodes ∧ used n ∧ inside addr size n
    | inr false => ∃ n, n ∈ nodes ∧ used n ∧ overlaps addr size n ∧ ¬ inside addr size n
    | inr true => ∀ i n, (idx ≤ i)%nat → Z.of_nat i ≤ nr → nodes !! i = Some n → used n →
        ¬ overlaps addr size n
    end.
Proof.
  intros Hn Hnr Hs Ha Hw. revert idx. induction fuel as [|fuel IH]; intros idx Hf; simpl.
  - exists (inr true). case_if; zreflect; [lia|]. split; [done|]. intros. lia.
  - case_if; zreflect; [|exists (inr true); split; [done|intros; lia]].
    destruct (lookup_lt_is_Some_2 nodes idx) as [n Hi]; [lia|]. rewrite Hi. cbn [mbind option_bind].
    assert (Hin : n ∈ nodes) by by eapply list_elem_of_lookup_2.
    destruct (IH (S idx) ltac:(lia)) as (f & Hf' & Hspec).
    assert (Hskip : (¬ used n ∨ ¬ overlaps addr size n) →
      ∃ f, mmio_scan fuel (S idx) nodes nr addr size = Some f ∧
      match f with
      | inl n => n ∈ nodes ∧ used n ∧ inside addr size n
      | inr false => ∃ n, n ∈ nodes ∧ used n ∧ overlaps addr size n ∧ ¬ inside addr size n
      | inr true => ∀ i n, (idx ≤ i)%nat → Z.of_nat i ≤ nr → nodes !! i = Some n → used n →
          ¬ overlaps addr size n
      end).
    { intros Hno. exists f. split; [done|]. destruct f as [?|[]]; [done| |done].
      intros i n' Hi1 Hi2 Hl Hu. destruct (decide (i = idx)) as [->|]; [|by apply (Hspec i); [lia|..]].
      simplify_eq. by destruct Hno. }
    destruct (Hn idx n Hi) as [Hu | ->]; [|by apply Hskip; left; apply free_node_unused].
    pose proof Hu as [[h Hh] Hr]. rewrite Hh. rewrite u64_id by (unfold word; lia).
    unfold inside, overlaps in *. case_if; zreflect.
    + apply Hskip. right. apply orb_true_iff in E0 as [E0|E0]; zreflect; lia.
    + case_if; zreflect.
      * exists (inl n). split; [done|]. split_and!; [done|done|lia..].
      * exists (inr false). split; [done|]. exists n. split_and!; [done|done|lia..|].
        apply andb_false_iff in E0 as [E0|E0]; zreflect; lia.
Qed.

(** The dispatch on a set of regions: the handler of the region the access
    falls into, an error when it crosses the border of a region, the default
    elsewhere. *)
Definition spec_dispatch (R : list mem_io_node) vm (r : io_request) : io_vm * io_request * Z :=
  let m := reqs r in
  match list_find (inside (address m) (req_size m)) R with
  | Some (_, n) => call_handler vm r (read_write n) (handler_private_data n)
  | None =>
      if decide (Exists (overlaps (address m) (req_size m)) R) then (vm, r, - EIO)
      else call_handler vm r (default_handler vm) 0
  end.

(** [vm] has exactly the handlers [R]. *)
Record mmio_rep (R : list mem_io_node) vm : Prop := {
  mr_wf : mmio_wf vm;
  mr_excl : exclusive vm;
  mr_reg n : registered vm n ↔ n ∈ R;
}.

(** A region the access is inside of is the only one it overlaps. *)
Lemma inside_unique vm addr size n n' : exclusive vm → 0 < size → registered vm n → registered vm n' →
  inside addr size n → overlaps addr size n' → n' = n.
Proof.
  intros Hx Hs [Hu [i Hi]%list_elem_of_lookup] [Hu' [j Hj]%list_elem_of_lookup] Hin Hov.
  destruct (decide (i = j)) as [->|Hij]; [by simplify_eq|]. exfalso.
  unfold inside, overlaps in *. destruct (Hx i j n n'); [done..|lia|lia].
Qed.

Lemma inside_overlaps addr size n : 0 < size → inside addr size n → overlaps addr size n.
Proof. unfold inside, overlaps. lia. Qed.

Lemma mmio_dispatch_spec R vm r : mmio_rep R vm → 0 < req_size (reqs r) → 0 ≤ address (reqs r) →
  address (reqs r) + req_size (reqs r) < 2 ^ 64 →
  hv_emulate_mmio vm r = Some (spec_dispatch R vm r).
Proof.
  intros [[Hl Hnr Hn Hm] Hx HR] Hs Ha Hw. unfold hv_emulate_mmio, spec_dispatch.
  destruct (mmio_scan_spec (emul_mmio vm) (nr_emul_mmio_regions vm) (address (reqs r))
    (req_size (reqs r)) (S (length (emul_mmio vm))) 0) as (f & -> & Hf); [done|lia|done..|lia|].
  cbn [mbind option_bind]. f_equal.
  destruct (list_find _ R) as [[k n]|] eqn:Ef.
  - apply list_find_Some in Ef as (Hk & Hin & _).
    assert (Hrn : registered vm n) by (apply HR; by eapply list_elem_of_lookup_2).
    destruct f as [n'|[]].
    + destruct Hf as (Hn' & Hu' & Hi'). rewrite (inside_unique vm (address (reqs r))
        (req_size (reqs r)) n n'); [done..|by split|done|by apply inside_overlaps].
    + destruct Hrn as [Hu [i Hi]%list_elem_of_lookup]. exfalso.
      by apply (Hf i n); [lia|by eapply Hm|done|done|apply inside_overlaps].
    + destruct Hf as (n' & Hn' & Hu' & Ho' & Hni'). exfalso. apply Hni'.
      by rewrite (inside_unique vm (address (reqs r)) (req_size (reqs r)) n n').
  - apply list_find_None in Ef. rewrite Forall_forall in Ef. destruct f as [n'|[]].
    + destruct Hf as (Hn' & Hu' & Hi'). exfalso. apply (Ef n'); [|done]. by apply HR.
    + rewrite decide_False; [done|]. rewrite Exists_exists. intros (n & Hin & Ho).
      apply HR in Hin as [Hu [i Hi]%list_elem_of_lookup]. by apply (Hf i n); [lia|by eapply Hm|..].
    + destruct Hf as (n' & Hn' & Hu' & Ho' & _). rewrite decide_True; [done|].
      apply Exists_exists. exists n'. split; [|done]. by apply HR.
Qed.

(** ** Runs *)

Inductive mmio_op :=
  | MRegister (h : option (hv_mem_io_handler_t (W := W))) (s e priv : Z) (hold : bool)
  | MUnregister (s e : Z)
  | MDeinit.

Definition mmio_exec (o : mmio_op) vm : io_vm :=
  match o with
  | MRegister h s e priv hold => register_mmio_emulation_handler vm h s e priv hold
  | MUnregister s e => unregister_mmio_emulation_handler vm s e
  | MDeinit => deinit_emul_io vm
  end.

Definition spec_exec (o : mmio_op) (R : list mem_io_node) : list mem_io_node :=
  match o with
  | MRegister h s e priv hold => mk_node hold h priv s e :: R
  | MUnregister s e => filter (λ n, range n ≠ (s, e)) R
  | MDeinit => []
  end.

(** A registration has a handler, a new range, and finds a free node. *)
Definition mmio_ok (o : mmio_op) (R : list mem_io_node) : Prop :=
  match o with
  | MRegister h s e priv hold =>
      is_Some h ∧ 0 ≤ s < e ∧ (length R < CONFIG_MAX_EMULATED_MMIO_REGIONS)%nat
      ∧ Forall (disjoint_ranges (mk_node hold h priv s e)) R
  | MUnregister _ _ | MDeinit => True
  end.

Fixpoint mmio_ok_all (os : list mmio_op) (R : list mem_io_node) : Prop :=
  match os with
  | [] => True
  | o :: os => mmio_ok o R ∧ mmio_ok_all os (spec_exec o R)
  end.

Definition mmio_run (os : list mmio_op) vm : io_vm := foldl (λ vm o, mmio_exec o vm) vm os.
Definition spec_run (os : list mmio_op) (R : list mem_io_node) : list mem_io_node :=
  foldl (λ R o, spec_exec o R) R os.

(** A full table has as many regions as nodes. *)
Lemma full_table R vm : mmio_rep R vm → (∀ n, n ∈ emul_mmio vm → used n) →
  (CONFIG_MAX_EMULATED_MMIO_REGIONS ≤ length R)%nat.
Proof.
  intros [[Hl _ _ _] Hx HR] Hall. rewrite <- Hl. apply submseteq_length, NoDup_submseteq.
  - apply NoDup_alt. intros i j n Hi Hj. destruct (decide (i = j)) as [|Hij]; [done|].
    assert (Hu : used n) by by eapply Hall, list_elem_of_lookup_2.
    destruct (Hx i j n n Hi Hj Hu Hu Hij); destruct Hu; lia.
  - intros n Hn. apply HR. split; [by apply Hall|done].
Qed.

Lemma register_rep R vm h s e priv hold : mmio_rep R vm → mmio_ok (MRegister h s e priv hold) R →
  mmio_rep (mk_node hold h priv s e :: R) (register_mmio_emulation_handler vm h s e priv hold).
Proof.
  intros Hrep (Hh & Hse & Hlen & Hdis). pose proof Hrep as [Hwf Hx HR].
  destruct (register_spec vm h s e priv hold Hwf Hh Hse) as [(i & nr & Hi & -> & Hnr & Hin)|[_ Hall]].
  2: { pose proof (full_table R vm Hrep Hall). lia. }
  assert (Hu : used (mk_node hold h priv s e)) by by split.
  assert (Hib : (i < length (emul_mmio vm))%nat) by by eapply lookup_lt_Some.
  rewrite (mw_len _ Hwf) in Hib. split.
  - apply insert_wf; [done|done|by left|done|done].
  - apply exclusive_insert; [done|]. intros j n' Hj Hu' _ _. rewrite Forall_forall in Hdis.
    apply Hdis, HR. split; [done|]. by eapply list_elem_of_lookup_2.
  - intros n. rewrite registered_insert by (exact Hi || apply free_node_unused).
    rewrite HR, elem_of_cons. naive_solver.
Qed.

Lemma unregister_rep R vm s e : mmio_rep R vm →
  mmio_rep (filter (λ n, range n ≠ (s, e)) R) (unregister_mmio_emulation_handler vm s e).
Proof.
  intros [Hwf Hx HR]. unfold unregister_mmio_emulation_handler.
  destruct (find_match_mmio_node _ s e) as [i|] eqn:Ef.
  - destruct (find_match_Some _ _ _ _ Ef) as (old & Hi & Hr).
    assert (Hib : (i < length (emul_mmio vm))%nat) by by eapply lookup_lt_Some.
    replace (vm⟨emul_mmio := <[i:=free_node]> (emul_mmio vm)⟩) with
      (vm⟨emul_mmio := <[i:=free_node]> (emul_mmio vm)⟩⟨nr_emul_mmio_regions := nr_emul_mmio_regions vm⟩)
      by by destruct vm.
    split.
    + apply insert_wf; [done|by rewrite <- (mw_len _ Hwf)|by right| |by intros ?%free_node_unused].
      pose proof (mw_nr _ Hwf). lia.
    + apply exclusive_insert; [done|]. by intros ? ? ? ? ? ?%free_node_unused.
    + intros n. rewrite list_elem_of_filter, <- HR. unfold registered. simpl.
      rewrite !list_elem_of_lookup. split.
      * intros [Hu [j [(-> & <- & _) | [Hj Hn]]%list_lookup_insert_Some]]; [by destruct free_node_unused|].
        split; [|eauto]. intros Hrn. rewrite <- Hrn in Hr. unfold range in Hr.
        assert (Huo : used old).
        { destruct (mw_node _ Hwf i old Hi) as [|Hof]; [done|]. rewrite Hof in Hr.
          apply used_not_free in Hu. by destruct Hu. }
        destruct (Hx i j old n Hi Hn Huo Hu Hj); injection Hr; destruct Hu; lia.
      * intros (Hrn & Hu & j & Hj). split; [done|]. exists j.
        rewrite list_lookup_insert_ne; [done|]. intros ->. by simplify_eq.
  - split; [done..|]. intros n. rewrite list_elem_of_filter, HR. split; [|by intros [_ ?]].
    intros Hn. split; [|done]. apply HR in Hn as [_ Hn]. by eapply find_match_None.
Qed.

Lemma deinit_rep R vm : mmio_rep R vm → mmio_rep [] (deinit_emul_io vm).
Proof.
  intros [[Hl Hnr Hn Hm] Hx HR]. split.
  - split; simpl; [by rewrite length_replicate|done| |].
    + intros i n [-> _]%lookup_replicate. by right.
    + by intros i n [-> _]%lookup_replicate ?%free_node_unused.
  - intros i j n n' Hi _ Hu. apply lookup_replicate in Hi as [-> _]. by apply free_node_unused in Hu.
  - intros n. split; [|by intros ?%elem_of_nil]. intros [Hu Hin]. simpl in Hin.
    apply elem_of_replicate in Hin as [-> _]. by apply free_node_unused in Hu.
Qed.

Lemma mmio_run_rep os : ∀ R vm, mmio_rep R vm → mmio_ok_all os R →
  mmio_rep (spec_run os R) (mmio_run os vm).
Proof.
  induction os as [|o os IH]; intros R vm Hrep Hok; [done|]. destruct Hok as [Ho Hos].
  apply (IH (spec_exec o R) (mmio_exec o vm)); [|done]. destruct o; simpl.
  - by apply register_rep.
  - by apply unregister_rep.
  - by eapply deinit_rep.
Qed.
End registry.

(** ** The queue of asynchronous I/O descriptors *)

#[export] Instance asyncio_desc_eq : EqDecision asyncio_desc.
Proof. solve_decision. Defined.

Section asyncio.
Context {W : Type}.
Import Dll DllFacts.
Implicit Types (vm : io_vm (W := W)) (d : asyncio_desc) (q : list nat).

Definition no_desc : asyncio_desc := mk_aio 0 0 0.
Definition desc_at vm i : asyncio_desc := default no_desc (aio_desc vm !! i).

(** The queue links the descriptors [q], which are the ones in use. *)
Record aio_rep q vm : Prop := {
  ar_len : length (aio_desc vm) = ACRN_ASYNCIO_MAX;
  ar_range i : i ∈ q → (i < ACRN_ASYNCIO_MAX)%nat;
  ar_dll : dll (aio_heap vm) aiodesc_queue (aio_node <$> q);
  ar_has i : (i < ACRN_ASYNCIO_MAX)%nat → has (aio_heap vm) (aio_node i);
  ar_used i : i ∈ q → aio_addr (desc_at vm i) ≠ 0;
  ar_free i : i ∉ q → desc_at vm i = no_desc;
}.

(** The descriptors themselves, the latest first. *)
Definition descs q vm : list asyncio_desc := desc_at vm <$> q.

Lemma aio_node_inj : Inj (=) (=) aio_node.
Proof. intros i j. unfold aio_node. lia. Qed.

Lemma node_not_queue q vm i : aio_rep q vm → (i < ACRN_ASYNCIO_MAX)%nat → i ∉ q →
  aio_node i ∉ aiodesc_queue :: (aio_node <$> q).
Proof.
  intros Hr Hi Hq [Hx|Hx]%elem_of_cons.
  - unfold aio_node, aiodesc_queue in Hx. lia.
  - apply list_elem_of_fmap in Hx as (j & Hj%aio_node_inj & Hjq). by subst.
Qed.

Lemma aio_nodup q vm : aio_rep q vm → NoDup q.
Proof. intros [_ _ [Hnd _ _] _ _ _]. inv Hnd. by eapply NoDup_fmap_1. Qed.

Lemma aio_length q vm : aio_rep q vm → (length q ≤ ACRN_ASYNCIO_MAX)%nat.
Proof.
  intros Hr. transitivity (length (seq 0 ACRN_ASYNCIO_MAX)); [|by rewrite length_seq].
  apply submseteq_length, NoDup_submseteq.
  - by eapply aio_nodup.
  - intros i Hi. apply elem_of_seq. pose proof (ar_range _ _ Hr i Hi). lia.
Qed.

Lemma find_aio_spec (ds : list asyncio_desc) p :
  match find_aio ds p with
  | Some i => ∃ d, ds !! i = Some d ∧ p d = true
  | None => ∀ d, d ∈ ds → p d = false
  end.
Proof.
  induction ds as [|d ds IH]; simpl; [by intros ? ?%elem_of_nil|].
  destruct (p d) eqn:E; simpl; [eauto|].
  destruct (find_aio ds p) as [i|]; simpl; [done|]. intros d' [->|?]%elem_of_cons; auto.
Qed.

Lemma desc_at_insert vm h i d j : (i < length (aio_desc vm))%nat →
  desc_at (vm⟨aio_desc := <[i := d]> (aio_desc vm)⟩⟨aio_heap := h⟩) j
  = if decide (j = i) then d else desc_at vm j.
Proof.
  intros Hi. unfold desc_at. simpl. case_decide as E.
  - subst. by rewrite list_lookup_insert_eq.
  - by rewrite list_lookup_insert_ne.
Qed.

Lemma descs_frame q vm h i d : aio_rep q vm → (i < ACRN_ASYNCIO_MAX)%nat → i ∉ q →
  descs q (vm⟨aio_desc := <[i := d]> (aio_desc vm)⟩⟨aio_heap := h⟩) = descs q vm.
Proof.
  intros Hr Hi Hq. unfold descs. apply list_fmap_ext. intros k j Hj.
  rewrite desc_at_insert by by rewrite (ar_len _ _ Hr).
  rewrite decide_False; [done|]. intros ->. by apply list_elem_of_lookup_2 in Hj.
Qed.

(** A free descriptor is linked in front. *)
Lemma add_link q vm i ty addr fd : aio_rep q vm → (i < ACRN_ASYNCIO_MAX)%nat → i ∉ q → addr ≠ 0 →
  ∃ h1 h2, INIT_LIST_HEAD (aio_node i) (aio_heap vm) = Some h1
    ∧ list_add (aio_node i) aiodesc_queue h1 = Some h2
    ∧ aio_rep (i :: q) (vm⟨aio_desc := <[i := mk_aio ty addr fd]> (aio_desc vm)⟩⟨aio_heap := h2⟩).
Proof.
  intros Hr Hi Hq Ha. pose proof (node_not_queue _ _ _ Hr Hi Hq) as Hnq.
  destruct (INIT_LIST_HEAD_effect (aio_heap vm) (aio_node i)) as (h1 & -> & _ & Hfr & Hh1);
    [by apply (ar_has _ _ Hr)|].
  assert (Hd1 : dll h1 aiodesc_queue (aio_node <$> q)).
  { eapply dll_frame; [|apply Hr]. intros x Hx. apply Hfr. by intros ->. }
  destruct (dll_insert h1 aiodesc_queue [] (aio_node <$> q) (aio_node i)) as (h2 & E & Hd2 & _ & Hh2);
    [done|done|by apply Hh1, Hr|].
  exists h1, h2. split_and!; [done| |].
  { unfold list_add. rewrite (proj1 (dll_head _ _ _ Hd1)). exact E. }
  split; simpl.
  - rewrite length_insert. apply Hr.
  - intros j [->|Hj]%elem_of_cons; [done|by apply Hr].
  - done.
  - intros j Hj. by apply Hh2, Hh1, Hr.
  - intros j Hj. rewrite desc_at_insert by by rewrite (ar_len _ _ Hr). case_decide; [done|].
    apply Hr. by apply elem_of_cons in Hj as [->|].
  - intros j [Hji Hjq]%not_elem_of_cons. rewrite desc_at_insert by by rewrite (ar_len _ _ Hr).
    rewrite decide_False by done. by apply Hr.
Qed.

(** A descriptor in use is unlinked. *)
Lemma remove_link q1 q2 vm i : aio_rep (q1 ++ i :: q2) vm →
  ∃ h', list_del_init (aio_node i) (aio_heap vm) = Some h'
    ∧ aio_rep (q1 ++ q2) (vm⟨aio_desc := <[i := no_desc]> (aio_desc vm)⟩⟨aio_heap := h'⟩).
Proof.
  intros Hr. pose proof (aio_nodup _ _ Hr) as Hnd.
  assert (Hi : (i < ACRN_ASYNCIO_MAX)%nat) by (apply Hr; set_solver).
  pose proof (ar_dll _ _ Hr) as Hd. rewrite fmap_app, fmap_cons in Hd.
  unfold list_del_init. destruct (dll_at _ _ _ _ _ Hd) as [-> ->]. cbn [mbind option_bind].
  destruct (dll_remove _ _ _ _ _ Hd) as (h1 & -> & Hd1 & _ & Hh1). cbn [mbind option_bind].
  destruct (INIT_LIST_HEAD_effect h1 (aio_node i)) as (h2 & -> & _ & Hfr & Hh2); [by apply Hh1, Hr|].
  apply NoDup_app in Hnd as (Hn1 & Hn2 & Hn3). inv Hn3.
  assert (Hni : i ∉ q1 ++ q2) by set_solver.
  exists h2. split; [done|]. split; simpl.
  - rewrite length_insert. apply Hr.
  - intros j Hj. apply Hr. set_solver.
  - rewrite fmap_app. eapply dll_frame; [|exact Hd1]. intros x Hx. apply Hfr. intros ->.
    apply elem_of_cons in Hx as [Hx|Hx]; [unfold aio_node, aiodesc_queue in Hx; lia|].
    rewrite <- fmap_app in Hx. apply list_elem_of_fmap in Hx as (j & Hj%aio_node_inj & Hjq). by subst.
  - intros j Hj. by apply Hh2, Hh1, Hr.
  - intros j Hj. rewrite desc_at_insert by by rewrite (ar_len _ _ Hr). rewrite decide_False by set_solver.
    apply Hr. set_solver.
  - intros j Hj. rewrite desc_at_insert by by rewrite (ar_len _ _ Hr). case_decide; [done|].
    apply Hr. set_solver.
Qed.

(** ** Assigning, deassigning and looking up *)

Definition spec_add (ty addr fd : Z) (D : list asyncio_desc) : list asyncio_desc * Z :=
  if decide (addr ≠ 0 ∧ (length D < ACRN_ASYNCIO_MAX)%nat) then (mk_aio ty addr fd :: D, 0)
  else (D, -1).
Definition spec_remove (ty addr fd : Z) (D : list asyncio_desc) : list asyncio_desc * Z :=
  if decide (addr ≠ 0 ∧ mk_aio ty addr fd ∈ D) then (filter (.≠ mk_aio ty addr fd) D, 0)
  else (D, -1).
Definition spec_lookup (ty addr : Z) (D : list asyncio_desc) : option asyncio_desc :=
  snd <$> list_find (λ d, aio_addr d = addr ∧ aio_type d = ty) D.

Lemma desc_at_lookup vm i d : aio_desc vm !! i = Some d → desc_at vm i = d.
Proof. unfold desc_at. by intros ->. Qed.

(** A descriptor is free exactly when the queue does not have it. *)
Lemma find_free q vm : aio_rep q vm →
  match find_aio (aio_desc vm) (λ d, (aio_addr d =? 0) && (aio_fd d =? 0)) with
  | Some i => (i < ACRN_ASYNCIO_MAX)%nat ∧ i ∉ q
  | None => (ACRN_ASYNCIO_MAX ≤ length q)%nat
  end.
Proof.
  intros Hr. pose proof (find_aio_spec (aio_desc vm) (λ d, (aio_addr d =? 0) && (aio_fd d =? 0))) as Hf.
  destruct (find_aio _ _) as [i|].
  - destruct Hf as (d & Hd & Hp). zreflect. split.
    + rewrite <- (ar_len _ _ Hr). by eapply lookup_lt_Some.
    + intros Hi. apply (ar_used _ _ Hr) in Hi. by rewrite (desc_at_lookup _ _ _ Hd) in Hi.
  - transitivity (length (seq 0 ACRN_ASYNCIO_MAX)); [by rewrite length_seq|].
    apply submseteq_length, NoDup_submseteq; [apply NoDup_seq|]. intros i Hi%elem_of_seq.
    destruct (decide (i ∈ q)) as [|Hq]; [done|]. exfalso.
    destruct (lookup_lt_is_Some_2 (aio_desc vm) i) as [d Hd]; [rewrite (ar_len _ _ Hr); lia|].
    pose proof (Hf d ltac:(by eapply list_elem_of_lookup_2)) as Hp.
    apply (ar_free _ _ Hr) in Hq. rewrite (desc_at_lookup _ _ _ Hd) in Hq. by subst.
Qed.

Lemma add_refines q vm ty addr fd : aio_rep q vm →
  ∃ q' vm', add_asyncio vm ty addr fd = Some (vm', (spec_add ty addr fd (descs q vm)).2)
    ∧ aio_rep q' vm' ∧ descs q' vm' = (spec_add ty addr fd (descs q vm)).1
    ∧ asyncio_sbuf vm' = asyncio_sbuf vm.
Proof.
  intros Hr. unfold add_asyncio, spec_add, descs. rewrite length_fmap.
  destruct (decide (addr = 0)) as [->|Ha]; zcmp.
  { by exists q, vm. }
  pose proof (find_free _ _ Hr) as Hf. destruct (find_aio _ _) as [i|].
  - destruct Hf as [Hi Hq]. rewrite decide_True.
    2: { split; [done|]. pose proof (aio_nodup _ _ Hr).
         apply (Nat.lt_le_trans _ (length (i :: q))); [simpl; lia|].
         transitivity (length (seq 0 ACRN_ASYNCIO_MAX)); [|by rewrite length_seq].
         apply submseteq_length, NoDup_submseteq; [by constructor|].
         intros j [->|Hj%(ar_range _ _ Hr)]%elem_of_cons; apply elem_of_seq; lia. }
    destruct (add_link q vm i ty addr fd Hr Hi Hq Ha) as (h1 & h2 & -> & E2 & Hr').
    cbn [mbind option_bind]. rewrite E2. cbn [mbind option_bind].
    eexists (i :: q), _. split_and!; [done|done| |done]. rewrite fmap_cons.
    rewrite desc_at_insert by by rewrite (ar_len _ _ Hr). rewrite decide_True by done.
    simpl. f_equal. by apply descs_frame.
  - rewrite decide_False by lia. eauto 6.
Qed.

(** With no two equal descriptors, removing the index removes the value. *)
Lemma remove_value vm q1 i q2 : NoDup (desc_at vm <$> (q1 ++ i :: q2)) →
  filter (.≠ desc_at vm i) (desc_at vm <$> (q1 ++ i :: q2)) = desc_at vm <$> (q1 ++ q2).
Proof.
  rewrite !fmap_app, fmap_cons. intros Hnd. apply NoDup_app in Hnd as (Hn1 & Hn2 & Hn3). inv Hn3.
  rewrite filter_app, filter_cons_False by tauto. f_equal.
  - apply filter_keeps_all. intros d Hd ->. apply (Hn2 _ Hd). set_solver.
  - apply filter_keeps_all. by intros d Hd ->.
Qed.

Lemma remove_refines q vm ty addr fd : aio_rep q vm → NoDup (descs q vm) →
  ∃ q' vm', remove_asyncio vm ty addr fd = Some (vm', (spec_remove ty addr fd (descs q vm)).2)
    ∧ aio_rep q' vm' ∧ descs q' vm' = (spec_remove ty addr fd (descs q vm)).1
    ∧ asyncio_sbuf vm' = asyncio_sbuf vm.
Proof.
  intros Hr Hnd. unfold remove_asyncio, spec_remove, descs in *.
  destruct (decide (addr = 0)) as [->|Ha]; zcmp.
  { by exists q, vm. }
  pose proof (find_aio_spec (aio_desc vm)
    (λ d, (aio_type d =? ty) && (aio_addr d =? addr) && (aio_fd d =? fd))) as Hf.
  destruct (find_aio _ _) as [i|].
  - destruct Hf as ([ty' addr' fd'] & Hd & Hp). simpl in Hp. zreflect. subst.
    pose proof (desc_at_lookup _ _ _ Hd) as Hda.
    assert (Hi : i ∈ q).
    { destruct (decide (i ∈ q)) as [|Hq%(ar_free _ _ Hr)]; [done|]. rewrite Hda in Hq.
      by injection Hq as -> -> ->. }
    rewrite decide_True. 2: { split; [done|]. rewrite <- Hda. by apply list_elem_of_fmap_2. }
    apply list_elem_of_split in Hi as (q1 & q2 & ->).
    destruct (remove_link q1 q2 vm i Hr) as (h' & -> & Hr'). cbn [mbind option_bind].
    eexists (q1 ++ q2), _. split_and!; [done|done| |done]. rewrite <- Hda.
    cbn [fst]. rewrite remove_value by done.
    apply list_fmap_ext. intros k j Hj. rewrite desc_at_insert.
    + rewrite decide_False; [done|]. intros ->. apply list_elem_of_lookup_2 in Hj.
      apply aio_nodup in Hr. apply NoDup_app in Hr as (_ & Hn2 & Hn3). inv Hn3. set_solver.
    + by eapply lookup_lt_Some.
  - rewrite decide_False; [eauto 6|]. intros [_ (i & Hi & Hq)%list_elem_of_fmap].
    assert (Hl : aio_desc vm !! i = Some (mk_aio ty addr fd)).
    { destruct (lookup_lt_is_Some_2 (aio_desc vm) i) as [d Hd].
      - rewrite (ar_len _ _ Hr). by apply Hr.
      - by rewrite Hd, Hi, (desc_at_lookup _ _ _ Hd). }
    apply list_elem_of_lookup_2, Hf in Hl. simpl in Hl. by rewrite !Z.eqb_refl in Hl.
Qed.

(** The search follows the queue. *)
Lemma aio_search_spec vm ty addr q2 : ∀ q1 fuel, aio_rep (q1 ++ q2) vm → (length q2 < fuel)%nat →
  aio_search fuel (path_first (aio_node <$> q2) aiodesc_queue) vm ty addr
  = Some (spec_lookup ty addr (descs q2 vm)).
Proof.
  induction q2 as [|i q2 IH]; intros q1 fuel Hr Hf; (destruct fuel as [|fuel]; [lia|]).
  - done.
  - simpl in Hf. simpl path_first. pose proof (ar_dll _ _ Hr) as Hd.
    rewrite fmap_app, fmap_cons in Hd.
    assert (Hi : (i < ACRN_ASYNCIO_MAX)%nat) by (apply Hr; set_solver).
    simpl. rewrite decide_False by (unfold aio_node, aiodesc_queue; lia).
    destruct (lookup_lt_is_Some_2 (aio_desc vm) i) as [d Hl]; [by rewrite (ar_len _ _ Hr)|].
    replace (Z.to_nat (aio_node i - 1)) with i by (unfold aio_node; lia). rewrite Hl.
    cbn [mbind option_bind]. unfold spec_lookup.
    rewrite (desc_at_lookup _ _ _ Hl). cbn [list_find].
    case_if; zreflect.
    + by rewrite decide_True by tauto.
    + rewrite decide_False.
      2: { intros [Ha Ht]. by rewrite Ha, Ht, !Z.eqb_refl in E. }
      destruct (dll_at _ _ _ _ _ Hd) as [_ ->]. cbn [mbind option_bind].
      rewrite (IH (q1 ++ [i])); [|by rewrite <- app_assoc|lia].
      unfold spec_lookup, descs. f_equal. by destruct (list_find _ _) as [[? ?]|].
Qed.

(** The kind of descriptor an access looks for. *)
Definition aio_kind (r : io_request) : option Z :=
  if io_type r =? ACRN_IOREQ_TYPE_PORTIO then Some ACRN_ASYNCIO_PIO
  else if io_type r =? ACRN_IOREQ_TYPE_MMIO then Some ACRN_ASYNCIO_MMIO else None.

Lemma get_asyncio_refines q vm r ty : aio_rep q vm → is_Some (asyncio_sbuf vm) → aio_kind r = Some ty →
  get_asyncio_desc vm r = Some (spec_lookup ty (address (reqs r)) (descs q vm)).
Proof.
  intros Hr [sb Hsb] Hk. unfold get_asyncio_desc. rewrite Hsb.
  replace (if io_type r =? ACRN_IOREQ_TYPE_PORTIO then _ else _) with (address (reqs r), ty)
    by (unfold aio_kind in Hk; repeat case_if; congruence).
  case_if; zreflect.
  - rewrite (proj1 (dll_head _ _ _ (ar_dll _ _ Hr))). cbn [mbind option_bind].
    apply (aio_search_spec vm ty _ q []); [done|]. pose proof (aio_length _ _ Hr). lia.
  - unfold spec_lookup. destruct (list_find _ _) as [[k d]|] eqn:El; [|done].
    apply list_find_Some in El as (Hl & [Had _] & _). exfalso.
    apply list_elem_of_lookup_2, list_elem_of_fmap in Hl as (i & -> & Hi).
    apply (ar_used _ _ Hr) in Hi. congruence.
Qed.

(** ** Runs *)

Inductive aio_op := AioAssign (ty addr fd : Z) | AioDeassign (ty addr fd : Z).

Definition aio_exec (o : aio_op) vm : option (io_vm * Z) :=
  match o with
  | AioAssign ty addr fd => add_asyncio vm ty addr fd
  | AioDeassign ty addr fd => remove_asyncio vm ty addr fd
  end.
Definition aio_spec (o : aio_op) (D : list asyncio_desc) : list asyncio_desc * Z :=
  match o with
  | AioAssign ty addr fd => spec_add ty addr fd D
  | AioDeassign ty addr fd => spec_remove ty addr fd D
  end.
(** The Service VM does not assign a descriptor twice. *)
Definition aio_ok (o : aio_op) (D : list asyncio_desc) : Prop :=
  match o with
  | AioAssign ty addr fd => mk_aio ty addr fd ∉ D
  | AioDeassign _ _ _ => True
  end.

Fixpoint aio_run (os : list aio_op) vm : option (io_vm * list Z) :=
  match os with
  | [] => Some (vm, [])
  | o :: os => '(vm, r) ← aio_exec o vm; '(vm, rs) ← aio_run os vm; Some (vm, r :: rs)
  end.
Fixpoint aio_spec_run (os : list aio_op) (D : list asyncio_desc) : list asyncio_desc * list Z :=
  match os with
  | [] => (D, [])
  | o :: os => let '(D, r) := aio_spec o D in let '(D, rs) := aio_spec_run os D in (D, r :: rs)
  end.
Fixpoint aio_ok_all (os : list aio_op) (D : list asyncio_desc) : Prop :=
  match os with
  | [] => True
  | o :: os => aio_ok o D ∧ aio_ok_all os (aio_spec o D).1
  end.

Lemma aio_spec_nodup o D : NoDup D → aio_ok o D → NoDup (aio_spec o D).1.
Proof.
  intros Hnd Hok. destruct o; simpl in *; unfold spec_add, spec_remove; case_decide; simpl; [|done| |done].
  - by constructor.
  - by apply NoDup_filter.
Qed.

Lemma aio_exec_refines q vm o : aio_rep q vm → NoDup (descs q vm) →
  ∃ q' vm', aio_exec o vm = Some (vm', (aio_spec o (descs q vm)).2)
    ∧ aio_rep q' vm' ∧ descs q' vm' = (aio_spec o (descs q vm)).1
    ∧ asyncio_sbuf vm' = asyncio_sbuf vm.
Proof. intros Hr Hnd. destruct o; [by apply add_refines|by apply remove_refines]. Qed.

Lemma aio_run_refines os : ∀ q vm, aio_rep q vm → NoDup (descs q vm) → aio_ok_all os (descs q vm) →
  ∃ q' vm', aio_run os vm = Some (vm', (aio_spec_run os (descs q vm)).2)
    ∧ aio_rep q' vm' ∧ descs q' vm' = (aio_spec_run os (descs q vm)).1
    ∧ asyncio_sbuf vm' = asyncio_sbuf vm.
Proof.
  induction os as [|o os IH]; intros q vm Hr Hnd Hok; [by exists q, vm|]. destruct Hok as [Ho Hok].
  destruct (aio_exec_refines q vm o Hr Hnd) as (q1 & vm1 & E1 & Hr1 & Hd1 & Hs1).
  pose proof (aio_spec_nodup o _ Hnd Ho) as Hnd1. rewrite <- Hd1 in Hnd1, Hok.
  destruct (IH q1 vm1 Hr1 Hnd1 Hok) as (q2 & vm2 & E2 & Hr2 & Hd2 & Hs2).
  exists q2, vm2. simpl. rewrite E1. cbn [mbind option_bind]. rewrite E2. cbn [mbind option_bind].
  rewrite Hd1 in *. destruct (aio_spec o (descs q vm)) as [D r]. simpl in *.
  destruct (aio_spec_run os D) as [D' rs]. simpl in *. split_and!; [done..|congruence].
Qed.
End asyncio.

(** ** The life of a request *)

Section protocol.
Context {W : Type}.
Implicit Types (vm : io_vm (W := W)) (v : io_vcpu) (s : acrn_io_request) (r : io_request) (i me : nat).

Definition slot vm i : option acrn_io_request := p ← io_shared_page vm; p !! i.

(** Nothing of vCPU [me] changes: its slot, its state, the mode of the VM. *)
Record same me vm vm' : Prop := {
  sm_slot : slot vm' me = slot vm me;
  sm_vcpu : vcpus vm' !! me = vcpus vm !! me;
  sm_poll : is_polling_ioreq vm' = is_polling_ioreq vm;
  sm_order : vm_load_order vm' = vm_load_order vm;
}.

#[export] Instance same_preorder me : PreOrder (same me).
Proof.
  split; [by intros vm; split|]. intros vm1 vm2 vm3 [] []. split; congruence.
Qed.

Lemma same_set_vcpu me i v vm : i ≠ me → same me vm (set_vcpu i v vm).
Proof. intros Hi. split; simpl; [done| |done..]. by apply list_lookup_insert_ne. Qed.

Lemma same_slot me i f p p' vm : i ≠ me → io_shared_page vm = Some p → update_slot i f p = Some p' →
  same me vm (vm⟨io_shared_page := Some p'⟩).
Proof.
  intros Hi Hp Hu. unfold update_slot in Hu. destruct (p !! i) as [s|]; [|done].
  injection Hu as <-. split; [|done..]. unfold slot. simpl. rewrite Hp. simpl.
  by apply list_lookup_insert_ne.
Qed.

Lemma same_state me i st vm vm' : i ≠ me → set_io_req_state vm i st = Some vm' → same me vm vm'.
Proof.
  intros Hi. unfold set_io_req_state. destruct (io_shared_page vm) as [p|] eqn:Hp; [|by intros [= <-]].
  destruct (update_slot i _ p) as [p'|] eqn:Hu; [|done]. intros [= <-]. by eapply same_slot.
Qed.

Lemma same_handler me vm r h priv : same me vm (call_handler vm r h priv).1.1.
Proof. destruct h as [h|]; simpl; [|done]. by destruct (h r priv (world vm)) as [[w r'] st]. Qed.

Lemma same_hv_mmio me vm r vm' r' st : hv_emulate_mmio vm r = Some (vm', r', st) → same me vm vm'.
Proof.
  unfold hv_emulate_mmio. destruct (mmio_scan _ _ _ _ _ _) as [[n|[]]|]; simpl; [| | |done].
  - intros [= E]. pose proof (same_handler me vm r (read_write n) (handler_private_data n)) as Hs.
    by rewrite E in Hs.
  - intros [= E]. pose proof (same_handler me vm r (default_handler vm) 0) as Hs. by rewrite E in Hs.
  - by intros [= <- _ _].
Qed.

(** What a handler of the hypervisor may change of vCPU [me] whose access it
    serves. *)
Lemma hv_emulate_frame vm me v vm' st : vcpus vm !! me = Some v → hv_emulate vm me = Some (vm', st) →
  ∃ r l', vcpus vm' !! me = Some (v⟨req := r⟩⟨longs := l'⟩) ∧ slot vm' me = slot vm me
    ∧ is_polling_ioreq vm' = is_polling_ioreq vm ∧ vm_load_order vm' = vm_load_order vm.
Proof.
  intros Hv. unfold hv_emulate. rewrite Hv. cbn [mbind option_bind].
  pose proof (lookup_lt_Some _ _ _ Hv) as Hlt.
  case_if.
  - simpl. rewrite Hv. simpl. intros [= <- <-]. exists (req v), (longs v). simpl.
    by rewrite list_lookup_insert_eq.
  - case_if; [|intros [= <- <-]; exists (req v), (longs v); by destruct v].
    destruct (hv_emulate_mmio vm (req v)) as [[[vm1 r1] st1]|] eqn:Eh; [|done].
    apply (same_hv_mmio me) in Eh as [Hs1 Hv1 Hp1 Ho1]. cbn [mbind option_bind].
    rewrite Hv1, Hv. cbn [mbind option_bind].
    assert (Hlt1 : (me < length (vcpus vm1))%nat) by (eapply lookup_lt_Some; by rewrite Hv1).
    unfold emulate_mmio_complete. repeat case_if; simpl.
    + rewrite list_lookup_insert_eq by done. simpl. intros [= <- <-]. simpl.
      rewrite list_insert_insert_eq, list_lookup_insert_eq by done. eauto 8.
    + intros [= <- <-]. simpl. rewrite list_lookup_insert_eq by done.
      exists r1, (longs v). by destruct v.
    + intros [= <- <-]. simpl. rewrite list_lookup_insert_eq by done.
      exists r1, (longs v). by destruct v.
Qed.

Lemma same_hv_emulate me i vm vm' st : i ≠ me → hv_emulate vm i = Some (vm', st) → same me vm vm'.
Proof.
  intros Hi. unfold hv_emulate. destruct (vcpus vm !! i) as [v|] eqn:Hv; [|done]. cbn [mbind option_bind].
  case_if.
  - simpl. rewrite Hv. simpl. intros [= <- <-]. by apply same_set_vcpu.
  - case_if; [|by intros [= <- <-]].
    destruct (hv_emulate_mmio vm (req v)) as [[[vm1 r1] st1]|] eqn:Eh; [|done].
    apply (same_hv_mmio me) in Eh. cbn [mbind option_bind].
    destruct (vcpus vm1 !! i) as [v1|]; [|done]. cbn [mbind option_bind].
    unfold emulate_mmio_complete. repeat case_if; simpl.
    + destruct (<[i := _]> _ !! i) as [v2|]; simpl; [|done]. intros [= <- <-]. etrans; [done|].
      etrans; [by apply (same_set_vcpu me i)|]. by apply same_set_vcpu.
    + intros [= <- <-]. etrans; [done|]. by apply same_set_vcpu.
    + intros [= <- <-]. etrans; [done|]. by apply same_set_vcpu.
Qed.

Lemma same_insert_asyncio me vm fd vm' e : insert_asyncio vm fd = Some (vm', e) → same me vm vm'.
Proof.
  unfold insert_asyncio, acrn_insert_asyncio. destruct (asyncio_sbuf vm) as [sb|]; simpl.
  - destruct (sbuf_put _ _) as [[sb' n]|]; simpl; [|done]. case_if; simpl; by intros [= <- _].
  - by intros [= <- _].
Qed.

Lemma same_insert_request me i vm r vm' e : i ≠ me → acrn_insert_request vm i r = Some (vm', e) →
  same me vm vm'.
Proof.
  intros Hi. unfold acrn_insert_request. destruct (get_io_req_state vm i) as [st|]; [|done].
  cbn [mbind option_bind]. destruct (io_shared_page vm) as [p|] eqn:Hp; [|by intros [= <- _]].
  case_if; [|by intros [= <- _]].
  destruct (update_slot i _ p) as [p1|] eqn:Hu; [|done]. cbn [mbind option_bind].
  eapply (same_slot me) in Hu; [|done..].
  destruct (set_io_req_state _ i _) as [vm1|] eqn:Es; [|done]. cbn [mbind option_bind].
  apply (same_state me) in Es; [|done].
  assert (Hs : same me vm (arch_fire_hsm_interrupt vm1)) by (etrans; [exact Hu|]; etrans; [exact Es|done]).
  case_if; [by intros [= <- _]|].
  destruct (vcpus _ !! i) as [v|]; [|done]. cbn [mbind option_bind].
  destruct (wait_enter _ _) as [[ev b]|]; [|done]. cbn [mbind option_bind].
  intros [= <- _]. etrans; [exact Hs|]. by apply same_set_vcpu.
Qed.

Lemma same_complete_ioreq me i b vm vm' : i ≠ me → complete_ioreq vm i b = Some vm' → same me vm vm'.
Proof.
  intros Hi. unfold complete_ioreq. destruct (io_shared_page vm) as [p|] eqn:Hp; [|done].
  cbn [mbind option_bind]. destruct (p !! i) as [s|]; [|done]. cbn [mbind option_bind].
  destruct (vcpus vm !! i) as [v|]; [|done]. cbn [mbind option_bind].
  destruct (update_slot i _ p) as [p1|] eqn:Hu; [|done]. cbn [mbind option_bind].
  intros [= <-]. etrans; [by eapply same_slot|]. by apply same_set_vcpu.
Qed.

Lemma same_mmio_complete me i r vm vm' : i ≠ me → emulate_mmio_complete vm i r = Some vm' → same me vm vm'.
Proof.
  intros Hi. unfold emulate_mmio_complete. case_if; [|by intros [= <-]].
  destruct (vcpus vm !! i); simpl; [|done]. intros [= <-]. by apply same_set_vcpu.
Qed.

Lemma same_io_complete me i vm vm' : i ≠ me → dm_emulate_io_complete vm i = Some vm' → same me vm vm'.
Proof.
  intros Hi. unfold dm_emulate_io_complete. destruct (get_io_req_state vm i) as [st|]; [|done].
  cbn [mbind option_bind]. case_if; [|by intros [= <-]].
  destruct (vcpus vm !! i) as [v|]; [|done]. cbn [mbind option_bind].
  case_decide; [by apply same_complete_ioreq|].
  unfold dm_emulate_mmio_complete, dm_emulate_pio_complete, emulate_pio_complete.
  case_if; [|case_if; [|by apply same_complete_ioreq]].
  - destruct (complete_ioreq vm i true) as [vm1|] eqn:Ec; [|done]. cbn [mbind option_bind].
    destruct (vcpus vm1 !! i) as [v1|]; [|done]. cbn [mbind option_bind]. intros Em.
    etrans; [by eapply same_complete_ioreq|by eapply same_mmio_complete].
  - destruct (complete_ioreq vm i true) as [vm1|] eqn:Ec; [|done]. cbn [mbind option_bind].
    destruct (vcpus vm1 !! i) as [v1|]; [|done]. intros [= <-]. by eapply same_complete_ioreq.
Qed.

Lemma same_insert_done me i st vm vm' e : i ≠ me → insert_done vm i st = Some (vm', e) → same me vm vm'.
Proof.
  intros Hi. unfold insert_done. case_if; [|by intros [= <- _]].
  destruct (dm_emulate_io_complete vm i) as [vm1|] eqn:E1; [|done]. intros [= <- _].
  by eapply same_io_complete.
Qed.

Lemma same_emulate_io me i vm vm' e : i ≠ me → emulate_io vm i = Some (vm', e) → same me vm vm'.
Proof.
  intros Hi. unfold emulate_io. destruct (hv_emulate vm i) as [[vm1 st]|] eqn:E1; [|done].
  apply (same_hv_emulate me) in E1; [|done]. cbn [mbind option_bind]. case_if; [|by intros [= <- _]].
  destruct (vcpus vm1 !! i) as [v|]; [|done]. cbn [mbind option_bind].
  destruct (get_asyncio_desc vm1 (req v)) as [[d|]|]; [| |done]; cbn [mbind option_bind].
  - intros E2. etrans; [exact E1|by eapply same_insert_asyncio].
  - destruct (acrn_insert_request vm1 i (req v)) as [[vm2 e2]|] eqn:E2; [|done].
    apply (same_insert_request me) in E2; [|done]. cbn [mbind option_bind].
    destruct e2; [|by intros [= <- _]; etrans..].
    intros E3. etrans; [exact E1|]. etrans; [exact E2|]. by eapply same_insert_done.
Qed.

Lemma same_resume me i vm e vm' e' : i ≠ me → emulate_io_resume vm i e = Some (vm', e') → same me vm vm'.
Proof.
  intros Hi. destruct e; simpl; [by intros [= <- _]| |by apply same_insert_asyncio].
  unfold insert_request_poll. case_if.
  - destruct (has_complete_ioreq vm i) as [b|]; [|done]. cbn [mbind option_bind].
    destruct b; [by apply same_insert_done|by intros [= <- _]].
  - destruct (vcpus vm !! i) as [v|]; [|done]. cbn [mbind option_bind].
    destruct (wait_test _) as [ev b]. cbn [mbind option_bind]. destruct b.
    + intros E1. etrans; [by apply (same_set_vcpu me i)|by eapply same_insert_done].
    + intros [= <- _]. by apply same_set_vcpu.
Qed.

(** ** The slot of the vCPU itself *)

(** The request after the device model answered [x]. *)
Definition answer r (x : Z) : io_request :=
  if io_type r =? ACRN_IOREQ_TYPE_PORTIO then r⟨reqs := set_pio_value (u32 x) (reqs r)⟩
  else if io_type r =? ACRN_IOREQ_TYPE_MMIO then r⟨reqs := (reqs r)⟨value := x⟩⟩
  else r.

Lemma slot_Some vm i s : slot vm i = Some s ↔ ∃ p, io_shared_page vm = Some p ∧ p !! i = Some s.
Proof.
  unfold slot. destruct (io_shared_page vm) as [p|]; simpl; [|naive_solver]. naive_solver.
Qed.

Lemma slot_page vm i s p : io_shared_page vm = Some p → p !! i = Some s → slot vm i = Some s.
Proof. intros Hp Hs. apply slot_Some. eauto. Qed.

Lemma slot_state vm i s : slot vm i = Some s → get_io_req_state vm i = Some (processed s).
Proof. intros (p & Hp & Hs)%slot_Some. unfold get_io_req_state. by rewrite Hp, Hs. Qed.

Lemma update_slot_Some i f (p : list acrn_io_request) s : p !! i = Some s →
  update_slot i f p = Some (<[i := f s]> p) ∧ <[i := f s]> p !! i = Some (f s).
Proof.
  intros Hs. unfold update_slot. rewrite Hs. simpl. split; [done|].
  by eapply list_lookup_insert_eq, lookup_lt_Some.
Qed.

(** The slot as acrn_insert_request leaves it. *)
Definition filled (polling : bool) r s : acrn_io_request :=
  mk_slot (io_type r) (if polling then 1 else completion_polling s) (reqs r) ACRN_IOREQ_STATE_PENDING.

(** A request is put in a free slot, and the vCPU waits. *)
Lemma insert_request_free vm me v s r : vcpus vm !! me = Some v → slot vm me = Some s →
  processed s = ACRN_IOREQ_STATE_FREE → ioreq_event v = init_event →
  ∃ vm', acrn_insert_request vm me r = Some (vm', EWait)
    ∧ slot vm' me = Some (filled (is_polling_ioreq vm) r s)
    ∧ vcpus vm' !! me = Some (if is_polling_ioreq vm then v
                              else v⟨ioreq_event := mk_event false (Some (thread v))⟩)
    ∧ is_polling_ioreq vm' = is_polling_ioreq vm ∧ vm_load_order vm' = vm_load_order vm.
Proof.
  intros Hv Hs Hfree Hev. unfold acrn_insert_request. rewrite (slot_state _ _ _ Hs), Hfree.
  apply slot_Some in Hs as (p & Hp & Hs). rewrite Hp. cbn [mbind option_bind].
  rewrite Z.eqb_refl.
  destruct (update_slot_Some me (λ s, if is_polling_ioreq vm
     then s⟨type := io_type r⟩⟨slot_reqs := reqs r⟩⟨completion_polling := 1⟩
     else s⟨type := io_type r⟩⟨slot_reqs := reqs r⟩) p s Hs) as [-> Hs1].
  cbn [mbind option_bind]. unfold set_io_req_state. cbn [io_shared_page upd].
  destruct (update_slot_Some me (λ s, s⟨processed := ACRN_IOREQ_STATE_PENDING⟩) _ _ Hs1) as [E2 Hs2].
  simpl in E2. simpl. rewrite E2. cbn [mbind option_bind]. simpl.
  destruct (is_polling_ioreq vm) eqn:Epoll.
  - eexists. split; [done|]. split; [by eapply slot_page|]. by rewrite <- Epoll.
  - rewrite Hv. cbn [mbind option_bind]. rewrite Hev. cbn [wait_enter waiting_thread init_event].
    eexists. split; [reflexivity|]. split; [by eapply slot_page|]. simpl. rewrite list_lookup_insert_eq.
    + by rewrite Epoll.
    + by eapply lookup_lt_Some.
Qed.

(** The answer is taken from a completed slot, which becomes free. *)
Lemma io_complete_done vm me v s : vcpus vm !! me = Some v → slot vm me = Some s →
  processed s = ACRN_IOREQ_STATE_COMPLETE → vcpu_st v ≠ VCPU_ZOMBIE →
  ∃ vm' l', dm_emulate_io_complete vm me = Some vm'
    ∧ slot vm' me = Some (s⟨processed := ACRN_IOREQ_STATE_FREE⟩)
    ∧ vcpus vm' !! me = Some (v⟨req := answer (req v) (value (slot_reqs s))⟩⟨longs := l'⟩)
    ∧ is_polling_ioreq vm' = is_polling_ioreq vm ∧ vm_load_order vm' = vm_load_order vm.
Proof.
  intros Hv Hs Hc Hz. unfold dm_emulate_io_complete. rewrite (slot_state _ _ _ Hs), Hc.
  cbn [mbind option_bind]. rewrite Z.eqb_refl, Hv. cbn [mbind option_bind]. rewrite decide_False by done.
  apply slot_Some in Hs as (p & Hp & Hs).
  destruct (update_slot_Some me (λ s, s⟨processed := ACRN_IOREQ_STATE_FREE⟩) p s Hs) as [Eu Hs1].
  assert (Hlt : (me < length (vcpus vm))%nat) by by eapply lookup_lt_Some.
  unfold dm_emulate_mmio_complete, dm_emulate_pio_complete, emulate_pio_complete, emulate_mmio_complete,
    complete_ioreq, answer, pio_value. rewrite Hp. cbn [mbind option_bind]. rewrite Hs.
  cbn [mbind option_bind]. rewrite Hv, Eu. cbn [mbind option_bind].
  assert (Hl : ∀ x, <[me := x]> (vcpus vm) !! me = Some x) by (intros; by apply list_lookup_insert_eq).
  destruct (io_type (req v) =? ACRN_IOREQ_TYPE_MMIO) eqn:Em; simpl.
  - rewrite Hl. cbn [mbind option_bind]. apply Z.eqb_eq in Em as Em'. rewrite Em'. simpl.
    case_if; cbn [mbind option_bind].
    + eexists _, _. split; [reflexivity|]. split; [by eapply slot_page|].
      simpl. rewrite list_insert_insert_eq, Hl. done.
    + eexists _, (longs v). split; [reflexivity|]. split; [by eapply slot_page|]. simpl. rewrite Hl.
      by destruct v.
  - destruct (io_type (req v) =? ACRN_IOREQ_TYPE_PORTIO); simpl;
      [|destruct (io_type (req v) =? ACRN_IOREQ_TYPE_PCICFG); simpl]; rewrite ?Hl; cbn [mbind option_bind];
      eexists _, (longs v); (split; [reflexivity|]); (split; [by eapply slot_page|]); simpl; rewrite Hl;
      by destruct v.
Qed.

(** ** The system

    A vCPU [me], the other vCPUs, and the Service VM.  The Service VM follows
    the protocol documented in acrn_common.h: it takes a pending request,
    answers it, marks it complete, and then notifies the hypervisor once. *)

(** [p_pc] is where vCPU [me] is; [EDone _] is outside emulate_io.  [p_owed]
    counts the completions the Service VM has not yet notified. The last three
    are the history: the requests put in the slot, the answers of the Service
    VM, and the requests with the answers as the vCPU got them. *)
Record psys := mk_psys {
  p_vm : io_vm (W := W);
  p_pc : emu;
  p_owed : nat;
  p_issued : list io_request;
  p_served : list Z;
  p_returned : list io_request;
}.

Definition outside (e : emu) : bool := match e with EDone _ => true | _ => false end.

(** The Service VM writes slot [i]. *)
Definition service_write i (f : acrn_io_request → acrn_io_request) vm : option io_vm :=
  p ← io_shared_page vm; p ← update_slot i f p; Some (vm⟨io_shared_page := Some p⟩).

(** What the rest of the system does: other vCPUs and their slots, the table
    of handlers, the descriptors. *)
Inductive other_step me vm : io_vm → Prop :=
  | other_access i v r vm' e : i ≠ me → vcpus vm !! i = Some v →
      emulate_io (set_vcpu i (v⟨req := r⟩) vm) i = Some (vm', e) → other_step me vm vm'
  | other_resume i e vm' e' : i ≠ me → emulate_io_resume vm i e = Some (vm', e') → other_step me vm vm'
  | other_notify n sev off vm' st : Z.to_nat (u16 n) ≠ me →
      hcall_notify_ioreq_finish vm sev off n = Some (vm', st) → other_step me vm vm'
  | other_slot i f vm' : i ≠ me → service_write i f vm = Some vm' → other_step me vm vm'
  | other_mmio o : other_step me vm (mmio_exec o vm)
  | other_aio o vm' st : aio_exec o vm = Some (vm', st) → other_step me vm vm'.

Definition take_slot s : acrn_io_request := s⟨processed := ACRN_IOREQ_STATE_PROCESSING⟩.
Definition finish_slot (q : io_reqs) s : acrn_io_request :=
  s⟨slot_reqs := q⟩⟨processed := ACRN_IOREQ_STATE_COMPLETE⟩.

Inductive pstep me : psys → psys → Prop :=
  | p_access vm e0 k iss ser ret v r vm' e v' : outside e0 = true →
      vcpus vm !! me = Some v → emulate_io (set_vcpu me (v⟨req := r⟩) vm) me = Some (vm', e) →
      vcpus vm' !! me = Some v' →
      pstep me (mk_psys vm e0 k iss ser ret)
        (mk_psys vm' e k (match e with EWait => iss ++ [req v'] | _ => iss end) ser ret)
  | p_resume vm e0 k iss ser ret vm' e v' : outside e0 = false →
      emulate_io_resume vm me e0 = Some (vm', e) → vcpus vm' !! me = Some v' →
      pstep me (mk_psys vm e0 k iss ser ret)
        (mk_psys vm' e k iss ser (match e0, e with EWait, EDone _ => ret ++ [req v'] | _, _ => ret end))
  | p_take vm e k iss ser ret s vm' : slot vm me = Some s → processed s = ACRN_IOREQ_STATE_PENDING →
      service_write me take_slot vm = Some vm' →
      pstep me (mk_psys vm e k iss ser ret) (mk_psys vm' e k iss ser ret)
  | p_finish vm e k iss ser ret s q vm' : slot vm me = Some s → processed s = ACRN_IOREQ_STATE_PROCESSING →
      service_write me (finish_slot q) vm = Some vm' →
      pstep me (mk_psys vm e k iss ser ret) (mk_psys vm' e (S k) iss (ser ++ [value q]) ret)
  | p_notify vm e k iss ser ret n vm' st : Z.to_nat (u16 n) = me →
      hcall_notify_ioreq_finish vm true false n = Some (vm', st) →
      pstep me (mk_psys vm e (S k) iss ser ret) (mk_psys vm' e k iss ser ret)
  | p_other vm e k iss ser ret vm' : other_step me vm vm' →
      pstep me (mk_psys vm e k iss ser ret) (mk_psys vm' e k iss ser ret).

(** The slot while the vCPU waits for [r]: the request is in it until the
    answer is; the answer is in it with the notification on its way. *)
Definition waiting_slot (pol : bool) v s (k : nat) (nser : nat) (ser : list Z) : Prop :=
  (processed s = ACRN_IOREQ_STATE_PENDING ∨ processed s = ACRN_IOREQ_STATE_PROCESSING)
    ∧ type s = io_type (req v) ∧ slot_reqs s = reqs (req v) ∧ length ser = nser
    ∧ (pol = false → k = O ∧ set (ioreq_event v) = false)
  ∨ processed s = ACRN_IOREQ_STATE_COMPLETE ∧ last ser = Some (value (slot_reqs s))
    ∧ length ser = S nser
    ∧ (pol = false → (k + if set (ioreq_event v) then 1 else 0)%nat = 1%nat).

Record pinv me (x : psys) v s : Prop := {
  pi_vcpu : vcpus (p_vm x) !! me = Some v;
  pi_slot : slot (p_vm x) me = Some s;
  pi_alive : vcpu_st v ≠ VCPU_ZOMBIE;
  pi_returned : p_returned x = take (length (p_returned x)) (zip_with answer (p_issued x) (p_served x));
  pi_pc : match p_pc x with
    | EWait =>
        last (p_issued x) = Some (req v) ∧ length (p_issued x) = S (length (p_returned x))
        ∧ waiting_thread (ioreq_event v) = (if is_polling_ioreq (p_vm x) then None else Some (thread v))
        ∧ (is_polling_ioreq (p_vm x) = true → set (ioreq_event v) = false)
        ∧ waiting_slot (is_polling_ioreq (p_vm x)) v s (p_owed x) (length (p_returned x)) (p_served x)
    | _ =>
        processed s = ACRN_IOREQ_STATE_FREE ∧ ioreq_event v = init_event
        ∧ length (p_issued x) = length (p_returned x) ∧ length (p_served x) = length (p_returned x)
        ∧ (is_polling_ioreq (p_vm x) = false → p_owed x = O)
    end;
}.

Lemma same_other me vm vm' : other_step me vm vm' → same me vm vm'.
Proof.
  intros [i v r vm1 e Hi Hv E|i e vm1 e' Hi E|n sev off vm1 st Hn E|i f vm1 Hi E|o|o vm1 st E].
  - etrans; [by apply (same_set_vcpu me i)|by eapply same_emulate_io].
  - by eapply same_resume.
  - unfold hcall_notify_ioreq_finish in E. case_if; [|by injection E as <- _]. case_if; [by injection E as <- _|].
    destruct (vcpus vm !! _); [|done]. injection E as <- _. case_if; [done|]. by apply same_set_vcpu.
  - unfold service_write in E. destruct (io_shared_page vm) as [p|] eqn:Hp; [|done]. cbn [mbind option_bind] in E.
    destruct (update_slot i f p) as [p'|] eqn:Hu; [|done]. injection E as <-. by eapply same_slot.
  - destruct o; simpl; [|unfold unregister_mmio_emulation_handler; by destruct (find_match_mmio_node _ _ _)|done].
    unfold register_mmio_emulation_handler, find_free_mmio_node.
    case_if; [|done]. destruct (find_match_mmio_node _ _ _); [|done]. by case_if.
  - destruct o; simpl in E; unfold add_asyncio, remove_asyncio in E.
    + case_if; [|by injection E as <- _]. destruct (find_aio _ _); [|by injection E as <- _].
      destruct (Dll.INIT_LIST_HEAD _ _); [|done]. cbn [mbind option_bind] in E.
      destruct (Dll.list_add _ _ _); [|done]. by injection E as <- _.
    + case_if; [|by injection E as <- _]. destruct (find_aio _ _); [|by injection E as <- _].
      destruct (Dll.list_del_init _ _); [|done]. by injection E as <- _.
Qed.

Lemma service_write_slot vm i s f vm' : slot vm i = Some s → service_write i f vm = Some vm' →
  slot vm' i = Some (f s) ∧ vcpus vm' = vcpus vm ∧ is_polling_ioreq vm' = is_polling_ioreq vm.
Proof.
  intros (p & Hp & Hs)%slot_Some. unfold service_write. rewrite Hp. cbn [mbind option_bind].
  destruct (update_slot_Some i f p s Hs) as [-> Hs']. intros [= <-]. split; [by eapply slot_page|done].
Qed.

(** An access that finds its slot free and no signal pending. *)
Lemma access_inv vm me v s r vm' e v' : vcpus vm !! me = Some v → slot vm me = Some s →
  processed s = ACRN_IOREQ_STATE_FREE → ioreq_event v = init_event →
  emulate_io (set_vcpu me (v⟨req := r⟩) vm) me = Some (vm', e) → vcpus vm' !! me = Some v' →
  ∃ s', slot vm' me = Some s' ∧ vcpu_st v' = vcpu_st v ∧ is_polling_ioreq vm' = is_polling_ioreq vm
    ∧ match e with
      | EWait => s' = filled (is_polling_ioreq vm) (req v') s
          ∧ ioreq_event v' = mk_event false (if is_polling_ioreq vm then None else Some (thread v'))
      | _ => s' = s ∧ ioreq_event v' = init_event
      end.
Proof.
  intros Hv Hs Hf Hev. set (vm0 := set_vcpu me _ vm).
  assert (Hv0 : vcpus vm0 !! me = Some (v⟨req := r⟩)).
  { apply list_lookup_insert_eq. by eapply lookup_lt_Some. }
  unfold emulate_io. destruct (hv_emulate vm0 me) as [[vm1 st]|] eqn:E1; [|done].
  destruct (hv_emulate_frame _ _ _ _ _ Hv0 E1) as (r1 & l1 & Hv1 & Hs1 & Hp1 & _).
  change (slot vm0 me) with (slot vm me) in Hs1. rewrite Hs in Hs1.
  change (is_polling_ioreq vm0) with (is_polling_ioreq vm) in Hp1.
  cbn [mbind option_bind]. rewrite Hv1. cbn [mbind option_bind].
  case_if; [|intros [= <- <-]; rewrite Hv1; intros [= <-]; by exists s].
  destruct (get_asyncio_desc vm1 _) as [[d|]|]; [| |done]; cbn [mbind option_bind].
  - intros E2. assert (He : outside e = true ∨ ∃ fd, e = ERetry fd).
    { unfold insert_asyncio in E2. destruct (acrn_insert_asyncio _ _) as [[? [?|]]|]; [| |done];
        injection E2 as _ <-; eauto. }
    apply (same_insert_asyncio me) in E2 as [Hs2 Hv2 Hp2 _]. rewrite Hv2, Hv1. intros [= <-].
    exists s. rewrite Hs2, Hp2. split_and!; [done..|]. by destruct He as [He | [fd ->]]; [destruct e|].
  - destruct (insert_request_free vm1 me _ s (req v⟨req := r⟩⟨req := r1⟩⟨longs := l1⟩) Hv1 Hs1 Hf Hev)
      as (vm2 & -> & Hs2 & Hv2 & Hp2 & _).
    cbn [mbind option_bind]. intros [= <- <-]. rewrite Hv2. intros [= <-].
    eexists. split; [exact Hs2|]. rewrite Hp2, Hp1. by destruct (is_polling_ioreq vm).
Qed.

(** A vCPU that waits and runs again. *)
Lemma resume_inv vm me v s vm' e v' : vcpus vm !! me = Some v → slot vm me = Some s →
  vcpu_st v ≠ VCPU_ZOMBIE →
  waiting_thread (ioreq_event v) = (if is_polling_ioreq vm then None else Some (thread v)) →
  (is_polling_ioreq vm = true → set (ioreq_event v) = false) →
  (is_polling_ioreq vm = false → set (ioreq_event v) = true → processed s = ACRN_IOREQ_STATE_COMPLETE) →
  emulate_io_resume vm me EWait = Some (vm', e) → vcpus vm' !! me = Some v' →
  is_polling_ioreq vm' = is_polling_ioreq vm ∧
  (e = EWait ∧ slot vm' me = Some s ∧ v' = v
   ∧ (if is_polling_ioreq vm then processed s ≠ ACRN_IOREQ_STATE_COMPLETE else set (ioreq_event v) = false)
   ∨ e = EDone 0 ∧ processed s = ACRN_IOREQ_STATE_COMPLETE
     ∧ slot vm' me = Some (s⟨processed := ACRN_IOREQ_STATE_FREE⟩)
     ∧ ioreq_event v' = init_event ∧ vcpu_st v' = vcpu_st v
     ∧ req v' = answer (req v) (value (slot_reqs s))
     ∧ (is_polling_ioreq vm = false → set (ioreq_event v) = true)).
Proof.
  intros Hv Hs Hz Hw Hpol Hset. simpl. unfold insert_request_poll, insert_done.
  destruct (is_polling_ioreq vm) eqn:Ep.
  - unfold has_complete_ioreq. rewrite (slot_state _ _ _ Hs). cbn [mbind option_bind].
    case_if; zreflect.
    + destruct (io_complete_done vm me v s Hv Hs E Hz) as (vm1 & l1 & -> & Hs1 & Hv1 & Hp1 & _).
      cbn [mbind option_bind]. intros [= <- <-]. rewrite Hv1. intros [= <-]. rewrite Hp1.
      split; [done|]. right. split_and!; try done. destruct v as [? ? ? [? ?] ?]. simpl in *.
      by rewrite Hw, Hpol.
    + intros [= <- <-]. rewrite Hv. intros [= <-]. auto 10.
  - rewrite Hv. cbn [mbind option_bind]. unfold wait_test. rewrite Hw.
    destruct (set (ioreq_event v)) eqn:Es; simpl.
    + set (vm0 := set_vcpu me _ vm).
      destruct (io_complete_done vm0 me (v⟨ioreq_event := init_event⟩) s)
        as (vm1 & l1 & -> & Hs1 & Hv1 & Hp1 & _);
        [apply list_lookup_insert_eq; by eapply lookup_lt_Some|done|by apply Hset|done|].
      cbn [mbind option_bind]. intros [= <- <-]. rewrite Hv1. intros [= <-]. rewrite Hp1.
      split; [done|]. right. split_and!; try done. by apply Hset.
    + intros [= <- <-]. simpl. rewrite list_lookup_insert_eq by by eapply lookup_lt_Some.
      intros [= <-]. split; [done|]. left. split_and!; [done|done|by destruct v|done].
Qed.

Lemma notify_me vm me v n vm' st : Z.to_nat (u16 n) = me → vcpus vm !! me = Some v → is_Some (slot vm me) →
  hcall_notify_ioreq_finish vm true false n = Some (vm', st) →
  st = 0 ∧ slot vm' me = slot vm me ∧ is_polling_ioreq vm' = is_polling_ioreq vm
  ∧ vcpus vm' !! me = Some (if is_polling_ioreq vm then v else v⟨ioreq_event := post (ioreq_event v)⟩).
Proof.
  intros Hn Hv [s (p & Hp & _)%slot_Some]. unfold hcall_notify_ioreq_finish.
  rewrite Hp, bool_decide_eq_true_2 by done. cbn [negb andb].
  assert (Hlt : (me < length (vcpus vm))%nat) by by eapply lookup_lt_Some.
  pose proof (word_u16 n) as [? _]. case_if; zreflect; [lia|]. rewrite Hn, Hv. cbn [mbind option_bind].
  intros [= <- <-]. destruct (is_polling_ioreq vm) eqn:Ep; [done|]. simpl.
  by rewrite list_lookup_insert_eq.
Qed.

Lemma zip_answer_snoc iss ser n r x : length iss = S n → length ser = S n →
  last iss = Some r → last ser = Some x →
  take (S n) (zip_with answer iss ser) = take n (zip_with answer iss ser) ++ [answer r x].
Proof.
  intros Hi Hs [iss' ->]%last_Some [ser' ->]%last_Some. rewrite length_app in Hi, Hs. simpl in Hi, Hs.
  assert (Hl : length (zip_with answer iss' ser') = n) by (rewrite length_zip_with; lia).
  rewrite zip_with_app by lia. cbn [zip_with]. rewrite take_ge by (rewrite length_app; simpl; lia).
  by rewrite take_app_le, take_ge by lia.
Qed.

Lemma zip_answer_extend n : ∀ iss ser a b, (n ≤ length iss)%nat → (n ≤ length ser)%nat →
  take n (zip_with answer (iss ++ a) (ser ++ b)) = take n (zip_with answer iss ser).
Proof.
  induction n as [|n IH]; intros iss ser a b Hi Hs; [done|].
  destruct iss as [|r iss]; [simpl in Hi; lia|]. destruct ser as [|x ser]; [simpl in Hs; lia|].
  simpl in *. by rewrite IH by lia.
Qed.

Lemma pstep_access_inv me vm e0 k iss ser ret v s r vm' e v' : outside e0 = true →
  pinv me (mk_psys vm e0 k iss ser ret) v s →
  emulate_io (set_vcpu me (v⟨req := r⟩) vm) me = Some (vm', e) → vcpus vm' !! me = Some v' →
  ∃ s', pinv me (mk_psys vm' e k (match e with EWait => iss ++ [req v'] | _ => iss end) ser ret) v' s'.
Proof.
  intros Ho [Hv Hs Hz Hret Hpc] E Hv'. destruct e0; [|done..]. simpl in *.
  destruct Hpc as (Hf & Hev & Hli & Hls & Hk).
  destruct (access_inv vm me v s r vm' e v') as (s' & Hs' & Hst & Hp & He); [done..|].
  exists s'. split; simpl; [done|done|congruence| |].
  - destruct e; [done| |done].
    by rewrite <- (app_nil_r ser), zip_answer_extend by lia.
  - rewrite Hp. destruct e; destruct He as [-> Hev']; rewrite Hev'; [done| |done].
    rewrite last_snoc, length_app. simpl. split_and!; [done|lia|done|done|].
    left. simpl. split_and!; [by left|done|done|done|rewrite Hev'; auto].
Qed.

Lemma pstep_resume_inv me vm e0 k iss ser ret v s vm' e v' : outside e0 = false →
  pinv me (mk_psys vm e0 k iss ser ret) v s →
  emulate_io_resume vm me e0 = Some (vm', e) → vcpus vm' !! me = Some v' →
  ∃ s', pinv me (mk_psys vm' e k iss ser
    (match e0, e with EWait, EDone _ => ret ++ [req v'] | _, _ => ret end)) v' s'.
Proof.
  intros Ho [Hv Hs Hz Hret Hpc] E Hv'. destruct e0 as [| |fd]; [done| |].
  - simpl in Hpc. destruct Hpc as (Hli & Hln & Hw & Hpol & Hws).
    destruct (resume_inv vm me v s vm' e v') as [Hp Hcase]; [done..| |done|done|].
    { intros Hp Hset. destruct Hws as [(_ & _ & _ & _ & Hk)|(? & _)]; [|done].
      destruct (Hk Hp) as [_ Hf]. congruence. }
    destruct Hcase as [(-> & Hs' & -> & _)|(-> & Hc & Hs' & Hev & Hst & Hreq & Hset)].
    + exists s. split; simpl; [done..|]. by rewrite Hp.
    + eexists. split; simpl; [done|exact Hs'|congruence| |].
      * destruct Hws as [([Hx|Hx] & _)|(_ & Hls & Hlen & _)]; [by rewrite Hx in Hc..|].
        rewrite length_app, Nat.add_1_r, Hreq. simpl in *.
        rewrite (zip_answer_snoc _ _ _ _ _ Hln Hlen Hli Hls). by rewrite <- Hret.
      * destruct Hws as [([Hx|Hx] & _)|(_ & Hls & Hlen & Hk)]; [by rewrite Hx in Hc..|].
        rewrite length_app, Hp. simpl. split_and!; [done|done|lia|lia|].
        intros Hpf. specialize (Hk Hpf). rewrite (Hset Hpf) in Hk. simpl in Hk. lia.
  - simpl in *. pose proof (same_insert_asyncio me _ _ _ _ E) as [Hs1 Hv1 Hp1 _].
    rewrite Hv1, Hv in Hv'. injection Hv' as <-. exists s. split; simpl; [congruence|congruence|done|done|].
    assert (He : e ≠ EWait).
    { unfold insert_asyncio in E. destruct (acrn_insert_asyncio _ _) as [[? [?|]]|]; [| |done];
        by injection E as _ <-. }
    rewrite Hp1. destruct e; done.
Qed.

(** The Service VM and the notification. *)
Lemma pinv_waiting me vm e k iss ser ret v s : pinv me (mk_psys vm e k iss ser ret) v s →
  processed s ≠ ACRN_IOREQ_STATE_FREE → e = EWait.
Proof. intros [_ _ _ _ Hpc] Hf. destruct e; [|done|]; by destruct Hpc as [? _]. Qed.

Lemma pstep_take_inv me vm e k iss ser ret v s vm' : pinv me (mk_psys vm e k iss ser ret) v s →
  processed s = ACRN_IOREQ_STATE_PENDING → service_write me take_slot vm = Some vm' →
  pinv me (mk_psys vm' e k iss ser ret) v (take_slot s).
Proof.
  intros Hi Hp E. pose proof (pinv_waiting _ _ _ _ _ _ _ _ _ Hi ltac:(by rewrite Hp)) as ->.
  destruct Hi as [Hv Hs Hz Hret (Hli & Hln & Hw & Hpol & Hws)].
  destruct (service_write_slot _ _ _ _ _ Hs E) as (Hs' & Hv' & Hp').
  split; simpl in *; [congruence|done..|]. rewrite Hp'. split_and!; [done..|].
  destruct Hws as [(_ & Hws)|(Hc & _)]; [|by rewrite Hp in Hc]. left. split; [by right|done].
Qed.

Lemma pstep_finish_inv me vm e k iss ser ret v s q vm' : pinv me (mk_psys vm e k iss ser ret) v s →
  processed s = ACRN_IOREQ_STATE_PROCESSING → service_write me (finish_slot q) vm = Some vm' →
  pinv me (mk_psys vm' e (S k) iss (ser ++ [value q]) ret) v (finish_slot q s).
Proof.
  intros Hi Hp E. pose proof (pinv_waiting _ _ _ _ _ _ _ _ _ Hi ltac:(by rewrite Hp)) as ->.
  destruct Hi as [Hv Hs Hz Hret (Hli & Hln & Hw & Hpol & Hws)].
  destruct (service_write_slot _ _ _ _ _ Hs E) as (Hs' & Hv' & Hp'). simpl in *.
  destruct Hws as [(_ & _ & _ & Hls & Hk)|(Hc & _)]; [|by rewrite Hp in Hc].
  split; simpl; [congruence|done|done| |].
  - by rewrite <- (app_nil_r iss), zip_answer_extend by lia.
  - rewrite Hp'. split_and!; [done..|]. right. simpl. rewrite last_snoc, length_app. simpl.
    split_and!; [done|done|lia|]. intros Hpf. destruct (Hk Hpf) as [-> ->]. done.
Qed.

Lemma pstep_notify_inv me vm e k iss ser ret v s n vm' st : Z.to_nat (u16 n) = me →
  pinv me (mk_psys vm e (S k) iss ser ret) v s →
  hcall_notify_ioreq_finish vm true false n = Some (vm', st) →
  ∃ v', pinv me (mk_psys vm' e k iss ser ret) v' s.
Proof.
  intros Hn [Hv Hs Hz Hret Hpc] E. simpl in *.
  destruct (notify_me vm me v n vm' st) as (_ & Hs' & Hp' & Hv'); [done|done|by eexists|done|].
  eexists. split; simpl; [exact Hv'|congruence|by destruct (is_polling_ioreq vm)|done|].
  rewrite Hp'. destruct (is_polling_ioreq vm) eqn:Ep.
  - destruct e; [naive_solver| |naive_solver]. destruct Hpc as (? & ? & ? & ? & Hws). split_and!; [done..|].
    destruct Hws as [(? & ? & ? & ? & _)|(? & ? & ? & _)]; [left|right]; by split_and!.
  - destruct e.
    + destruct Hpc as (_ & _ & _ & _ & Hk). by specialize (Hk eq_refl).
    + destruct Hpc as (? & ? & ? & ? & Hws). split_and!; [done..|].
      destruct Hws as [(_ & _ & _ & _ & Hk)|(? & ? & ? & Hk)]; [by destruct (Hk eq_refl)|].
      right. split_and!; [done..|]. intros _. specialize (Hk eq_refl). simpl.
      destruct (set (ioreq_event v)); simpl in Hk; lia.
    + destruct Hpc as (_ & _ & _ & _ & Hk). by specialize (Hk eq_refl).
Qed.

Lemma pstep_inv me x y v s : pinv me x v s → pstep me x y → ∃ v' s', pinv me y v' s'.
Proof.
  intros Hi Hstep. destruct Hstep as [vm e0 k iss ser ret v1 r vm' e v' Ho Hv1 E Hv'
    |vm e0 k iss ser ret vm' e v' Ho E Hv'|vm e k iss ser ret s1 vm' Hs1 Hp E
    |vm e k iss ser ret s1 q vm' Hs1 Hp E|vm e k iss ser ret n vm' st Hn E|vm e k iss ser ret vm' E].
  - pose proof (pi_vcpu _ _ _ _ Hi) as Hv. simpl in Hv. rewrite Hv1 in Hv. injection Hv as ->.
    exists v'. by eapply pstep_access_inv.
  - exists v'. by eapply pstep_resume_inv.
  - pose proof (pi_slot _ _ _ _ Hi) as Hs. simpl in Hs. rewrite Hs1 in Hs. injection Hs as ->.
    eexists _, _. by eapply pstep_take_inv.
  - pose proof (pi_slot _ _ _ _ Hi) as Hs. simpl in Hs. rewrite Hs1 in Hs. injection Hs as ->.
    eexists _, _. by eapply pstep_finish_inv.
  - destruct (pstep_notify_inv me vm e k iss ser ret v s n vm' st) as [v' Hi']; eauto.
  - exists v, s. apply same_other in E as [Hs Hv Hp _]. destruct Hi as [? ? ? ? Hpc].
    split; simpl in *; [congruence..|]. by rewrite Hp.
Qed.

Lemma psteps_inv me x y : rtc (pstep me) x y → (∃ v s, pinv me x v s) → ∃ v s, pinv me y v s.
Proof.
  induction 1 as [|x y z Hxy _ IH]; [done|]. intros (v & s & Hi). apply IH. by eapply pstep_inv.
Qed.
End protocol.

(** ** Setting up *)

Section setup.
Context {W : Type}.
Import Dll DllFacts.
Implicit Types (vm : io_vm (W := W)).

(** The descriptors as create_vm leaves them: zeroed memory. *)
Record aio_fresh vm : Prop := {
  af_desc : aio_desc vm = replicate ACRN_ASYNCIO_MAX no_desc;
  af_node i : (i < ACRN_ASYNCIO_MAX)%nat → has (aio_heap vm) (aio_node i);
  af_queue : has (aio_heap vm) aiodesc_queue;
}.

Lemma init_asyncio_rep vm sb : aio_fresh vm →
  ∃ vm', init_asyncio vm (Some (SBUF_MAGIC, sb)) = Some (vm', 0) ∧ aio_rep [] vm'
    ∧ asyncio_sbuf vm' = Some sb.
Proof.
  intros [Hd Hn Hq]. unfold init_asyncio. rewrite Z.eqb_refl.
  destruct (INIT_LIST_HEAD_effect _ _ Hq) as (h & -> & Hdet & _ & Hh). cbn [mbind option_bind].
  eexists. split; [done|]. split; [|done]. split; simpl.
  - by rewrite Hd, length_replicate.
  - by intros i ?%elem_of_nil.
  - done.
  - intros i Hi. by apply Hh, Hn.
  - by intros i ?%elem_of_nil.
  - intros i _. unfold desc_at. simpl. rewrite Hd.
    destruct (replicate _ _ !! i) as [d|] eqn:E; [|done]. by apply lookup_replicate in E as [-> _].
Qed.

Lemma length_le_bytes n x : length (le_bytes n x) = n.
Proof. revert x. induction n as [|n IH]; intros x; simpl; [done|]. by rewrite IH. Qed.

(** A descriptor's fd goes to the ring; a full ring is tried again. *)
Lemma insert_asyncio_posts vm sb n q fd : asyncio_sbuf vm = Some sb → represents n 8 sb q →
  ∃ vm' sb', insert_asyncio vm fd
      = Some (vm', if (queue_put (n - 1) (overwrites sb) (le_bytes 8 fd) q).2 then EDone 0 else ERetry fd)
    ∧ asyncio_sbuf vm' = Some sb'
    ∧ represents n 8 sb' (queue_put (n - 1) (overwrites sb) (le_bytes 8 fd) q).1
    ∧ io_shared_page vm' = io_shared_page vm.
Proof.
  intros Hsb Hr. unfold insert_asyncio, acrn_insert_asyncio. rewrite Hsb.
  destruct (put_refines n 8 sb q (le_bytes 8 fd) Hr) as (sb' & r & -> & _ & Hr' & ->);
    [apply length_le_bytes|]. cbn [mbind option_bind].
  destruct (queue_put _ _ _ q) as [q' []]; simpl; by eexists _, sb'.
Qed.

(** Setting the shared page frees every slot. *)
Lemma set_states_spec st ids : ∀ vm p, io_shared_page vm = Some p → Forall (λ i, (i < length p)%nat) ids →
  ∃ vm' p', set_states ids st vm = Some vm' ∧ io_shared_page vm' = Some p' ∧ length p' = length p
    ∧ vcpus vm' = vcpus vm ∧ is_polling_ioreq vm' = is_polling_ioreq vm
    ∧ ∀ i, p' !! i = (λ s, if decide (i ∈ ids) then s⟨processed := st⟩ else s) <$> p !! i.
Proof.
  induction ids as [|i ids IH]; intros vm p Hp Hids; simpl.
  { exists vm, p. split_and!; [done..|]. intros i. by destruct (p !! i). }
  apply Forall_cons in Hids as [Hi Hids]. unfold set_io_req_state. rewrite Hp.
  destruct (lookup_lt_is_Some_2 p i Hi) as [s Hs].
  destruct (update_slot_Some i (λ s, s⟨processed := st⟩) p s Hs) as [-> Hs1]. cbn [mbind option_bind].
  destruct (IH (vm⟨io_shared_page := Some (<[i:=s⟨processed := st⟩]> p)⟩) (<[i:=s⟨processed := st⟩]> p))
    as (vm' & p' & E & Hp' & Hl & Hv & Hpol & Hlk); [done|by rewrite length_insert|].
  exists vm', p'. split_and!; [done|done|by rewrite Hl, length_insert|done..|].
  intros j. rewrite Hlk. destruct (decide (j = i)) as [->|Hj].
  - rewrite Hs1, Hs. simpl. rewrite (decide_True (P := i ∈ i :: ids)) by set_solver. f_equal.
    by case_decide.
  - rewrite list_lookup_insert_ne by done. destruct (p !! j); [|done]. simpl. f_equal.
    destruct (decide (j ∈ ids)); [by rewrite decide_True by set_solver|by rewrite decide_False by set_solver].
Qed.

(** A slot of the page that hcall_set_ioreq_buffer sets up is free. *)
Lemma set_ioreq_buffer_free vm p i s : length p = ACRN_IO_REQUEST_MAX → p !! i = Some s →
  ∃ vm', hcall_set_ioreq_buffer vm true (Some p) = Some (vm', 0)
    ∧ slot vm' i = Some (s⟨processed := ACRN_IOREQ_STATE_FREE⟩)
    ∧ vcpus vm' = vcpus vm ∧ is_polling_ioreq vm' = is_polling_ioreq vm.
Proof.
  intros Hl Hs. unfold hcall_set_ioreq_buffer.
  destruct (set_states_spec ACRN_IOREQ_STATE_FREE (seq 0 ACRN_IO_REQUEST_MAX)
    (vm⟨io_shared_page := Some p⟩) p) as (vm' & p' & -> & Hp' & _ & Hv & Hpol & Hlk); [done| |].
  { apply Forall_seq. intros j Hj. lia. }
  eexists. split; [done|]. split; [|done]. eapply slot_page; [done|]. rewrite Hlk, Hs.
  cbn [fmap option_fmap option_map]. rewrite decide_True; [done|]. apply elem_of_seq. apply lookup_lt_Some in Hs. lia.
Qed.
End setup.

(** ** Properties *)

Section properties.
Context {W : Type}.
Implicit Types (vm : io_vm (W := W)).

(** C1: I/O requests to the device model are served exactly once and in order.
    Start with a free slot of a running vCPU. Whatever the vCPU, the other
    vCPUs, the Service VM (following its documented protocol) and the hypervisor
    do, in event and in polling mode: the requests the vCPU got back are the
    ones it issued, in order, each with the answer given to it and nothing
    dropped; at most one request is outstanding; while one is, and is not
    completed, the slot holds exactly the request; when none is, the slot is
    free, so that the next request is accepted. *)
Theorem ioreq_exactly_once me vm v s x :
  vcpus vm !! me = Some v → vcpu_st v ≠ VCPU_ZOMBIE → ioreq_event v = init_event →
  slot vm me = Some s → processed s = ACRN_IOREQ_STATE_FREE →
  rtc (pstep me) (mk_psys vm (EDone 0) 0 [] [] []) x →
  p_returned x `prefix_of` zip_with answer (p_issued x) (p_served x)
  ∧ (length (p_returned x) ≤ length (p_served x) ≤ length (p_issued x))%nat
  ∧ (length (p_issued x) ≤ S (length (p_returned x)))%nat
  ∧ ∃ s', slot (p_vm x) me = Some s'
    ∧ (p_pc x ≠ EWait → processed s' = ACRN_IOREQ_STATE_FREE
                        ∧ length (p_issued x) = length (p_returned x))
    ∧ (p_pc x = EWait → processed s' ≠ ACRN_IOREQ_STATE_COMPLETE →
       last (p_issued x) = Some (mk_io_request (type s') (slot_reqs s'))).
Proof.
  intros Hv Hz Hev Hs Hf Hrun. apply psteps_inv in Hrun as (v' & s' & [Hv' Hs' Hz' Hret Hpc]).
  2: { exists v, s. split; simpl; auto. }
  split_and!.
  - rewrite Hret. apply prefix_take.
  - destruct (p_pc x); [lia| |lia]. destruct Hpc as (_ & ? & _ & _ & Hws).
    destruct Hws as [(_ & _ & _ & ? & _)|(_ & _ & ? & _)]; lia.
  - destruct (p_pc x); [lia| |lia]. destruct Hpc as (_ & ? & _ & _ & Hws).
    destruct Hws as [(_ & _ & _ & ? & _)|(_ & _ & ? & _)]; lia.
  - destruct (p_pc x); lia.
  - exists s'. split; [done|]. destruct (p_pc x); [naive_solver| |naive_solver].
    split; [done|]. intros _ Hnc. destruct Hpc as (-> & _ & _ & _ & Hws).
    destruct Hws as [(_ & -> & -> & _)|(? & _)]; [|done]. by destruct (req v').
Qed.


(** A notification without a completion breaks the protocol. The comment of
    acrn_insert_request says the signal must be cleared before the request is
    marked pending, but nothing clears it: if the Service VM notified the vCPU
    once too often, the next access returns at once with status 0 and no
    answer, the request stays pending in the slot, and a further access fails
    with -EINVAL. *)
Theorem stale_signal_returns_early vm me v s r :
  vcpus vm !! me = Some v → ioreq_event v = mk_event true None →
  slot vm me = Some s → processed s = ACRN_IOREQ_STATE_FREE → is_polling_ioreq vm = false →
  ∃ vm', (acrn_insert_request vm me r ≫= λ '(vm, e),
           match e with EDone st => insert_done vm me st | _ => None end) = Some (vm', EDone 0)
    ∧ slot vm' me = Some (filled false r s)
    ∧ (req <$> vcpus vm' !! me) = Some (req v)
    ∧ ∀ r', acrn_insert_request vm' me r' = Some (vm', EDone (- EINVAL)).
Proof.
  intros Hv Hev Hs Hf Hp. pose proof (slot_state _ _ _ Hs) as Hst.
  apply slot_Some in Hs as (p & Hpage & Hs).
  unfold acrn_insert_request at 1. rewrite Hst, Hpage, Hf. cbn [mbind option_bind].
  rewrite Z.eqb_refl, Hp.
  destruct (update_slot_Some me (λ s, s⟨type := io_type r⟩⟨slot_reqs := reqs r⟩) p s Hs) as [-> Hs1].
  cbn [mbind option_bind]. unfold set_io_req_state. simpl.
  destruct (update_slot_Some me (λ s, s⟨processed := ACRN_IOREQ_STATE_PENDING⟩) _ _ Hs1) as [-> Hs2].
  cbn [mbind option_bind]. simpl. rewrite Hp, Hv. cbn [mbind option_bind]. rewrite Hev. simpl.
  set (vm1 := set_vcpu me _ _).
  assert (Hslot : slot vm1 me = Some (filled false r s)) by by eapply slot_page.
  unfold insert_done, dm_emulate_io_complete. rewrite (slot_state _ _ _ Hslot). cbn [mbind option_bind].
  exists vm1. split_and!; [done|done| |].
  - simpl. rewrite list_lookup_insert_eq by by eapply lookup_lt_Some. done.
  - intros r'. unfold acrn_insert_request. by rewrite (slot_state _ _ _ Hslot).
Qed.

(** C18: The table of MMIO handlers implements a set of address ranges. After any
    sequence of registrations of disjoint ranges (at most 32 at a time),
    unregistrations and deinit_emul_io, an access is given to the handler of
    the range it falls into and to no other; an access that crosses the border
    of a range is refused with -EIO without any handler running; any other
    access gets all ones in the Service VM and pre-launched VMs, and -ENODEV in
    a post-launched VM. *)
Theorem mmio_dispatch_refines vm os r :
  mmio_wf vm → (∀ n, ¬ registered vm n) → mmio_ok_all os [] →
  0 < req_size (reqs r) → 0 ≤ address (reqs r) → address (reqs r) + req_size (reqs r) < 2 ^ 64 →
  hv_emulate_mmio (mmio_run os vm) r = Some (spec_dispatch (spec_run os []) (mmio_run os vm) r).
Proof.
  intros Hwf Hno Hok Hs Ha Hw. apply mmio_dispatch_spec; [|done..]. apply mmio_run_rep; [|done].
  split; [done| |].
  - intros i j n n' Hi _ Hu. destruct (Hno n). split; [done|]. by eapply list_elem_of_lookup_2.
  - intros n. split; [intros Hn; by destruct (Hno n)|by intros ?%elem_of_nil].
Qed.

End properties.

(** ** Examples *)

(** A post-launched VM with two vCPUs, whose page and descriptors are those of
    a VM just created; [ex_dev] is a device that counts its accesses. *)
Definition ex_reqs (dir addr val : Z) : io_reqs := mk_reqs dir 0 addr 8 val [0; 0; 0; 0].
Definition ex_req (dir addr val : Z) : io_request := mk_io_request ACRN_IOREQ_TYPE_MMIO (ex_reqs dir addr val).
Definition ex_slot : acrn_io_request := mk_slot 0 0 (ex_reqs 0 0 0) ACRN_IOREQ_STATE_FREE.
Definition ex_vcpu (t : tid) (ev : sched_event) : io_vcpu :=
  mk_io_vcpu VCPU_RUNNING (ex_req 0 0 0) (0x80200000 :: replicate 95 0) ev t.
Definition ex_heap : Dll.heap :=
  list_to_map ((λ i, (aio_node i, Dll.mk_list_head 0 0)) <$> seq 0 (S ACRN_ASYNCIO_MAX)).
Definition ex_ring : shared_buf := mk_sbuf 3 8 0 0 0 0 24 (replicate 24 0).
Definition ex_vm (ev : sched_event) : io_vm (W := Z) :=
  mk_io_vm false POST_LAUNCHED_VM [ex_vcpu 1%nat ev; ex_vcpu 2%nat init_event]
    (Some (replicate ACRN_IO_REQUEST_MAX ex_slot)) false None
    (replicate ACRN_ASYNCIO_MAX no_desc) ex_heap 0
    (replicate CONFIG_MAX_EMULATED_MMIO_REGIONS free_node) 0 0.
Definition ex_dev : hv_mem_io_handler_t (W := Z) := λ r priv w,
  (w + 1, r⟨reqs := (reqs r)⟨value := priv⟩⟩, 0).

(** A read of 0x1000 that the Service VM answers with 42. *)
Definition ex_access : io_vm * emu :=
  default (ex_vm init_event, EDone 0)
    (emulate_io (set_vcpu 0 ((ex_vcpu 1%nat init_event)⟨req := ex_req 0 0x1000 0⟩) (ex_vm init_event)) 0).
Definition ex_taken : io_vm := default (ex_vm init_event) (service_write 0 take_slot (ex_access.1)).
Definition ex_finished : io_vm :=
  default (ex_vm init_event) (service_write 0 (finish_slot (ex_reqs 0 0x1000 42)) ex_taken).
Definition ex_notified : io_vm :=
  (default (ex_vm init_event, 0) (hcall_notify_ioreq_finish ex_finished true false 0)).1.

Lemma ex_run : rtc (pstep 0) (mk_psys (ex_vm init_event) (EDone 0) 0 [] [] [])
  (mk_psys ex_notified EWait 0 [ex_req 0 0x1000 0] [42] []).
Proof.
  eapply rtc_l.
  { eapply (p_access 0 (ex_vm init_event) (EDone 0) 0 [] [] [] _ (ex_req 0 0x1000 0) (ex_access.1) EWait);
      [done|reflexivity|vm_compute; reflexivity|vm_compute; reflexivity]. }
  eapply rtc_l.
  { eapply (p_take 0 (ex_access.1) EWait 0 _ _ _ _ ex_taken); [vm_compute; reflexivity|done|].
    vm_compute. reflexivity. }
  eapply rtc_l.
  { eapply (p_finish 0 ex_taken EWait 0 _ _ _ _ (ex_reqs 0 0x1000 42) ex_finished);
      [vm_compute; reflexivity|done|]. vm_compute. reflexivity. }
  eapply rtc_l.
  { eapply (p_notify 0 ex_finished EWait 0 _ _ _ 0 ex_notified 0); [done|]. vm_compute. reflexivity. }
  apply rtc_refl.
Qed.

Lemma ioreq_exactly_once_witness :
  let x := mk_psys ex_notified EWait 0 [ex_req 0 0x1000 0] [42] [] in
  p_returned x `prefix_of` zip_with answer (p_issued x) (p_served x).
Proof.
  intros x.
  apply (ioreq_exactly_once 0 (ex_vm init_event) (ex_vcpu 1%nat init_event) ex_slot x);
    [reflexivity|done|reflexivity..|apply ex_run].
Defined.


Lemma stale_signal_returns_early_witness : ∃ vm',
  (acrn_insert_request (ex_vm (mk_event true None)) 0 (ex_req 0 0x1000 0) ≫= λ '(vm, e),
     match e with EDone st => insert_done vm 0 st | _ => None end) = Some (vm', EDone 0)
  ∧ acrn_insert_request vm' 0 (ex_req 0 0x2000 0) = Some (vm', EDone (-22)).
Proof.
  destruct (stale_signal_returns_early (ex_vm (mk_event true None)) 0
    (ex_vcpu 1%nat (mk_event true None)) ex_slot (ex_req 0 0x1000 0))
    as (vm' & E & _ & _ & H); [reflexivity..|].
  exists vm'. split; [exact E|apply H].
Defined.

Lemma ex_wf : mmio_wf (ex_vm init_event) ∧ ∀ n, ¬ registered (ex_vm init_event) n.
Proof.
  split; [split; [done|vm_compute; split; [discriminate|reflexivity]|..]|].
  - intros i n Hn. right. by apply (lookup_replicate (A := mem_io_node)) in Hn as [-> _].
  - intros i n Hn. apply (lookup_replicate (A := mem_io_node)) in Hn as [-> _]. by intros ?%free_node_unused.
  - intros n [Hu Hn]. apply (elem_of_replicate (A := mem_io_node)) in Hn as [-> _].
    by apply free_node_unused in Hu.
Qed.

Definition ex_mmio_ops : list mmio_op :=
  [MRegister (Some ex_dev) 0x1000 0x1100 7 true; MRegister (Some ex_dev) 0x1100 0x1200 8 true;
   MUnregister 0x1000 0x1100; MRegister (Some ex_dev) 0x3000 0x4000 9 false].

Lemma ex_mmio_ok : mmio_ok_all ex_mmio_ops [].
Proof.
  unfold disjoint_ranges, CONFIG_MAX_EMULATED_MMIO_REGIONS; simpl; split_and!; try done; try lia;
    rewrite ?filter_cons, ?filter_nil; simpl; repeat constructor; simpl; lia.
Qed.

Lemma mmio_dispatch_refines_witness :
  let vm := mmio_run ex_mmio_ops (ex_vm init_event) in
  hv_emulate_mmio vm (ex_req 0 0x1108 0) = Some (vm⟨world := 1⟩, ex_req 0 0x1108 8, 0)
  ∧ hv_emulate_mmio vm (ex_req 0 0x11fc 0) = Some (vm, ex_req 0 0x11fc 0, -5)
  ∧ hv_emulate_mmio vm (ex_req 0 0x1000 0) = Some (vm, ex_req 0 0x1000 0, -19).
Proof.
  intros vm. split_and!;
    (etrans; [apply mmio_dispatch_refines; [apply ex_wf|apply ex_wf|apply ex_mmio_ok|simpl; lia..]|reflexivity]).
Defined.


(** Without init_asyncio the queue is zeroed memory: assigning a descriptor
    dereferences a null pointer. *)
Lemma add_asyncio_before_init : add_asyncio (ex_vm init_event) 2 0x1000 5 = None.
Proof. vm_compute. reflexivity. Qed.

(** init_asyncio empties the queue but not the descriptors: setting the ring up
    a second time leaves stale links, and deassigning an old descriptor then
    drops a new one from the queue. *)
Lemma reinit_drops_descriptor :
  (vm ← fst <$> init_asyncio (ex_vm init_event) (Some (SBUF_MAGIC, ex_ring));
   vm ← fst <$> aio_run [AioAssign 2 0x1000 5; AioAssign 2 0x2000 6] vm;
   vm ← fst <$> init_asyncio vm (Some (SBUF_MAGIC, ex_ring));
   '(vm, st) ← aio_run [AioAssign 2 0x3000 7; AioDeassign 2 0x2000 6] vm;
   d ← get_asyncio_desc vm (ex_req 1 0x3000 0);
   Some (st, d)) = Some ([0; 0], None).
Proof. vm_compute. reflexivity. Qed.
