(* ===== verification/Vcpu.v ===== *)
(** * Virtual CPUs (arch/riscv/guest/vcpu.c, vmcs.c and virq.c)

    The saved state of a vCPU and the CSRs of the hart it runs on, the requests
    other parts of the hypervisor make of it, the queueing and injection of
    exceptions and interrupts, and the life of a vCPU. The I/O part of a vCPU
    is the one of [IoReq]. *)

From S2P Require Import Prelude Bits LinkedList Timer Schedule SchedIorr Event Sbuf IoReq.

(** ** CSRs and contexts *)

(** The CSRs the hypervisor accesses for a guest, as values of the hart. *)
Inductive csr :=
  | vsstatus | vsepc | vsip | vsie | vstvec | vsscratch | vstval | vscause | vsatp
  | hvip | hstatus | host_sstatus | hedeleg | scause.
#[export] Instance csr_eq : EqDecision csr.
Proof. solve_decision. Defined.

Abbreviation csrs := (csr → Z).
Definition cpu_csr_write (c : csr) (v : Z) (h : csrs) : csrs := λ c', if decide (c' = c) then u64 v else h c'.
Definition cpu_csr_set (c : csr) (v : Z) (h : csrs) : csrs :=
  λ c', if decide (c' = c) then h c ||| u64 v else h c'.

(** Words of struct guest_cpu_context: the registers of struct cpu_regs, and
    after them the supervisor CSRs. *)
Definition CPU_REG_SP : nat := 2.
Definition CPU_REG_A0 : nat := 10.
Definition CPU_REG_A1 : nat := 11.
Definition CPU_REG_A2 : nat := 12.
Definition CPU_REG_A3 : nat := 13.
Definition CPU_REG_STATUS : nat := 32.
Definition CPU_REG_TVAL : nat := 33.
Definition CPU_REG_CAUSE : nat := 34.
Definition CPU_REG_HSTATUS : nat := 35.
Definition RUN_CTX_SSTATUS : nat := 37.
Definition RUN_CTX_WORDS : nat := 46.
Definition CONTEXT_WORDS : nat := 48.
Definition NR_WORLD : nat := 2.

(** offsetof(struct cpu_regs, a0), in bytes. *)
Definition OFFSET_REG_A0 : nat := 80.

(** The CSRs that are saved, with the word of the context each one is in. *)
Definition guest_csrs : list (csr * nat) :=
  [(vsstatus, 37%nat); (vsepc, 38%nat); (vsip, 39%nat); (vsie, 40%nat); (vstvec, 41%nat);
   (vsscratch, 42%nat); (vstval, 43%nat); (vscause, 44%nat); (vsatp, 45%nat)].

Definition load_guest_state (v : io_vcpu) (h : csrs) : csrs :=
  foldl (λ h '(c, w), cpu_csr_write c (vcpu_get_gpreg v w) h) h guest_csrs.

Definition save_guest_state (h : csrs) (v : io_vcpu) : io_vcpu :=
  foldl (λ v '(c, w), vcpu_set_gpreg v w (h c)) v guest_csrs.

(** The register number given for a0 is the byte offset of the field. *)
Definition init_guest_state (id : Z) (v : io_vcpu) (h : csrs) : io_vcpu * csrs :=
  let v := vcpu_set_gpreg v OFFSET_REG_A0 id in
  let h := cpu_csr_write vsstatus 0x2000C0000 h in
  (v, foldl (λ h '(c, w), cpu_csr_write c (vcpu_get_gpreg v w) h) h (tail guest_csrs)).

Definition init_host_state (v : io_vcpu) (h : csrs) : io_vcpu * csrs :=
  let h := cpu_csr_set hstatus 0x200000180 h in
  let v := vcpu_set_gpreg v CPU_REG_HSTATUS 0x200000180 in
  let h := cpu_csr_set host_sstatus 0x2000C0100 h in
  let v := vcpu_set_gpreg v CPU_REG_STATUS 0x2000C0100 in
  (v, cpu_csr_write hedeleg 0xf0bfff h).

(** ** The vCPU *)

Definition ACRN_REQUEST_EXCP : Z := 0.
Definition ACRN_REQUEST_EVENT : Z := 1.
Definition ACRN_REQUEST_EXTINT : Z := 2.
Definition ACRN_REQUEST_NMI : Z := 3.
Definition ACRN_REQUEST_EOI_EXIT_BITMAP_UPDATE : Z := 4.
Definition ACRN_REQUEST_EPT_FLUSH : Z := 5.
Definition ACRN_REQUEST_TRP_FAULT : Z := 6.
Definition ACRN_REQUEST_VPID_FLUSH : Z := 7.
Definition ACRN_REQUEST_INIT_VMCS : Z := 8.
Definition ACRN_REQUEST_WAIT_WBINVD : Z := 9.

Definition NR_MAX_VECTOR : Z := 0xFF.
Definition VECTOR_INVALID : Z := NR_MAX_VECTOR + 1.
Definition BSP_CPU_ID : nat := 0.
Definition MAX_VCPUS_PER_VM : nat := 8.
Definition EFAULT : Z := 14.

(** struct acrn_vcpu_arch, with the events other than the one of I/O and the
    CSRs of the hart the vCPU is pinned to. [remote] tells whether the vCPU is
    running on another CPU than the one that executes, and [kicks] counts the
    software interrupts sent to it. *)
Record vcpu_arch := mk_arch {
  reg_cached : Z;
  reg_updated : Z;
  launched : bool;
  nr_sipi : Z;
  exception : Z;
  error : Z;
  pending_req : Z;
  exit_reason : Z;
  exit_qualification : Z;
  inst_len : Z;
  eoi_exit_bitmap : list Z;
  irq_event : sched_event;
  wbinvd_event : sched_event;
  hart : csrs;
  remote : bool;
  kicks : Z;
}.
#[export] Instance eta_arch : Eta vcpu_arch :=
  MkEta _ (rd mk_arch <*> reg_cached <*> reg_updated <*> launched <*> nr_sipi <*> exception <*> error
             <*> pending_req <*> exit_reason <*> exit_qualification <*> inst_len <*> eoi_exit_bitmap
             <*> irq_event <*> wbinvd_event <*> hart <*> remote <*> kicks).

Record acrn_vcpu := mk_vcpu { vio : io_vcpu; arch : vcpu_arch }.
#[export] Instance eta_vcpu : Eta acrn_vcpu := MkEta _ (rd mk_vcpu <*> vio <*> arch).

Implicit Types (v : acrn_vcpu).

Definition kick_vcpu (a : vcpu_arch) : vcpu_arch := if remote a then a⟨kicks := kicks a + 1⟩ else a.

Definition vcpu_make_request (eventid : Z) (a : vcpu_arch) : vcpu_arch :=
  kick_vcpu (a⟨pending_req := RvBits.bitmap_set_lock eventid (pending_req a)⟩).

(** [signal_event(&vcpu->events[VCPU_EVENT_VIRTUAL_INTERRUPT])] *)
Definition signal_irq (a : vcpu_arch) : vcpu_arch := a⟨irq_event := post (irq_event a)⟩.

Definition on_arch (f : vcpu_arch → vcpu_arch) v : acrn_vcpu := v⟨arch := f (arch v)⟩.

(** [bitmap_test_and_clear_lock(eventid, &pending_req)] *)
Definition take_request (eventid : Z) v : bool * acrn_vcpu :=
  let '(b, w) := RvBits.bitmap_test_and_clear_lock eventid (pending_req (arch v)) in
  (b, on_arch (λ a, a⟨pending_req := w⟩) v).

Definition init_vmcs (id : Z) v : acrn_vcpu :=
  let '(io, h) := init_host_state (vio v) (hart (arch v)) in
  let '(io, h) := init_guest_state id io h in
  mk_vcpu io ((arch v)⟨hart := h⟩).

Definition load_vmcs v : acrn_vcpu := v⟨arch := (arch v)⟨hart := load_guest_state (vio v) (hart (arch v))⟩⟩.
Definition save_vmcs v : acrn_vcpu := v⟨vio := save_guest_state (hart (arch v)) (vio v)⟩.

Definition context_switch_out := save_vmcs.
Definition context_switch_in := load_vmcs.

(** ** Registers *)

Definition get_reg v (reg : nat) : Z := vcpu_get_gpreg (vio v) reg.
Definition set_reg (reg : nat) (x : Z) v : acrn_vcpu := v⟨vio := vcpu_set_gpreg (vio v) reg x⟩.

Definition vcpu_get_rip v : Z := get_reg v CPU_REG_IP.
Definition vcpu_set_rip (x : Z) v : acrn_vcpu := set_reg CPU_REG_IP x v.
Definition vcpu_get_sp v : Z := get_reg v CPU_REG_SP.
Definition mark_updated (reg : nat) v : acrn_vcpu :=
  v⟨arch := (arch v)⟨reg_updated := RvBits.bitmap_set_lock (Z.of_nat reg) (reg_updated (arch v))⟩⟩.
Definition vcpu_set_sp (x : Z) v : acrn_vcpu := mark_updated CPU_REG_SP (set_reg CPU_REG_SP x v).

Definition vcpu_get_status v : acrn_vcpu * Z :=
  if negb (RvBits.bitmap_test (Z.of_nat CPU_REG_STATUS) (reg_updated (arch v))) then
    let '(b, cached) := RvBits.bitmap_test_and_set_lock (Z.of_nat CPU_REG_STATUS) (reg_cached (arch v)) in
    let v := v⟨arch := (arch v)⟨reg_cached := cached⟩⟩ in
    let v := if negb b && launched (arch v) then set_reg RUN_CTX_SSTATUS (hart (arch v) vsstatus) v else v in
    (v, get_reg v RUN_CTX_SSTATUS)
  else (v, get_reg v RUN_CTX_SSTATUS).

Definition vcpu_set_status (x : Z) v : acrn_vcpu :=
  mark_updated CPU_REG_STATUS (set_reg RUN_CTX_SSTATUS x v).

Definition vcpu_retain_ip v : acrn_vcpu := v⟨arch := (arch v)⟨inst_len := 0⟩⟩.

(** ** EOI-exit bitmap *)

Definition eoi_word (vector : Z) : nat := Z.to_nat ((vector &&& 0xff) / 2 ^ 6).

Definition vcpu_set_eoi_exit_bitmap (vector : Z) v : option acrn_vcpu :=
  w ← eoi_exit_bitmap (arch v) !! eoi_word vector;
  let '(b, w) := RvBits.bitmap_test_and_set_lock (vector &&& 0x3f) w in
  let v := v⟨arch := (arch v)⟨eoi_exit_bitmap := <[eoi_word vector := w]> (eoi_exit_bitmap (arch v))⟩⟩ in
  Some (if negb b then on_arch (vcpu_make_request ACRN_REQUEST_EOI_EXIT_BITMAP_UPDATE) v else v).

Definition vcpu_clear_eoi_exit_bitmap (vector : Z) v : option acrn_vcpu :=
  w ← eoi_exit_bitmap (arch v) !! eoi_word vector;
  let '(b, w) := RvBits.bitmap_test_and_clear_lock (vector &&& 0x3f) w in
  let v := v⟨arch := (arch v)⟨eoi_exit_bitmap := <[eoi_word vector := w]> (eoi_exit_bitmap (arch v))⟩⟩ in
  Some (if (b : bool) then on_arch (vcpu_make_request ACRN_REQUEST_EOI_EXIT_BITMAP_UPDATE) v else v).

Definition vcpu_reset_eoi_exit_bitmaps v : acrn_vcpu :=
  on_arch (vcpu_make_request ACRN_REQUEST_EOI_EXIT_BITMAP_UPDATE)
    (v⟨arch := (arch v)⟨eoi_exit_bitmap := replicate (length (eoi_exit_bitmap (arch v))) 0⟩⟩).

(** ** Exceptions *)

Definition IDT_DE : Z := 0.
Definition IDT_DB : Z := 1.
Definition IDT_NMI : Z := 2.
Definition IDT_BP : Z := 3.
Definition IDT_OF : Z := 4.
Definition IDT_UD : Z := 6.
Definition IDT_DF : Z := 8.
Definition IDT_TS : Z := 10.
Definition IDT_NP : Z := 11.
Definition IDT_SS : Z := 12.
Definition IDT_GP : Z := 13.
Definition IDT_PF : Z := 14.
Definition IDT_MC : Z := 18.
Definition IDT_VE : Z := 20.

Definition HX_INT_TYPE_HW_EXP : Z := 3.
Definition EXCEPTION_ERROR_CODE_VALID : Z := 8.

Definition exception_type : list Z :=
  (λ i, if bool_decide (i ∈ [8; 10; 11; 12; 13; 14; 17]%nat)
        then HX_INT_TYPE_HW_EXP ||| EXCEPTION_ERROR_CODE_VALID else HX_INT_TYPE_HW_EXP) <$> seq 0 32.

Inductive exception_kind := EXCEPTION_FAULT | EXCEPTION_TRAP | EXCEPTION_ABORT | EXCEPTION_INTERRUPT.
#[export] Instance exception_kind_eq : EqDecision exception_kind.
Proof. solve_decision. Defined.

Definition get_exception_type (vector : Z) : exception_kind :=
  if (31 <? vector) || (vector =? IDT_NMI) then EXCEPTION_INTERRUPT
  else if (vector =? IDT_DB) || (vector =? IDT_BP) || (vector =? IDT_OF) then EXCEPTION_TRAP
  else if (vector =? IDT_DF) || (vector =? IDT_MC) then EXCEPTION_ABORT
  else EXCEPTION_FAULT.

Inductive excep_class := EXCEPTION_CLASS_BENIGN | EXCEPTION_CLASS_CONT | EXCEPTION_CLASS_PF.
#[export] Instance excep_class_eq : EqDecision excep_class.
Proof. solve_decision. Defined.

Definition get_excep_class (vector : Z) : excep_class :=
  if (vector =? IDT_DE) || (vector =? IDT_TS) || (vector =? IDT_NP) || (vector =? IDT_SS) || (vector =? IDT_GP)
  then EXCEPTION_CLASS_CONT
  else if (vector =? IDT_PF) || (vector =? IDT_VE) then EXCEPTION_CLASS_PF
  else EXCEPTION_CLASS_BENIGN.

Definition is_notification_nmi : bool := false.

Definition is_class (c c' : excep_class) : bool := bool_decide (c = c').

(** [None] is an access outside [exception_type]. *)
Definition vcpu_queue_exception (vector_arg err_code_arg : Z) v : option (acrn_vcpu * Z) :=
  if 32 <=? vector_arg then Some (v, - EINVAL)
  else
    let prev_vector := exception (arch v) in
    let prev_class := get_excep_class prev_vector in
    let new_class := get_excep_class vector_arg in
    if (prev_vector =? IDT_DF) && negb (is_class new_class EXCEPTION_CLASS_BENIGN)
    then Some (on_arch (vcpu_make_request ACRN_REQUEST_TRP_FAULT) v, 0)
    else
      let '(vector, err_code) :=
        if (is_class prev_class EXCEPTION_CLASS_CONT && is_class new_class EXCEPTION_CLASS_CONT)
           || (is_class prev_class EXCEPTION_CLASS_PF && negb (is_class new_class EXCEPTION_CLASS_BENIGN))
        then (IDT_DF, 0) else (vector_arg, err_code_arg) in
      ty ← exception_type !! Z.to_nat vector;
      let v := v⟨arch := (arch v)⟨exception := vector⟩
                  ⟨error := if nonzero (ty &&& EXCEPTION_ERROR_CODE_VALID) then err_code else 0⟩⟩ in
      Some (if (vector =? IDT_NMI) && is_notification_nmi then v
            else on_arch (vcpu_make_request ACRN_REQUEST_EXCP) v, 0).

Definition HV_ARCH_VCPU_STATUS_SIE : Z := 2.
Definition HV_ARCH_VCPU_RFLAGS_RF : Z := 2 ^ 16.

Definition vcpu_inject_exception v : option (acrn_vcpu * bool) :=
  let '(b, v) := take_request ACRN_REQUEST_EXCP v in
  if (b : bool) then
    let vector := exception (arch v) in
    _ ← exception_type !! Z.to_nat vector;
    let v := v⟨arch := (arch v)⟨exception := VECTOR_INVALID⟩⟩ in
    let v := vcpu_retain_ip v in
    let v := if decide (get_exception_type vector = EXCEPTION_FAULT) then
               let '(v, st) := vcpu_get_status v in
               vcpu_set_status (st ||| HV_ARCH_VCPU_RFLAGS_RF) v
             else v in
    Some (v, true)
  else Some (v, false).

Definition vcpu_inject_extint (a : vcpu_arch) : vcpu_arch :=
  signal_irq (vcpu_make_request ACRN_REQUEST_EXTINT a).
Definition vcpu_inject_nmi (a : vcpu_arch) : vcpu_arch := signal_irq (vcpu_make_request ACRN_REQUEST_NMI a).

Definition queue (vector err : Z) v : option acrn_vcpu := fst <$> vcpu_queue_exception vector err v.
Definition vcpu_inject_gp (err : Z) v : option acrn_vcpu := queue IDT_GP err v.
Definition vcpu_inject_pf (addr err : Z) v : option acrn_vcpu := queue IDT_PF err v.
Definition vcpu_inject_ud v : option acrn_vcpu := queue IDT_UD 0 v.
Definition vcpu_inject_ss v : option acrn_vcpu := queue IDT_SS 0 v.
