(* ===== verification/Vclint.v ===== *)
(** * The virtual CLINT (arch/riscv/guest/vclint.c)

    The software-interrupt and timer registers a guest sees, on top of the
    timers of the hypervisor ([Timer]) and the requests of a vCPU ([Vcpu]). *)

From S2P Require Import Prelude Bits LinkedList Timer Schedule SchedIorr Event Sbuf IoReq Vcpu.

Definition CLINT_MEM_ADDR : Z := 0x2000000.
Definition CLINT_MEM_REGION : Z := CLINT_MEM_ADDR + 0x10000.
Definition DEFAULT_CLINT_BASE : Z := 0x2000000.

Definition CLINT_OFFSET_MSIP0 : Z := 0x00.
Definition CLINT_OFFSET_MSIP4 : Z := 0x10.
Definition CLINT_OFFSET_TIMER0 : Z := 0x4000.
Definition CLINT_OFFSET_TIMER4 : Z := 0x4020.
Definition CLINT_OFFSET_MTIME : Z := 0xBFF8.

Definition CLINT_VECTOR_SSI : Z := 2.
Definition CLINT_VECTOR_STI : Z := 0x20.
Definition EACCES : Z := 13.

(** sizeof(struct clint_regs), which is aligned to a page. *)
Definition CLINT_REGS_SIZE : Z := 0xD000.

(** struct acrn_vclint with its page of registers; [vtimer[i].timer] is the
    timer object [vtimer i] of the CPU. *)
Record acrn_vclint := mk_vclint {
  msip : list Z;
  mtimer : list Z;
  mtime : Z;
  mtip : Z;
  clint_base : Z;
}.
#[export] Instance eta_vclint : Eta acrn_vclint :=
  MkEta _ (rd mk_vclint <*> msip <*> mtimer <*> mtime <*> mtip <*> clint_base).

Definition VCLINT_TIMERS : nat := 5.
Definition vtimer (i : nat) : tmid := i.
(** The handler number of vclint_timer_expired. *)
Definition VCLINT_TIMER_EXPIRED : nat := 1.

Section vclint.
Context {W : Type} (tickrate tick : Z).

(** A VM: its I/O state, the other state of its vCPU array (MAX_VCPUS_PER_VM
    entries, created or not), its CLINT, and the timers of the CPU. *)
Record acrn_vm := mk_vm {
  iovm : io_vm (W := W);
  archs : list vcpu_arch;
  vclint : acrn_vclint;
  host_timers : timers;
}.
#[export] Instance eta_vm : Eta acrn_vm :=
  MkEta _ (rd mk_vm <*> iovm <*> archs <*> vclint <*> host_timers).

Implicit Types (vm : acrn_vm) (i : nat).

Definition set_clint (f : acrn_vclint → acrn_vclint) vm : acrn_vm := vm⟨vclint := f (vclint vm)⟩.

(** An update of [&vm->hw.vcpu[i]]. *)
Definition update_vcpu i (f : vcpu_arch → vcpu_arch) vm : option acrn_vm :=
  a ← archs vm !! i; Some (vm⟨archs := <[i := f a]> (archs vm)⟩).

Definition vclint_set_intr i vm : option acrn_vm :=
  update_vcpu i (λ a, vcpu_make_request ACRN_REQUEST_EVENT (signal_irq a)) vm.

(** ** Timers *)

Definition vclint_init_timer i vm : option (acrn_vm) :=
  ts ← initialize_timer (vtimer i) (Some VCLINT_TIMER_EXPIRED) (Z.of_nat i) 0 0 (host_timers vm);
  Some (vm⟨host_timers := ts⟩).

Definition clear_timer (ts : timers) i : timers :=
  let ts := del_timer (vtimer i) ts in
  match tobj ts !! vtimer i with
  | Some tm => set_tobj (vtimer i) (tm⟨mode := TICK_MODE_ONESHOT⟩⟨timeout := 0⟩⟨period_in_cycle := 0⟩) ts
  | None => ts
  end.

Definition vclint_reset_timer vm : acrn_vm :=
  vm⟨host_timers := foldl clear_timer (host_timers vm) (seq 0 VCLINT_TIMERS)⟩.

Definition set_timeout i (data : Z) (ts : timers) : timers :=
  match tobj ts !! vtimer i with
  | Some tm => set_tobj (vtimer i) (tm⟨timeout := data⟩) ts
  | None => ts
  end.

Definition vclint_write_tmr i (data : Z) vm : option (acrn_vm) :=
  let ts := set_timeout i data (del_timer (vtimer i) (host_timers vm)) in
  '(ts, _) ← RvTimer.add_timer tickrate tick (vtimer i) ts;
  Some (vm⟨host_timers := ts⟩).

Definition vclint_get_tsc_deadline_csr vm : Z := 0.

Definition vclint_set_tsc_deadline_csr i (val : Z) vm : option (acrn_vm) :=
  let ts := set_timeout i val (del_timer (vtimer i) (host_timers vm)) in
  if negb (val =? 0) then
    '(ts, _) ← RvTimer.add_timer tickrate tick (vtimer i) ts;
    Some (vm⟨host_timers := ts⟩)
  else Some (vm⟨host_timers := ts⟩).

(** In interrupt context, for the vCPU the timer belongs to. *)
Definition vclint_timer_expired i vm : option (acrn_vm) :=
  vclint_set_intr i (set_clint (λ c, c⟨mtip := RvBits.set_bit (Z.of_nat i) (mtip c)⟩) vm).

Definition vclint_free vm : acrn_vm :=
  vm⟨host_timers := foldl (λ ts i, del_timer (vtimer i) ts) (host_timers vm) (seq 0 VCLINT_TIMERS)⟩.

(** ** Registers *)

Definition vclint_write_msip i (data : Z) vm : option (acrn_vm) :=
  vclint_set_intr i (set_clint (λ c, c⟨msip := <[i := data &&& 1]> (msip c)⟩) vm).

(** The switch statements: the register at an offset. *)
Inductive clint_reg := RMsip (i : nat) | RTimer (i : nat) | RMtime.
Definition decode_reg (offset : Z) : option clint_reg :=
  if (CLINT_OFFSET_MSIP0 <=? offset) && (offset <=? CLINT_OFFSET_MSIP4) && (offset mod 4 =? 0)
  then Some (RMsip (Z.to_nat ((offset - CLINT_OFFSET_MSIP0) / 2 ^ 2)))
  else if (CLINT_OFFSET_TIMER0 <=? offset) && (offset <=? CLINT_OFFSET_TIMER4) && (offset mod 8 =? 0)
  then Some (RTimer (Z.to_nat ((offset - CLINT_OFFSET_TIMER0) / 2 ^ 3)))
  else if offset =? CLINT_OFFSET_MTIME then Some RMtime
  else None.

Definition vclint_read (offset_arg : Z) vm : Z * Z :=
  let c := vclint vm in
  let offset := u32 (offset_arg - CLINT_MEM_ADDR) in
  if CLINT_REGS_SIZE <? offset then (0, - EACCES)
  else match decode_reg offset with
       | Some (RTimer i) => (default 0 (mtimer c !! i), 0)
       | Some (RMsip i) => (default 0 (msip c !! i), 0)
       | Some RMtime => (mtime c, 0)
       | None => (0, - EACCES)
       end.

Definition vclint_write (offset data : Z) vm : option (acrn_vm * Z) :=
  let offset := u32 (offset - clint_base (vclint vm)) in
  if offset <=? CLINT_REGS_SIZE then
    match decode_reg offset with
    | Some (RMsip i) => vm ← vclint_write_msip i (u32 data) vm; Some (vm, 0)
    | Some (RTimer i) => vm ← vclint_write_tmr i data vm; Some (vm, 0)
    | Some RMtime => Some (vclint_free (set_clint (λ c, c⟨mtime := data⟩) vm), 0)
    | None => Some (vm, - EACCES)
    end
  else Some (vm, - EACCES).

Definition vclint_reset vm : acrn_vm :=
  vclint_reset_timer
    (set_clint (λ c, mk_vclint (replicate VCLINT_TIMERS 0) (replicate VCLINT_TIMERS 0) 0 (mtip c)
                       DEFAULT_CLINT_BASE) vm).

Definition vclint_get_clintbase vm : Z := clint_base (vclint vm).
Definition vclint_set_clintbase (new : Z) vm : acrn_vm * Z :=
  (if negb (clint_base (vclint vm) =? new) then set_clint (λ c, c⟨clint_base := new⟩) vm else vm, 0).

Fixpoint init_timers (ids : list nat) vm : option (acrn_vm) :=
  match ids with
  | [] => Some vm
  | i :: ids => vm ← vclint_init_timer i vm; init_timers ids vm
  end.

(** [tick] is what get_tick() returns. *)
Definition vclint_init vm : option (acrn_vm) :=
  init_timers (seq 0 VCLINT_TIMERS)
    (set_clint (λ c, c⟨clint_base := DEFAULT_CLINT_BASE⟩⟨mtime := tick⟩) vm).

(** ** Pending interrupts *)

(** The vector it finds, and the result it returns. *)
Definition vclint_find_deliverable_intr i vm : option Z * bool :=
  let c := vclint vm in
  (if nonzero (default 0 (msip c !! i) &&& 1) then Some CLINT_VECTOR_SSI
   else if RvBits.test_bit (Z.of_nat i) (mtip c) then Some CLINT_VECTOR_STI else None, false).

Definition vclint_has_pending_intr i vm : bool := nonzero (default 0 (msip (vclint vm) !! i) &&& 1).

Definition vclint_has_pending_delivery_intr i vm : option (acrn_vm * bool) :=
  vm ← (if vclint_has_pending_intr i vm
        then update_vcpu i (vcpu_make_request ACRN_REQUEST_EVENT) vm else Some vm);
  a ← archs vm !! i;
  Some (vm, nonzero (pending_req a)).

(** The interrupt of the timers of this CPU: the handler of Timer.v, with the
    callbacks of the expired timers of this VM. *)
Fixpoint run_callbacks (calls : list (nat * Z)) vm : option (acrn_vm) :=
  match calls with
  | [] => Some vm
  | (f, priv) :: calls =>
      vm ← (if decide (f = VCLINT_TIMER_EXPIRED) then vclint_timer_expired (Z.to_nat priv) vm else Some vm);
      run_callbacks calls vm
  end.

Definition timer_interrupt (ticks : nat → Z) (last : Z) vm : option (acrn_vm) :=
  ts ← RvTimer.hv_timer_handler tickrate ticks last (host_timers vm);
  run_callbacks (drop (length (fired (host_timers vm))) (fired ts)) (vm⟨host_timers := ts⟩).

(** ** Access from the guest *)

(** The access is [vcpu->req]; [clint_write_access_may_valid] and
    [clint_read_access_may_valid] are constantly true. *)
Definition clint_access_vmexit_handler i vm : option (acrn_vm * Z) :=
  v ← vcpus (iovm vm) !! i;
  if 0 <=? decode_instruction v then
    let m := reqs (req v) in
    let offset := u32 (address m) in
    if direction m =? ACRN_IOREQ_DIR_WRITE then
      let '(v, err) := emulate_instruction v in
      let vm := vm⟨iovm := set_vcpu i v (iovm vm)⟩ in
      if err =? 0 then '(vm, _) ← vclint_write offset (value m) vm; Some (vm, err) else Some (vm, err)
    else
      let '(data, _) := vclint_read offset vm in
      let v := v⟨req := (req v)⟨reqs := m⟨value := data⟩⟩⟩ in
      let '(v, err) := emulate_instruction v in
      Some (vm⟨iovm := set_vcpu i v (iovm vm)⟩, err)
  else Some (vm, - EINVAL).
End vclint.

(** ** Proofs *)

Section proofs.
Context {W : Type} (tickrate tick : Z).
Implicit Types (vm : acrn_vm (W := W)) (i : nat).

(** The five timers belong to the vCPUs of the same number; no other timer of
    the CPU calls vclint_timer_expired for this VM. *)
Record vclint_wf vm : Prop := {
  vw_timers : timers_wf (host_timers vm);
  vw_vtimer i : (i < VCLINT_TIMERS)%nat → ∃ tm, tobj (host_timers vm) !! vtimer i = Some tm
    ∧ func tm = Some VCLINT_TIMER_EXPIRED ∧ mode tm = TICK_MODE_ONESHOT;
  vw_owner t tm : tobj (host_timers vm) !! t = Some tm → func tm = Some VCLINT_TIMER_EXPIRED →
    ∃ i, (i < VCLINT_TIMERS)%nat ∧ t = vtimer i ∧ priv_data tm = Z.of_nat i;
  vw_archs : length (archs vm) = MAX_VCPUS_PER_VM;
  vw_reqs i a : archs vm !! i = Some a → word 64 (pending_req a);
  vw_mtip : word 64 (mtip (vclint vm));
  vw_base : clint_base (vclint vm) = DEFAULT_CLINT_BASE;
}.

Lemma rv_set_bit_spec n w j : 0 ≤ n < 31 → 0 ≤ j → word 64 w →
  word 64 (RvBits.set_bit n w) ∧ Z.testbit (RvBits.set_bit n w) j = Z.testbit w j || bool_decide (j = n).
Proof.
  intros Hn Hj Hw. change (RvBits.set_bit n w) with (bitmap_set_lock (BitmapOps := riscv_bitmap) n w).
  split; [by apply (bs_set_word (lim := 31))|by apply (bs_set (lim := 31))].
Qed.

(** A pending request with its signal. *)
Definition requested (a : vcpu_arch) : Prop :=
  Z.testbit (pending_req a) ACRN_REQUEST_EVENT = true ∧ irq_event a = post (irq_event a).

Lemma make_request_spec e a : 0 ≤ e < 31 → word 64 (pending_req a) →
  word 64 (pending_req (vcpu_make_request e a))
  ∧ (∀ j, 0 ≤ j → Z.testbit (pending_req (vcpu_make_request e a)) j
                  = Z.testbit (pending_req a) j || bool_decide (j = e))
  ∧ irq_event (vcpu_make_request e a) = irq_event a.
Proof.
  intros He Hw.
  assert (Hs : ∀ j, 0 ≤ j → word 64 (RvBits.bitmap_set_lock e (pending_req a))
    ∧ Z.testbit (RvBits.bitmap_set_lock e (pending_req a)) j
      = Z.testbit (pending_req a) j || bool_decide (j = e)) by (intros j Hj; by apply rv_set_bit_spec).
  unfold vcpu_make_request, kick_vcpu. generalize dependent (RvBits.bitmap_set_lock e (pending_req a)).
  intros w Hs. case_if; simpl; (split_and!; [by apply (Hs 0)|by intros; apply Hs|done]).
Qed.

(** The request words of all vCPUs are 64-bit. *)
Definition reqs_word vm : Prop := ∀ i a, archs vm !! i = Some a → word 64 (pending_req a).

(** One expired timer: the bit of its vCPU, a request and a signal; nothing
    else of the VM changes. *)
Lemma timer_expired_spec i vm : (i < VCLINT_TIMERS)%nat → length (archs vm) = MAX_VCPUS_PER_VM →
  word 64 (mtip (vclint vm)) → reqs_word vm →
  ∃ m l, vclint_timer_expired i vm = Some (vm⟨vclint := (vclint vm)⟨mtip := m⟩⟩⟨archs := l⟩)
    ∧ word 64 m ∧ (∀ j, 0 ≤ j → Z.testbit m j = Z.testbit (mtip (vclint vm)) j || bool_decide (j = Z.of_nat i))
    ∧ length l = MAX_VCPUS_PER_VM ∧ (∀ j, j ≠ i → l !! j = archs vm !! j)
    ∧ ∃ a, l !! i = Some a ∧ word 64 (pending_req a) ∧ requested a.
Proof.
  unfold VCLINT_TIMERS. intros Hi Hl Hm Hr.
  destruct (lookup_lt_is_Some_2 (archs vm) i) as [a Ha]; [rewrite Hl; unfold MAX_VCPUS_PER_VM; lia|].
  unfold vclint_timer_expired, vclint_set_intr, update_vcpu, set_clint. set (vm1 := vm⟨vclint := _⟩).
  change (archs vm1) with (archs vm). rewrite Ha. subst vm1. cbn [mbind option_bind].
  destruct (make_request_spec ACRN_REQUEST_EVENT (signal_irq a)) as (Hw & Hb & He);
    [unfold ACRN_REQUEST_EVENT; lia|exact (Hr i a Ha)|].
  eexists _, _. split; [reflexivity|].
  split; [by apply (rv_set_bit_spec _ _ 0); [lia..|]|].
  split; [intros j Hj; by apply (rv_set_bit_spec _ _ j); [lia..|]|].
  split; [by rewrite length_insert|]. split; [intros j Hj; by rewrite list_lookup_insert_ne|].
  eexists. split; [apply list_lookup_insert_eq; by eapply lookup_lt_Some|]. split; [done|].
  split; [rewrite Hb by done; by rewrite bool_decide_true, orb_true_r|by rewrite He].
Qed.

(** The calls of the timers of a VM. *)
Definition call (i : nat) : nat * Z := (VCLINT_TIMER_EXPIRED, Z.of_nat i).

Lemma run_callbacks_spec calls : ∀ vm,
  (∀ p, (VCLINT_TIMER_EXPIRED, p) ∈ calls → ∃ i, (i < VCLINT_TIMERS)%nat ∧ p = Z.of_nat i) →
  length (archs vm) = MAX_VCPUS_PER_VM → word 64 (mtip (vclint vm)) → reqs_word vm →
  ∃ m l, run_callbacks calls vm = Some (vm⟨vclint := (vclint vm)⟨mtip := m⟩⟩⟨archs := l⟩)
    ∧ word 64 m ∧ (∀ i, Z.testbit m (Z.of_nat i)
                        = Z.testbit (mtip (vclint vm)) (Z.of_nat i) || bool_decide (call i ∈ calls))
    ∧ length l = MAX_VCPUS_PER_VM
    ∧ ∀ i, if bool_decide (call i ∈ calls) then ∃ a, l !! i = Some a ∧ word 64 (pending_req a) ∧ requested a
           else l !! i = archs vm !! i.
Proof.
  induction calls as [|[f p] calls IH]; intros vm Hc Hl Hm Hr; cbn [run_callbacks].
  { exists (mtip (vclint vm)), (archs vm). split; [by destruct vm as [? ? [] ?]|]. split_and!; [done| |done|].
    - intros i. by rewrite bool_decide_false, orb_false_r by apply not_elem_of_nil.
    - intros i. by rewrite bool_decide_false by apply not_elem_of_nil. }
  destruct (decide (f = VCLINT_TIMER_EXPIRED)) as [->|Hf]; cbn [mbind option_bind].
  - destruct (Hc p) as (i & Hi & ->); [left|]. rewrite Nat2Z.id.
    destruct (timer_expired_spec i vm) as (m & l & -> & Hm1 & Hb & Hl1 & Hne & a & Ha & Hw & Hq); [done..|].
    cbn [mbind option_bind].
    destruct (IH (vm⟨vclint := (vclint vm)⟨mtip := m⟩⟩⟨archs := l⟩)) as (m' & l' & -> & Hm' & Hb' & Hl' & Hr'); [|done..| |].
    + intros p Hp. apply Hc. by right.
    + intros j b. simpl. destruct (decide (j = i)) as [->|Hj].
      * rewrite Ha. by intros [= <-].
      * rewrite Hne by done. apply Hr.
    + eexists _, _. split; [reflexivity|]. split_and!; [done| |done|]; intros j.
      * rewrite Hb'. simpl. rewrite Hb by lia. rewrite <- orb_assoc. f_equal.
        apply eq_bool_prop_intro. rewrite orb_True, !bool_decide_spec, elem_of_cons.
        unfold call. rewrite pair_equal_spec. naive_solver lia.
      * specialize (Hr' j). simpl in Hr'. revert Hr'. case_bool_decide as Hj.
        { by rewrite bool_decide_true by by right. }
        destruct (decide (j = i)) as [->|Hji]; intros ->.
        { rewrite bool_decide_true by left. eauto. }
        rewrite bool_decide_false; [by apply Hne|]. intros [[=]|]%elem_of_cons; [lia|done].
  - destruct (IH vm) as (m' & l' & -> & Hm' & Hb' & Hl' & Hr'); [|done..|].
    { intros q Hq. apply Hc. by right. }
    eexists _, _. split; [reflexivity|].
    assert (Hi : ∀ j, call j ∈ (f, p) :: calls ↔ call j ∈ calls).
    { intros j. rewrite elem_of_cons. unfold call. naive_solver. }
    split_and!; [done| |done|]; intros j; [rewrite Hb'|specialize (Hr' j)]; by rewrite (bool_decide_ext _ _ (Hi j)).
Qed.
(** The timer of a vCPU is running and due at [now]. *)
Definition due (now : Z) vm i : Prop := vtimer i ∈ timer_list (host_timers vm) ∧ tmo (tobj (host_timers vm)) (vtimer i) ≤ now.
#[global] Instance due_dec now vm i : Decision (due now vm i).
Proof. unfold due. apply _. Defined.

Lemma vclint_calls now vm : vclint_wf vm →
  let calls := concat (call_of (tobj (host_timers vm)) <$> expired now (host_timers vm)) in
  (∀ p, (VCLINT_TIMER_EXPIRED, p) ∈ calls → ∃ i, (i < VCLINT_TIMERS)%nat ∧ p = Z.of_nat i ∧ due now vm i)
  ∧ (∀ i, (i < VCLINT_TIMERS)%nat → due now vm i → call i ∈ calls).
Proof.
  intros Hw calls. subst calls. split.
  - intros p (l & Hl & Hp)%list_elem_of_In%in_concat. revert Hl Hp. rewrite <- !list_elem_of_In.
    intros (t & -> & Ht)%list_elem_of_fmap.
    apply list_elem_of_filter in Ht as [Ht Hin]. unfold call_of.
    destruct (tobj (host_timers vm) !! t) as [tm|] eqn:E; [|by intros ?%not_elem_of_nil].
    destruct (func tm) as [f|] eqn:Ef; [|by intros ?%not_elem_of_nil].
    intros [= <- ->]%list_elem_of_singleton. destruct (vw_owner _ Hw t tm) as (i & Hi & -> & Hp); [done..|].
    exists i. by rewrite <- Hp.
  - intros i Hi [Hin Ht]. destruct (vw_vtimer _ Hw i Hi) as (tm & E & Ef & _).
    destruct (vw_owner _ Hw _ _ E Ef) as (j & _ & Hj & Hp). unfold vtimer in Hj. subst j.
    apply list_elem_of_In, in_concat. exists (call_of (tobj (host_timers vm)) (vtimer i)).
    rewrite <- !list_elem_of_In. split.
    + apply list_elem_of_fmap. exists (vtimer i). split; [done|]. by apply list_elem_of_filter.
    + unfold call_of. rewrite E, Ef, Hp. by left.
Qed.
(** The timers of the vCPUs keep their owners when only timeouts change. *)
Lemma static_owner vm ts : (∀ t, static <$> tobj ts !! t = static <$> tobj (host_timers vm) !! t) → vclint_wf vm →
  (∀ i, (i < VCLINT_TIMERS)%nat → ∃ tm, tobj ts !! vtimer i = Some tm
     ∧ func tm = Some VCLINT_TIMER_EXPIRED ∧ mode tm = TICK_MODE_ONESHOT)
  ∧ ∀ t tm, tobj ts !! t = Some tm → func tm = Some VCLINT_TIMER_EXPIRED →
     ∃ i, (i < VCLINT_TIMERS)%nat ∧ t = vtimer i ∧ priv_data tm = Z.of_nat i.
Proof.
  intros Hs Hw. split.
  - intros i Hi. destruct (vw_vtimer _ Hw i Hi) as (tm & E & Ef & Em). specialize (Hs (vtimer i)). rewrite E in Hs.
    apply fmap_Some in Hs as (tm' & E' & [= ? ? ? ?]). exists tm'. split_and!; congruence.
  - intros t tm E Ef. specialize (Hs t). rewrite E in Hs. symmetry in Hs.
    apply fmap_Some in Hs as (tm' & E' & [= ? ? ? ?]).
    destruct (vw_owner _ Hw t tm') as (i & ? & ? & ?); [done|congruence|]. exists i. split_and!; [done..|congruence].
Qed.

(** What the timer interrupt does to the guest: exactly the vCPUs whose timers
    are due get their bit of mtip, a request and a signal. *)
Lemma timer_interrupt_spec ticks last vm : vclint_wf vm → (∀ k, ticks O ≤ ticks k) →
  no_wrap ticks (host_timers vm) →
  Z.of_nat (length (expired (ticks O) (host_timers vm))) < MAX_TIMER_ACTIONS →
  ∃ vm', timer_interrupt tickrate ticks last vm = Some vm' ∧ vclint_wf vm' ∧ iovm vm' = iovm vm
    ∧ msip (vclint vm') = msip (vclint vm)
    ∧ ∀ i, (i < VCLINT_TIMERS)%nat →
      Z.testbit (mtip (vclint vm')) (Z.of_nat i)
        = Z.testbit (mtip (vclint vm)) (Z.of_nat i) || bool_decide (due (ticks O) vm i)
      ∧ if bool_decide (due (ticks O) vm i)
        then vtimer i ∉ timer_list (host_timers vm') ∧ ∃ a, archs vm' !! i = Some a ∧ requested a
        else archs vm' !! i = archs vm !! i.
Proof.
  intros Hw Hm Hn Hl. destruct (vclint_calls (ticks O) vm Hw) as [Hc1 Hc2].
  destruct (rv_handler_loop tickrate ticks last (host_timers vm)) as (ts1 & Hrun & Hw1 & _ & Hf & Hin & Hall); [apply Hw|done..|].
  pose proof (λ x, rv_handler_static _ _ _ _ _ x Hrun) as Hst.
  unfold timer_interrupt. rewrite Hrun. cbn [mbind option_bind].
  set (ts2 := RvTimer.update_physical_timer tickrate last ts1) in *.
  assert (Hf2 : fired ts2 = fired ts1).
  { unfold ts2, RvTimer.update_physical_timer. by destruct (first_timeout ts1). }
  assert (Hi2 : timer_list ts2 = timer_list ts1 ∧ tobj ts2 = tobj ts1) by apply rv_update_inert.
  destruct Hi2 as [El Eo]. clearbody ts2. rewrite Hf2, Hf, drop_app_length.
  destruct (run_callbacks_spec (concat (call_of (tobj (host_timers vm)) <$> expired (ticks O) (host_timers vm)))
    (vm⟨host_timers := ts2⟩)) as (m & l & Hcb & Hwm & Hb & Hll & Hr).
  { intros p Hp. destruct (Hc1 p Hp) as (i & ? & ? & _). by exists i. }
  { apply Hw. } { apply Hw. } { exact (vw_reqs _ Hw). }
  eexists. split; [exact Hcb|]. destruct (static_owner vm ts2 Hst Hw) as [Ho1 Ho2].
  assert (Hd : ∀ i, (i < VCLINT_TIMERS)%nat →
    bool_decide (call i ∈ concat (call_of (tobj (host_timers vm)) <$> expired (ticks O) (host_timers vm)))
    = bool_decide (due (ticks O) vm i)).
  { intros i Hi. apply bool_decide_ext. split; [|by apply Hc2].
    intros (j & _ & Hj & Hd)%Hc1. by assert (i = j) as -> by lia. }
  split_and!; [|done..|].
  - split; simpl; [by eapply timers_wf_inert|done..| |done|apply Hw].
    intros i a Ha. specialize (Hr i). revert Hr. case_bool_decide; rewrite Ha; [by intros (? & [= <-] & ? & _)|].
    intros Hr. by apply (vw_reqs _ Hw i).
  - intros i Hi. rewrite <- (Hd i Hi). specialize (Hb i). specialize (Hr i). split; [exact Hb|].
    revert Hr. case_bool_decide as Hdi; [|done]. intros (a & Ha & _ & Hq). split; [|by exists a]. simpl. rewrite El, Hin.
    rewrite <- bool_decide_eq_true, (Hd i Hi), bool_decide_eq_true in Hdi. destruct Hdi as [_ Hdi].
    destruct (vw_vtimer _ Hw i Hi) as (tm & E & _ & Em).
    intros [_ [?|Hp]]; [lia|]. unfold periodic in Hp. by rewrite E, Em in Hp.
Qed.
(** The address of mtimecmp of a hart. *)
Definition mtimecmp_addr i : Z := CLINT_MEM_ADDR + CLINT_OFFSET_TIMER0 + 8 * Z.of_nat i.

Lemma vclint_write_mtimecmp i d vm : (i < VCLINT_TIMERS)%nat → clint_base (vclint vm) = DEFAULT_CLINT_BASE →
  vclint_write tickrate tick (mtimecmp_addr i) d vm
  = vm ← vclint_write_tmr tickrate tick i d vm; Some (vm, 0).
Proof.
  unfold VCLINT_TIMERS, vclint_write. intros Hi ->. by do 5 (destruct i as [|i]; [reflexivity|]); lia.
Qed.

(** Writing mtimecmp arms the timer of the hart for exactly that time. *)
Lemma write_tmr_spec i d vm : vclint_wf vm → (i < VCLINT_TIMERS)%nat → 0 < d →
  ∃ ts, vclint_write_tmr tickrate tick i d vm = Some (vm⟨host_timers := ts⟩)
    ∧ vclint_wf (vm⟨host_timers := ts⟩)
    ∧ ∀ now j, (j < VCLINT_TIMERS)%nat →
      due now (vm⟨host_timers := ts⟩) j ↔ if decide (j = i) then d ≤ now else due now vm j.
Proof.
  intros Hw Hi Hd. destruct (vw_vtimer _ Hw i Hi) as (tm & E & Ef & Em).
  unfold vclint_write_tmr, set_timeout. rewrite del_timer_tobj, E.
  set (ts0 := set_tobj _ _ _).
  assert (Hni : vtimer i ∉ timer_list ts0).
  { simpl. rewrite del_timer_list. apply not_in_del, Hw. }
  assert (Hw0 : timers_wf ts0) by (apply set_tobj_wf; [done|apply del_timer_wf, Hw]).
  assert (E0 : tobj ts0 = <[vtimer i := tm⟨timeout := d⟩]> (tobj (host_timers vm))).
  { unfold ts0. simpl. by rewrite del_timer_tobj. }
  assert (El0 : timer_list ts0 = Seq.del (vtimer i) (timer_list (host_timers vm))).
  { unfold ts0. simpl. by rewrite del_timer_list. }
  clearbody ts0. pose proof (lookup_insert_eq (tobj (host_timers vm)) (vtimer i) (tm⟨timeout := d⟩)) as Hlk.
  rewrite <- E0 in Hlk.
  destruct (rv_add_timer_spec tickrate tick (vtimer i) _ ts0 Hw0 Hlk) as (ts1 & l1 & l2 & Hadd & Hw1 & Esp & El & _);
    [by simpl; rewrite Ef|done|by simpl; rewrite Em|done|].
  destruct (rv_add_timer_frame _ _ _ _ _ _ _ Hlk Em Hadd) as [Eo _].
  rewrite Hadd. cbn [mbind option_bind]. exists ts1. split; [done|].
  assert (Hst : ∀ t, static <$> tobj ts1 !! t = static <$> tobj (host_timers vm) !! t).
  { intros t. rewrite Eo, E0. destruct (decide (t = vtimer i)) as [->|]; [by rewrite lookup_insert_eq, E|].
    by rewrite lookup_insert_ne. }
  destruct (static_owner vm ts1 Hst Hw). split; [by split; simpl; try done; apply Hw|].
  intros now j Hj. unfold due. simpl. unfold tmo. rewrite Eo, E0, El. unfold vtimer in *. case_decide as Hji.
  - subst j. rewrite lookup_insert_eq. simpl. set_solver.
  - rewrite lookup_insert_ne by done. enough (j ∈ l1 ++ i :: l2 ↔ j ∈ timer_list (host_timers vm)) by naive_solver.
    transitivity (j ∈ l1 ++ l2); [set_solver|]. rewrite <- Esp, El0, elem_of_seq_del by apply Hw. naive_solver.
Qed.

End proofs.

(** A VM with its timers as vclint_init leaves them. *)
Definition ex_arch : vcpu_arch :=
  mk_arch 0 0 false 0 VECTOR_INVALID 0 0 0 0 0 [0; 0; 0; 0] (mk_event false None) (mk_event false None) (λ _, 0) false 0.
Definition ex_clint_vm : acrn_vm (W := Z) :=
  mk_vm (ex_vm init_event) (replicate MAX_VCPUS_PER_VM ex_arch)
    (mk_vclint (replicate 5 0) (replicate 5 0) 0 0 DEFAULT_CLINT_BASE)
    (mk_timers (list_to_map ((λ i, (vtimer i, mk_hv_timer TICK_MODE_ONESHOT 0 0 (Some VCLINT_TIMER_EXPIRED) (Z.of_nat i)))
                               <$> seq 0 5)) [] None []).

Lemma ex_clint_vm_wf : vclint_wf ex_clint_vm.
Proof.
  split.
  - split; [constructor|by intros ? ?%not_elem_of_nil|constructor].
  - unfold VCLINT_TIMERS. intros i Hi. do 5 (destruct i as [|i]; [by eexists|]). lia.
  - intros t tm Ht _. assert (Hall : map_Forall (λ t tm, (t < VCLINT_TIMERS)%nat ∧ priv_data tm = Z.of_nat t)
      (tobj (host_timers ex_clint_vm))) by (apply (bool_decide_unpack _); vm_compute; exact I).
    destruct (Hall _ _ Ht). by exists t.
  - done.
  - intros i a Ha. apply lookup_replicate in Ha as [-> _]. done.
  - done.
  - done.
Qed.

