(* ===== verification/Vmexit.v ===== *)
(** * The vCPU thread and VM exits

    The loop every vCPU thread runs (vcpu_thread of common/hv_main.c): handling
    the requests made of the vCPU (arch/riscv/guest/virq.c), entering the guest
    and leaving it (run_vcpu of vcpu.c), and the dispatch of the exits
    (vmexit.c, vio.c, vmcall.c). The assembly routine that enters the guest, the
    hypercalls and the interrupt dispatch of the CPU are parameters. A handler
    that may block returns where it waits. *)

From stdpp Require Import relations.
From S2P Require Import Prelude Bits LinkedList Timer Schedule SchedIorr Event Sbuf IoReq Vcpu Vclint.

(** ** Requests *)

Definition is_guest_irq_enabled (v : acrn_vcpu) : acrn_vcpu * bool :=
  let '(v, st) := vcpu_get_status v in (v, nonzero (st &&& HV_ARCH_VCPU_STATUS_SIE)).

Definition write_hvip (x : Z) (v : acrn_vcpu) : acrn_vcpu :=
  on_arch (λ a, a⟨hart := cpu_csr_write hvip x (hart a)⟩) v.

(** The vector is a constant of the code. *)
Definition vcpu_do_pending_extint (i : nat) (v : acrn_vcpu) : acrn_vcpu * bool :=
  if decide (i = BSP_CPU_ID) then
    let vector := NR_MAX_VECTOR in
    if vector <=? NR_MAX_VECTOR then (write_hvip vector v, true) else (v, false)
  else (v, false).

(** How acrn_handle_pending_request ends: with a result, or waiting for
    [events[VCPU_EVENT_SYNC_WBINVD]]. *)
Inductive pend := PDone (ret : Z) | PWait.

(** Exit codes and the entries of the dispatch tables. *)
Definition HX_EXIT_PF_GUEST_LOAD : Z := 0x15.
Definition HX_EXIT_PF_GUEST_STORE : Z := 0x17.
Definition HX_VMEXIT_TYPE_MASK : Z := 0x8000000000000000.
Definition HX_VMEXIT_REASON_MASK : Z := 0xFFFFFFFF.
Definition HX_INT_INFO_VALID : Z := 2 ^ 31.
Definition HX_INT_TYPE_MASK : Z := 0x700.
Definition HX_INT_TYPE_EXT_INT : Z := 0.

Inductive vm_exit_handler :=
  | unhandled_vmexit_handler | undefined_vmexit_handler | external_interrupt_vmexit_handler
  | exception_vmexit_handler | vmcall_vmexit_handler | pf_vmexit_handler
  | s2pt_violation_vmexit_handler | hlt_vmexit_handler.

(** [None] is a NULL handler, in an entry the initialiser leaves out. *)
Definition interrupt_dispatch_table : list (option vm_exit_handler) :=
  [ Some undefined_vmexit_handler; Some unhandled_vmexit_handler; Some undefined_vmexit_handler;
    Some unhandled_vmexit_handler; None; Some unhandled_vmexit_handler; Some undefined_vmexit_handler;
    Some unhandled_vmexit_handler; None; Some external_interrupt_vmexit_handler;
    Some undefined_vmexit_handler; Some unhandled_vmexit_handler ]
  ++ replicate 22 None ++ [ Some unhandled_vmexit_handler ].

Definition exception_dispatch_table : list (option vm_exit_handler) :=
  [ Some exception_vmexit_handler; Some exception_vmexit_handler; Some exception_vmexit_handler;
    Some exception_vmexit_handler; Some exception_vmexit_handler; None; Some exception_vmexit_handler;
    Some exception_vmexit_handler; Some unhandled_vmexit_handler; Some unhandled_vmexit_handler;
    Some vmcall_vmexit_handler; Some unhandled_vmexit_handler; Some pf_vmexit_handler;
    Some pf_vmexit_handler; Some unhandled_vmexit_handler; Some pf_vmexit_handler;
    None; None; None; None; Some s2pt_violation_vmexit_handler; Some s2pt_violation_vmexit_handler;
    Some hlt_vmexit_handler; Some s2pt_violation_vmexit_handler ].

Definition CPU_REG_A6 : nat := 16.
Definition CPU_REG_A7 : nat := 17.
Definition VMCALL_TYPE_HYPERCALL : Z := 0x0A000000.
Definition HC_INITIALIZE_TRUSTY : Z := 0x80000070.
Definition HC_WORLD_SWITCH : Z := 0x80000071.
Definition HC_SAVE_RESTORE_SWORLD_CTX : Z := 0x80000072.

(** How a handler ends: with a result, after the test of hlt_vmexit_handler
    with the call of wait_event ahead, or inside emulate_io. *)
Inductive vmexit := XDone (ret : Z) | XHalt | XIo (e : emu).

Section vmexit.
Context {W : Type} (tickrate tick : Z).
Abbreviation acrn_vm := (acrn_vm (W := W)).

(** dispatch_sos_hypercall (vmcall.c), and dispatch_interrupt (irq.c), for the
    vCPU of the given number. *)
Context (dispatch_sos_hypercall : nat → Z → acrn_vm → option (acrn_vm * Z)).
Context (dispatch_interrupt : nat → acrn_vm → option acrn_vm).

Implicit Types (vm : acrn_vm) (v : acrn_vcpu) (i : nat).

(** [&vm->hw.vcpu[i]] *)
Definition get_vcpu i vm : option acrn_vcpu :=
  io ← vcpus (iovm vm) !! i; a ← archs vm !! i; Some (mk_vcpu io a).
Definition put_vcpu i v vm : acrn_vm :=
  vm⟨iovm := set_vcpu i (vio v) (iovm vm)⟩⟨archs := <[i := arch v]> (archs vm)⟩.

Definition vcpu_inject_intr i vm (guest_irq_enabled injected : bool) v : acrn_vcpu :=
  if guest_irq_enabled && negb injected then
    let '(vector, found) := vclint_find_deliverable_intr i vm in
    if (found : bool) then write_hvip (default 0 vector) v else v
  else v.

Definition acrn_inject_pending_intr i vm (injected : bool) v : acrn_vcpu :=
  let '(v, guest_irq_enabled) := is_guest_irq_enabled v in
  let '(v, ret) :=
    if guest_irq_enabled && negb injected then
      let '(b, v) := take_request ACRN_REQUEST_EXTINT v in
      if (b : bool) then vcpu_do_pending_extint i v else (v, injected)
    else (v, injected) in
  let '(b, v) := take_request ACRN_REQUEST_EVENT v in
  if (b : bool) then vcpu_inject_intr i vm guest_irq_enabled ret v else v.

(** acrn_handle_pending_request after the wait for WBINVD. Flushes of the
    translation caches and the update of the EOI-exit fields are empty. *)
Definition handle_after_wbinvd i vm v : option (acrn_vcpu * pend) :=
  let '(_, v) := take_request ACRN_REQUEST_EPT_FLUSH v in
  let '(_, v) := take_request ACRN_REQUEST_VPID_FLUSH v in
  let '(_, v) := take_request ACRN_REQUEST_EOI_EXIT_BITMAP_UPDATE v in
  '(v, injected) ← vcpu_inject_exception v;
  Some (acrn_inject_pending_intr i vm injected v, PDone 0).

Definition acrn_handle_pending_request i vm v : option (acrn_vcpu * pend) :=
  let '(b, v) := take_request ACRN_REQUEST_INIT_VMCS v in
  let v := if (b : bool) then init_vmcs (Z.of_nat i) v else v in
  let '(b, v) := take_request ACRN_REQUEST_TRP_FAULT v in
  if (b : bool) then Some (v, PDone (- EFAULT))
  else
    let '(b, v) := take_request ACRN_REQUEST_WAIT_WBINVD v in
    if (b : bool) then
      '(ev, go) ← wait_enter (thread (vio v)) (wbinvd_event (arch v));
      let v := on_arch (λ a, a⟨wbinvd_event := ev⟩) v in
      if (go : bool) then handle_after_wbinvd i vm v else Some (v, PWait)
    else handle_after_wbinvd i vm v.

(** The vCPU runs again while it waits for WBINVD. *)
Definition handle_pending_resume i vm v : option (acrn_vcpu * pend) :=
  let '(ev, go) := wait_test (wbinvd_event (arch v)) in
  let v := on_arch (λ a, a⟨wbinvd_event := ev⟩) v in
  if (go : bool) then handle_after_wbinvd i vm v else Some (v, PWait).

(** ** Entering and leaving the guest *)

(** [reset_event(&vcpu->events[VCPU_EVENT_VIRTUAL_INTERRUPT])], then run_vcpu
    up to vmx_vmrun. *)
Definition enter_guest v : acrn_vcpu :=
  load_vmcs (on_arch (λ a, a⟨irq_event := init_event⟩⟨launched := true⟩) v).

(** What vmx_vmrun leaves: the registers it saved and the CSRs of the hart. *)
Definition guest_ran (regs : list Z) (h : csrs) v : acrn_vcpu :=
  v⟨vio := (vio v)⟨longs := regs ++ drop (length regs) (longs (vio v))⟩⟩⟨arch := (arch v)⟨hart := h⟩⟩.

(** run_vcpu after vmx_vmrun. *)
Definition leave_guest v : acrn_vcpu :=
  let v := save_vmcs v in
  on_arch (λ a, a⟨reg_cached := 0⟩⟨inst_len := 64⟩⟨exit_reason := get_reg v CPU_REG_CAUSE⟩) v.

(** zombie_vcpu for the vCPU that runs here; the thread is put to sleep. *)
Definition zombie_self v : acrn_vcpu :=
  if decide (vcpu_st (vio v) = VCPU_RUNNING ∨ vcpu_st (vio v) = VCPU_INIT)
  then v⟨vio := (vio v)⟨vcpu_st := VCPU_ZOMBIE⟩⟩ else v.

(** ** Exit handlers *)

Definition run_external_interrupt i vm : option (acrn_vm * vmexit) :=
  v ← get_vcpu i vm;
  let intr_info := u32 (hart (arch v) scause) in
  if negb (nonzero (intr_info &&& HX_INT_INFO_VALID))
     || negb ((intr_info &&& HX_INT_TYPE_MASK) / 2 ^ 8 =? HX_INT_TYPE_EXT_INT)
  then Some (put_vcpu i (vcpu_retain_ip v) vm, XDone (- EINVAL))
  else
    vm ← dispatch_interrupt i vm;
    v ← get_vcpu i vm;
    Some (put_vcpu i (vcpu_retain_ip v) vm, XDone 0).

Definition run_exception i vm : option (acrn_vm * vmexit) :=
  v ← get_vcpu i vm;
  '(v, status) ← vcpu_queue_exception VECTOR_INVALID 0 (vcpu_retain_ip v);
  Some (put_vcpu i v vm, XDone status).

Definition run_undefined i vm : option (acrn_vm * vmexit) :=
  v ← get_vcpu i vm; v ← vcpu_inject_ud v; Some (put_vcpu i v vm, XDone 0).

(** The test of hlt_vmexit_handler. *)
Definition run_hlt i vm : option (acrn_vm * vmexit) :=
  a ← archs vm !! i;
  Some (vm, if (pending_req a =? 0) && negb (vclint_has_pending_intr i vm) then XHalt else XDone 0).

Definition ecall_vmexit_handler i vm : option (acrn_vm * vmexit) :=
  v ← get_vcpu i vm;
  let v := foldl (λ v' r, set_reg r (get_reg v r) v') v [CPU_REG_A0; CPU_REG_A1; CPU_REG_A2; CPU_REG_A3] in
  Some (put_vcpu i v vm, XDone 0).

Definition run_vmcall i vm : option (acrn_vm * vmexit) :=
  v ← get_vcpu i vm;
  if negb (get_reg v CPU_REG_A7 =? VMCALL_TYPE_HYPERCALL) then ecall_vmexit_handler i vm
  else
    let hypcall_id := get_reg v CPU_REG_A6 in
    let undefined := v ← vcpu_inject_ud v; Some (put_vcpu i v vm, - ENODEV) in
    '(vm, ret) ←
      (if (hypcall_id =? HC_WORLD_SWITCH) || (hypcall_id =? HC_INITIALIZE_TRUSTY)
          || (hypcall_id =? HC_SAVE_RESTORE_SWORLD_CTX) then undefined
       else if is_service_vm (iovm vm) then dispatch_sos_hypercall i hypcall_id vm
       else undefined);
    if negb (ret =? - EACCES) && negb (ret =? - ENODEV) then
      v ← get_vcpu i vm; Some (put_vcpu i (set_reg CPU_REG_A0 (u64 ret) v) vm, XDone 0)
    else Some (vm, XDone 0).

Definition emulated (io : io_vm (W := W)) (e : emu) vm : acrn_vm * vmexit :=
  (vm⟨iovm := io⟩, match e with EDone st => XDone st | _ => XIo e end).

Definition run_s2pt_violation i vm : option (acrn_vm * vmexit) :=
  v ← get_vcpu i vm;
  let exit_qual := exit_qualification (arch v) in
  let gpa := get_reg v CPU_REG_TVAL in
  let r := (req (vio v))⟨io_type := ACRN_IOREQ_TYPE_MMIO⟩ in
  let set_req := λ m, put_vcpu i (v⟨vio := (vio v)⟨req := r⟨reqs := m⟩⟩⟩) vm in
  let m := reqs r in
  let m' := if exit_qual =? HX_EXIT_PF_GUEST_STORE
            then Some (m⟨direction := ACRN_IOREQ_DIR_WRITE⟩⟨value := 0⟩)
            else if exit_qual =? HX_EXIT_PF_GUEST_LOAD then Some (m⟨direction := ACRN_IOREQ_DIR_READ⟩)
            else None in
  match m' with
  | None => Some (set_req m, XDone (-1))
  | Some m =>
      let m := m⟨address := gpa⟩ in
      let ret := decode_instruction (vio v) in
      if 0 <? ret then
        let m := m⟨req_size := ret⟩ in
        let vm := set_req m in
        if (CLINT_MEM_ADDR <? gpa) && (u64 (gpa + ret) <? CLINT_MEM_REGION) then
          '(vm, status) ← clint_access_vmexit_handler tickrate tick i vm; Some (vm, XDone status)
        else
          io ← vcpus (iovm vm) !! i;
          let '(io, status) := if direction m =? ACRN_IOREQ_DIR_WRITE then emulate_instruction io else (io, 0) in
          let vm := vm⟨iovm := set_vcpu i io (iovm vm)⟩ in
          if status =? 0 then
            '(io, e) ← emulate_io (iovm vm) i; Some (emulated io e vm)
          else Some (vm, XDone status)
      else Some (set_req m, XDone (if ret =? - EFAULT then 0 else -1))
  end.

Definition run_handler (h : vm_exit_handler) i vm : option (acrn_vm * vmexit) :=
  match h with
  | unhandled_vmexit_handler | pf_vmexit_handler => Some (vm, XDone 0)
  | undefined_vmexit_handler => run_undefined i vm
  | external_interrupt_vmexit_handler => run_external_interrupt i vm
  | exception_vmexit_handler => run_exception i vm
  | vmcall_vmexit_handler => run_vmcall i vm
  | s2pt_violation_vmexit_handler => run_s2pt_violation i vm
  | hlt_vmexit_handler => run_hlt i vm
  end.

(** The thread of the vCPU runs on its CPU, so the first test does not fail.
    No entry of the tables asks for an exit qualification. *)
Definition vmexit_handler i vm : option (acrn_vm * vmexit) :=
  v ← get_vcpu i vm;
  let reason := exit_reason (arch v) in
  let basic := u16 (reason &&& HX_VMEXIT_REASON_MASK) in
  let table := if nonzero (reason &&& HX_VMEXIT_TYPE_MASK)
               then interrupt_dispatch_table else exception_dispatch_table in
  if Z.of_nat (length table) <=? basic then Some (vm, XDone (- EINVAL))
  else
    let vm := put_vcpu i (on_arch (λ a, a⟨exit_qualification := basic⟩) v) vm in
    h ← mjoin (table !! Z.to_nat basic);
    run_handler h i vm.
End vmexit.

(** ** What a step of the vCPU thread keeps *)

Definition pending (e : Z) (a : vcpu_arch) : bool := Z.testbit (pending_req a) e.
#[global] Arguments pending : simpl never.

(** The exception that vcpu_inject_exception looks up is one of the table. *)
Definition excp_ok (a : vcpu_arch) : Prop := pending ACRN_REQUEST_EXCP a = true → 0 ≤ exception a < 32.

Record arch_ok (a : vcpu_arch) : Prop := {
  ao_word : word 64 (pending_req a);
  ao_excp : excp_ok a;
}.

Lemma take_request_spec e v : 0 ≤ e < 31 → word 64 (pending_req (arch v)) →
  ∃ w, take_request e v = (pending e (arch v), on_arch (λ a, a⟨pending_req := w⟩) v)
    ∧ word 64 w ∧ ∀ j, 0 ≤ j → Z.testbit w j = Z.testbit (pending_req (arch v)) j && negb (bool_decide (j = e)).
Proof.
  intros He Hw. unfold take_request.
  change (RvBits.bitmap_test_and_clear_lock e (pending_req (arch v)))
    with (bitmap_test_and_clear_lock (BitmapOps := riscv_bitmap) e (pending_req (arch v))).
  rewrite (bs_test_and_clear (lim := 31)) by done. eexists. split; [reflexivity|].
  split; [by apply (bs_clear_word (lim := 31))|by intros; apply (bs_clear (lim := 31))].
Qed.

Definition irq_enabled v : bool := nonzero (get_reg v RUN_CTX_SSTATUS &&& HV_ARCH_VCPU_STATUS_SIE).

(** bitmap_test_and_set_lock always reports a set bit on RISC-V, so the status
    is always the saved one. *)
Lemma vcpu_get_status_saved v : vcpu_get_status v = (v, get_reg v RUN_CTX_SSTATUS).
Proof. unfold vcpu_get_status. case_if; [|done]. by destruct v as [io []]. Qed.

Lemma irq_enabled_eq v : is_guest_irq_enabled v = (v, irq_enabled v).
Proof. unfold is_guest_irq_enabled. by rewrite vcpu_get_status_saved. Qed.

(** Handling a request changes neither the events nor the interrupt enable bit. *)
Record kept v v' : Prop := {
  k_irq : irq_event (arch v') = irq_event (arch v);
  k_wb : waiting_thread (wbinvd_event (arch v)) = None → waiting_thread (wbinvd_event (arch v')) = None;
  k_sie : irq_enabled v' = irq_enabled v;
}.
#[export] Instance kept_preorder : PreOrder kept.
Proof. split; [done|]. intros v1 v2 v3 [] []. split; [congruence|auto|congruence]. Qed.

Lemma kept_pending w v : kept v (on_arch (λ a, a⟨pending_req := w⟩) v).
Proof. done. Qed.

Lemma rf_keeps_sie st : nonzero ((st ||| HV_ARCH_VCPU_RFLAGS_RF) &&& HV_ARCH_VCPU_STATUS_SIE)
  = nonzero (st &&& HV_ARCH_VCPU_STATUS_SIE).
Proof.
  rewrite Z.land_lor_distr_l.
  change (HV_ARCH_VCPU_RFLAGS_RF &&& HV_ARCH_VCPU_STATUS_SIE) with 0. by rewrite Z.lor_0_r.
Qed.

Lemma set_status_kept v st : nonzero (st &&& HV_ARCH_VCPU_STATUS_SIE) = irq_enabled v →
  kept v (vcpu_set_status st v).
Proof.
  intros Hst. split; [done..|]. unfold irq_enabled, get_reg in *. simpl. unfold vcpu_get_gpreg, vcpu_set_gpreg in *. simpl.
  destruct (decide (RUN_CTX_SSTATUS < length (longs (vio v)))%nat) as [Hl|Hl].
  - by rewrite list_lookup_insert_eq.
  - by rewrite list_insert_ge by lia.
Qed.

Lemma exception_type_in x : 0 ≤ x < 32 → is_Some (exception_type !! Z.to_nat x).
Proof. intros Hx. apply lookup_lt_is_Some_2. change (length exception_type) with 32%nat. lia. Qed.

(** The requests of [v'] are those of [v] but [e]. *)
Definition taken (e : Z) v v' : Prop :=
  word 64 (pending_req (arch v'))
  ∧ ∀ j, 0 ≤ j → pending j (arch v') = pending j (arch v) && negb (bool_decide (j = e)).

Lemma inject_exception_spec v : arch_ok (arch v) →
  ∃ v', vcpu_inject_exception v = Some (v', pending ACRN_REQUEST_EXCP (arch v))
    ∧ kept v v' ∧ taken ACRN_REQUEST_EXCP v v' ∧ hart (arch v') = hart (arch v)
    ∧ exception (arch v') = if pending ACRN_REQUEST_EXCP (arch v) then VECTOR_INVALID else exception (arch v).
Proof.
  intros [Hw He]. unfold vcpu_inject_exception.
  destruct (take_request_spec ACRN_REQUEST_EXCP v) as (w & -> & Hw' & Hb); [done..|].
  destruct (pending ACRN_REQUEST_EXCP (arch v)) eqn:Hp; [|by eexists].
  destruct (exception_type_in (exception (arch v)) (He Hp)) as [ty Hty].
  change (exception (arch (on_arch (λ a, a⟨pending_req := w⟩) v))) with (exception (arch v)).
  rewrite Hty. cbn [mbind option_bind]. set (v1 := vcpu_retain_ip _).
  assert (Hk : kept v v1) by done. eexists. split; [reflexivity|].
  destruct (decide (get_exception_type (exception (arch v)) = EXCEPTION_FAULT)); [|done].
  rewrite vcpu_get_status_saved. split; [|done]. etrans; [exact Hk|]. apply set_status_kept.
  unfold irq_enabled. apply rf_keeps_sie.
Qed.

(** A step that keeps the events and the interrupt enable bit, takes the
    requests of [es], and leaves hvip and the exception. *)
Record served (es : list Z) v v' : Prop := {
  sv_kept : kept v v';
  sv_word : word 64 (pending_req (arch v'));
  sv_bits j : 0 ≤ j → pending j (arch v') = pending j (arch v) && negb (bool_decide (j ∈ es));
  sv_hvip : hart (arch v') hvip = hart (arch v) hvip;
  sv_wb : wbinvd_event (arch v') = wbinvd_event (arch v);
  sv_exc : exception (arch v') = exception (arch v);
}.

Lemma served_trans es es' v1 v2 v3 : served es v1 v2 → served es' v2 v3 → served (es ++ es') v1 v3.
Proof.
  intros [] []. split; [by etrans|done| |congruence..]. intros j Hj.
  rewrite sv_bits1, sv_bits0 by done. rewrite <- andb_assoc, <- negb_orb. f_equal. f_equal.
  apply eq_bool_prop_intro. rewrite orb_True, !bool_decide_spec. set_solver.
Qed.

Lemma take_served e v : 0 ≤ e < 31 → word 64 (pending_req (arch v)) →
  ∃ v', take_request e v = (pending e (arch v), v') ∧ served [e] v v'.
Proof.
  intros He Hw. destruct (take_request_spec e v He Hw) as (w & -> & Hw' & Hb). eexists. split; [done|].
  split; [done|done| |done..]. intros j Hj. unfold pending. simpl. rewrite Hb by done. do 2 f_equal.
  apply bool_decide_ext. set_solver.
Qed.

Lemma served_ok es v v' : served es v v' → arch_ok (arch v) → arch_ok (arch v').
Proof.
  intros Hs [_ He]. split; [apply Hs|]. unfold excp_ok. rewrite (sv_exc _ _ _ Hs), (sv_bits _ _ _ Hs) by done.
  intros [Hp _]%andb_prop. by apply He.
Qed.

Lemma init_vmcs_served id v : word 64 (pending_req (arch v)) → served [] v (init_vmcs id v).
Proof.
  intros Hw. split; [|done| |done..].
  - split; [done..|]. unfold irq_enabled, get_reg, init_vmcs. simpl. unfold vcpu_get_gpreg, vcpu_set_gpreg. simpl.
    by rewrite !list_lookup_insert_ne.
  - intros j _. simpl. by rewrite andb_true_r.
Qed.

Lemma vcpu_inject_intr_none {W} i (vm : acrn_vm (W := W)) b b' v : vcpu_inject_intr i vm b b' v = v.
Proof. unfold vcpu_inject_intr. by case_if. Qed.

Lemma do_pending_extint_eq i v :
  vcpu_do_pending_extint i v = if decide (i = BSP_CPU_ID) then (write_hvip NR_MAX_VECTOR v, true) else (v, false).
Proof. done. Qed.

(** Whether acrn_inject_pending_intr takes the request for an external
    interrupt. *)
Definition takes_extint (injected : bool) v : bool := irq_enabled v && negb injected && pending ACRN_REQUEST_EXTINT (arch v).

Lemma inject_pending_intr_spec {W} i (vm : acrn_vm (W := W)) injected v : word 64 (pending_req (arch v)) →
  let t := takes_extint injected v in
  let v' := acrn_inject_pending_intr i vm injected v in
  kept v v' ∧ word 64 (pending_req (arch v')) ∧ exception (arch v') = exception (arch v)
  ∧ hart (arch v') hvip = (if t && bool_decide (i = BSP_CPU_ID) then NR_MAX_VECTOR else hart (arch v) hvip)
  ∧ ∀ j, 0 ≤ j → pending j (arch v') = pending j (arch v)
       && negb (bool_decide (j = ACRN_REQUEST_EVENT) || (t && bool_decide (j = ACRN_REQUEST_EXTINT))).
Proof.
  intros Hw. unfold acrn_inject_pending_intr, takes_extint. rewrite irq_enabled_eq.
  assert (Hev : ∀ v, word 64 (pending_req (arch v)) → ∃ v', (∀ b b', (let '(b0, v) := take_request ACRN_REQUEST_EVENT v in
    if (b0 : bool) then vcpu_inject_intr i vm b b' v else v) = v') ∧ served [ACRN_REQUEST_EVENT] v v').
  { intros v1 Hw1. destruct (take_served ACRN_REQUEST_EVENT v1) as (v2 & -> & Hs); [done..|].
    exists v2. split; [|done]. intros b b'. rewrite vcpu_inject_intr_none. by case_if. }
  destruct (irq_enabled v && negb injected) eqn:Hi; simpl.
  - destruct (take_served ACRN_REQUEST_EXTINT v) as (v1 & -> & Hs1); [done..|].
    set (v2 := if pending ACRN_REQUEST_EXTINT (arch v) && bool_decide (i = BSP_CPU_ID) then write_hvip NR_MAX_VECTOR v1 else v1).
    assert (Hk : kept v v2) by (etrans; [apply Hs1|]; unfold v2; by case_if).
    destruct (Hev v2) as (v3 & He & Hs3); [unfold v2; case_if; apply Hs1|].
    assert (Heq : (let '(v0, ret) := if pending ACRN_REQUEST_EXTINT (arch v) then vcpu_do_pending_extint i v1 else (v1, injected) in
      let '(b, v0) := take_request ACRN_REQUEST_EVENT v0 in
      if (b : bool) then vcpu_inject_intr i vm (irq_enabled v) ret v0 else v0) = v3).
    { unfold v2 in He. rewrite do_pending_extint_eq. case_decide as Hd.
      - rewrite bool_decide_true, andb_true_r in He by done. revert He. destruct (pending ACRN_REQUEST_EXTINT (arch v)); intros He; apply He.
      - rewrite bool_decide_false, andb_false_r in He by done. revert He. destruct (pending ACRN_REQUEST_EXTINT (arch v)); intros He; apply He. }
    rewrite Heq. split; [etrans; [exact Hk|apply Hs3]|]. split; [apply Hs3|].
    rewrite (sv_exc _ _ _ Hs3), (sv_hvip _ _ _ Hs3).
    assert (Hp2 : ∀ j, pending j (arch v2) = pending j (arch v1)) by (intros j; unfold v2; by case_if).
    split; [unfold v2; case_if; apply Hs1|]. split.
    + unfold v2. case_if; [done|apply Hs1].
    + intros j Hj. rewrite (sv_bits _ _ _ Hs3), Hp2, (sv_bits _ _ _ Hs1), <- andb_assoc, <- negb_orb by done.
      destruct (decide (j = ACRN_REQUEST_EXTINT)) as [->|Hne].
      * by destruct (pending ACRN_REQUEST_EXTINT (arch v)).
      * rewrite (bool_decide_false (j = ACRN_REQUEST_EXTINT)), andb_false_r, orb_false_r by done. do 2 f_equal.
        rewrite bool_decide_false by set_solver. simpl. apply bool_decide_ext. set_solver.
  - destruct (Hev v Hw) as (v3 & He & Hs3). rewrite He. split_and!; try apply Hs3.
    intros j Hj. rewrite (sv_bits _ _ _ Hs3), orb_false_r by done. do 2 f_equal. apply bool_decide_ext. set_solver.
Qed.

(** What handling the requests of a vCPU amounts to, once a triple fault and
    WBINVD are out of the way. *)
Record delivered i v v' : Prop := {
  dl_ok : arch_ok (arch v');
  dl_kept : kept v v';
  dl_excp : pending ACRN_REQUEST_EXCP (arch v') = false;
  dl_exc : exception (arch v') = if pending ACRN_REQUEST_EXCP (arch v) then VECTOR_INVALID else exception (arch v);
  dl_extint : pending ACRN_REQUEST_EXTINT (arch v') = pending ACRN_REQUEST_EXTINT (arch v)
    && negb (takes_extint (pending ACRN_REQUEST_EXCP (arch v)) v);
  dl_hvip : hart (arch v') hvip
    = if takes_extint (pending ACRN_REQUEST_EXCP (arch v)) v && bool_decide (i = BSP_CPU_ID)
      then NR_MAX_VECTOR else hart (arch v) hvip;
  dl_nmi : pending ACRN_REQUEST_NMI (arch v') = pending ACRN_REQUEST_NMI (arch v);
  dl_event : pending ACRN_REQUEST_EVENT (arch v') = false;
}.

(** Taking other requests first makes no difference. *)
Lemma delivered_served es i v v1 v' : served es v v1 →
  Forall (λ e, e ∉ es) [ACRN_REQUEST_EXCP; ACRN_REQUEST_EXTINT; ACRN_REQUEST_NMI] →
  delivered i v1 v' → delivered i v v'.
Proof.
  intros Hs [He [Hx [Hn _]%Forall_cons]%Forall_cons]%Forall_cons [Hok Hk ? Hexc Hext Hh Hnmi ?].
  assert (Hb : ∀ e, 0 ≤ e → e ∉ es → pending e (arch v1) = pending e (arch v)).
  { intros e Hpos Hne. by rewrite (sv_bits _ _ _ Hs), bool_decide_false, andb_true_r. }
  unfold takes_extint in *.
  rewrite ?(Hb ACRN_REQUEST_EXCP), ?(Hb ACRN_REQUEST_EXTINT), ?(Hb ACRN_REQUEST_NMI), ?(k_sie _ _ (sv_kept _ _ _ Hs)),
    ?(sv_hvip _ _ _ Hs), ?(sv_exc _ _ _ Hs) in * by done.
  split; try done. etrans; [apply Hs|done].
Qed.

Lemma handle_after_wbinvd_spec {W} i (vm : acrn_vm (W := W)) v : arch_ok (arch v) →
  ∃ v', handle_after_wbinvd i vm v = Some (v', PDone 0) ∧ delivered i v v'.
Proof.
  intros Hok. unfold handle_after_wbinvd.
  destruct (take_served ACRN_REQUEST_EPT_FLUSH v) as (v1 & -> & Hs1); [done|apply Hok|].
  destruct (take_served ACRN_REQUEST_VPID_FLUSH v1) as (v2 & -> & Hs2); [done|apply Hs1|].
  destruct (take_served ACRN_REQUEST_EOI_EXIT_BITMAP_UPDATE v2) as (v3 & -> & Hs3); [done|apply Hs2|].
  pose proof (served_trans _ _ _ _ _ (served_trans _ _ _ _ _ Hs1 Hs2) Hs3) as Hs.
  destruct (inject_exception_spec v3) as (v4 & -> & Hk & [Hw Hb] & Hh & He); [by eapply served_ok|].
  cbn [mbind option_bind]. eexists. split; [done|].
  eapply delivered_served; [exact Hs|by apply (bool_decide_unpack _)|].
  destruct (inject_pending_intr_spec i vm (pending ACRN_REQUEST_EXCP (arch v3)) v4 Hw) as (Hk' & Hw' & He' & Hh' & Hb').
  set (v5 := acrn_inject_pending_intr _ _ _ _) in *. clearbody v5.
  assert (Hx : takes_extint (pending ACRN_REQUEST_EXCP (arch v3)) v4 = takes_extint (pending ACRN_REQUEST_EXCP (arch v3)) v3).
  { unfold takes_extint. rewrite (k_sie _ _ Hk). by rewrite Hb, andb_true_r by done. }
  assert (Hex : pending ACRN_REQUEST_EXCP (arch v5) = false).
  { rewrite Hb', Hb by done. by rewrite andb_false_r. }
  split; rewrite ?He', ?Hh', ?Hx, ?He, ?Hh; try done.
  - split; [done|]. unfold excp_ok. by rewrite Hex.
  - by etrans.
  - rewrite Hb', Hb, Hx by done. simpl. by rewrite !andb_true_r.
  - rewrite Hb', Hb by done. simpl. by rewrite andb_false_r, !andb_true_r.
  - rewrite Hb' by done. by rewrite andb_false_r.
Qed.

Lemma delivered_wb i ev v v' : waiting_thread ev = None →
  delivered i (on_arch (λ a, a⟨wbinvd_event := ev⟩) v) v' → delivered i v v'.
Proof. intros Hev [? [? Hw ?] ??????]. split; try done. split; try done. intros _. by apply Hw. Qed.

(** The three ways acrn_handle_pending_request ends. *)
Lemma handle_pending_cases {W} i (vm : acrn_vm (W := W)) v :
  arch_ok (arch v) → waiting_thread (wbinvd_event (arch v)) = None →
  ∃ v' r, acrn_handle_pending_request i vm v = Some (v', r) ∧
    if pending ACRN_REQUEST_TRP_FAULT (arch v)
    then r = PDone (- EFAULT) ∧ served [ACRN_REQUEST_INIT_VMCS; ACRN_REQUEST_TRP_FAULT] v v'
         ∧ pending ACRN_REQUEST_NMI (arch v') = pending ACRN_REQUEST_NMI (arch v)
    else if pending ACRN_REQUEST_WAIT_WBINVD (arch v) && negb (set (wbinvd_event (arch v)))
    then r = PWait ∧ arch_ok (arch v') ∧ irq_event (arch v') = irq_event (arch v) ∧ irq_enabled v' = irq_enabled v
         ∧ pending ACRN_REQUEST_NMI (arch v') = pending ACRN_REQUEST_NMI (arch v)
         ∧ pending ACRN_REQUEST_EXTINT (arch v') = pending ACRN_REQUEST_EXTINT (arch v)
    else r = PDone 0 ∧ delivered i v v'.
Proof.
  intros Hok Hwb. unfold acrn_handle_pending_request.
  destruct (take_served ACRN_REQUEST_INIT_VMCS v) as (v1 & -> & Hs1); [done|apply Hok|].
  set (v2 := if pending ACRN_REQUEST_INIT_VMCS (arch v) then init_vmcs (Z.of_nat i) v1 else v1).
  assert (Hs2 : served [ACRN_REQUEST_INIT_VMCS] v v2).
  { unfold v2. case_if; [|done]. by apply (served_trans [ACRN_REQUEST_INIT_VMCS] [] v v1), init_vmcs_served, Hs1. }
  clearbody v2. destruct (take_served ACRN_REQUEST_TRP_FAULT v2) as (v3 & -> & Hs3); [done|apply Hs2|].
  pose proof (served_trans _ _ _ _ _ Hs2 Hs3) as Ha. rewrite (sv_bits _ _ _ Hs2), andb_true_r by done. clear Hs1 v1.
  destruct (pending ACRN_REQUEST_TRP_FAULT (arch v)) eqn:Ht.
  { exists v3, (PDone (- EFAULT)). split_and!; try done. by rewrite (sv_bits _ _ _ Ha), andb_true_r by done. }
  destruct (take_served ACRN_REQUEST_WAIT_WBINVD v3) as (v4 & -> & Hs4); [done|apply Hs3|].
  pose proof (served_trans _ _ _ _ _ Ha Hs4) as Hb. rewrite (sv_bits _ _ _ Ha), andb_true_r by done.
  assert (Hfin : ∀ v', delivered i v4 v' → delivered i v v').
  { intros v'. eapply delivered_served; [exact Hb|by apply (bool_decide_unpack _)]. }
  assert (Hok4 : arch_ok (arch v4)) by by eapply served_ok.
  destruct (pending ACRN_REQUEST_WAIT_WBINVD (arch v)); simpl.
  - unfold wait_enter, wait_test. rewrite (sv_wb _ _ _ Hb), Hwb. simpl.
    destruct (set (wbinvd_event (arch v))) eqn:Hset; simpl.
    + destruct (handle_after_wbinvd_spec i vm (on_arch (λ a, a⟨wbinvd_event := mk_event false None⟩) v4))
        as (v' & Hrun & Hd); [by destruct Hok4|].
      exists v', (PDone 0). split; [exact Hrun|]. split; [done|]. apply Hfin. by eapply delivered_wb, Hd.
    + eexists _, _. split; [reflexivity|]. split; [done|]. destruct Hb as [[] ? Hbits ???]. split; [by destruct Hok4|].
      split_and!; [done..| |]; [transitivity (pending ACRN_REQUEST_NMI (arch v4))
        |transitivity (pending ACRN_REQUEST_EXTINT (arch v4))]; try done; by rewrite Hbits, andb_true_r.
  - destruct (handle_after_wbinvd_spec i vm v4 Hok4) as (v' & -> & Hd). eexists _, _. split; [done|]. auto.
Qed.


(** ** Queueing exceptions *)

Lemma make_request_ok e a : 0 ≤ e < 31 → word 64 (pending_req a) → (e = ACRN_REQUEST_EXCP → 0 ≤ exception a < 32) →
  excp_ok a → arch_ok (vcpu_make_request e a).
Proof.
  intros He Hw Hx Hok. destruct (make_request_spec e a He Hw) as (Hw' & Hb & _). split; [done|].
  unfold excp_ok, pending. rewrite Hb by done.
  assert (exception (vcpu_make_request e a) = exception a) as -> by (unfold vcpu_make_request, kick_vcpu; by case_if).
  intros [Hp|Hd]%orb_prop; [by apply Hok|]. case_bool_decide; [|done]. by apply Hx.
Qed.

Lemma make_request_fields e a : exception (vcpu_make_request e a) = exception a
  ∧ error (vcpu_make_request e a) = error a ∧ irq_event (vcpu_make_request e a) = irq_event a
  ∧ wbinvd_event (vcpu_make_request e a) = wbinvd_event a ∧ hart (vcpu_make_request e a) = hart a.
Proof. unfold vcpu_make_request, kick_vcpu. by case_if. Qed.

Lemma make_request_pending e a j : 0 ≤ e < 31 → word 64 (pending_req a) → 0 ≤ j →
  pending j (vcpu_make_request e a) = pending j a || bool_decide (j = e).
Proof. intros He Hw. by apply make_request_spec. Qed.

Lemma arch_on_arch f v : arch (on_arch f v) = f (arch v).
Proof. done. Qed.
Lemma arch_set a v : arch (v⟨arch := a⟩) = a.
Proof. done. Qed.

(** The double fault rule: whether an exception on top of [prev] becomes a
    double fault. *)
Definition escalates (prev new : Z) : bool :=
  (is_class (get_excep_class prev) EXCEPTION_CLASS_CONT && is_class (get_excep_class new) EXCEPTION_CLASS_CONT)
  || (is_class (get_excep_class prev) EXCEPTION_CLASS_PF && negb (is_class (get_excep_class new) EXCEPTION_CLASS_BENIGN)).

Lemma queue_exception_spec vector err v : 0 ≤ vector → arch_ok (arch v) →
  ∃ v' r, vcpu_queue_exception vector err v = Some (v', r) ∧ arch_ok (arch v') ∧ vio v' = vio v
    ∧ irq_event (arch v') = irq_event (arch v) ∧ wbinvd_event (arch v') = wbinvd_event (arch v)
    ∧ (∀ j, 0 ≤ j → j ≠ ACRN_REQUEST_EXCP → j ≠ ACRN_REQUEST_TRP_FAULT → pending j (arch v') = pending j (arch v))
    ∧ if 32 <=? vector then r = - EINVAL ∧ v' = v
      else r = 0 ∧
        if (exception (arch v) =? IDT_DF) && negb (is_class (get_excep_class vector) EXCEPTION_CLASS_BENIGN)
        then pending ACRN_REQUEST_TRP_FAULT (arch v') = true ∧ exception (arch v') = exception (arch v)
        else pending ACRN_REQUEST_TRP_FAULT (arch v') = pending ACRN_REQUEST_TRP_FAULT (arch v)
          ∧ pending ACRN_REQUEST_EXCP (arch v') = true
          ∧ exception (arch v') = (if escalates (exception (arch v)) vector then IDT_DF else vector).
Proof.
  intros Hv [Hw He]. unfold vcpu_queue_exception. destruct (32 <=? vector) eqn:H32; zreflect.
  { by eexists _, _. }
  case_if.
  { destruct (make_request_fields ACRN_REQUEST_TRP_FAULT (arch v)) as (Hx & _ & Hi & Hwb & _).
    eexists _, _. split; [reflexivity|]. rewrite arch_on_arch. split; [by apply make_request_ok|]. split_and!; try done.
    - intros j Hj _ Hn. by rewrite make_request_pending, bool_decide_false, orb_false_r by done.
    - rewrite make_request_pending by done. by rewrite bool_decide_true, orb_true_r. }
  fold (escalates (exception (arch v)) vector). set (vec := if escalates (exception (arch v)) vector then IDT_DF else vector).
  assert (Hp : (if escalates (exception (arch v)) vector then (IDT_DF, 0) else (vector, err))
    = (vec, if escalates (exception (arch v)) vector then 0 else err)) by (unfold vec; by case_if).
  rewrite Hp. assert (Hvec : 0 ≤ vec < 32) by (unfold vec; case_if; unfold IDT_DF; lia). clearbody vec.
  destruct (exception_type_in vec Hvec) as [ty ->]. cbn [mbind option_bind].
  rewrite andb_false_r. set (a := (arch v)⟨exception := vec⟩⟨error := _⟩).
  destruct (make_request_fields ACRN_REQUEST_EXCP a) as (Hx & _ & Hi & Hwb & _).
  assert (Hp' : ∀ j, 0 ≤ j → pending j (vcpu_make_request ACRN_REQUEST_EXCP a)
    = pending j (arch v) || bool_decide (j = ACRN_REQUEST_EXCP)) by (intros j Hj; by rewrite make_request_pending).
  eexists _, _. split; [reflexivity|]. rewrite arch_on_arch, arch_set. split; [apply make_request_ok; try done; by intros _|].
  split_and!; try done.
  - intros j Hj Hn _. by rewrite Hp', bool_decide_false, orb_false_r by done.
  - by rewrite Hp', bool_decide_false, orb_false_r by done.
  - rewrite Hp' by done. by rewrite bool_decide_true, orb_true_r.
Qed.


(** ** The loop of the vCPU thread *)

(** Where the thread of a vCPU is: at the top of the loop, waiting for WBINVD,
    with its requests handled, in the guest, with an exit to dispatch, in
    hlt_vmexit_handler between the test and wait_event, asleep there, in
    emulate_io, or stopped as a zombie. *)
Inductive vpc := Top | InWbinvd | Handled | InGuest | Exited | HltChecked | Asleep | InIo (e : emu) | Stopped.

(** A VM, where vCPU [i] is, and how many calls of vcpu_inject_extint or
    vcpu_inject_nmi for it have made their request and not yet signalled. *)
Record vsys {W} := mk_vsys { s_vm : acrn_vm (W := W); s_pc : vpc; s_mid : nat }.
#[global] Arguments vsys : clear implicits.
#[global] Arguments mk_vsys {W} _ _ _.

(** What other code may do to the state of a vCPU while it does not run: make
    requests (other than for exceptions), signal it, change its I/O request. *)
Record quiet (a a' : vcpu_arch) : Prop := {
  q_word : word 64 (pending_req a) → word 64 (pending_req a');
  q_bits e : e ∈ [ACRN_REQUEST_EXCP; ACRN_REQUEST_EXTINT; ACRN_REQUEST_NMI] → pending e a' = true → pending e a = true;
  q_exc : exception a' = exception a;
  q_wb : waiting_thread (wbinvd_event a') = waiting_thread (wbinvd_event a);
  q_irq : waiting_thread (irq_event a') = waiting_thread (irq_event a);
  q_set : set (irq_event a) = true → set (irq_event a') = true;
}.

Section machine.
Context {W : Type} (tickrate tick : Z).
Abbreviation acrn_vm := (acrn_vm (W := W)).
Context (dispatch_sos_hypercall : nat → Z → acrn_vm → option (acrn_vm * Z)).
Context (dispatch_interrupt : nat → acrn_vm → option acrn_vm).
Implicit Types (vm : acrn_vm) (v : acrn_vcpu) (i : nat).

Definition after_pending i v (r : pend) vm : acrn_vm * vpc :=
  match r with
  | PWait => (put_vcpu i v vm, InWbinvd)
  | PDone ret => if ret <? 0 then (put_vcpu i (zombie_self v) vm, Stopped) else (put_vcpu i v vm, Handled)
  end.

(** The end of the loop body: an error of the handler injects #GP. *)
Definition after_vmexit i (x : vmexit) vm : option (acrn_vm * vpc) :=
  match x with
  | XDone ret => if ret <? 0 then v ← get_vcpu i vm; v ← vcpu_inject_gp 0 v; Some (put_vcpu i v vm, Top)
                 else Some (vm, Top)
  | XHalt => Some (vm, HltChecked)
  | XIo e => Some (vm, InIo e)
  end.

(** wait_event in hlt_vmexit_handler: the entry, and the test when the thread
    runs again. *)
Definition hlt_wait i (test : sched_event → option (sched_event * bool)) vm : option (acrn_vm * vpc) :=
  a ← archs vm !! i;
  '(ev, go) ← test (irq_event a);
  Some (vm⟨archs := <[i := a⟨irq_event := ev⟩]> (archs vm)⟩, if (go : bool) then Top else Asleep).

(** One step of the thread of vCPU [i], or of the rest of the system. *)
Inductive vstep i : vsys W → vsys W → Prop :=
  | step_pending vm v v' r vm' pc mid :
      get_vcpu i vm = Some v → acrn_handle_pending_request i vm v = Some (v', r) →
      after_pending i v' r vm = (vm', pc) → vstep i (mk_vsys vm Top mid) (mk_vsys vm' pc mid)
  | step_wbinvd vm v v' r vm' pc mid :
      get_vcpu i vm = Some v → handle_pending_resume i vm v = Some (v', r) →
      after_pending i v' r vm = (vm', pc) → vstep i (mk_vsys vm InWbinvd mid) (mk_vsys vm' pc mid)
  | step_enter vm v mid : get_vcpu i vm = Some v →
      vstep i (mk_vsys vm Handled mid) (mk_vsys (put_vcpu i (enter_guest v) vm) InGuest mid)
  | step_leave vm v regs h mid : get_vcpu i vm = Some v →
      vstep i (mk_vsys vm InGuest mid) (mk_vsys (put_vcpu i (leave_guest (guest_ran regs h v)) vm) Exited mid)
  | step_fail vm v regs h mid : get_vcpu i vm = Some v →
      vstep i (mk_vsys vm InGuest mid) (mk_vsys (put_vcpu i (zombie_self (leave_guest (guest_ran regs h v))) vm) Stopped mid)
  | step_dispatch vm vm1 x vm' pc mid :
      vmexit_handler tickrate tick dispatch_sos_hypercall dispatch_interrupt i vm = Some (vm1, x) →
      after_vmexit i x vm1 = Some (vm', pc) → vstep i (mk_vsys vm Exited mid) (mk_vsys vm' pc mid)
  | step_hlt vm v vm' pc mid : get_vcpu i vm = Some v →
      hlt_wait i (wait_enter (thread (vio v))) vm = Some (vm', pc) →
      vstep i (mk_vsys vm HltChecked mid) (mk_vsys vm' pc mid)
  | step_wake vm vm' pc mid : hlt_wait i (λ ev, Some (wait_test ev)) vm = Some (vm', pc) →
      vstep i (mk_vsys vm Asleep mid) (mk_vsys vm' pc mid)
  | step_io vm e io e' vm' pc mid : emulate_io_resume (iovm vm) i e = Some (io, e') →
      (let '(vm1, x) := emulated io e' vm in after_vmexit i x vm1) = Some (vm', pc) →
      vstep i (mk_vsys vm (InIo e) mid) (mk_vsys vm' pc mid)
  | step_inject e vm a pc mid : e ∈ [ACRN_REQUEST_EXTINT; ACRN_REQUEST_NMI] → archs vm !! i = Some a →
      vstep i (mk_vsys vm pc mid) (mk_vsys (vm⟨archs := <[i := vcpu_make_request e a]> (archs vm)⟩) pc (S mid))
  | step_signal vm a pc mid : archs vm !! i = Some a →
      vstep i (mk_vsys vm pc (S mid)) (mk_vsys (vm⟨archs := <[i := signal_irq a]> (archs vm)⟩) pc mid)
  | step_other vm vm' a a' pc mid : archs vm !! i = Some a → archs vm' !! i = Some a' → quiet a a' →
      vstep i (mk_vsys vm pc mid) (mk_vsys vm' pc mid).
End machine.

(** ** No lost wake-up *)

(** What the steps of the thread itself and the code it calls keep. *)
Definition keeps (a a' : vcpu_arch) : Prop :=
  arch_ok a → arch_ok a' ∧ waiting_thread (wbinvd_event a') = waiting_thread (wbinvd_event a)
  ∧ waiting_thread (irq_event a') = waiting_thread (irq_event a).
#[export] Instance keeps_preorder : PreOrder keeps.
Proof.
  split; [done|]. intros a1 a2 a3 H1 H2 Ha. destruct (H1 Ha) as (Ha2 & ? & ?). destruct (H2 Ha2) as (? & ? & ?).
  split_and!; [done|congruence..].
Qed.

Lemma keeps_same a a' : pending_req a' = pending_req a → exception a' = exception a →
  wbinvd_event a' = wbinvd_event a → irq_event a' = irq_event a → keeps a a'.
Proof.
  intros Hp Hx Hw Hi [? He]. split_and!; [|congruence..]. split; [by rewrite Hp|].
  unfold excp_ok, pending. by rewrite Hp, Hx.
Qed.

(** A step of the VM that keeps vCPU [i]. *)
Definition vm_keeps {W} i (vm vm' : acrn_vm (W := W)) : Prop :=
  ∀ a, archs vm !! i = Some a → ∃ a', archs vm' !! i = Some a' ∧ keeps a a'.
#[export] Instance vm_keeps_preorder {W} i : PreOrder (vm_keeps (W := W) i).
Proof.
  split; [intros vm a; by exists a|]. intros vm1 vm2 vm3 H1 H2 a Ha.
  destruct (H1 a Ha) as (a1 & Ha1 & ?). destruct (H2 a1 Ha1) as (a2 & ? & ?). exists a2. split; [done|]. by etrans.
Qed.

Lemma vm_keeps_archs {W} i (vm vm' : acrn_vm (W := W)) : archs vm' = archs vm → vm_keeps i vm vm'.
Proof. intros E a Ha. exists a. by rewrite E. Qed.

Lemma quiet_keeps a a' : quiet a a' → keeps a a'.
Proof.
  intros [Hw Hb Hx Hwb Hi _] [Ha He]. split_and!; [|done..]. split; [auto|]. unfold excp_ok.
  rewrite Hx. intros Hp. apply He, Hb; [set_solver|done].
Qed.

Lemma get_vcpu_Some {W} i (vm : acrn_vm (W := W)) v : get_vcpu i vm = Some v →
  vcpus (iovm vm) !! i = Some (vio v) ∧ archs vm !! i = Some (arch v).
Proof.
  unfold get_vcpu. destruct (vcpus (iovm vm) !! i) as [io|]; [|done]. cbn [mbind option_bind].
  destruct (archs vm !! i) as [a|]; [|done]. by intros [= <-].
Qed.

Lemma put_vcpu_arch {W} i (vm : acrn_vm (W := W)) v v' : get_vcpu i vm = Some v →
  archs (put_vcpu i v' vm) !! i = Some (arch v').
Proof. intros [_ Ha]%get_vcpu_Some. simpl. apply list_lookup_insert_eq. by eapply lookup_lt_Some. Qed.

Lemma put_vcpu_keeps {W} i (vm : acrn_vm (W := W)) v v' : get_vcpu i vm = Some v → keeps (arch v) (arch v') →
  vm_keeps i vm (put_vcpu i v' vm).
Proof.
  intros Hv Hk a Ha. exists (arch v'). split; [by eapply put_vcpu_arch|].
  destruct (get_vcpu_Some _ _ _ Hv) as [_ Ha']. by simplify_eq.
Qed.

Lemma request_keeps e a : 0 ≤ e < 31 → e ≠ ACRN_REQUEST_EXCP → keeps a (vcpu_make_request e a).
Proof.
  intros He Hne [Hwd Hx]. destruct (make_request_fields e a) as (_ & _ & Hi & Hw & _).
  split_and!; [by apply make_request_ok|by rewrite Hw|by rewrite Hi].
Qed.

Lemma signal_keeps a : keeps a (signal_irq a).
Proof. intros [? ?]. by split_and!. Qed.

Lemma set_intr_keeps {W} i j (vm vm' : acrn_vm (W := W)) : vclint_set_intr j vm = Some vm' → vm_keeps i vm vm'.
Proof.
  unfold vclint_set_intr, update_vcpu. destruct (archs vm !! j) as [b|] eqn:Hb; [|done]. intros [= <-] a Ha. simpl.
  destruct (decide (j = i)) as [->|Hne].
  - exists (vcpu_make_request ACRN_REQUEST_EVENT (signal_irq b)). rewrite list_lookup_insert_eq by by eapply lookup_lt_Some.
    split; [done|]. simplify_eq. etrans; [apply signal_keeps|by apply request_keeps].
  - exists a. by rewrite list_lookup_insert_ne.
Qed.

Lemma vclint_write_keeps {W} tickrate tick i off d (vm vm' : acrn_vm (W := W)) r :
  vclint_write tickrate tick off d vm = Some (vm', r) → vm_keeps i vm vm'.
Proof.
  unfold vclint_write. case_if; [|by intros [= <- _]].
  destruct (decode_reg _) as [[j|j|]|]; [| | |by intros [= <- _]].
  - unfold vclint_write_msip. destruct (vclint_set_intr j _) as [vm1|] eqn:Es; [|done]. intros [= <- _].
    intros a Ha. by apply (set_intr_keeps i _ _ _ Es).
  - unfold vclint_write_tmr. destruct (RvTimer.add_timer _ _ _ _) as [[ts ?]|]; [|done]. intros [= <- _].
    by apply vm_keeps_archs.
  - intros [= <- _]. by apply vm_keeps_archs.
Qed.

Lemma clint_access_keeps {W} tickrate tick i (vm vm' : acrn_vm (W := W)) r :
  clint_access_vmexit_handler tickrate tick i vm = Some (vm', r) → vm_keeps i vm vm'.
Proof.
  unfold clint_access_vmexit_handler. destruct (vcpus (iovm vm) !! i) as [v|]; [|done]. cbn [mbind option_bind].
  case_if; [|by intros [= <- _]]. case_if.
  - destruct (emulate_instruction v) as [v1 err]. case_if; [|by intros [= <- _]; apply vm_keeps_archs].
    destruct (vclint_write _ _ _ _ _) as [[vm1 r1]|] eqn:Es; [|done]. intros [= <- _].
    intros a Ha. by apply (vclint_write_keeps _ _ i _ _ _ _ _ Es).
  - destruct (vclint_read _ _). destruct (emulate_instruction _). intros [= <- _]. by apply vm_keeps_archs.
Qed.

Lemma queue_keeps vector err v v' r : 0 ≤ vector → vcpu_queue_exception vector err v = Some (v', r) →
  keeps (arch v) (arch v').
Proof.
  intros Hv Hq Hok. destruct (queue_exception_spec vector err v Hv Hok) as (? & ? & Hq' & ? & _ & Hi & Hw & _).
  simplify_eq. by rewrite Hi, Hw.
Qed.

Section wakeups.
Context {W : Type} (tickrate tick : Z).
Abbreviation acrn_vm := (acrn_vm (W := W)).
Context (dispatch_sos_hypercall : nat → Z → acrn_vm → option (acrn_vm * Z)).
Context (dispatch_interrupt : nat → acrn_vm → option acrn_vm).
Implicit Types (vm : acrn_vm) (v : acrn_vcpu) (i : nat).

(** Hypercalls and interrupt handlers make requests of the vCPU that runs them
    and signal it, but do not queue exceptions beyond the table or wait in its
    stead. *)
Hypothesis hypercall_keeps : ∀ i id vm vm' r, dispatch_sos_hypercall i id vm = Some (vm', r) → vm_keeps i vm vm'.
Hypothesis interrupt_keeps : ∀ i vm vm', dispatch_interrupt i vm = Some vm' → vm_keeps i vm vm'.

Lemma vmcall_keeps i vm vm' x : run_vmcall dispatch_sos_hypercall i vm = Some (vm', x) → vm_keeps i vm vm' ∧ x ≠ XHalt.
Proof.
  unfold run_vmcall. destruct (get_vcpu i vm) as [v|] eqn:Hv; [|done]. cbn [mbind option_bind]. case_if.
  { unfold ecall_vmexit_handler. rewrite Hv. cbn [mbind option_bind]. intros [= <- <-]. split; [|done].
    eapply put_vcpu_keeps; [done|]. done. }
  set (u := vcpu_inject_ud v ≫= _).
  assert (Hu : ∀ vm1 r1, u = Some (vm1, r1) → vm_keeps i vm vm1).
  { unfold u, vcpu_inject_ud, queue. intros vm1 r1. destruct (vcpu_queue_exception IDT_UD 0 v) as [[v1 r0]|] eqn:Hq; [|done].
    intros [= <- _]. eapply put_vcpu_keeps; [done|]. by eapply queue_keeps, Hq. }
  clearbody u.
  match goal with |- ?m ≫= _ = _ → _ => destruct m as [[vm1 r1]|] eqn:Em; [|done] end.
  assert (Hk : vm_keeps i vm vm1).
  { revert Em. case_if; [apply Hu|]. case_if; [apply hypercall_keeps|apply Hu]. }
  cbn [mbind option_bind]. case_if; [|by intros [= <- <-]].
  destruct (get_vcpu i vm1) as [v1|] eqn:Hv1; [|done]. intros [= <- <-]. split; [|done]. etrans; [exact Hk|].
  by eapply put_vcpu_keeps.
Qed.

Lemma s2pt_violation_keeps i vm vm' x : run_s2pt_violation tickrate tick i vm = Some (vm', x) →
  vm_keeps i vm vm' ∧ x ≠ XHalt.
Proof.
  unfold run_s2pt_violation. destruct (get_vcpu i vm) as [v|] eqn:Hv; [|done]. cbn [mbind option_bind].
  match goal with |- context [match ?m with Some _ => _ | None => _ end] => destruct m as [m0|] end.
  2:{ intros [= <- <-]. split; [|done]. by eapply put_vcpu_keeps. }
  case_if. 2:{ intros [= <- <-]. split; [|done]. by eapply put_vcpu_keeps. }
  set (vm1 := put_vcpu i _ vm). assert (Hk : vm_keeps i vm vm1) by by eapply put_vcpu_keeps. clearbody vm1.
  case_if.
  - destruct (clint_access_vmexit_handler _ _ _ _) as [[vm2 st]|] eqn:Ec; [|done]. intros [= <- <-]. split; [|done].
    etrans; [exact Hk|]. by eapply clint_access_keeps.
  - destruct (vcpus (iovm vm1) !! i) as [io|]; [|done]. cbn [mbind option_bind].
    match goal with |- context [if ?c then emulate_instruction io else ?d] =>
      destruct (if c then emulate_instruction io else d) as [io1 st] end. case_if.
    + destruct (emulate_io _ i) as [[io2 e]|]; [|done]. cbn [mbind option_bind]. intros [= <- <-].
      split; [|by destruct e]. etrans; [exact Hk|]. by apply vm_keeps_archs.
    + intros [= <- <-]. split; [|done]. etrans; [exact Hk|]. by apply vm_keeps_archs.
Qed.

(** The handlers keep the vCPU, and only hlt_vmexit_handler goes to sleep, with
    no request pending. *)
Lemma run_handler_keeps h i vm vm' x :
  run_handler tickrate tick dispatch_sos_hypercall dispatch_interrupt h i vm = Some (vm', x) →
  vm_keeps i vm vm' ∧ (x = XHalt → ∃ a, archs vm' !! i = Some a ∧ pending_req a = 0).
Proof.
  destruct h; cbn [run_handler].
  - by intros [= <- <-].
  - unfold run_undefined, vcpu_inject_ud, queue. destruct (get_vcpu i vm) as [v|] eqn:Hv; [|done]. cbn [mbind option_bind].
    destruct (vcpu_queue_exception IDT_UD 0 v) as [[v1 r0]|] eqn:Hq; [|done]. intros [= <- <-]. split; [|done].
    eapply put_vcpu_keeps; [done|]. by eapply queue_keeps, Hq.
  - unfold run_external_interrupt. destruct (get_vcpu i vm) as [v|] eqn:Hv; [|done]. cbn [mbind option_bind]. case_if.
    { intros [= <- <-]. split; [|done]. eapply put_vcpu_keeps; [done|]. by apply keeps_same. }
    destruct (dispatch_interrupt i vm) as [vm1|] eqn:Ed; [|done]. cbn [mbind option_bind].
    destruct (get_vcpu i vm1) as [v1|] eqn:Hv1; [|done]. intros [= <- <-]. split; [|done].
    etrans; [by eapply interrupt_keeps|]. eapply put_vcpu_keeps; [done|]. by apply keeps_same.
  - unfold run_exception. destruct (get_vcpu i vm) as [v|] eqn:Hv; [|done]. cbn [mbind option_bind].
    destruct (vcpu_queue_exception _ _ _) as [[v1 r1]|] eqn:Hq; [|done]. intros [= <- <-]. split; [|done].
    eapply put_vcpu_keeps; [done|]. apply queue_keeps in Hq; [|done]. etrans; [|exact Hq]. by apply keeps_same.
  - intros [? ?]%vmcall_keeps. done.
  - by intros [= <- <-].
  - intros [? ?]%s2pt_violation_keeps. done.
  - unfold run_hlt. destruct (archs vm !! i) as [a|] eqn:Ha; [|done]. intros [= <- <-]. split; [done|].
    case_if; [|done]. intros _. exists a. split; [done|]. zreflect. tauto.
Qed.

Lemma vmexit_handler_keeps i vm vm' x :
  vmexit_handler tickrate tick dispatch_sos_hypercall dispatch_interrupt i vm = Some (vm', x) →
  vm_keeps i vm vm' ∧ (x = XHalt → ∃ a, archs vm' !! i = Some a ∧ pending_req a = 0).
Proof.
  unfold vmexit_handler. destruct (get_vcpu i vm) as [v|] eqn:Hv; [|done]. cbn [mbind option_bind].
  match goal with |- context [if ?c then interrupt_dispatch_table else ?t] =>
    generalize (if c then interrupt_dispatch_table else t) end.
  intros table. case_if; [by intros [= <- <-]|].
  match goal with |- ?m ≫= _ = _ → _ => destruct m as [h|]; [|done] end.
  cbn [mbind option_bind]. intros [Hk Hh]%run_handler_keeps. split; [|done].
  etrans; [|exact Hk]. eapply put_vcpu_keeps; [done|]. by apply keeps_same.
Qed.

(** An external interrupt or an NMI is requested. *)
Definition external (a : vcpu_arch) : bool := pending ACRN_REQUEST_EXTINT a || pending ACRN_REQUEST_NMI a.

Definition vinv i (x : vsys W) : Prop := ∃ a, archs (s_vm x) !! i = Some a ∧ arch_ok a
  ∧ (s_pc x ≠ InWbinvd → waiting_thread (wbinvd_event a) = None)
  ∧ (s_pc x ≠ Asleep → waiting_thread (irq_event a) = None)
  ∧ (s_pc x = HltChecked ∨ s_pc x = Asleep → external a = true → set (irq_event a) = true ∨ (0 < s_mid x)%nat).

(** A step of the vCPU itself that does not go to sleep. *)
Lemma vinv_keeps i vm vm' pc pc' mid : vinv i (mk_vsys vm pc mid) → pc ≠ InWbinvd → pc ≠ Asleep →
  vm_keeps i vm vm' → pc' ≠ HltChecked → pc' ≠ Asleep → vinv i (mk_vsys vm' pc' mid).
Proof.
  intros (a & Ha & Hok & Hw & Hi & _) ?? Hk ??. destruct (Hk a Ha) as (a' & Ha' & Hka).
  destruct (Hka Hok) as (? & Ew & Ei). exists a'. simpl in *. rewrite Ew, Ei. split_and!; auto. by intros [|].
Qed.

Lemma vinv_put i vm v v' pc' mid : get_vcpu i vm = Some v → arch_ok (arch v') →
  (pc' ≠ InWbinvd → waiting_thread (wbinvd_event (arch v')) = None) →
  waiting_thread (irq_event (arch v')) = None → pc' ≠ HltChecked → pc' ≠ Asleep →
  vinv i (mk_vsys (put_vcpu i v' vm) pc' mid).
Proof.
  intros Hv ?????. exists (arch v'). split; [by eapply put_vcpu_arch|]. split_and!; try done. by intros [|].
Qed.

Lemma zombie_arch v : arch (zombie_self v) = arch v.
Proof. unfold zombie_self. by case_decide. Qed.

Lemma after_pending_inv i vm v v' r vm' pc mid : get_vcpu i vm = Some v → arch_ok (arch v') →
  (r ≠ PWait → waiting_thread (wbinvd_event (arch v')) = None) → waiting_thread (irq_event (arch v')) = None →
  after_pending i v' r vm = (vm', pc) → vinv i (mk_vsys vm' pc mid).
Proof.
  intros Hv Hok Hw Hi. unfold after_pending. destruct r as [ret|].
  - case_if; intros [= <- <-]; eapply vinv_put; rewrite ?zombie_arch; eauto.
  - intros [= <- <-]. by eapply vinv_put.
Qed.

Lemma step_pending_inv i vm v v' r vm' pc mid : vinv i (mk_vsys vm Top mid) → get_vcpu i vm = Some v →
  acrn_handle_pending_request i vm v = Some (v', r) → after_pending i v' r vm = (vm', pc) →
  vinv i (mk_vsys vm' pc mid).
Proof.
  intros (a & Ha & Hok & Hw & Hi & _) Hv Hrun. pose proof (get_vcpu_Some _ _ _ Hv) as [_ Ha'].
  simpl in *. assert (a = arch v) as -> by congruence. specialize (Hw ltac:(done)). specialize (Hi ltac:(done)).
  destruct (handle_pending_cases i vm v Hok Hw) as (v1 & r1 & Hrun' & H). rewrite Hrun in Hrun'. injection Hrun' as <- <-.
  revert H. case_if; [|case_if].
  - intros (-> & Hs & _). eapply after_pending_inv; [done|by eapply served_ok| |]; destruct Hs as [[Ei ??] ?????].
    + auto.
    + by rewrite Ei.
  - intros (-> & ? & Ei & _). eapply after_pending_inv; try done. by rewrite Ei.
  - intros (-> & [? [Ei ??] ??????]). eapply after_pending_inv; try done; [auto|by rewrite Ei].
Qed.

Lemma step_wbinvd_inv i vm v v' r vm' pc mid : vinv i (mk_vsys vm InWbinvd mid) → get_vcpu i vm = Some v →
  handle_pending_resume i vm v = Some (v', r) → after_pending i v' r vm = (vm', pc) → vinv i (mk_vsys vm' pc mid).
Proof.
  intros (a & Ha & Hok & _ & Hi & _) Hv Hrun. pose proof (get_vcpu_Some _ _ _ Hv) as [_ Ha'].
  simpl in *. assert (a = arch v) as -> by congruence. specialize (Hi ltac:(done)). revert Hrun.
  unfold handle_pending_resume, wait_test. case_if.
  - intros [= <- <-]. eapply after_pending_inv; try done. by destruct Hok.
  - destruct (handle_after_wbinvd_spec i vm (on_arch (λ a, a⟨wbinvd_event := (wbinvd_event (arch v))⟨set := false⟩⟨waiting_thread := None⟩⟩) v))
      as (v1 & -> & [? [Ei Ew ?] ??????]); [by destruct Hok|].
    intros [= <- <-]. eapply after_pending_inv; try done; [by intros _; apply Ew|by rewrite Ei].
Qed.

Lemma after_vmexit_inv i vm vm1 x vm' pc pc0 mid : vinv i (mk_vsys vm pc0 mid) → pc0 ≠ InWbinvd → pc0 ≠ Asleep →
  vm_keeps i vm vm1 → (x = XHalt → ∃ a, archs vm1 !! i = Some a ∧ pending_req a = 0) →
  after_vmexit i x vm1 = Some (vm', pc) → vinv i (mk_vsys vm' pc mid).
Proof.
  intros Hinv ?? Hk Hh. destruct x as [ret| |e]; cbn [after_vmexit].
  - case_if; [|by intros [= <- <-]; eapply vinv_keeps].
    destruct (get_vcpu i vm1) as [v|] eqn:Hv; [|done]. unfold vcpu_inject_gp, queue. cbn [mbind option_bind].
    destruct (vcpu_queue_exception IDT_GP 0 v) as [[v1 r1]|] eqn:Hq; [|done]. intros [= <- <-].
    eapply vinv_keeps; [done..| |done|done]. etrans; [exact Hk|]. eapply put_vcpu_keeps; [done|]. by eapply queue_keeps, Hq.
  - intros [= <- <-]. destruct Hinv as (a & Ha & Hok & Hw & Hi & _). destruct (Hk a Ha) as (a1 & Ha1 & Hka).
    destruct (Hka Hok) as (? & Ew & Ei). destruct (Hh eq_refl) as (a2 & Ha2 & Hp). assert (a2 = a1) as -> by congruence. simpl in *.
    exists a1. simpl. rewrite Ew, Ei. split_and!; auto. intros _. unfold external, pending. by rewrite Hp, !Z.bits_0.
  - intros [= <- <-]. by eapply vinv_keeps.
Qed.

Lemma hlt_wait_inv i vm test vm' pc mid pc0 : vinv i (mk_vsys vm pc0 mid) → pc0 = HltChecked ∨ pc0 = Asleep →
  (∀ ev ev' go, waiting_thread ev = None ∨ pc0 = Asleep → test ev = Some (ev', go) →
     if (go : bool) then waiting_thread ev' = None else set ev' = set ev) →
  hlt_wait i test vm = Some (vm', pc) → vinv i (mk_vsys vm' pc mid).
Proof.
  intros (a & Ha & Hok & Hw & Hi & Hx) Hpc Ht. simpl in *. unfold hlt_wait. rewrite Ha. cbn [mbind option_bind].
  destruct (test (irq_event a)) as [[ev go]|] eqn:Et; [|done]. intros [= <- <-].
  assert (Hwi : waiting_thread (irq_event a) = None ∨ pc0 = Asleep) by (destruct Hpc as [->| ->]; auto).
  specialize (Ht _ _ _ Hwi Et). specialize (Hx Hpc).
  exists (a⟨irq_event := ev⟩). simpl. split; [apply list_lookup_insert_eq; by eapply lookup_lt_Some|].
  split; [by destruct Hok|]. split; [intros _; apply Hw; by destruct Hpc as [->| ->]|].
  destruct go; simpl in *; [split; [done|by intros [|]]|]. split; [done|]. intros _ He. rewrite Ht. by apply Hx.
Qed.

Lemma request_ext e : e ∈ [ACRN_REQUEST_EXTINT; ACRN_REQUEST_NMI] → 0 ≤ e < 31 ∧ e ≠ ACRN_REQUEST_EXCP.
Proof. rewrite !elem_of_cons, elem_of_nil. by intros [->|[->|[]]]. Qed.

Lemma vstep_inv i x y : vstep tickrate tick dispatch_sos_hypercall dispatch_interrupt i x y → vinv i x → vinv i y.
Proof.
  destruct 1 as [vm v v' r vm' pc mid|vm v v' r vm' pc mid|vm v mid Hv|vm v regs h mid Hv|vm v regs h mid Hv
    |vm vm1 x vm' pc mid Hx Hf|vm v vm' pc mid Hv Hh|vm vm' pc mid Hh|vm e io e' vm' pc mid Hr Hf
    |e vm a pc mid He Ha|vm a pc mid Ha|vm vm' a a' pc mid Ha Ha' Hq]; intros Hinv.
  - by eapply step_pending_inv.
  - by eapply step_wbinvd_inv.
  - destruct Hinv as (a & Ha & Hok & Hw & _). pose proof (get_vcpu_Some _ _ _ Hv) as [_ Ha']. simpl in *.
    assert (a = arch v) as -> by congruence.
    eapply vinv_put; try done; [by destruct Hok|auto].
  - eapply vinv_keeps; try done. eapply put_vcpu_keeps; [done|]. by apply keeps_same.
  - eapply vinv_keeps; try done. eapply put_vcpu_keeps; [done|]. rewrite zombie_arch. by apply keeps_same.
  - destruct (vmexit_handler_keeps _ _ _ _ Hx). by eapply after_vmexit_inv.
  - eapply hlt_wait_inv; [done|by left| |exact Hh]. intros ev ev' go [Hev|]; [|done]. unfold wait_enter, wait_test.
    rewrite Hev. intros [= Ht]. revert Ht. simpl. by destruct (set ev) eqn:Es; intros [= <- <-]; simpl.
  - eapply hlt_wait_inv; [done|by right| |exact Hh]. intros ev ev' go _ [= Ht]. revert Ht. unfold wait_test.
    case_if; by intros [= <- <-].
  - eapply after_vmexit_inv; [exact Hinv|done|done| | |exact Hf].
    + by apply vm_keeps_archs.
    + by destruct e'.
  - destruct Hinv as (b & Hb & Hok & Hw & Hi & _). simpl in *. simplify_eq. destruct (request_ext e He) as [? ?].
    destruct (request_keeps e a) as (? & Ew & Ei); [done..|]. eexists. simpl.
    split; [apply list_lookup_insert_eq; by eapply lookup_lt_Some|]. rewrite Ew, Ei. split_and!; try done. right. lia.
  - destruct Hinv as (b & Hb & Hok & Hw & Hi & _). simpl in *. simplify_eq.
    eexists. simpl. split; [apply list_lookup_insert_eq; by eapply lookup_lt_Some|].
    split; [by destruct Hok|]. split_and!; try done. by left.
  - destruct Hinv as (b & Hb & Hok & Hw & Hi & Hx). simpl in *. simplify_eq.
    destruct (quiet_keeps _ _ Hq Hok) as (? & Ew & Ei). exists a'. simpl. rewrite Ew, Ei. split_and!; try done.
    intros Hpc Hext. destruct Hq as [_ Hbits _ _ _ Hset]. destruct (Hx Hpc) as [|]; [|by left; apply Hset|by right].
    unfold external in *. apply orb_prop in Hext as [Hp|Hp];
      (apply Hbits in Hp; [rewrite Hp; by rewrite ?orb_true_r|by apply (bool_decide_unpack _)]).
Qed.

Lemma vsteps_inv i x y : rtc (vstep tickrate tick dispatch_sos_hypercall dispatch_interrupt i) x y → vinv i x → vinv i y.
Proof. induction 1; [done|]. intros ?. by eapply IHrtc, vstep_inv. Qed.

Lemma vinv_start i vm v : get_vcpu i vm = Some v → arch_ok (arch v) →
  waiting_thread (wbinvd_event (arch v)) = None → waiting_thread (irq_event (arch v)) = None →
  vinv i (mk_vsys vm Top 0).
Proof. intros [_ Ha]%get_vcpu_Some ???. exists (arch v). split_and!; try done. by intros [|]. Qed.

(** C4: An interrupt injected into a halted vCPU wakes it. In every interleaving
    of the loop of the vCPU with callers of vcpu_inject_extint and
    vcpu_inject_nmi and with the rest of the system, a vCPU that is asleep in
    hlt_vmexit_handler with such a request pending, all of whose callers have
    returned, leaves the wait when it runs again. This rests on the order of the
    two halves of the injection, the request before the signal, since the loop
    clears the signal after it has handled the requests. *)
Theorem halted_vcpu_wakes i vm v x a :
  get_vcpu i vm = Some v → arch_ok (arch v) →
  waiting_thread (wbinvd_event (arch v)) = None → waiting_thread (irq_event (arch v)) = None →
  rtc (vstep tickrate tick dispatch_sos_hypercall dispatch_interrupt i) (mk_vsys vm Top 0) x →
  archs (s_vm x) !! i = Some a → s_pc x = Asleep → s_mid x = 0%nat → external a = true →
  ∃ vm', hlt_wait i (λ ev, Some (wait_test ev)) (s_vm x) = Some (vm', Top)
    ∧ ∃ a', archs vm' !! i = Some a' ∧ pending_req a' = pending_req a.
Proof.
  intros Hv Hok Hw Hi Hr Ha Hpc Hmid Hx.
  destruct (vsteps_inv _ _ _ Hr (vinv_start _ _ _ Hv Hok Hw Hi)) as (b & Hb & _ & _ & _ & Hs).
  assert (b = a) as -> by congruence. destruct (Hs (or_intror Hpc) Hx) as [Hset|]; [|lia].
  unfold hlt_wait. rewrite Ha. cbn [mbind option_bind]. unfold wait_test. rewrite Hset. simpl.
  eexists. split; [reflexivity|]. eexists. simpl. split; [apply list_lookup_insert_eq; by eapply lookup_lt_Some|done].
Qed.

End wakeups.

(** ** Context switches *)

Lemma save_guest_longs h v : longs (save_guest_state h v)
  = foldl (λ l '(c, w), <[w := h c]> l) (longs v) guest_csrs.
Proof. reflexivity. Qed.

Lemma save_guest_reg h v c w : (46 ≤ length (longs v))%nat → (c, w) ∈ guest_csrs →
  vcpu_get_gpreg (save_guest_state h v) w = h c.
Proof.
  intros Hl Hc. unfold vcpu_get_gpreg. rewrite save_guest_longs. unfold guest_csrs in *. cbn [foldl].
  repeat (apply elem_of_cons in Hc as [[= -> ->]|Hc];
    [rewrite ?list_lookup_insert_ne by lia; by rewrite list_lookup_insert_eq by (rewrite ?length_insert; lia)|]).
  by apply not_elem_of_nil in Hc.
Qed.

Lemma load_guest_csr v h c w : (c, w) ∈ guest_csrs → load_guest_state v h c = u64 (vcpu_get_gpreg v w).
Proof.
  intros Hc. unfold guest_csrs in Hc. repeat (apply elem_of_cons in Hc as [[= -> ->]|Hc]; [reflexivity|]). by apply not_elem_of_nil in Hc.
Qed.

(** Saving what is there already. *)
Lemma save_again (k : csrs) l : ∀ v, (∀ c w, (c, w) ∈ l → longs v !! w = Some (k c)) →
  foldl (λ v '(c, w), vcpu_set_gpreg v w (k c)) v l = v.
Proof.
  induction l as [|[c w] l IH]; intros v Hv; [done|]. cbn [foldl].
  assert (vcpu_set_gpreg v w (k c) = v) as ->.
  { unfold vcpu_set_gpreg. rewrite list_insert_id by (apply Hv; by left). by destruct v. }
  apply IH. intros c' w' Hin. apply Hv. by right.
Qed.

(** A vCPU finds its supervisor registers again after other vCPUs have used
    the hart. Saving them on the way out and loading them on the way in restores
    every one of them whatever the hart held in between, leaves the other
    registers of the hart and the general registers of the vCPU alone, and
    saving once more changes nothing. *)
Theorem context_switch_round_trip v h h' : (∀ c, word 64 (h c)) → (46 ≤ length (longs v))%nat →
  let v1 := save_guest_state h v in
  (∀ c w, (c, w) ∈ guest_csrs → load_guest_state v1 h' c = h c)
  ∧ (∀ c, c ∉ guest_csrs.*1 → load_guest_state v1 h' c = h' c)
  ∧ (∀ r, (r < RUN_CTX_SSTATUS)%nat → vcpu_get_gpreg v1 r = vcpu_get_gpreg v r)
  ∧ save_guest_state (load_guest_state v1 h') v1 = v1.
Proof.
  intros Hw Hl v1. subst v1.
  assert (Hc : ∀ c w, (c, w) ∈ guest_csrs → load_guest_state (save_guest_state h v) h' c = h c).
  { intros c w Hin. rewrite (load_guest_csr _ _ _ _ Hin), (save_guest_reg _ _ _ _ Hl Hin). apply Z.mod_small, Hw. }
  split; [done|]. split_and!.
  - intros c Hn. destruct c; try reflexivity; exfalso; apply Hn; by apply (bool_decide_unpack _).
  - intros r Hr. unfold RUN_CTX_SSTATUS in Hr. unfold vcpu_get_gpreg. rewrite save_guest_longs. cbn [foldl guest_csrs].
    by rewrite !list_lookup_insert_ne by lia.
  - apply save_again. intros c w Hin. rewrite (Hc c w Hin). pose proof (save_guest_reg h v c w Hl Hin) as Hg.
    assert (Hlt : (w < length (longs (save_guest_state h v)))%nat).
    { rewrite save_guest_longs. cbn [foldl guest_csrs]. rewrite !length_insert.
      assert (Forall (λ '(_, w), (w < 46)%nat) guest_csrs) as Hall by by apply (bool_decide_unpack _).
      rewrite Forall_forall in Hall. specialize (Hall _ Hin). simpl in Hall. lia. }
    apply lookup_lt_is_Some_2 in Hlt as [x Hx]. unfold vcpu_get_gpreg in Hg. rewrite Hx in Hg. simpl in Hg. by subst x.
Qed.

(** ** Witnesses *)

Definition no_hypercall (i : nat) (id : Z) (vm : acrn_vm (W := Z)) : option (acrn_vm * Z) := Some (vm, 0).
Definition no_interrupt (i : nat) (vm : acrn_vm (W := Z)) : option acrn_vm := Some vm.
Abbreviation ex_step := (vstep 1000 0 no_hypercall no_interrupt 0).

Lemma no_hypercall_keeps i id vm vm' r : no_hypercall i id vm = Some (vm', r) → vm_keeps i vm vm'.
Proof. by intros [= <- _]. Qed.
Lemma no_interrupt_keeps i vm vm' : no_interrupt i vm = Some vm' → vm_keeps i vm vm'.
Proof. by intros [= <-]. Qed.

Definition ex_v : acrn_vcpu := mk_vcpu (ex_vcpu 1 init_event) ex_arch.
(** The registers after a WFI of the guest. *)
Definition ex_regs : list Z := <[CPU_REG_CAUSE := 0x16]> (replicate 37 0).


(** The vCPU halts, from the top of the loop: its requests handled, in the
    guest, after the exit, and asleep. *)
Definition ex_v1 : acrn_vcpu :=
  match acrn_handle_pending_request 0 ex_clint_vm ex_v with Some (v, _) => v | None => ex_v end.
Definition ex_vm1 : acrn_vm (W := Z) := put_vcpu 0 ex_v1 ex_clint_vm.
Definition ex_vm2 : acrn_vm := put_vcpu 0 (enter_guest ex_v1) ex_vm1.
Definition ex_vm3 : acrn_vm := put_vcpu 0 (leave_guest (guest_ran ex_regs (λ _, 0) (enter_guest ex_v1))) ex_vm2.
Definition ex_vm4 : acrn_vm :=
  match vmexit_handler 1000 0 no_hypercall no_interrupt 0 ex_vm3 with Some (vm, _) => vm | None => ex_vm3 end.
Definition ex_vm5 : acrn_vm := match hlt_wait 0 (wait_enter 1) ex_vm4 with Some (vm, _) => vm | None => ex_vm4 end.

Lemma ex_enters : ex_step (mk_vsys ex_clint_vm Top 0) (mk_vsys ex_vm1 Handled 0).
Proof. eapply (step_pending _ _ _ _ _ _ ex_v ex_v1 (PDone 0) ex_vm1 Handled); vm_compute; reflexivity. Qed.

Lemma ex_sleeps : rtc ex_step (mk_vsys ex_vm2 InGuest 0) (mk_vsys ex_vm5 Asleep 0).
Proof.
  apply rtc_l with (mk_vsys ex_vm3 Exited 0).
  { apply (step_leave _ _ _ _ _ ex_vm2 (enter_guest ex_v1)). vm_compute. reflexivity. }
  apply rtc_l with (mk_vsys ex_vm4 HltChecked 0).
  { apply (step_dispatch _ _ _ _ _ ex_vm3 ex_vm4 XHalt); [vm_compute; reflexivity|reflexivity]. }
  apply rtc_once. apply (step_hlt _ _ _ _ _ ex_vm4 (default ex_v (get_vcpu 0 ex_vm4))); vm_compute; reflexivity.
Qed.

Lemma ex_halts : rtc ex_step (mk_vsys ex_clint_vm Top 0) (mk_vsys ex_vm5 Asleep 0).
Proof.
  eapply rtc_l; [exact ex_enters|]. apply rtc_l with (mk_vsys ex_vm2 InGuest 0), ex_sleeps.
  apply (step_enter _ _ _ _ _ ex_vm1 ex_v1). vm_compute. reflexivity.
Qed.

Lemma ex_v_start : get_vcpu 0 ex_clint_vm = Some ex_v ∧ arch_ok (arch ex_v)
  ∧ waiting_thread (wbinvd_event (arch ex_v)) = None ∧ waiting_thread (irq_event (arch ex_v)) = None.
Proof. by repeat split. Qed.

(** An external interrupt injected into the halted vCPU. *)
Definition ex_a (vm : acrn_vm (W := Z)) : vcpu_arch := default ex_arch (archs vm !! 0%nat).
Definition ex_vm6 : acrn_vm := ex_vm5⟨archs := <[0%nat := vcpu_make_request ACRN_REQUEST_EXTINT (ex_a ex_vm5)]> (archs ex_vm5)⟩.
Definition ex_vm7 : acrn_vm := ex_vm6⟨archs := <[0%nat := signal_irq (ex_a ex_vm6)]> (archs ex_vm6)⟩.

Lemma ex_injected : rtc ex_step (mk_vsys ex_clint_vm Top 0) (mk_vsys ex_vm7 Asleep 0).
Proof.
  etrans; [exact ex_halts|].
  apply rtc_l with (mk_vsys ex_vm6 Asleep 1).
  { apply (step_inject _ _ _ _ _ ACRN_REQUEST_EXTINT ex_vm5 (ex_a ex_vm5)); [left|vm_compute; reflexivity]. }
  apply rtc_once. apply (step_signal _ _ _ _ _ ex_vm6 (ex_a ex_vm6)). vm_compute. reflexivity.
Qed.

Lemma halted_vcpu_wakes_witness : ∃ vm', hlt_wait 0 (λ ev, Some (wait_test ev)) ex_vm7 = Some (vm', Top).
Proof.
  destruct ex_v_start as (Hv & Hok & Hw & Hi).
  destruct (halted_vcpu_wakes 1000 0 no_hypercall no_interrupt no_hypercall_keeps no_interrupt_keeps
    0 ex_clint_vm ex_v (mk_vsys ex_vm7 Asleep 0) (ex_a ex_vm7) Hv Hok Hw Hi ex_injected)
    as (vm' & Hrun & _); [vm_compute; reflexivity..|]. by exists vm'.
Defined.


(** A vCPU of the guest with interrupts enabled and an external interrupt
    requested. *)
Definition ex_v2 : acrn_vcpu :=
  on_arch (vcpu_make_request ACRN_REQUEST_EXTINT) (set_reg RUN_CTX_SSTATUS HV_ARCH_VCPU_STATUS_SIE ex_v).



Lemma context_switch_round_trip_witness :
  load_guest_state (save_guest_state (λ _, 7) (ex_vcpu 1 init_event)) (λ _, 9) vsatp = 7.
Proof.
  destruct (context_switch_round_trip (ex_vcpu 1 init_event) (λ _, 7) (λ _, 9)) as [Hc _].
  - intros c. done.
  - vm_compute. lia.
  - apply (Hc vsatp 45%nat). by apply (bool_decide_unpack _).
Defined.

(** The order of the two halves matters: vclint_set_intr signals first and makes
    its request afterwards. When the signal arrives between the handling of the
    requests and the entry into the guest, the guest can halt before the request
    is made: the vCPU is then asleep with its request pending and no signal to
    wake it. *)
Theorem vclint_set_intr_wakeup_lost : ∃ vm1 vm5 a1 a5,
  rtc ex_step (mk_vsys ex_clint_vm Top 0) (mk_vsys vm1 Handled 0) ∧ archs vm1 !! 0%nat = Some a1
  ∧ rtc ex_step (mk_vsys (vm1⟨archs := <[0%nat := signal_irq a1]> (archs vm1)⟩) Handled 0) (mk_vsys vm5 Asleep 0)
  ∧ archs vm5 !! 0%nat = Some a5
  ∧ pending ACRN_REQUEST_EVENT (vcpu_make_request ACRN_REQUEST_EVENT a5) = true
  ∧ set (irq_event (vcpu_make_request ACRN_REQUEST_EVENT a5)) = false.
Proof.
  exists ex_vm1, ex_vm5, (ex_a ex_vm1), (ex_a ex_vm5).
  split; [apply rtc_once, ex_enters|]. split; [vm_compute; reflexivity|].
  split; [|split; [vm_compute; reflexivity|split; vm_compute; reflexivity]].
  set (vm1 := ex_vm1⟨archs := _⟩). apply rtc_l with (mk_vsys ex_vm2 InGuest 0), ex_sleeps.
  assert (Hput : put_vcpu 0 (enter_guest (on_arch signal_irq ex_v1)) vm1 = ex_vm2) by (vm_compute; reflexivity).
  rewrite <- Hput. apply step_enter. vm_compute. reflexivity.
Qed.
