(* ===== verification/VmLife.v ===== *)
(** * The life of a VM and its vCPUs

    Creation, launch, pause, reset and shutdown of vCPUs
    (arch/riscv/guest/vcpu.c) and of VMs (arch/riscv/guest/vm.c). The threads of
    the vCPUs belong to the scheduler ([Schedule]); waking and putting them to
    sleep is recorded. *)

From S2P Require Import Prelude Bits LinkedList Timer Schedule SchedIorr Event Sbuf IoReq Vcpu Vclint Vmexit.

Definition CONFIG_MAX_VCPU : nat := 2.

Inductive vm_state := VM_POWERED_OFF | VM_CREATED | VM_RUNNING | VM_READY_TO_POWEROFF | VM_PAUSED.

(** Calls into the scheduler for the thread of a vCPU. *)
Inductive thread_call := WakeThread (i : nat) | SleepThread (i : nat) | SleepThreadSync (i : nat).

Section life.
Context {W : Type}.

(** struct acrn_vm with [vm_id], [hw.created_vcpus], the [pcpu_id] of each
    vCPU, [state] and the kernel entry point. *)
Record vm_life := mk_life {
  vm_id : nat;
  lvm : acrn_vm (W := W);
  created_vcpus : nat;
  pcpu_ids : list nat;
  life_state : vm_state;
  kernel_entry : Z;
  calls : list thread_call;
}.
#[export] Instance eta_life : Eta vm_life :=
  MkEta _ (rd mk_life <*> vm_id <*> lvm <*> created_vcpus <*> pcpu_ids <*> life_state <*> kernel_entry <*> calls).

Implicit Types (l : vm_life) (v : acrn_vcpu) (i : nat).

(** An update of [&vm->hw.vcpu[i]]. *)
Definition with_vcpu i (f : acrn_vcpu → acrn_vcpu) l : option vm_life :=
  v ← get_vcpu i (lvm l); Some (l⟨lvm := put_vcpu i (f v) (lvm l)⟩).

(** update_vm_vclint_state is empty. *)
Definition vcpu_set_state (st : vcpu_state) v : acrn_vcpu := v⟨vio := (vio v)⟨vcpu_st := st⟩⟩.

Definition zero_reqs : io_reqs := mk_reqs 0 0 0 0 0 [0; 0; 0; 0].

(** A zeroed struct acrn_vcpu; its thread object is the one of the scheduler. *)
Definition zero_vcpu v : acrn_vcpu :=
  mk_vcpu (mk_io_vcpu VCPU_OFFLINE (mk_io_request 0 zero_reqs) (replicate (NR_WORLD * CONTEXT_WORDS) 0)
             init_event (thread (vio v)))
    (mk_arch 0 0 false 0 0 0 0 0 0 0 [0; 0; 0; 0] init_event init_event (hart (arch v)) (remote (arch v)) (kicks (arch v))).

Definition create_vcpu (vcpu_id : nat) l : option (vm_life * Z) :=
  let i := created_vcpus l in
  if decide (i < MAX_VCPUS_PER_VM)%nat then
    l ← with_vcpu i (λ v,
          on_arch (vcpu_make_request ACRN_REQUEST_INIT_VMCS)
            (vcpu_set_rip (kernel_entry l) (vcpu_set_state VCPU_INIT (zero_vcpu v)))) l;
    Some (l⟨created_vcpus := S i⟩⟨pcpu_ids := <[i := (vcpu_id + vm_id l * CONFIG_MAX_VCPU)%nat]> (pcpu_ids l)⟩, 0)
  else Some (l, - EINVAL).

Definition launch_vcpu i l : option vm_life :=
  pcpu_id ← pcpu_ids l !! i;
  l ← with_vcpu i (λ v, set_reg CPU_REG_A0 (Z.of_nat pcpu_id) (vcpu_set_state VCPU_RUNNING v)) l;
  Some (l⟨calls := calls l ++ [WakeThread i]⟩).

(** [here] tells whether the vCPU belongs to the CPU that executes. *)
Definition zombie_vcpu (here : bool) i l : option vm_life :=
  v ← get_vcpu i (lvm l);
  let st := vcpu_st (vio v) in
  if decide (st = VCPU_RUNNING ∨ st = VCPU_INIT) then
    let l := l⟨lvm := put_vcpu i (vcpu_set_state VCPU_ZOMBIE v) (lvm l)⟩ in
    Some (if decide (st = VCPU_RUNNING)
          then l⟨calls := calls l ++ [if here then SleepThread i else SleepThreadSync i]⟩ else l)
  else Some l.

(** Both worlds lose the registers and CSRs of their run_context. *)
Definition zero_contexts (ws : list Z) : list Z :=
  imap (λ n x, if decide (n mod CONTEXT_WORDS < RUN_CTX_WORDS)%nat then 0 else x) ws.

Definition vcpu_reset_internal i l : option vm_life :=
  l ← with_vcpu i (λ v,
        mk_vcpu ((vio v)⟨longs := zero_contexts (longs (vio v))⟩⟨ioreq_event := init_event⟩)
          ((arch v)⟨launched := false⟩⟨nr_sipi := 0⟩⟨exception := VECTOR_INVALID⟩
             ⟨irq_event := init_event⟩⟨wbinvd_event := init_event⟩)) l;
  Some (l⟨lvm := vclint_reset (lvm l)⟩).

Definition reset_vcpu i l : option vm_life :=
  l ← vcpu_reset_internal i l; with_vcpu i (vcpu_set_state VCPU_INIT) l.

Definition offline_vcpu i l : option vm_life :=
  with_vcpu i (vcpu_set_state VCPU_OFFLINE) (l⟨lvm := vclint_free (lvm l)⟩).

(** ** VMs *)

Fixpoint launch_all (ids : list nat) l : option vm_life :=
  match ids with
  | [] => Some l
  | i :: ids => l ← launch_vcpu i l; launch_all ids l
  end.

Definition start_vm l : option vm_life :=
  let l := l⟨life_state := VM_RUNNING⟩ in launch_all (seq 0 (created_vcpus l)) l.

Definition pause_vm (here : bool) l : option vm_life :=
  l ← zombie_vcpu here 0 l; Some (l⟨life_state := VM_PAUSED⟩).

Definition reset_vm l : option vm_life :=
  io ← reset_vm_ioreqs (iovm (lvm l));
  Some (l⟨lvm := (lvm l)⟨iovm := io⟩⟩⟨life_state := VM_CREATED⟩).

Definition shutdown_vm l : option vm_life := offline_vcpu 0 (l⟨life_state := VM_POWERED_OFF⟩).

(** The loop of create_vm. *)
Fixpoint create_vcpus (ids : list nat) l : option vm_life :=
  match ids with
  | [] => Some l
  | i :: ids => '(l, _) ← create_vcpu i l; create_vcpus ids l
  end.

(** ** Proofs *)

Lemma get_put_vcpu i j v w vm : get_vcpu (W := W) i vm = Some w →
  get_vcpu j (put_vcpu i v vm) = if decide (j = i) then Some v else get_vcpu j vm.
Proof.
  intros [Hio Ha]%get_vcpu_Some. unfold get_vcpu. simpl. case_decide as Hj.
  - subst j. rewrite !list_lookup_insert_eq by by eapply lookup_lt_Some. by destruct v.
  - by rewrite !list_lookup_insert_ne.
Qed.

(** What create_vcpu makes of the memory of a vCPU. *)
Definition fresh_vcpu (entry : Z) v : acrn_vcpu :=
  on_arch (vcpu_make_request ACRN_REQUEST_INIT_VMCS)
    (vcpu_set_rip entry (vcpu_set_state VCPU_INIT (zero_vcpu v))).

Lemma create_vcpus_spec n : ∀ k l, created_vcpus l = k → (k + n ≤ MAX_VCPUS_PER_VM)%nat →
  (∀ i, (k ≤ i < k + n)%nat → is_Some (get_vcpu i (lvm l))) → length (pcpu_ids l) = MAX_VCPUS_PER_VM →
  ∃ l', create_vcpus (seq k n) l = Some l' ∧ created_vcpus l' = (k + n)%nat ∧ calls l' = calls l
    ∧ (∀ i, get_vcpu i (lvm l') = if decide (k ≤ i < k + n)%nat then fresh_vcpu (kernel_entry l) <$> get_vcpu i (lvm l)
                                  else get_vcpu i (lvm l))
    ∧ ∀ i, pcpu_ids l' !! i = if decide (k ≤ i < k + n)%nat then Some (i + vm_id l * CONFIG_MAX_VCPU)%nat else pcpu_ids l !! i.
Proof.
  induction n as [|n IH]; intros k l Hk Hmax Hv Hp; cbn [seq create_vcpus].
  { exists l. split_and!; [done|lia|done|..]; intros i; by rewrite decide_False by lia. }
  destruct (Hv k) as [v Hvk]; [lia|]. unfold create_vcpu. rewrite Hk, decide_True by lia. unfold with_vcpu.
  rewrite Hvk. cbn [mbind option_bind]. fold (fresh_vcpu (kernel_entry l) v).
  set (l1 := (l⟨lvm := _⟩)⟨created_vcpus := _⟩⟨pcpu_ids := _⟩).
  destruct (IH (S k) l1) as (l' & Hrun & Hc & Hcalls & Hg & Hpc).
  - done.
  - lia.
  - intros i Hi. unfold l1. simpl. rewrite (get_put_vcpu _ _ _ _ _ Hvk), decide_False by lia. apply Hv. lia.
  - unfold l1. simpl. by rewrite length_insert.
  - exists l'. split; [exact Hrun|]. split_and!; [lia|by rewrite Hcalls| |].
    + intros i. rewrite Hg. unfold l1. simpl. rewrite (get_put_vcpu _ _ _ _ _ Hvk).
      destruct (decide (i = k)) as [->|Hne].
      * rewrite decide_False, decide_True by lia. by rewrite Hvk.
      * repeat case_decide; try lia; done.
    + intros i. rewrite Hpc. unfold l1. simpl. destruct (decide (i = k)) as [->|Hne].
      * rewrite decide_False, decide_True, list_lookup_insert_eq by (rewrite ?Hp; lia). done.
      * rewrite list_lookup_insert_ne by done. repeat case_decide; try lia; done.
Qed.

(** What launch_vcpu makes of a vCPU. *)
Definition launched_vcpu (pcpu_id : nat) v : acrn_vcpu :=
  set_reg CPU_REG_A0 (Z.of_nat pcpu_id) (vcpu_set_state VCPU_RUNNING v).

Lemma launch_all_spec n : ∀ k l,
  (∀ i, (k ≤ i < k + n)%nat → is_Some (get_vcpu i (lvm l)) ∧ is_Some (pcpu_ids l !! i)) →
  ∃ l', launch_all (seq k n) l = Some l' ∧ created_vcpus l' = created_vcpus l ∧ life_state l' = life_state l
    ∧ calls l' = calls l ++ (WakeThread <$> seq k n)
    ∧ ∀ i, get_vcpu i (lvm l') = if decide (k ≤ i < k + n)%nat
        then p ← pcpu_ids l !! i; launched_vcpu p <$> get_vcpu i (lvm l) else get_vcpu i (lvm l).
Proof.
  induction n as [|n IH]; intros k l Hv; cbn [seq launch_all].
  { exists l. split_and!; [done..| |]; [by rewrite app_nil_r|]. intros i. by rewrite decide_False by lia. }
  destruct (Hv k) as [[v Hvk] [p Hpk]]; [lia|]. unfold launch_vcpu, with_vcpu. rewrite Hpk. cbn [mbind option_bind].
  rewrite Hvk. cbn [mbind option_bind]. set (l1 := (l⟨lvm := _⟩)⟨calls := _⟩).
  destruct (IH (S k) l1) as (l' & Hrun & Hc & Hs & Hcalls & Hg).
  - intros i Hi. unfold l1. simpl. rewrite (get_put_vcpu _ _ _ _ _ Hvk), decide_False by lia. apply Hv. lia.
  - exists l'. split; [exact Hrun|]. split_and!; [done..| |].
    + rewrite Hcalls. unfold l1. simpl. by rewrite <- app_assoc.
    + intros i. rewrite Hg. unfold l1. simpl. rewrite (get_put_vcpu _ _ _ _ _ Hvk).
      destruct (decide (i = k)) as [->|Hne].
      * rewrite decide_False, decide_True by lia. by rewrite Hpk, Hvk.
      * repeat case_decide; try lia; done.
Qed.

Lemma fresh_vcpu_arch entry p v :
  let a := arch (launched_vcpu p (fresh_vcpu entry v)) in
  arch_ok a ∧ irq_event a = init_event ∧ wbinvd_event a = init_event
  ∧ ∀ e, 0 ≤ e → pending e a = bool_decide (e = ACRN_REQUEST_INIT_VMCS).
Proof.
  set (a0 := arch (zero_vcpu v)).
  change (arch (launched_vcpu p (fresh_vcpu entry v))) with (vcpu_make_request ACRN_REQUEST_INIT_VMCS a0).
  destruct (make_request_fields ACRN_REQUEST_INIT_VMCS a0) as (_ & _ & Hi & Hw & _).
  split_and!; [by apply make_request_ok|done|done|].
  intros e He. rewrite make_request_pending by done. unfold pending. simpl. by rewrite Z.bits_0.
Qed.

(** A VM comes up with exactly the vCPUs asked for. After creating up to
    eight vCPUs and starting the VM, each of them is running at the entry point
    of the kernel with the number of its CPU in a0, its thread has been woken,
    and its only request is the set-up of its control registers, which its loop
    then handles and goes on; the memory of the vCPUs that were not created is
    untouched. A ninth vCPU is refused. *)
Theorem vm_starts_created_vcpus n l :
  (n ≤ MAX_VCPUS_PER_VM)%nat → created_vcpus l = 0%nat → length (pcpu_ids l) = MAX_VCPUS_PER_VM →
  (∀ i, (i < MAX_VCPUS_PER_VM)%nat → is_Some (get_vcpu i (lvm l))) →
  ∃ l1 l2, create_vcpus (seq 0 n) l = Some l1 ∧ start_vm l1 = Some l2
    ∧ life_state l2 = VM_RUNNING ∧ calls l2 = calls l ++ (WakeThread <$> seq 0 n)
    ∧ (∀ i, (n ≤ i)%nat → get_vcpu i (lvm l2) = get_vcpu i (lvm l))
    ∧ (∀ i, (i < n)%nat → ∃ v, get_vcpu i (lvm l2) = Some v ∧ vcpu_st (vio v) = VCPU_RUNNING
        ∧ vcpu_get_rip v = kernel_entry l ∧ get_reg v CPU_REG_A0 = Z.of_nat (i + vm_id l * CONFIG_MAX_VCPU)
        ∧ arch_ok (arch v) ∧ irq_event (arch v) = init_event ∧ wbinvd_event (arch v) = init_event
        ∧ (∀ e, 0 ≤ e → pending e (arch v) = bool_decide (e = ACRN_REQUEST_INIT_VMCS))
        ∧ ∃ v', acrn_handle_pending_request i (lvm l2) v = Some (v', PDone 0) ∧ arch_ok (arch v'))
    ∧ (n = MAX_VCPUS_PER_VM → ∀ id, create_vcpu id l1 = Some (l1, - EINVAL)).
Proof.
  intros Hn Hc Hp Hv. destruct (create_vcpus_spec n 0 l) as (l1 & Hrun1 & Hc1 & Hcalls1 & Hg1 & Hp1); [done|lia| |done|].
  { intros i Hi. apply Hv. lia. }
  destruct (launch_all_spec n 0 (l1⟨life_state := VM_RUNNING⟩)) as (l2 & Hrun2 & _ & Hs2 & Hcalls2 & Hg2).
  { intros i Hi. simpl. rewrite Hg1, Hp1, !decide_True by lia. destruct (Hv i) as [v ->]; [lia|]. by split; eexists. }
  exists l1, l2. split; [done|]. split; [unfold start_vm; simpl; by rewrite Hc1|].
  split; [done|]. split; [by rewrite Hcalls2; simpl; rewrite Hcalls1|]. split_and!.
  - intros i Hi. rewrite Hg2, decide_False by lia. simpl. by rewrite Hg1, decide_False by lia.
  - intros i Hi. destruct (Hv i) as [v0 Hv0]; [lia|].
    rewrite Hg2, decide_True by lia. simpl. rewrite Hp1, Hg1, !decide_True, Hv0 by lia. simpl.
    destruct (fresh_vcpu_arch (kernel_entry l) (i + vm_id l * CONFIG_MAX_VCPU) v0) as (Hok & Hi' & Hw & Hpend).
    eexists. split; [reflexivity|]. split_and!; try done.
    destruct (handle_pending_cases i (lvm l2) (launched_vcpu (i + vm_id l * CONFIG_MAX_VCPU) (fresh_vcpu (kernel_entry l) v0)))
      as (v' & r & Hrun & Hr); [done|by rewrite Hw|].
    rewrite !Hpend in Hr by done. destruct Hr as [-> Hd]. exists v'. split; [done|apply Hd].
  - intros -> id. unfold create_vcpu. by rewrite Hc1, decide_False by lia.
Qed.
End life.

Definition ex_life : vm_life (W := Z) :=
  mk_life 1 (ex_clint_vm⟨iovm := (iovm ex_clint_vm)⟨vcpus := replicate MAX_VCPUS_PER_VM (ex_vcpu 1 init_event)⟩⟩)
    0 (replicate MAX_VCPUS_PER_VM 0%nat) VM_POWERED_OFF 0x80200000 [].

Lemma vm_starts_created_vcpus_witness :
  ∃ l1 l2, create_vcpus (seq 0 CONFIG_MAX_VCPU) ex_life = Some l1 ∧ start_vm l1 = Some l2
    ∧ calls l2 = [WakeThread 0; WakeThread 1].
Proof.
  destruct (vm_starts_created_vcpus CONFIG_MAX_VCPU ex_life) as (l1 & l2 & H1 & H2 & _ & H3 & _).
  - unfold CONFIG_MAX_VCPU, MAX_VCPUS_PER_VM. lia.
  - reflexivity.
  - reflexivity.
  - unfold MAX_VCPUS_PER_VM. intros i Hi. do 8 (destruct i as [|i]; [by eexists|]). lia.
  - by exists l1, l2.
Defined.

(** vcpu_reset_internal forgets the exception but not the request for it: the
    vCPU then looks up the exception VECTOR_INVALID, outside the table. *)
Lemma reset_with_exception_pending : ∃ v l l' v',
  vcpu_queue_exception IDT_GP 0 ex_v = Some (v, 0) ∧ l = ex_life⟨lvm := put_vcpu 0 v (lvm ex_life)⟩
  ∧ reset_vcpu 0 l = Some l' ∧ get_vcpu 0 (lvm l') = Some v' ∧ vcpu_inject_exception v' = None.
Proof. do 4 eexists. split; [vm_compute; reflexivity|]. split; [reflexivity|]. split; [vm_compute; reflexivity|]. by split. Qed.
