(* ===== verification/CString.v ===== *)
(** * Byte memory and C strings

    [lib/string.c], [debug/string.c] and [arch/riscv/lib/memory.c]: the
    routines on raw bytes and on NUL-terminated strings that the console, the
    logs and the shell are built on.

    Memory is one range of bytes at increasing addresses, and a pointer that is
    only read through is the list of the bytes from it to the end of that
    range: dereferencing the empty list is a read outside the memory, [None].
    Whether plain [char] is signed is decided by the build, [-fsigned-char] in
    [x86.mk] and the unsigned default of the RISC-V toolchain in [riscv.mk], so
    it is a class argument of what depends on it. *)

From S2P Require Import Prelude.

(** ** Memory *)

Record mem := mk_mem { mbase : Z; mbytes : list Z }.

#[export] Instance eta_mem : Eta mem := { eta := rd mk_mem <*> mbase <*> mbytes }.

(** A pointer that is read through: NULL, or the bytes it points to. *)
Definition cptr : Type := option (list Z).

Definition mptr (m : mem) (p : Z) : list Z :=
  if mbase m <=? p then drop (Z.to_nat (p - mbase m)) (mbytes m) else [].
Definition to_cptr (m : mem) (p : Z) : cptr := if p =? 0 then None else Some (mptr m p).

Definition load (m : mem) (p : Z) : option Z := head (mptr m p).
Definition store (m : mem) (p v : Z) : option mem :=
  if (mbase m <=? p) && (p <? mbase m + Z.of_nat (length (mbytes m))) then
    Some m⟨mbytes := <[Z.to_nat (p - mbase m) := v]> (mbytes m)⟩
  else None.

(** ** [arch/riscv/lib/memory.c] *)

Fixpoint memset_loop (n : nat) (m : mem) (p v : Z) : option mem :=
  match n with
  | O => Some m
  | S n' => m' ← store m p v; memset_loop n' m' (p + 1) v
  end.
Definition memset (m : mem) (base v n : Z) : option mem :=
  memset_loop (Z.to_nat n) m base (u8 v).

Definition memset_s (m : mem) (base v n : Z) : option mem :=
  if negb (base =? 0) && negb (n =? 0) then memset m base v n else Some m.

(** The bytes are copied one by one, upwards. *)
Fixpoint memcpy_loop (n : nat) (m : mem) (d s : Z) : option mem :=
  match n with
  | O => Some m
  | S n' => b ← load m s; m' ← store m d b; memcpy_loop n' m' (d + 1) (s + 1)
  end.
Definition memcpy (m : mem) (d s slen : Z) : option mem :=
  memcpy_loop (Z.to_nat slen) m d s.

Definition memcpy_s (m : mem) (d dmax s slen : Z) : option (Z * mem) :=
  if negb (d =? 0) && negb (s =? 0) && (slen <=? dmax)
     && ((s + slen <? d) || (d + dmax <? s)) then
    m' ← (if nonzero slen then memcpy m d s slen else Some m);
    Some (0, m')
  else
    m' ← memset m d 0 dmax;
    Some (-1, m').

(** ** [arch/x86/lib/memory.c]: [std; rep movsb; cld] copies downwards *)

Fixpoint memcpy_backwards_loop (n : nat) (m : mem) (d s : Z) : option mem :=
  match n with
  | O => Some m
  | S n' =>
      b ← load m s; m' ← store m d b; memcpy_backwards_loop n' m' (d - 1) (s - 1)
  end.
Definition memcpy_erms_backwards (m : mem) (d s slen : Z) : option mem :=
  memcpy_backwards_loop (Z.to_nat slen) m d s.

(** ** Characters *)

Class CharAbi := char_signed : bool.

(** [-fsigned-char] of [x86.mk], and the default of the RISC-V toolchain. *)
Definition signed_abi : CharAbi := true.
Definition unsigned_abi : CharAbi := false.

(** The value of a [char] object, whose byte is [b], in an expression. *)
Definition char_val `{CharAbi} (b : Z) : Z :=
  if char_signed && (128 <=? b) then b - 256 else b.

Definition is_space (c : Z) : bool := (c =? 32) || (c =? 9).
Definition is_eol (c : Z) : bool := (c =? 13) || (c =? 10) || (c =? 0).

Definition ULONG_MAX : Z := 2 ^ 64 - 1.
Definition LONG_MAX : Z := Z.shiftr ULONG_MAX 1.
Definition LONG_MIN : Z := bnot 64 LONG_MAX.

(** ** Numbers *)

(** The byte of the [char] that [hex_digit_value] returns. *)
Definition hex_digit_value (ch : Z) : Z :=
  if (48 <=? ch) && (ch <=? 57) then ch - 48
  else if (97 <=? ch) && (ch <=? 102) then ch - 97 + 10
  else if (65 <=? ch) && (ch <=? 70) then ch - 65 + 10
  else u8 (-1).

(** [do { c = *s; s++; } while (is_space(c));] *)
Fixpoint skip_spaces (s : list Z) : option (Z * list Z) :=
  match s with
  | [] => None
  | c :: s' => if is_space c then skip_spaces s' else Some (c, s')
  end.

Section hex.
Context `{CharAbi}.

Fixpoint strtoul_hex_loop (acc c : Z) (s : list Z) {struct s} : option Z :=
  let cutoff := ULONG_MAX / 16 in
  let cutlim := ULONG_MAX mod 16 in
  let digit := char_val (hex_digit_value (char_val c)) in
  if 0 <=? digit then
    if (cutoff <? acc) || ((acc =? cutoff) && (cutlim <? digit)) then Some ULONG_MAX
    else match s with
         | [] => None
         | c' :: s' => strtoul_hex_loop (u64 (acc * 16 + digit)) c' s'
         end
  else Some acc.

Definition strtoul_hex (nptr : list Z) : option Z :=
  '(c, s) ← skip_spaces nptr;
  if c =? 48 then
    x ← head s;
    if (x =? 120) || (x =? 88) then
      c' ← s !! 1%nat; strtoul_hex_loop 0 c' (drop 2 s)
    else strtoul_hex_loop 0 c s
  else strtoul_hex_loop 0 c s.
End hex.

(** The loop of [strtol_deci]: the accumulator, and whether it overflowed. *)
Fixpoint strtol_deci_loop (cutoff cutlim acc c : Z) (s : list Z) {struct s}
    : option (Z * bool) :=
  if (48 <=? c) && (c <=? 57) then
    let d := c - 48 in
    if (cutoff <? acc) || ((acc =? cutoff) && (cutlim <? d)) then Some (acc, true)
    else match s with
         | [] => None
         | c' :: s' => strtol_deci_loop cutoff cutlim (u64 (acc * 10 + d)) c' s'
         end
  else Some (acc, false).

Definition strtol_deci (nptr : list Z) : option Z :=
  '(c, s) ← skip_spaces nptr;
  '(neg, c, s) ← (if c =? 45 then c' ← head s; Some (true, c', tail s)
                  else if c =? 43 then c' ← head s; Some (false, c', tail s)
                  else Some (false, c, s));
  let limit := if (neg : bool) then LONG_MIN else LONG_MAX in
  '(acc, over) ← strtol_deci_loop (limit / 10) (limit mod 10) 0 c s;
  Some (s64 (if (over : bool) then limit
             else if neg then u64 (bnot 64 acc + 1) else acc)).

(** ** Strings *)

(** The string from [s] on starting at the first [ch], NULL when there is none. *)
Fixpoint strchr (s : list Z) (ch : Z) : option cptr :=
  match s with
  | [] => None
  | c :: s' =>
      if negb (c =? 0) && negb (c =? ch) then strchr s' ch
      else Some (if negb (c =? 0) then Some s else None)
  end.

(** The byte is read before the limit is tested. *)
Fixpoint strnlen_loop (str : list Z) (maxlen count : Z) : option Z :=
  match str with
  | [] => None
  | c :: str' =>
      if c =? 0 then Some count
      else if maxlen =? 0 then Some count
      else strnlen_loop str' (maxlen - 1) (count + 1)
  end.
Definition strnlen_s (str_arg : cptr) (maxlen_arg : Z) : option Z :=
  match str_arg with
  | None => Some 0
  | Some str => strnlen_loop str maxlen_arg 0
  end.

Section compare.
Context `{CharAbi}.

Fixpoint strcmp (str1 str2 : list Z) {struct str1} : option Z :=
  match str1, str2 with
  | a :: str1', b :: str2' =>
      if negb (a =? 0) && negb (b =? 0) && (a =? b) then strcmp str1' str2'
      else Some (char_val a - char_val b)
  | _, _ => None
  end.

Fixpoint strncmp_loop (str1 str2 : list Z) (n : Z) {struct str1} : option Z :=
  match str1, str2 with
  | a :: str1', b :: str2' =>
      if negb (n - 1 =? 0) && negb (a =? 0) && negb (b =? 0) && (a =? b) then
        strncmp_loop str1' str2' (n - 1)
      else Some (char_val a - char_val b)
  | _, _ => None
  end.
Definition strncmp (s1_arg s2_arg : list Z) (n_arg : Z) : option Z :=
  if 0 <? n_arg then strncmp_loop s1_arg s2_arg n_arg else Some 0.
End compare.

Definition strncpy_s (m : mem) (d dmax s slen : Z) : option (Z * mem) :=
  len ← strnlen_s (to_cptr m s) dmax;
  '(ret, m) ← (if (slen <? dmax) || (len <? dmax) then memcpy_s m d dmax s len
               else Some (-1, m));
  if ret =? 0 then m' ← store m (d + len) 0; Some (ret, m')
  else if negb (d =? 0) && (0 <? dmax) then m' ← store m d 0; Some (ret, m')
  else Some (ret, m).

(** The inner [for]: [i] of the first difference, or [len2]. *)
Fixpoint match_len (pstr str2 : list Z) (len2 : nat) (i : Z) : option Z :=
  match len2 with
  | O => Some i
  | S n =>
      a ← head pstr; b ← head str2;
      if negb (a =? b) then Some i else match_len (tail pstr) (tail str2) n (i + 1)
  end.

(** The outer loop, which runs while [len1 >= len2]: [k] is [len1 - len2 + 1]. *)
Fixpoint strstr_loop (m : mem) (pstr str2 len2 : Z) (k : nat) : option Z :=
  match k with
  | O => Some 0
  | S k' =>
      i ← match_len (mptr m pstr) (mptr m str2) (Z.to_nat len2) 0;
      if i =? len2 then Some pstr else strstr_loop m (pstr + 1) str2 len2 k'
  end.

Definition strstr_s (m : mem) (str1 maxlen1 str2 maxlen2 : Z) : option Z :=
  if (str1 =? 0) || (str2 =? 0) then Some 0
  else if (maxlen1 =? 0) || (maxlen2 =? 0) then Some 0
  else
    len1 ← strnlen_s (to_cptr m str1) maxlen1;
    len2 ← strnlen_s (to_cptr m str2) maxlen2;
    if len1 <? len2 then Some 0
    else if (str1 =? str2) || (len2 =? 0) then Some str1
    else strstr_loop m str1 str2 len2 (Z.to_nat (len1 - len2 + 1)).

Definition strncat_s (m : mem) (dest dmax src slen : Z) : option (Z * mem) :=
  len_d ← strnlen_s (to_cptr m dest) dmax;
  len_s ← strnlen_s (to_cptr m src) slen;
  let start := dest + len_d in
  if negb (dest =? 0) && negb (src =? 0) && (len_d + len_s <? dmax)
     && ((src + len_s <? dest) || (dest + len_d <? src)) then
    '(_, m1) ← memcpy_s m start (dmax - len_d) src len_s;
    m2 ← store m1 (start + len_s) 0;
    Some (0, m2)
  else if negb (dest =? 0) then m' ← store m dest 0; Some (-1, m')
  else Some (-1, m).

(** ** Regions of memory

    [write m p l] is [m] with the bytes [l] from address [p] on; the routines
    above are described by what they write. *)

Definition in_mem (m : mem) (p n : Z) : Prop :=
  mbase m ≤ p ∧ p + n ≤ mbase m + Z.of_nat (length (mbytes m)).

Definition write (m : mem) (p : Z) (l : list Z) : mem :=
  m⟨mbytes := list_inserts (Z.to_nat (p - mbase m)) l (mbytes m)⟩.

Lemma in_mem_write m q l p n : in_mem (write m q l) p n ↔ in_mem m p n.
Proof. unfold in_mem. simpl. by rewrite length_inserts. Qed.

Lemma in_mem_le m p n k : in_mem m p n → 0 ≤ k ≤ n → in_mem m p k.
Proof. unfold in_mem. lia. Qed.

Lemma in_mem_tail m p n : in_mem m p n → 0 < n → in_mem m (p + 1) (n - 1).
Proof. unfold in_mem. lia. Qed.

Lemma store_write m p v : in_mem m p 1 → store m p v = Some (write m p [v]).
Proof. intros [??]. unfold store, write. by zcmp. Qed.

Lemma store_outside m p v : ¬ in_mem m p 1 → store m p v = None.
Proof. unfold in_mem, store. intros. case_if; [|done]. zreflect. lia. Qed.

Lemma write_nil m p : write m p [] = m.
Proof. by destruct m. Qed.

Lemma write_app m p l k :
  mbase m ≤ p →
  write m p (l ++ k) = write (write m p l) (p + Z.of_nat (length l)) k.
Proof.
  intros. unfold write. simpl. rewrite list_inserts_app_l. unfold upd. simpl.
  do 3 f_equal. lia.
Qed.

Lemma mptr_lookup m p (i : nat) :
  mbase m ≤ p → mptr m p !! i = mbytes m !! (Z.to_nat (p - mbase m) + i)%nat.
Proof. intros. unfold mptr. zcmp. by rewrite lookup_drop. Qed.

Lemma mptr_write_lookup m q l p (i : nat) :
  mbase m ≤ p → mbase m ≤ q →
  (p + Z.of_nat i < q ∨ q + Z.of_nat (length l) ≤ p + Z.of_nat i) →
  mptr (write m q l) p !! i = mptr m p !! i.
Proof.
  intros Hp Hq Hd. rewrite !mptr_lookup by done. simpl.
  destruct Hd; [apply list_lookup_inserts_lt | apply list_lookup_inserts_ge]; lia.
Qed.

Lemma take_mptr_write m q l p (n : nat) :
  mbase m ≤ p → mbase m ≤ q →
  (p + Z.of_nat n ≤ q ∨ q + Z.of_nat (length l) ≤ p) →
  take n (mptr (write m q l) p) = take n (mptr m p).
Proof.
  intros Hp Hq Hd. apply list_eq. intros i.
  destruct (decide (i < n)%nat).
  - rewrite !lookup_take_lt by done. apply mptr_write_lookup; lia.
  - by rewrite !lookup_take_ge by lia.
Qed.

Lemma take_mptr_written m p l :
  in_mem m p (Z.of_nat (length l)) → take (length l) (mptr (write m p l) p) = l.
Proof.
  intros [??]. apply list_eq. intros i. destruct (decide (i < length l)%nat).
  - rewrite lookup_take_lt, mptr_lookup by done. simpl.
    rewrite list_lookup_inserts by lia. f_equal. lia.
  - rewrite lookup_take_ge by lia. symmetry. apply lookup_ge_None. lia.
Qed.

Lemma length_mptr m p n :
  in_mem m p n → 0 ≤ n → (Z.to_nat n ≤ length (mptr m p))%nat.
Proof. intros [??] ?. unfold mptr. zcmp. rewrite length_drop. lia. Qed.

Lemma drop_mptr m p (n : nat) : mbase m ≤ p → drop n (mptr m p) = mptr m (p + Z.of_nat n).
Proof.
  intros. unfold mptr. zcmp. rewrite drop_drop. f_equal. lia.
Qed.

(** The bytes of a string are in memory, as is its terminator. *)
Lemma mptr_in_mem m p l r : mptr m p = l ++ r → l ≠ [] → in_mem m p (Z.of_nat (length l)).
Proof.
  unfold mptr, in_mem. destruct (Z.leb_spec (mbase m) p); intros Hl Hne.
  - apply (f_equal length) in Hl. rewrite length_drop, length_app in Hl.
    destruct l; simpl in *; [done|]. lia.
  - by destruct l.
Qed.

(** ** What the copies write *)

Lemma memset_loop_ok n m p v :
  in_mem m p (Z.of_nat n) → memset_loop n m p v = Some (write m p (replicate n v)).
Proof.
  revert m p. induction n as [|n IH]; intros m p Hin; simpl.
  - by rewrite write_nil.
  - rewrite store_write by (eapply in_mem_le; [done|lia]). simpl.
    rewrite IH by (apply in_mem_write; destruct Hin; split; lia).
    change (v :: replicate n v) with ([v] ++ replicate n v).
    rewrite write_app by apply Hin. done.
Qed.

Lemma memcpy_loop_ok n m d s :
  in_mem m d (Z.of_nat n) → in_mem m s (Z.of_nat n) →
  d ≤ s ∨ s + Z.of_nat n ≤ d →
  memcpy_loop n m d s = Some (write m d (take n (mptr m s))).
Proof.
  revert m d s. induction n as [|n IH]; intros m d s Hd Hs Hdis; simpl.
  - by rewrite write_nil.
  - pose proof (length_mptr m s 1) as Hl. unfold load.
    destruct (mptr m s) as [|b t] eqn:Es.
    { simpl in Hl. ospecialize (Hl _ _); [eapply in_mem_le; [done|lia] | lia |lia]. }
    simpl. rewrite store_write by (eapply in_mem_le; [done|lia]). simpl.
    rewrite IH.
    + change (b :: take n t) with ([b] ++ take n t).
      rewrite write_app by apply Hd. simpl. do 2 f_equal.
      rewrite take_mptr_write by (destruct Hd, Hs; simpl; lia).
      pose proof (drop_mptr m s 1 ltac:(apply Hs)) as Ht. rewrite Es in Ht.
      change (Z.of_nat 1) with 1 in Ht. simpl in Ht. by rewrite <- Ht.
    + apply in_mem_write. destruct Hd. split; lia.
    + apply in_mem_write. destruct Hs. split; lia.
    + lia.
Qed.

Lemma memcpy_ok m d s n :
  0 ≤ n → in_mem m d n → in_mem m s n → d ≤ s ∨ s + n ≤ d →
  memcpy m d s n = Some (write m d (take (Z.to_nat n) (mptr m s))).
Proof. intros. unfold memcpy. apply memcpy_loop_ok; rewrite Z2Nat.id; auto. Qed.

Lemma memcpy_s_ok m d dmax s slen :
  0 < mbase m → 0 ≤ slen ≤ dmax → in_mem m d slen → in_mem m s slen →
  s + slen < d ∨ d + dmax < s →
  memcpy_s m d dmax s slen = Some (0, write m d (take (Z.to_nat slen) (mptr m s))).
Proof.
  intros Hb Hl Hd Hs Hdis. unfold memcpy_s.
  assert (((s + slen <? d) || (d + dmax <? s)) = true) as ->.
  { apply orb_true_iff. rewrite !Z.ltb_lt. done. }
  destruct Hd as [Hd1 Hd2], Hs as [Hs1 Hs2]. zcmp. unfold nonzero. case_if; zreflect.
  - rewrite memcpy_ok; [done|lia|split; lia|split; lia|lia].
  - subst. simpl. by rewrite write_nil.
Qed.

(** ** C strings

    [is_str s l]: the string at [s] has the characters [l]. *)

Definition is_str (s l : list Z) : Prop :=
  ∃ r, s = l ++ 0 :: r ∧ Forall (λ c, c ≠ 0) l.

Lemma strnlen_loop_str s l n k :
  is_str s l → 0 ≤ n → strnlen_loop s n k = Some (k + Z.min n (Z.of_nat (length l))).
Proof.
  intros (r & -> & Hnz). revert n k. induction Hnz as [|c l Hc Hnz IH]; intros n k Hn; simpl.
  - f_equal. lia.
  - zcmp. case_if; zreflect; [f_equal; lia|]. rewrite IH by lia. f_equal. lia.
Qed.

Lemma strnlen_s_str s l n :
  is_str s l → 0 ≤ n → strnlen_s (Some s) n = Some (Z.min n (Z.of_nat (length l))).
Proof. intros. simpl. erewrite strnlen_loop_str by done. done. Qed.

Lemma is_str_in_mem m p l : is_str (mptr m p) l → in_mem m p (Z.of_nat (length l) + 1).
Proof.
  intros (r & Hl & _). pose proof (mptr_in_mem m p (l ++ [0]) r) as H.
  rewrite length_app in H. simpl in H. replace (Z.of_nat (length l) + 1)
    with (Z.of_nat (length l + 1)) by lia. apply H.
  - by rewrite <- app_assoc.
  - by destruct l.
Qed.

Lemma to_cptr_mem m p n : 0 < mbase m → in_mem m p n → to_cptr m p = Some (mptr m p).
Proof. intros ? [??]. unfold to_cptr. by zcmp. Qed.

Lemma take_str s l n : is_str s l → (n ≤ length l)%nat → take n s = take n l.
Proof. intros (r & -> & _) ?. by rewrite take_app_le. Qed.

(** Two strings compare equal exactly when they have the same characters. *)
Section compare_specs.
Context `{CharAbi}.

Definition bytes (l : list Z) : Prop := Forall (word 8) l.

Lemma char_val_inj a b : word 8 a → word 8 b → char_val a = char_val b → a = b.
Proof. unfold word, char_val. intros. repeat case_if; zreflect; lia. Qed.

Lemma strcmp_zero s1 s2 l1 l2 :
  is_str s1 l1 → is_str s2 l2 → bytes l1 → bytes l2 →
  ∃ r, strcmp s1 s2 = Some r ∧ (r = 0 ↔ l1 = l2).
Proof.
  intros (r1 & -> & Hz1) (r2 & -> & Hz2) Hb1 Hb2. revert l2 Hz2 Hb2.
  assert (word 8 0) as W0 by (split; by vm_compute).
  induction l1 as [|a l1 IH]; intros [|b l2] Hz2 Hb2; simpl.
  - eexists. split; [done|]. by rewrite Z.sub_diag.
  - apply Forall_cons in Hz2 as [? _], Hb2 as [? _]. eexists. split; [done|].
    split; [|done]. intros. exfalso. assert (0 = b) by (apply char_val_inj; auto; lia). lia.
  - apply Forall_cons in Hz1 as [? _], Hb1 as [? _]. zcmp. eexists. split; [done|].
    split; [|done]. intros. exfalso. assert (a = 0) by (apply char_val_inj; auto; lia). lia.
  - apply Forall_cons in Hz1 as [? Hz1], Hb1 as [? Hb1].
    apply Forall_cons in Hz2 as [? Hz2], Hb2 as [? Hb2]. zcmp.
    destruct (Z.eqb_spec a b) as [->|Hab].
    + destruct (IH Hz1 Hb1 l2 Hz2 Hb2) as (r & -> & Hr). eexists. split; [done|].
      rewrite Hr. split; [by intros ->|by intros [= ->]].
    + eexists. split; [done|]. split; [|by intros [= -> _]].
      intros. exfalso. apply Hab, char_val_inj; auto. lia.
Qed.
End compare_specs.

(** ** Overlapping copies *)

Lemma write_comm m p l q k :
  mbase m ≤ p → mbase m ≤ q →
  p + Z.of_nat (length l) ≤ q ∨ q + Z.of_nat (length k) ≤ p →
  write (write m p l) q k = write (write m q k) p l.
Proof.
  intros Hp Hq Hd. unfold write, upd. simpl. f_equal. apply list_eq. intros i.
  assert (∀ j l (b : list Z), (i < j ∨ j + length l ≤ i)%nat → list_inserts j l b !! i = b !! i)
    as Hout.
  { intros j t b [?|?]; [by apply list_lookup_inserts_lt|by apply list_lookup_inserts_ge]. }
  assert (∀ j l (b : list Z), (j ≤ i < j + length l)%nat → (i < length b)%nat →
            list_inserts j l b !! i = l !! (i - j)%nat) as Hin.
  { intros j t b ? ?. by apply list_lookup_inserts. }
  destruct (decide (i < length (mbytes m))%nat) as [Hi|Hi].
  - destruct (decide (Z.to_nat (p - mbase m) ≤ i < Z.to_nat (p - mbase m) + length l)%nat).
    + rewrite Hout by lia. rewrite !Hin by (rewrite ?length_inserts; lia). done.
    + rewrite (Hout (Z.to_nat (p - mbase m))) by lia.
      destruct (decide (Z.to_nat (q - mbase m) ≤ i < Z.to_nat (q - mbase m) + length k)%nat).
      * rewrite !Hin by (rewrite ?length_inserts; lia). done.
      * rewrite !Hout by lia. done.
  - rewrite !lookup_ge_None_2 by (rewrite !length_inserts; lia). done.
Qed.

(** Copying downwards moves a block up. *)
Lemma memcpy_backwards_loop_ok n m d s :
  in_mem m (d - Z.of_nat n + 1) (Z.of_nat n) → in_mem m (s - Z.of_nat n + 1) (Z.of_nat n) →
  s ≤ d →
  memcpy_backwards_loop n m d s
    = Some (write m (d - Z.of_nat n + 1) (take n (mptr m (s - Z.of_nat n + 1)))).
Proof.
  revert m d s. induction n as [|n IH]; intros m d s Hd Hs Hle; simpl.
  - by rewrite write_nil.
  - assert (∃ b, load m s = Some b) as [b Hb].
    { unfold load. pose proof (length_mptr m s 1) as Hl. destruct (mptr m s); [|by eexists].
      simpl in Hl. ospecialize (Hl _ _); [destruct Hs; split; lia|lia|lia]. }
    rewrite Hb. simpl. rewrite store_write by (destruct Hd; split; lia). simpl.
    replace (d - Z.of_nat (S n) + 1) with (d - Z.of_nat n) by lia.
    replace (s - Z.of_nat (S n) + 1) with (s - Z.of_nat n) by lia.
    destruct Hd as [Hd1 Hd2], Hs as [Hs1 Hs2].
    rewrite IH; [|apply in_mem_write; split; lia|apply in_mem_write; split; lia|lia].
    replace (d - 1 - Z.of_nat n + 1) with (d - Z.of_nat n) by lia.
    replace (s - 1 - Z.of_nat n + 1) with (s - Z.of_nat n) by lia.
    rewrite take_mptr_write by (simpl; lia).
    assert (length (take n (mptr m (s - Z.of_nat n))) = n) as Hl.
    { rewrite length_take. pose proof (length_mptr m (s - Z.of_nat n) (Z.of_nat n)) as Hl.
      ospecialize (Hl _ _); [split; lia|lia|lia]. }
    rewrite write_comm by (simpl; lia). erewrite take_S_r.
    + rewrite write_app by lia. rewrite Hl. do 2 f_equal. lia.
    + unfold load in Hb. pose proof (drop_mptr m (s - Z.of_nat n) n ltac:(lia)) as Hdr.
      replace (s - Z.of_nat n + Z.of_nat n) with s in Hdr by lia.
      rewrite <- Hdr, head_lookup, lookup_drop, Nat.add_0_r in Hb. done.
Qed.

(** A string that fits is copied with its terminator. *)
Lemma strncpy_s_fits m d dmax s slen l :
  0 < mbase m → is_str (mptr m s) l → in_mem m d dmax →
  s + Z.of_nat (length l) < d ∨ d + dmax < s → Z.of_nat (length l) < dmax →
  strncpy_s m d dmax s slen = Some (0, write m d (l ++ [0])).
Proof.
  intros Hb Hs Hd Hdis Hlen. pose proof (is_str_in_mem _ _ _ Hs) as Hms.
  unfold strncpy_s. erewrite to_cptr_mem, strnlen_s_str by (done || lia). cbn [mbind option_bind].
  rewrite Z.min_r by lia. replace (Z.of_nat (length l) <? dmax) with true
    by (symmetry; apply Z.ltb_lt; lia).
  rewrite orb_true_r, memcpy_s_ok; [|lia..|eapply in_mem_le; [done|lia]
    |eapply in_mem_le; [done|lia]|lia].
  cbn [mbind option_bind]. rewrite Nat2Z.id, (take_str _ l), firstn_all by (done || lia).
  change (0 =? 0) with true. cbv iota.
  rewrite store_write by (apply in_mem_write; destruct Hd; split; lia). cbn [mbind option_bind].
  by rewrite write_app by apply Hd.
Qed.

(** strncpy_s with disjoint buffers.  A source string that fits is copied
    with its terminator, whatever [slen] is.  A string of [dmax] characters or
    more is refused, and the destination emptied, when [slen] is not below
    [dmax]; otherwise [dmax] characters are copied and the terminator is stored
    one byte past the destination.  No other byte changes. *)
Theorem strncpy_s_copies m d dmax s slen l :
  0 < mbase m → is_str (mptr m s) l → 0 < dmax → in_mem m d dmax →
  s + Z.of_nat (length l) < d ∨ d + dmax < s →
  (Z.of_nat (length l) < dmax → strncpy_s m d dmax s slen = Some (0, write m d (l ++ [0]))) ∧
  (dmax ≤ Z.of_nat (length l) → dmax ≤ slen →
     strncpy_s m d dmax s slen = Some (-1, write m d [0])) ∧
  (dmax ≤ Z.of_nat (length l) → slen < dmax → in_mem m d (dmax + 1) →
     strncpy_s m d dmax s slen = Some (0, write m d (take (Z.to_nat dmax) l ++ [0]))).
Proof.
  intros Hb Hs Hdm Hd Hdis. split; [by intros; apply strncpy_s_fits|].
  pose proof (is_str_in_mem _ _ _ Hs) as Hms. assert (mbase m ≤ d) by apply Hd.
  unfold strncpy_s. erewrite to_cptr_mem, strnlen_s_str by (done || lia). simpl.
  split; intros; rewrite Z.min_l by lia.
  - assert (0 < d) by lia. zcmp.
    rewrite store_write by (eapply in_mem_le; [done|lia]). done.
  - zcmp. rewrite memcpy_s_ok; [|lia..|done|eapply in_mem_le; [done|lia]|lia]. simpl.
    rewrite store_write by (apply in_mem_write; unfold in_mem in *; lia). simpl.
    rewrite (take_str _ l), write_app by (done || lia). rewrite length_take. do 4 f_equal. lia.
Qed.

Lemma strncpy_s_copies_witness :
  strncpy_s (mk_mem 100 [1;2;3;4;5;6;7; 97;98;0]) 100 4 107 2
    = Some (0, mk_mem 100 [97;98;0;4;5;6;7; 97;98;0]).
Proof.
  rewrite (proj1 (strncpy_s_copies (mk_mem 100 [1;2;3;4;5;6;7; 97;98;0]) 100 4 107 2 [97;98]
    ltac:(done) ltac:(exists []; split; [done|by repeat constructor])
    ltac:(done) ltac:(by split) ltac:(by right))); done.
Defined.

(** ** Appending and searching *)

Lemma strncat_s_appends m dest dmax src slen ld ls :
  0 < mbase m → is_str (mptr m dest) ld → is_str (mptr m src) ls →
  0 ≤ slen → in_mem m dest dmax →
  let n := Z.min slen (Z.of_nat (length ls)) in
  Z.of_nat (length ld) + n < dmax → src + n < dest ∨ dest + dmax < src →
  strncat_s m dest dmax src slen =
    Some (0, write m (dest + Z.of_nat (length ld)) (take (Z.to_nat n) ls ++ [0])).
Proof.
  intros Hb Hd Hs Hsl Hin n Hfit Hdis. assert (0 ≤ n ≤ Z.of_nat (length ls)) by (unfold n; lia).
  pose proof (is_str_in_mem _ _ _ Hs) as Hms.
  unfold strncat_s. assert (mbase m ≤ dest) by apply Hin. assert (mbase m ≤ src) by apply Hms.
  rewrite (to_cptr_mem m dest dmax), (to_cptr_mem m src _ Hb Hms) by done.
  rewrite (strnlen_s_str _ _ _ Hd) by lia. rewrite (strnlen_s_str _ _ _ Hs Hsl).
  cbn [mbind option_bind]. fold n.
  rewrite Z.min_r by lia.
  assert (((src + n <? dest) || (dest + Z.of_nat (length ld) <? src)) = true) as ->.
  { apply orb_true_iff. rewrite !Z.ltb_lt. lia. }
  zcmp. destruct Hin as [??], Hms as [??].
  rewrite memcpy_s_ok; [|lia|lia|split; lia|split; lia|lia]. simpl.
  rewrite store_write by (apply in_mem_write; split; lia). simpl.
  rewrite write_app by lia. rewrite (take_str _ ls) by (done || lia). simpl.
  rewrite length_take. do 4 f_equal. lia.
Qed.

Lemma match_len_prefix p s (b : list Z) i :
  (length b ≤ length p)%nat →
  ∃ k, match_len p (b ++ s) (length b) i = Some k ∧
       i ≤ k ≤ i + Z.of_nat (length b) ∧
       (k = i + Z.of_nat (length b) ↔ b `prefix_of` p).
Proof.
  revert p i. induction b as [|x b IH]; intros p i Hl; simpl.
  - exists i. split; [done|]. split; [lia|]. split; [intros; apply prefix_nil|lia].
  - destruct p as [|y p]; simpl in *; [lia|]. destruct (Z.eqb_spec y x) as [->|Hne]; simpl.
    + destruct (IH p (i + 1)) as (k & -> & Hk & Hp); [lia|]. exists k.
      split; [done|]. split; [lia|].
      split.
      * intros. apply prefix_cons, Hp. lia.
      * intros ?%prefix_cons_inv_2%Hp. lia.
    + exists i. split; [done|]. split; [lia|]. split; [lia|].
      intros ?%prefix_cons_inv_1. congruence.
Qed.

(** The position of the first occurrence of [b] in [a]. *)
Definition first_occurrence (a b : list Z) (i : nat) : Prop :=
  (i ≤ length a)%nat ∧ b `prefix_of` drop i a ∧ ∀ j, (j < i)%nat → ¬ b `prefix_of` drop j a.

Lemma prefix_of_str p s (a b : list Z) :
  s = a ++ p → (length b ≤ length a)%nat → b `prefix_of` s ↔ b `prefix_of` a.
Proof.
  intros -> Hl. split; [|apply prefix_app_r]. intros [k Hk].
  exists (drop (length b) a). apply (f_equal (take (length a))) in Hk.
  rewrite take_app_length, take_app_ge in Hk by lia. rewrite Hk at 2.
  rewrite drop_app_length. rewrite Hk at 1. f_equal.
Qed.

Lemma strstr_loop_first m p q (a b x y : list Z) k :
  mbase m ≤ p → mptr m p = a ++ x → mptr m q = b ++ y →
  (k + length b = S (length a))%nat →
  0 < p →
  ∃ res, strstr_loop m p q (Z.of_nat (length b)) k = Some res ∧
    ((res = 0 ∧ ∀ j, ¬ b `prefix_of` drop j a) ∨
     (∃ i, res = p + Z.of_nat i ∧ first_occurrence a b i)).
Proof.
  intros Hp Ha Hq Hk. revert p a Hp Ha Hk. induction k as [|k IH]; intros p a Hp Ha Hk Hpos.
  - exists 0. split; [done|]. left. split; [done|]. intros j [z Hz].
    apply (f_equal length) in Hz. rewrite length_drop, length_app in Hz. lia.
  - simpl. rewrite Hq, Nat2Z.id, Ha.
    destruct (match_len_prefix (a ++ x) y b 0) as (i & -> & Hi & Hpre).
    { rewrite length_app. lia. }
    rewrite (prefix_of_str x _ a) in Hpre by (done || lia). simpl.
    destruct (Z.eqb_spec i (Z.of_nat (length b))) as [->|Hne].
    + exists p. split; [done|]. right. exists 0%nat. split; [lia|].
      split; [lia|]. split; [by apply Hpre | lia].
    + assert (¬ b `prefix_of` a) as Hnp by (rewrite <- Hpre; lia).
      destruct a as [|c a]; simpl in *.
      { destruct b; simpl in *; [|lia]. destruct Hnp. apply prefix_nil. }
      destruct (IH (p + 1) a) as (res & -> & Hres); [lia| |lia|lia|].
      { pose proof (drop_mptr m p 1 Hp) as Hd. rewrite Ha in Hd. simpl in Hd.
        by rewrite drop_0 in Hd. }
      exists res. split; [done|]. destruct Hres as [[-> Hno]|(j & -> & Hl & Hj & Hmin)].
      * left. split; [done|]. intros [|j]; [done|apply Hno].
      * right. exists (S j). split; [lia|]. split; [simpl; lia|]. split; [done|].
        intros [|j'] ?; [done|]. apply Hmin. lia.
Qed.

Lemma is_str_take s l n :
  is_str s l → 0 ≤ n →
  ∃ x, s = take (Z.to_nat n) l ++ x ∧
       Z.of_nat (length (take (Z.to_nat n) l)) = Z.min n (Z.of_nat (length l)).
Proof.
  intros (r & -> & _) ?. exists (drop (Z.to_nat n) l ++ 0 :: r). split.
  - by rewrite app_assoc, take_drop.
  - rewrite length_take. lia.
Qed.

(** strstr_s returns the address of the first occurrence of the second
    string, cut at its limit, in the first one, cut at its limit, and NULL when
    there is none. *)
Theorem strstr_s_first m p1 n1 p2 n2 l1 l2 :
  0 < mbase m → is_str (mptr m p1) l1 → is_str (mptr m p2) l2 → 0 < n1 → 0 < n2 →
  let a := take (Z.to_nat n1) l1 in
  let b := take (Z.to_nat n2) l2 in
  ∃ res, strstr_s m p1 n1 p2 n2 = Some res ∧
    ((res = 0 ∧ ∀ j, ¬ b `prefix_of` drop j a) ∨
     (∃ i, res = p1 + Z.of_nat i ∧ first_occurrence a b i)).
Proof.
  intros Hb H1 H2 Hn1 Hn2 a b.
  pose proof (is_str_in_mem _ _ _ H1) as M1. pose proof (is_str_in_mem _ _ _ H2) as M2.
  assert (mbase m ≤ p1) by apply M1. assert (mbase m ≤ p2) by apply M2.
  destruct (is_str_take _ _ n1 H1) as (x & Ex & La); [lia|].
  destruct (is_str_take _ _ n2 H2) as (y & Ey & Lb); [lia|]. fold a in Ex, La. fold b in Ey, Lb.
  unfold strstr_s. zcmp.
  rewrite (to_cptr_mem m p1 _ Hb M1), (to_cptr_mem m p2 _ Hb M2).
  rewrite (strnlen_s_str _ _ _ H1), (strnlen_s_str _ _ _ H2) by lia.
  rewrite <- La, <- Lb. cbn [mbind option_bind].
  destruct (Z.ltb_spec (Z.of_nat (length a)) (Z.of_nat (length b))).
  - exists 0. split; [done|]. left. split; [done|]. intros j [z Hz].
    apply (f_equal length) in Hz. rewrite length_drop, length_app in Hz. lia.
  - case_if.
    + exists p1. split; [done|]. right. exists 0%nat. split; [lia|].
      split; [lia|]. split; [|lia]. simpl. apply orb_true_iff in E as [E|E]; zreflect.
      * subst p2. apply (prefix_of_str x (mptr m p1) a b Ex); [lia|]. rewrite Ey.
        by apply prefix_app_r.
      * destruct b; [apply prefix_nil|simpl in *; lia].
    + eapply strstr_loop_first; [done..|lia|lia].
Qed.

Lemma strstr_s_first_witness :
  ∃ res, strstr_s (mk_mem 16 [97;98;97;98;99;0;97;98;99;0]) 16 9 22 9 = Some res ∧ res = 18.
Proof.
  destruct (strstr_s_first (mk_mem 16 [97;98;97;98;99;0;97;98;99;0]) 16 9 22 9
    [97;98;97;98;99] [97;98;99] ltac:(done)
    ltac:(eexists; split; [done|by repeat constructor])
    ltac:(eexists; split; [done|by repeat constructor]) ltac:(done) ltac:(done))
    as (res & Hres & _).
  exists res. split; [done|]. vm_compute in Hres. congruence.
Defined.

(** ** Reading numbers

    The value of a sequence of digits, from an accumulator. *)

Definition digits_val (base : Z) (dig : Z → Z) (acc : Z) (ds : list Z) : Z :=
  fold_left (λ a c, a * base + dig c) ds acc.

Lemma digits_val_ge base dig acc ds :
  1 ≤ base → 0 ≤ acc → Forall (λ c, 0 ≤ dig c) ds → acc ≤ digits_val base dig acc ds.
Proof.
  intros Hb. revert acc. induction ds as [|c ds IH]; intros acc Ha Hd; simpl; [done|].
  apply Forall_cons in Hd as [Hc Hd]. unfold digits_val in *. simpl.
  specialize (IH (acc * base + dig c) ltac:(nia) Hd). nia.
Qed.

Lemma digits_val_app base dig acc ds c :
  digits_val base dig acc (ds ++ [c]) = digits_val base dig acc ds * base + dig c.
Proof. unfold digits_val. by rewrite fold_left_app. Qed.

(** The test of both parsers finds whether the next digit takes the number past
    the limit. *)
Lemma cutoff_exact limit base acc d :
  0 < base → 0 ≤ d < base →
  ((limit / base <? acc) || ((acc =? limit / base) && (limit mod base <? d)))
    = (limit <? acc * base + d).
Proof.
  intros Hb Hd. pose proof (Z.div_mod limit base ltac:(lia)) as E.
  pose proof (Z.mod_pos_bound limit base Hb) as M.
  destruct (Z.ltb_spec limit (acc * base + d)) as [L|L].
  - apply orb_true_iff. destruct (Z.ltb_spec (limit / base) acc); [by left|]. right.
    assert (acc = limit / base) by nia.
    apply andb_true_iff. split; [by apply Z.eqb_eq|apply Z.ltb_lt; nia].
  - apply orb_false_iff. split; [apply Z.ltb_ge; nia|].
    destruct (Z.eqb_spec acc (limit / base)); [|done]. apply Z.ltb_ge. nia.
Qed.

Definition is_hex_digit (c : Z) : bool := hex_digit_value c <? 16.

Lemma hex_digit_range c : is_hex_digit c = true → 48 ≤ c < 128 ∧ 0 ≤ hex_digit_value c < 16.
Proof.
  unfold is_hex_digit, hex_digit_value. intros H. repeat case_if; zreflect; try lia.
  by vm_compute in H.
Qed.

Lemma not_hex_digit c : is_hex_digit c = false → hex_digit_value c = 255.
Proof.
  unfold is_hex_digit, hex_digit_value. intros H. repeat case_if; zreflect; try lia. done.
Qed.

Section signed_char.
#[local] Existing Instance signed_abi.

Lemma char_val_ascii b : b < 128 → char_val b = b.
Proof. intros. unfold char_val. by zcmp. Qed.

(** [t] ends a hexadecimal number. *)
Definition hex_end (t : Z) : Prop :=
  word 8 t ∧ is_hex_digit t = false ∧ is_space t = false ∧ t ≠ 120 ∧ t ≠ 88.

Lemma hex_end_value t : hex_end t → char_val (hex_digit_value (char_val t)) = -1.
Proof.
  intros ((?&?) & Ht & _). rewrite (not_hex_digit (char_val t)); [done|].
  unfold char_val. change char_signed with true. simpl. case_if; [|done]. zreflect.
  unfold is_hex_digit, hex_digit_value. by zcmp.
Qed.

Lemma strtoul_hex_loop_ok acc c s ds t r :
  c :: s = ds ++ t :: r → Forall (λ x, is_hex_digit x = true) ds → hex_end t →
  word 64 acc →
  strtoul_hex_loop acc c s = Some (Z.min ULONG_MAX (digits_val 16 hex_digit_value acc ds)).
Proof.
  intros E Hds Ht. revert acc c s E. induction ds as [|d ds IH]; intros acc c s E Ha.
  - injection E as -> ->. destruct r; cbn [strtoul_hex_loop]; rewrite (hex_end_value t) by done;
      simpl; f_equal; unfold word, ULONG_MAX, digits_val in *; simpl; lia.
  - apply Forall_cons in Hds as [Hd Hds]. simpl in E. simplify_eq.
    destruct (hex_digit_range d Hd) as [? Hv].
    assert (Forall (λ x, 0 ≤ hex_digit_value x) ds) as Hnn.
    { eapply Forall_impl; [done|]. intros x Hx. apply hex_digit_range in Hx. lia. }
    assert (∃ c' s', ds ++ t :: r = c' :: s') as (c' & s' & Es)
      by (destruct ds; eauto).
    rewrite Es. cbn [strtoul_hex_loop].
    rewrite (char_val_ascii d), (char_val_ascii (hex_digit_value d)) by lia.
    rewrite cutoff_exact by lia. zcmp. unfold digits_val. simpl. fold (digits_val 16 hex_digit_value).
    destruct (Z.ltb_spec ULONG_MAX (acc * 16 + hex_digit_value d)) as [L|L].
    + f_equal. unfold word, ULONG_MAX in *.
      pose proof (digits_val_ge 16 hex_digit_value (acc * 16 + hex_digit_value d) ds
        ltac:(lia) ltac:(lia) Hnn). unfold digits_val in *. lia.
    + unfold word, ULONG_MAX in *. rewrite u64_id by (split; lia).
      rewrite (IH Hds) by (done || split; lia). done.
Qed.

Lemma skip_spaces_ok ws c s :
  Forall (λ x, is_space x = true) ws → is_space c = false →
  skip_spaces (ws ++ c :: s) = Some (c, s).
Proof.
  intros Hws Hc. induction Hws as [|x ws Hx _ IH]; simpl; [by rewrite Hc|by rewrite Hx].
Qed.

Lemma hex_not_space c : is_hex_digit c = true → is_space c = false.
Proof. intros ?%hex_digit_range. unfold is_space. by zcmp. Qed.

(** Without and with the prefix. *)
Lemma strtoul_hex_plain ws ds t r :
  Forall (λ x, is_space x = true) ws → Forall (λ x, is_hex_digit x = true) ds → hex_end t →
  strtoul_hex (ws ++ ds ++ t :: r)
    = Some (Z.min ULONG_MAX (digits_val 16 hex_digit_value 0 ds)).
Proof.
  intros Hws Hds Ht. unfold strtoul_hex. pose proof Ht as (_ & Hnh & Hns & Hx & HX).
  assert (∃ c s, ds ++ t :: r = c :: s ∧ is_space c = false ∧
            (c = 48 → ∃ x, head s = Some x ∧ x ≠ 120 ∧ x ≠ 88)) as (c & s & E & Hc & Hz).
  { destruct Hds as [|d ds Hd Hds]; simpl; do 2 eexists; (split; [done|]).
    - split; [done|]. intros ->. done.
    - split; [by apply hex_not_space|]. intros _. destruct Hds as [|d' ds Hd' _]; simpl.
      + by exists t.
      + exists d'. split; [done|]. split; intros ->; done. }
  rewrite E, skip_spaces_ok by done. cbn [mbind option_bind].
  rewrite (strtoul_hex_loop_ok _ _ _ ds t r) by (done || by vm_compute).
  destruct (Z.eqb_spec c 48) as [H48|]; [|done].
  destruct (Hz H48) as (x & -> & ? & ?). simpl. by zcmp.
Qed.

Lemma strtoul_hex_prefixed ws x ds t r :
  Forall (λ x, is_space x = true) ws → x = 120 ∨ x = 88 →
  Forall (λ x, is_hex_digit x = true) ds → hex_end t →
  strtoul_hex (ws ++ 48 :: x :: ds ++ t :: r)
    = Some (Z.min ULONG_MAX (digits_val 16 hex_digit_value 0 ds)).
Proof.
  intros Hws Hx Hds Ht. unfold strtoul_hex. rewrite skip_spaces_ok by done. simpl.
  replace ((x =? 120) || (x =? 88)) with true
    by (symmetry; apply orb_true_iff; rewrite !Z.eqb_eq; done).
  destruct (ds ++ t :: r) as [|c s] eqn:E; [by destruct ds|]. simpl. rewrite drop_0.
  by rewrite (strtoul_hex_loop_ok _ _ _ ds t r) by (done || by vm_compute).
Qed.
End signed_char.

(** With an unsigned [char] the -1 of [hex_digit_value] is the digit 255, so that
    the loop only ends by its overflow test. *)
Lemma strtoul_hex_loop_unsigned acc c s v :
  word 8 c → Forall (word 8) s → @strtoul_hex_loop unsigned_abi acc c s = Some v → v = ULONG_MAX.
Proof.
  revert acc c. induction s as [|c' s IH]; intros acc c Hc Hs; cbn [strtoul_hex_loop].
  all: change (@char_val unsigned_abi) with (λ b : Z, b); cbv beta.
  all: replace (0 <=? hex_digit_value c) with true
    by (symmetry; unfold hex_digit_value; repeat case_if; zreflect; apply Z.leb_le; lia || done).
  - case_if; congruence.
  - apply Forall_cons in Hs as [??]. case_if; [congruence|eauto].
Qed.

Lemma strtoul_hex_unsigned s v :
  Forall (word 8) s → @strtoul_hex unsigned_abi s = Some v → v = ULONG_MAX.
Proof.
  intros Hs. unfold strtoul_hex.
  assert (∀ c s', skip_spaces s = Some (c, s') → word 8 c ∧ Forall (word 8) s') as Hsk.
  { clear -Hs. induction Hs as [|x s Hx Hs IH]; simpl; intros c s'; [done|].
    case_if; [auto|]. by intros [= -> ->]. }
  destruct (skip_spaces s) as [[c s']|]; [|done]. cbn [mbind option_bind].
  destruct (Hsk _ _ eq_refl) as [Hc Hs']. repeat case_if.
  - destruct (head s') as [x|]; [|done]. cbn [mbind option_bind]. case_if.
    + destruct (s' !! 1%nat) as [c'|] eqn:E1; [|done]. cbn [mbind option_bind].
      apply strtoul_hex_loop_unsigned; [|by apply Forall_drop].
      by eapply Forall_lookup_1.
    + by apply strtoul_hex_loop_unsigned.
  - by apply strtoul_hex_loop_unsigned.
Qed.

Definition is_dec_digit (c : Z) : bool := (48 <=? c) && (c <=? 57).
Definition dec_digit (c : Z) : Z := c - 48.

Lemma strtol_deci_loop_ok limit acc c s ds t r :
  c :: s = ds ++ t :: r → Forall (λ x, is_dec_digit x = true) ds → is_dec_digit t = false →
  0 ≤ acc ≤ limit → limit < 2 ^ 64 →
  let v := digits_val 10 dec_digit acc ds in
  ∃ a, strtol_deci_loop (limit / 10) (limit mod 10) acc c s = Some (a, limit <? v) ∧
       (v ≤ limit → a = v).
Proof.
  intros E Hds Ht Ha Hlim. revert acc c s E Ha.
  induction ds as [|d ds IH]; intros acc c s E Ha v.
  - injection E as -> ->. exists acc. subst v. unfold digits_val. cbn [fold_left].
    split; [|done]. unfold is_dec_digit in Ht.
    destruct r; cbn [strtol_deci_loop]; rewrite Ht; by zcmp.
  - apply Forall_cons in Hds as [Hd Hds]. simpl in E. injection E as -> ->.
    unfold is_dec_digit in Hd. zreflect.
    assert (Forall (λ x, 0 ≤ dec_digit x) ds) as Hnn.
    { eapply Forall_impl; [done|]. unfold is_dec_digit, dec_digit. intros x ?. zreflect. lia. }
    assert (∃ c' s', ds ++ t :: r = c' :: s') as (c' & s' & Es) by (destruct ds; eauto).
    rewrite Es. cbn [strtol_deci_loop]. 
    replace ((48 <=? d) && (d <=? 57)) with true by (by zcmp). rewrite cutoff_exact by lia.
    assert (v = digits_val 10 dec_digit (acc * 10 + (d - 48)) ds) as Hv by done.
    destruct (Z.ltb_spec limit (acc * 10 + (d - 48))) as [L|L].
    + pose proof (digits_val_ge 10 dec_digit (acc * 10 + (d - 48)) ds
        ltac:(lia) ltac:(lia) Hnn). exists acc. split; [by zcmp|lia].
    + rewrite u64_id by (split; lia). rewrite Hv. apply IH; [done|done|lia].
Qed.

(** The sign of the number and its characters. *)
Definition sign_chars (sg : list Z) (neg : bool) : Prop :=
  (sg = [] ∧ neg = false) ∨ (sg = [43] ∧ neg = false) ∨ (sg = [45] ∧ neg = true).

Lemma bnot_sub w x : 0 ≤ w → word w x → bnot w x = 2 ^ w - 1 - x.
Proof.
  intros Hw Hx. unfold bnot. rewrite <- Z.sub_nocarry_ldiff.
  - rewrite Z.ones_equiv. lia.
  - apply Z.bits_inj_iff'. intros i Hi. rewrite Z.ldiff_spec, Z.bits_0.
    rewrite Z.testbit_ones_nonneg by done. destruct (Z.ltb_spec i w); simpl.
    + by rewrite andb_false_r.
    + by rewrite (word_testbit_high w) by (done || lia).
Qed.

(** [~acc + 1] read as a signed number. *)
Lemma negated_accumulator v : 0 ≤ v ≤ 2 ^ 63 → s64 (u64 (bnot 64 v + 1)) = - v.
Proof.
  intros Hv. rewrite <- (s64_small (- v)) by lia.
  unfold s64, signed, u64. rewrite Zmod_mod, bnot_sub; [|lia|split; lia].
  rewrite <- (Z_mod_plus_full (- v) 1).
  by replace (2 ^ 64 - 1 - v + 1) with (- v + 1 * 2 ^ 64) by lia.
Qed.

Lemma strtol_deci_sign ws sg neg c s :
  Forall (λ x, is_space x = true) ws → sign_chars sg neg → is_dec_digit c = true →
  ('(c, s) ← skip_spaces (ws ++ sg ++ c :: s);
   if c =? 45 then c' ← head s; Some (true, c', tail s)
   else if c =? 43 then c' ← head s; Some (false, c', tail s)
   else Some (false, c, s)) = Some (neg, c, s).
Proof.
  unfold is_dec_digit. intros Hws Hsg Hc. zreflect.
  assert (is_space c = false) as Hcs by (unfold is_space; by zcmp).
  destruct Hsg as [[-> ->]|[[-> ->]|[-> ->]]]; simpl; rewrite skip_spaces_ok by done; simpl;
    by zcmp.
Qed.

Lemma strtol_deci_ok ws sg neg ds t r :
  Forall (λ x, is_space x = true) ws → sign_chars sg neg →
  Forall (λ x, is_dec_digit x = true) ds → ds ≠ [] → is_dec_digit t = false →
  let v := digits_val 10 dec_digit 0 ds in
  strtol_deci (ws ++ sg ++ ds ++ t :: r)
    = Some (if neg then Z.max (- 2 ^ 63) (- v) else Z.min (2 ^ 63 - 1) v).
Proof.
  intros Hws Hsg Hds Hne Ht v.
  assert (0 ≤ v) as Hv0.
  { apply digits_val_ge; [lia..|]. eapply Forall_impl; [done|].
    unfold is_dec_digit, dec_digit. intros x ?. zreflect. lia. }
  destruct (ds ++ t :: r) as [|c s] eqn:E; [by destruct ds|].
  assert (is_dec_digit c = true) as Hc.
  { destruct Hds as [|d ds Hd]; [done|]. simpl in E. congruence. }
  pose proof (strtol_deci_sign ws sg neg c s Hws Hsg Hc) as Hsign. unfold strtol_deci.
  destruct (skip_spaces (ws ++ sg ++ c :: s)) as [[c1 s1]|]; [|done].
  cbn [mbind option_bind] in Hsign |- *. rewrite Hsign. cbn [mbind option_bind].
  set (limit := if neg then LONG_MIN else LONG_MAX).
  assert (limit = if neg then 2 ^ 63 else 2 ^ 63 - 1) as Hlim by (by destruct neg).
  destruct (strtol_deci_loop_ok limit 0 c s ds t r) as (a & -> & Hav);
    [done|done|done|destruct neg; lia|destruct neg; lia|]. fold v in Hav |- *.
  cbn [mbind option_bind]. f_equal.
  destruct (Z.ltb_spec limit v) as [L|L].
  - rewrite Hlim. destruct neg; [|rewrite s64_small by lia; lia].
    transitivity (- 2 ^ 63); [by vm_compute|lia].
  - rewrite Hav by done. destruct neg; [rewrite negated_accumulator by lia; lia|].
    rewrite s64_small by lia. lia.
Qed.
