(* ===== verification/Sprintf.v ===== *)
(** * Formatted output

    [lib/sprintf.c], [debug/printf.c] and the console writer of
    [arch/riscv/uart.c].  [do_print] parses a format string and hands pieces of
    text to the [emit] function of its [print_param]: [charmem] stores them in a
    bounded buffer for [vsnprintf], [charout] sends them to the UART for
    [printf].  The emit function is a class, the law an emitter obeys another
    one, and what [do_print] outputs is proved once for all lawful emitters.

    A local array is followed in memory by another byte of the stack frame,
    [stk]: [charmem] looks at the byte after the last one it copies before it
    looks at its count, so it reads that byte; nothing depends on its value. *)

From S2P Require Import Prelude CString.

Definition PRINT_STRING_MAX_LEN : Z := 4096.

Definition PRINT_FLAG_UPPER : Z := 0x1.
Definition PRINT_FLAG_ALTERNATE_FORM : Z := 0x2.
Definition PRINT_FLAG_PAD_ZERO : Z := 0x4.
Definition PRINT_FLAG_LEFT_JUSTIFY : Z := 0x8.
Definition PRINT_FLAG_SIGN : Z := 0x10.
Definition PRINT_FLAG_SPACE : Z := 0x20.
Definition PRINT_FLAG_CHAR : Z := 0x40.
Definition PRINT_FLAG_SHORT : Z := 0x80.
Definition PRINT_FLAG_LONG : Z := 0x200.
Definition PRINT_FLAG_LONG_LONG : Z := 0x200.
Definition PRINT_FLAG_UINT32 : Z := 0x400.

Definition PRINT_CMD_COPY : Z := 0.
Definition PRINT_CMD_FILL : Z := 1.

(** The [vars] of a [struct print_param]. *)
Record print_vars := mk_vars {
  flags : Z; width : Z; precision : Z; mask : Z;
  value : cptr; valuelen : Z; prefix : cptr; prefixlen : Z }.

#[export] Instance eta_vars : Eta print_vars :=
  { eta := rd mk_vars <*> flags <*> width <*> precision <*> mask
             <*> value <*> valuelen <*> prefix <*> prefixlen }.

Definition zero_vars : print_vars := mk_vars 0 0 0 0 None 0 None 0.

(** [param->emit] on the state [W] that [param->data] gives access to. *)
Class Emitter (W : Type) := emit : Z → cptr → Z → W → option W.

(** The argument list: each argument is an integer in its register, or a
    pointer to a string. *)
Inductive arg := AInt (v : Z) | AStr (p : cptr).

Definition va_arg_int (args : list arg) : option (Z * list arg) :=
  match args with AInt v :: args' => Some (v, args') | _ => None end.
Definition va_arg_str (args : list arg) : option (cptr * list arg) :=
  match args with AStr p :: args' => Some (p, args') | _ => None end.

Definition upper_hex_digits : list Z :=
  [48; 49; 50; 51; 52; 53; 54; 55; 56; 57; 65; 66; 67; 68; 69; 70; 88].
Definition lower_hex_digits : list Z :=
  [48; 49; 50; 51; 52; 53; 54; 55; 56; 57; 97; 98; 99; 100; 101; 102; 120].

(** ** The parts of a directive *)

Fixpoint get_param_loop (s : list Z) (x : Z) : option (Z * list Z) :=
  match s with
  | [] => None
  | c :: s' =>
      if (48 <=? c) && (c <=? 57) then get_param_loop s' (u32 (u32 (x * 10) + (c - 48)))
      else Some (x, s)
  end.
Definition get_param (s_arg : list Z) : option (Z * list Z) :=
  c ← head s_arg;
  get_param_loop (if c =? 45 then tail s_arg else s_arg) 0.

Definition flagchars : list Z := [35; 48; 45; 32; 43].
Definition fl : list Z :=
  [PRINT_FLAG_ALTERNATE_FORM; PRINT_FLAG_PAD_ZERO; PRINT_FLAG_LEFT_JUSTIFY;
   PRINT_FLAG_SPACE; PRINT_FLAG_SIGN].

Fixpoint get_flags_loop (s : list Z) (f : Z) : option (Z * list Z) :=
  match s with
  | [] => None
  | c :: s' =>
      if c =? 0 then Some (f, s)
      else match list_find (λ x, x = c) flagchars with
           | Some (i, _) => x ← fl !! i; get_flags_loop s' (f ||| x)
           | None => Some (f, s)
           end
  end.
Definition get_flags (s_arg : list Z) (f : Z) : option (Z * list Z) :=
  '(f, s) ← get_flags_loop s_arg f;
  let f := if nonzero (f &&& PRINT_FLAG_LEFT_JUSTIFY)
           then f &&& bnot 32 PRINT_FLAG_PAD_ZERO else f in
  let f := if nonzero (f &&& PRINT_FLAG_SIGN) then f &&& bnot 32 PRINT_FLAG_SPACE else f in
  Some (f, s).

Definition get_length_modifier (s : list Z) (f mk : Z) : option (Z * Z * list Z) :=
  c ← head s;
  if c =? 104 then
    c' ← head (tail s);
    if c' =? 104 then Some (f ||| PRINT_FLAG_CHAR, 0xFF, drop 2 s)
    else Some (f ||| PRINT_FLAG_SHORT, 0xFFFF, tail s)
  else if c =? 108 then
    c' ← head (tail s);
    if c' =? 108 then Some (f ||| PRINT_FLAG_LONG_LONG, mk, drop 2 s)
    else Some (f ||| PRINT_FLAG_LONG, mk, tail s)
  else Some (f, mk, s).

(** ** Numbers and strings *)

Section print.
Context {W : Type} `{Emitter W}.

Definition format_number (v : print_vars) (w0 : W) : option (print_vars * W) :=
  let wid := u32 (valuelen v + prefixlen v) in
  let p := if wid <? precision v then precision v - wid else 0 in
  let w := if u32 (wid + p) <? width v then width v - u32 (wid + p) else 0 in
  '(v, w1) ←
    (if (flags v &&& PRINT_FLAG_LEFT_JUSTIFY) =? 0 then
       '(v, pad, w1) ←
         (if nonzero (flags v &&& PRINT_FLAG_PAD_ZERO) then
            w1 ← emit PRINT_CMD_COPY (prefix v) (prefixlen v) w0;
            Some (v⟨prefix := None⟩⟨prefixlen := 0⟩, 48, w1)
          else Some (v, 32, w0));
       w2 ← emit PRINT_CMD_FILL (Some [pad]) w w1;
       Some (v, w2)
     else Some (v, w0));
  w2 ← emit PRINT_CMD_COPY (prefix v) (prefixlen v) w1;
  w3 ← emit PRINT_CMD_FILL (Some [48; 0]) p w2;
  w4 ← emit PRINT_CMD_COPY (value v) (valuelen v) w3;
  w5 ← (if nonzero (flags v &&& PRINT_FLAG_LEFT_JUSTIFY)
        then emit PRINT_CMD_FILL (Some [32; 0]) w w4 else Some w4);
  Some (v, w5).

(** [do { *--pos = digits[v & mask]; v >>= shift; } while (v != 0);] with [room]
    bytes of [digitbuff] below [pos]; the characters from [pos] on are [acc]. *)
Fixpoint pow2_digits (room : nat) (digits : list Z) (v shift : Z) (acc : list Z)
    : option (list Z) :=
  match room with
  | O => None
  | S room' =>
      c ← digits !! Z.to_nat (v &&& (2 ^ shift - 1));
      let v := Z.shiftr v shift in
      if nonzero v then pow2_digits room' digits v shift (c :: acc) else Some (c :: acc)
  end.

Definition print_pow2 (stk : Z) (pv : print_vars) (v_arg shift : Z) (w : W)
    : option (print_vars * W) :=
  let digits := if nonzero (flags pv &&& PRINT_FLAG_UPPER)
                then upper_hex_digits else lower_hex_digits in
  let v := v_arg &&& mask pv in
  pv ← (if (v =? 0) && nonzero (flags pv &&& PRINT_FLAG_ALTERNATE_FORM) then
          if shift =? 4 then
            x ← digits !! 16%nat;
            Some pv⟨prefix := Some [48; x; stk]⟩⟨prefixlen := 2⟩
          else Some pv⟨prefix := Some [48; stk]⟩⟨prefixlen := 1⟩
        else Some pv);
  ds ← pow2_digits 22 digits v shift [];
  let pv := pv⟨value := Some (ds ++ [stk])⟩⟨valuelen := Z.of_nat (length ds)⟩ in
  '(pv, w) ← format_number pv w;
  Some (pv⟨value := None⟩⟨valuelen := 0⟩, w).

(** The loop over the 64-bit value, until its high word is zero. *)
Fixpoint decimal_high (room : nat) (v : Z) (acc : list Z) : option (nat * Z * list Z) :=
  if nonzero (Z.shiftr v 32) then
    match room with
    | O => None
    | S room' => decimal_high room' (v / 10) (48 + v mod 10 :: acc)
    end
  else Some (room, v, acc).
(** The loop over the low word. *)
Fixpoint decimal_low (room : nat) (v : Z) (acc : list Z) : option (list Z) :=
  match room with
  | O => None
  | S room' =>
      let acc := 48 + v mod 10 :: acc in
      if nonzero (v / 10) then decimal_low room' (v / 10) acc else Some acc
  end.

(** Negating the least [int64_t] is undefined. *)
Definition print_decimal (stk : Z) (pv : print_vars) (val : Z) (w : W)
    : option (print_vars * W) :=
  '(v, pv) ←
    (if ((flags pv &&& PRINT_FLAG_UINT32) =? 0) && (val <? 0) then
       if val =? - 2 ^ 63 then None
       else Some (u64 (- val), pv⟨prefix := Some [45; 0]⟩⟨prefixlen := 1⟩)
     else Some (u64 val &&& mask pv, pv));
  let pv :=
    match prefix pv with
    | None =>
        if nonzero (flags pv &&& PRINT_FLAG_SIGN) then
          pv⟨prefix := Some [43; 0]⟩⟨prefixlen := 1⟩
        else if nonzero (flags pv &&& PRINT_FLAG_SPACE) then
          pv⟨prefix := Some [32; 0]⟩⟨prefixlen := 1⟩
        else pv
    | Some _ => pv
    end in
  '(room, v, acc) ← decimal_high 20 v [];
  ds ← decimal_low room (u32 v) acc;
  let pv := pv⟨value := Some (ds ++ [stk])⟩⟨valuelen := Z.of_nat (length ds)⟩ in
  '(pv, w) ← format_number pv w;
  Some (pv⟨value := None⟩⟨valuelen := 0⟩, w).

Definition print_string (pv : print_vars) (s : cptr) (w0 : W) : option W :=
  len ← strnlen_s s PRINT_STRING_MAX_LEN;
  let len := if nonzero (precision pv) && (precision pv <? len) then precision pv else len in
  let w := if (0 <? width pv) && (len <? width pv) then width pv - len else 0 in
  w1 ← (if (flags pv &&& PRINT_FLAG_LEFT_JUSTIFY) =? 0
        then emit PRINT_CMD_FILL (Some [32; 0]) w w0 else Some w0);
  w2 ← emit PRINT_CMD_COPY s len w1;
  if nonzero (flags pv &&& PRINT_FLAG_LEFT_JUSTIFY)
  then emit PRINT_CMD_FILL (Some [32; 0]) w w2 else Some w2.

(** ** [do_print] *)

(** Move to the next percent sign or to the end of the format. *)
Fixpoint scan_text (fmt : list Z) : option (list Z) :=
  match fmt with
  | [] => None
  | c :: fmt' => if negb (c =? 0) && negb (c =? 37) then scan_text fmt' else Some fmt
  end.

(** The conversion [ch] of the directive that starts at [start]; [fmt] is what
    follows it. *)
Definition convert (stk : Z) (start fmt : list Z) (ch : Z) (v : print_vars)
    (args : list arg) (w : W) : option (print_vars * list arg * W) :=
  let long := nonzero (flags v &&& PRINT_FLAG_LONG_LONG) in
  if ch =? 37 then
    w ← emit PRINT_CMD_COPY (Some [ch; stk]) 1 w; Some (v, args, w)
  else if (ch =? 100) || (ch =? 105) then
    '(x, args) ← va_arg_int args;
    '(v, w) ← print_decimal stk v (if long then s64 x else s32 x) w;
    Some (v, args, w)
  else if ch =? 117 then
    let v := v⟨flags := flags v ||| PRINT_FLAG_UINT32⟩ in
    '(x, args) ← va_arg_int args;
    '(v, w) ← print_decimal stk v (if long then s64 x else u32 x) w;
    Some (v, args, w)
  else if (ch =? 88) || (ch =? 120) then
    let v := if ch =? 88 then v⟨flags := flags v ||| PRINT_FLAG_UPPER⟩ else v in
    '(x, args) ← va_arg_int args;
    '(v, w) ← print_pow2 stk v (if long then u64 x else u32 x) 4 w;
    Some (v, args, w)
  else if ch =? 115 then
    '(s, args) ← va_arg_str args;
    let s := match s with None => Some [40; 110; 117; 108; 108; 41; 0] | Some _ => s end in
    w ← print_string v s w;
    Some (v, args, w)
  else if ch =? 99 then
    '(x, args) ← va_arg_int args;
    w ← print_string v (Some [u8 x; 0]) w;
    Some (v, args, w)
  else
    w ← emit PRINT_CMD_COPY (Some start)
          (Z.of_nat (length start) - Z.of_nat (length fmt)) w;
    Some (v, args, w).

(** The analysis of the format specification after the percent sign. *)
Definition parse_spec (fmt : list Z) : option (print_vars * Z * list Z) :=
  let v := zero_vars⟨mask := 0xFFFFFFFFFFFFFFFF⟩ in
  '(f, fmt) ← get_flags fmt (flags v);
  '(wd, fmt) ← get_param fmt;
  c ← head fmt;
  '(pr, fmt) ← (if c =? 46 then get_param (tail fmt) else Some (0, fmt));
  '(f, mk, fmt) ← get_length_modifier fmt f (mask v);
  ch ← head fmt;
  Some (v⟨flags := f⟩⟨width := wd⟩⟨precision := pr⟩⟨mask := mk⟩, ch, tail fmt).

(** One turn of the main loop per unit of fuel; a turn consumes a character. *)
Fixpoint do_print_loop (fuel : nat) (stk : Z) (fmt : list Z) (v : print_vars)
    (args : list arg) (w : W) : option (print_vars * W) :=
  c ← head fmt;
  if c =? 0 then Some (v, w)
  else match fuel with
  | O => None
  | S fuel' =>
      let start := fmt in
      fmt ← scan_text fmt;
      w ← emit PRINT_CMD_COPY (Some start)
            (Z.of_nat (length start) - Z.of_nat (length fmt)) w;
      c ← head fmt;
      if c =? 37 then
        let start := fmt in
        '(v, ch, fmt) ← parse_spec (tail fmt);
        '(v, args, w) ← convert stk start fmt ch v args w;
        do_print_loop fuel' stk fmt v args w
      else do_print_loop fuel' stk fmt v args w
  end.

Definition do_print (stk : Z) (fmt_arg : list Z) (v : print_vars) (args : list arg) (w : W)
    : option (print_vars * W) :=
  do_print_loop (length fmt_arg) stk fmt_arg v args w.
End print.

(** ** Output to memory *)

Record snprint_param := mk_snp { dst : Z; sz : Z; wrtn : Z }.

#[export] Instance eta_snp : Eta snprint_param :=
  { eta := rd mk_snp <*> dst <*> sz <*> wrtn }.

(** The copy loop: [room] is [param->sz - param->wrtn]. *)
Fixpoint charmem_copy (s : list Z) (n size room : Z) (m : mem) (p : Z) : option (Z * mem) :=
  match s with
  | [] => None
  | c :: s' =>
      if negb (c =? 0) && (n <? size) then
        m ← (if n <? room then store m p c else Some m);
        charmem_copy s' (n + 1) size room m (p + 1)
      else Some (n, m)
  end.

Definition charmem (cmd : Z) (s_arg : cptr) (size : Z) (st : mem * snprint_param)
    : option (mem * snprint_param) :=
  let (m, param) := st in
  let p := dst param + wrtn param in
  let room := u32 (sz param - wrtn param) in
  if cmd =? PRINT_CMD_COPY then
    '(n, m) ← (if 0 <? size then s ← s_arg; charmem_copy s 0 size room m p else Some (0, m));
    Some (m, param⟨wrtn := u32 (wrtn param + n)⟩)
  else
    s ← s_arg; c ← head s;
    let n := if size <? room then size else 0 in
    m ← memset m p c n;
    Some (m, param⟨wrtn := u32 (wrtn param + size)⟩).

#[export] Instance mem_emitter : Emitter (mem * snprint_param) := charmem.

Definition vsnprintf (stk : Z) (m : mem) (dst_arg sz_arg : Z) (fmt : list Z) (args : list arg)
    : option (Z * mem) :=
  let size := u32 sz_arg in
  '(_, (m, snparam)) ← do_print stk fmt zero_vars args (m, mk_snp dst_arg size 0);
  m ← (if wrtn snparam <? size then store m (dst snparam + wrtn snparam) 0
       else store m (dst snparam + u32 (size - 1)) 0);
  Some (wrtn snparam, m).

Definition snprintf (stk : Z) (m : mem) (dest size : Z) (fmt : list Z) (args : list arg)
    : option (Z * mem) :=
  vsnprintf stk m dest size fmt args.

(** ** Output to the console *)

(** The characters sent to the UART so far, oldest first; [put_char] waits until
    the device has taken its character. *)
Fixpoint uart16550_puts_loop (buf : list Z) (len : nat) (out : list Z)
    {struct len} : option (list Z) :=
  match len with
  | O => Some out
  | S len' =>
      match buf with
      | [] => None
      | c :: buf' =>
          uart16550_puts_loop buf' len' (out ++ (if c =? 10 then [13; c] else [c]))
      end
  end.
Definition uart16550_puts (buf : cptr) (len : Z) (out : list Z) : option (Z * list Z) :=
  match buf with
  | None => Some (0, out)
  | Some s => out' ← uart16550_puts_loop s (Z.to_nat len) out; Some (len, out')
  end.

Definition console_write (s : cptr) (len : Z) (out : list Z) : option (Z * list Z) :=
  uart16550_puts s len out.
Definition console_putc (ch : cptr) (out : list Z) : option (list Z) :=
  '(_, out') ← uart16550_puts ch 1 out; Some out'.

Fixpoint charout_fill (sz : nat) (s : cptr) (out : list Z) : option (list Z) :=
  match sz with
  | O => Some out
  | S sz' => out' ← console_putc s out; charout_fill sz' s out'
  end.

Definition charout (cmd : Z) (s : cptr) (size : Z) (st : list Z * snprint_param)
    : option (list Z * snprint_param) :=
  let (out, param) := st in
  if cmd =? PRINT_CMD_COPY then
    '(len, out) ← (if 0 <? size then console_write s size out else Some (0, out));
    Some (out, param⟨wrtn := u32 (wrtn param + len)⟩)
  else
    out ← charout_fill (Z.to_nat size) s out;
    Some (out, param⟨wrtn := u32 (wrtn param + size)⟩).

#[export] Instance console_emitter : Emitter (list Z * snprint_param) := charout.

Definition vprintf (stk : Z) (fmt : list Z) (args : list arg) (out : list Z) : option (list Z) :=
  '(_, (out, _)) ← do_print stk fmt zero_vars args (out, mk_snp 0 0 0);
  Some out.

Definition printf (stk : Z) (fmt : list Z) (args : list arg) (out : list Z) : option (list Z) :=
  vprintf stk fmt args out.

(** ** [do_print] is a sequence of emissions

    What it emits depends on the format and the arguments only: running it on an
    emitter is running on it the emissions that a log collects. *)

Definition op : Type := Z * cptr * Z.

#[export] Instance log_emitter : Emitter (list op) :=
  λ c s n log, Some (log ++ [(c, s, n)]).

Section run.
Context {W : Type} `{E : Emitter W}.

Fixpoint run_ops (l : list op) (w : W) : option W :=
  match l with
  | [] => Some w
  | (c, s, n) :: l' => w' ← emit c s n w; run_ops l' w'
  end.

(** [m] is the result on a log; the same on the state [w]. *)
Definition replay {A} (o : option (A * list op)) (w : W) : option (A * W) :=
  '(a, l) ← o; w' ← run_ops l w; Some (a, w').
Definition replay1 (o : option (list op)) (w : W) : option W :=
  l ← o; run_ops l w.

Lemma run_ops_app l k w : run_ops (l ++ k) w = w' ← run_ops l w; run_ops k w'.
Proof.
  revert w. induction l as [|[[c s] n] l IH]; intros w; simpl; [done|].
  destruct (emit c s n w); simpl; auto.
Qed.
End run.

Lemma run_ops_log (l k : list op) : run_ops l k = Some (k ++ l).
Proof.
  revert k. induction l as [|[[c s] n] l IH]; intros k; simpl; [by rewrite app_nil_r|].
  by rewrite IH, <- app_assoc.
Qed.

(** The log of [f] from [l] on is [l] followed by the log of [f]. *)
Lemma replay_log {A} (o : option (A * list op)) l :
  replay o l = '(a, k) ← o; Some (a, l ++ k).
Proof. destruct o as [[a k]|]; simpl; [by rewrite run_ops_log|done]. Qed.

Ltac destruct_emits :=
  repeat (cbn [mbind option_bind run_ops emit log_emitter app];
  first
  [ reflexivity | discriminate
  | case_if
  | match goal with
    | |- context [@emit ?V ?I ?c ?s ?n ?w] =>
        lazymatch V with
        | list op => fail
        | _ => destruct (@emit V I c s n w)
        end
    end ]).

(** After rewriting a call to its replay: by cases on its log and on its run. *)
Ltac finish_replay :=
  unfold replay, replay1;
  match goal with
  | |- (?o ≫= _) ≫= _ = _ => destruct o as [o'|]; [|done]; try destruct o'
  end;
  cbn [mbind option_bind];
  match goal with |- context [run_ops ?l ?w] => by destruct (run_ops l w) end.

Section replay.
Context {W : Type} `{E : Emitter W}.

Lemma format_number_replay v (w : W) :
  format_number v w = replay (format_number v ([] : list op)) w.
Proof.
  unfold format_number, replay. cbv zeta. set (wid := u32 (valuelen v + prefixlen v)).
  generalize (if wid <? precision v then precision v - wid else 0) as p. intros p.
  generalize (if u32 (wid + p) <? width v then width v - u32 (wid + p) else 0) as k. intros k.
  destruct_emits.
Qed.

Lemma print_string_replay v s (w : W) :
  print_string v s w = replay1 (print_string v s ([] : list op)) w.
Proof.
  unfold print_string, replay1.
  destruct (strnlen_s s PRINT_STRING_MAX_LEN); [|done]. cbn [mbind option_bind].
  destruct_emits.
Qed.

Lemma print_pow2_replay stk v x k (w : W) :
  print_pow2 stk v x k w = replay (print_pow2 stk v x k ([] : list op)) w.
Proof.
  unfold print_pow2.
  match goal with |- ?m ≫= _ = _ => destruct m as [pv|]; cbn [mbind option_bind]; [|done] end.
  match goal with |- ?m ≫= _ = _ => destruct m as [ds|]; cbn [mbind option_bind]; [|done] end.
  rewrite format_number_replay. finish_replay.
Qed.

Lemma print_decimal_replay stk v x (w : W) :
  print_decimal stk v x w = replay (print_decimal stk v x ([] : list op)) w.
Proof.
  unfold print_decimal.
  match goal with |- ?m ≫= _ = _ => destruct m as [[? pv]|]; cbn [mbind option_bind]; [|done] end.
  destruct (decimal_high 20 _ []) as [[[room x'] acc]|]; cbn [mbind option_bind]; [|done].
  destruct (decimal_low room _ acc) as [ds|]; cbn [mbind option_bind]; [|done].
  rewrite format_number_replay. finish_replay.
Qed.

Lemma convert_replay stk start fmt ch v args (w : W) :
  convert stk start fmt ch v args w
    = replay (convert stk start fmt ch v args ([] : list op)) w.
Proof.
  unfold convert.
  destruct (ch =? 37); [by unfold replay; destruct_emits|].
  destruct ((ch =? 100) || (ch =? 105)).
  { destruct (va_arg_int args) as [[x args']|]; cbn [mbind option_bind]; [|done].
    rewrite print_decimal_replay. finish_replay. }
  destruct (ch =? 117).
  { destruct (va_arg_int args) as [[x args']|]; cbn [mbind option_bind]; [|done].
    rewrite print_decimal_replay. finish_replay. }
  destruct ((ch =? 88) || (ch =? 120)).
  { destruct (va_arg_int args) as [[x args']|]; cbn [mbind option_bind]; [|done].
    rewrite print_pow2_replay. finish_replay. }
  destruct (ch =? 115).
  { destruct (va_arg_str args) as [[x args']|]; cbn [mbind option_bind]; [|done].
    rewrite print_string_replay. finish_replay. }
  destruct (ch =? 99).
  { destruct (va_arg_int args) as [[x args']|]; cbn [mbind option_bind]; [|done].
    rewrite print_string_replay. finish_replay. }
  unfold replay. destruct_emits.
Qed.
End replay.

(** ** Lawful emitters

    The text of an emission: [n] characters, or one of them [n] times. *)

Definition op_text (o : op) : option (list Z) :=
  let '(c, s, n) := o in
  if c =? PRINT_CMD_COPY then
    if n <=? 0 then Some []
    else
      s ← s;
      if (n <? Z.of_nat (length s)) && forallb nonzero (take (Z.to_nat n) s)
      then Some (take (Z.to_nat n) s) else None
  else if n <? 0 then None
  else
    s ← s; c ← head s;
    if (0 <=? c) && (c <? 256) then Some (replicate (Z.to_nat n) c) else None.

(** The text a format and its arguments stand for. *)
#[export] Instance text_emitter : Emitter (list Z) :=
  λ c s n text, t ← op_text (c, s, n); Some (text ++ t).

Definition render (stk : Z) (fmt : list Z) (args : list arg) : option (list Z) :=
  '(_, out) ← do_print stk fmt zero_vars args []; Some out.

(** An emitter appends the text of an emission to the output that its state
    stands for, as long as the output fits. *)
Class EmitterLaw {W} (E : Emitter W) (R : list Z → W → Prop) (fits : list Z → Prop) := {
  fits_prefix a b : fits (a ++ b) → fits a;
  emit_ok text w c s n t :
    R text w → op_text (c, s, n) = Some t → fits (text ++ t) →
    ∃ w', emit c s n w = Some w' ∧ R (text ++ t) w' }.

Lemma run_ops_text l text out :
  run_ops l text = Some out → ∃ t, out = text ++ t.
Proof.
  revert text. induction l as [|[[c s] n] l IH]; intros text.
  - intros [= ->]. exists []. by rewrite app_nil_r.
  - cbn [run_ops]. unfold emit at 1, text_emitter.
    destruct (op_text (c, s, n)) as [t|]; [|done].
    cbn [mbind option_bind]. intros (t' & ->)%IH. exists (t ++ t'). by rewrite app_assoc.
Qed.

Lemma run_ops_ok {W R fits} {E : Emitter W} {law : EmitterLaw E R fits} l text out w :
  R text w → run_ops l text = Some out → fits out →
  ∃ w', run_ops l w = Some w' ∧ R out w'.
Proof.
  revert text w. induction l as [|[[c s] n] l IH]; intros text w HR.
  - intros [= ->] _. eauto.
  - cbn [run_ops]. unfold emit at 1, text_emitter.
    destruct (op_text (c, s, n)) as [t|] eqn:Et; [|done]. cbn [mbind option_bind].
    intros Hrun Hfit. destruct (run_ops_text _ _ _ Hrun) as [t' ->].
    destruct (emit_ok text w c s n t HR Et) as (w' & -> & HR').
    { by eapply fits_prefix. }
    cbn [mbind option_bind]. by eapply IH.
Qed.

(** Emissions [l] and then those of [o]. *)
Lemma replay_after {A W} `{E : Emitter W} (o : option (A * list op)) l (w : W) :
  replay (replay o l) w = w' ← run_ops l w; replay o w'.
Proof.
  rewrite replay_log. destruct o as [[a k]|]; cbn [mbind option_bind].
  - unfold replay. cbn [mbind option_bind]. rewrite run_ops_app. by destruct (run_ops l w).
  - by destruct (run_ops l w).
Qed.

Lemma do_print_loop_replay fuel stk fmt v args `{E : Emitter W} (w : W) :
  do_print_loop fuel stk fmt v args w
    = replay (do_print_loop fuel stk fmt v args ([] : list op)) w.
Proof.
  revert W E fmt v args w.
  induction fuel as [|fuel IH]; intros W' E' fmt v args w; cbn [do_print_loop].
  { destruct (head fmt); [|done]. cbn [mbind option_bind]. by case_if. }
  destruct (head fmt) as [c|]; [|done]. cbn [mbind option_bind]. case_if; [done|].
  destruct (scan_text fmt) as [fmt'|]; [|done]. cbn [mbind option_bind].
  set (n := Z.of_nat (length fmt) - Z.of_nat (length fmt')).
  unfold emit at 2, log_emitter. cbn [mbind option_bind app].
  destruct (head fmt') as [c'|]; cbn [mbind option_bind]; [|by destruct (emit _ _ n w)].
  case_if.
  - destruct (parse_spec (tail fmt')) as [[[v' ch] fmt2]|]; cbn [mbind option_bind];
      [|by destruct (emit _ _ n w)].
    rewrite (convert_replay _ _ _ _ _ _ [_]), replay_log.
    destruct (convert _ _ _ _ _ _ []) as [[[v'' args'] l]|] eqn:Ec; cbn [mbind option_bind].
    + rewrite (IH _ _ _ _ _ (_ ++ _)), replay_after. cbn [app run_ops].
      destruct (emit _ _ n w) as [w1|]; [|done]. cbn [mbind option_bind].
      rewrite convert_replay, Ec. unfold replay at 1. cbn [mbind option_bind].
      destruct (run_ops l w1); [|done]. cbn [mbind option_bind]. apply IH.
    + destruct (emit _ _ n w); [|done]. cbn [mbind option_bind]. by rewrite convert_replay, Ec.
  - rewrite (IH _ _ _ _ _ [_]), replay_after. cbn [run_ops].
    destruct (emit _ _ n w); [|done]. cbn [mbind option_bind]. apply IH.
Qed.

(** For every emitter that appends the text of an emission to the output its
    state stands for, as long as the output fits, do_print outputs the text of the
    format with its arguments, if that fits. *)
Lemma do_print_refines {W R fits} {E : Emitter W} {law : EmitterLaw E R fits} stk fmt args out w :
  R [] w → render stk fmt args = Some out → fits out →
  ∃ v w', do_print stk fmt zero_vars args w = Some (v, w') ∧ R out w'.
Proof.
  unfold render, do_print. intros HR. rewrite (do_print_loop_replay _ _ _ _ _ w).
  rewrite do_print_loop_replay. unfold replay.
  destruct (do_print_loop _ _ _ _ _ []) as [[v l]|]; [|done]. cbn [mbind option_bind].
  destruct (run_ops l []) as [out'|] eqn:El; [|done]. cbn [mbind option_bind].
  intros [= ->] Hfit. destruct (run_ops_ok l [] out w HR El Hfit) as (w' & -> & HR').
  exists v, w'. done.
Qed.

(** ** The buffer emitter is lawful *)

Lemma op_text_copy s n t :
  op_text (PRINT_CMD_COPY, s, n) = Some t →
  (n ≤ 0 ∧ t = []) ∨
  (∃ b, s = Some b ∧ 0 < n < Z.of_nat (length b) ∧ t = take (Z.to_nat n) b ∧
        Forall (λ c, c ≠ 0) t ∧ Z.of_nat (length t) = n).
Proof.
  cbn [op_text]. change (PRINT_CMD_COPY =? PRINT_CMD_COPY) with true. cbn iota.
  destruct (Z.leb_spec n 0); [intros [= <-]; by left|]. destruct s as [b|]; [|done].
  cbn [mbind option_bind]. case_if; [|done]. intros [= <-]. zreflect. right.
  exists b. split_and!; [done|lia|lia|done| |rewrite length_take; lia].
  apply Forall_forall. intros x Hx. apply list_elem_of_In in Hx.
  eapply forallb_forall in Hx; [|done]. unfold nonzero in Hx. zreflect. done.
Qed.

Lemma op_text_fill c s n t :
  c ≠ PRINT_CMD_COPY → op_text (c, s, n) = Some t →
  ∃ x r, s = Some (x :: r) ∧ 0 ≤ n ∧ word 8 x ∧ t = replicate (Z.to_nat n) x.
Proof.
  intros Hc. cbn [op_text]. destruct (Z.eqb_spec c PRINT_CMD_COPY); [done|].
  destruct (Z.ltb_spec n 0); [done|]. destruct s as [[|x r]|]; simpl; [done| |done].
  case_if; [|done]. zreflect. intros [= <-]. exists x, r. split_and!; [done..|by split|done].
Qed.

(** The copy loop stores the characters for which there is room; all when there
    is room for all. *)
Lemma charmem_copy_ok s k (n : nat) room m p :
  (n < length s)%nat → Forall (λ c, c ≠ 0) (take n s) →
  0 ≤ k → k + Z.of_nat n ≤ room → in_mem m p (Z.of_nat n) →
  charmem_copy s k (k + Z.of_nat n) room m p
    = Some (k + Z.of_nat n, write m p (take n s)).
Proof.
  revert s k m p. induction n as [|n IH]; intros [|c s] k m p Hl Hnz Hk Hr Hin;
    simpl in Hl; try lia.
  - cbn [charmem_copy]. replace (k <? k + Z.of_nat 0) with false by (symmetry; apply Z.ltb_ge; lia).
    rewrite andb_false_r. simpl. by rewrite write_nil, Z.add_0_r.
  - simpl in Hnz. apply Forall_cons in Hnz as [Hc Hnz]. cbn [charmem_copy take].
    replace (negb (c =? 0) && (k <? k + Z.of_nat (S n))) with true by (zcmp; done).
    replace (k <? room) with true by (symmetry; apply Z.ltb_lt; lia).
    rewrite store_write by (eapply in_mem_le; [done|lia]). cbn [mbind option_bind].
    replace (k + Z.of_nat (S n)) with (k + 1 + Z.of_nat n) by lia.
    rewrite IH; [|lia|done|lia|lia|apply in_mem_write; destruct Hin; split; lia].
    change (c :: take n s) with ([c] ++ take n s). by rewrite write_app by apply Hin.
Qed.

Section to_memory.
Context (m0 : mem) (d size : Z).
Hypothesis Hmem : in_mem m0 d size.
Hypothesis Hsize : size < 2 ^ 32.

Definition mem_rel (text : list Z) (st : mem * snprint_param) : Prop :=
  st = (write m0 d text, mk_snp d size (Z.of_nat (length text))).

#[local] Instance charmem_law :
  EmitterLaw mem_emitter mem_rel (λ text, Z.of_nat (length text) < size).
Proof.
  split.
  { intros a b. rewrite length_app. lia. }
  intros text w c s n t -> Ht Hfit. rewrite length_app in Hfit.
  assert (mbase m0 ≤ d) by apply Hmem.
  unfold emit, mem_emitter, charmem, mem_rel. cbn [dst sz wrtn].
  assert (u32 (size - Z.of_nat (length text)) = size - Z.of_nat (length text)) as ->
    by (apply u32_id; split; lia).
  destruct (Z.eqb_spec c PRINT_CMD_COPY) as [->|Hc].
  - apply op_text_copy in Ht as [[Hn ->]|(b & -> & Hn & Ht & Hnz & Hlen)].
    + replace (0 <? n) with false by (symmetry; apply Z.ltb_ge; lia).
      cbn [mbind option_bind]. eexists. split; [done|].
      rewrite app_nil_r, Z.add_0_r, u32_id by (split; lia). done.
    + replace (0 <? n) with true by (symmetry; apply Z.ltb_lt; lia). cbn [mbind option_bind].
      pose proof (charmem_copy_ok b 0 (Z.to_nat n) (size - Z.of_nat (length text))
        (write m0 d text) (d + Z.of_nat (length text))) as Hcp.
      rewrite Z2Nat.id, <- Ht, Z.add_0_l in Hcp by lia.
      rewrite Hcp; [|lia|done|lia|lia|apply in_mem_write; destruct Hmem; split; lia].
      cbn [mbind option_bind]. eexists. split; [done|].
      rewrite u32_id by (split; lia). rewrite write_app by done.
      unfold upd. simpl. rewrite length_app. do 2 f_equal. lia.
  - apply (op_text_fill _ _ _ _ Hc) in Ht as (x & r & -> & Hn & Hx & ->).
    rewrite length_replicate in Hfit. cbn [mbind option_bind head].
    replace (n <? size - Z.of_nat (length text)) with true by (symmetry; apply Z.ltb_lt; lia).
    unfold memset. rewrite memset_loop_ok, u8_id;
      [|done|apply in_mem_write; destruct Hmem; split; lia].
    cbn [mbind option_bind]. eexists. split; [done|].
    rewrite u32_id by (split; lia). rewrite write_app by done.
    unfold upd. simpl. rewrite length_app, length_replicate. do 2 f_equal. lia.
Qed.

Lemma vsnprintf_ok stk fmt args out :
  render stk fmt args = Some out → Z.of_nat (length out) < size →
  vsnprintf stk m0 d size fmt args = Some (Z.of_nat (length out), write m0 d (out ++ [0])).
Proof.
  intros Hout Hlen. unfold vsnprintf. rewrite u32_id by (split; lia).
  destruct (do_print_refines stk fmt args out (m0, mk_snp d size 0)) as (v & w & -> & ->).
  { unfold mem_rel. by rewrite write_nil. }
  { done. }
  { done. }
  cbn [mbind option_bind wrtn dst]. replace (Z.of_nat (length out) <? size) with true
    by (symmetry; apply Z.ltb_lt; lia).
  rewrite store_write by (apply in_mem_write; destruct Hmem; split; lia).
  cbn [mbind option_bind]. by rewrite write_app by apply Hmem.
Qed.
End to_memory.



(** ** Where the buffer emitter stores *)

Lemma store_inv m p v m' : store m p v = Some m' → in_mem m p 1 ∧ m' = write m p [v].
Proof.
  intros Hs. destruct (decide (in_mem m p 1)) as [Hin|Hout].
  - rewrite store_write in Hs by done. by simplify_eq.
  - rewrite store_outside in Hs by done. done.
Qed.

Lemma charmem_copy_stores s k size room m p n' m' :
  charmem_copy s k size room m p = Some (n', m') →
  ∃ l, m' = write m p l ∧ Z.of_nat (length l) ≤ Z.max 0 (room - k).
Proof.
  revert k m p. induction s as [|c s IH]; intros k m p; [done|]. cbn [charmem_copy].
  case_if; [|intros [= _ ->]; exists []; rewrite write_nil; simpl; split; [done|lia]].
  destruct (Z.ltb_spec k room) as [Hk|Hk].
  - destruct (store m p c) as [m1|] eqn:Es; [|done]. apply store_inv in Es as [Hin ->].
    cbn [mbind option_bind]. intros (l & -> & Hl)%IH. exists (c :: l). split.
    + change (c :: l) with ([c] ++ l). by rewrite write_app by apply Hin.
    + simpl. lia.
  - cbn [mbind option_bind]. intros ([|x l] & -> & Hl)%IH; simpl in Hl; [|lia].
    exists []. rewrite !write_nil. split; [done|simpl; lia].
Qed.

Lemma memset_stores n m p v m' :
  memset_loop n m p v = Some m' → m' = write m p (replicate n v).
Proof.
  revert m p. induction n as [|n IH]; intros m p; simpl.
  - intros [= <-]. by rewrite write_nil.
  - destruct (store m p v) as [m1|] eqn:Es; [|done]. apply store_inv in Es as [Hin ->].
    cbn [mbind option_bind]. intros ->%IH.
    change (v :: replicate n v) with ([v] ++ replicate n v). by rewrite write_app by apply Hin.
Qed.

(** C29: An emission of charmem that starts inside the buffer, or at its end, only
    stores inside the buffer, whatever its length.  One that starts past the end,
    which is where an output longer than the buffer leaves the count, is not
    stopped: the room wraps around and the characters are stored after the
    buffer. *)
Theorem charmem_bounds cmd s n m m' d size k sp' :
  0 ≤ size < 2 ^ 32 → 0 ≤ k < 2 ^ 32 →
  charmem cmd s n (m, mk_snp d size k) = Some (m', sp') →
  (k ≤ size → ∃ p l, m' = write m p l ∧ d ≤ p ∧ p + Z.of_nat (length l) ≤ d + size) ∧
  (size < k → ∀ t, cmd = PRINT_CMD_COPY → op_text (cmd, s, n) = Some t →
     Z.of_nat (length t) ≤ size - k + 2 ^ 32 → in_mem m (d + k) (Z.of_nat (length t)) →
     m' = write m (d + k) t).
Proof.
  intros Hsz Hk. unfold charmem. cbn [dst sz wrtn]. intros Hrun. split.
  - intros Hle. rewrite u32_id in Hrun by (split; lia). exists (d + k).
    destruct (cmd =? PRINT_CMD_COPY).
    + destruct (0 <? n).
      * destruct s as [s|]; [|done]. cbn [mbind option_bind] in Hrun.
        destruct (charmem_copy _ _ _ _ _ _) as [[n' m1]|] eqn:Ec; [|done]. simplify_eq/=.
        apply charmem_copy_stores in Ec as (l & -> & Hl). exists l. split; [done|]. lia.
      * simplify_eq/=. exists []. rewrite write_nil. simpl. split; [done|lia].
    + destruct s as [[|c s]|]; [done| |done]. cbn [mbind option_bind head] in Hrun.
      destruct (memset _ _ _ _) as [m1|] eqn:Em; [|done]. simplify_eq/=.
      apply memset_stores in Em as ->. eexists. split; [done|]. rewrite length_replicate.
      case_if; zreflect; lia.
  - intros Hgt t -> Ht Hlen Hin.
    assert (u32 (size - k) = size - k + 2 ^ 32) as Hroom.
    { unfold u32. rewrite <- (Z_mod_plus_full (size - k) 1). apply Z.mod_small. lia. }
    rewrite Hroom in Hrun. change (PRINT_CMD_COPY =? PRINT_CMD_COPY) with true in Hrun.
    apply op_text_copy in Ht as [[Hn ->]|(b & -> & Hn & Ht & Hnz & Hl)].
    + replace (0 <? n) with false in Hrun by (symmetry; apply Z.ltb_ge; lia).
      simplify_eq/=. by rewrite write_nil.
    + replace (0 <? n) with true in Hrun by (symmetry; apply Z.ltb_lt; lia).
      cbn [mbind option_bind] in Hrun.
      pose proof (charmem_copy_ok b 0 (Z.to_nat n) (size - k + 2 ^ 32) m (d + k)) as Hcp.
      rewrite Z2Nat.id, <- Ht, Z.add_0_l in Hcp by lia.
      rewrite Hcp in Hrun; [|lia|done|lia|lia|rewrite <- Hl; done]. by simplify_eq/=.
Qed.

(** After six characters for a buffer of four, two more go to the memory behind it. *)
Lemma charmem_bounds_witness :
  ∃ m', charmem PRINT_CMD_COPY (Some [103; 104; 0]) 2 (mk_mem 16 (replicate 11 1), mk_snp 16 4 6)
          = Some (m', mk_snp 16 4 8) ∧
        m' = mk_mem 16 [1; 1; 1; 1; 1; 1; 103; 104; 1; 1; 1].
Proof.
  eexists. split; [by vm_compute|].
  apply (proj2 (charmem_bounds PRINT_CMD_COPY (Some [103; 104; 0]) 2
    (mk_mem 16 (replicate 11 1)) _ 16 4 6 (mk_snp 16 4 8)
    ltac:(lia) ltac:(lia) ltac:(by vm_compute)) ltac:(lia) [103; 104]);
    [done | done | by vm_compute | split; by vm_compute].
Defined.

(** ** The console emitter is lawful *)

(** The UART gets a carriage return before each line feed. *)
Definition crlf (text : list Z) : list Z :=
  flat_map (λ c, if c =? 10 then [13; c] else [c]) text.

Lemma puts_loop_ok b n out :
  (n ≤ length b)%nat → uart16550_puts_loop b n out = Some (out ++ crlf (take n b)).
Proof.
  revert n out. induction b as [|c b IH]; intros [|n] out Hn; simpl in *; try lia.
  - by rewrite app_nil_r.
  - by rewrite app_nil_r.
  - rewrite IH by lia. by rewrite <- app_assoc.
Qed.

Lemma charout_fill_ok n x r out :
  charout_fill n (Some (x :: r)) out = Some (out ++ crlf (replicate n x)).
Proof.
  revert out. induction n as [|n IH]; intros out.
  - simpl. by rewrite app_nil_r.
  - transitivity (charout_fill n (Some (x :: r)) (out ++ (if x =? 10 then [13; x] else [x]))).
    + done.
    + rewrite IH. simpl. by rewrite <- app_assoc.
Qed.

Section to_console.
Context (out0 : list Z).

Definition console_rel (text : list Z) (st : list Z * snprint_param) : Prop :=
  fst st = out0 ++ crlf text.

#[local] Instance charout_law : EmitterLaw console_emitter console_rel (λ _, True).
Proof.
  split; [done|]. intros text [out sp] c s n t HR Ht _. unfold console_rel in *. simpl in HR.
  subst out. unfold emit, console_emitter, charout.
  unfold crlf in *. rewrite flat_map_app, app_assoc. fold crlf.
  destruct (Z.eqb_spec c PRINT_CMD_COPY) as [->|Hc].
  - apply op_text_copy in Ht as [[Hn ->]|(b & -> & Hn & -> & _)].
    + replace (0 <? n) with false by (symmetry; apply Z.ltb_ge; lia).
      eexists. split; [done|]. simpl. by rewrite app_nil_r.
    + replace (0 <? n) with true by (symmetry; apply Z.ltb_lt; lia).
      unfold console_write, uart16550_puts. rewrite puts_loop_ok by lia.
      eexists. by split.
  - apply (op_text_fill _ _ _ _ Hc) in Ht as (x & r & -> & Hn & _ & ->).
    rewrite charout_fill_ok. eexists. by split.
Qed.

Lemma vprintf_ok stk fmt args out :
  render stk fmt args = Some out → vprintf stk fmt args out0 = Some (out0 ++ crlf out).
Proof.
  intros Hout. unfold vprintf.
  destruct (do_print_refines stk fmt args out (out0, mk_snp 0 0 0)) as (v & [o sp] & -> & HR);
    [|done|done|].
  - unfold console_rel. simpl. by rewrite app_nil_r.
  - simpl. by rewrite HR.
Qed.
End to_console.

(** printf sends exactly the text of the format with its arguments to the UART,
    with a carriage return before each line feed. *)
Theorem printf_sends_text stk fmt args out0 out :
  render stk fmt args = Some out → printf stk fmt args out0 = Some (out0 ++ crlf out).
Proof. apply vprintf_ok. Qed.

(** [%05x] and a line feed. *)
Lemma printf_sends_text_witness :
  printf 7 [37; 48; 53; 120; 10; 0] [AInt 0xbeef] [62]
    = Some [62; 48; 98; 101; 101; 102; 13; 10].
Proof.
  rewrite (printf_sends_text 7 [37; 48; 53; 120; 10; 0] [AInt 0xbeef] [62]
    [48; 98; 101; 101; 102; 10]); by vm_compute.
Defined.

(** ** The fuel of [do_print] is enough

    A turn of the main loop leaves a shorter format, so more fuel than the length
    of the format changes nothing. *)

Lemma scan_text_ok fmt f :
  scan_text fmt = Some f →
  (length f ≤ length fmt)%nat ∧ ∃ c f', f = c :: f' ∧ (c = 0 ∨ c = 37).
Proof.
  induction fmt as [|c fmt IH]; simpl; [done|].
  case_if; [intros [? ?]%IH; split; [lia|done]|]. intros [= <-]. split; [done|].
  exists c, fmt. split; [done|]. apply andb_false_iff in E as [E|E]; zreflect; auto.
Qed.

Lemma get_param_length s x r : get_param s = Some (x, r) → (length r ≤ length s)%nat.
Proof.
  assert (∀ s a x r, get_param_loop s a = Some (x, r) → (length r ≤ length s)%nat) as Hloop.
  { clear. induction s as [|c s IH]; simpl; intros a x r; [done|].
    case_if; [intros ?%IH; lia|]. by intros [= _ <-]. }
  unfold get_param. destruct s as [|c s]; [done|]. cbn [head mbind option_bind].
  intros ?%Hloop. revert H. case_if; simpl; lia.
Qed.

Lemma get_flags_length s f f' r : get_flags s f = Some (f', r) → (length r ≤ length s)%nat.
Proof.
  assert (∀ s f f' r, get_flags_loop s f = Some (f', r) → (length r ≤ length s)%nat) as Hloop.
  { clear. induction s as [|c s IH]; intros f f' r; cbn [get_flags_loop]; [done|].
    case_if; [by intros [= _ <-]|]. destruct (list_find _ _) as [[i y]|]; [|by intros [= _ <-]].
    destruct (fl !! i); [|done]. cbn [mbind option_bind]. intros ?%IH. simpl. lia. }
  unfold get_flags. destruct (get_flags_loop s f) as [[g r']|] eqn:E; [|done].
  cbn [mbind option_bind]. intros [= _ <-]. by eapply Hloop.
Qed.

Lemma get_length_modifier_length s f mk f' mk' r :
  get_length_modifier s f mk = Some (f', mk', r) → (length r ≤ length s)%nat.
Proof.
  unfold get_length_modifier. destruct s as [|c s]; [done|]. cbn [head tail mbind option_bind].
  repeat case_if; destruct (head s); cbn [mbind option_bind]; repeat case_if;
    intros; simplify_eq/=; rewrite ?length_drop; lia.
Qed.

Lemma parse_spec_length s v ch r : parse_spec s = Some (v, ch, r) → (length r < length s)%nat.
Proof.
  unfold parse_spec.
  destruct (get_flags _ _) as [[f s1]|] eqn:E1; [|done]. cbn [mbind option_bind].
  destruct (get_param s1) as [[wd s2]|] eqn:E2; [|done]. cbn [mbind option_bind].
  destruct (head s2) as [c|]; [|done]. cbn [mbind option_bind].
  apply get_flags_length in E1. apply get_param_length in E2.
  match goal with |- ?m ≫= _ = _ → _ => destruct m as [[pr s3]|] eqn:E3; [|done] end.
  assert (length s3 ≤ length s2)%nat as L3.
  { revert E3. case_if; [intros ?%get_param_length; destruct s2; simpl in *; lia|].
    by intros [= _ <-]. }
  cbn [mbind option_bind].
  destruct (get_length_modifier s3 f _) as [[[f' mk'] s4]|] eqn:E4; [|done].
  apply get_length_modifier_length in E4. cbn [mbind option_bind].
  destruct s4 as [|ch' s4]; [done|]. cbn [head tail mbind option_bind].
  intros [= _ _ <-]. simpl in *. lia.
Qed.

Lemma do_print_loop_fuel `{Emitter W} n m stk fmt v args (w : W) :
  (length fmt ≤ n)%nat → (length fmt ≤ m)%nat →
  do_print_loop n stk fmt v args w = do_print_loop m stk fmt v args w.
Proof.
  revert m fmt v args w. induction n as [|n IH]; intros m fmt v args w Hn Hm.
  { destruct fmt; [by destruct m|simpl in *; lia]. }
  destruct m as [|m]; [destruct fmt; simpl in *; [done|lia]|].
  cbn [do_print_loop]. destruct (head fmt) as [c|]; [|done]. cbn [mbind option_bind].
  case_if; [done|]. destruct (scan_text fmt) as [f|] eqn:Es; [|done]. cbn [mbind option_bind].
  apply scan_text_ok in Es as (Hf & c' & f' & -> & Hc').
  destruct (emit _ _ _ w) as [w1|]; [|done]. cbn [head tail mbind option_bind].
  simpl in Hf. destruct Hc' as [->| ->]; [by destruct n, m|].
  change (37 =? 37) with true. cbn iota.
  destruct (parse_spec f') as [[[v' ch] f2]|] eqn:Ep; [|done]. cbn [mbind option_bind].
  apply parse_spec_length in Ep.
  destruct (convert _ _ _ _ _ _ w1) as [[[v2 a2] w2]|]; [|done]. cbn [mbind option_bind].
  apply IH; lia.
Qed.

(** ** The digits of a number *)

Lemma digits_val_split base dig acc l k :
  digits_val base dig acc (l ++ k) = digits_val base dig (digits_val base dig acc l) k.
Proof. unfold digits_val. apply fold_left_app. Qed.

Lemma digits_val_zeros dig n ds :
  dig 48 = 0 → digits_val 16 dig 0 (replicate n 48 ++ ds) = digits_val 16 dig 0 ds.
Proof.
  intros Hz. rewrite digits_val_split. f_equal. induction n as [|n IH]; [done|].
  unfold digits_val in *. simpl. by rewrite Hz.
Qed.

(** A table whose first sixteen characters are the hexadecimal digits in order. *)
Definition hex_table (tbl : list Z) : Prop :=
  ∀ i, 0 ≤ i < 16 → ∃ c, tbl !! Z.to_nat i = Some c ∧ is_hex_digit c = true ∧ hex_digit_value c = i.

Lemma hex_table_by_cases tbl :
  forallb (λ i, match tbl !! Z.to_nat i with
                | Some c => is_hex_digit c && (hex_digit_value c =? i) | None => false end)
          (seqZ 0 16) = true → hex_table tbl.
Proof.
  intros H i Hi. rewrite forallb_forall in H. specialize (H i).
  ospecialize (H _). { apply list_elem_of_In, elem_of_seqZ. lia. }
  destruct (tbl !! Z.to_nat i) as [c|]; [|done]. zreflect. eauto.
Qed.

Lemma upper_is_hex_table : hex_table upper_hex_digits.
Proof. by apply hex_table_by_cases. Qed.
Lemma lower_is_hex_table : hex_table lower_hex_digits.
Proof. by apply hex_table_by_cases. Qed.

Lemma pow2_digits_ok room tbl v acc :
  hex_table tbl → 0 ≤ v < 16 ^ Z.of_nat room → (0 < room)%nat →
  ∃ ds, pow2_digits room tbl v 4 acc = Some (ds ++ acc) ∧
        Forall (λ c, is_hex_digit c = true) ds ∧
        digits_val 16 hex_digit_value 0 ds = v ∧
        (∀ k, (0 < k)%nat → v < 16 ^ Z.of_nat k → (length ds ≤ k)%nat).
Proof.
  intros Htbl. revert v acc. induction room as [|room IH]; intros v acc Hv Hroom; [lia|].
  assert (v &&& (2 ^ 4 - 1) = v mod 16) as Hm
    by (rewrite Z.sub_1_r, <- Z.ones_equiv, Z.land_ones by lia; done).
  assert (Z.shiftr v 4 = v / 16) as Hs by (rewrite Z.shiftr_div_pow2 by lia; done).
  cbn [pow2_digits]. rewrite Hm, Hs.
  destruct (Htbl (v mod 16)) as (c & -> & Hc & Hcv); [apply Z.mod_pos_bound; lia|].
  cbn [mbind option_bind]. pose proof (Z.div_mod v 16 ltac:(lia)) as Hdm.
  pose proof (Z.mod_pos_bound v 16 ltac:(lia)) as Hmb.
  unfold nonzero. destruct (Z.eqb_spec (v / 16) 0) as [Hz|Hz]; simpl negb.
  - exists [c]. split_and!; [done|by constructor|unfold digits_val; simpl; lia|simpl; lia].
  - rewrite Nat2Z.inj_succ, Z.pow_succ_r in Hv by lia.
    assert (0 < v / 16) as Hpos by (pose proof (Z.div_pos v 16); lia).
    destruct (IH (v / 16) (c :: acc)) as (ds & -> & Hds & Hval & Hlen).
    { split; [lia|]. apply Z.div_lt_upper_bound; lia. }
    { destruct room; [simpl in Hv; lia|lia]. }
    exists (ds ++ [c]). split_and!.
    + by rewrite <- app_assoc.
    + apply Forall_app. split; [done|by constructor].
    + rewrite digits_val_app, Hval, Hcv. lia.
    + intros [|[|k]] Hk Hvk; [lia|simpl in Hvk; lia|]. rewrite length_app. simpl.
      rewrite Nat2Z.inj_succ, Z.pow_succ_r in Hvk by lia.
      specialize (Hlen (S k) ltac:(lia) ltac:(apply Z.div_lt_upper_bound; lia)). lia.
Qed.

Lemma decimal_low_ok room v acc :
  0 ≤ v < 10 ^ Z.of_nat room → (0 < room)%nat →
  ∃ ds, decimal_low room v acc = Some (ds ++ acc) ∧
        Forall (λ c, is_dec_digit c = true) ds ∧ ds ≠ [] ∧
        digits_val 10 dec_digit 0 ds = v ∧ (length ds ≤ room)%nat.
Proof.
  revert v acc. induction room as [|room IH]; intros v acc Hv Hroom; [lia|].
  cbn [decimal_low]. pose proof (Z.div_mod v 10 ltac:(lia)) as Hdm.
  pose proof (Z.mod_pos_bound v 10 ltac:(lia)) as Hmb.
  assert (is_dec_digit (48 + v mod 10) = true) as Hd by (unfold is_dec_digit; by zcmp).
  unfold nonzero. destruct (Z.eqb_spec (v / 10) 0) as [Hz|Hz]; simpl negb; cbv iota.
  - exists [48 + v mod 10]. split_and!; [done|by constructor|done| |simpl; lia].
    unfold digits_val, dec_digit. simpl. lia.
  - rewrite Nat2Z.inj_succ, Z.pow_succ_r in Hv by lia.
    assert (0 < v / 10) as Hpos by (pose proof (Z.div_pos v 10); lia).
    destruct (IH (v / 10) (48 + v mod 10 :: acc)) as (ds & -> & Hds & Hne & Hval & Hlen).
    { split; [lia|]. apply Z.div_lt_upper_bound; lia. }
    { destruct room; [simpl in Hv; lia|lia]. }
    exists (ds ++ [48 + v mod 10]). split_and!.
    + by rewrite <- app_assoc.
    + apply Forall_app. split; [done|by constructor].
    + by destruct ds.
    + rewrite digits_val_app, Hval. unfold dec_digit. lia.
    + rewrite length_app. simpl. lia.
Qed.

Lemma decimal_high_ok room v acc :
  0 ≤ v < 10 ^ Z.of_nat room → (0 < room)%nat →
  ∃ room' v' ds, decimal_high room v acc = Some (room', v', ds ++ acc) ∧
        0 ≤ v' < 10 ^ Z.of_nat room' ∧ v' < 2 ^ 32 ∧ (0 < room')%nat ∧
        Forall (λ c, is_dec_digit c = true) ds ∧
        digits_val 10 dec_digit v' ds = v ∧ (length ds + room' = room)%nat.
Proof.
  revert v acc. induction room as [|room IH]; intros v acc Hv Hroom; [lia|].
  cbn [decimal_high]. unfold nonzero. rewrite Z.shiftr_div_pow2 by lia.
  destruct (Z.eqb_spec (v / 2 ^ 32) 0) as [Hz|Hz]; simpl negb; cbv iota.
  - exists (S room), v, []. apply Z.div_small_iff in Hz; [|lia].
    split_and!; try done; lia.
  - pose proof (Z.div_mod v 10 ltac:(lia)) as Hdm.
    pose proof (Z.mod_pos_bound v 10 ltac:(lia)) as Hmb.
    assert (is_dec_digit (48 + v mod 10) = true) as Hd by (unfold is_dec_digit; by zcmp).
    assert (2 ^ 32 ≤ v) as Hbig.
    { destruct (Z.le_gt_cases (2 ^ 32) v); [done|]. rewrite Z.div_small in Hz by lia. done. }
    rewrite Nat2Z.inj_succ, Z.pow_succ_r in Hv by lia.
    destruct (IH (v / 10) (48 + v mod 10 :: acc))
      as (room' & v' & ds & -> & Hv' & H32 & Hr & Hds & Hval & Hlen).
    { split; [lia|]. apply Z.div_lt_upper_bound; lia. }
    { destruct room; [simpl in Hv; lia|lia]. }
    exists room', v', (ds ++ [48 + v mod 10]). split_and!; try done || lia.
    + by rewrite <- app_assoc.
    + apply Forall_app. split; [done|by constructor].
    + rewrite digits_val_app, Hval. unfold dec_digit. lia.
    + rewrite length_app. simpl. lia.
Qed.

(** ** What a number prints as *)

(** [p] points to the characters [l], followed by another byte. *)
Definition points_to (p : cptr) (n : Z) (l : list Z) : Prop :=
  n = Z.of_nat (length l) ∧ Forall (λ c, c ≠ 0) l ∧ (l = [] ∨ ∃ x r, p = Some (l ++ x :: r)).

Lemma emit_copy_text p n l (text : list Z) :
  points_to p n l → emit PRINT_CMD_COPY p n text = Some (text ++ l).
Proof.
  intros (-> & Hnz & Hp). unfold emit, text_emitter. cbn [op_text].
  change (PRINT_CMD_COPY =? PRINT_CMD_COPY) with true. cbv iota.
  destruct Hp as [->|(x & r & ->)]; [by simpl|].
  destruct (Z.leb_spec (Z.of_nat (length l)) 0).
  { destruct l; [by simpl|simpl in *; lia]. }
  cbn [mbind option_bind]. rewrite Nat2Z.id, take_app_length, length_app.
  replace (forallb nonzero l) with true.
  - simpl length. zcmp. done.
  - symmetry. apply forallb_forall. intros c Hc. apply list_elem_of_In in Hc.
    eapply Forall_forall in Hc; [|done]. simpl in Hc. unfold nonzero. by zcmp.
Qed.

Lemma emit_fill_text c r n (text : list Z) :
  0 ≤ n → word 8 c →
  emit PRINT_CMD_FILL (Some (c :: r)) n text = Some (text ++ replicate (Z.to_nat n) c).
Proof.
  intros Hn [??]. unfold emit, text_emitter. cbn [op_text].
  change (PRINT_CMD_FILL =? PRINT_CMD_COPY) with false. cbv iota. cbn [mbind option_bind head].
  by zcmp.
Qed.

(** Right-justified, without a precision: the prefix goes before padding with zeros
    and after padding with blanks. *)
Lemma format_number_text v (text pre ds : list Z) :
  (flags v &&& PRINT_FLAG_LEFT_JUSTIFY) = 0 → precision v = 0 →
  points_to (prefix v) (prefixlen v) pre → points_to (value v) (valuelen v) ds →
  Z.of_nat (length pre + length ds) < 2 ^ 32 →
  let pad := Z.to_nat (width v - Z.of_nat (length pre + length ds)) in
  ∃ v', format_number v text =
    Some (v', text ++ (if nonzero (flags v &&& PRINT_FLAG_PAD_ZERO)
                       then pre ++ replicate pad 48 else replicate pad 32 ++ pre) ++ ds).
Proof.
  intros Hleft Hprec Hpre Hds Hlen pad. pose proof Hpre as (Epl & _). pose proof Hds as (Evl & _).
  unfold format_number. cbv zeta. rewrite Epl, Evl.
  set (wid := u32 (Z.of_nat (length ds) + Z.of_nat (length pre))).
  assert (wid = Z.of_nat (length pre + length ds)) as Hw
    by (unfold wid; rewrite u32_id by (split; lia); lia).
  rewrite Hprec. replace (wid <? 0) with false by (symmetry; apply Z.ltb_ge; lia).
  rewrite Z.add_0_r, (u32_id wid) by (split; lia).
  set (k := if wid <? width v then width v - wid else 0).
  assert (Z.to_nat k = pad ∧ 0 ≤ k) as [Hk Hk0]
    by (unfold k, pad; case_if; zreflect; lia).
  rewrite Hleft. change (0 =? 0) with true. cbv iota.
  destruct (nonzero (flags v &&& PRINT_FLAG_PAD_ZERO)); cbn [mbind option_bind].
  - rewrite <- Epl, (emit_copy_text _ _ pre) by done. cbn [mbind option_bind].
    rewrite emit_fill_text by (done || split; by vm_compute). cbn [mbind option_bind].
    rewrite (emit_copy_text _ _ []) by (split_and!; [done|constructor|by left]).
    cbn [mbind option_bind]. rewrite emit_fill_text by (done || split; by vm_compute).
    cbn [mbind option_bind]. rewrite (emit_copy_text _ _ ds) by done. cbn [mbind option_bind].
    replace (flags _ &&& PRINT_FLAG_LEFT_JUSTIFY) with 0 by (symmetry; exact Hleft).
    eexists. cbn. rewrite Hk, !app_nil_r, <- !app_assoc. done.
  - rewrite emit_fill_text by (done || split; by vm_compute). cbn [mbind option_bind].
    rewrite (emit_copy_text _ _ pre) by done. cbn [mbind option_bind].
    rewrite emit_fill_text by (done || split; by vm_compute).
    cbn [mbind option_bind]. rewrite (emit_copy_text _ _ ds) by done.
    cbn [mbind option_bind]. rewrite Hleft. eexists. cbn.
    rewrite Hk, !app_nil_r, <- !app_assoc. done.
Qed.

(** The variables of a directive without precision and prefix. *)
Definition plain_vars (f wd : Z) : print_vars := mk_vars f wd 0 (2 ^ 64 - 1) None 0 None 0.

Lemma hex_digits_nonzero ds :
  Forall (λ c, is_hex_digit c = true) ds → Forall (λ c, c ≠ 0) ds.
Proof. intros H. eapply Forall_impl; [done|]. intros c ?%hex_digit_range. simpl. lia. Qed.
Lemma dec_digits_nonzero ds :
  Forall (λ c, is_dec_digit c = true) ds → Forall (λ c, c ≠ 0) ds.
Proof.
  intros H. eapply Forall_impl; [done|]. unfold is_dec_digit. intros c ?. zreflect. simpl. lia.
Qed.

Lemma print_pow2_text stk f wd x (text : list Z) :
  (f &&& PRINT_FLAG_LEFT_JUSTIFY) = 0 → (f &&& PRINT_FLAG_ALTERNATE_FORM) = 0 → word 64 x →
  ∃ v ds, Forall (λ c, is_hex_digit c = true) ds ∧ digits_val 16 hex_digit_value 0 ds = x ∧
    (length ds ≤ 16)%nat ∧
    print_pow2 stk (plain_vars f wd) x 4 text = Some (v, text ++
      replicate (Z.to_nat (wd - Z.of_nat (length ds)))
        (if nonzero (f &&& PRINT_FLAG_PAD_ZERO) then 48 else 32) ++ ds).
Proof.
  intros Hl Ha Hx. unfold print_pow2. cbn [flags mask plain_vars]. rewrite Ha.
  change (nonzero 0) with false. rewrite andb_false_r. cbn [mbind option_bind].
  set (tbl := if nonzero (f &&& PRINT_FLAG_UPPER) then _ else _).
  assert (hex_table tbl) as Htbl
    by (unfold tbl; case_if; [apply upper_is_hex_table|apply lower_is_hex_table]).
  assert (x &&& (2 ^ 64 - 1) = x) as ->.
  { rewrite Z.sub_1_r, <- Z.ones_equiv, Z.land_ones by lia. by apply Z.mod_small. }
  destruct (pow2_digits_ok 22 tbl x [] Htbl) as (ds & -> & Hds & Hval & Hlen);
    [unfold word in Hx; lia|lia|].
  specialize (Hlen 16%nat ltac:(lia) ltac:(unfold word in Hx; lia)).
  rewrite app_nil_r. cbn [mbind option_bind].
  destruct (format_number_text (plain_vars f wd)⟨value := Some (ds ++ [stk])⟩
              ⟨valuelen := Z.of_nat (length ds)⟩ text [] ds) as [v' ->]; try done.
  - split_and!; [done|constructor|by left].
  - split_and!; [done|by apply hex_digits_nonzero|]. right. eauto.
  - simpl. lia.
  - cbn [mbind option_bind]. do 2 eexists. split_and!; [exact Hds|done|done|].
    do 3 f_equal. cbn. by case_if; rewrite ?app_nil_r.
Qed.

Lemma decimal_digits_ok n :
  0 ≤ n < 2 ^ 64 →
  ∃ room v acc ds, decimal_high 20 n [] = Some (room, v, acc) ∧
    decimal_low room (u32 v) acc = Some ds ∧
    Forall (λ c, is_dec_digit c = true) ds ∧ ds ≠ [] ∧
    digits_val 10 dec_digit 0 ds = n ∧ (length ds ≤ 20)%nat.
Proof.
  intros Hn.
  destruct (decimal_high_ok 20 n []) as (room & v & d1 & E1 & Hv & H32 & Hr & Hd1 & Hval & Hln);
    [lia|lia|].
  destruct (decimal_low_ok room v (d1 ++ []) Hv Hr) as (d2 & E2 & Hd2 & Hne & Hval2 & Hln2).
  rewrite app_nil_r in *. exists room, v, d1, (d2 ++ d1). rewrite u32_id by (split; lia).
  split_and!; [done|done|by apply Forall_app|by destruct d2| |rewrite length_app; lia].
  by rewrite digits_val_split, Hval2.
Qed.

(** The sign and the magnitude of a signed number. *)
Definition signed_vars (f x : Z) : print_vars :=
  if x <? 0 then (plain_vars f 0)⟨prefix := Some [45; 0]⟩⟨prefixlen := 1⟩ else plain_vars f 0.

Lemma decimal_magnitude f x :
  - 2 ^ 63 < x < 2 ^ 63 →
  (if x <? 0 then
     if x =? - 2 ^ 63 then None
     else Some (u64 (- x), (plain_vars f 0)⟨prefix := Some [45; 0]⟩⟨prefixlen := 1⟩)
   else Some (u64 x &&& (2 ^ 64 - 1), plain_vars f 0)) = Some (Z.abs x, signed_vars f x).
Proof.
  intros Hx. unfold signed_vars. destruct (Z.ltb_spec x 0).
  - replace (x =? - 2 ^ 63) with false by (symmetry; apply Z.eqb_neq; lia).
    rewrite u64_id by (split; lia). do 2 f_equal. lia.
  - rewrite u64_id by (split; lia). do 2 f_equal.
    rewrite Z.sub_1_r, <- Z.ones_equiv, Z.land_ones by lia. rewrite Z.mod_small; lia.
Qed.

Lemma print_decimal_text stk f x (text : list Z) :
  (f &&& PRINT_FLAG_LEFT_JUSTIFY) = 0 → (f &&& PRINT_FLAG_UINT32) = 0 →
  (f &&& PRINT_FLAG_SIGN) = 0 → (f &&& PRINT_FLAG_SPACE) = 0 → - 2 ^ 63 < x < 2 ^ 63 →
  ∃ v ds, Forall (λ c, is_dec_digit c = true) ds ∧ ds ≠ [] ∧
    digits_val 10 dec_digit 0 ds = Z.abs x ∧ (length ds ≤ 20)%nat ∧
    print_decimal stk (plain_vars f 0) x text
      = Some (v, text ++ (if x <? 0 then [45] else []) ++ ds).
Proof.
  intros Hl Hu Hs Hsp Hx. unfold print_decimal. cbn [flags mask plain_vars]. rewrite Hu.
  change (0 =? 0) with true. rewrite andb_true_l, decimal_magnitude by done.
  cbn [mbind option_bind].
  set (pv := match prefix _ with None => _ | Some _ => _ end).
  assert (pv = signed_vars f x) as ->.
  { unfold pv, signed_vars. destruct (x <? 0); [done|]. cbn. by rewrite Hs, Hsp. }
  destruct (decimal_digits_ok (Z.abs x)) as (room & v' & acc & ds & -> & E2 & Hds & Hne & Hval & Hlen);
    [lia|]. cbn [mbind option_bind]. rewrite E2. cbn [mbind option_bind].
  set (pre := if x <? 0 then [45] else []).
  destruct (format_number_text (signed_vars f x)⟨value := Some (ds ++ [stk])⟩
       ⟨valuelen := Z.of_nat (length ds)⟩ text pre ds) as [v ->].
  - unfold signed_vars. by destruct (x <? 0).
  - unfold signed_vars. by destruct (x <? 0).
  - unfold pre, points_to, signed_vars. destruct (x <? 0).
    + split_and!; [done|by repeat constructor|]. right. by exists 0, [].
    + split_and!; [done|constructor|by left].
  - split_and!; [done|by apply dec_digits_nonzero|right; by eexists _, []].
  - unfold pre. destruct (x <? 0); simpl; lia.
  - cbn [mbind option_bind]. do 2 eexists. split_and!; [exact Hds|done..|].
    replace (width _) with 0 by (unfold signed_vars; by destruct (x <? 0)).
    replace (Z.to_nat (0 - _)) with 0%nat by lia. simpl. rewrite app_nil_r. by case_if.
Qed.

(** A format whose first directive comes after [lead], and that ends with it. *)
Lemma render_directive stk lead spec args pv ch v args' out :
  Forall (λ c, c ≠ 0 ∧ c ≠ 37) lead → parse_spec spec = Some (pv, ch, [0]) →
  convert stk (37 :: spec) [0] ch pv args lead = Some (v, args', out) →
  render stk (lead ++ 37 :: spec) args = Some out.
Proof.
  intros Hlead Hspec Hconv. unfold render.
  assert (scan_text (lead ++ 37 :: spec) = Some (37 :: spec)) as Hscan.
  { clear -Hlead. induction Hlead as [|c l [??] _ IH]; [done|]. simpl. by zcmp. }
  assert (∃ c, head (lead ++ 37 :: spec) = Some c ∧ c ≠ 0) as (c & Hc & Hc0).
  { destruct Hlead as [|c l [??]]; [by exists 37|by exists c]. }
  unfold do_print.
  rewrite (do_print_loop_fuel _ (S (S (length (lead ++ 37 :: spec))))) by lia.
  set (n := length (lead ++ 37 :: spec)). unfold do_print_loop. fold (@do_print_loop (list Z) _).
  rewrite Hc, Hscan. cbn [mbind option_bind]. replace (c =? 0) with false
    by (symmetry; by apply Z.eqb_neq).
  rewrite (emit_copy_text _ _ lead).
  - cbn [mbind option_bind head tail]. change (37 =? 37) with true. cbv iota.
    rewrite Hspec, app_nil_l. cbn [mbind option_bind]. by rewrite Hconv.
  - split_and!.
    + rewrite length_app. lia.
    + eapply Forall_impl; [done|]. by intros ? [??].
    + right. eauto.
Qed.

(** The formats [0x%016lx] and [%ld]. *)
Definition fmt_hex : list Z := [48; 120; 37; 48; 49; 54; 108; 120; 0].
Definition fmt_dec : list Z := [37; 108; 100; 0].

Lemma render_hex stk x :
  word 64 x →
  ∃ ds, Forall (λ c, is_hex_digit c = true) ds ∧ digits_val 16 hex_digit_value 0 ds = x ∧
    length ds = 16%nat ∧ render stk fmt_hex [AInt x] = Some ([48; 120] ++ ds).
Proof.
  intros Hx.
  destruct (print_pow2_text stk 0x204 16 (u64 x) [48; 120]) as (v & ds & Hds & Hval & Hlen & Hp);
    [done|done|auto with words|]. rewrite u64_id in * by done.
  exists (replicate (Z.to_nat (16 - Z.of_nat (length ds))) 48 ++ ds). split_and!.
  - apply Forall_app. split; [by apply Forall_replicate|done].
  - by rewrite digits_val_zeros.
  - rewrite length_app, length_replicate. lia.
  - apply (render_directive _ [48; 120] [48; 49; 54; 108; 120; 0] _ (plain_vars 0x204 16) 120 v []).
    + by repeat constructor.
    + done.
    + unfold convert. cbn -[print_pow2 u64 u32 plain_vars replicate].
      change (nonzero (flags (plain_vars 516 16) &&& PRINT_FLAG_LONG_LONG)) with true.
      cbv iota. rewrite u64_id by done. rewrite Hp. done.
Qed.

Lemma render_dec stk x :
  - 2 ^ 63 < x < 2 ^ 63 →
  ∃ ds, Forall (λ c, is_dec_digit c = true) ds ∧ ds ≠ [] ∧
    digits_val 10 dec_digit 0 ds = Z.abs x ∧ (length ds ≤ 20)%nat ∧
    render stk fmt_dec [AInt x] = Some ((if x <? 0 then [45] else []) ++ ds).
Proof.
  intros Hx.
  destruct (print_decimal_text stk 0x200 x []) as (v & ds & Hds & Hne & Hval & Hlen & Hp);
    [done..|]. exists ds. split_and!; [done..|].
  apply (render_directive _ [] [108; 100; 0] _ (plain_vars 0x200 0) 100 v []).
  - constructor.
  - done.
  - unfold convert. cbn -[print_decimal s64 s32 plain_vars].
    change (nonzero (flags (plain_vars 512 0) &&& PRINT_FLAG_LONG_LONG)) with true.
    cbv iota. rewrite s64_small by lia. rewrite Hp. done.
Qed.

Lemma mptr_stored m d out :
  in_mem m d (Z.of_nat (length out) + 1) →
  ∃ r, mptr (write m d (out ++ [0])) d = out ++ 0 :: r.
Proof.
  intros Hin. exists (drop (length (out ++ [0])) (mptr (write m d (out ++ [0])) d)).
  rewrite <- (take_drop (length (out ++ [0])) (mptr _ d)) at 1.
  rewrite take_mptr_written by (rewrite length_app; simpl; destruct Hin; split; lia).
  by rewrite <- app_assoc.
Qed.

(** C28: What snprintf prints, the parsers of the shell read back: every 64-bit
    number printed with 0x%016lx by strtoul_hex where char is signed, and every
    int64_t but the least one printed with %ld by strtol_deci.  Where char is
    unsigned, as the RISC-V build leaves it, strtoul_hex does not stop at the end of
    a number: the only value it ever returns is ULONG_MAX. *)
Theorem numbers_round_trip stk m d :
  in_mem m d 22 →
  (∀ x, word 64 x → ∃ n m', snprintf stk m d 19 fmt_hex [AInt x] = Some (n, m') ∧
          @strtoul_hex signed_abi (mptr m' d) = Some x) ∧
  (∀ x, - 2 ^ 63 < x < 2 ^ 63 → ∃ n m', snprintf stk m d 22 fmt_dec [AInt x] = Some (n, m') ∧
          strtol_deci (mptr m' d) = Some x) ∧
  (∀ s v, Forall (word 8) s → @strtoul_hex unsigned_abi s = Some v → v = ULONG_MAX).
Proof.
  intros Hin. split_and!; [| |apply strtoul_hex_unsigned].
  - intros x Hx. destruct (render_hex stk x Hx) as (ds & Hds & Hval & Hlen & Hr).
    do 2 eexists. split.
    + apply (vsnprintf_ok m d 19); [eapply in_mem_le; [done|lia]|lia|exact Hr|simpl; lia].
    + destruct (mptr_stored m d ([48; 120] ++ ds)) as [r ->].
      { eapply in_mem_le; [done|]. simpl. lia. }
      rewrite <- app_assoc. cbn [app].
      pose proof (strtoul_hex_prefixed [] 120 ds 0 r) as Hp. rewrite app_nil_l in Hp.
      rewrite Hp; [|constructor|by left|done|].
      * rewrite Hval. unfold ULONG_MAX, word in *. f_equal. lia.
      * repeat split; by vm_compute.
  - intros x Hx. destruct (render_dec stk x Hx) as (ds & Hds & Hne & Hval & Hlen & Hr).
    set (sg := if x <? 0 then [45] else []) in *.
    assert (length sg ≤ 1)%nat by (unfold sg; case_if; simpl; lia).
    do 2 eexists. split.
    + apply (vsnprintf_ok m d 22); [done|lia|exact Hr|rewrite length_app; lia].
    + destruct (mptr_stored m d (sg ++ ds)) as [r ->].
      { eapply in_mem_le; [done|]. rewrite length_app. lia. }
      rewrite <- app_assoc.
      pose proof (strtol_deci_ok [] sg (x <? 0) ds 0 r) as Hp. cbv zeta in Hp.
      rewrite app_nil_l in Hp. rewrite Hp, Hval; [|constructor| |done|done|done].
      * case_if; zreflect; f_equal; lia.
      * unfold sign_chars, sg. case_if; auto.
Qed.

Lemma numbers_round_trip_witness :
  ∃ n m', snprintf 7 (mk_mem 64 (replicate 22 1)) 64 22 fmt_dec [AInt (-120)] = Some (n, m') ∧
          strtol_deci (mptr m' 64) = Some (-120).
Proof.
  destruct (numbers_round_trip 7 (mk_mem 64 (replicate 22 1)) 64 ltac:(split; by vm_compute))
    as (_ & H & _).
  apply H. lia.
Defined.
