(* ===== verification/Shell.v ===== *)
(** * The hypervisor shell

    [debug/shell.c]: the line editor that the console timer drives, its history of
    command lines, and the split of a line into the arguments of a command.

    The eight command lines are the array [buffered_line] of [struct shell], one
    region of memory; the state also holds the characters waiting at the UART and
    those sent to it.  The commands themselves are not modelled: a command is its
    name and a function that may change the rest of the system.

    [memcpy_erms_backwards] copies downwards on x86, while
    [include/arch/riscv/asm/lib/string.h] defines it as [memcpy], which copies
    upwards; it is an argument of the editor. *)

From S2P Require Import Prelude CString Sprintf.

Definition SHELL_CMD_MAX_LEN : Z := 100.
Definition SHELL_STRING_MAX_LEN : Z := Z.shiftl 4096 2.
Definition MAX_BUFFERED_CMDS : Z := 8.

Definition KEY_DELETE : Z := 0x5B33.
Definition KEY_UP : Z := 0x5B41.
Definition KEY_DOWN : Z := 0x5B42.
Definition KEY_RIGHT : Z := 0x5B43.
Definition KEY_LEFT : Z := 0x5B44.
Definition KEY_END : Z := 0x5B46.
Definition KEY_HOME : Z := 0x5B48.

Record shell := mk_shell {
  buffered_line : mem;        (* 8 lines of 101 bytes *)
  input_line_len : Z;
  input_line_active : Z;
  to_select_index : Z;
  cursor_offset : Z;
  inp : list Z;               (* characters the UART has received *)
  scr : list Z }.             (* characters sent to the UART *)

#[export] Instance eta_shell : Eta shell :=
  { eta := rd mk_shell <*> buffered_line <*> input_line_len <*> input_line_active
             <*> to_select_index <*> cursor_offset <*> inp <*> scr }.

(** The address of [p_shell->buffered_line[i]]. *)
Definition line_addr (sh : shell) (i : Z) : Z :=
  mbase (buffered_line sh) + i * (SHELL_CMD_MAX_LEN + 1).
Definition active_addr (sh : shell) : Z := line_addr sh (input_line_active sh).

(** [shell_getc] waits for a character: there is none to return when the input has
    come to its end. *)
Definition shell_getc (sh : shell) : option (Z * shell) :=
  match inp sh with
  | [] => None
  | c :: rest => Some (c, sh⟨inp := rest⟩)
  end.

Definition shell_puts (s : list Z) (sh : shell) : option shell :=
  n ← strnlen_s (Some s) SHELL_STRING_MAX_LEN;
  '(_, out) ← console_write (Some s) n (scr sh);
  Some sh⟨scr := out⟩.

(** [shell_puts] of the characters at an address of the lines. *)
Definition shell_puts_at (p : Z) (sh : shell) : option shell :=
  shell_puts (mptr (buffered_line sh) p) sh.

Definition BS : list Z := [8; 0].             (* "\b" *)
Definition SPACE_BS : list Z := [32; 8; 0].   (* " \b" *)
Definition CRLF : list Z := [13; 10; 0].      (* "\r\n" *)

Fixpoint clear_loop (len : nat) (sh : shell) : option shell :=
  match len with
  | O => Some sh
  | S len' => sh ← shell_puts BS sh; sh ← shell_puts SPACE_BS sh; clear_loop len' sh
  end.
Definition clear_input_line (len : Z) (sh : shell) : option shell :=
  clear_loop (Z.to_nat len) sh.

Fixpoint cursor_loop (left : nat) (sh : shell) : option shell :=
  match left with
  | O => Some sh
  | S left' => sh ← shell_puts BS sh; cursor_loop left' sh
  end.
Definition set_cursor_pos (left_offset : Z) (sh : shell) : option shell :=
  cursor_loop (Z.to_nat left_offset) sh.

(** A store in the lines. *)
Definition store_line (p v : Z) (sh : shell) : option shell :=
  m ← store (buffered_line sh) p v; Some sh⟨buffered_line := m⟩.
Definition memcpy_erms (d s n : Z) (sh : shell) : option shell :=
  m ← memcpy (buffered_line sh) d s n; Some sh⟨buffered_line := m⟩.

Definition handle_delete_key (sh : shell) : option shell :=
  if cursor_offset sh <? input_line_len sh then
    let delta := input_line_len sh - cursor_offset sh - 1 in
    let p := active_addr sh + cursor_offset sh in
    sh ← shell_puts SPACE_BS sh;
    sh ← shell_puts_at (p + 1) sh;
    sh ← shell_puts SPACE_BS sh;
    sh ← set_cursor_pos delta sh;
    sh ← memcpy_erms p (p + 1) delta sh;
    sh ← store_line (active_addr sh + input_line_len sh - 1) 0 sh;
    Some sh⟨input_line_len := input_line_len sh - 1⟩
  else Some sh.

Definition handle_backspace_key (sh : shell) : option shell :=
  if 0 <? cursor_offset sh then
    sh ← shell_puts BS sh;
    sh ← shell_puts SPACE_BS sh;
    sh ← (if cursor_offset sh <? input_line_len sh then
            let delta := input_line_len sh - cursor_offset sh in
            let p := active_addr sh + cursor_offset sh in
            sh ← shell_puts_at p sh;
            sh ← shell_puts SPACE_BS sh;
            sh ← set_cursor_pos delta sh;
            memcpy_erms (p - 1) p delta sh
          else Some sh);
    sh ← store_line (active_addr sh + input_line_len sh - 1) 0 sh;
    Some sh⟨input_line_len := input_line_len sh - 1⟩⟨cursor_offset := cursor_offset sh - 1⟩
  else Some sh.

Definition handle_updown_key `{CharAbi} (key_value : Z) (sh : shell) : option shell :=
  let sel := to_select_index sh in
  current_select ←
    (if key_value =? KEY_UP then
       let to_select := if sel - 1 <? 0 then sel - 1 + MAX_BUFFERED_CMDS else sel - 1 in
       c ← load (buffered_line sh) (line_addr sh to_select);
       Some (if negb (c =? 0) then to_select else sel)
     else
       Some (if negb (sel =? input_line_active sh)
             then (sel + 1) mod MAX_BUFFERED_CMDS else sel));
  let sh := if negb (current_select =? input_line_active sh)
            then sh⟨to_select_index := current_select⟩ else sh in
  let cur := line_addr sh current_select in
  diff ← strcmp (mptr (buffered_line sh) cur) (mptr (buffered_line sh) (active_addr sh));
  if negb (diff =? 0) then
    sh ← (if cursor_offset sh <? input_line_len sh
          then shell_puts_at (active_addr sh + cursor_offset sh) sh else Some sh);
    sh ← clear_input_line (input_line_len sh) sh;
    sh ← shell_puts_at cur sh;
    len ← strnlen_s (Some (mptr (buffered_line sh) cur)) SHELL_CMD_MAX_LEN;
    '(_, m) ← memcpy_s (buffered_line sh) (active_addr sh) SHELL_CMD_MAX_LEN cur (len + 1);
    Some sh⟨buffered_line := m⟩⟨input_line_len := len⟩⟨cursor_offset := len⟩
  else Some sh.

Section editor.
Context `{CharAbi} (copy_backwards : mem → Z → Z → Z → option mem).

(** The key of an escape sequence; the bytes of the keys are ASCII, so that the sign
    of [char] does not matter. *)
Definition shell_handle_special_char (ch : Z) (sh : shell) : option shell :=
  if ch =? 0x1b then
    '(c1, sh) ← shell_getc sh;
    '(c2, sh) ← shell_getc sh;
    let key_value := Z.shiftl c1 8 ||| c2 in
    sh ← (if key_value =? KEY_DELETE then '(_, sh) ← shell_getc sh; Some sh else Some sh);
    if key_value =? KEY_DELETE then handle_delete_key sh
    else if (key_value =? KEY_UP) || (key_value =? KEY_DOWN) then handle_updown_key key_value sh
    else if key_value =? KEY_RIGHT then
      if cursor_offset sh <? input_line_len sh then
        sh ← shell_puts_at (active_addr sh + cursor_offset sh) sh;
        let sh := sh⟨cursor_offset := cursor_offset sh + 1⟩ in
        set_cursor_pos (input_line_len sh - cursor_offset sh) sh
      else Some sh
    else if key_value =? KEY_LEFT then
      if 0 <? cursor_offset sh then
        shell_puts BS sh⟨cursor_offset := cursor_offset sh - 1⟩
      else Some sh
    else if key_value =? KEY_END then
      if cursor_offset sh <? input_line_len sh then
        sh ← shell_puts_at (active_addr sh + cursor_offset sh) sh;
        Some sh⟨cursor_offset := input_line_len sh⟩
      else Some sh
    else if key_value =? KEY_HOME then
      if 0 <? cursor_offset sh then
        sh ← set_cursor_pos (cursor_offset sh) sh;
        Some sh⟨cursor_offset := 0⟩
      else Some sh
    else Some sh
  else Some sh.

Definition handle_input_char (ch : Z) (sh : shell) : option shell :=
  let delta := input_line_len sh - cursor_offset sh in
  let line := active_addr sh in
  sh ← (if 0 <? delta then
          m ← copy_backwards (buffered_line sh) (line + input_line_len sh)
                (line + input_line_len sh - 1) delta;
          Some sh⟨buffered_line := m⟩
        else Some sh);
  sh ← store_line (line + cursor_offset sh) ch sh;
  sh ← shell_puts_at (line + cursor_offset sh) sh;
  sh ← set_cursor_pos delta sh;
  Some sh⟨input_line_len := input_line_len sh + 1⟩⟨cursor_offset := cursor_offset sh + 1⟩.

(** Whether the line is complete, and the state. *)
Definition shell_input_line (sh : shell) : option (bool * shell) :=
  '(ch, sh) ← shell_getc sh;
  let finish sh :=
    sh ← shell_puts CRLF sh;
    Some (true, sh⟨input_line_len := 0⟩⟨cursor_offset := 0⟩) in
  if ch =? 8 then sh ← handle_backspace_key sh; Some (false, sh)
  else if ch =? 13 then finish sh
  else if ch =? 10 then Some (false, sh)
  else if input_line_len sh <? SHELL_CMD_MAX_LEN then
    if (32 <=? ch) && (ch <=? 126) then
      sh ← handle_input_char ch sh; Some (false, sh)
    else sh ← shell_handle_special_char ch sh; Some (false, sh)
  else finish sh.

(** ** From a line to a command *)

Fixpoint skip_blanks (n : nat) (m : mem) (p : Z) : option Z :=
  match n with
  | O => None
  | S n' => c ← load m p; if c =? 32 then skip_blanks n' m (p + 1) else Some p
  end.
Fixpoint skip_arg (n : nat) (m : mem) (p : Z) : option Z :=
  match n with
  | O => None
  | S n' =>
      c ← load m p;
      if negb (c =? 32) && negb (c =? 44) && negb (c =? 0) then skip_arg n' m (p + 1)
      else Some p
  end.

(** The argument vector, as the addresses of its strings, and the memory in which
    each argument is terminated.  The loops stop at the terminator of the string,
    so the size of the memory bounds their turns. *)
Fixpoint argv_loop (n : nat) (m : mem) (p : Z) (argv : list Z) : option (list Z * mem) :=
  match n with
  | O => None
  | S n' =>
      c ← load m p;
      if c =? 0 then Some (argv, m)
      else
        let argv := argv ++ [p] in
        p ← skip_arg (S (length (mbytes m))) m p;
        c ← load m p;
        if negb (c =? 0) then
          m ← store m p 0;
          p ← skip_blanks (S (length (mbytes m))) m (p + 1);
          argv_loop n' m p argv
        else argv_loop n' m p argv
  end.
Definition string_to_argv (m : mem) (argv_str : Z) : option (list Z * mem) :=
  p ← skip_blanks (S (length (mbytes m))) m argv_str;
  argv_loop (S (length (mbytes m))) m p [].

(** A command changes the rest of the system [W], which it may print to. *)
Record shell_cmd (W : Type) := mk_cmd {
  str : list Z;
  fcn : list (list Z) → W → Z * W }.
#[global] Arguments str {W} _.
#[global] Arguments fcn {W} _.

Context {W : Type} (cmds : list (shell_cmd W)).

Fixpoint find_loop (l : list (shell_cmd W)) (cmd_str : list Z) : option (option (shell_cmd W)) :=
  match l with
  | [] => Some None
  | c :: l' =>
      diff ← strcmp (str c) cmd_str;
      if diff =? 0 then Some (Some c) else find_loop l' cmd_str
  end.
Definition shell_find_cmd (cmd_str : list Z) : option (option (shell_cmd W)) :=
  find_loop cmds cmd_str.

Definition EINVAL : Z := 22.

(** The bytes of a string literal. *)
Definition INVALID_COMMAND : list Z :=
  [13;10;69;114;114;111;114;58;32;73;110;118;97;108;105;100;32;99;111;109;109;97;110;100;46;13;10;0].
Definition INVALID_PARAMETERS : list Z :=
  [13;10;69;114;114;111;114;58;32;73;110;118;97;108;105;100;32;112;97;114;97;109;101;116;101;114;115;46;13;10;0].
Definition LAUNCH_FAILED : list Z :=
  [13;10;67;111;109;109;97;110;100;32;108;97;117;110;99;104;32;102;97;105;108;101;100;46;13;10;0].

(** The line is copied to a local array of 101 bytes at the address [stack]; [above]
    is the memory that follows the lines, up to the end of that array. *)
Definition shell_process_cmd (stack : Z) (above : list Z) (p_input_line : Z) (sh : shell) (w : W)
    : option (Z * shell * W) :=
  let lines := buffered_line sh in
  let frame := mk_mem (mbase lines) (mbytes lines ++ above) in
  '(_, m) ← strncpy_s frame stack (SHELL_CMD_MAX_LEN + 1) p_input_line SHELL_CMD_MAX_LEN;
  m ← store m (stack + SHELL_CMD_MAX_LEN) 0;
  '(argv, m) ← string_to_argv m stack;
  match argv with
  | [] => Some (- EINVAL, sh, w)
  | cmd :: _ =>
      p_cmd ← shell_find_cmd (mptr m cmd);
      match p_cmd with
      | None => sh ← shell_puts INVALID_COMMAND sh; Some (- EINVAL, sh, w)
      | Some c =>
          let (status, w) := fcn c (mptr m <$> argv) w in
          sh ← (if status =? - EINVAL then shell_puts INVALID_PARAMETERS sh
                else if negb (status =? 0) then shell_puts LAUNCH_FAILED sh
                else Some sh);
          Some (status, sh, w)
      end
  end.

Definition shell_process (stack : Z) (above : list Z) (sh : shell) (w : W) : option (Z * shell * W) :=
  let p_input_line := active_addr sh in
  let former_index := (input_line_active sh + MAX_BUFFERED_CMDS - 1) mod MAX_BUFFERED_CMDS in
  len ← strnlen_s (Some (mptr (buffered_line sh) p_input_line)) SHELL_CMD_MAX_LEN;
  differs ← (if 0 <? len then
               d ← strcmp (mptr (buffered_line sh) p_input_line)
                     (mptr (buffered_line sh) (line_addr sh former_index));
               Some (negb (d =? 0))
             else Some false);
  let sh := if (differs : bool)
            then sh⟨input_line_active := (input_line_active sh + 1) mod MAX_BUFFERED_CMDS⟩
            else sh in
  let sh := sh⟨to_select_index := input_line_active sh⟩ in
  '(status, sh, w) ← shell_process_cmd stack above p_input_line sh w;
  m ← memset (buffered_line sh) (active_addr sh) 0 (SHELL_CMD_MAX_LEN + 1);
  Some (status, sh⟨buffered_line := m⟩, w).

Definition SHELL_PROMPT_STR : list Z := [65; 67; 82; 78; 58; 92; 62; 0].

(** One kick of the console timer; [is_cmd_cmplt] is a static variable. *)
Definition shell_kick (stack : Z) (above : list Z) (is_cmd_cmplt : bool) (sh : shell) (w : W)
    : option (bool * shell * W) :=
  sh ← (if is_cmd_cmplt then shell_puts SHELL_PROMPT_STR sh else Some sh);
  '(done, sh) ← shell_input_line sh;
  if (done : bool) then
    '(_, sh, w) ← shell_process stack above sh w; Some (done, sh, w)
  else Some (done, sh, w).

Definition shell_init (sh : shell) : option shell :=
  let sh := sh⟨to_select_index := 0⟩ in
  m ← memset (buffered_line sh) (active_addr sh) 0 (SHELL_CMD_MAX_LEN + 1);
  Some sh⟨buffered_line := m⟩.
End editor.

(** ** The terminal

    The row of the terminal the cursor is in: the characters before the cursor and
    those from it on.  A backspace only moves the cursor. *)

Definition row : Type := list Z * list Z.

Definition term_char (t : row) (c : Z) : row :=
  let (l, r) := t in
  if c =? 8 then
    match last l with
    | Some x => (removelast l, x :: r)
    | None => t
    end
  else (l ++ [c], tail r).

Definition display (out : list Z) (t : row) : row := fold_left term_char out t.

Definition printable (c : Z) : Prop := 32 ≤ c ≤ 126.

Lemma display_app o1 o2 t : display (o1 ++ o2) t = display o2 (display o1 t).
Proof. apply fold_left_app. Qed.

Lemma display_text s l r : Forall printable s → display s (l, r) = (l ++ s, drop (length s) r).
Proof.
  intros Hs. revert l r. induction Hs as [|c s Hc _ IH]; intros l r.
  - by rewrite app_nil_r.
  - unfold display in *. cbn [fold_left term_char].
    replace (c =? 8) with false by (symmetry; apply Z.eqb_neq; unfold printable in Hc; lia).
    rewrite IH, <- app_assoc. f_equal. destruct r; simpl; by rewrite ?drop_nil.
Qed.

Lemma display_backspaces n l k r :
  length k = n → display (replicate n 8) (l ++ k, r) = (l, k ++ r).
Proof.
  revert k r. induction n as [|n IH]; intros k r Hk.
  - destruct k; [|done]. by rewrite app_nil_r.
  - destruct k as [|x k _] using rev_ind; [done|]. rewrite length_app in Hk. simpl in Hk.
    unfold display in *. cbn [replicate fold_left term_char]. change (8 =? 8) with true. cbv iota.
    rewrite app_assoc, last_snoc, removelast_last, IH by lia. by rewrite <- app_assoc.
Qed.

(** [" \b"] blanks the cell of the cursor. *)
Lemma display_bs l x r : display [8] (l ++ [x], r) = (l, x :: r).
Proof. apply (display_backspaces 1 l [x] r). done. Qed.

Lemma display_space_bs l r : display [32; 8] (l, r) = (l, 32 :: tail r).
Proof. change (display [8] (l ++ [32], tail r) = (l, 32 :: tail r)). apply display_bs. Qed.

(** ** What the output routines send *)

Lemma crlf_plain l : Forall (λ c, c ≠ 10) l → crlf l = l.
Proof.
  induction 1 as [|c l Hc _ IH]; [done|]. unfold crlf in *. simpl. rewrite IH. by zcmp.
Qed.

Lemma printable_plain l : Forall printable l → Forall (λ c, c ≠ 10) l.
Proof. intros H. eapply Forall_impl; [done|]. unfold printable. intros c ?. simpl. lia. Qed.

Lemma shell_puts_ok s l sh :
  is_str s l → Forall (λ c, c ≠ 10) l → (length l ≤ 100)%nat →
  shell_puts s sh = Some sh⟨scr := scr sh ++ l⟩.
Proof.
  intros Hs Hl Hlen. unfold shell_puts. rewrite (strnlen_s_str s l) by done.
  cbn [mbind option_bind]. rewrite Z.min_r by (change SHELL_STRING_MAX_LEN with 16384; lia).
  unfold console_write, uart16550_puts. rewrite Nat2Z.id, puts_loop_ok.
  - cbn [mbind option_bind]. by rewrite (take_str s l), firstn_all, crlf_plain by (done || lia).
  - destruct Hs as (r & -> & _). rewrite length_app. lia.
Qed.

Lemma shell_puts_bs sh : shell_puts BS sh = Some sh⟨scr := scr sh ++ [8]⟩.
Proof. apply shell_puts_ok; [by exists []; repeat constructor|by repeat constructor|simpl; lia]. Qed.
Lemma shell_puts_space_bs sh : shell_puts SPACE_BS sh = Some sh⟨scr := scr sh ++ [32; 8]⟩.
Proof. apply shell_puts_ok; [by exists []; repeat constructor|by repeat constructor|simpl; lia]. Qed.

(** The UART adds a carriage return to the one of the string. *)
Lemma shell_puts_crlf sh : shell_puts CRLF sh = Some sh⟨scr := (scr sh ++ [13]) ++ [13; 10]⟩.
Proof. done. Qed.

Lemma set_cursor_pos_ok n sh :
  set_cursor_pos n sh = Some sh⟨scr := scr sh ++ replicate (Z.to_nat n) 8⟩.
Proof.
  unfold set_cursor_pos. generalize (Z.to_nat n) as k. intros k. revert sh.
  induction k as [|k IH]; intros sh; cbn [cursor_loop].
  - simpl. rewrite app_nil_r. by destruct sh.
  - rewrite shell_puts_bs. cbn [mbind option_bind]. rewrite IH.
    unfold upd. simpl. by rewrite <- app_assoc.
Qed.

(** ** The line being edited

    A line holds the characters [l], followed by zeros. *)

Record line_holds (m : mem) (p : Z) (l : list Z) : Prop := {
  lh_base : 0 < mbase m;
  lh_mem : in_mem m p 101;
  lh_line : ∃ rest, mptr m p = l ++ replicate (101 - length l) 0 ++ rest;
  lh_chars : Forall printable l;
  lh_fits : (length l ≤ 100)%nat }.

(** The active line holds the text before the cursor, [b], and the text after it,
    [a]; the row of the terminal shows the same after what was there, [pre]. *)
Record editing (t0 : row) (pre : list Z) (sh : shell) (b a : list Z) : Prop := {
  ed_line : line_holds (buffered_line sh) (active_addr sh) (b ++ a);
  ed_len : input_line_len sh = Z.of_nat (length b + length a);
  ed_cursor : cursor_offset sh = Z.of_nat (length b);
  ed_row : ∃ k, display (scr sh) t0 = (pre ++ b, a ++ replicate k 32) }.

Lemma inserts_middle (x y z l : list Z) i :
  length x = i → length l = length y → list_inserts i l (x ++ y ++ z) = x ++ l ++ z.
Proof.
  intros <- Hl. rewrite <- (Nat.add_0_r (length x)), list_inserts_app_r.
  by rewrite list_inserts_0_r.
Qed.

Lemma mptr_write_at m p i l :
  mbase m ≤ p → in_mem m p i → 0 ≤ i →
  mptr (write m (p + i) l) p = list_inserts (Z.to_nat i) l (mptr m p).
Proof.
  intros Hp [_ Hin] Hi. unfold mptr. simpl. zcmp.
  rewrite <- (take_drop (Z.to_nat (p - mbase m)) (mbytes m)) at 1.
  set (n := Z.to_nat (p - mbase m)).
  assert (length (take n (mbytes m)) = n) as Hn by (rewrite length_take; lia).
  replace (Z.to_nat (p + i - mbase m)) with (length (take n (mbytes m)) + Z.to_nat i)%nat by lia.
  rewrite list_inserts_app_r, drop_app_length' by done. done.
Qed.

(** The text from the [i]-th character on is a string. *)
Lemma line_holds_str m p l (i : nat) :
  line_holds m p l → (i ≤ length l)%nat → is_str (mptr m (p + Z.of_nat i)) (drop i l).
Proof.
  intros [Hb Hm [rest Hl] Hc Hf] Hi. rewrite <- drop_mptr, Hl by apply Hm.
  exists (replicate (100 - length l) 0 ++ rest). split.
  - rewrite drop_app_le by lia. f_equal.
    by replace (101 - length l)%nat with (S (100 - length l)) by lia.
  - apply Forall_drop. eapply Forall_impl; [done|]. unfold printable. intros c ?. simpl. lia.
Qed.

Lemma puts_at_ok sh p l (i : nat) :
  line_holds (buffered_line sh) p l → (i ≤ length l)%nat →
  shell_puts_at (p + Z.of_nat i) sh = Some sh⟨scr := scr sh ++ drop i l⟩.
Proof.
  intros Hl Hi. unfold shell_puts_at. apply shell_puts_ok.
  - by apply line_holds_str.
  - apply printable_plain, Forall_drop, Hl.
  - rewrite length_drop. pose proof (lh_fits _ _ _ Hl). lia.
Qed.

(** An address inside a line is in memory. *)
Ltac in_line :=
  simpl; rewrite ?in_mem_write; first [done | lia | eapply in_mem_le; [eassumption|lia]].

(** Opening a gap at the cursor and filling it. *)
Lemma line_insert m p b a ch :
  line_holds m p (b ++ a) → (length b + length a < 100)%nat → printable ch →
  line_holds (write (write m (p + (Z.of_nat (length b) + 1)) a) (p + Z.of_nat (length b)) [ch])
    p (b ++ ch :: a).
Proof.
  intros [Hb Hm [rest Hl] Hc Hf] Hlen Hch. rewrite length_app in *.
  assert (mbase m ≤ p) as Hp by apply Hm.
  split; [done|by rewrite !in_mem_write| | |rewrite length_app; simpl; lia].
  - exists rest.
    rewrite mptr_write_at by in_line.
    rewrite mptr_write_at by in_line.
    rewrite Hl. replace (101 - (length b + length a))%nat
      with (S (101 - length (b ++ ch :: a))) by (rewrite length_app; simpl; lia).
    simpl replicate. rewrite <- app_assoc. simpl.
    assert (∃ x y, a ++ [0] = x :: y ∧ length y = length a) as (x & y & Exy & Hy).
    { destruct a as [|x a]; [by exists 0, []|]. exists x, (a ++ [0]). split; [done|].
      rewrite length_app. simpl. lia. }
    set (zs := replicate _ 0).
    replace (a ++ 0 :: zs ++ rest) with ([x] ++ y ++ zs ++ rest)
      by (change (0 :: zs ++ rest) with ([0] ++ zs ++ rest); by rewrite (app_assoc a [0]), Exy).
    rewrite (app_assoc b [x]), (inserts_middle (b ++ [x]) y _ a);
      [|rewrite length_app; simpl; lia|done].
    pose proof (inserts_middle b [x] (a ++ zs ++ rest) [ch] _ eq_refl eq_refl) as Hi.
    rewrite <- !app_assoc, Nat2Z.id. exact Hi.
  - apply Forall_app in Hc as [??]. apply Forall_app. split; [done|by constructor].
Qed.

(** Closing the gap that a character leaves. *)
Lemma line_remove m p b x a :
  line_holds m p (b ++ x :: a) →
  line_holds (write (write m (p + Z.of_nat (length b)) a)
                (p + Z.of_nat (length b + length a)) [0]) p (b ++ a).
Proof.
  intros [Hb Hm [rest Hl] Hc Hf]. rewrite length_app in *. simpl in Hf.
  assert (mbase m ≤ p) as Hp by apply Hm.
  split; [done|by rewrite !in_mem_write| | |rewrite length_app; lia].
  - exists rest.
    rewrite mptr_write_at by in_line.
    rewrite mptr_write_at by in_line.
    rewrite Hl. simpl length.
    assert (∃ y z, x :: a = y ++ [z] ∧ length y = length a) as (y & z & Exy & Hy).
    { destruct a as [|z a _] using rev_ind; [by exists [], x|]. exists (x :: a), z.
      split; [done|]. rewrite length_app. simpl. lia. }
    rewrite Exy, <- !app_assoc, !Nat2Z.id, (inserts_middle b y _ a) by done.
    rewrite (app_assoc b a), (inserts_middle (b ++ a) [z] _ [0]);
      [|by rewrite length_app|done].
    rewrite <- app_assoc. do 2 f_equal. rewrite length_app.
    replace (101 - (length b + length a))%nat with (S (101 - (length b + S (length a))))%nat by lia.
    done.
  - apply Forall_app in Hc as [? Hc%Forall_inv_tail]. apply Forall_app. done.
Qed.

#[local] Arguments shell_puts : simpl never.
#[local] Arguments shell_puts_at : simpl never.
#[local] Arguments set_cursor_pos : simpl never.
#[local] Arguments store_line : simpl never.
#[local] Arguments memcpy_erms : simpl never.
#[local] Arguments active_addr : simpl never.

Lemma store_line_ok p v sh :
  in_mem (buffered_line sh) p 1 →
  store_line p v sh = Some sh⟨buffered_line := write (buffered_line sh) p [v]⟩.
Proof. intros. unfold store_line. by rewrite store_write. Qed.

Lemma memcpy_erms_ok d s n sh :
  0 ≤ n → in_mem (buffered_line sh) d n → in_mem (buffered_line sh) s n → d ≤ s →
  memcpy_erms d s n sh = Some sh⟨buffered_line :=
    write (buffered_line sh) d (take (Z.to_nat n) (mptr (buffered_line sh) s))⟩.
Proof. intros. unfold memcpy_erms. rewrite memcpy_ok; auto. Qed.

Section edits.
Context (t0 : row) (pre : list Z).
Implicit Types (sh : shell) (a b : list Z).

(** *** The keys that move the cursor *)

Lemma editing_move sh sh' b a b' a' :
  editing t0 pre sh b a →
  buffered_line sh' = buffered_line sh → input_line_active sh' = input_line_active sh →
  input_line_len sh' = input_line_len sh → cursor_offset sh' = Z.of_nat (length b') →
  b' ++ a' = b ++ a → (∃ k, display (scr sh') t0 = (pre ++ b', a' ++ replicate k 32)) →
  editing t0 pre sh' b' a'.
Proof.
  intros [Hl Hn Hcur _] Eb Ea El Ec Et Hr.
  assert (active_addr sh' = active_addr sh) as Ead by (unfold active_addr, line_addr; congruence).
  split; rewrite ?Eb, ?Ead, ?Et, ?El; try done.
  by rewrite Hn, <- !length_app, Et.
Qed.

(** A state that differs from an edited one in what the row shows. *)
Ltac moved Hed := eapply editing_move; [exact Hed|done|done|done| | |].

(** Printing the text after the cursor and going back over [x]. *)
Lemma row_reprint sh b a y x :
  editing t0 pre sh b a → a = y ++ x →
  ∃ k, display (scr sh ++ a ++ replicate (length x) 8) t0
         = (pre ++ b ++ y, x ++ replicate k 32).
Proof.
  intros [[_ _ _ Hc _] _ _ [k Hr]] ->. exists k. rewrite display_app, Hr.
  apply Forall_app in Hc as [_ Hc].
  rewrite display_app, display_text, drop_app_length by done.
  rewrite !app_assoc, display_backspaces by done. done.
Qed.

Lemma left_ok sh b x a :
  editing t0 pre sh (b ++ [x]) a →
  ∃ sh', shell_puts BS sh⟨cursor_offset := cursor_offset sh - 1⟩ = Some sh' ∧
         inp sh' = inp sh ∧ editing t0 pre sh' b (x :: a).
Proof.
  intros Hed. rewrite shell_puts_bs. eexists. split; [done|]. split; [done|]. moved Hed.
  - simpl. rewrite (ed_cursor _ _ _ _ _ Hed), length_app. simpl. lia.
  - by rewrite <- app_assoc.
  - destruct (ed_row _ _ _ _ _ Hed) as [k Hr]. exists k. simpl.
    by rewrite display_app, Hr, app_assoc, display_bs.
Qed.

Lemma right_ok sh b x a :
  editing t0 pre sh b (x :: a) →
  ∃ sh', (sh ← shell_puts_at (active_addr sh + cursor_offset sh) sh;
          let sh := sh⟨cursor_offset := cursor_offset sh + 1⟩ in
          set_cursor_pos (input_line_len sh - cursor_offset sh) sh) = Some sh' ∧
         inp sh' = inp sh ∧ editing t0 pre sh' (b ++ [x]) a.
Proof.
  intros Hed. pose proof (ed_cursor _ _ _ _ _ Hed) as Hcur. rewrite Hcur.
  rewrite (puts_at_ok sh _ _ (length b) (ed_line _ _ _ _ _ Hed)) by (rewrite length_app; lia). cbn [mbind option_bind].
  rewrite set_cursor_pos_ok. eexists. split; [done|]. split; [done|]. moved Hed.
  - simpl. rewrite Hcur, length_app. simpl. lia.
  - by rewrite <- app_assoc.
  - simpl. rewrite Hcur, (ed_len _ _ _ _ _ Hed), drop_app_length, <- app_assoc.
    destruct (row_reprint sh b (x :: a) [x] a Hed eq_refl) as [k Hk]. exists k.
    rewrite <- Hk. do 4 f_equal. simpl. lia.
Qed.

Lemma end_ok sh b a :
  editing t0 pre sh b a →
  ∃ sh', (sh ← shell_puts_at (active_addr sh + cursor_offset sh) sh;
          Some sh⟨cursor_offset := input_line_len sh⟩) = Some sh' ∧
         inp sh' = inp sh ∧ editing t0 pre sh' (b ++ a) [].
Proof.
  intros Hed. rewrite (ed_cursor _ _ _ _ _ Hed).
  rewrite (puts_at_ok sh _ _ (length b) (ed_line _ _ _ _ _ Hed)) by (rewrite length_app; lia). cbn [mbind option_bind].
  eexists. split; [done|]. split; [done|]. moved Hed.
  - simpl. by rewrite (ed_len _ _ _ _ _ Hed), length_app.
  - by rewrite app_nil_r.
  - simpl. rewrite drop_app_length. destruct (row_reprint sh b a a [] Hed) as [k Hk];
      [by rewrite app_nil_r|]. exists k. simpl in Hk |- *. by rewrite <- Hk, app_nil_r.
Qed.

Lemma home_ok sh b a :
  editing t0 pre sh b a →
  ∃ sh', (sh ← set_cursor_pos (cursor_offset sh) sh; Some sh⟨cursor_offset := 0⟩) = Some sh' ∧
         inp sh' = inp sh ∧ editing t0 pre sh' [] (b ++ a).
Proof.
  intros Hed. rewrite set_cursor_pos_ok. cbn [mbind option_bind].
  eexists. split; [done|]. split; [done|]. moved Hed; [done|done|].
  destruct (ed_row _ _ _ _ _ Hed) as [k Hr]. exists k. simpl.
  rewrite display_app, Hr, (ed_cursor _ _ _ _ _ Hed), Nat2Z.id, display_backspaces by done.
  by rewrite app_nil_r, app_assoc.
Qed.
(** *** The keys that change the text *)

Lemma open_gap sh b a :
  editing t0 pre sh b a →
  (if 0 <? input_line_len sh - cursor_offset sh then
     m ← memcpy_erms_backwards (buffered_line sh) (active_addr sh + input_line_len sh)
           (active_addr sh + input_line_len sh - 1) (input_line_len sh - cursor_offset sh);
     Some sh⟨buffered_line := m⟩
   else Some sh)
  = Some sh⟨buffered_line :=
      write (buffered_line sh) (active_addr sh + (Z.of_nat (length b) + 1)) a⟩.
Proof.
  intros [[Hb Hm [rest Hl] _ Hf] Hn Hcur _]. rewrite Hn, Hcur. rewrite length_app in Hf.
  replace (Z.of_nat (length b + length a) - Z.of_nat (length b)) with (Z.of_nat (length a)) by lia.
  destruct (Z.ltb_spec 0 (Z.of_nat (length a))) as [Ha|Ha].
  - unfold memcpy_erms_backwards. destruct Hm as [Hm1 Hm2].
    rewrite Nat2Z.id, memcpy_backwards_loop_ok; [|split; lia|split; lia|lia].
    cbn [mbind option_bind].
    replace (active_addr sh + Z.of_nat (length b + length a) - Z.of_nat (length a) + 1)
      with (active_addr sh + (Z.of_nat (length b) + 1)) by lia.
    replace (active_addr sh + Z.of_nat (length b + length a) - 1 - Z.of_nat (length a) + 1)
      with (active_addr sh + Z.of_nat (length b)) by lia.
    rewrite <- drop_mptr, Hl by done. rewrite <- !app_assoc, drop_app_length.
    by rewrite take_app_length.
  - destruct a; [|simpl in Ha; lia]. rewrite write_nil. by destruct sh.
Qed.

Lemma insert_ok sh b a ch :
  editing t0 pre sh b a → (length b + length a < 100)%nat → printable ch →
  ∃ sh', handle_input_char memcpy_erms_backwards ch sh = Some sh' ∧
         inp sh' = inp sh ∧ editing t0 pre sh' (b ++ [ch]) a.
Proof.
  intros Hed Hlen Hch. pose proof Hed as [Hl Hn Hcur [k Hr]]. pose proof Hl as [Hb Hm _ Hc Hf].
  unfold handle_input_char. cbv zeta. rewrite (open_gap sh b a Hed). cbn [mbind option_bind].
  pose proof (line_insert _ _ b a ch Hl Hlen Hch) as Hl'.
  rewrite store_line_ok by (apply in_mem_write; destruct Hm; split; cbn; lia).
  cbn -[write]. rewrite Hcur.
  set (sh1 := _⟨buffered_line := write (write _ _ _) _ _⟩).
  rewrite (puts_at_ok sh1 _ _ (length b) Hl') by (rewrite length_app; lia).
  cbn [mbind option_bind]. rewrite set_cursor_pos_ok. cbn [mbind option_bind].
  eexists. split; [done|]. split; [done|]. split; cbn.
  - rewrite <- (app_assoc b [ch] a). exact Hl'.
  - rewrite Hn, length_app. simpl. lia.
  - rewrite Hcur, length_app. simpl. lia.
  - exists (k - 1)%nat. rewrite Hn, drop_app_length, <- app_assoc, !display_app, Hr.
    apply Forall_app in Hc as [_ Hc]. rewrite display_text by (by constructor).
    change (ch :: a) with ([ch] ++ a). rewrite !app_assoc, display_backspaces by (simpl; lia).
    f_equal. rewrite length_app. f_equal.
    rewrite Nat.add_comm, <- drop_drop, drop_app_length, drop_replicate. done.
Qed.

(** Blanking a character, printing the rest of the line over it and going back. *)
Lemma row_remove l x a k :
  Forall printable a →
  display ([32; 8] ++ a ++ [32; 8] ++ replicate (length a) 8) (l, x :: a ++ replicate k 32)
    = (l, a ++ replicate (S k) 32).
Proof.
  intros Ha. rewrite display_app, display_space_bs, display_app, display_text by done.
  rewrite display_app, display_space_bs, display_backspaces by done. cbn [tail].
  assert (∀ n (l : list Z), tail (drop n l) = drop (S n) l) as ->.
  { clear. induction n as [|n IH]; intros [|y l]; simpl; auto. }
  cbn [drop replicate]. by rewrite drop_app_length.
Qed.

(** The text after the cursor, in memory. *)
Lemma text_after m p b a : line_holds m p (b ++ a) →
  take (length a) (mptr m (p + Z.of_nat (length b))) = a.
Proof.
  intros [_ Hm [rest Hl] _ _]. rewrite <- drop_mptr, Hl by apply Hm.
  by rewrite <- !app_assoc, drop_app_length, take_app_length.
Qed.

Lemma delete_ok sh b x a :
  editing t0 pre sh b (x :: a) →
  ∃ sh', handle_delete_key sh = Some sh' ∧ inp sh' = inp sh ∧ editing t0 pre sh' b a.
Proof.
  intros [Hl Hn Hcur [k Hr]]. pose proof Hl as [Hb Hm _ Hc Hf].
  rewrite length_app in Hf. simpl in Hf, Hn.
  assert (line_holds (buffered_line sh) (active_addr sh) ((b ++ [x]) ++ a)) as Hl2
    by (by rewrite <- app_assoc).
  unfold handle_delete_key. rewrite Hn, Hcur.
  replace (Z.of_nat (length b) <? Z.of_nat (length b + S (length a))) with true
    by (symmetry; apply Z.ltb_lt; lia).
  cbv zeta. rewrite shell_puts_space_bs. cbn [mbind option_bind].
  replace (active_addr sh + Z.of_nat (length b) + 1)
    with (active_addr sh + Z.of_nat (length (b ++ [x]))) by (rewrite length_app; simpl; lia).
  set (sh1 := sh⟨scr := _⟩).
  rewrite (puts_at_ok sh1 _ _ (length (b ++ [x])) Hl2) by (rewrite (length_app (b ++ [x])); lia).
  cbn [mbind option_bind]. rewrite shell_puts_space_bs. cbn [mbind option_bind].
  rewrite set_cursor_pos_ok. cbn [mbind option_bind].
  destruct Hm as [Hm1 Hm2].
  rewrite memcpy_erms_ok by (lia || (rewrite ?length_app; cbn; split; lia) || (rewrite length_app; lia)).
  cbn -[write take drop replicate display]. rewrite drop_app_length.
  replace (Z.to_nat (Z.of_nat (length b + S (length a)) - Z.of_nat (length b) - 1))
    with (length a) by lia.
  rewrite (text_after _ _ (b ++ [x]) a Hl2).
  rewrite store_line_ok by (cbn -[write]; apply in_mem_write; change (active_addr _) with (active_addr sh); split; lia).
  cbn -[write take drop replicate display]. eexists. split; [done|]. split; [done|].
  split; cbn -[write take drop replicate display].
  - pose proof (line_remove _ _ b x a Hl) as Hl'.
    replace (active_addr sh + Z.of_nat (length b + length a))
      with (active_addr sh + input_line_len sh - 1) in Hl' by lia. exact Hl'.
  - lia.
  - done.
  - exists (S k). rewrite <- !app_assoc. rewrite display_app, Hr.
    apply Forall_app in Hc as [_ Hc%Forall_inv_tail]. by apply row_remove.
Qed.

(** The part of [handle_backspace_key] for a cursor inside the line, or nothing. *)
Lemma close_gap sh b x a :
  line_holds (buffered_line sh) (active_addr sh) ((b ++ [x]) ++ a) →
  input_line_len sh = Z.of_nat (length (b ++ [x]) + length a) →
  cursor_offset sh = Z.of_nat (length (b ++ [x])) →
  ∃ t, (a ≠ [] → t = a ++ [32; 8] ++ replicate (length a) 8) ∧ (a = [] → t = []) ∧
  (if cursor_offset sh <? input_line_len sh then
     sh1 ← shell_puts_at (active_addr sh + cursor_offset sh) sh;
     sh2 ← shell_puts SPACE_BS sh1;
     sh3 ← set_cursor_pos (input_line_len sh - cursor_offset sh) sh2;
     memcpy_erms (active_addr sh + cursor_offset sh - 1) (active_addr sh + cursor_offset sh)
       (input_line_len sh - cursor_offset sh) sh3
   else Some sh)
  = Some sh⟨scr := scr sh ++ t⟩⟨buffered_line :=
      write (buffered_line sh) (active_addr sh + Z.of_nat (length b)) a⟩.
Proof.
  intros Hl Hn Hcur. pose proof Hl as [Hb [Hm1 Hm2] _ _ Hf]. rewrite Hn, Hcur.
  destruct a as [|y a].
  { exists []. split; [done|]. split; [done|].
    replace (Z.of_nat (length (b ++ [x])) <? _) with false
      by (symmetry; apply Z.ltb_ge; simpl; lia).
    rewrite write_nil, app_nil_r. by destruct sh. }
  set (a' := y :: a) in *. exists (a' ++ [32; 8] ++ replicate (length a') 8).
  split; [done|]. split; [done|].
  replace (Z.of_nat (length (b ++ [x])) <? _) with true
    by (symmetry; apply Z.ltb_lt; unfold a'; simpl; lia).
  cbv zeta. rewrite (puts_at_ok sh _ _ _ Hl) by (rewrite (length_app (b ++ [x])); lia).
  cbn [mbind option_bind]. rewrite shell_puts_space_bs. cbn [mbind option_bind].
  rewrite set_cursor_pos_ok. cbn [mbind option_bind].
  rewrite (length_app (b ++ [x])) in Hf. pose proof (length_app b [x]) as Hbx. simpl in Hbx.
  replace (active_addr sh + Z.of_nat (length (b ++ [x])) - 1)
    with (active_addr sh + Z.of_nat (length b)) by lia.
  match goal with |- memcpy_erms _ _ _ ?s = _ => set (sh3 := s) end.
  assert (buffered_line sh3 = buffered_line sh) as Eb by done.
  replace (Z.of_nat (length (b ++ [x]) + length a') - Z.of_nat (length (b ++ [x])))
    with (Z.of_nat (length a')) by lia.
  rewrite memcpy_erms_ok by (rewrite ?Eb; first [lia | split; lia]).
  rewrite Eb, Nat2Z.id, (text_after _ _ (b ++ [x]) a' Hl).
  subst sh3. unfold upd. cbn -[write take drop replicate app].
  rewrite drop_app_length, <- !app_assoc. do 5 f_equal. f_equal. lia.
Qed.

Lemma backspace_ok sh b x a :
  editing t0 pre sh (b ++ [x]) a →
  ∃ sh', handle_backspace_key sh = Some sh' ∧ inp sh' = inp sh ∧ editing t0 pre sh' b a.
Proof.
  intros [Hl Hn Hcur [k Hr]]. pose proof Hl as [Hb [Hm1 Hm2] _ Hc Hf].
  pose proof (length_app b [x]) as Hbx. simpl in Hbx. rewrite (length_app (b ++ [x])) in Hf.
  unfold handle_backspace_key.
  replace (0 <? cursor_offset sh) with true by (symmetry; apply Z.ltb_lt; lia).
  rewrite shell_puts_bs. cbn [mbind option_bind]. rewrite shell_puts_space_bs.
  cbn [mbind option_bind]. set (sh1 := _⟨scr := _ ++ [32; 8]⟩).
  destruct (close_gap sh1 b x a Hl Hn Hcur) as (t & Ht1 & Ht2 & ->). cbn [mbind option_bind].
  rewrite store_line_ok by (cbn -[write]; apply in_mem_write; change (active_addr _) with (active_addr sh); split; lia).
  cbn -[write take drop replicate display]. eexists. split; [done|]. split; [done|].
  split; cbn -[write take drop replicate display].
  - rewrite <- app_assoc in Hl. pose proof (line_remove _ _ b x a Hl) as Hl'.
    replace (active_addr sh + Z.of_nat (length b + length a))
      with (active_addr sh + input_line_len sh - 1) in Hl' by lia. exact Hl'.
  - lia.
  - lia.
  - exists (S k). rewrite !display_app, Hr, app_assoc, display_bs, <- display_app.
    destruct a as [|y a].
    + rewrite Ht2, app_nil_r by done. apply display_space_bs.
    + rewrite Ht1 by done. apply Forall_app in Hc as [_ Hc]. by apply row_remove.
Qed.
End edits.

(** ** Keys

    What a key sends, and what it does to the text before and after the cursor. *)

Inductive key := KChar (c : Z) | KBackspace | KDelete | KLeft | KRight | KHome | KEnd | KLineFeed.

Definition key_bytes (k : key) : list Z :=
  match k with
  | KChar c => [c]
  | KBackspace => [8]
  | KDelete => [27; 91; 51; 126]
  | KLeft => [27; 91; 68]
  | KRight => [27; 91; 67]
  | KHome => [27; 91; 72]
  | KEnd => [27; 91; 70]
  | KLineFeed => [10]
  end.

Definition valid_key (k : key) : Prop := match k with KChar c => printable c | _ => True end.

Definition edit (k : key) (t : list Z * list Z) : list Z * list Z :=
  let (b, a) := t in
  match k with
  | KChar c => (b ++ [c], a)
  | KBackspace => (removelast b, a)
  | KDelete => (b, tail a)
  | KLeft => match last b with Some x => (removelast b, x :: a) | None => t end
  | KRight => match a with x :: a' => (b ++ [x], a') | [] => t end
  | KHome => ([], b ++ a)
  | KEnd => (b ++ a, [])
  | KLineFeed => t
  end.

Definition text_len (t : list Z * list Z) : nat := (length t.1 + length t.2)%nat.

Lemma length_removelast (b : list Z) : (length (removelast b) ≤ length b)%nat.
Proof.
  destruct b as [|x b _] using rev_ind; [done|]. rewrite removelast_last, length_app. lia.
Qed.

Lemma edit_length k t : (text_len (edit k t) ≤ S (text_len t))%nat.
Proof.
  destruct t as [b a]. unfold text_len. destruct k; simpl; rewrite ?length_app; simpl; try lia.
  - pose proof (length_removelast b). lia.
  - destruct a; simpl; lia.
  - destruct b as [|x b _] using rev_ind; [simpl; lia|].
    rewrite last_snoc, removelast_last, length_app. simpl. lia.
  - destruct a; simpl; rewrite ?length_app; simpl; lia.
Qed.

Section typing.
Context `{CharAbi} (t0 : row) (pre : list Z).
Notation input_line := (shell_input_line memcpy_erms_backwards).
Notation special := (shell_handle_special_char).

Lemma editing_inp sh b a l : editing t0 pre sh b a → editing t0 pre sh⟨inp := l⟩ b a.
Proof. by intros [????]. Qed.

Lemma before_cases b : b = [] ∨ ∃ b' (x : Z), b = b' ++ [x].
Proof. destruct b using rev_ind; eauto. Qed.

(** The handler of an escape sequence, once its bytes are read. *)
Definition escape_handler (k : key) (sh : shell) : option shell :=
  match k with
  | KDelete => handle_delete_key sh
  | KRight =>
      if cursor_offset sh <? input_line_len sh then
        sh ← shell_puts_at (active_addr sh + cursor_offset sh) sh;
        let sh := sh⟨cursor_offset := cursor_offset sh + 1⟩ in
        set_cursor_pos (input_line_len sh - cursor_offset sh) sh
      else Some sh
  | KLeft =>
      if 0 <? cursor_offset sh then
        shell_puts BS sh⟨cursor_offset := cursor_offset sh - 1⟩
      else Some sh
  | KEnd =>
      if cursor_offset sh <? input_line_len sh then
        sh ← shell_puts_at (active_addr sh + cursor_offset sh) sh;
        Some sh⟨cursor_offset := input_line_len sh⟩
      else Some sh
  | KHome =>
      if 0 <? cursor_offset sh then
        sh ← set_cursor_pos (cursor_offset sh) sh;
        Some sh⟨cursor_offset := 0⟩
      else Some sh
  | _ => Some sh
  end.

Lemma escape_read sh k rest :
  input_line_len sh < 100 → key_bytes k = 27 :: tail (key_bytes k) →
  inp sh = key_bytes k ++ rest → valid_key k →
  input_line sh = sh' ← escape_handler k sh⟨inp := rest⟩; Some (false, sh').
Proof.
  intros Hn Hk Hin Hv. unfold shell_input_line, shell_getc.
  assert ((input_line_len sh <? SHELL_CMD_MAX_LEN) = true) as Hlt by (by apply Z.ltb_lt).
  destruct sh as [m n act sel cur i out]. cbn in Hn, Hin, Hlt. subst i.
  destruct k as [c| | | | | | |]; try discriminate Hk.
  { injection Hk as ->. unfold valid_key, printable in Hv. lia. }
  all: cbn [key_bytes app inp mbind option_bind].
  all: cbn -[shell_handle_special_char escape_handler SHELL_CMD_MAX_LEN Z.ltb].
  all: rewrite Hlt; reflexivity.
Qed.

Lemma escape_ok sh b a k :
  editing t0 pre sh b a → key_bytes k = 27 :: tail (key_bytes k) → valid_key k →
  ∃ sh', escape_handler k sh = Some sh' ∧ inp sh' = inp sh ∧
         editing t0 pre sh' (edit k (b, a)).1 (edit k (b, a)).2.
Proof.
  intros Hed Hk Hv. pose proof (ed_len _ _ _ _ _ Hed) as Hn.
  pose proof (ed_cursor _ _ _ _ _ Hed) as Hcur. unfold escape_handler. rewrite Hn, Hcur.
  destruct k as [c| | | | | | |]; try discriminate Hk; cbn [edit fst snd].
  { injection Hk as ->. unfold valid_key, printable in Hv. lia. }
  - destruct a as [|x a]; [|by eapply delete_ok].
    unfold handle_delete_key. rewrite Hn, Hcur, Nat.add_0_r, Z.ltb_irrefl. eauto.
  - destruct (before_cases b) as [->|(b' & x & ->)].
    + eauto.
    + rewrite last_snoc, removelast_last.
      replace (0 <? _) with true by (symmetry; apply Z.ltb_lt; rewrite length_app; simpl; lia).
      rewrite <- Hcur. by eapply left_ok.
  - destruct a as [|x a]; [rewrite Nat.add_0_r, Z.ltb_irrefl; eauto|].
    replace (_ <? _) with true by (symmetry; apply Z.ltb_lt; simpl; lia). rewrite <- Hcur.
    by eapply right_ok.
  - destruct (before_cases b) as [->|(b' & x & ->)].
    + eauto.
    + replace (0 <? _) with true by (symmetry; apply Z.ltb_lt; rewrite length_app; simpl; lia).
      rewrite <- Hcur. by apply home_ok.
  - destruct a as [|x a].
    + rewrite Nat.add_0_r, Z.ltb_irrefl, app_nil_r. eauto.
    + replace (_ <? _) with true by (symmetry; apply Z.ltb_lt; simpl; lia). rewrite <- Hcur.
      by apply end_ok.
Qed.

Lemma char_ok sh b a c rest :
  editing t0 pre sh b a → (length b + length a < 100)%nat → printable c →
  inp sh = c :: rest →
  ∃ sh', input_line sh = Some (false, sh') ∧ inp sh' = rest ∧ editing t0 pre sh' (b ++ [c]) a.
Proof.
  intros Hed Hlen Hc Hin. pose proof (ed_len _ _ _ _ _ Hed) as Hn.
  unfold shell_input_line, shell_getc. rewrite Hin. cbn [mbind option_bind].
  set (sh1 := sh⟨inp := rest⟩).
  assert (editing t0 pre sh1 b a) as Hed1 by (by apply editing_inp).
  destruct (insert_ok t0 pre sh1 b a c Hed1 Hlen Hc) as (sh' & Hi & Hinp & Hed').
  unfold printable in Hc. cbv zeta.
  replace (c =? 8) with false by (symmetry; apply Z.eqb_neq; lia).
  replace (c =? 13) with false by (symmetry; apply Z.eqb_neq; lia).
  replace (c =? 10) with false by (symmetry; apply Z.eqb_neq; lia).
  change (input_line_len sh1) with (input_line_len sh).
  replace (input_line_len sh <? SHELL_CMD_MAX_LEN) with true
    by (symmetry; apply Z.ltb_lt; unfold SHELL_CMD_MAX_LEN; lia).
  replace ((32 <=? c) && (c <=? 126)) with true by (by zcmp).
  rewrite Hi. cbn [mbind option_bind]. eauto.
Qed.

Lemma key_ok sh b a k rest :
  editing t0 pre sh b a → (length b + length a < 100)%nat → valid_key k →
  inp sh = key_bytes k ++ rest →
  ∃ sh', input_line sh = Some (false, sh') ∧ inp sh' = rest ∧
         editing t0 pre sh' (edit k (b, a)).1 (edit k (b, a)).2.
Proof.
  intros Hed Hlen Hk Hin. pose proof (ed_len _ _ _ _ _ Hed) as Hn.
  assert (editing t0 pre sh⟨inp := rest⟩ b a) as Hed1 by (by apply editing_inp).
  destruct (decide (key_bytes k = 27 :: tail (key_bytes k))) as [He|He].
  { rewrite (escape_read sh k rest) by (done || lia).
    destruct (escape_ok _ b a k Hed1 He Hk) as (sh' & -> & ? & ?). eauto. }
  destruct k as [c| | | | | | |]; try (by destruct He).
  - by apply char_ok.
  - unfold shell_input_line, shell_getc. rewrite Hin. cbn [key_bytes app mbind option_bind].
    change (8 =? 8) with true. cbv iota zeta. cbn [edit fst snd].
    destruct (before_cases b) as [->|(b' & x & ->)].
    + unfold handle_backspace_key. cbn [removelast].
      replace (0 <? _) with false by (symmetry; apply Z.ltb_ge; by rewrite (ed_cursor _ _ _ _ _ Hed1)).
      cbn [mbind option_bind]. eauto.
    + rewrite removelast_last. destruct (backspace_ok t0 pre _ b' x a Hed1) as (sh' & -> & ? & ?).
      cbn [mbind option_bind]. eauto.
  - unfold shell_input_line, shell_getc. rewrite Hin. cbn [key_bytes app mbind option_bind].
    change (10 =? 8) with false. change (10 =? 13) with false. change (10 =? 10) with true.
    cbv iota zeta. eauto.
Qed.
End typing.

(** Calls of [shell_input_line], none of which ends the line. *)
Fixpoint input_run `{CharAbi} (copy : mem → Z → Z → Z → option mem) (n : nat) (sh : shell)
    : option shell :=
  match n with
  | O => Some sh
  | S n' =>
      '(fin, sh) ← shell_input_line copy sh;
      if (fin : bool) then None else input_run copy n' sh
  end.

Lemma input_run_ok `{CharAbi} t0 pre sh ks t rest :
  editing t0 pre sh t.1 t.2 → Forall valid_key ks → (text_len t + length ks ≤ 100)%nat →
  inp sh = mjoin (key_bytes <$> ks) ++ rest →
  let t' := fold_left (λ t k, edit k t) ks t in
  ∃ sh', input_run memcpy_erms_backwards (length ks) sh = Some sh' ∧ inp sh' = rest ∧
         editing t0 pre sh' t'.1 t'.2.
Proof.
  intros Hed Hv. revert sh t Hed. induction Hv as [|k ks Hk Hv IH]; intros sh t Hed Hlen Hin.
  - exists sh. done.
  - cbn [fmap list_fmap mjoin list_join] in Hin. rewrite <- app_assoc in Hin.
    destruct t as [b a]. cbn [length] in Hlen. unfold text_len in Hlen. cbn [fst snd] in *.
    destruct (key_ok t0 pre sh b a k _ Hed ltac:(lia) Hk Hin) as (sh1 & Hs & Hi & Hed1).
    cbn [length input_run]. rewrite Hs. cbn [mbind option_bind fold_left].
    apply IH; [done| |done]. pose proof (edit_length k (b, a)) as Hl. unfold text_len in *.
    cbn [fst snd] in *. lia.
Qed.

(** C27: The line editor of the shell, with a copy that moves a block up as on x86.
    Typing any keys that insert, delete and move, fewer than the line has room for,
    on an empty line and then return: before the return the row of the terminal
    shows the text that the keys make, with the cursor where they put it, and the
    return ends the line with that text as a string in the active line. *)
Theorem shell_edits_line `{CharAbi} t0 pre sh ks rest :
  editing t0 pre sh [] [] → Forall valid_key ks → (length ks ≤ 100)%nat →
  inp sh = mjoin (key_bytes <$> ks) ++ 13 :: rest →
  let '(b, a) := fold_left (λ t k, edit k t) ks ([], []) in
  ∃ sh1 sh2 k, input_run memcpy_erms_backwards (length ks) sh = Some sh1 ∧
    display (scr sh1) t0 = (pre ++ b, a ++ replicate k 32) ∧
    shell_input_line memcpy_erms_backwards sh1 = Some (true, sh2) ∧ inp sh2 = rest ∧
    is_str (mptr (buffered_line sh2) (active_addr sh2)) (b ++ a).
Proof.
  intros Hed Hv Hlen Hin.
  destruct (input_run_ok t0 pre sh ks ([], []) (13 :: rest) Hed Hv Hlen Hin)
    as (sh1 & Hrun & Hi & Hed1).
  destruct (fold_left _ _ _) as [b a]. cbn [fst snd] in Hed1.
  destruct (ed_row _ _ _ _ _ Hed1) as [k Hrow].
  exists sh1. unfold shell_input_line, shell_getc. rewrite Hi. cbn [mbind option_bind].
  change (13 =? 8) with false. change (13 =? 13) with true. cbv iota zeta.
  rewrite shell_puts_crlf. cbn [mbind option_bind]. eexists _, k. split_and!; [done|done|done|done|].
  pose proof (line_holds_str _ _ _ 0 (ed_line _ _ _ _ _ Hed1) ltac:(lia)) as Hs.
  rewrite Z.add_0_r, drop_0 in Hs. exact Hs.
Qed.

(** An empty line. *)
Definition fresh_shell (input : list Z) : shell :=
  mk_shell (mk_mem 4096 (replicate 808 0)) 0 0 0 0 input [].

Lemma fresh_editing input : editing ([], []) [] (fresh_shell input) [] [].
Proof.
  split; [|done|done|by exists 0%nat]. split; [done|split; by vm_compute| |constructor|simpl; lia].
  exists (replicate 707 0). by vm_compute.
Qed.

(** [ac], left, [b], return. *)
Lemma shell_edits_line_witness :
  ∃ sh1 sh2 k,
    input_run (H := signed_abi) memcpy_erms_backwards 4
      (fresh_shell ([97; 99] ++ [27; 91; 68] ++ [98; 13])) = Some sh1 ∧
    display (scr sh1) ([], []) = ([97; 98], 99 :: replicate k 32) ∧
    shell_input_line (H := signed_abi) memcpy_erms_backwards sh1 = Some (true, sh2) ∧
    inp sh2 = [] ∧
    is_str (mptr (buffered_line sh2) (active_addr sh2)) [97; 98; 99].
Proof.
  apply (shell_edits_line (H := signed_abi) ([], []) []
    (fresh_shell ([97; 99] ++ [27; 91; 68] ++ [98; 13]))
    [KChar 97; KChar 99; KLeft; KChar 98] []).
  - apply fresh_editing.
  - by repeat constructor.
  - simpl. lia.
  - done.
Defined.

(** ** The RISC-V copy

    [memcpy] in place of [memcpy_erms_backwards]: copying upwards to the next byte
    repeats the first byte copied. *)

Lemma memcpy_up_repeats n m d z :
  load m (d - 1) = Some z → in_mem m d (Z.of_nat n) → mbase m ≤ d - 1 →
  memcpy_loop n m d (d - 1) = Some (write m d (replicate n z)).
Proof.
  revert m d. induction n as [|n IH]; intros m d Hz Hin Hb; simpl.
  - by rewrite write_nil.
  - rewrite Hz. cbn [mbind option_bind].
    rewrite store_write by (eapply in_mem_le; [done|lia]). cbn [mbind option_bind].
    replace (d - 1 + 1) with (d + 1 - 1) by lia. rewrite IH.
    + change (z :: replicate n z) with ([z] ++ replicate n z). by rewrite write_app by lia.
    + replace (d + 1 - 1) with d by lia. unfold load.
      pose proof (take_mptr_written m d [z]) as Ht. simpl in Ht.
      destruct (mptr (write m d [z]) d); simpl in *;
        (ospecialize (Ht _); [eapply in_mem_le; [done|lia]|congruence]).
    + apply in_mem_write. destruct Hin. split; lia.
    + simpl. lia.
Qed.

(** The line after the gap is opened by copying upwards and filled. *)
Lemma line_insert_up m p b a z ch :
  line_holds m p (b ++ a ++ [z]) → (length b + 2 * length a + 2 ≤ 100)%nat → printable ch →
  line_holds (write (write m (p + Z.of_nat (length (b ++ a ++ [z])))
                       (replicate (S (length a)) z)) (p + Z.of_nat (length b)) [ch])
    p (b ++ ch :: tail (a ++ [z]) ++ replicate (S (length a)) z).
Proof.
  intros [Hb Hm [rest Hl] Hc Hf] Hlen Hch. assert (mbase m ≤ p) as Hp by apply Hm.
  assert (printable z) as Hz.
  { apply Forall_app in Hc as [_ Hc]. apply Forall_app in Hc as [_ Hc]. by apply Forall_inv in Hc. }
  assert (∃ x y, a ++ [z] = x :: y ∧ length y = length a) as (x & y & Exy & Hy).
  { destruct a as [|x a]; [by exists z, []|]. exists x, (a ++ [z]). split; [done|].
    rewrite length_app. simpl. lia. }
  rewrite Exy in *. cbn [tail]. rewrite length_app in Hf. simpl in Hf.
  assert (length (b ++ ch :: y ++ replicate (S (length a)) z) = length b + 2 * length a + 2)%nat
    as Hlen' by (rewrite length_app; cbn [length]; rewrite length_app, length_replicate; lia).
  split; [done|by rewrite !in_mem_write| | |by rewrite Hlen'].
  - exists rest. rewrite mptr_write_at by in_line.
    rewrite mptr_write_at by (rewrite ?length_app; in_line). rewrite Hl, !Nat2Z.id.
    replace (101 - length (b ++ x :: y))%nat
      with (S (length a) + (101 - length (b ++ ch :: y ++ replicate (S (length a)) z)))%nat
      by (rewrite Hlen', length_app; simpl; lia).
    rewrite replicate_add, <- !app_assoc.
    pose proof (inserts_middle (b ++ x :: y) (replicate (S (length a)) 0)
      (replicate (101 - length (b ++ ch :: y ++ replicate (S (length a)) z)) 0 ++ rest)
      (replicate (S (length a)) z) _ eq_refl ltac:(by rewrite !length_replicate)) as Hi.
    rewrite <- !app_assoc in Hi. rewrite Hi.
    etransitivity; [exact (inserts_middle b [x] _ [ch] _ eq_refl eq_refl)|].
    cbn [app]. by rewrite <- !app_assoc.
  - rewrite Forall_app in Hc. destruct Hc as [Hcb Hca]. apply Forall_app. split; [done|].
    constructor; [done|]. apply Forall_cons in Hca as [Hx Hy']. apply Forall_app. split; [done|].
    by apply Forall_replicate.
Qed.

(** On RISC-V, where the copy goes upwards, a character typed before two or more
    others is not inserted: it replaces the first of them, and the last one is
    repeated once for each of them. *)
Theorem riscv_insert_corrupts t0 pre sh b a z ch :
  editing t0 pre sh b (a ++ [z]) → (length b + 2 * length a + 2 ≤ 100)%nat → printable ch →
  ∃ sh', handle_input_char memcpy ch sh = Some sh' ∧
    is_str (mptr (buffered_line sh') (active_addr sh'))
      (b ++ ch :: tail (a ++ [z]) ++ replicate (S (length a)) z).
Proof.
  intros [Hl Hn Hcur _] Hlen Hch. pose proof Hl as [Hb [Hm1 Hm2] [rest Hm] _ _].
  pose proof (line_insert_up _ _ b a z ch Hl Hlen Hch) as Hl'.
  rewrite length_app in Hn. simpl in Hn. unfold handle_input_char. cbv zeta.
  replace (input_line_len sh - cursor_offset sh) with (Z.of_nat (S (length a))) by lia.
  replace (0 <? Z.of_nat (S (length a))) with true by (symmetry; apply Z.ltb_lt; lia).
  assert (active_addr sh + input_line_len sh = active_addr sh + Z.of_nat (length (b ++ a ++ [z])))
    as -> by (rewrite !length_app; simpl; lia).
  unfold memcpy. rewrite Nat2Z.id, (memcpy_up_repeats _ _ _ z).
  - cbn [mbind option_bind].
    rewrite store_line_ok by (apply in_mem_write; split; cbn; lia).
    cbn -[write replicate]. rewrite Hcur. set (sh1 := _⟨buffered_line := write (write _ _ _) _ _⟩).
    rewrite (puts_at_ok sh1 _ _ (length b) Hl') by (rewrite length_app; lia).
    cbn [mbind option_bind]. rewrite set_cursor_pos_ok. cbn [mbind option_bind].
    eexists. split; [done|]. pose proof (line_holds_str _ _ _ 0 Hl' ltac:(lia)) as Hs.
    rewrite Z.add_0_r, drop_0 in Hs. exact Hs.
  - unfold load. rewrite !length_app. simpl.
    replace (active_addr sh + Z.of_nat (length b + (length a + 1)) - 1)
      with (active_addr sh + Z.of_nat (length (b ++ a))) by (rewrite length_app; lia).
    rewrite <- drop_mptr, Hm by done. rewrite (app_assoc b a [z]), <- !app_assoc.
    by rewrite (app_assoc b a), drop_app_length.
  - rewrite !length_app. simpl. split; lia.
  - rewrite !length_app. simpl. lia.
Qed.

(** [x] typed before the [bc] of [abc] gives [axccc]. *)
Lemma riscv_insert_corrupts_witness :
  ∃ sh sh', editing ([], []) [] sh [97] [98; 99] ∧
    handle_input_char memcpy 120 sh = Some sh' ∧
    is_str (mptr (buffered_line sh') (active_addr sh')) [97; 120; 99; 99; 99].
Proof.
  destruct (input_run_ok (H := unsigned_abi) ([], []) []
    (fresh_shell ([97; 98; 99] ++ [27; 91; 68] ++ [27; 91; 68]))
    [KChar 97; KChar 98; KChar 99; KLeft; KLeft] ([], []) [] (fresh_editing _))
    as (sh & _ & _ & Hed); [by repeat constructor|simpl; lia|done|]. cbn in Hed.
  destruct (riscv_insert_corrupts ([], []) [] sh [97] [98] 99 120 Hed) as (sh' & Hi & Hs);
    [simpl; lia|done|].
  exists sh, sh'. done.
Defined.

(** ** The arguments of a command

    Arguments are separated by blanks, and by a comma with blanks after it; what the
    loops of [string_to_argv] find, by one pass over the line. *)

Definition is_sep (c : Z) : bool := (c =? 32) || (c =? 44).

Fixpoint split_args (l : list Z) (cur : option (list Z)) : list (list Z) :=
  match l with
  | [] => match cur with Some w => [w] | None => [] end
  | c :: l' =>
      if is_sep c then
        match cur with
        | Some w => w :: split_args l' None
        | None => if c =? 32 then split_args l' None else [] :: split_args l' None
        end
      else split_args l' (Some (default [] cur ++ [c]))
  end.
Definition words (l : list Z) : list (list Z) := split_args l None.

Lemma split_args_word w l cur :
  Forall (λ c, is_sep c = false) w →
  split_args (w ++ l) (Some cur) = split_args l (Some (cur ++ w)).
Proof.
  intros Hw. revert cur. induction Hw as [|c w Hc _ IH]; intros cur; simpl.
  - by rewrite app_nil_r.
  - rewrite Hc, IH. simpl. by rewrite <- app_assoc.
Qed.

Lemma words_sep w c l :
  Forall (λ c, is_sep c = false) w → is_sep c = true → w ≠ [] ∨ c ≠ 32 →
  words (w ++ c :: l) = w :: words l.
Proof.
  intros Hw Hc Hne. unfold words. destruct Hw as [|x w Hx Hw].
  - simpl. rewrite Hc. destruct Hne as [?|Hne]; [done|].
    by replace (c =? 32) with false by (symmetry; by apply Z.eqb_neq).
  - simpl. rewrite Hx, split_args_word by done. simpl. by rewrite Hc.
Qed.

Lemma words_last w :
  Forall (λ c, is_sep c = false) w → w ≠ [] → words w = [w].
Proof.
  intros Hw Hne. unfold words. destruct Hw as [|x w Hx Hw]; [done|]. simpl. rewrite Hx.
  rewrite <- (app_nil_r w) at 1. rewrite split_args_word by done. done.
Qed.

Lemma words_blanks n l : words (replicate n 32 ++ l) = words l.
Proof. unfold words. induction n as [|n IH]; [done|]. simpl. done. Qed.

(** A line is a word and either nothing or a separator and the rest; blanks at its
    start can be split off. *)
Lemma word_split l :
  ∃ w l', l = w ++ l' ∧ Forall (λ c, is_sep c = false) w ∧
          (l' = [] ∨ ∃ c l2, l' = c :: l2 ∧ is_sep c = true).
Proof.
  induction l as [|c l (w & l' & -> & Hw & Hl')]; [by exists [], []; auto|].
  destruct (is_sep c) eqn:Ec.
  - exists [], (c :: w ++ l'). split; [done|]. split; [constructor|]. right. eauto.
  - exists (c :: w), l'. split; [done|]. split; [by constructor|done].
Qed.
Lemma blank_split l :
  ∃ n l', l = replicate n 32 ++ l' ∧ (l' = [] ∨ ∃ c l2, l' = c :: l2 ∧ c ≠ 32).
Proof.
  induction l as [|c l (n & l' & -> & Hl')]; [by exists 0%nat, []; auto|].
  destruct (decide (c = 32)) as [->|Hc].
  - by exists (S n), l'.
  - exists 0%nat, (c :: replicate n 32 ++ l'). split; [done|]. right. eauto.
Qed.

Lemma is_str_drop m p w l :
  mbase m ≤ p → is_str (mptr m p) (w ++ l) → is_str (mptr m (p + Z.of_nat (length w))) l.
Proof.
  intros Hp (r & Hm & Hnz). rewrite <- drop_mptr, Hm by done. exists r.
  rewrite <- app_assoc, drop_app_length. split; [done|]. by apply Forall_app in Hnz as [_ ?].
Qed.

Lemma load_str m p l : is_str (mptr m p) l → load m p = Some (default 0 (head l)).
Proof. intros (r & Hm & _). unfold load. rewrite Hm. by destruct l. Qed.

Lemma skip_blanks_ok n k m p l :
  mbase m ≤ p → is_str (mptr m p) (replicate k 32 ++ l) →
  l = [] ∨ (∃ c l2, l = c :: l2 ∧ c ≠ 32) → (k < n)%nat →
  skip_blanks n m p = Some (p + Z.of_nat k).
Proof.
  revert n p. induction k as [|k IH]; intros [|n] p Hp Hs Hl Hn; try lia.
  - cbn [skip_blanks]. rewrite (load_str _ _ _ Hs). cbn [mbind option_bind].
    replace (_ =? 32) with false; [by rewrite Z.add_0_r|]. symmetry. apply Z.eqb_neq.
    destruct Hl as [->|(c & l2 & -> & ?)]; done.
  - cbn [skip_blanks]. rewrite (load_str _ _ _ Hs). cbn [mbind option_bind replicate app head].
    simpl. rewrite (IH n (p + 1)); [f_equal; lia|lia| |done|lia].
    apply (is_str_drop m p [32]); done.
Qed.

Lemma skip_arg_ok n m p w l :
  mbase m ≤ p → is_str (mptr m p) (w ++ l) → Forall (λ c, is_sep c = false) w →
  l = [] ∨ (∃ c l2, l = c :: l2 ∧ is_sep c = true) → (length w < n)%nat →
  skip_arg n m p = Some (p + Z.of_nat (length w)).
Proof.
  intros Hp Hs Hw Hl. revert n p Hp Hs. induction Hw as [|x w Hx Hw IH]; intros [|n] p Hp Hs Hn;
    try (simpl in Hn; lia).
  - cbn [skip_arg]. rewrite (load_str _ _ _ Hs). cbn [mbind option_bind app].
    replace (_ && _ && _) with false; [by rewrite Z.add_0_r|].
    destruct Hl as [->|(c & l2 & -> & Hc)]; [done|]. simpl. unfold is_sep in Hc.
    apply orb_true_iff in Hc as [->| ->]; by rewrite ?andb_false_r.
  - cbn [skip_arg]. rewrite (load_str _ _ _ Hs). cbn [mbind option_bind app head default].
    simpl. pose proof Hs as (r & _ & Hnz). apply Forall_inv in Hnz. unfold is_sep in Hx.
    apply orb_false_iff in Hx as [-> ->].
    replace (x =? 0) with false by (symmetry; by apply Z.eqb_neq). simpl.
    rewrite (IH n (p + 1)); [f_equal; simpl; lia|lia| |simpl in Hn; lia].
    apply (is_str_drop m p [x]); done.
Qed.

(** The memory below an address is not changed. *)
Definition same_below (p : Z) (m m' : mem) : Prop :=
  mbase m' = mbase m ∧ ∀ q (n : nat), mbase m ≤ q → q + Z.of_nat n ≤ p →
    take n (mptr m' q) = take n (mptr m q).

Lemma same_below_write p m q l : mbase m ≤ q → p ≤ q → same_below p m (write m q l).
Proof. intros Hq Hp. split; [done|]. intros a n Ha Hn. apply take_mptr_write; [done|done|lia]. Qed.

Lemma same_below_trans p p' m1 m2 m3 :
  same_below p m1 m2 → same_below p' m2 m3 → p ≤ p' → same_below p m1 m3.
Proof.
  intros [B1 F1] [B2 F2] Hp. split; [congruence|]. intros q n Hq Hn.
  rewrite F2 by (rewrite ?B1; lia). by apply F1.
Qed.

Lemma take_is_str s w : take (S (length w)) s = w ++ [0] → Forall (λ c, c ≠ 0) w → is_str s w.
Proof.
  intros Ht Hnz. exists (drop (S (length w)) s). split; [|done].
  rewrite <- (take_drop (S (length w)) s) at 1. by rewrite Ht, <- app_assoc.
Qed.

Lemma is_str_below p m m' a w :
  same_below p m m' → mbase m ≤ a → a + Z.of_nat (length w) < p →
  is_str (mptr m a) w → is_str (mptr m' a) w.
Proof.
  intros [_ HF] Ha Hp (r & Hm & Hnz). apply take_is_str; [|done].
  rewrite HF, Hm by lia. rewrite take_app_ge by lia. f_equal.
  by replace (S (length w) - length w)%nat with 1%nat by lia.
Qed.

(** Terminating the word at [p] by storing a zero after it. *)
Lemma is_str_cut m p w c l :
  mbase m ≤ p → is_str (mptr m p) (w ++ c :: l) →
  is_str (mptr (write m (p + Z.of_nat (length w)) [0]) p) w.
Proof.
  intros Hp Hs. pose proof (is_str_in_mem _ _ _ Hs) as Hin. destruct Hs as (r & Hm & Hnz).
  apply Forall_app in Hnz as [Hw _]. rewrite length_app in Hin. simpl in Hin.
  apply take_is_str; [|done].
  rewrite mptr_write_at by (done || lia || (destruct Hin; split; lia)).
  rewrite Nat2Z.id, Hm, <- app_assoc.
  pose proof (inserts_middle w [c] (l ++ 0 :: r) [0] _ eq_refl eq_refl) as Hi.
  cbn [app] in Hi |- *. rewrite Hi. rewrite take_app_ge by lia. f_equal.
  by replace (S (length w) - length w)%nat with 1%nat by lia.
Qed.

Lemma mptr_write_above m a l q :
  mbase m ≤ a → a + Z.of_nat (length l) ≤ q → mptr (write m a l) q = mptr m q.
Proof. intros Ha Hq. apply list_eq. intros i. apply mptr_write_lookup; lia. Qed.

Lemma argv_loop_ok n m p l argv :
  mbase m ≤ p → is_str (mptr m p) l → l = [] ∨ (∃ c l2, l = c :: l2 ∧ c ≠ 32) →
  (length l < n)%nat →
  ∃ addrs m', argv_loop n m p argv = Some (argv ++ addrs, m') ∧
    Forall2 (λ a w, is_str (mptr m' a) w) addrs (words l) ∧ same_below p m m'.
Proof.
  revert m p l argv. induction n as [|n IH]; intros m p l argv Hp Hs Hl Hn; [lia|].
  pose proof (is_str_in_mem _ _ _ Hs) as [_ Hin].
  cbn [argv_loop]. rewrite (load_str _ _ _ Hs). cbn [mbind option_bind].
  destruct Hl as [->|(c0 & l0 & E0 & Hc0)].
  { exists [], m. simpl. rewrite app_nil_r. split; [done|]. split; [constructor|]. by split. }
  assert (c0 ≠ 0) as Hz by (destruct Hs as (r & _ & Hnz); subst l; by apply Forall_inv in Hnz).
  replace (default 0 (head l) =? 0) with false by (subst l; symmetry; by apply Z.eqb_neq).
  destruct (word_split l) as (w & l' & El & Hw & Hl'). pose proof Hs as Hs0. rewrite El in Hs.
  assert (length w + length l' = length l)%nat as Hwl by (by rewrite El, length_app).
  rewrite (skip_arg_ok _ m p w l') by (done || lia). cbn [mbind option_bind].
  rewrite (load_str _ _ _ (is_str_drop m p w l' Hp Hs)). cbn [mbind option_bind].
  destruct Hl' as [->|(c & l2 & -> & Hc)].
  - rewrite app_nil_r in El. subst w. simpl. exists [p], m.
    destruct n as [|n]; [rewrite E0 in Hn; simpl in Hn; lia|]. cbn [argv_loop].
    rewrite (load_str _ _ [] (is_str_drop m p l [] Hp ltac:(by rewrite app_nil_r))).
    split; [done|]. rewrite words_last by (done || by rewrite E0). split; [by repeat constructor|by split].
  - cbn [default from_option head]. unfold id. simpl in Hwl.
    assert (c ≠ 0) as Hcz by (intros ->; done).
    replace (c =? 0) with false by (symmetry; by apply Z.eqb_neq). cbn [negb].
    rewrite store_write by (split; lia). cbn [mbind option_bind].
    set (m1 := write m (p + Z.of_nat (length w)) [0]).
    destruct (blank_split l2) as (k & l3 & El2 & Hl3).
    assert (is_str (mptr m1 (p + Z.of_nat (length w) + 1)) l2) as Hs2.
    { unfold m1. rewrite mptr_write_above by (simpl; lia).
      replace (p + Z.of_nat (length w) + 1) with (p + Z.of_nat (length (w ++ [c])))
        by (rewrite length_app; simpl; lia).
      apply is_str_drop; [done|]. by rewrite <- app_assoc. }
    assert (length (mbytes m1) = length (mbytes m)) as Hm1 by apply length_inserts.
    assert (length l2 = k + length l3)%nat as Hk by (by rewrite El2, length_app, length_replicate).
    rewrite El2 in Hs2.
    rewrite (skip_blanks_ok _ k m1 _ l3); [|simpl; lia|done|done|lia].
    cbn [mbind option_bind].
    destruct (IH m1 (p + Z.of_nat (length w) + 1 + Z.of_nat k) l3 (argv ++ [p]))
      as (addrs & m' & -> & Hf & Hb); [simpl; lia| |done|lia|].
    { replace (Z.of_nat k) with (Z.of_nat (length (replicate k 32))) by (by rewrite length_replicate).
      by apply is_str_drop; [simpl; lia|]. }
    exists (p :: addrs), m'. rewrite <- app_assoc. split; [done|]. split.
    + rewrite El, words_sep, El2, words_blanks; [|done|done|].
      * constructor; [|done]. eapply is_str_below; [exact Hb|done|lia|]. by eapply is_str_cut.
      * destruct w; [right|by left]. simpl in El. congruence.
    + eapply (same_below_trans p _ m m1 m'); [apply same_below_write; lia|exact Hb|lia].
Qed.

(** The vector has one pointer for each argument, in order, to a string with its
    characters; nothing before the line is changed. *)
Lemma string_to_argv_splits m p l :
  mbase m ≤ p → is_str (mptr m p) l →
  ∃ argv m', string_to_argv m p = Some (argv, m') ∧
    Forall2 (λ a w, is_str (mptr m' a) w) argv (words l) ∧ same_below p m m'.
Proof.
  intros Hp Hs. pose proof (is_str_in_mem _ _ _ Hs) as [_ Hin]. unfold string_to_argv.
  destruct (blank_split l) as (k & l' & -> & Hl').
  rewrite length_app, length_replicate in Hin.
  rewrite (skip_blanks_ok _ k m p l') by (done || lia). cbn [mbind option_bind].
  destruct (argv_loop_ok (S (length (mbytes m))) m (p + Z.of_nat k) l' [])
    as (addrs & m' & -> & Hf & Hb); [lia| |done|lia|].
  { replace (Z.of_nat k) with (Z.of_nat (length (replicate k 32))) by (by rewrite length_replicate).
    by apply is_str_drop. }
  exists addrs, m'. split; [done|]. rewrite words_blanks. split; [done|].
  destruct Hb as [Hb1 Hb2]. split; [done|]. intros. apply Hb2; lia.
Qed.

(** ** Running a command *)

(** The characters of a string. *)
Fixpoint cname (s : list Z) : list Z :=
  match s with
  | [] => []
  | c :: s' => if c =? 0 then [] else c :: cname s'
  end.

Lemma cname_str s l : is_str s l → cname s = l.
Proof.
  intros (r & -> & Hnz). induction Hnz as [|c l Hc _ IH]; [done|]. simpl. rewrite IH.
  by replace (c =? 0) with false by (symmetry; by apply Z.eqb_neq).
Qed.

(** The first command with a name. *)
Definition find_named {W} (cmds : list (shell_cmd W)) (name : list Z) : option (shell_cmd W) :=
  head (filter (λ c, cname (str c) = name) cmds).

Definition proper_cmd {W} (c : shell_cmd W) : Prop :=
  is_str (str c) (cname (str c)) ∧ bytes (cname (str c)).

Lemma find_loop_ok `{CharAbi} {W} (cmds : list (shell_cmd W)) s name :
  Forall proper_cmd cmds → is_str s name → bytes name →
  find_loop cmds s = Some (find_named cmds name).
Proof.
  intros Hc Hs Hb. induction Hc as [|c cmds [Hn Hnb] Hc IH]; [done|].
  cbn [find_loop]. destruct (strcmp_zero (str c) s (cname (str c)) name) as (r & -> & Hr); [done..|].
  cbn [mbind option_bind]. unfold find_named in *. destruct (Z.eqb_spec r 0) as [Hz|Hz].
  - by rewrite filter_cons_True by (by apply Hr).
  - by rewrite filter_cons_False by (by rewrite <- Hr).
Qed.

Lemma words_in l : ∀ w, w ∈ words l → ∀ c, c ∈ w → c ∈ l.
Proof.
  assert (∀ cur w c, w ∈ split_args l cur → c ∈ w → c ∈ l ∨ c ∈ default [] cur) as Hg.
  { induction l as [|x l IH]; intros cur w c Hw Hc; simpl in Hw.
    - destruct cur; set_solver.
    - destruct (is_sep x); [destruct cur as [v|]; [|destruct (x =? 32)]|];
        rewrite ?elem_of_cons in Hw.
      + destruct Hw as [->|Hw]; [by right|]. specialize (IH None w c Hw Hc). simpl in IH. set_solver.
      + specialize (IH None w c Hw Hc). simpl in IH. set_solver.
      + destruct Hw as [->|Hw]; [set_solver|].
        specialize (IH None w c Hw Hc). simpl in IH. set_solver.
      + specialize (IH _ w c Hw Hc). destruct cur; simpl in IH; set_solver. }
  intros w Hw c Hc. unfold words in Hw. destruct (Hg None w c Hw Hc) as [?|Hn]; [done|].
  simpl in Hn. set_solver.
Qed.

Lemma is_str_zero_after s l i :
  is_str s l → (length l ≤ i)%nat → is_str (<[i := 0]> s) l.
Proof.
  intros (r & -> & Hnz) Hi. rewrite insert_app_r_alt by done.
  destruct (i - length l)%nat as [|k]; [by exists r|by exists (<[k := 0]> r)].
Qed.

(** The line copied to the array of [shell_process_cmd]. *)
Lemma command_copied lines above p l stack :
  line_holds lines p l →
  let frame := mk_mem (mbase lines) (mbytes lines ++ above) in
  in_mem frame stack 101 → p + 100 < stack →
  ∃ m1 m2, strncpy_s frame stack (SHELL_CMD_MAX_LEN + 1) p SHELL_CMD_MAX_LEN = Some (0, m1) ∧
    store m1 (stack + SHELL_CMD_MAX_LEN) 0 = Some m2 ∧ mbase m2 ≤ stack ∧
    is_str (mptr m2 stack) l.
Proof.
  intros Hl frame Hst Hp. pose proof (line_holds_str _ _ _ 0 Hl ltac:(lia)) as (r & Hs & Hnz).
  pose proof Hl as [Hb [Hm1 Hm2] _ _ Hf]. rewrite Z.add_0_r in Hs. rewrite drop_0 in *.
  assert (is_str (mptr frame p) l) as Hs'.
  { exists (r ++ above). split; [|done]. unfold mptr in *. cbn [mbase mbytes frame].
    revert Hs. zcmp. intros Hs. rewrite drop_app_le by lia. rewrite Hs. by rewrite <- app_assoc. }
  rewrite (strncpy_s_fits frame stack _ p _ l); [|done|done|done|lia|unfold SHELL_CMD_MAX_LEN; lia].
  assert (mbase frame ≤ stack) as Hms by apply Hst.
  assert (in_mem frame stack 100) as H100 by (eapply in_mem_le; [done|lia]).
  do 2 eexists. split; [done|]. split.
  { apply store_write, in_mem_write. unfold SHELL_CMD_MAX_LEN, in_mem in *. lia. }
  split; [done|]. rewrite mptr_write_at by (unfold SHELL_CMD_MAX_LEN; rewrite ?in_mem_write; done || lia).
  apply (is_str_zero_after _ _ 100%nat); [|done].
  destruct (mptr_stored frame stack l) as [r' Hr']; [eapply in_mem_le; [exact Hst|lia]|].
  exists r'. by split.
Qed.

(** C30: A command line runs the first command whose name is its first argument, with
    a vector of strings that are the arguments of the line, and reports the status;
    an unknown name is reported, and an empty line runs nothing. *)
Theorem shell_runs_command `{CharAbi} {W} (cmds : list (shell_cmd W)) lines above p l stack sh w :
  buffered_line sh = lines → line_holds lines p l →
  in_mem (mk_mem (mbase lines) (mbytes lines ++ above)) stack 101 → p + 100 < stack →
  Forall proper_cmd cmds →
  ∃ argv, Forall2 is_str argv (words l) ∧
  shell_process_cmd cmds stack above p sh w =
    match words l with
    | [] => Some (- EINVAL, sh, w)
    | name :: _ =>
        match find_named cmds name with
        | None => sh ← shell_puts INVALID_COMMAND sh; Some (- EINVAL, sh, w)
        | Some c =>
            let (status, w) := fcn c argv w in
            sh ← (if status =? - EINVAL then shell_puts INVALID_PARAMETERS sh
                  else if negb (status =? 0) then shell_puts LAUNCH_FAILED sh
                  else Some sh);
            Some (status, sh, w)
        end
    end.
Proof.
  intros <- Hl Hst Hp Hcmds.
  destruct (command_copied _ above p l stack Hl Hst Hp) as (m1 & m2 & E1 & E2 & Hb & Hs).
  destruct (string_to_argv_splits m2 stack l Hb Hs) as (argv & m3 & E3 & Hf & _).
  exists (mptr m3 <$> argv). split; [by apply Forall2_fmap_l|].
  unfold shell_process_cmd. cbv zeta. rewrite E1. cbn [mbind option_bind]. rewrite E2.
  cbn [mbind option_bind]. rewrite E3. cbn [mbind option_bind].
  destruct (words l) as [|name ws] eqn:Ew; apply Forall2_cons_inv_r in Hf || apply Forall2_nil_inv_r in Hf.
  { by subst. }
  destruct Hf as (a & argv' & Ha & Hf & ->).
  unfold shell_find_cmd. rewrite (find_loop_ok cmds _ name); [|done|done|].
  - cbn [mbind option_bind]. by destruct (find_named cmds name).
  - apply Forall_forall. intros c Hc. assert (printable c) as [??].
    { eapply Forall_forall; [apply (lh_chars _ _ _ Hl)|]. eapply words_in; [|exact Hc].
      rewrite Ew. set_solver. }
    split; lia.
Qed.

(** [ help], with a command of that name that counts its calls. *)
Definition help_cmd : shell_cmd Z := mk_cmd Z [104; 101; 108; 112; 0] (λ argv n, (0, n + 1)).

Lemma shell_runs_command_witness :
  let line := [32; 104; 101; 108; 112] in
  let sh := mk_shell (mk_mem 4096 (line ++ replicate 803 0)) 0 0 0 0 [] [] in
  ∃ argv, Forall2 is_str argv [[104; 101; 108; 112]] ∧
    shell_process_cmd (H := unsigned_abi) [help_cmd] 4904 (replicate 101 1) 4096 sh 0
      = Some (0, sh, 1).
Proof.
  intros line sh.
  destruct (shell_runs_command (H := unsigned_abi) [help_cmd] (buffered_line sh)
    (replicate 101 1) 4096 line 4904 sh 0) as (argv & Hargv & Hrun).
  - done.
  - split; [done|split; by vm_compute|by exists (replicate 707 0)| |by vm_compute; lia].
    by repeat constructor.
  - split; by vm_compute.
  - done.
  - constructor; [|done]. split; [exists []; by split; [|repeat constructor]|solve_words].
  - exists argv. split; [exact Hargv|]. rewrite Hrun. done.
Defined.

(** Recalling a command copies it with its terminator over the line being typed, and
    leaves the characters after that: typed over the old line, [xy] recalled over
    [abcdef] and [z] after it make [xyzdef]. *)
Example recall_keeps_old_tail :
  cname ∘ (λ sh, mptr (buffered_line sh) (active_addr sh)) <$>
    input_run (H := unsigned_abi) memcpy 8
      (mk_shell (mk_mem 4096 ([120; 121] ++ replicate 806 0)) 0 1 1 0
         ([97; 98; 99; 100; 101; 102] ++ [27; 91; 65] ++ [122]) [])
  = Some [120; 121; 122; 100; 101; 102].
Proof. by vm_compute. Qed.
