(* ===== verification/Vrtc.v ===== *)
(** * The virtual real-time clock

    [dm/vrtc.c]: the emulated MC146818 clock of a VM.  The clock of a User VM is
    computed from the physical clock read at its start, the ticks since then and the
    offset that the guest makes when it sets the time; the Service VM accesses the
    physical clock, and what it sets there does not move the clocks of the others.

    The registers, [struct rtcdev], are 51 bytes, which the guest addresses by their
    offset.  [None] is undefined behaviour: an access outside an array or an
    overflow of the signed [time_t].  The ticks of the CPU, their rate and the
    contents of the physical clock are arguments. *)

From Stdlib Require Import Sorted.
From S2P Require Import Prelude.

Definition POSIX_BASE_YEAR : Z := 1970.
Definition SECDAY : Z := 24 * 60 * 60.
Definition VRTC_BROKEN_TIME : Z := -1.
Definition FEBRUARY : Z := 2.

Definition RTC_SEC : Z := 0x00.
Definition RTC_SECALRM : Z := 0x01.
Definition RTC_MIN : Z := 0x02.
Definition RTC_MINALRM : Z := 0x03.
Definition RTC_HRS : Z := 0x04.
Definition RTC_HRSALRM : Z := 0x05.
Definition RTC_WDAY : Z := 0x06.
Definition RTC_DAY : Z := 0x07.
Definition RTC_MONTH : Z := 0x08.
Definition RTC_YEAR : Z := 0x09.
Definition RTC_STATUSA : Z := 0x0a.
Definition RTC_STATUSB : Z := 0x0b.
Definition RTC_INTR : Z := 0x0c.
Definition RTC_STATUSD : Z := 0x0d.
Definition RTC_CENTURY : Z := 0x32.
Definition RTCSA_TUP : Z := 0x80.
Definition RTCSB_24HR : Z := 0x02.
Definition RTCSB_BCD : Z := 0x04.
Definition RTCSB_AINTR : Z := 0x20.
Definition RTCIR_ALARM : Z := 0x20.
Definition RTCIR_INT : Z := 0x80.
Definition TRIGGER_ALARM : Z := RTCIR_ALARM ||| RTCIR_INT.
Definition RTC_DELTA : Z := 1.
Definition CMOS_ADDR_PORT : Z := 0x70.
Definition CMOS_DATA_PORT : Z := 0x71.

Record clktime := mk_clk {
  year : Z; mon : Z; day : Z; hour : Z; min : Z; sec : Z; dow : Z }.

(** The bytes of [struct rtcdev]; a field is the byte at the offset of its register. *)
Definition rtcdev : Type := list Z.
Definition reg (r : rtcdev) (i : Z) : Z := nth (Z.to_nat i) r 0.
Definition set_reg (r : rtcdev) (i v : Z) : rtcdev := <[Z.to_nat i := u8 v]> r.

Record acrn_vrtc := mk_vrtc {
  addr : Z;
  base_rtctime : Z; offset_rtctime : Z; last_rtctime : Z;
  base_tsc : Z;
  rtc : rtcdev }.

#[export] Instance eta_vrtc : Eta acrn_vrtc :=
  { eta := rd mk_vrtc <*> addr <*> base_rtctime <*> offset_rtctime <*> last_rtctime
             <*> base_tsc <*> rtc }.

(** Addition of [time_t]. *)
Definition time_add (a b : Z) : option Z :=
  if (- 2 ^ 31 <=? a + b) && (a + b <? 2 ^ 31) then Some (a + b) else None.

(** ** The calendar *)

Definition month_days : list Z := [31; 28; 31; 30; 31; 30; 31; 31; 30; 31; 30; 31].

Definition leapyear (year : Z) : Z :=
  if (year &&& 3) =? 0 then
    if year mod 100 =? 0 then if year mod 400 =? 0 then 1 else 0 else 1
  else 0.

Definition days_in_year (year : Z) : Z := if nonzero (leapyear year) then 366 else 365.

Definition days_in_month (year month : Z) : option Z :=
  d ← month_days !! Z.to_nat (month - 1);
  Some (d + (if month =? FEBRUARY then leapyear year else 0)).

Definition day_of_week (days : Z) : Z := (days + 4) mod 7.

(** The days of the years from [i] on, [n] of them, and of the months. *)
Fixpoint sum_years (n : nat) (i days : Z) : Z :=
  match n with
  | O => days
  | S n' => sum_years n' (i + 1) (u32 (days + days_in_year i))
  end.
Fixpoint sum_months (n : nat) (y i days : Z) : option Z :=
  match n with
  | O => Some days
  | S n' => d ← days_in_month y i; sum_months n' y (i + 1) (u32 (days + d))
  end.

(** [None] inside is [-EINVAL]. *)
Definition clk_ct_to_ts (ct : clktime) : option (option Z) :=
  let y := year ct in
  if (mon ct <? 1) || (12 <? mon ct) || (day ct <? 1) then Some None
  else
    dm ← days_in_month y (mon ct);
    if (dm <? day ct) || (23 <? hour ct) || (59 <? min ct) || (59 <? sec ct)
       || (y <? POSIX_BASE_YEAR) || (2037 <? y) then Some None
    else
      let days := sum_years (Z.to_nat (y - POSIX_BASE_YEAR)) POSIX_BASE_YEAR 0 in
      days ← sum_months (Z.to_nat (mon ct - 1)) y 1 days;
      let days := u32 (days + (day ct - 1)) in
      Some (Some (s32 (u32 (u32 (u32 (u32 (days * 24) + hour ct) * 60 + min ct) * 60
                            + sec ct)))).

(** The loops of [clk_ts_to_ct] with a bound on their turns. *)
Fixpoint find_year (n : nat) (y days : Z) : option (Z * Z) :=
  match n with
  | O => None
  | S n' =>
      if days_in_year y <=? days then find_year n' (y + 1) (days - days_in_year y)
      else Some (y, days)
  end.
Fixpoint find_month (n : nat) (y i days : Z) : option (Z * Z) :=
  match n with
  | O => None
  | S n' =>
      d ← days_in_month y i;
      if d <=? days then find_month n' y (i + 1) (days - d) else Some (i, days)
  end.

(** A [time_t] has less than 70 years, and a year 12 months. *)
Definition clk_ts_to_ct (secs : Z) : option (Z * clktime) :=
  let days := u32 (Z.quot secs SECDAY) in
  let rsec := Z.rem secs SECDAY in
  '(y, d) ← find_year 70 POSIX_BASE_YEAR days;
  '(m, d) ← find_month 13 y 1 d;
  let ct := mk_clk y m (d + 1) (Z.quot rsec 3600) (Z.quot (Z.rem rsec 3600) 60)
              (Z.rem (Z.rem rsec 3600) 60) (day_of_week days) in
  if (12 <? m) || (2037 <? y) then Some (-22, ct)
  else
    dm ← days_in_month y m;
    Some (if dm <? d + 1 then -22 else 0, ct).

(** ** Registers *)

Definition bin2bcd_data : list Z :=
  [0x00; 0x01; 0x02; 0x03; 0x04; 0x05; 0x06; 0x07; 0x08; 0x09;
   0x10; 0x11; 0x12; 0x13; 0x14; 0x15; 0x16; 0x17; 0x18; 0x19;
   0x20; 0x21; 0x22; 0x23; 0x24; 0x25; 0x26; 0x27; 0x28; 0x29;
   0x30; 0x31; 0x32; 0x33; 0x34; 0x35; 0x36; 0x37; 0x38; 0x39;
   0x40; 0x41; 0x42; 0x43; 0x44; 0x45; 0x46; 0x47; 0x48; 0x49;
   0x50; 0x51; 0x52; 0x53; 0x54; 0x55; 0x56; 0x57; 0x58; 0x59;
   0x60; 0x61; 0x62; 0x63; 0x64; 0x65; 0x66; 0x67; 0x68; 0x69;
   0x70; 0x71; 0x72; 0x73; 0x74; 0x75; 0x76; 0x77; 0x78; 0x79;
   0x80; 0x81; 0x82; 0x83; 0x84; 0x85; 0x86; 0x87; 0x88; 0x89;
   0x90; 0x91; 0x92; 0x93; 0x94; 0x95; 0x96; 0x97; 0x98; 0x99].

Definition rtcset (r : rtcdev) (val : Z) : option Z :=
  if nonzero (reg r RTC_STATUSB &&& RTCSB_BCD) then Some (u8 val)
  else bin2bcd_data !! Z.to_nat val.

Definition rtcget (r : rtcdev) (val : Z) : option Z :=
  if nonzero (reg r RTC_STATUSB &&& RTCSB_BCD) then Some val
  else
    let lower := val &&& 0xf in
    let upper := Z.shiftr val 4 &&& 0xf in
    if (9 <? lower) || (9 <? upper) then None else Some (upper * 10 + lower).

(** The hour register as an hour of the day; [None] is an invalid one. *)
Definition rtc_hour (r : rtcdev) : option Z :=
  let h24 := nonzero (reg r RTC_STATUSB &&& RTCSB_24HR) in
  let h := reg r RTC_HRS in
  let pm := negb h24 && nonzero (h &&& 0x80) in
  h ← rtcget r (if pm then h &&& bnot 32 0x80 else h);
  if h24 then Some h
  else if (1 <=? h) && (h <=? 12) then
    let h := if h =? 12 then 0 else h in
    Some (if pm then h + 12 else h)
  else None.

(** The fields of the registers that [rtc_to_secs] decodes. *)
Definition rtc_clock (r : rtcdev) : option clktime :=
  s ← rtcget r (reg r RTC_SEC);
  mi ← rtcget r (reg r RTC_MIN);
  d ← rtcget r (reg r RTC_DAY);
  mo ← rtcget r (reg r RTC_MONTH);
  y ← rtcget r (reg r RTC_YEAR);
  c ← rtcget r (reg r RTC_CENTURY);
  h ← rtc_hour r;
  Some (mk_clk (c * 100 + y) mo d h mi s (-1)).

Definition rtc_to_secs (r : rtcdev) : option Z :=
  match rtc_clock r with
  | None => Some VRTC_BROKEN_TIME
  | Some ct =>
      if year ct <? POSIX_BASE_YEAR then Some VRTC_BROKEN_TIME
      else t ← clk_ct_to_ts ct; Some (default VRTC_BROKEN_TIME t)
  end.

Definition secs_to_rtc (rtctime : Z) (r : rtcdev) : option rtcdev :=
  if 0 <? rtctime then
    '(err, ct) ← clk_ts_to_ct rtctime;
    if err =? 0 then
      let h24 := nonzero (reg r RTC_STATUSB &&& RTCSB_24HR) in
      s ← rtcset r (sec ct);
      mi ← rtcset r (min ct);
      let hr := if h24 then hour ct
                else if (hour ct =? 0) || (hour ct =? 12) then 12
                else hour ct mod 12 in
      h ← rtcset r hr;
      let h := if negb h24 && (12 <=? hour ct) then h ||| 0x80 else h in
      wd ← rtcset r (dow ct + 1);
      d ← rtcset r (day ct);
      mo ← rtcset r (mon ct);
      y ← rtcset r (year ct mod 100);
      c ← rtcset r (year ct / 100);
      let r := set_reg r RTC_SEC s in
      let r := set_reg r RTC_MIN mi in
      let r := set_reg r RTC_HRS h in
      let r := set_reg r RTC_WDAY wd in
      let r := set_reg r RTC_DAY d in
      let r := set_reg r RTC_MONTH mo in
      let r := set_reg r RTC_YEAR y in
      Some (set_reg r RTC_CENTURY c)
    else Some r
  else Some r.

(** ** The time of a VM *)

Section clock.
Context (tsc_khz : Z).

Definition vrtc_get_current_time (ticks : Z) (v : acrn_vrtc) : option (Z * acrn_vrtc) :=
  if 0 <? base_rtctime v then
    let hz := u32 (tsc_khz * 1000) in
    if hz =? 0 then None
    else
      let offset := u64 (ticks - base_tsc v) / hz in
      second ← time_add (base_rtctime v) (offset_rtctime v);
      second ← time_add second (s32 offset);
      if second <? last_rtctime v then Some (last_rtctime v, v)
      else Some (second, v⟨last_rtctime := second⟩)
  else Some (VRTC_BROKEN_TIME, v).

(** ** The physical clock

    Its registers, and whether an update is in progress at each of the next reads of
    status register A. *)

Record cmos := mk_cmos { cregs : list Z; updating : list bool }.

#[export] Instance eta_cmos : Eta cmos := { eta := rd mk_cmos <*> cregs <*> updating }.

Definition cmos_update_in_progress (hw : cmos) : bool * cmos :=
  match updating hw with
  | [] => (false, hw)
  | u :: us => (u, hw⟨updating := us⟩)
  end.

Fixpoint cmos_wait (tries : nat) (hw : cmos) : cmos :=
  let (u, hw) := cmos_update_in_progress hw in
  if u then match tries with O => hw | S tries' => cmos_wait tries' hw end else hw.

Definition cmos_get_reg_val (a : Z) (hw : cmos) : Z * cmos :=
  let hw := cmos_wait (Z.to_nat 2000) hw in (nth (Z.to_nat a) (cregs hw) 0, hw).
Definition cmos_set_reg_val (a v : Z) (hw : cmos) : cmos :=
  let hw := cmos_wait (Z.to_nat 2000) hw in
  hw⟨cregs := <[Z.to_nat a := u8 v]> (cregs hw)⟩.

(** Registers read one after the other into a [struct rtcdev]. *)
Fixpoint read_regs (l : list Z) (r : rtcdev) (hw : cmos) : rtcdev * cmos :=
  match l with
  | [] => (r, hw)
  | a :: l' => let (x, hw) := cmos_get_reg_val a hw in read_regs l' (set_reg r a x) hw
  end.

(** [temp_vrtc] is a local variable, whose other registers do not matter. *)
Definition vrtc_get_physical_rtc_time (r : rtcdev) (hw : cmos) : option (Z * cmos) :=
  let (r, hw) := read_regs [RTC_SEC; RTC_MIN; RTC_HRS; RTC_DAY; RTC_MONTH; RTC_YEAR;
                            RTC_CENTURY; RTC_STATUSB] r hw in
  t ← rtc_to_secs r; Some (t, hw).

Definition vrtc_set_basetime (v : acrn_vrtc) (hw : cmos) : option (acrn_vrtc * cmos) :=
  let (r, hw) := read_regs [RTC_SEC; RTC_MIN; RTC_HRS; RTC_DAY; RTC_MONTH; RTC_YEAR;
                            RTC_CENTURY; RTC_STATUSA; RTC_STATUSB; RTC_INTR; RTC_STATUSD]
                   (rtc v) hw in
  let r := set_reg r RTC_STATUSA (reg r RTC_STATUSA &&& bnot 32 RTCSA_TUP) in
  current ← rtc_to_secs r;
  Some (v⟨rtc := r⟩⟨base_rtctime := current⟩⟨last_rtctime := VRTC_BROKEN_TIME⟩, hw).

(** ** The VMs *)

Record rtc_vm := mk_rtc_vm {
  is_service_vm : bool; is_rt_vm : bool; is_prelaunched_vm : bool; vrtc : acrn_vrtc }.

#[export] Instance eta_rtc_vm : Eta rtc_vm :=
  { eta := rd mk_rtc_vm <*> is_service_vm <*> is_rt_vm <*> is_prelaunched_vm <*> vrtc }.

Fixpoint vrtc_update_basetime (ticks physical_time offset : Z) (vms : list rtc_vm)
    : option (list rtc_vm) :=
  match vms with
  | [] => Some []
  | vm :: vms' =>
      vm' ← (if is_rt_vm vm || is_prelaunched_vm vm then
               o ← time_add (offset_rtctime (vrtc vm)) offset;
               Some vm⟨vrtc := (vrtc vm)⟨base_tsc := ticks⟩⟨base_rtctime := physical_time⟩
                                 ⟨offset_rtctime := o⟩⟩
             else Some vm);
      vms' ← vrtc_update_basetime ticks physical_time offset vms';
      Some (vm' :: vms')
  end.

Definition calibrate_timer_callback (temp : rtcdev) (ticks : Z) (vms : list rtc_vm) (hw : cmos)
    : option (list rtc_vm * cmos) :=
  '(physical_time, hw) ← vrtc_get_physical_rtc_time temp hw;
  vms ← vrtc_update_basetime ticks physical_time 0 vms;
  Some (vms, hw).

(** ** Port accesses *)

Definition vrtc_get_reg_c (v : acrn_vrtc) : Z * acrn_vrtc :=
  let r := rtc v in
  let ret := reg r RTC_INTR in
  let ret :=
    if nonzero (reg r RTC_STATUSB &&& RTCSB_AINTR) then
      let current := reg r RTC_HRS * 3600 + reg r RTC_MIN * 60 + reg r RTC_SEC in
      let alarm := reg r RTC_HRSALRM * 3600 + reg r RTC_MINALRM * 60 + reg r RTC_SECALRM in
      if (alarm - RTC_DELTA <=? current) && (current <=? alarm + RTC_DELTA)
      then ret ||| TRIGGER_ALARM else ret
    else ret in
  (ret, v⟨rtc := set_reg r RTC_INTR 0⟩).

(** The value read, or [None] for a register that cannot be read. *)
Definition vrtc_read (ticks port : Z) (service : bool) (v : acrn_vrtc) (hw : cmos)
    : option (option Z * acrn_vrtc * cmos) :=
  let offset := u8 (addr v) in
  if port =? CMOS_ADDR_PORT then Some (Some offset, v, hw)
  else if service then
    let (x, hw) := cmos_get_reg_val offset hw in Some (Some x, v, hw)
  else if offset <=? RTC_CENTURY then
    '(current, v) ← vrtc_get_current_time ticks v;
    r ← secs_to_rtc current (rtc v);
    let v := v⟨rtc := r⟩ in
    if offset =? 0xC then let (x, v) := vrtc_get_reg_c v in Some (Some x, v, hw)
    else x ← rtc v !! Z.to_nat offset; Some (Some x, v, hw)
  else Some (None, v, hw).

Definition vrtc_is_time_register (offset : Z) : bool :=
  (offset =? RTC_SEC) || (offset =? RTC_MIN) || (offset =? RTC_HRS) || (offset =? RTC_DAY)
  || (offset =? RTC_MONTH) || (offset =? RTC_YEAR) || (offset =? RTC_CENTURY).

(** The store [*((uint8_t * )&vrtc->rtcdev + vrtc->addr) = x]. *)
Definition store_reg (x : Z) (v : acrn_vrtc) : option acrn_vrtc :=
  if (0 <=? addr v) && (addr v <? Z.of_nat (length (rtc v)))
  then Some v⟨rtc := set_reg (rtc v) (addr v) x⟩ else None.

(** A write of a User VM to the register it has selected. *)
Definition vrtc_write_reg (ticks value : Z) (v : acrn_vrtc) : option acrn_vrtc :=
  if (addr v =? RTC_STATUSA) || (addr v =? RTC_INTR) || (addr v =? RTC_STATUSD) then Some v
  else if addr v =? RTC_STATUSB then Some v⟨rtc := set_reg (rtc v) RTC_STATUSB value⟩
  else if (addr v =? RTC_SECALRM) || (addr v =? RTC_MINALRM) || (addr v =? RTC_HRSALRM) then
    store_reg (value &&& 0x7F) v
  else
    let mask := if addr v =? RTC_SEC then 0x7F else 0xFF in
    v ← store_reg (value &&& mask) v;
    '(current, v) ← vrtc_get_current_time ticks v;
    after ← rtc_to_secs (rtc v);
    delta ← time_add after (- current);
    o ← time_add (offset_rtctime v) delta;
    Some v⟨offset_rtctime := o⟩⟨last_rtctime := VRTC_BROKEN_TIME⟩.

(** A write of the VM [i]. *)
Definition vrtc_write (temp : rtcdev) (ticks : Z) (i : nat) (port width value : Z)
    (vms : list rtc_vm) (hw : cmos) : option (list rtc_vm * cmos) :=
  vm ← vms !! i;
  let v := vrtc vm in
  if (width =? 1) && (port =? CMOS_ADDR_PORT) then
    Some (<[i := vm⟨vrtc := v⟨addr := u8 (value &&& 0x7F)⟩⟩]> vms, hw)
  else if is_service_vm vm then
    if vrtc_is_time_register (addr v) then
      '(current, hw) ← vrtc_get_physical_rtc_time temp hw;
      let hw := cmos_set_reg_val (addr v) (value &&& 0xFF) hw in
      '(after, hw) ← vrtc_get_physical_rtc_time temp hw;
      delta ← time_add current (- after);
      vms ← vrtc_update_basetime ticks after delta vms;
      Some (vms, hw)
    else Some (vms, cmos_set_reg_val (addr v) (value &&& 0xFF) hw)
  else
    v ← vrtc_write_reg ticks value v;
    Some (<[i := vm⟨vrtc := v⟩]> vms, hw).

(** The Service VM arms the calibration timer, for [ticks] plus a period. *)
Definition CALIBRATE_PERIOD : Z := 3 * 3600 * 1000.
Definition calibrate_setup_timer (ticks_per_ms ticks : Z) : Z * Z :=
  let period := u64 (ticks_per_ms * CALIBRATE_PERIOD) in (u64 (ticks + period), period).

Definition vrtc_init (ticks_per_ms ticks : Z) (vm : rtc_vm) (hw : cmos)
    : option (rtc_vm * option (Z * Z) * cmos) :=
  let v := (vrtc vm)⟨addr := 0⟩ in
  if is_service_vm vm then
    Some (vm⟨vrtc := v⟩, Some (calibrate_setup_timer ticks_per_ms ticks), hw)
  else
    '(v, hw) ← vrtc_set_basetime v hw;
    Some (vm⟨vrtc := v⟨base_tsc := ticks⟩⟩, None, hw).
End clock.

(** ** Dates and seconds *)

Fixpoint years_total (n : nat) (y : Z) : Z :=
  match n with O => 0 | S n' => days_in_year y + years_total n' (y + 1) end.
Fixpoint months_total (n : nat) (y i : Z) : option Z :=
  match n with
  | O => Some 0
  | S n' => d ← days_in_month y i; t ← months_total n' y (i + 1); Some (d + t)
  end.

Lemma days_in_year_pos y : 365 ≤ days_in_year y ≤ 366.
Proof. unfold days_in_year. case_if; lia. Qed.

Lemma leapyear_01 y : leapyear y = 0 ∨ leapyear y = 1.
Proof. unfold leapyear. repeat case_if; auto. Qed.

Lemma days_in_month_valid y m :
  1 ≤ m ≤ 12 → ∃ d, days_in_month y m = Some d ∧ 28 ≤ d ≤ 31.
Proof.
  intros Hm. unfold days_in_month. destruct (leapyear_01 y) as [-> | ->].
  all: assert (m ∈ seqZ 1 12) as Hin by (apply elem_of_seqZ; lia); revert Hin; clear.
  all: vm_compute seqZ; rewrite !elem_of_cons; intros Hin.
  all: repeat destruct Hin as [->|Hin]; try (eexists; split; [by vm_compute|lia]).
  all: by apply not_elem_of_nil in Hin.
Qed.

(** A year is the sum of its months. *)
Lemma months_of_year y : months_total 12 y 1 = Some (days_in_year y).
Proof.
  unfold days_in_year. destruct (leapyear_01 y) as [E|E].
  all: cbn [months_total]; unfold days_in_month; rewrite E; by vm_compute.
Qed.

Lemma years_total_nonneg n y : 0 ≤ years_total n y.
Proof.
  revert y. induction n as [|n IH]; intros y; simpl; [lia|].
  pose proof (days_in_year_pos y). specialize (IH (y + 1)). lia.
Qed.

Lemma sum_years_ok n y acc :
  0 ≤ acc → acc + years_total n y < 2 ^ 32 → sum_years n y acc = acc + years_total n y.
Proof.
  revert y acc. induction n as [|n IH]; intros y acc Ha Hb; simpl in *; [lia|].
  pose proof (days_in_year_pos y). pose proof (years_total_nonneg n (y + 1)).
  rewrite u32_id by (split; lia). rewrite IH by lia. lia.
Qed.

Lemma days_in_month_nonneg y i d : days_in_month y i = Some d → 0 ≤ d.
Proof.
  unfold days_in_month. destruct (month_days !! Z.to_nat (i - 1)) as [x|] eqn:E; [|done].
  assert (0 ≤ x) as Hx .
  { refine (Forall_lookup_1 (λ x, 0 ≤ x) month_days _ _ _ E). by apply (bool_decide_unpack _). }
  intros [= <-]. destruct (leapyear_01 y) as [-> | ->]; case_if; lia.
Qed.

Lemma months_total_nonneg n y i t : months_total n y i = Some t → 0 ≤ t.
Proof.
  revert i t. induction n as [|n IH]; intros i t Ht; simpl in Ht; [by injection Ht as <-|].
  destruct (days_in_month y i) as [d|] eqn:Ed; [|done]. cbn [mbind option_bind] in Ht.
  destruct (months_total n y (i + 1)) as [t'|] eqn:Et; [|done]. injection Ht as <-.
  apply days_in_month_nonneg in Ed. apply IH in Et. lia.
Qed.

Lemma sum_months_ok n y i acc t :
  months_total n y i = Some t → 1 ≤ i → i + Z.of_nat n ≤ 13 → 0 ≤ acc → acc + t < 2 ^ 32 →
  sum_months n y i acc = Some (acc + t).
Proof.
  revert i acc t. induction n as [|n IH]; intros i acc t Ht Hi Hn Ha Hb; simpl in *.
  - injection Ht as <-. f_equal. lia.
  - destruct (days_in_month_valid y i) as (d & Hd & ?); [lia|]. rewrite Hd in Ht |- *.
    cbn [mbind option_bind] in *. destruct (months_total n y (i + 1)) as [t'|] eqn:Et; [|done].
    injection Ht as <-. pose proof (months_total_nonneg _ _ _ _ Et).
    rewrite u32_id by (split; lia). rewrite (IH (i + 1) (acc + d) t') by (done || lia).
    f_equal. lia.
Qed.

Lemma find_year_ok n y days :
  0 ≤ days < years_total n y →
  ∃ k d, find_year n y days = Some (y + Z.of_nat k, d) ∧ (k < n)%nat ∧
    days = years_total k y + d ∧ 0 ≤ d < days_in_year (y + Z.of_nat k).
Proof.
  revert y days. induction n as [|n IH]; intros y days Hd; simpl in *; [lia|].
  destruct (Z.leb_spec (days_in_year y) days) as [L|L].
  - destruct (IH (y + 1) (days - days_in_year y)) as (k & d & -> & Hk & Hs & Hr); [lia|].
    exists (S k), d. replace (y + Z.of_nat (S k)) with (y + 1 + Z.of_nat k) by lia.
    split; [done|]. split; [lia|]. simpl. split; [lia|done].
  - exists 0%nat, days. rewrite Z.add_0_r. split; [done|]. split; [lia|]. simpl. lia.
Qed.

Lemma find_year_more n m y days r :
  find_year n y days = Some r → find_year (n + m) y days = Some r.
Proof.
  revert y days. induction n as [|n IH]; intros y days; [done|]. simpl. case_if; auto.
Qed.

Lemma find_month_ok n y i days t :
  months_total n y i = Some t → 0 ≤ days < t →
  ∃ k d dm t', find_month (S n) y i days = Some (i + Z.of_nat k, d) ∧ (k < n)%nat ∧
    months_total k y i = Some t' ∧ days = t' + d ∧
    days_in_month y (i + Z.of_nat k) = Some dm ∧ 0 ≤ d < dm.
Proof.
  revert i days t. induction n as [|n IH]; intros i days t Ht Hd.
  { simpl in Ht. injection Ht as <-. lia. }
  cbn [months_total] in Ht. destruct (days_in_month y i) as [dm|] eqn:Edm; [|done].
  cbn [mbind option_bind] in Ht. destruct (months_total n y (i + 1)) as [t1|] eqn:Et; [|done].
  injection Ht as <-. remember (S n) as n1 eqn:En. cbn [find_month]. rewrite Edm.
  cbn [mbind option_bind]. destruct (Z.leb_spec dm days) as [L|L].
  - destruct (IH (i + 1) (days - dm) t1 Et) as (k & d & dm' & t' & Hf & Hk & Ht' & Hs & Hdm & Hr); [lia|].
    rewrite Hf. exists (S k), d, dm', (dm + t').
    replace (i + Z.of_nat (S k)) with (i + 1 + Z.of_nat k) by lia.
    split_and!; [done|lia| |lia|done|lia|lia].
    cbn [months_total]. rewrite Edm. cbn [mbind option_bind]. by rewrite Ht'.
  - exists 0%nat, days, dm, 0. rewrite Z.add_0_r. split_and!; try done; lia.
Qed.

(** The first second of 2038, after which the years are refused. *)
Definition END_TIME : Z := 2145916800.

(** A date and time that the calendar has. *)
Definition valid_clk (ct : clktime) : Prop :=
  1970 ≤ year ct ≤ 2037 ∧ 1 ≤ mon ct ≤ 12 ∧ 1 ≤ day ct ≤ 31 ∧
  0 ≤ hour ct < 24 ∧ 0 ≤ min ct < 60 ∧ 0 ≤ sec ct < 60 ∧ 0 ≤ dow ct < 7.

(** The seconds of a day from its hours, minutes and seconds. *)
Lemma day_seconds r :
  0 ≤ r < 86400 →
  (r / 3600 * 60 + r mod 3600 / 60) * 60 + (r mod 3600) mod 60 = r ∧
  0 ≤ r / 3600 < 24 ∧ 0 ≤ r mod 3600 / 60 < 60 ∧ 0 ≤ (r mod 3600) mod 60 < 60.
Proof. intros Hr. Z.div_mod_to_equations. lia. Qed.

Lemma clk_ts_to_ct_ok t :
  0 ≤ t < END_TIME →
  ∃ ct k j t', clk_ts_to_ct t = Some (0, ct) ∧ valid_clk ct ∧
    year ct = 1970 + Z.of_nat k ∧ (k < 68)%nat ∧ mon ct = 1 + Z.of_nat j ∧
    months_total j (year ct) 1 = Some t' ∧ t / 86400 = years_total k 1970 + t' + (day ct - 1) ∧
    (∃ dm, days_in_month (year ct) (mon ct) = Some dm ∧ day ct ≤ dm) ∧
    (hour ct * 60 + min ct) * 60 + sec ct = t mod 86400.
Proof.
  unfold END_TIME. intros Ht.
  pose proof (Z.div_mod t 86400 ltac:(lia)) as Hdm.
  pose proof (Z.mod_pos_bound t 86400 ltac:(lia)) as Hr.
  assert (0 ≤ t / 86400 < 24837) as Hdays by lia.
  assert (years_total 68 1970 = 24837) as Hy by (by vm_compute).
  destruct (find_year_ok 68 1970 (t / 86400)) as (k & d & Hf & Hk & Hs & Hd); [lia|].
  destruct (find_month_ok 12 (1970 + Z.of_nat k) 1 d _ (months_of_year _))
    as (j & d' & dm & t' & Hm & Hj & Ht' & Hs' & Hdm' & Hd'); [lia|].
  destruct (day_seconds (t mod 86400) Hr) as (Hsec & Hh & Hmi & Hse).
  unfold clk_ts_to_ct. change SECDAY with 86400.
  rewrite (Z.quot_div_nonneg t), (Z.rem_mod_nonneg t) by lia.
  rewrite (Z.quot_div_nonneg (t mod 86400)), (Z.rem_mod_nonneg (t mod 86400)) by lia.
  pose proof (Z.mod_pos_bound (t mod 86400) 3600 ltac:(lia)).
  rewrite (Z.quot_div_nonneg (_ mod 3600)), (Z.rem_mod_nonneg (_ mod 3600)) by lia.
  rewrite u32_id by (split; lia). change POSIX_BASE_YEAR with 1970.
  apply (find_year_more 68 2) in Hf. cbn [Nat.add] in Hf. rewrite Hf. cbn [mbind option_bind]. rewrite Hm.
  cbn [mbind option_bind]. rewrite Hdm'. cbn [mbind option_bind].
  replace ((12 <? 1 + Z.of_nat j) || (2037 <? 1970 + Z.of_nat k)) with false
    by (symmetry; apply orb_false_iff; rewrite !Z.ltb_ge; lia).
  replace (dm <? d' + 1) with false by (symmetry; apply Z.ltb_ge; lia).
  destruct (days_in_month_valid (1970 + Z.of_nat k) (1 + Z.of_nat j)) as (dm2 & Edm & Hdm31); [lia|].
  rewrite Hdm' in Edm. injection Edm as <-.
  eexists _, k, j, t'. split; [done|]. cbn [year mon day hour min sec dow].
  pose proof (Z.mod_pos_bound (t / 86400 + 4) 7 ltac:(lia)).
  split_and!; try done; try lia; [unfold valid_clk; cbn; unfold day_of_week; lia|].
  exists dm. split; [done|lia].
Qed.

(** From seconds to a date and back. *)
Lemma clk_round_trip t :
  0 ≤ t < END_TIME →
  ∃ ct, clk_ts_to_ct t = Some (0, ct) ∧ valid_clk ct ∧ clk_ct_to_ts ct = Some (Some t).
Proof.
  intros Ht. destruct (clk_ts_to_ct_ok t Ht)
    as (ct & k & j & t' & Hc & Hv & Hy & Hk & Hm & Ht' & Hd & (dm & Hdm & Hdd) & Hs).
  exists ct. split; [done|]. split; [done|]. destruct Hv as (Vy & Vm & Vd & Vh & Vmi & Vs & _).
  unfold END_TIME in Ht. pose proof (Z.div_mod t 86400 ltac:(lia)) as Hdm'.
  pose proof (years_total_nonneg k 1970). pose proof (months_total_nonneg _ _ _ _ Ht').
  assert (t / 86400 < 24837) by lia.
  unfold clk_ct_to_ts. replace ((mon ct <? 1) || (12 <? mon ct) || (day ct <? 1)) with false
    by (symmetry; rewrite !orb_false_iff, !Z.ltb_ge; lia).
  rewrite Hdm. cbn [mbind option_bind].
  match goal with |- context [if ?b then Some None else _] => replace b with false
    by (symmetry; unfold POSIX_BASE_YEAR; rewrite !orb_false_iff, !Z.ltb_ge; lia) end.
  replace (Z.to_nat (year ct - POSIX_BASE_YEAR)) with k by (unfold POSIX_BASE_YEAR; lia).
  replace (Z.to_nat (mon ct - 1)) with j by lia. change POSIX_BASE_YEAR with 1970.
  rewrite sum_years_ok by lia. rewrite (sum_months_ok _ _ _ _ t') by (done || lia).
  cbn [mbind option_bind].
  repeat match goal with
         | |- context [u32 ?x] =>
             lazymatch x with
             | context [u32 _] => fail
             | _ => rewrite (u32_id x) by (split; lia)
             end
         end.
  replace ((((0 + years_total k 1970 + t' + (day ct - 1)) * 24 + hour ct) * 60 + min ct) * 60 + sec ct)
    with t by lia.
  unfold s32, signed. rewrite Z.mod_small by lia.
  by replace (t <? 2 ^ (32 - 1)) with true by (symmetry; apply Z.ltb_lt; lia).
Qed.

(** ** Registers and seconds *)

(** The registers of [struct rtcdev]. *)
Definition rtc_wf (r : rtcdev) : Prop := length r = 51%nat.

Lemma set_reg_wf r i v : rtc_wf r → rtc_wf (set_reg r i v).
Proof. unfold rtc_wf, set_reg, rtcdev in *. by rewrite length_insert. Qed.

Lemma reg_set_eq r i v : rtc_wf r → 0 ≤ i ≤ 50 → reg (set_reg r i v) i = u8 v.
Proof.
  unfold rtc_wf, reg, set_reg, rtcdev in *. intros Hr Hi.
  by rewrite nth_lookup, list_lookup_insert_eq by lia.
Qed.

Lemma reg_set_ne r i j v : 0 ≤ i → 0 ≤ j → i ≠ j → reg (set_reg r i v) j = reg r j.
Proof.
  unfold reg, set_reg, rtcdev in *. intros Hi Hj Hn. by rewrite !nth_lookup, list_lookup_insert_ne by lia.
Qed.

(** A number below 100 through [rtcset] and [rtcget], in either mode. *)
Lemma rtcset_rtcget r x :
  0 ≤ x < 100 →
  ∃ b, rtcset r x = Some b ∧ 0 ≤ b < 256 ∧ (x < 80 → b < 128) ∧
    ∀ r', reg r' RTC_STATUSB = reg r RTC_STATUSB → rtcget r' b = Some x.
Proof.
  intros Hx. unfold rtcset, rtcget. destruct (nonzero (reg r RTC_STATUSB &&& RTCSB_BCD)) eqn:E.
  { exists x. rewrite u8_id by (split; lia). split_and!; try done; try lia.
    intros r' ->. by rewrite E. }
  assert (Forall (λ x, from_option (λ b, 0 ≤ b < 256 ∧ (x < 80 → b < 128) ∧
    9 <? b &&& 15 = false ∧ 9 <? Z.shiftr b 4 &&& 15 = false ∧
    (Z.shiftr b 4 &&& 15) * 10 + (b &&& 15) = x) False (bin2bcd_data !! Z.to_nat x))
    (seqZ 0 100)) as H by (repeat (apply Forall_cons_2; [by vm_compute|]); by apply Forall_nil_2).
  rewrite Forall_forall in H. specialize (H x). rewrite elem_of_seqZ in H.
  destruct (bin2bcd_data !! Z.to_nat x) as [b|]; [|exfalso; apply H; lia].
  destruct H as (? & ? & Hl & Hu & Hv); [lia|]. exists b. split_and!; try done; try lia.
  intros r' ->. rewrite E. cbv zeta. by rewrite Hl, Hu, Hv.
Qed.

Ltac reg_simpl :=
  repeat first [ rewrite reg_set_ne by done
               | rewrite reg_set_eq by (by repeat apply set_reg_wf) ].

(** The hour of a 12-hour clock. *)
Lemma rtc_hour_ok r r' h :
  0 ≤ h < 24 → reg r' RTC_STATUSB = reg r RTC_STATUSB →
  let h24 := nonzero (reg r RTC_STATUSB &&& RTCSB_24HR) in
  ∃ b, rtcset r (if h24 then h else if (h =? 0) || (h =? 12) then 12 else h mod 12) = Some b ∧
    (reg r' RTC_HRS = u8 (if negb h24 && (12 <=? h) then b ||| 0x80 else b) →
     rtc_hour r' = Some h).
Proof.
  intros Hh Hb h24. unfold rtc_hour. rewrite Hb. fold h24. destruct h24.
  { destruct (rtcset_rtcget r h) as (b & -> & Hb8 & _ & Hg); [lia|]. exists b. split; [done|].
    simpl. rewrite u8_id by (split; lia). intros ->. by rewrite (Hg r' Hb). }
  set (hr := if (h =? 0) || (h =? 12) then 12 else h mod 12). pose proof (Z.mod_pos_bound h 12 ltac:(lia)).
  assert (1 ≤ hr ≤ 12 ∧ (if hr =? 12 then 0 else hr) = h mod 12) as (Hhr & Hhr').
  { subst hr. destruct (Z.eqb_spec h 0) as [->|]; [by vm_compute|].
    destruct (Z.eqb_spec h 12) as [->|]; [by vm_compute|]. simpl.
    destruct (Z.eqb_spec (h mod 12) 12); Z.div_mod_to_equations; lia. }
  destruct (rtcset_rtcget r hr) as (b & -> & Hb8 & Hb7 & Hg); [lia|]. exists b. split; [done|].
  specialize (Hb7 ltac:(lia)).
  assert (nonzero (u8 (b ||| 0x80) &&& 0x80) = true ∧ u8 (b ||| 0x80) &&& bnot 32 0x80 = b ∧
          nonzero (u8 b &&& 0x80) = false ∧ u8 b = b) as (B1 & B2 & B3 & B4).
  { assert (Forall (λ b, nonzero (u8 (b ||| 0x80) &&& 0x80) = true ∧
      u8 (b ||| 0x80) &&& bnot 32 0x80 = b ∧ nonzero (u8 b &&& 0x80) = false ∧ u8 b = b)
      (seqZ 0 128)) as H128 by (by apply (bool_decide_unpack _)).
    rewrite Forall_forall in H128. apply H128, elem_of_seqZ. lia. }
  destruct (Z.leb_spec 12 h) as [L|L]; cbn [negb andb]; intros ->.
  all: rewrite ?B1, ?B2, ?B3, ?B4, (Hg r' Hb); cbn [mbind option_bind].
  all: replace ((1 <=? hr) && (hr <=? 12)) with true
    by (symmetry; apply andb_true_iff; rewrite !Z.leb_le; lia).
  all: rewrite Hhr'; f_equal; Z.div_mod_to_equations; lia.
Qed.

(** Registers with the fields of a date decode to its second. *)
Lemma rtc_to_secs_ok ct t r :
  valid_clk ct → clk_ct_to_ts ct = Some (Some t) →
  rtcget r (reg r RTC_SEC) = Some (sec ct) → rtcget r (reg r RTC_MIN) = Some (min ct) →
  rtcget r (reg r RTC_DAY) = Some (day ct) → rtcget r (reg r RTC_MONTH) = Some (mon ct) →
  rtcget r (reg r RTC_YEAR) = Some (year ct mod 100) →
  rtcget r (reg r RTC_CENTURY) = Some (year ct / 100) → rtc_hour r = Some (hour ct) →
  rtc_to_secs r = Some t.
Proof.
  intros Hv Hs Es Emi Ed Emo Ey Ec Eh. destruct Hv as (Vy & _).
  unfold rtc_to_secs, rtc_clock. rewrite Es, Emi, Ed, Emo, Ey, Ec, Eh.
  cbn [mbind option_bind year].
  replace (year ct / 100 * 100 + year ct mod 100) with (year ct)
    by (pose proof (Z.div_mod (year ct) 100 ltac:(lia)); lia).
  replace (year ct <? POSIX_BASE_YEAR) with false
    by (symmetry; apply Z.ltb_ge; unfold POSIX_BASE_YEAR; lia).
  change (clk_ct_to_ts _) with (clk_ct_to_ts ct). by rewrite Hs.
Qed.

(** The registers that [secs_to_rtc] stores decode to the same second, in BCD or binary and
    with 12 or 24 hours. *)
Lemma rtc_round_trip t r :
  rtc_wf r → 0 < t < END_TIME →
  ∃ r', secs_to_rtc t r = Some r' ∧ rtc_wf r' ∧ rtc_to_secs r' = Some t ∧
    ∀ i, RTC_STATUSA ≤ i < RTC_CENTURY → reg r' i = reg r i.
Proof.
  intros Hr Ht. destruct (clk_round_trip t) as (ct & Hc & Hv & Hs); [lia|].
  pose proof Hv as (Vy & Vm & Vd & Vh & Vmi & Vs & Vw).
  unfold secs_to_rtc. replace (0 <? t) with true by (symmetry; apply Z.ltb_lt; lia).
  rewrite Hc. cbn [mbind option_bind]. change (0 =? 0) with true. cbv iota.
  assert (year ct / 100 < 100 ∧ 0 ≤ year ct / 100) as [] by (Z.div_mod_to_equations; lia).
  pose proof (Z.mod_pos_bound (year ct) 100 ltac:(lia)).
  destruct (rtcset_rtcget r (sec ct)) as (s & -> & Bs & _ & Gs); [lia|].
  destruct (rtcset_rtcget r (min ct)) as (mi & -> & Bmi & _ & Gmi); [lia|].
  destruct (rtcset_rtcget r (dow ct + 1)) as (wd & -> & _); [lia|].
  destruct (rtcset_rtcget r (day ct)) as (d & -> & Bd & _ & Gd); [lia|].
  destruct (rtcset_rtcget r (mon ct)) as (mo & -> & Bmo & _ & Gmo); [lia|].
  destruct (rtcset_rtcget r (year ct mod 100)) as (y & -> & By & _ & Gy); [lia|].
  destruct (rtcset_rtcget r (year ct / 100)) as (c & -> & Bc & _ & Gc); [lia|].
  destruct (rtc_hour_ok r r (hour ct)) as (h & Hh & _); [lia|done|]. rewrite Hh.
  cbn [mbind option_bind]. eexists. split; [done|]. split; [by repeat apply set_reg_wf|].
  split; [|intros i Hi; unfold RTC_STATUSA, RTC_CENTURY in Hi;
           unfold RTC_SEC, RTC_MIN, RTC_HRS, RTC_WDAY, RTC_DAY, RTC_MONTH, RTC_YEAR, RTC_CENTURY;
           by rewrite !reg_set_ne by lia].
  match goal with |- rtc_to_secs ?x = _ => set (r' := x) end.
  assert (reg r' RTC_STATUSB = reg r RTC_STATUSB) as Hb by (subst r'; by reg_simpl).
  destruct (rtc_hour_ok r r' (hour ct)) as (h' & Hh' & Hhour); [lia|done|].
  rewrite Hh in Hh'. injection Hh' as <-.
  assert (reg r' RTC_SEC = s ∧ reg r' RTC_MIN = mi ∧ reg r' RTC_DAY = d ∧ reg r' RTC_MONTH = mo ∧
          reg r' RTC_YEAR = y ∧ reg r' RTC_CENTURY = c) as (Rs & Rmi & Rd & Rmo & Ry & Rc).
  { subst r'. split_and!; reg_simpl; apply u8_id; split; lia. }
  apply (rtc_to_secs_ok ct); rewrite ?Rs, ?Rmi, ?Rd, ?Rmo, ?Ry, ?Rc; auto.
  apply Hhour. subst r'. by reg_simpl.
Qed.

(** ** The time that a guest sees *)

(** The ticks of a second, and the seconds since the base of the clock. *)
Definition hz (tsc_khz : Z) : Z := u32 (tsc_khz * 1000).
Definition elapsed (tsc_khz ticks : Z) (v : acrn_vrtc) : Z := (ticks - base_tsc v) / hz tsc_khz.

(** The time of a VM by its own setting. *)
Definition clock_at (tsc_khz ticks : Z) (v : acrn_vrtc) : Z :=
  base_rtctime v + offset_rtctime v + elapsed tsc_khz ticks v.

(** A clock that runs, within the range of [time_t]. *)
Record clock_ok (tsc_khz ticks : Z) (v : acrn_vrtc) : Prop := {
  ck_wf : rtc_wf (rtc v);
  ck_hz : 0 < hz tsc_khz;
  ck_base : 0 < base_rtctime v;
  ck_tsc : 0 ≤ base_tsc v ≤ ticks;
  ck_ticks : ticks < 2 ^ 64;
  ck_start : - 2 ^ 31 ≤ base_rtctime v + offset_rtctime v;
  ck_now : 0 ≤ clock_at tsc_khz ticks v < 2 ^ 31;
  ck_range : base_rtctime v + elapsed tsc_khz ticks v < 2 ^ 31 }.

Lemma time_add_ok a b : - 2 ^ 31 ≤ a + b < 2 ^ 31 → time_add a b = Some (a + b).
Proof.
  intros H. unfold time_add.
  by replace ((- 2 ^ 31 <=? a + b) && (a + b <? 2 ^ 31)) with true
    by (symmetry; apply andb_true_iff; rewrite Z.leb_le, Z.ltb_lt; lia).
Qed.

Lemma time_add_inv a b c : time_add a b = Some c → c = a + b.
Proof. unfold time_add. case_if; congruence. Qed.

Lemma current_time_ok khz ticks v :
  clock_ok khz ticks v →
  vrtc_get_current_time khz ticks v =
    Some (Z.max (last_rtctime v) (clock_at khz ticks v),
          v⟨last_rtctime := Z.max (last_rtctime v) (clock_at khz ticks v)⟩).
Proof.
  intros [_ Hz Hb Ht Ht' Hs Hn Hr]. unfold vrtc_get_current_time.
  replace (0 <? base_rtctime v) with true by (symmetry; apply Z.ltb_lt; lia).
  fold (hz khz). cbv zeta. replace (hz khz =? 0) with false by (symmetry; apply Z.eqb_neq; lia).
  rewrite u64_id by (split; lia). fold (elapsed khz ticks v).
  assert (0 ≤ elapsed khz ticks v) by (apply Z.div_pos; lia). unfold clock_at in *.
  rewrite time_add_ok by lia. cbn [mbind option_bind].
  replace (s32 (elapsed khz ticks v)) with (elapsed khz ticks v).
  2: { unfold s32, signed. rewrite Z.mod_small by lia.
       by replace (_ <? _) with true by (symmetry; apply Z.ltb_lt; lia). }
  rewrite time_add_ok by lia. cbn [mbind option_bind].
  destruct (Z.ltb_spec (base_rtctime v + offset_rtctime v + elapsed khz ticks v) (last_rtctime v)).
  - rewrite Z.max_l by lia. by destruct v.
  - by rewrite Z.max_r by lia.
Qed.

(** Clearing the interrupt register does not change the time. *)
Lemma rtc_to_secs_intr r x : rtc_to_secs (set_reg r RTC_INTR x) = rtc_to_secs r.
Proof.
  unfold rtc_to_secs, rtc_clock, rtc_hour, rtcget. by rewrite !reg_set_ne by done.
Qed.

(** What a read of a register by a User VM shows. *)
Lemma vrtc_read_ok khz ticks v hw :
  clock_ok khz ticks v → 0 ≤ addr v ≤ RTC_CENTURY →
  let now := Z.max (last_rtctime v) (clock_at khz ticks v) in
  0 < now < END_TIME →
  ∃ x v', vrtc_read khz ticks CMOS_DATA_PORT false v hw = Some (Some x, v', hw) ∧
    rtc_to_secs (rtc v') = Some now ∧ last_rtctime v' = now ∧ rtc_wf (rtc v') ∧
    (addr v ≠ RTC_INTR → x = reg (rtc v') (addr v)) ∧
    base_rtctime v' = base_rtctime v ∧ offset_rtctime v' = offset_rtctime v ∧
    base_tsc v' = base_tsc v ∧ addr v' = addr v.
Proof.
  intros Hk Ha now Hn. unfold vrtc_read. unfold RTC_CENTURY in *.
  rewrite u8_id by (split; lia). change (CMOS_DATA_PORT =? CMOS_ADDR_PORT) with false. cbv iota zeta.
  replace (addr v <=? 50) with true by (symmetry; apply Z.leb_le; lia).
  rewrite (current_time_ok _ _ _ Hk). fold now. cbn [mbind option_bind].
  destruct (rtc_round_trip now (rtc v) (ck_wf _ _ _ Hk) Hn) as (r' & Hr & Hwf & Hs & _).
  change (rtc (v⟨last_rtctime := now⟩)) with (rtc v). rewrite Hr. cbn [mbind option_bind].
  destruct (Z.eqb_spec (addr v) 12) as [E|E].
  - eexists _, _. split; [reflexivity|]. cbn. rewrite rtc_to_secs_intr.
    split_and!; try done; by apply set_reg_wf.
  - destruct (lookup_lt_is_Some_2 r' (Z.to_nat (addr v))) as [x Hx].
    { unfold rtc_wf in Hwf. unfold rtcdev in *. lia. }
    replace (rtc _ !! _) with (Some x) by (symmetry; exact Hx). cbn [mbind option_bind]. eexists x, _. split; [reflexivity|]. cbn.
    split_and!; try done. intros _. unfold reg, rtcdev in *. by rewrite nth_lookup, Hx.
Qed.

(** What a write of a register of the time by a User VM does. *)
Lemma vrtc_write_reg_ok khz ticks value v after :
  clock_ok khz ticks v → last_rtctime v ≤ clock_at khz ticks v →
  vrtc_is_time_register (addr v) = true →
  let r := set_reg (rtc v) (addr v) (value &&& (if addr v =? RTC_SEC then 0x7F else 0xFF)) in
  rtc_to_secs r = Some after → 0 < after < END_TIME →
  vrtc_write_reg khz ticks value v =
    Some v⟨rtc := r⟩⟨offset_rtctime := offset_rtctime v + (after - clock_at khz ticks v)⟩
          ⟨last_rtctime := VRTC_BROKEN_TIME⟩.
Proof.
  intros Hk Hl Ha r Hr Haf. pose proof Hk as [Hw Hz Hb Ht Ht' Hs Hn Hg]. unfold END_TIME in Haf.
  unfold vrtc_is_time_register in Ha. rewrite !orb_true_iff, !Z.eqb_eq in Ha.
  unfold RTC_SEC, RTC_MIN, RTC_HRS, RTC_DAY, RTC_MONTH, RTC_YEAR, RTC_CENTURY in Ha.
  unfold vrtc_write_reg. match goal with |- (if ?b then _ else _) = _ => replace b with false
    by (symmetry; rewrite !orb_false_iff, !Z.eqb_neq; unfold RTC_STATUSA, RTC_INTR, RTC_STATUSD; lia) end.
  replace (addr v =? RTC_STATUSB) with false
    by (symmetry; apply Z.eqb_neq; unfold RTC_STATUSB; lia).
  match goal with |- (if ?b then _ else _) = _ => replace b with false
    by (symmetry; rewrite !orb_false_iff, !Z.eqb_neq;
        unfold RTC_SECALRM, RTC_MINALRM, RTC_HRSALRM; lia) end.
  cbv zeta. unfold store_reg. unfold rtc_wf in Hw.
  match goal with |- context [if ?b then Some _ else None] => replace b with true
    by (symmetry; rewrite andb_true_iff, Z.leb_le, Z.ltb_lt, Hw; lia) end.
  cbn [mbind option_bind]. fold r. rewrite current_time_ok.
  2: { split; try done. by apply set_reg_wf. }
  cbn [mbind option_bind].
  change (clock_at khz ticks (v⟨rtc := r⟩)) with (clock_at khz ticks v).
  change (last_rtctime (v⟨rtc := r⟩)) with (last_rtctime v). rewrite Z.max_r by lia.
  match goal with |- context [rtc_to_secs ?x] => change x with r end. rewrite Hr. cbn [mbind option_bind]. unfold clock_at in *.
  assert (0 ≤ elapsed khz ticks v) by (apply Z.div_pos; lia).
  rewrite time_add_ok by lia. cbn [mbind option_bind].
  match goal with |- context [time_add ?x _] => change x with (offset_rtctime v) end.
  rewrite time_add_ok by lia. by destruct v.
Qed.

Lemma elapsed_mono khz t0 t1 v :
  0 < hz khz → t0 ≤ t1 → elapsed khz t0 v ≤ elapsed khz t1 v.
Proof. intros. apply Z.div_le_mono; lia. Qed.


(** 2023-11-14 22:13:20, in BCD and 24 hours. *)
Definition a_date : rtcdev :=
  [0x20; 0; 0x13; 0; 0x22; 0; 3; 0x14; 0x11; 0x23; 0x26; 0x02; 0; 0x80] ++ replicate 36 0 ++ [0x20].
Definition a_vm (a : Z) : rtc_vm :=
  mk_rtc_vm false false true (mk_vrtc a 1700000000 0 (-1) 0 a_date).


(** *** The clock does not go back *)

(** What happens to a User VM between two settings of its clock: it selects a register, the
    base of its clock moves, because of a calibration or of the Service VM, or it reads a
    register; a read shows the time that the registers then have. *)
Inductive rtc_step (khz : Z) : rtc_vm → list Z → rtc_vm → Prop :=
  | step_select vm temp ticks value hw vm' hw' :
      vrtc_write khz temp ticks 0 CMOS_ADDR_PORT 1 value [vm] hw = Some ([vm'], hw') →
      rtc_step khz vm [] vm'
  | step_base vm ticks physical_time offset vm' :
      vrtc_update_basetime ticks physical_time offset [vm] = Some [vm'] →
      rtc_step khz vm [] vm'
  | step_read vm ticks hw x v' hw' t :
      clock_ok khz ticks (vrtc vm) → 0 ≤ addr (vrtc vm) ≤ RTC_CENTURY →
      0 < Z.max (last_rtctime (vrtc vm)) (clock_at khz ticks (vrtc vm)) < END_TIME →
      vrtc_read khz ticks CMOS_DATA_PORT false (vrtc vm) hw = Some (x, v', hw') →
      rtc_to_secs (rtc v') = Some t →
      rtc_step khz vm [t] vm⟨vrtc := v'⟩.

Inductive rtc_run (khz : Z) : rtc_vm → list Z → rtc_vm → Prop :=
  | run_nil vm : rtc_run khz vm [] vm
  | run_step vm ts vm' ts' vm'' :
      rtc_step khz vm ts vm' → rtc_run khz vm' ts' vm'' → rtc_run khz vm (ts ++ ts') vm''.

Lemma rtc_step_last khz vm ts vm' :
  rtc_step khz vm ts vm' →
  (ts = [] ∧ last_rtctime (vrtc vm') = last_rtctime (vrtc vm)) ∨
  (∃ t, ts = [t] ∧ last_rtctime (vrtc vm) ≤ t ∧ last_rtctime (vrtc vm') = t).
Proof.
  destruct 1 as [vm temp ticks value hw vm' hw' H|vm ticks p o vm' H|vm ticks hw x v' hw' t Hk Ha Hn H Ht].
  - left. split; [done|]. by injection H as <- <-.
  - left. split; [done|]. cbn in H. case_if; [|by injection H as <-].
    destruct (time_add _ o); [|done]. by injection H as <-.
  - right. destruct (vrtc_read_ok khz ticks (vrtc vm) hw Hk Ha Hn) as (x' & v1 & Hr & Hs & Hl & _).
    rewrite Hr in H. injection H as <- <- <-. rewrite Hs in Ht. injection Ht as <-.
    exists (Z.max (last_rtctime (vrtc vm)) (clock_at khz ticks (vrtc vm))).
    split; [done|]. split; [lia|done].
Qed.


(** The physical clock is put back by an hour, between two reads five seconds apart. *)
Definition a_vm_at (base tsc : Z) : rtc_vm :=
  mk_rtc_vm false false true
    (mk_vrtc RTC_SEC base 0 1700000005 tsc (set_reg a_date RTC_SEC 0x25)).


(** *** The Service VM and the other VMs *)

Lemma update_basetime_lookup ticks p o vms vms' j vm :
  vrtc_update_basetime ticks p o vms = Some vms' → vms !! j = Some vm →
  is_rt_vm vm || is_prelaunched_vm vm = true →
  vms' !! j = Some vm⟨vrtc := (vrtc vm)⟨base_tsc := ticks⟩⟨base_rtctime := p⟩
                                ⟨offset_rtctime := offset_rtctime (vrtc vm) + o⟩⟩.
Proof.
  revert vms' j. induction vms as [|w vms IH]; intros vms' j H Hj Hp; [done|].
  cbn [vrtc_update_basetime] in H.
  destruct (if is_rt_vm w || is_prelaunched_vm w then _ else _) as [w'|] eqn:Ew; [|done].
  cbn [mbind option_bind] in H. destruct (vrtc_update_basetime ticks p o vms) as [vms1|] eqn:Er; [|done].
  injection H as <-. destruct j as [|j]; [|by apply (IH vms1 j)]. simpl in Hj. injection Hj as ->.
  rewrite Hp in Ew. destruct (time_add _ o) as [o'|] eqn:Eo; [|done].
  apply time_add_inv in Eo as ->. by injection Ew as <-.
Qed.

(** the Service VM can set the physical clock without moving the clock of another VM: when
    it writes a register of the date or the time, the clock of each pre-launched or real-time
    VM is based on the new physical time and its offset corrected, so that at that tick the VM
    still has the physical time from before the write plus its own offset. *)
Theorem service_write_keeps_guest_time khz temp ticks i value vms hw svm vms' hw' current hw1 j vm :
  vms !! i = Some svm → is_service_vm svm = true → vrtc_is_time_register (addr (vrtc svm)) = true →
  vrtc_get_physical_rtc_time temp hw = Some (current, hw1) →
  vrtc_write khz temp ticks i CMOS_DATA_PORT 1 value vms hw = Some (vms', hw') →
  vms !! j = Some vm → is_rt_vm vm || is_prelaunched_vm vm = true →
  ∃ v', vms' !! j = Some vm⟨vrtc := v'⟩ ∧
    clock_at khz ticks v' = current + offset_rtctime (vrtc vm) ∧
    rtc v' = rtc (vrtc vm) ∧ last_rtctime v' = last_rtctime (vrtc vm).
Proof.
  intros Hi Hs Ha Hc H Hj Hp. unfold vrtc_write in H. rewrite Hi in H. cbn [mbind option_bind] in H.
  rewrite Hs, Ha, Hc in H. change (CMOS_DATA_PORT =? CMOS_ADDR_PORT) with false in H.
  rewrite andb_false_r in H. cbn [mbind option_bind] in H.
  clear Hc. destruct (vrtc_get_physical_rtc_time temp _) as [[after hw2]|]; [|done].
  cbn [mbind option_bind] in H. destruct (time_add current (- after)) as [o|] eqn:Eo; [|done].
  apply time_add_inv in Eo as ->. cbn [mbind option_bind] in H. destruct (vrtc_update_basetime _ _ _ _) as [vms1|] eqn:E1; [|done].
  injection H as <- <-. eexists. split; [by eapply update_basetime_lookup|].
  split; [|done]. unfold clock_at, elapsed. cbn. rewrite Z.sub_diag, Zdiv_0_l. lia.
Qed.

(** The Service VM puts the physical clock back by seventeen hours. *)
Definition a_service_vm : rtc_vm :=
  mk_rtc_vm true false false (mk_vrtc RTC_HRS 0 0 (-1) 0 a_date).

Lemma service_write_keeps_guest_time_witness :
  ∃ v', [a_service_vm; (a_vm RTC_SEC)⟨vrtc := mk_vrtc RTC_SEC 1699938800 61200 (-1) 7000000000 a_date⟩]
          !! 1%nat = Some (a_vm RTC_SEC)⟨vrtc := v'⟩ ∧
    clock_at 1000000 7000000000 v' = 1700000000 + 0 ∧ rtc v' = a_date ∧ last_rtctime v' = -1.
Proof.
  apply (service_write_keeps_guest_time 1000000 a_date 7000000000 0 0x05
    [a_service_vm; a_vm RTC_SEC] (mk_cmos a_date []) a_service_vm _
    (mk_cmos (set_reg a_date RTC_HRS 5) []) 1700000000 (mk_cmos a_date []) 1 (a_vm RTC_SEC)).
  all: by vm_compute.
Defined.

(** *** Registers past the end *)

Lemma vrtc_write_reg_past_end khz ticks x v :
  rtc_wf (rtc v) → 50 < addr v → vrtc_write_reg khz ticks x v = None.
Proof.
  intros Hw Ha. unfold vrtc_write_reg, store_reg. unfold rtc_wf in Hw. rewrite Hw.
  unfold RTC_STATUSA, RTC_INTR, RTC_STATUSD, RTC_STATUSB, RTC_SECALRM, RTC_MINALRM, RTC_HRSALRM.
  repeat match goal with |- context [addr v =? ?n] =>
    replace (addr v =? n) with false by (symmetry; apply Z.eqb_neq; lia) end.
  cbn [orb]. by replace (addr v <? Z.of_nat 51) with false by (symmetry; apply Z.ltb_ge; lia);
    rewrite andb_false_r.
Qed.

(** the register that a User VM selects is stored to without a bound: a number above the
    century register, which a read refuses, is accepted by the address port, and the following
    write to the data port stores past the end of [struct rtcdev]. *)
Theorem vrtc_write_past_end khz temp ticks i value x vms hw vm :
  vms !! i = Some vm → is_service_vm vm = false → rtc_wf (rtc (vrtc vm)) →
  RTC_CENTURY < value &&& 0x7F →
  ∃ v', vrtc_write khz temp ticks i CMOS_ADDR_PORT 1 value vms hw =
          Some (<[i := vm⟨vrtc := v'⟩]> vms, hw) ∧
    addr v' = value &&& 0x7F ∧
    vrtc_read khz ticks CMOS_DATA_PORT false v' hw = Some (None, v', hw) ∧
    vrtc_write khz temp ticks i CMOS_DATA_PORT 1 x (<[i := vm⟨vrtc := v'⟩]> vms) hw = None.
Proof.
  intros Hi Hs Hw Hv. unfold RTC_CENTURY in Hv.
  assert (value &&& 0x7F < 128).
  { change 0x7F with (Z.ones 7). rewrite Z.land_ones by lia. by apply Z.mod_pos_bound. }
  eexists ((vrtc vm)⟨addr := value &&& 0x7F⟩).
  set (v' := (vrtc vm)⟨addr := value &&& 0x7F⟩).
  assert (addr v' = value &&& 0x7F) as Ha by done. split_and!; [|done| |].
  - unfold vrtc_write. rewrite Hi. cbn [mbind option_bind]. by rewrite u8_id by (split; lia).
  - unfold vrtc_read. rewrite Ha, u8_id by (split; lia).
    change (CMOS_DATA_PORT =? CMOS_ADDR_PORT) with false. unfold RTC_CENTURY.
    by replace (value &&& 0x7F <=? 50) with false by (symmetry; apply Z.leb_gt; lia).
  - unfold vrtc_write. rewrite list_lookup_insert_eq by (by apply lookup_lt_Some in Hi).
    cbn [mbind option_bind]. change (CMOS_DATA_PORT =? CMOS_ADDR_PORT) with false.
    rewrite andb_false_r. change (is_service_vm (vm⟨vrtc := v'⟩)) with (is_service_vm vm).
    rewrite Hs. change (vrtc (vm⟨vrtc := v'⟩)) with v'. by rewrite vrtc_write_reg_past_end by (done || lia).
Qed.

(** Register 100. *)
Lemma vrtc_write_past_end_witness :
  ∃ v', vrtc_write 1000000 [] 0 0 CMOS_ADDR_PORT 1 100 [a_vm RTC_SEC] (mk_cmos [] []) =
          Some ([(a_vm RTC_SEC)⟨vrtc := v'⟩], mk_cmos [] []) ∧
    addr v' = 100 ∧
    vrtc_read 1000000 0 CMOS_DATA_PORT false v' (mk_cmos [] []) = Some (None, v', mk_cmos [] []) ∧
    vrtc_write 1000000 [] 0 0 CMOS_DATA_PORT 1 7 [(a_vm RTC_SEC)⟨vrtc := v'⟩] (mk_cmos [] []) = None.
Proof.
  by apply (vrtc_write_past_end 1000000 [] 0 0 100 7 [a_vm RTC_SEC] (mk_cmos [] []) (a_vm RTC_SEC)).
Defined.
