(* ===== verification/Ptdev.v ===== *)
(** * Interrupts of passthrough devices

    hypervisor/common/ptdev.c: the table of remapping entries with its bitmap and its two hash
    tables, and the way of a physical interrupt from the handler through the softirq queue,
    for User VMs with a delay timer, to the softirq that injects it.

    The state is that of one physical CPU: its softirq queue, its timers ([Timer.timers]) and
    its pending softirqs, with the tables of all CPUs.  A node of an intrusive list is the
    number of its entry in [ptirq_entries]; the timer of entry [i] is the timer object [i].
    The list code dereferences the pointers of a node, so an operation on the node of an entry
    that was never initialised, or on an hlist node that is not linked, is undefined: [None].
    The message fields [vmsi] and [pmsi] are pairs of an address and a data word. *)

From S2P Require Import Prelude Bits LinkedList Timer Irq.

Definition PTIRQ_ENTRY_HASHBITS : Z := 9.
Definition PTIRQ_ENTRY_HASHSIZE : Z := 512.
Definition CONFIG_MAX_PT_IRQ_ENTRIES : Z := 64.
Definition INVALID_PTDEV_ENTRY_ID : Z := 0xffff.
Definition INVALID_IRTE_ID : Z := 0xffff.
Definition PTDEV_INTR_MSI : Z := 1.
Definition PTDEV_INTR_INTX : Z := 2.
Definition HASH_FACTOR64 : Z := 0x9E3779B9486E555E.

(** The functions whose addresses are stored: the action of the interrupts, the handler of the
    delay timers. *)
Definition PTIRQ_INTERRUPT_HANDLER : nat := 1.
Definition PTIRQ_INTR_DELAY_CALLBACK : nat := 2.

Definition hash64 (key bits : Z) : Z := Z.shiftr (u64 (key * HASH_FACTOR64)) (64 - bits).

(** [node] is whether the list nodes of the entry are initialised. *)
Record ptirq_remapping_info := mk_ptirq {
  ptdev_entry_id : Z;
  intr_type : Z;
  phys_sid : Z; virt_sid : Z;
  vm : option nat;
  active : bool;
  allocated_pirq : Z;
  polarity : Z;
  node : bool;
  vmsi : Z * Z; pmsi : Z * Z;
  irte_idx : Z;
  intr_count : Z;
  release_cb : option nat }.

#[export] Instance eta_ptirq : Eta ptirq_remapping_info :=
  { eta := rd mk_ptirq <*> ptdev_entry_id <*> intr_type <*> phys_sid <*> virt_sid <*> vm
             <*> active <*> allocated_pirq <*> polarity <*> node <*> vmsi <*> pmsi
             <*> irte_idx <*> intr_count <*> release_cb }.

(** An entry after [memset]. *)
Definition zero_entry : ptirq_remapping_info :=
  mk_ptirq 0 0 0 0 None false 0 0 false (0, 0) (0, 0) 0 0 None.
Definition zero_timer : hv_timer := mk_hv_timer TICK_MODE_ONESHOT 0 0 None 0.

(** What the code uses of a VM: whether it is the Service VM, whether interrupts can be posted
    to it, the delay of its interrupts in ticks, and the address of its [struct acrn_vm]. *)
Record pt_vm := mk_pt_vm {
  service : bool; pi_capable : bool; intr_inject_delay_delta : Z; vm_addr : Z }.

#[export] Instance eta_pt_vm : Eta pt_vm :=
  { eta := rd mk_pt_vm <*> service <*> pi_capable <*> intr_inject_delay_delta <*> vm_addr }.

Inductive gsi_op := GSI_SET_HIGH | GSI_SET_LOW | GSI_RAISING_PULSE | GSI_FALLING_PULSE.

(** Calls into components that are not part of the model. *)
Inductive pt_effect :=
  | Call_release_cb (cb : nat) (e : ptirq_remapping_info)
  | Vlapic_inject_msi (v : nat) (msi : Z * Z)
  | Vioapic_set_irqline (v : nat) (gsi : Z) (op : gsi_op)
  | Vpic_set_irqline (v : nat) (gsi : Z) (op : gsi_op)
  | Handle_x86_tee_int (i : nat)
  | Ioapic_gsi_mask_irq (irq : Z)
  | Ioapic_gsi_unmask_irq (irq : Z)
  | Ioapic_set_rte (irq rte : Z)
  | Dmar_free_irte (is_msi : bool) (src idx : Z).

Record ptdev := mk_ptdev {
  ptirq_entries : list ptirq_remapping_info;
  ptirq_entry_bitmaps : list Z;
  phys_sid_htable : list (list nat);
  virt_sid_htable : list (list nat);
  softirq_dev_entry_list : list nat;
  cpu_timers : timers;
  softirqs : Softirq.softirq unit;
  irqs : Irq.irqs;
  pt_vms : list pt_vm;
  effects : list pt_effect }.

#[export] Instance eta_ptdev : Eta ptdev :=
  { eta := rd mk_ptdev <*> ptirq_entries <*> ptirq_entry_bitmaps <*> phys_sid_htable
             <*> virt_sid_htable <*> softirq_dev_entry_list <*> cpu_timers <*> softirqs
             <*> irqs <*> pt_vms <*> effects }.

#[local] Existing Instance x86_bitmap.

Definition emit (e : pt_effect) (st : ptdev) : ptdev := st⟨effects := effects st ++ [e]⟩.

Definition upd_entry (i : nat) (f : ptirq_remapping_info → ptirq_remapping_info) (st : ptdev)
    : option ptdev :=
  e ← ptirq_entries st !! i; Some st⟨ptirq_entries := <[i := f e]> (ptirq_entries st)⟩.

(** [is_service_vm] is false of NULL. *)
Definition is_service_vm (st : ptdev) (v : option nat) : bool :=
  match v with
  | Some v => match pt_vms st !! v with Some x => service x | None => false end
  | None => false
  end.

(** ** Entries *)

(** Another CPU can take a number between the search and the test-and-set: [fuel] is how
    often. *)
Fixpoint ptirq_alloc_entry_id (fuel : nat) (map : list Z) : option (Z * list Z) :=
  r ← ffz64_ex map CONFIG_MAX_PT_IRQ_ENTRIES;
  let id := u16 r in
  if id <? CONFIG_MAX_PT_IRQ_ENTRIES then
    let k := Z.to_nat (Z.shiftr id 6) in
    let '(old, w) := X86Bits.bitmap_test_and_set (id &&& 0x3F) (nth k map 0) in
    let map := <[k := w]> map in
    if old then match fuel with O => None | S fuel => ptirq_alloc_entry_id fuel map end
    else Some (id, map)
  else Some (INVALID_PTDEV_ENTRY_ID, map).

Definition hlist_linked (i : nat) (tab : list (list nat)) : bool :=
  existsb (λ b, Seq.linked i b) tab.

Definition hlist_add_head (i : nat) (k : Z) (tab : list (list nat)) : option (list (list nat)) :=
  if hlist_linked i tab then None
  else b ← tab !! Z.to_nat k; Some (<[Z.to_nat k := i :: b]> tab).

Definition hlist_del (i : nat) (tab : list (list nat)) : option (list (list nat)) :=
  if hlist_linked i tab then Some (Seq.del i <$> tab) else None.

(** Clearing an entry, its timer included, that is still on a list breaks the list. *)
Definition memset_entry (i : nat) (st : ptdev) : option ptdev :=
  if hlist_linked i (phys_sid_htable st) || hlist_linked i (virt_sid_htable st)
     || Seq.linked i (softirq_dev_entry_list st) || timer_is_started i (cpu_timers st)
  then None
  else
    st ← upd_entry i (λ _, zero_entry) st;
    Some st⟨cpu_timers := set_tobj i zero_timer (cpu_timers st)⟩.

(** The number of the entry, [None] for NULL. *)
Definition ptirq_alloc_entry (v : nat) (ty : Z) (st : ptdev) : option (option nat * ptdev) :=
  '(id, map) ← ptirq_alloc_entry_id 0 (ptirq_entry_bitmaps st);
  let st := st⟨ptirq_entry_bitmaps := map⟩ in
  if id <? CONFIG_MAX_PT_IRQ_ENTRIES then
    let i := Z.to_nat id in
    st ← memset_entry i st;
    st ← upd_entry i (λ e, e⟨ptdev_entry_id := id⟩⟨intr_type := ty⟩⟨vm := Some v⟩
                            ⟨intr_count := 0⟩⟨irte_idx := INVALID_IRTE_ID⟩⟨node := true⟩
                            ⟨active := false⟩) st;
    ts ← initialize_timer i (Some PTIRQ_INTR_DELAY_CALLBACK) (Z.of_nat i) 0 0 (cpu_timers st);
    Some (Some i, st⟨cpu_timers := ts⟩)
  else Some (None, st).

Definition ptirq_release_entry (i : nat) (st : ptdev) : option ptdev :=
  e ← ptirq_entries st !! i;
  if node e then
    let st := st⟨softirq_dev_entry_list := Seq.del i (softirq_dev_entry_list st)⟩ in
    let st := st⟨cpu_timers := del_timer i (cpu_timers st)⟩ in
    let k := Z.to_nat (Z.shiftr (ptdev_entry_id e) 6) in
    let w := X86Bits.bitmap_clear (ptdev_entry_id e &&& 0x3F) (nth k (ptirq_entry_bitmaps st) 0) in
    memset_entry i st⟨ptirq_entry_bitmaps := <[k := w]> (ptirq_entry_bitmaps st)⟩
  else None.

(** ** Looking entries up *)

(** The key of a source identifier with the address of a VM, 0 for NULL. *)
Definition ptirq_hash_key (addr sid : Z) : Z := hash64 (u64 (sid + addr)) PTIRQ_ENTRY_HASHBITS.

Fixpoint hlist_scan (P : ptirq_remapping_info → bool) (l : list nat) (st : ptdev)
    : option (option nat) :=
  match l with
  | [] => Some None
  | i :: l' =>
      e ← ptirq_entries st !! i;
      if active e && P e then Some (Some i) else hlist_scan P l' st
  end.

Definition find_ptirq_entry (ty sid : Z) (v : option nat) (st : ptdev) : option (option nat) :=
  match v with
  | None =>
      b ← phys_sid_htable st !! Z.to_nat (ptirq_hash_key 0 sid);
      hlist_scan (λ n, (ty =? intr_type n) && (sid =? phys_sid n)) b st
  | Some v =>
      x ← pt_vms st !! v;
      b ← virt_sid_htable st !! Z.to_nat (ptirq_hash_key (vm_addr x) sid);
      hlist_scan (λ n, (ty =? intr_type n) && (sid =? virt_sid n)
                       && bool_decide (vm n = Some v)) b st
  end.

(** ** From the interrupt to the softirq *)

Definition ptirq_enqueue_softirq (i : nat) (st : ptdev) : option ptdev :=
  e ← ptirq_entries st !! i;
  if node e then
    let l := Seq.add_tail i (Seq.del i (softirq_dev_entry_list st)) in
    Some st⟨softirq_dev_entry_list := l⟩
           ⟨softirqs := Softirq.fire_softirq Softirq.SOFTIRQ_PTDEV (softirqs st)⟩
  else None.

Definition ptirq_intr_delay_callback (i : nat) (st : ptdev) : option ptdev :=
  ptirq_enqueue_softirq i st.

(** The loop of [ptirq_dequeue_softirq] on the queue [l]; [ticks] are the values of the
    counter in its turns. *)
Fixpoint dequeue_loop (tickrate : Z) (ticks : nat → Z) (l : list nat) (st : ptdev)
    : option (option nat * ptdev) :=
  match l with
  | [] => Some (None, st)
  | i :: l' =>
      let st := st⟨softirq_dev_entry_list := l'⟩ in
      e ← ptirq_entries st !! i;
      tm ← tobj (cpu_timers st) !! i;
      if is_service_vm st (vm e) || (timer_expired tm (ticks O)).1 then Some (Some i, st)
      else
        '(ts, _) ← X86Timer.add_timer tickrate i (cpu_timers st);
        dequeue_loop tickrate (λ k, ticks (S k)) l' st⟨cpu_timers := ts⟩
  end.

Definition ptirq_dequeue_softirq (tickrate : Z) (ticks : nat → Z) (st : ptdev)
    : option (option nat * ptdev) :=
  dequeue_loop tickrate ticks (softirq_dev_entry_list st) st.

Definition ptirq_interrupt_handler (ticks : Z) (i : nat) (st : ptdev) : option ptdev :=
  e ← ptirq_entries st !! i;
  if negb (is_service_vm st (vm e)) then
    v ← vm e;
    x ← pt_vms st !! v;
    st ← upd_entry i (λ e, e⟨intr_count := u64 (intr_count e + 1)⟩) st;
    if 0 <? intr_inject_delay_delta x then
      if negb (node e) then None
      else if timer_is_started i (cpu_timers st) then Some st
      else
        let t := u64 (ticks + intr_inject_delay_delta x) in
        ptirq_enqueue_softirq i st⟨cpu_timers := update_timer i t 0 (cpu_timers st)⟩
    else ptirq_enqueue_softirq i st⟨cpu_timers := update_timer i 0 0 (cpu_timers st)⟩
  else ptirq_enqueue_softirq i st.

(** The timer softirq, with the calls of [ptirq_intr_delay_callback] that it makes: they touch
    the queue only, so they are made when the list has been served. *)
Fixpoint delay_callbacks (l : list (nat * Z)) (st : ptdev) : option ptdev :=
  match l with
  | [] => Some st
  | (f, data) :: l' =>
      st ← (if bool_decide (f = PTIRQ_INTR_DELAY_CALLBACK)
            then ptirq_intr_delay_callback (Z.to_nat data) st else Some st);
      delay_callbacks l' st
  end.

Definition pt_timer_softirq (now : Z) (st : ptdev) : option ptdev :=
  ts ← X86Timer.timer_softirq now (cpu_timers st)⟨fired := []⟩;
  delay_callbacks (fired ts) st⟨cpu_timers := ts⟩.

(** ** Activation *)

Section arch.
(** The architecture's part of [request_irq]. *)
Context (request_irq_arch : Z → bool).

Definition ptirq_activate_entry (i : nat) (phys_irq : Z) (st : ptdev) : option (Z * ptdev) :=
  e ← ptirq_entries st !! i;
  v ← vm e;
  x ← pt_vms st !! v;
  '(ret, irq, st) ←
    (if (intr_type e =? PTDEV_INTR_INTX) || negb (pi_capable x) then
       '(q, ret) ← Irq.request_irq request_irq_arch phys_irq PTIRQ_INTERRUPT_HANDLER (Z.of_nat i)
                     Irq.IRQF_PT (irqs st);
       Some (ret, if 0 <=? ret then u32 ret else Irq.IRQ_INVALID, st⟨irqs := q⟩)
     else Some (0, Irq.IRQ_INVALID, st));
  if 0 <=? ret then
    st ← upd_entry i (λ e, e⟨allocated_pirq := irq⟩⟨active := true⟩) st;
    p ← hlist_add_head i (ptirq_hash_key 0 (phys_sid e)) (phys_sid_htable st);
    q ← hlist_add_head i (ptirq_hash_key (vm_addr x) (virt_sid e)) (virt_sid_htable st);
    Some (ret, st⟨phys_sid_htable := p⟩⟨virt_sid_htable := q⟩)
  else Some (ret, st).

Definition ptirq_deactivate_entry (i : nat) (st : ptdev) : option ptdev :=
  p ← hlist_del i (phys_sid_htable st);
  q ← hlist_del i (virt_sid_htable st);
  st ← upd_entry i (λ e, e⟨active := false⟩) st⟨phys_sid_htable := p⟩⟨virt_sid_htable := q⟩;
  e ← ptirq_entries st !! i;
  if negb (allocated_pirq e =? Irq.IRQ_INVALID) then
    r ← Irq.free_irq (allocated_pirq e) (irqs st); Some st⟨irqs := r⟩
  else Some st.

(** The queue of the CPU; the boot processor also registers the softirq. *)
Definition ptdev_init (st : ptdev) : ptdev := st⟨softirq_dev_entry_list := []⟩.

Definition release_one (v i : nat) (st : ptdev) : option ptdev :=
  e ← ptirq_entries st !! i;
  if bool_decide (vm e = Some v) && active e then
    let st := match release_cb e with Some cb => emit (Call_release_cb cb e) st | None => st end in
    st ← ptirq_deactivate_entry i st;
    ptirq_release_entry i st
  else Some st.

Fixpoint release_entries (v : nat) (idx : list nat) (st : ptdev) : option ptdev :=
  match idx with
  | [] => Some st
  | i :: idx' => st ← release_one v i st; release_entries v idx' st
  end.

Definition ptdev_release_all_entries (v : nat) (st : ptdev) : option ptdev :=
  release_entries v (seq 0 (Z.to_nat CONFIG_MAX_PT_IRQ_ENTRIES)) st.
End arch.

(** ** The interrupt counts of a VM *)

(** [None] is a store past the end of the buffer. *)
Definition put (b : list Z) (k x : Z) : option (list Z) :=
  if k <? Z.of_nat (length b) then Some (<[Z.to_nat k := x]> b) else None.

Fixpoint intr_data_loop (v : nat) (cnt : Z) (l : list ptirq_remapping_info) (index : Z)
    (buffer : list Z) : option (Z * list Z) :=
  match l with
  | [] => Some (index, buffer)
  | e :: l' =>
      if negb (active e) || (allocated_pirq e =? Irq.IRQ_INVALID) then
        intr_data_loop v cnt l' index buffer
      else if bool_decide (vm e = Some v) then
        buffer ← put buffer index (allocated_pirq e);
        buffer ← put buffer (index + 1) (intr_count e);
        let index := index + 2 in
        if u32 (cnt - 2) <? index then Some (index, buffer)
        else intr_data_loop v cnt l' index buffer
      else intr_data_loop v cnt l' index buffer
  end.

Definition ptirq_get_intr_data (v : nat) (buffer : list Z) (cnt : Z) (st : ptdev)
    : option (Z * list Z) :=
  intr_data_loop v cnt (ptirq_entries st) 0 buffer.

Definition MAX_PTDEV_NUM : Z := 24.
Definition INTR_CMD_GET_DATA : Z := 0.
Definition INTR_CMD_DELAY_INT : Z := 1.

(** [hcall_vm_intr_monitor] on the structure in guest memory: its count and its buffer
    afterwards, and the state. *)
Definition hcall_vm_intr_monitor (ticks_per_ms : Z) (v : nat) (cmd buf_cnt : Z) (buffer : list Z)
    (st : ptdev) : option (Z * (Z * list Z) * ptdev) :=
  if buf_cnt <=? MAX_PTDEV_NUM * 2 then
    if cmd =? INTR_CMD_GET_DATA then
      r ← ptirq_get_intr_data v buffer buf_cnt st; Some (0, r, st)
    else if cmd =? INTR_CMD_DELAY_INT then
      x ← pt_vms st !! v;
      b ← buffer !! 0%nat;
      let x := x⟨intr_inject_delay_delta := u64 (b * ticks_per_ms)⟩ in
      Some (0, (buf_cnt, buffer), st⟨pt_vms := <[v := x]> (pt_vms st)⟩)
    else Some (0, (buf_cnt, buffer), st)
  else Some (-22, (buf_cnt, buffer), st).
