(* ===== verification/PtdevInv.v ===== *)
(** * The invariant of the passthrough entries

    What holds of the state of [Ptdev] between its operations, and what each operation does to
    it: the bitmap says which entries are in use, the chains of the hash tables are the active
    entries with the key of the bucket, a queued entry is in use and its timer does not run,
    the timers are those of the entries, and the interrupts whose action is the handler of the
    passthrough interrupts are those of the active entries.  An entry is [scheduled] when it is
    queued or its delay timer runs. *)

From S2P Require Import Prelude Bits LinkedList Timer Irq Ptdev.

#[local] Existing Instance x86_bitmap.

(** ** What the timer softirq leaves *)

(** From [ts] to [ts'] the timers that fired made the calls [calls]: a one-shot timer is off
    the list and stopped when it has made its call, the others are as they were; a periodic
    timer stays on the list. *)
Record served (ts ts' : timers) (calls : list (nat * Z)) : Prop := {
  sv_static t : static <$> tobj ts' !! t = static <$> tobj ts !! t;
  sv_sub t : t ∈ timer_list ts' → t ∈ timer_list ts;
  sv_off t : t ∉ timer_list ts → tobj ts' !! t = tobj ts !! t;
  sv_kept t tm : tobj ts !! t = Some tm → mode tm = TICK_MODE_ONESHOT → t ∈ timer_list ts →
    t ∈ timer_list ts' → tobj ts' !! t = Some tm;
  sv_fired t tm : tobj ts !! t = Some tm → t ∈ timer_list ts → t ∉ timer_list ts' →
    mode tm = TICK_MODE_ONESHOT ∧ tobj ts' !! t = Some tm⟨timeout := 0⟩ ∧
    ∃ f, func tm = Some f ∧ (f, priv_data tm) ∈ calls;
  sv_calls f d : (f, d) ∈ calls → ∃ t tm, t ∈ timer_list ts ∧ tobj ts !! t = Some tm ∧
    func tm = Some f ∧ priv_data tm = d ∧
    (mode tm = TICK_MODE_ONESHOT → t ∉ timer_list ts');
}.

Lemma timers_served_refl ts : served ts ts [].
Proof. split; auto; set_solver. Qed.

Lemma static_lookup ts ts' t tm :
  static <$> tobj ts' !! t = static <$> tobj ts !! t → tobj ts' !! t = Some tm →
  ∃ tm0, tobj ts !! t = Some tm0 ∧ mode tm0 = mode tm ∧ func tm0 = func tm ∧
    priv_data tm0 = priv_data tm.
Proof.
  intros Hs Ht. rewrite Ht in Hs. destruct (tobj ts !! t) as [tm0|]; [|done].
  exists tm0. simpl in Hs. unfold static in Hs. split; [done|]. by simplify_eq.
Qed.

Lemma timers_served_trans ts1 ts2 ts3 c1 c2 :
  served ts1 ts2 c1 → served ts2 ts3 c2 → served ts1 ts3 (c1 ++ c2).
Proof.
  intros A B. split.
  - intros t. by rewrite (sv_static _ _ _ B), (sv_static _ _ _ A).
  - intros t Ht. by apply (sv_sub _ _ _ A), (sv_sub _ _ _ B).
  - intros t Ht. rewrite (sv_off _ _ _ B); [by apply (sv_off _ _ _ A)|].
    intros Hin. by apply Ht, (sv_sub _ _ _ A).
  - intros t tm Hl Hm Hi Hi3. pose proof (sv_sub _ _ _ B _ Hi3) as Hi2.
    apply (sv_kept _ _ _ B); auto. by apply (sv_kept _ _ _ A).
  - intros t tm Hl Hi Hn. destruct (decide (t ∈ timer_list ts2)) as [Hi2|Hn2].
    + assert (tobj ts2 !! t = Some tm ∨ mode tm = TICK_MODE_PERIODIC) as [Hl2|Hp].
      { destruct (mode tm) eqn:Em; [left|by right]. by apply (sv_kept _ _ _ A). }
      * destruct (sv_fired _ _ _ B t tm Hl2 Hi2 Hn) as (Hm & Ht & f & Hf & Hc).
        split_and!; [done|done|]. exists f. set_solver.
      * pose proof (sv_static _ _ _ A t) as Hs. rewrite Hl in Hs.
        destruct (tobj ts2 !! t) as [tm2|] eqn:E2; [|done].
        destruct (sv_fired _ _ _ B t tm2 E2 Hi2 Hn) as (Hm & _).
        simpl in Hs. unfold static in Hs. simplify_eq. congruence.
    + destruct (sv_fired _ _ _ A t tm Hl Hi Hn2) as (Hm & Ht & f & Hf & Hc).
      split_and!; [done|by rewrite (sv_off _ _ _ B)|]. exists f. set_solver.
  - intros f d [Hc|Hc]%elem_of_app.
    + destruct (sv_calls _ _ _ A f d Hc) as (t & tm & Hi & Hl & Hf & Hd & Ho).
      exists t, tm. split_and!; auto. intros Hm Hi3. by apply (Ho Hm), (sv_sub _ _ _ B).
    + destruct (sv_calls _ _ _ B f d Hc) as (t & tm & Hi & Hl & Hf & Hd & Ho).
      destruct (static_lookup ts1 ts2 t tm (sv_static _ _ _ A t) Hl) as (tm0 & Hl0 & Em & Ef & Ep).
      exists t, tm0. split_and!; try congruence; [by apply (sv_sub _ _ _ A)|].
      rewrite Em. exact Ho.
Qed.

Lemma x86_expire_served t ts : timers_wf ts → t ∈ timer_list ts →
  ∃ f tm, tobj ts !! t = Some tm ∧ func tm = Some f ∧
    served ts (X86Timer.expire t ts) [(f, priv_data tm)] ∧
    fired (X86Timer.expire t ts) = fired ts ++ [(f, priv_data tm)].
Proof.
  intros Hw Ht. destruct (wf_armed _ Hw t Ht) as (tm & Hlk & Hf & Hpos & _).
  destruct (func tm) as [f|] eqn:Ef; [|done]. exists f, tm. split; [done|]. split; [done|].
  unfold X86Timer.expire. rewrite Hlk. set (ts0 := run_timer tm (del_timer t ts)).
  assert (Ed : timer_list ts0 = Seq.del t (timer_list ts))
    by (unfold ts0; by autorewrite with timers).
  assert (Eo : tobj ts0 = tobj ts) by (unfold ts0; by autorewrite with timers).
  assert (Efi : fired ts0 = fired ts ++ [(f, priv_data tm)]).
  { unfold ts0. rewrite (run_timer_fired _ _ _ _ Hlk Hpos). autorewrite with timers.
    unfold call_of. by rewrite Hlk, Ef. }
  assert (Hin : ∀ x, x ∈ timer_list ts0 ↔ x ∈ timer_list ts ∧ x ≠ t).
  { intros x. rewrite Ed. apply elem_of_seq_del, Hw. }
  assert (Hnt : t ∉ timer_list ts0) by (rewrite Hin; tauto).
  assert (Hnd : NoDup (timer_list ts0)) by (rewrite Ed; apply nodup_seq_del, Hw).
  clearbody ts0. destruct (mode tm) eqn:Em.
  - split; [|done]. split; cbn [tobj timer_list set_tobj].
    + intros x. simpl. rewrite Eo. destruct (decide (x = t)) as [->|]; [|by rewrite lookup_insert_ne].
      rewrite lookup_insert_eq, Hlk. done.
    + intros x Hx. by apply Hin.
    + intros x Hx. simpl. rewrite Eo. apply lookup_insert_ne. by intros ->.
    + intros x tmx Hx _ _ Hx'. simpl in *. rewrite Eo. apply Hin in Hx' as [_ Hne].
      by rewrite lookup_insert_ne.
    + intros x tmx Hx Hi Hx'. simpl in *. assert (x = t) as ->.
      { destruct (decide (x = t)); [done|]. destruct Hx'. by apply Hin. }
      rewrite Hlk in Hx. injection Hx as <-. rewrite Eo, lookup_insert_eq. split_and!; auto.
      exists f. set_solver.
    + intros f' d Hc%list_elem_of_singleton. simplify_eq. exists t, tm. split_and!; auto.
  - set (tm' := tm⟨timeout := _⟩).
    destruct (local_add_split t (set_tobj t tm' ts0)) as (l1 & l2 & El & _ & _ & ->); [done|done|].
    split; [|done]. simpl in El.
    assert (∀ x, x ∈ l1 ++ t :: l2 ↔ x ∈ timer_list ts) as Hl.
    { intros x. rewrite El in Hin. specialize (Hin x).
      destruct (decide (x = t)) as [->|]; set_solver. }
    split; cbn [fst]; simpl.
    + intros x. rewrite Eo. destruct (decide (x = t)) as [->|]; [|by rewrite lookup_insert_ne].
      by rewrite lookup_insert_eq, Hlk.
    + intros x Hx. by apply Hl.
    + intros x Hx. rewrite Eo. apply lookup_insert_ne. by intros ->.
    + intros x tmx Hx Hm _ _. rewrite Eo. rewrite lookup_insert_ne; [done|].
      intros ->. congruence.
    + intros x tmx Hx Hi Hx'. by destruct Hx'; apply Hl.
    + intros f' d Hc%list_elem_of_singleton. simplify_eq. exists t, tm. split_and!; auto. congruence.
Qed.

Lemma x86_loop_served now n : ∀ fuel pos nx ts,
  (S n ≤ fuel)%nat → Z.of_nat (S n) < 2 ^ 32 → timers_wf ts → headroom n ts →
  (∀ t, pos = Some t → t ∈ timer_list ts) →
  (∀ t x, pos = Some t → nx = Some x → x ≠ t ∧ x ∈ timer_list ts) →
  ∃ ts' calls, X86Timer.softirq_loop fuel now pos nx (Z.of_nat (S n)) ts = Some ts'
    ∧ timers_wf ts' ∧ fired ts' = fired ts ++ calls ∧ served ts ts' calls.
Proof.
  induction n as [|n IH]; intros fuel pos nx ts Hfuel Hn Hw Hh Hpos Hnx;
    (destruct pos as [t|]; [|exists ts, []; rewrite app_nil_r; destruct fuel; auto using timers_served_refl]);
    (destruct fuel as [|fuel]; [lia|]); cbn [X86Timer.softirq_loop].
  - rewrite u32_id by (unfold word; lia). replace (Z.of_nat 1 - 1) with 0 by lia.
    unfold nonzero. simpl. rewrite andb_false_r. exists ts, []. rewrite app_nil_r. auto using timers_served_refl.
  - rewrite u32_id by (unfold word; lia).
    replace (Z.of_nat (S (S n)) - 1) with (Z.of_nat (S n)) by lia.
    case_if; [|exists ts, []; rewrite app_nil_r; auto using timers_served_refl].
    destruct (x86_expire_wf t n ts Hw (Hpos t eq_refl) Hh) as (Hw1 & Hh1 & Hin & _).
    destruct (x86_expire_served t ts Hw (Hpos t eq_refl)) as (f & tm & _ & _ & Hs & Hf).
    set (ts1 := X86Timer.expire t ts) in *.
    destruct (IH fuel nx (match nx with None => head (timer_list ts1)
                          | Some x => Seq.next x (timer_list ts1) end) ts1)
      as (ts' & calls & Hrun & Hw' & Hf' & Hs'); [lia|lia|done|done| | |].
    + intros x ->. destruct (Hnx t x eq_refl eq_refl). by apply Hin.
    + intros x y ->. intros [??]%next_in; [done|apply Hw1].
    + exists ts', ((f, priv_data tm) :: calls). split_and!; [done|done| |by eapply (timers_served_trans _ _ _ [_])].
      rewrite Hf', Hf, <- app_assoc. done.
Qed.

Lemma x86_update_inert ts :
  timer_list (X86Timer.update_physical_timer ts) = timer_list ts ∧
  tobj (X86Timer.update_physical_timer ts) = tobj ts ∧
  fired (X86Timer.update_physical_timer ts) = fired ts.
Proof. unfold X86Timer.update_physical_timer. by destruct (first_timeout ts). Qed.

Lemma served_inert ts ts1 ts2 c : timer_list ts2 = timer_list ts1 → tobj ts2 = tobj ts1 →
  served ts ts1 c → served ts ts2 c.
Proof. intros El Eo [????? ?]. split; rewrite ?El, ?Eo; auto. Qed.

(** The timer softirq of the common code. *)
Lemma timer_softirq_served now ts : timers_wf ts → headroom 31 ts →
  ∃ ts' calls, X86Timer.timer_softirq now ts = Some ts' ∧ timers_wf ts' ∧
    fired ts' = fired ts ++ calls ∧ served ts ts' calls.
Proof.
  intros Hw Hh. unfold X86Timer.timer_softirq.
  set (nx := match head (timer_list ts) with Some t => _ | None => None end).
  destruct (x86_loop_served now 31 32 (head (timer_list ts)) nx ts)
    as (ts1 & calls & Hrun & Hw1 & Hf & Hs); [lia|lia|done|done| | |].
  - intros t. apply head_Some_elem_of.
  - intros t x Ht. unfold nx. rewrite Ht. intros [??]%next_in; [done|apply Hw].
  - change (Z.to_nat MAX_TIMER_ACTIONS) with 32%nat.
    change MAX_TIMER_ACTIONS with (Z.of_nat 32). rewrite Hrun. cbn [mbind option_bind].
    destruct (x86_update_inert ts1) as (El & Eo & Ef).
    exists (X86Timer.update_physical_timer ts1), calls. split; [done|].
    split; [by eapply timers_wf_inert|]. split; [congruence|]. by eapply served_inert.
Qed.

(** ** Hash chains

    [reg] is the list of the active entries, the latest first; a bucket holds those with its
    key, in the same order. *)

Definition chains (key : nat → Z) (reg : list nat) : list (list nat) :=
  (λ k, filter (λ i, key i = k) reg) <$> seqZ 0 PTIRQ_ENTRY_HASHSIZE.

Lemma hash64_bound key : 0 ≤ hash64 key PTIRQ_ENTRY_HASHBITS < PTIRQ_ENTRY_HASHSIZE.
Proof.
  unfold hash64, PTIRQ_ENTRY_HASHBITS, PTIRQ_ENTRY_HASHSIZE. rewrite Z.shiftr_div_pow2 by lia.
  pose proof (Z.mod_pos_bound (key * HASH_FACTOR64) (2 ^ 64) ltac:(lia)). unfold u64.
  split; [apply Z.div_pos; lia|]. apply Z.div_lt_upper_bound; lia.
Qed.

Lemma chains_lookup key reg k : 0 ≤ k < PTIRQ_ENTRY_HASHSIZE →
  chains key reg !! Z.to_nat k = Some (filter (λ i, key i = k) reg).
Proof.
  intros Hk. unfold chains. rewrite list_lookup_fmap, lookup_seqZ_lt by lia. simpl.
  by replace (0 + Z.of_nat (Z.to_nat k)) with k by lia.
Qed.

Lemma chains_ext key key' reg : (∀ i, i ∈ reg → key i = key' i) → chains key reg = chains key' reg.
Proof.
  intros H. unfold chains. apply list_fmap_ext. intros _ k _.
  apply Softirq.list_filter_iff_elem. intros i Hi. by rewrite H.
Qed.

Lemma chains_linked key reg i : (∀ j, 0 ≤ key j < PTIRQ_ENTRY_HASHSIZE) →
  hlist_linked i (chains key reg) = bool_decide (i ∈ reg).
Proof.
  intros Hk. unfold hlist_linked, Seq.linked. apply eq_true_iff_eq.
  rewrite existsb_exists, bool_decide_eq_true. split.
  - intros (b & Hb & Hi). rewrite bool_decide_eq_true in Hi. apply list_elem_of_In in Hb.
    apply list_elem_of_fmap in Hb as (k & -> & _). by apply list_elem_of_filter in Hi as [_ ?].
  - intros Hi. exists (filter (λ j, key j = key i) reg). rewrite bool_decide_eq_true. split.
    + apply list_elem_of_In, list_elem_of_fmap. exists (key i). split; [done|]. apply elem_of_seqZ.
      specialize (Hk i). lia.
    + by apply list_elem_of_filter.
Qed.

Lemma chains_add key reg i : (∀ j, 0 ≤ key j < PTIRQ_ENTRY_HASHSIZE) → i ∉ reg →
  hlist_add_head i (key i) (chains key reg) = Some (chains key (i :: reg)).
Proof.
  intros Hk Hi. unfold hlist_add_head. rewrite chains_linked, bool_decide_false by done.
  rewrite chains_lookup by done. cbn [mbind option_bind]. f_equal.
  apply list_eq. intros n. destruct (decide (n < 512)%nat) as [Hn|Hn].
  - replace n with (Z.to_nat (Z.of_nat n)) at 2 by lia.
    rewrite chains_lookup by (unfold PTIRQ_ENTRY_HASHSIZE; lia). rewrite filter_cons.
    destruct (decide (key i = Z.of_nat n)) as [E|E].
    + rewrite E, Nat2Z.id. apply list_lookup_insert_eq. unfold chains. rewrite length_fmap, length_seqZ.
      unfold PTIRQ_ENTRY_HASHSIZE. lia.
    + rewrite list_lookup_insert_ne by (specialize (Hk i); lia). replace n with (Z.to_nat (Z.of_nat n)) at 1 by lia.
      apply chains_lookup. unfold PTIRQ_ENTRY_HASHSIZE. lia.
  - rewrite !lookup_ge_None_2; [done|..].
    all: unfold chains; rewrite ?length_insert, ?length_fmap, length_seqZ; unfold PTIRQ_ENTRY_HASHSIZE; lia.
Qed.

Lemma del_filter (P : nat → Prop) `{!∀ x, Decision (P x)} i l : NoDup l →
  Seq.del i (filter P l) = filter P (Seq.del i l).
Proof.
  induction 1 as [|x l Hx Hn IH]; [done|]. cbn [Seq.del]. rewrite filter_cons.
  destruct (decide (x = i)) as [->|Hne].
  - destruct (decide (P i)); simpl; [by rewrite decide_True|].
    apply seq_del_absent. rewrite list_elem_of_filter. tauto.
  - rewrite filter_cons. destruct (decide (P x)); simpl; [rewrite decide_False by done|]; by rewrite IH.
Qed.

Lemma chains_del key reg i : (∀ j, 0 ≤ key j < PTIRQ_ENTRY_HASHSIZE) → NoDup reg → i ∈ reg →
  hlist_del i (chains key reg) = Some (chains key (Seq.del i reg)).
Proof.
  intros Hk Hn Hi. unfold hlist_del. rewrite chains_linked, bool_decide_true by done. f_equal.
  unfold chains. rewrite <- list_fmap_compose. apply list_fmap_ext. intros _ k _. simpl.
  by apply del_filter.
Qed.

(** A scan finds the first active entry of the list that matches. *)
Definition hit (P : ptirq_remapping_info → bool) (st : ptdev) (i : nat) : bool :=
  match ptirq_entries st !! i with Some e => active e && P e | None => false end.

Lemma hlist_scan_head P st l : (∀ i, i ∈ l → ∃ e, ptirq_entries st !! i = Some e) →
  hlist_scan P l st = Some (head (filter (λ i, hit P st i = true) l)).
Proof.
  induction l as [|i l IH]; intros Hl; [done|]. cbn [hlist_scan].
  destruct (Hl i) as [e He]; [set_solver|]. rewrite He. cbn [mbind option_bind].
  rewrite filter_cons. destruct (decide _) as [D|D]; unfold hit in D; rewrite He in D.
  - by rewrite D.
  - destruct (active e && P e); [done|]. apply IH. set_solver.
Qed.

(** ** The invariant *)

(** What the invariant reads of an entry. *)
Definition skel (e : ptirq_remapping_info) :=
  (ptdev_entry_id e, intr_type e, phys_sid e, virt_sid e, vm e, active e, allocated_pirq e, node e).

Definition pkey (st : ptdev) (i : nat) : Z :=
  match ptirq_entries st !! i with Some e => ptirq_hash_key 0 (phys_sid e) | None => 0 end.
Definition vkey (st : ptdev) (i : nat) : Z :=
  match ptirq_entries st !! i with
  | Some e => match vm e ≫= (λ v, pt_vms st !! v) with
              | Some x => ptirq_hash_key (vm_addr x) (virt_sid e) | None => 0 end
  | None => 0
  end.

(** The numbers in use, and to whom the entries belong. *)
Record table_wf (st : ptdev) : Prop := {
  tb_len : length (ptirq_entries st) = 64%nat;
  tb_map : ∃ w, ptirq_entry_bitmaps st = [w] ∧ word 64 w ∧
    ∀ i e, ptirq_entries st !! i = Some e → Z.testbit w (Z.of_nat i) = node e;
  tb_own i e : ptirq_entries st !! i = Some e → node e = true →
    ptdev_entry_id e = Z.of_nat i ∧ ∃ v x, vm e = Some v ∧ pt_vms st !! v = Some x;
  tb_active i e : ptirq_entries st !! i = Some e → active e = true → node e = true;
}.

(** The hash tables hold the active entries. *)
Record chains_wf (reg : list nat) (st : ptdev) : Prop := {
  ch_nodup : NoDup reg;
  ch_reg i : i ∈ reg ↔ ∃ e, ptirq_entries st !! i = Some e ∧ active e = true;
  ch_phys : phys_sid_htable st = chains (pkey st) reg;
  ch_virt : virt_sid_htable st = chains (vkey st) reg;
}.

(** A queued entry is in use and its timer is not running. *)
Record queue_wf (st : ptdev) : Prop := {
  qu_nodup : NoDup (softirq_dev_entry_list st);
  qu_node i : i ∈ softirq_dev_entry_list st →
    ∃ e, ptirq_entries st !! i = Some e ∧ node e = true;
  qu_timer i : i ∈ softirq_dev_entry_list st → i ∉ timer_list (cpu_timers st);
}.

Definition delay_timer (i : nat) (tm : hv_timer) : Prop :=
  mode tm = TICK_MODE_ONESHOT ∧ period_in_cycle tm = 0 ∧ 0 ≤ timeout tm < 2 ^ 64 ∧
  func tm = Some PTIRQ_INTR_DELAY_CALLBACK ∧ priv_data tm = Z.of_nat i.

(** The timers of the CPU are those of the entries, and have a deadline only for User VMs with
    a delay. *)
Record timer_wf (st : ptdev) : Prop := {
  tm_wf : timers_wf (cpu_timers st);
  tm_dom t tm : tobj (cpu_timers st) !! t = Some tm →
    ∃ e, ptirq_entries st !! t = Some e ∧
      ((node e = true ∧ delay_timer t tm) ∨ (tm = zero_timer ∧ t ∉ timer_list (cpu_timers st)));
  tm_obj i e : ptirq_entries st !! i = Some e → node e = true →
    ∃ tm, tobj (cpu_timers st) !! i = Some tm ∧ delay_timer i tm;
  tm_delay i tm e v x : tobj (cpu_timers st) !! i = Some tm → 0 < timeout tm →
    ptirq_entries st !! i = Some e → vm e = Some v → pt_vms st !! v = Some x →
    service x = false ∧ 0 < intr_inject_delay_delta x;
}.

(** The interrupts that call the handler are those of the active entries. *)
Record irq_wf (st : ptdev) : Prop := {
  ir_wf : Irq.irqs_wf (irqs st);
  ir_pirq i e : ptirq_entries st !! i = Some e → active e = true →
    allocated_pirq e ≠ Irq.IRQ_INVALID → 0 ≤ allocated_pirq e < Irq.NR_IRQS ∧
    ∃ d, Irq.desc_of (allocated_pirq e) (irqs st) = Some d ∧
      Irq.action d = Some PTIRQ_INTERRUPT_HANDLER ∧ Irq.priv_data d = Z.of_nat i;
  ir_desc q d : 0 ≤ q → Irq.desc_of q (irqs st) = Some d →
    Irq.action d = Some PTIRQ_INTERRUPT_HANDLER →
    ∃ i e, Irq.priv_data d = Z.of_nat i ∧ ptirq_entries st !! i = Some e ∧ active e = true ∧
      allocated_pirq e = q;
}.

Record pt_wf (reg : list nat) (st : ptdev) : Prop := {
  wf_table : table_wf st; wf_chains : chains_wf reg st; wf_queue : queue_wf st;
  wf_timer : timer_wf st; wf_irq : irq_wf st;
}.

(** *** States that differ outside of the invariant *)

Definition same_skel (st st' : ptdev) : Prop :=
  skel <$> ptirq_entries st' = skel <$> ptirq_entries st ∧
  pt_vms st' = pt_vms st.

Lemma same_skel_lookup st st' i e' : same_skel st st' → ptirq_entries st' !! i = Some e' →
  ∃ e, ptirq_entries st !! i = Some e ∧ skel e = skel e'.
Proof.
  intros [H _] He. pose proof (f_equal (λ l, l !! i) H) as H'. rewrite !list_lookup_fmap, He in H'.
  destruct (ptirq_entries st !! i) as [e|]; [|done]. exists e. split; [done|]. symmetry. by apply (inj Some).
Qed.

Lemma same_skel_sym st st' : same_skel st st' → same_skel st' st.
Proof. by intros [? ?]. Qed.

Lemma same_skel_key st st' i : same_skel st st' → pkey st' i = pkey st i ∧ vkey st' i = vkey st i.
Proof.
  intros H. unfold pkey, vkey.
  destruct (ptirq_entries st' !! i) as [e'|] eqn:E'.
  - destruct (same_skel_lookup st st' i e' H E') as (e & -> & Es). unfold skel in Es. simplify_eq.
    split; [congruence|]. replace (vm e') with (vm e) by congruence.
    by rewrite (proj2 H); replace (virt_sid e') with (virt_sid e) by congruence.
  - destruct (ptirq_entries st !! i) as [e|] eqn:E; [|done].
    destruct (same_skel_lookup st' st i e (same_skel_sym _ _ H) E) as (? & ? & _). congruence.
Qed.

Lemma pt_wf_frame reg st st' : same_skel st st' →
  ptirq_entry_bitmaps st' = ptirq_entry_bitmaps st → phys_sid_htable st' = phys_sid_htable st →
  virt_sid_htable st' = virt_sid_htable st →
  softirq_dev_entry_list st' = softirq_dev_entry_list st → cpu_timers st' = cpu_timers st →
  irqs st' = irqs st → pt_wf reg st → pt_wf reg st'.
Proof.
  intros Hs Eb Ep Ev Eq Et Ei [[Tl (w & Tm & Tw & Tb) To Ta] [Cn Cr Cp Cv] [Qn Qo Qt] [Mw Md Mo Ml] [Iw Ip Id]].
  assert (∀ i e', ptirq_entries st' !! i = Some e' → ∃ e, ptirq_entries st !! i = Some e ∧ skel e = skel e') as F.
  { intros i e'. by apply same_skel_lookup. }
  assert (∀ i e, ptirq_entries st !! i = Some e → ∃ e', ptirq_entries st' !! i = Some e' ∧ skel e = skel e') as B.
  { intros i e He. destruct (same_skel_lookup _ _ i e (same_skel_sym _ _ Hs) He) as (e' & ? & ?). eauto. }
  assert (∀ reg, chains (pkey st') reg = chains (pkey st) reg ∧ chains (vkey st') reg = chains (vkey st) reg) as K.
  { intros r. split; apply chains_ext; intros i _; apply (same_skel_key st st' i Hs). }
  unfold skel in *. split; split; rewrite ?Eb, ?Eq, ?Et, ?Ei; auto.
  - pose proof (f_equal length (proj1 Hs)) as H. rewrite !length_fmap in H. congruence.
  - exists w. split_and!; auto. intros i e' He'. destruct (F i e' He') as (e & He & Es).
    rewrite (Tb i e He). congruence.
  - intros i e' He' Hn. destruct (F i e' He') as (e & He & Es).
    destruct (To i e He) as (Hid & v & x & Hv & Hx); [congruence|].
    split; [congruence|]. exists v, x. rewrite (proj2 Hs). split; [congruence|done].
  - intros i e' He' Ha. destruct (F i e' He') as (e & He & Es). 
    replace (node e') with (node e) by congruence. apply (Ta i e He). congruence.
  - intros i. rewrite Cr. split; [intros (e & He & Ha)|intros (e' & He' & Ha)].
    + destruct (B i e He) as (e' & He' & Es). exists e'. split; [done|congruence].
    + destruct (F i e' He') as (e & He & Es). exists e. split; [done|congruence].
  - rewrite Ep, Cp. symmetry. apply K.
  - rewrite Ev, Cv. symmetry. apply K.
  - intros i Hi. destruct (Qo i Hi) as (e & He & Hn). destruct (B i e He) as (e' & He' & Es).
    exists e'. split; [done|congruence].
  - intros t tm Ht. destruct (Md t tm Ht) as (e & He & Hc). destruct (B t e He) as (e' & He' & Es).
    exists e'. split; [done|]. replace (node e') with (node e) by congruence. done.
  - intros i e' He' Hn. destruct (F i e' He') as (e & He & Es). apply (Mo i e He). congruence.
  - intros i tm e' v x Hi Ht He' Hv Hx. destruct (F i e' He') as (e & He & Es).
    rewrite (proj2 Hs) in Hx. apply (Ml i tm e v x Hi Ht He); [congruence|done].
  - intros i e' He' Ha Hq. destruct (F i e' He') as (e & He & Es).
    replace (allocated_pirq e') with (allocated_pirq e) in * by congruence.
    apply (Ip i e He); congruence.
  - intros q d Hq Hd Hact. destruct (Id q d Hq Hd Hact) as (i & e & Hp & He & Ha & Hr).
    destruct (B i e He) as (e' & He' & Es). exists i, e'. split_and!; congruence.
Qed.

Lemma insert_same_skel i e e' st : ptirq_entries st !! i = Some e → skel e' = skel e →
  same_skel st st⟨ptirq_entries := <[i := e']> (ptirq_entries st)⟩.
Proof.
  intros He Es. split; [|done]. simpl. rewrite list_fmap_insert, Es. apply list_insert_id.
  by rewrite list_lookup_fmap, He.
Qed.

(** Changing fields of an entry that the invariant does not read. *)
Lemma upd_entry_soft reg i f e st : pt_wf reg st → ptirq_entries st !! i = Some e → skel (f e) = skel e →
  upd_entry i f st = Some st⟨ptirq_entries := <[i := f e]> (ptirq_entries st)⟩ ∧
  pt_wf reg st⟨ptirq_entries := <[i := f e]> (ptirq_entries st)⟩.
Proof.
  intros Hw He Es. unfold upd_entry. rewrite He. split; [done|].
  by apply (pt_wf_frame reg st); [by apply (insert_same_skel i e)|..].
Qed.

Lemma pt_wf_queue reg st l s : pt_wf reg st → NoDup l →
  (∀ i, i ∈ l → i ∈ softirq_dev_entry_list st ∨
     i ∉ timer_list (cpu_timers st) ∧ ∃ e, ptirq_entries st !! i = Some e ∧ node e = true) →
  pt_wf reg st⟨softirq_dev_entry_list := l⟩⟨softirqs := s⟩.
Proof.
  intros [[????] [????] [Qn Qo Qt] [????] [???]] Hl Hi. split; split; auto.
  - intros i Hil. destruct (Hi i Hil) as [Hq|[_ He]]; [by apply Qo|done].
  - intros i Hil. destruct (Hi i Hil) as [Hq|[Ht _]]; [by apply Qt|done].
Qed.

(** The softirq is pending. *)
Definition armed_softirq (st : ptdev) : Prop :=
  Z.testbit (Softirq.softirq_pending (softirqs st)) Softirq.SOFTIRQ_PTDEV = true.

Lemma fire_pending (s : Softirq.softirq unit) :
  Z.testbit (Softirq.softirq_pending (Softirq.fire_softirq Softirq.SOFTIRQ_PTDEV s))
    Softirq.SOFTIRQ_PTDEV = true.
Proof.
  change (Z.testbit (Softirq.softirq_pending s ||| 2) 1 = true). rewrite Z.lor_spec.
  apply orb_true_iff. by right.
Qed.

Lemma nodup_requeue (i : nat) l : NoDup l → NoDup (Seq.add_tail i (Seq.del i l)).
Proof.
  intros Hn. unfold Seq.add_tail. apply NoDup_app. split_and!; [by apply nodup_seq_del| |apply NoDup_singleton].
  intros x Hx ->%list_elem_of_singleton. by apply not_in_del in Hx.
Qed.

Lemma enqueue_ok reg i e st : pt_wf reg st → ptirq_entries st !! i = Some e → node e = true →
  i ∉ timer_list (cpu_timers st) →
  ∃ l s, ptirq_enqueue_softirq i st = Some st⟨softirq_dev_entry_list := l⟩⟨softirqs := s⟩ ∧
    pt_wf reg st⟨softirq_dev_entry_list := l⟩⟨softirqs := s⟩ ∧
    (∀ j, j ∈ l ↔ j ∈ softirq_dev_entry_list st ∨ j = i) ∧
    armed_softirq st⟨softirq_dev_entry_list := l⟩⟨softirqs := s⟩.
Proof.
  intros Hw He Hn Ht. unfold ptirq_enqueue_softirq. rewrite He. cbn [mbind option_bind]. rewrite Hn.
  eexists _, _. split; [reflexivity|]. pose proof (qu_nodup _ (wf_queue _ _ Hw)) as Hnd.
  assert (∀ j, j ∈ Seq.add_tail i (Seq.del i (softirq_dev_entry_list st)) ↔
            j ∈ softirq_dev_entry_list st ∨ j = i) as Hl.
  { intros j. unfold Seq.add_tail. rewrite elem_of_app, elem_of_seq_del, list_elem_of_singleton by done.
    destruct (decide (j = i)); tauto. }
  split; [|split; [exact Hl|apply fire_pending]]. apply pt_wf_queue; [done|by apply nodup_requeue|].
  intros j Hj%Hl. destruct Hj as [?| ->]; [by left|right]. eauto.
Qed.

(** Setting the deadline of a timer that does not run. *)
Lemma update_timer_ok reg i e t st : pt_wf reg st → ptirq_entries st !! i = Some e → node e = true →
  i ∉ timer_list (cpu_timers st) → 0 ≤ t < 2 ^ 64 →
  (∀ v x, 0 < t → vm e = Some v → pt_vms st !! v = Some x →
     service x = false ∧ 0 < intr_inject_delay_delta x) →
  pt_wf reg st⟨cpu_timers := update_timer i t 0 (cpu_timers st)⟩ ∧
  timer_list (update_timer i t 0 (cpu_timers st)) = timer_list (cpu_timers st).
Proof.
  intros [[????] [????] [???] [Mw Md Mo Ml] [???]] He Hn Hi Ht Hd. unfold update_timer.
  destruct (Mo i e He Hn) as (tm & Htm & Dm & Dp & Dt & Df & Dd). rewrite Htm.
  set (tm' := if 0 <? 0 then _ else _). split; [|done]. split; split; auto; simpl.
  - by apply set_tobj_wf.
  - intros j tmj Hj. destruct (decide (j = i)) as [->|Hne].
    + rewrite lookup_insert_eq in Hj. injection Hj as <-. exists e. split; [done|]. left.
      split; [done|]. done.
    + rewrite lookup_insert_ne in Hj by done. by apply Md.
  - intros j ej Hj Hnj. destruct (decide (j = i)) as [->|Hne].
    + rewrite lookup_insert_eq. eexists. split; [done|]. done.
    + rewrite lookup_insert_ne by done. by apply (Mo j ej).
  - intros j tmj ej v x Hj Hpos Hej Hv Hx. destruct (decide (j = i)) as [->|Hne].
    + rewrite lookup_insert_eq in Hj. injection Hj as <-. rewrite He in Hej. injection Hej as <-.
      by apply (Hd v).
    + rewrite lookup_insert_ne in Hj by done. by apply (Ml j tmj ej v).
Qed.

(** A timer that runs is that of a User VM with a delay. *)
Lemma running_delay reg i e v x st : pt_wf reg st → i ∈ timer_list (cpu_timers st) →
  ptirq_entries st !! i = Some e → vm e = Some v → pt_vms st !! v = Some x →
  service x = false ∧ 0 < intr_inject_delay_delta x.
Proof.
  intros Hw Hi He Hv Hx. destruct (wf_armed _ (tm_wf _ (wf_timer _ _ Hw)) i Hi) as (tm & Htm & _ & Hp & _).
  by eapply (tm_delay _ (wf_timer _ _ Hw)).
Qed.

(** An entry whose interrupt will be injected: it is queued or its timer runs. *)
Definition scheduled (i : nat) (st : ptdev) : Prop :=
  i ∈ softirq_dev_entry_list st ∨ i ∈ timer_list (cpu_timers st).

(** What the arrival of an interrupt of the entry [i] makes of the state. *)
Record raised (R : Prop) (reg : list nat) (i : nat) (st st' : ptdev) : Prop := {
  ra_wf : pt_wf reg st';
  ra_skel : same_skel st st';
  ra_sched : scheduled i st';
  ra_others j : scheduled j st → scheduled j st';
  ra_softirq : softirq_dev_entry_list st' ≠ [] → armed_softirq st' ∨ R;
  ra_effects : effects st' = effects st;
}.

(** Queueing in a state that differs from [st] in the deadline and the count of the entry. *)
Lemma enqueue_raised (R : Prop) reg i e st st0 : pt_wf reg st0 → same_skel st st0 →
  ptirq_entries st0 !! i = Some e → node e = true → i ∉ timer_list (cpu_timers st0) →
  softirq_dev_entry_list st0 = softirq_dev_entry_list st →
  timer_list (cpu_timers st0) = timer_list (cpu_timers st) → effects st0 = effects st →
  ∃ st', ptirq_enqueue_softirq i st0 = Some st' ∧ raised R reg i st st'.
Proof.
  intros Hw Hs He Hn Hi Eq Et Ee.
  destruct (enqueue_ok reg i e st0) as (l & s & Hr & Hwf & Hl & Har); auto.
  eexists. split; [exact Hr|]. split; auto.
  - left. cbn. rewrite Hl. by right.
  - unfold scheduled. cbn. intros j [Hj|Hj]; [left; rewrite Hl, Eq; by left|right]. by rewrite Et.
Qed.

(** The handler of the interrupt schedules the entry. *)
Lemma interrupt_handler_ok (R : Prop) reg ticks i e st : pt_wf reg st → ptirq_entries st !! i = Some e →
  node e = true → (softirq_dev_entry_list st ≠ [] → armed_softirq st ∨ R) →
  ∃ st', ptirq_interrupt_handler ticks i st = Some st' ∧ raised R reg i st st'.
Proof.
  intros Hw He Hn Ha.
  unfold ptirq_interrupt_handler. rewrite He. cbn [mbind option_bind].
  destruct (tb_own _ (wf_table _ _ Hw) i e He Hn) as (_ & v & x & Hv & Hx).
  rewrite Hv. unfold is_service_vm. rewrite Hx. destruct (service x) eqn:Es; cbn [negb].
  { apply (enqueue_raised R reg i e st st); auto; [by split|]. intros Hi.
    destruct (running_delay reg i e v x st Hw Hi He Hv Hx). congruence. }
  cbn [mbind option_bind]. rewrite Hx. cbn [mbind option_bind].
  set (f := λ e, e⟨intr_count := _⟩).
  destruct (upd_entry_soft reg i f e st Hw He eq_refl) as [-> Hw1]. cbn [mbind option_bind].
  set (st1 := st⟨ptirq_entries := _⟩) in *. pose proof (insert_same_skel i e (f e) st He eq_refl) as Hs1.
  assert (ptirq_entries st1 !! i = Some (f e)) as He1.
  { simpl. apply list_lookup_insert_eq. by apply lookup_lt_Some in He. }
  destruct (Z.ltb_spec 0 (intr_inject_delay_delta x)) as [L|L].
  - rewrite Hn. cbn [negb]. unfold timer_is_started, Seq.linked. case_bool_decide as Hi.
    + exists st1. split; [done|]. split; auto. by right.
    + destruct (update_timer_ok reg i (f e) (u64 (ticks + intr_inject_delay_delta x)) st1) as [Hw2 El]; auto.
      { apply Z.mod_pos_bound. lia. }
      { intros v' x' _ Hv' Hx'. cbn in Hv', Hx'. by simplify_eq. }
      rewrite <- El in Hi. by apply (enqueue_raised R reg i (f e)).
  - assert (i ∉ timer_list (cpu_timers st)) as Hi.
    { intros Hi. destruct (running_delay reg i e v x st Hw Hi He Hv Hx). lia. }
    destruct (update_timer_ok reg i (f e) 0 st1) as [Hw2 El]; auto; [lia|intros; lia|].
    change (i ∉ timer_list (cpu_timers st1)) in Hi. rewrite <- El in Hi. by apply (enqueue_raised R reg i (f e)).
Qed.

(** *** The softirq *)

(** Arming the delay timer of an entry that has left the queue. *)
Lemma start_delay_ok reg tickrate i l e tm st : pt_wf reg st → softirq_dev_entry_list st = i :: l →
  ptirq_entries st !! i = Some e →
  tobj (cpu_timers st) !! i = Some tm → 0 < timeout tm →
  ∃ ts, X86Timer.add_timer tickrate i (cpu_timers st) = Some (ts, 0) ∧
    pt_wf reg st⟨softirq_dev_entry_list := l⟩⟨cpu_timers := ts⟩ ∧
    ∀ j, j ∈ timer_list ts ↔ j ∈ timer_list (cpu_timers st) ∨ j = i.
Proof.
  intros [[????] [????] [Qn Qo Qt] [Mw Md Mo Ml] [???]] Eq He Htm Hpos.
  rewrite Eq in *. apply NoDup_cons in Qn as [Hil Qn].
  destruct (Qo i ltac:(set_solver)) as (e' & He' & Hn). rewrite He in He'. injection He' as <-.
  destruct (Mo i e He Hn) as (tm' & Htm' & Dm & Dp & Dt & Df & Dd). rewrite Htm in Htm'. injection Htm' as <-.
  destruct (add_timer_ok (- X86Timer.EINVAL) X86Timer.update_physical_timer tickrate i tm (cpu_timers st))
    as (l1 & l2 & El & Hw1 & _ & Hrun); auto.
  { intros ts. split; apply x86_update_inert. }
  { by rewrite Df. }
  { rewrite Dm. done. }
  { apply Qt. set_solver. }
  assert (with_min_period tickrate tm = tm) as Em by (unfold with_min_period; by rewrite Dm).
  rewrite Em in *. set (ts1 := (set_tobj i tm (cpu_timers st))⟨timer_list := l1 ++ i :: l2⟩) in *.
  assert (∃ ts, add_timer_with (- X86Timer.EINVAL) X86Timer.update_physical_timer tickrate i (cpu_timers st)
            = Some (ts, 0) ∧ timer_list ts = timer_list ts1 ∧ tobj ts = tobj ts1) as (ts & Hr & Etl & Eto).
  { rewrite Hrun. destruct l1; eexists; (split; [reflexivity|]); [split; apply x86_update_inert|done]. }
  assert (tobj ts = tobj (cpu_timers st)) as Eo by (rewrite Eto; simpl; by apply insert_id).
  assert (∀ j, j ∈ timer_list ts ↔ j ∈ timer_list (cpu_timers st) ∨ j = i) as Hin.
  { intros j. rewrite Etl, El. simpl. set_solver. }
  exists ts. split; [exact Hr|]. split; [|exact Hin]. split; split; auto; simpl.
  - intros j Hj. apply Qo. set_solver.
  - intros j Hj. rewrite Hin. intros [Hj'| ->]; [|done]. revert Hj'. apply Qt. set_solver.
  - by eapply timers_wf_inert.
  - intros t tmt Ht. rewrite Eo in Ht. destruct (Md t tmt Ht) as (et & Het & Hc).
    exists et. split; [done|]. destruct Hc as [Hc|[Hz Hnt]]; [by left|]. right. split; [done|].
    rewrite Hin. intros [?| ->]; [done|]. rewrite Htm in Ht. injection Ht as <-. subst tm. simpl in Hpos. lia.
  - intros j ej Hj Hnj. rewrite Eo. by apply (Mo j ej).
  - intros j tmj ej v x Hj. rewrite Eo in Hj. by apply Ml.
Qed.

(** What the removal of an entry from the queue leaves alone. *)
Record dequeued (st st' : ptdev) : Prop := {
  dq_entries : ptirq_entries st' = ptirq_entries st;
  dq_vms : pt_vms st' = pt_vms st;
  dq_softirqs : softirqs st' = softirqs st;
  dq_effects : effects st' = effects st;
  dq_irqs : irqs st' = irqs st;
}.

Lemma pop_ok reg i l st : pt_wf reg st → softirq_dev_entry_list st = i :: l →
  pt_wf reg st⟨softirq_dev_entry_list := l⟩.
Proof.
  intros Hw E. replace (st⟨softirq_dev_entry_list := l⟩)
    with (st⟨softirq_dev_entry_list := l⟩⟨softirqs := softirqs st⟩) by (by destruct st).
  pose proof (qu_nodup _ (wf_queue _ _ Hw)) as Hn. rewrite E in Hn.
  apply pt_wf_queue; [done|by apply NoDup_cons in Hn as []|]. intros j Hj. left. rewrite E. set_solver.
Qed.

Lemma dequeue_ok reg tickrate ticks st : pt_wf reg st →
  ∃ r st', ptirq_dequeue_softirq tickrate ticks st = Some (r, st') ∧ pt_wf reg st' ∧ dequeued st st' ∧
    (∀ j, j ∈ softirq_dev_entry_list st' → j ∈ softirq_dev_entry_list st) ∧
    (∀ j, scheduled j st → r ≠ Some j → scheduled j st') ∧
    match r with
    | None => softirq_dev_entry_list st' = []
    | Some i => ∃ e, ptirq_entries st !! i = Some e ∧ node e = true ∧
        i ∉ softirq_dev_entry_list st' ∧ (length (softirq_dev_entry_list st') < length (softirq_dev_entry_list st))%nat
    end.
Proof.
  unfold ptirq_dequeue_softirq. remember (softirq_dev_entry_list st) as l eqn:El. symmetry in El.
  revert st ticks El. induction l as [|i l IH]; intros st ticks El Hw; cbn [dequeue_loop].
  { exists None, st. rewrite El. split_and!; auto. by split. }
  pose proof (wf_queue _ _ Hw) as [Qn Qo Qt]. rewrite El in *. apply NoDup_cons in Qn as [Hil Qn].
  destruct (Qo i ltac:(set_solver)) as (e & He & Hn).
  destruct (tm_obj _ (wf_timer _ _ Hw) i e He Hn) as (tm & Htm & Hd).
  cbn [ptirq_entries cpu_timers]. change (ptirq_entries (st⟨softirq_dev_entry_list := l⟩)) with (ptirq_entries st).
  change (cpu_timers (st⟨softirq_dev_entry_list := l⟩)) with (cpu_timers st). rewrite He, Htm. cbn [mbind option_bind].
  destruct (is_service_vm _ (vm e) || _) eqn:Eg.
  - exists (Some i), (st⟨softirq_dev_entry_list := l⟩). split; [done|]. split; [by apply (pop_ok reg i)|].
    split; [done|]. split; [set_solver|]. split; [|exists e; cbn; split_and!; auto].
    intros j [Hj|Hj] Hne; [left|by right]. cbn. rewrite El in Hj. set_solver.
  - apply orb_false_iff in Eg as [_ Et]. unfold timer_expired in Et.
    destruct (nonzero (timeout tm)) eqn:Enz; [|done].
    assert (0 < timeout tm) as Hpos.
    { unfold nonzero in Enz. apply negb_true_iff, Z.eqb_neq in Enz. destruct Hd as (_ & _ & ? & _). lia. }
    destruct (start_delay_ok reg tickrate i l e tm st Hw El He Htm Hpos) as (ts & -> & Hw1 & Hin).
    cbn [mbind option_bind].
    set (st1 := st⟨softirq_dev_entry_list := l⟩⟨cpu_timers := ts⟩) in *.
    destruct (IH st1 (λ k, ticks (S k)) eq_refl Hw1)
      as (r & st' & Hr & Hw' & [????] & Hsub & Hsch & Hres).
    exists r, st'. split; [exact Hr|]. split; [done|]. split; [by split|]. split; [set_solver|]. split.
    + intros j Hj Hne. apply Hsch; [|done]. unfold scheduled in *. cbn. rewrite Hin, El in *. set_solver.
    + destruct r as [i'|]; [|done]. destruct Hres as (e' & ? & ? & ? & ?). exists e'. split_and!; auto. cbn in *. lia.
Qed.

Lemma served_obj ts ts' c t tm : served ts ts' c → tobj ts !! t = Some tm →
  mode tm = TICK_MODE_ONESHOT →
  tobj ts' !! t = Some tm ∨ tobj ts' !! t = Some tm⟨timeout := 0⟩.
Proof.
  intros Hs Ht Hm. destruct (decide (t ∈ timer_list ts)) as [Hi|Hi].
  - destruct (decide (t ∈ timer_list ts')) as [Hi'|Hi'].
    + left. by apply (sv_kept _ _ _ Hs).
    + right. by destruct (sv_fired _ _ _ Hs t tm Ht Hi Hi') as (_ & ? & _).
  - left. by rewrite (sv_off _ _ _ Hs).
Qed.

(** The timers after the timer softirq, before its callbacks. *)
Lemma served_wf reg ts' c st : pt_wf reg st → timers_wf ts' → served (cpu_timers st) ts' c →
  pt_wf reg st⟨cpu_timers := ts'⟩.
Proof.
  intros [[????] [????] [Qn Qo Qt] [Mw Md Mo Ml] [???]] Hw Hs.
  assert (∀ i tm, delay_timer i tm → delay_timer i tm⟨timeout := 0⟩) as Hz.
  { intros i tm (? & ? & ? & ? & ?). split_and!; simpl; try done; lia. }
  split; split; auto; simpl.
  - intros i Hi Hi'. apply (Qt i Hi). by apply (sv_sub _ _ _ Hs).
  - intros t tm' Ht'. destruct (static_lookup _ _ t tm' (sv_static _ _ _ Hs t) Ht') as (tm & Ht & Em & _ & _).
    destruct (Md t tm Ht) as (e & He & [[Hn Hd]|[-> Hni]]); exists e; (split; [done|]).
    + left. split; [done|]. destruct (served_obj _ _ _ t tm Hs Ht) as [E|E]; [by apply Hd| |];
        rewrite Ht' in E; injection E as ->; auto.
    + right. rewrite (sv_off _ _ _ Hs t Hni), Ht in Ht'. injection Ht' as <-. split; [done|].
      intros Hi. by apply Hni, (sv_sub _ _ _ Hs).
  - intros i e He Hn. destruct (Mo i e He Hn) as (tm & Ht & Hd).
    destruct (served_obj _ _ _ i tm Hs Ht) as [E|E]; [by apply Hd| |]; eexists; (split; [exact E|]); auto.
  - intros i tm' e v x Ht' Hp He Hv Hx.
    destruct (static_lookup _ _ i tm' (sv_static _ _ _ Hs i) Ht') as (tm & Ht & Em & _ & _).
    destruct (Md i tm Ht) as (e' & He' & [[Hn Hd]|[-> Hni]]).
    + destruct (served_obj _ _ _ i tm Hs Ht) as [E|E]; [by apply Hd| |]; rewrite Ht' in E; injection E as ->.
      * by apply (Ml i tm e v x).
      * simpl in Hp. lia.
    + rewrite (sv_off _ _ _ Hs i Hni), Ht in Ht'. injection Ht' as <-. simpl in Hp. lia.
Qed.

Lemma delay_callbacks_ok (R : Prop) reg c : ∀ st, pt_wf reg st →
  (∀ f d, (f, d) ∈ c → f = PTIRQ_INTR_DELAY_CALLBACK ∧
     ∃ i e, d = Z.of_nat i ∧ ptirq_entries st !! i = Some e ∧ node e = true ∧
            i ∉ timer_list (cpu_timers st)) →
  (softirq_dev_entry_list st ≠ [] → armed_softirq st ∨ R) →
  ∃ l s, delay_callbacks c st = Some st⟨softirq_dev_entry_list := l⟩⟨softirqs := s⟩ ∧
    pt_wf reg st⟨softirq_dev_entry_list := l⟩⟨softirqs := s⟩ ∧
    (∀ j, j ∈ softirq_dev_entry_list st → j ∈ l) ∧
    (∀ f i, (f, Z.of_nat i) ∈ c → i ∈ l) ∧
    (l ≠ [] → armed_softirq st⟨softirq_dev_entry_list := l⟩⟨softirqs := s⟩ ∨ R).
Proof.
  induction c as [|[f d] c IH]; intros st Hw Hc Ha; cbn [delay_callbacks].
  { exists (softirq_dev_entry_list st), (softirqs st).
    replace (st⟨softirq_dev_entry_list := softirq_dev_entry_list st⟩⟨softirqs := softirqs st⟩)
      with st by (by destruct st).
    split_and!; auto. intros f i Hi. by apply not_elem_of_nil in Hi. }
  destruct (Hc f d ltac:(set_solver)) as (-> & i & e & -> & He & Hn & Hi).
  rewrite bool_decide_true by done. unfold ptirq_intr_delay_callback. rewrite Nat2Z.id.
  destruct (enqueue_ok reg i e st Hw He Hn Hi) as (l & s & -> & Hw1 & Hl & Ha1). cbn [mbind option_bind].
  set (st1 := st⟨softirq_dev_entry_list := l⟩⟨softirqs := s⟩) in *.
  destruct (IH st1 Hw1) as (l' & s' & Hr & Hw' & Hsub & Hin & Ha').
  - intros f d Hf. by apply Hc; right.
  - intros _. by left.
  - exists l', s'. split_and!; [exact Hr|exact Hw'| | |exact Ha'].
    + intros j Hj. apply Hsub. cbn. rewrite Hl. by left.
    + intros f j [E|Hj]%elem_of_cons; [|by eapply Hin]. injection E as _ E. apply Nat2Z.inj in E as ->.
      apply Hsub. cbn. rewrite Hl. by right.
Qed.

Lemma delay_headroom reg st n : pt_wf reg st → headroom n (cpu_timers st)⟨fired := []⟩.
Proof.
  intros Hw t tm Ht. destruct (tm_dom _ (wf_timer _ _ Hw) t tm Ht) as (e & _ & [[_ (_ & -> & Hb & _)]|[-> _]]);
    simpl; lia.
Qed.

(** The timer softirq queues the entries whose delay has passed. *)
Lemma pt_timer_softirq_ok (R : Prop) reg now st : pt_wf reg st →
  (softirq_dev_entry_list st ≠ [] → armed_softirq st ∨ R) →
  ∃ ts l s, pt_timer_softirq now st =
      Some st⟨cpu_timers := ts⟩⟨softirq_dev_entry_list := l⟩⟨softirqs := s⟩ ∧
    let st' := st⟨cpu_timers := ts⟩⟨softirq_dev_entry_list := l⟩⟨softirqs := s⟩ in
    pt_wf reg st' ∧ (∀ j, scheduled j st → scheduled j st') ∧
    (l ≠ [] → armed_softirq st' ∨ R).
Proof.
  intros Hw Ha. unfold pt_timer_softirq.
  assert (timers_wf (cpu_timers st)⟨fired := []⟩) as Hw0.
  { eapply (timers_wf_inert (cpu_timers st)); [done|done|apply Hw]. }
  destruct (timer_softirq_served now _ Hw0 (delay_headroom reg st 31 Hw)) as (ts & c & -> & Hwt & Hf & Hs).
  cbn in Hf. cbn [mbind option_bind]. rewrite Hf.
  assert (served (cpu_timers st) ts c) as Hs' by (destruct Hs as [? ? ? ? ? ?]; by split).
  pose proof (served_wf reg ts c st Hw Hwt Hs') as Hw1.
  destruct (delay_callbacks_ok R reg c (st⟨cpu_timers := ts⟩) Hw1) as (l & s & Hr & Hw' & Hsub & Hin & Ha').
  - intros f d Hc. destruct (sv_calls _ _ _ Hs' f d Hc) as (t & tm & Ht & Htm & Htf & Htd & Hto).
    destruct (tm_dom _ (wf_timer _ _ Hw) t tm Htm) as (e & He & [[Hn Hd]|[_ Hni]]); [|done].
    destruct Hd as (Dm & _ & _ & Df & Dd). split; [congruence|]. exists t, e.
    split_and!; [congruence|done|done|by apply Hto].
  - exact Ha.
  - exists ts, l, s. split; [exact Hr|]. split; [exact Hw'|]. split; [|exact Ha'].
    intros j [Hj|Hj]; unfold scheduled; cbn; [left; by apply Hsub|].
    destruct (decide (j ∈ timer_list ts)) as [|Hni]; [by right|left].
    destruct (wf_armed _ (tm_wf _ (wf_timer _ _ Hw)) j Hj) as (tm & Htm & _).
    destruct (sv_fired _ _ _ Hs' j tm Htm Hj Hni) as (_ & _ & f & _ & Hc).
    destruct (tm_dom _ (wf_timer _ _ Hw) j tm Htm) as (e & _ & [[_ (_ & _ & _ & _ & Dd)]|[_ ?]]); [|done].
    rewrite Dd in Hc. by eapply Hin.
Qed.

(** *** Allocation and release *)

Lemma insert_lookup_cases {A} (l : list A) i j x y : <[i := x]> l !! j = Some y →
  (j = i ∧ y = x) ∨ (j ≠ i ∧ l !! j = Some y).
Proof. intros H. apply list_lookup_insert_Some in H. naive_solver. Qed.

(** Replacing an entry that is not active leaves the hash tables and the interrupts. *)
Lemma replace_inactive reg i e e' st st' : chains_wf reg st → irq_wf st →
  ptirq_entries st !! i = Some e → active e = false → active e' = false →
  ptirq_entries st' = <[i := e']> (ptirq_entries st) → pt_vms st' = pt_vms st →
  phys_sid_htable st' = phys_sid_htable st → virt_sid_htable st' = virt_sid_htable st →
  irqs st' = irqs st → chains_wf reg st' ∧ irq_wf st'.
Proof.
  intros [Cn Cr Cp Cv] [Iw Ip Id] He Hi Hi' Ee Em Ep Ev Eq.
  assert (i ∉ reg) as Hreg by (rewrite Cr; intros (e1 & He1 & ?); congruence).
  assert (∀ j, j ≠ i → ptirq_entries st' !! j = ptirq_entries st !! j) as Hne.
  { intros j Hj. rewrite Ee. by apply list_lookup_insert_ne. }
  split; split; auto.
  - intros j. rewrite Cr. destruct (decide (j = i)) as [->|Hj]; [|by rewrite Hne].
    rewrite Ee, list_lookup_insert_eq by (by apply lookup_lt_Some in He).
    split; intros (e1 & He1 & ?); simplify_eq; congruence.
  - rewrite Ep, Cp. apply chains_ext. intros j Hj. unfold pkey. rewrite Hne; [done|]. by intros ->.
  - rewrite Ev, Cv. apply chains_ext. intros j Hj. unfold vkey. rewrite Hne, Em; [done|]. by intros ->.
  - by rewrite Eq.
  - intros j ej Hj Ha. rewrite Eq. rewrite Ee in Hj.
    apply insert_lookup_cases in Hj as [[-> ->]|[_ Hj]]; [congruence|]. by apply Ip.
  - intros q d Hq Hd Hact. rewrite Eq in Hd. destruct (Id q d Hq Hd Hact) as (j & ej & ? & Hej & ? & ?).
    exists j, ej. rewrite Hne; [done|]. intros ->. congruence.
Qed.

Lemma free_unlinked reg i e st : pt_wf reg st → ptirq_entries st !! i = Some e → node e = false →
  i ∉ reg ∧ i ∉ softirq_dev_entry_list st ∧ i ∉ timer_list (cpu_timers st).
Proof.
  intros Hw He Hn. split_and!.
  - intros (e1 & He1 & Ha)%(ch_reg _ _ (wf_chains _ _ Hw)).
    pose proof (tb_active _ (wf_table _ _ Hw) i e1 He1 Ha). congruence.
  - intros (e1 & He1 & Ha)%(qu_node _ (wf_queue _ _ Hw)). congruence.
  - intros Hi. destruct (wf_armed _ (tm_wf _ (wf_timer _ _ Hw)) i Hi) as (tm & Htm & _ & Hp & _).
    destruct (tm_dom _ (wf_timer _ _ Hw) i tm Htm) as (e1 & He1 & [[? _]|[_ ?]]); congruence.
Qed.

Lemma key_bound st i : 0 ≤ pkey st i < PTIRQ_ENTRY_HASHSIZE ∧ 0 ≤ vkey st i < PTIRQ_ENTRY_HASHSIZE.
Proof.
  unfold pkey, vkey, ptirq_hash_key. destruct (ptirq_entries st !! i) as [e|]; [|by vm_compute].
  split; [apply hash64_bound|]. destruct (vm e ≫= _); [apply hash64_bound|by vm_compute].
Qed.

(** Clearing an entry that is on no list. *)
Lemma memset_ok reg i st : chains_wf reg st → i ∉ reg → i ∉ softirq_dev_entry_list st →
  i ∉ timer_list (cpu_timers st) → is_Some (ptirq_entries st !! i) →
  memset_entry i st = Some st⟨ptirq_entries := <[i := zero_entry]> (ptirq_entries st)⟩
                             ⟨cpu_timers := set_tobj i zero_timer (cpu_timers st)⟩.
Proof.
  intros [Cn Cr Cp Cv] Hr Hq Ht [e He]. unfold memset_entry, timer_is_started, Seq.linked.
  rewrite Cp, Cv, !chains_linked by apply key_bound. rewrite !bool_decide_false by done.
  cbn [orb]. unfold upd_entry. by rewrite He.
Qed.

(** The lowest free number. *)
Lemma alloc_id_ok w : word 64 w →
  (w = Z.ones 64 ∧ ptirq_alloc_entry_id 0 [w] = Some (INVALID_PTDEV_ENTRY_ID, [w])) ∨
  (∃ r, 0 ≤ r < 64 ∧ Z.testbit w r = false ∧ ptirq_alloc_entry_id 0 [w] = Some (r, [w ||| 2 ^ r])).
Proof.
  intros Hw. destruct (Irq.x86_ffz64_ex_loop [w] 0 64) as (r & Hrun & Hb & Hlow & Hhit);
    [by apply Forall_singleton|lia|done|done|]. cbn in Hb, Hhit, Hlow.
  unfold ptirq_alloc_entry_id, ffz64_ex, x86_bitmap, X86Bits.ffz64_ex, CONFIG_MAX_PT_IRQ_ENTRIES.
  rewrite Hrun. cbn [mbind option_bind]. replace (64 * 0 + r) with r by lia.
  unfold u16. rewrite Z.mod_small by lia.
  destruct (Z.ltb_spec r 64) as [L|L].
  - right. exists r. specialize (Hhit ltac:(lia)). rewrite bit_at_head in Hhit by lia.
    apply negb_true_iff in Hhit. split_and!; [lia|lia|done|].
    rewrite Z.shiftr_div_pow2, Z.div_small by lia. cbn [nth Z.to_nat].
    unfold X86Bits.bitmap_test_and_set. rewrite (land_63_small r), (land_63_small r) by lia.
    change (Z.to_nat 0) with 0%nat. cbv iota. by rewrite Hhit.
  - left. assert (r = 64) as -> by lia. split; [|done]. apply Z.bits_inj_iff'. intros i Hi.
    destruct (Z.lt_ge_cases i 64) as [L'|L'].
    + specialize (Hlow i ltac:(lia)). rewrite bit_at_head in Hlow by lia. apply negb_false_iff in Hlow.
      by rewrite Hlow, Z.ones_spec_low by lia.
    + rewrite Z.ones_spec_high by lia. by apply (word_testbit_high 64).
Qed.

Definition fresh_entry (v i : nat) (ty : Z) : ptirq_remapping_info :=
  mk_ptirq (Z.of_nat i) ty 0 0 (Some v) false 0 0 true (0, 0) (0, 0) INVALID_IRTE_ID 0 None.
Definition fresh_timer (i : nat) : hv_timer :=
  mk_hv_timer TICK_MODE_ONESHOT 0 0 (Some PTIRQ_INTR_DELAY_CALLBACK) (Z.of_nat i).

(** The bitmap after a number has been taken or given back. *)
Lemma table_replace i e e' w' st st' : table_wf st → ptirq_entries st !! i = Some e →
  ptirq_entries st' = <[i := e']> (ptirq_entries st) → pt_vms st' = pt_vms st →
  ptirq_entry_bitmaps st' = [w'] → word 64 w' →
  (∀ w, ptirq_entry_bitmaps st = [w] → ∀ j, 0 ≤ j < 64 →
     Z.testbit w' j = if decide (j = Z.of_nat i) then node e' else Z.testbit w j) →
  (node e' = true → ptdev_entry_id e' = Z.of_nat i ∧ ∃ v x, vm e' = Some v ∧ pt_vms st !! v = Some x) →
  (active e' = true → node e' = true) → table_wf st'.
Proof.
  intros [Tl (w & Tm & Tw & Tb) To Ta] He Ee Em Eb Hw Hbit Hown Hact.
  assert (i < 64)%nat as Hi by (apply lookup_lt_Some in He; lia).
  split.
  - by rewrite Ee, length_insert.
  - exists w'. split_and!; auto. intros j ej Hj. rewrite Ee in Hj.
    assert (j < 64)%nat by (apply lookup_lt_Some in Hj; rewrite length_insert in Hj; lia).
    rewrite (Hbit w Tm) by lia. apply insert_lookup_cases in Hj as [[-> ->]|[Hne Hj]].
    + by rewrite decide_True.
    + rewrite decide_False by lia. by apply Tb.
  - intros j ej Hj Hn. rewrite Ee in Hj. rewrite Em. apply insert_lookup_cases in Hj as [[-> ->]|[Hne Hj]]; auto.
  - intros j ej Hj Hn. rewrite Ee in Hj. apply insert_lookup_cases in Hj as [[-> ->]|[Hne Hj]]; eauto.
Qed.

Lemma alloc_entry_ok reg v x ty st : pt_wf reg st → pt_vms st !! v = Some x →
  (ptirq_alloc_entry v ty st = Some (None, st) ∧
   ∀ i e, ptirq_entries st !! i = Some e → node e = true) ∨
  (∃ i e w', ptirq_entries st !! i = Some e ∧ node e = false ∧
     let st' := st⟨ptirq_entry_bitmaps := [w']⟩
                  ⟨ptirq_entries := <[i := fresh_entry v i ty]> (ptirq_entries st)⟩
                  ⟨cpu_timers := set_tobj i (fresh_timer i) (cpu_timers st)⟩ in
     ptirq_alloc_entry v ty st = Some (Some i, st') ∧ pt_wf reg st').
Proof.
  intros Hw Hx. pose proof Hw as [HT HC [Qn Qo Qt] [Mw Md Mo Ml] HI].
  pose proof (tb_map _ HT) as (w & Ew & Hww & Hb). unfold ptirq_alloc_entry. rewrite Ew.
  destruct (alloc_id_ok w Hww) as [[Efull ->]|(r & Hr & Hbit & ->)]; cbn [mbind option_bind].
  { left. split; [rewrite <- Ew; by destruct st|]. intros i e He. rewrite <- (Hb i e He), Efull.
    apply Z.ones_spec_low. apply lookup_lt_Some in He. rewrite (tb_len _ HT) in He. lia. }
  right. unfold CONFIG_MAX_PT_IRQ_ENTRIES. rewrite (proj2 (Z.ltb_lt _ _)) by lia.
  set (i := Z.to_nat r).
  destruct (lookup_lt_is_Some_2 (ptirq_entries st) i) as [e He]; [rewrite (tb_len _ HT); lia|].
  assert (Z.of_nat i = r) as Ei by lia.
  assert (node e = false) as Hn by (rewrite <- (Hb i e He), Ei; done).
  destruct (free_unlinked reg i e st Hw He Hn) as (Ur & Uq & Ut).
  exists i, e, (w ||| 2 ^ r). split; [done|]. split; [done|].
  rewrite (memset_ok reg) by (done || (destruct HC; by split)).
  cbn [mbind option_bind]. unfold upd_entry. cbn [ptirq_entries].
  match goal with |- context [ptirq_entries ?x !! i] =>
    change (ptirq_entries x) with (<[i := zero_entry]> (ptirq_entries st)) end.
  rewrite list_lookup_insert_eq by (by apply lookup_lt_Some in He). cbn [mbind option_bind].
  unfold initialize_timer, Seq.linked. rewrite bool_decide_false by done. cbn [mbind option_bind].
  split.
  - clear - Ei. do 2 f_equal. unfold set_tobj. destruct st as [? ? ? ? ? ts ? ? ? ?], ts. cbn.
    rewrite insert_insert_eq, list_insert_insert_eq. unfold fresh_entry, fresh_timer. by rewrite Ei.
  - destruct (replace_inactive reg i e (fresh_entry v i ty) st
      (st⟨ptirq_entry_bitmaps := [w ||| 2 ^ r]⟩
         ⟨ptirq_entries := <[i := fresh_entry v i ty]> (ptirq_entries st)⟩
         ⟨cpu_timers := set_tobj i (fresh_timer i) (cpu_timers st)⟩)) as [HC' HI']; try done.
    { destruct (active e) eqn:Ea; [|done]. by rewrite (tb_active _ HT i e He Ea) in Hn. }
    split; [|done| |  |done].
    + eapply (table_replace i e (fresh_entry v i ty) (w ||| 2 ^ r)); try done.
      * apply word_lor; [lia|done|]. by apply word_pow2.
      * intros w0 E0 j Hj. rewrite Ew in E0. injection E0 as <-. rewrite lor_pow2_testbit by lia. simpl.
        case_bool_decide; case_decide; try lia; by rewrite ?orb_true_r, ?orb_false_r.
      * intros _. split; [done|]. by exists v, x.
    + split; simpl; auto. intros j Hj. destruct (Qo j Hj) as (ej & Hej & Hnj). exists ej.
      rewrite list_lookup_insert_ne; [done|]. by intros <-.
    + split; simpl.
      * by apply set_tobj_wf.
      * intros t tmt Ht. destruct (decide (t = i)) as [->|Hne].
        -- rewrite lookup_insert_eq in Ht. injection Ht as <-. rewrite list_lookup_insert_eq by (by apply lookup_lt_Some in He).
           eexists. split; [done|]. left. split; [done|]. by unfold delay_timer.
        -- rewrite lookup_insert_ne in Ht by done. rewrite list_lookup_insert_ne by done. by apply Md.
      * intros j ej Hj Hnj. apply insert_lookup_cases in Hj as [[-> ->]|[Hne Hj]].
        -- rewrite lookup_insert_eq. eexists. split; [done|]. by unfold delay_timer.
        -- rewrite lookup_insert_ne by done. by apply (Mo j ej).
      * intros j tmj ej u y Hj Hp Hej. destruct (decide (j = i)) as [->|Hne].
        -- rewrite lookup_insert_eq in Hj. injection Hj as <-. simpl in Hp. lia.
        -- rewrite lookup_insert_ne in Hj by done. rewrite list_lookup_insert_ne in Hej by done. by apply (Ml j tmj ej u).
Qed.

Definition released (i : nat) (w' : Z) (st : ptdev) : ptdev :=
  st⟨softirq_dev_entry_list := Seq.del i (softirq_dev_entry_list st)⟩
    ⟨ptirq_entry_bitmaps := [w']⟩
    ⟨ptirq_entries := <[i := zero_entry]> (ptirq_entries st)⟩
    ⟨cpu_timers := set_tobj i zero_timer (del_timer i (cpu_timers st))⟩.

Lemma release_entry_ok reg i e st : pt_wf reg st → ptirq_entries st !! i = Some e → node e = true →
  active e = false →
  ∃ w', ptirq_release_entry i st = Some (released i w' st) ∧ pt_wf reg (released i w' st).
Proof.
  intros Hw He Hn Ha. pose proof Hw as [HT HC [Qn Qo Qt] [Mw Md Mo Ml] HI].
  pose proof (tb_map _ HT) as (w & Ew & Hww & Hb).
  assert (i < 64)%nat as Hi by (apply lookup_lt_Some in He; rewrite (tb_len _ HT) in He; lia).
  assert (i ∉ reg) as Ur by (rewrite (ch_reg _ _ HC); intros (e1 & He1 & ?); congruence).
  destruct (tb_own _ HT i e He Hn) as (Eid & _).
  set (w' := w &&& bnot 64 (2 ^ Z.of_nat i)). exists w'.
  assert (word 64 w') as Hw' by (unfold w'; auto with words lia).
  assert (timer_list (del_timer i (cpu_timers st)) = Seq.del i (timer_list (cpu_timers st))) as Edl
    by apply del_timer_list.
  split.
  - unfold ptirq_release_entry. rewrite He. cbn [mbind option_bind]. rewrite Hn, Eid.
    cbn [ptirq_entry_bitmaps]. match goal with |- context [nth _ (ptirq_entry_bitmaps ?x) 0] =>
      change (ptirq_entry_bitmaps x) with (ptirq_entry_bitmaps st) end.
    rewrite Ew, Z.shiftr_div_pow2, Z.div_small by lia. change (Z.to_nat 0) with 0%nat. cbn [nth].
    rewrite (memset_ok reg).
    + unfold X86Bits.bitmap_clear. change 0x3F with 63. rewrite !(land_63_small (Z.of_nat i)) by lia. by destruct st.
    + destruct HC. by split.
    + done.
    + by apply not_in_del.
    + cbn. rewrite Edl. apply not_in_del, Mw.
    + by exists e.
  - destruct (replace_inactive reg i e zero_entry st (released i w' st)) as [HC' HI']; try done.
    split; [|done| | |done].
    + eapply (table_replace i e zero_entry w'); try done. intros w0 E0 j Hj.
      rewrite Ew in E0. injection E0 as <-. unfold w'. rewrite land_bnot64 by done.
      rewrite ldiff_pow2_testbit by lia. simpl. case_bool_decide; case_decide; try lia;
      by rewrite ?andb_false_r, ?andb_true_r.
    + split; cbn.
      * by apply nodup_seq_del.
      * intros j Hj. apply elem_of_seq_del in Hj as [Hj Hne]; [|done]. destruct (Qo j Hj) as (ej & Hej & Hnj).
        exists ej. by rewrite list_lookup_insert_ne.
      * intros j Hj. apply elem_of_seq_del in Hj as [Hj Hne]; [|done]. rewrite Edl.
        rewrite elem_of_seq_del by apply Mw. intros [? _]. by apply (Qt j).
    + split; cbn.
      * apply set_tobj_wf; [rewrite Edl; apply not_in_del, Mw|by apply del_timer_wf].
      * rewrite del_timer_tobj. intros t tmt Ht. destruct (decide (t = i)) as [->|Hne].
        -- rewrite lookup_insert_eq in Ht. injection Ht as <-. exists zero_entry.
           rewrite list_lookup_insert_eq by (by apply lookup_lt_Some in He). split; [done|]. right.
           split; [done|]. rewrite Edl. apply not_in_del, Mw.
        -- rewrite lookup_insert_ne in Ht by done. rewrite list_lookup_insert_ne by done.
           destruct (Md t tmt Ht) as (et & Het & Hc). exists et. split; [done|].
           destruct Hc as [Hc|[Hz Hnt]]; [by left|]. right. split; [done|]. rewrite Edl, elem_of_seq_del by apply Mw. tauto.
      * rewrite del_timer_tobj. intros j ej Hj Hnj. apply insert_lookup_cases in Hj as [[-> ->]|[Hne Hj]]; [done|].
        rewrite lookup_insert_ne by done. by apply (Mo j ej).
      * rewrite del_timer_tobj. intros j tmj ej u y Hj Hp Hej. destruct (decide (j = i)) as [->|Hne].
        -- rewrite lookup_insert_eq in Hj. injection Hj as <-. simpl in Hp. lia.
        -- rewrite lookup_insert_ne in Hj by done. rewrite list_lookup_insert_ne in Hej by done. by apply (Ml j tmj ej u).
Qed.

(** *** Requesting and freeing interrupts *)

Lemma desc_set j i d s : Irq.irqs_wf s → 0 ≤ i < Irq.NR_IRQS → 0 ≤ j →
  Irq.desc_of j (Irq.set_desc i d s) = if decide (j = i) then Some d else Irq.desc_of j s.
Proof.
  intros Hw Hi Hj. case_decide as E; [subst; by apply Irq.desc_of_set|].
  unfold Irq.desc_of, Irq.set_desc. simpl. apply list_lookup_insert_ne. lia.
Qed.

Lemma desc_some i s : Irq.irqs_wf s → 0 ≤ i < Irq.NR_IRQS → ∃ d, Irq.desc_of i s = Some d.
Proof.
  intros Hw Hi. apply lookup_lt_is_Some_2. rewrite (Irq.iq_desc _ Hw). unfold Irq.NR_IRQS in Hi. lia.
Qed.

Lemma free_num_ok i s : Irq.irqs_wf s → 0 ≤ i →
  Irq.irqs_wf (Irq.free_irq_num i s) ∧ ∀ j, Irq.desc_of j (Irq.free_irq_num i s) = Irq.desc_of j s.
Proof.
  intros Hw Hi. unfold Irq.free_irq_num. destruct (Z.ltb_spec i Irq.NR_IRQS); [|done].
  case_if; [|done]. split; [|done]. by apply (Irq.clear_wf i s).
Qed.

Lemma alloc_num_ok req s : Irq.irqs_wf s → 0 ≤ req →
  ∃ q i, Irq.alloc_irq_num req false s = Some (q, i) ∧ Irq.irqs_wf q ∧
    (i = Irq.IRQ_INVALID ∨ 0 ≤ i < Irq.NR_IRQS) ∧ ∀ j, Irq.desc_of j q = Irq.desc_of j s.
Proof.
  intros Hw Hr. destruct (decide (req = Irq.IRQ_INVALID)) as [->|Hne].
  - destruct Hw as [Hd [Hal Haw] Hrs]. unfold Irq.alloc_irq_num.
    change ((Irq.NR_IRQS <=? Irq.IRQ_INVALID) && negb (Irq.IRQ_INVALID =? Irq.IRQ_INVALID)) with false.
    change (Irq.IRQ_INVALID =? Irq.IRQ_INVALID) with true. cbv iota.
    destruct (Irq.x86_ffz64_ex_loop (Irq.irq_alloc_bitmap s) 0 Irq.NR_IRQS Haw) as (r & Hrun & Hb & _ & _);
      [lia|rewrite Hal; done|done|].
    simpl. unfold X86Bits.ffz64_ex. rewrite Hrun. cbn [mbind option_bind]. rewrite Hal in Hb.
    unfold u32. rewrite Z.mod_small by lia. destruct (Z.leb_spec Irq.NR_IRQS (64 * 0 + r)).
    + eexists _, _. split; [done|]. split; [by split|]. split; [by left|done].
    + eexists _, _. split; [done|]. split; [|split; [right; lia|done]].
      apply (Irq.alloc_given_wf (64 * 0 + r) s); [by split|lia].
  - destruct (Z.lt_ge_cases req Irq.NR_IRQS) as [L|L].
    + rewrite Irq.alloc_given by lia. eexists _, _. split; [done|]. split; [by apply Irq.alloc_given_wf|].
      split; [right; lia|done].
    + unfold Irq.alloc_irq_num. rewrite (proj2 (Z.leb_le _ _)), (proj2 (Z.eqb_neq _ _)) by (done || lia).
      eexists _, _. split; [done|]. split; [done|]. split; [by left|done].
Qed.

Lemma request_irq_cases arch req a pd fl s : Irq.irqs_wf s → 0 ≤ req →
  ∃ q ret, Irq.request_irq arch req a pd fl s = Some (q, ret) ∧ Irq.irqs_wf q ∧
    ((ret < 0 ∧ ∀ j, Irq.desc_of j q = Irq.desc_of j s) ∨
     (0 ≤ ret < Irq.NR_IRQS ∧ ∃ d d', Irq.desc_of ret s = Some d ∧ Irq.action d = None ∧
        Irq.action d' = Some a ∧ Irq.priv_data d' = pd ∧
        ∀ j, 0 ≤ j → Irq.desc_of j q = if decide (j = ret) then Some d' else Irq.desc_of j s)).
Proof.
  intros Hw Hr. destruct (alloc_num_ok req s Hw Hr) as (q & i & Ha & Hwq & Hi & Hd).
  unfold Irq.request_irq. rewrite Ha. cbn [mbind option_bind].
  destruct (Z.eqb_spec i Irq.IRQ_INVALID) as [->|Hne].
  { eexists _, _. split; [done|]. split; [done|]. by left. }
  destruct Hi as [?|Hi]; [done|]. destruct (arch i); cbn [negb].
  - destruct (desc_some i q Hwq Hi) as [d Ed]. rewrite Ed. cbn [mbind option_bind].
    destruct (Irq.action d) as [b|] eqn:Ea.
    + eexists _, _. split; [done|]. split; [done|]. by left.
    + eexists _, _. split; [done|]. split; [by apply Irq.set_desc_wf|]. right. split; [done|].
      eexists d, _. rewrite <- Hd. split; [done|]. split; [done|]. split; [|split]; [..|intros j Hj].
      3: { rewrite desc_set by done. case_decide; [reflexivity|by rewrite Hd]. }
      all: done.
  - destruct (free_num_ok i q Hwq ltac:(lia)) as [Hwf Hdf].
    eexists _, _. split; [done|]. split; [done|]. left. split; [done|]. intros j. by rewrite Hdf, Hd.
Qed.

Lemma free_irq_ok i s : Irq.irqs_wf s → 0 ≤ i < Irq.NR_IRQS →
  ∃ q d', Irq.free_irq i s = Some q ∧ Irq.irqs_wf q ∧ Irq.action d' = None ∧
    ∀ j, 0 ≤ j → Irq.desc_of j q = if decide (j = i) then Some d' else Irq.desc_of j s.
Proof.
  intros Hw Hi. unfold Irq.free_irq. rewrite (proj2 (Z.ltb_lt _ _)) by lia.
  destruct (desc_some i s Hw Hi) as [d ->]. cbn [mbind option_bind].
  set (d' := d⟨Irq.action := None⟩⟨Irq.priv_data := 0⟩⟨Irq.flags := Irq.IRQF_NONE⟩).
  destruct (free_num_ok i (Irq.set_desc i d' s)) as [Hwf Hdf]; [by apply Irq.set_desc_wf|lia|].
  eexists _, d'. split; [done|]. split; [done|]. split; [done|]. intros j Hj. rewrite Hdf. by apply desc_set.
Qed.

(** *** Activation *)

Lemma replace_same_node i e e' st st' : queue_wf st → timer_wf st →
  ptirq_entries st !! i = Some e → node e' = node e → vm e' = vm e →
  ptirq_entries st' = <[i := e']> (ptirq_entries st) → pt_vms st' = pt_vms st →
  softirq_dev_entry_list st' = softirq_dev_entry_list st → cpu_timers st' = cpu_timers st →
  queue_wf st' ∧ timer_wf st'.
Proof.
  intros [Qn Qo Qt] [Mw Md Mo Ml] He En Ev Ee Em Eq Et.
  assert (∀ j ej, ptirq_entries st !! j = Some ej →
    ∃ ej', ptirq_entries st' !! j = Some ej' ∧ node ej' = node ej ∧ vm ej' = vm ej) as F.
  { intros j ej Hj. rewrite Ee. destruct (decide (j = i)) as [->|Hne].
    - rewrite list_lookup_insert_eq by (by apply lookup_lt_Some in He). simplify_eq. eauto.
    - rewrite list_lookup_insert_ne by done. eauto. }
  assert (∀ j ej', ptirq_entries st' !! j = Some ej' →
    ∃ ej, ptirq_entries st !! j = Some ej ∧ node ej' = node ej ∧ vm ej' = vm ej) as B.
  { intros j ej' Hj. rewrite Ee in Hj. apply insert_lookup_cases in Hj as [[-> ->]|[Hne Hj]]; eauto. }
  split; split; rewrite ?Eq, ?Et; auto.
  - intros j Hj. destruct (Qo j Hj) as (ej & Hej & Hn). destruct (F j ej Hej) as (ej' & ? & ? & _).
    exists ej'. split; congruence.
  - intros t tm Ht. destruct (Md t tm Ht) as (ej & Hej & Hc). destruct (F t ej Hej) as (ej' & ? & Hn & _).
    exists ej'. by rewrite Hn.
  - intros j ej' Hj Hn. destruct (B j ej' Hj) as (ej & Hej & ? & _). apply (Mo j ej Hej). congruence.
  - intros j tm ej' v x Ht Hp Hj Hv Hx. destruct (B j ej' Hj) as (ej & Hej & _ & ?).
    rewrite Em in Hx. apply (Ml j tm ej v x); congruence.
Qed.

(** The table when the node of an entry is not touched. *)
Lemma table_same_node i e e' st st' : table_wf st → ptirq_entries st !! i = Some e →
  node e' = node e → vm e' = vm e → ptdev_entry_id e' = ptdev_entry_id e →
  (active e' = true → node e' = true) → ptirq_entries st' = <[i := e']> (ptirq_entries st) →
  pt_vms st' = pt_vms st → ptirq_entry_bitmaps st' = ptirq_entry_bitmaps st → table_wf st'.
Proof.
  intros HT He En Ev Ei Ha Ee Em Eb. pose proof (tb_map _ HT) as (w & Ew & Hw & Hb).
  eapply (table_replace i e e' w); eauto.
  - by rewrite Eb.
  - intros w0 E0 j Hj. rewrite Ew in E0. injection E0 as <-. case_decide as E; [|done].
    subst j. rewrite En. by apply Hb.
  - intros Hn. rewrite Ev, Ei. apply (tb_own _ HT i e He). congruence.
Qed.

Lemma keys_same i e e' st st' : ptirq_entries st !! i = Some e → phys_sid e' = phys_sid e →
  virt_sid e' = virt_sid e → vm e' = vm e → ptirq_entries st' = <[i := e']> (ptirq_entries st) →
  pt_vms st' = pt_vms st → ∀ j, pkey st' j = pkey st j ∧ vkey st' j = vkey st j.
Proof.
  intros He Ep Ev Evm Ee Em j. unfold pkey, vkey. rewrite Ee, Em. destruct (decide (j = i)) as [->|Hne].
  - rewrite list_lookup_insert_eq by (by apply lookup_lt_Some in He). by rewrite He, Ep, Ev, Evm.
  - by rewrite list_lookup_insert_ne.
Qed.

Record rest_same (st st' : ptdev) : Prop := {
  rs_map : ptirq_entry_bitmaps st' = ptirq_entry_bitmaps st;
  rs_queue : softirq_dev_entry_list st' = softirq_dev_entry_list st;
  rs_timers : cpu_timers st' = cpu_timers st;
  rs_softirqs : softirqs st' = softirqs st;
  rs_vms : pt_vms st' = pt_vms st;
  rs_effects : effects st' = effects st;
}.

(** The interrupt [irq] has been requested for the entry, or none ([IRQ_INVALID]). *)
Definition requested (i : nat) (irq : Z) (q : Irq.irqs) (st : ptdev) : Prop :=
  (irq = Irq.IRQ_INVALID ∧ q = irqs st) ∨
  (0 ≤ irq < Irq.NR_IRQS ∧ ∃ d d', Irq.desc_of irq (irqs st) = Some d ∧ Irq.action d = None ∧
     Irq.action d' = Some PTIRQ_INTERRUPT_HANDLER ∧ Irq.priv_data d' = Z.of_nat i ∧
     ∀ j, 0 ≤ j → Irq.desc_of j q = if decide (j = irq) then Some d' else Irq.desc_of j (irqs st)).

(** The interrupt that the activation requests. *)
Lemma activate_irq_wf i e e' q irq st st' : irq_wf st → ptirq_entries st !! i = Some e →
  active e = false → ptirq_entries st' = <[i := e']> (ptirq_entries st) → active e' = true →
  irqs st' = q → allocated_pirq e' = irq → Irq.irqs_wf q →
  requested i irq q st →
  irq_wf st'.
Proof.
  intros [Iw Ip Id] He Ha Ee Ha' Eq Ei Hwq Hcase. split; rewrite Eq; [done|..].
  - intros j ej Hj Haj Hnj. rewrite Ee in Hj. apply insert_lookup_cases in Hj as [[-> ->]|[Hne Hj]].
    + rewrite Ei in *. destruct Hcase as [[? _]|(Hr & d & d' & _ & _ & Hact & Hpd & Hd)]; [done|].
      split; [done|]. exists d'. rewrite Hd, decide_True by (done || lia). done.
    + destruct (Ip j ej Hj Haj Hnj) as (Hr' & d1 & Hd1 & Ha1 & Hp1). split; [done|]. exists d1.
      split; [|done]. destruct Hcase as [[_ ->]|(Hr & d & d' & Hd0 & Hnone & _ & _ & Hd)]; [done|].
      rewrite Hd by lia. case_decide as E; [|done]. rewrite E in Hd1. congruence.
  - intros r d1 Hr Hd1 Ha1.
    assert (∀ j ej, ptirq_entries st !! j = Some ej → active ej = true → ptirq_entries st' !! j = Some ej) as Hkeep.
    { intros j ej Hj Haj. rewrite Ee, list_lookup_insert_ne; [done|]. intros ->. congruence. }
    assert (Irq.desc_of r (irqs st) = Some d1 ∨ (irq = r ∧ Irq.priv_data d1 = Z.of_nat i)) as [Hold|[Er Hp]].
    { destruct Hcase as [[_ ->]|(Hr0 & d & d' & _ & _ & _ & Hp & Hd)]; [by left|].
      rewrite Hd in Hd1 by lia. case_decide as E; [|by left]. right. by simplify_eq. }
    + destruct (Id r d1 Hr Hold Ha1) as (j & ej & ? & Hej & Haj & ?). exists j, ej. auto.
    + exists i, e'. rewrite Ee, list_lookup_insert_eq by (by apply lookup_lt_Some in He). split_and!; auto. congruence.
Qed.

Definition activated (irq : Z) (e : ptirq_remapping_info) : ptirq_remapping_info :=
  e⟨allocated_pirq := irq⟩⟨active := true⟩.

(** The hash tables of a state in which they have not been changed. *)
Ltac tables_of st :=
  repeat match goal with
    | |- context [phys_sid_htable (upd ?f ?g ?x)] =>
        change (phys_sid_htable (upd f g x)) with (phys_sid_htable st)
    | |- context [virt_sid_htable (upd ?f ?g ?x)] =>
        change (virt_sid_htable (upd f g x)) with (virt_sid_htable st)
    end.

Lemma activated_wf reg i e v x irq q st : pt_wf reg st → ptirq_entries st !! i = Some e →
  node e = true → active e = false → vm e = Some v → pt_vms st !! v = Some x →
  Irq.irqs_wf q → requested i irq q st →
  let st1 := st⟨irqs := q⟩⟨ptirq_entries := <[i := activated irq e]> (ptirq_entries st)⟩ in
  ∃ p t, hlist_add_head i (ptirq_hash_key 0 (phys_sid e)) (phys_sid_htable st) = Some p ∧
    hlist_add_head i (ptirq_hash_key (vm_addr x) (virt_sid e)) (virt_sid_htable st) = Some t ∧
    pt_wf (i :: reg) st1⟨phys_sid_htable := p⟩⟨virt_sid_htable := t⟩.
Proof.
  intros Hw He Hn Ha Hv Hx. pose proof Hw as [HT HC HQ HM HI]. pose proof HC as [Cn Cr Cp Cv].
  assert (i ∉ reg) as Ur by (rewrite Cr; intros (e1 & He1 & ?); congruence).
  intros Hwq Hq st1.
  assert (pkey st i = ptirq_hash_key 0 (phys_sid e)) as Kp by (unfold pkey; by rewrite He).
  assert (vkey st i = ptirq_hash_key (vm_addr x) (virt_sid e)) as Kv.
  { unfold vkey. rewrite He, Hv. simpl. by rewrite Hx. }
  exists (chains (pkey st) (i :: reg)), (chains (vkey st) (i :: reg)).
  split; [cbn; rewrite <- Kp, Cp; apply chains_add; [intros; apply key_bound|done]|].
  split; [cbn; rewrite <- Kv, Cv; apply chains_add; [intros; apply key_bound|done]|].
  set (st2 := st1⟨phys_sid_htable := _⟩⟨virt_sid_htable := _⟩).
  pose proof (keys_same i e (activated irq e) st st2 He eq_refl eq_refl eq_refl eq_refl eq_refl) as K.
  destruct (replace_same_node i e (activated irq e) st st2) as [HQ' HM']; try done.
  split; [| |done|done|].
  - by eapply (table_same_node i e (activated irq e) st st2).
  - split.
    + by constructor.
    + intros j. rewrite elem_of_cons, Cr. change (ptirq_entries st2) with (<[i := activated irq e]> (ptirq_entries st)).
      destruct (decide (j = i)) as [->|Hne].
      * rewrite list_lookup_insert_eq by (by apply lookup_lt_Some in He). split; [intros _; eauto|by left].
      * rewrite list_lookup_insert_ne by done. split; [by intros [?|?]|by right].
    + symmetry. apply chains_ext. intros j _. apply K.
    + symmetry. apply chains_ext. intros j _. apply K.
  - by eapply (activate_irq_wf i e (activated irq e) q irq st st2).
Qed.

Lemma activate_ok arch reg i e v x phys_irq st : pt_wf reg st → ptirq_entries st !! i = Some e →
  node e = true → active e = false → vm e = Some v → pt_vms st !! v = Some x → 0 ≤ phys_irq →
  ∃ ret st', ptirq_activate_entry arch i phys_irq st = Some (ret, st') ∧ rest_same st st' ∧
    ((ret < 0 ∧ ptirq_entries st' = ptirq_entries st ∧ pt_wf reg st') ∨
     (0 ≤ ret ∧ (∃ irq, ptirq_entries st' = <[i := activated irq e]> (ptirq_entries st)) ∧
      pt_wf (i :: reg) st')).
Proof.
  intros Hw He Hn Ha Hv Hx Hp. pose proof Hw as [HT HC HQ HM HI].
  unfold ptirq_activate_entry. rewrite He. cbn [mbind option_bind]. rewrite Hv. cbn [mbind option_bind].
  rewrite Hx. cbn [mbind option_bind]. destruct ((intr_type e =? PTDEV_INTR_INTX) || negb (pi_capable x)).
  - destruct (request_irq_cases arch phys_irq PTIRQ_INTERRUPT_HANDLER (Z.of_nat i) Irq.IRQF_PT (irqs st)
      (ir_wf _ HI) Hp) as (q & ret & -> & Hwq & [[Hneg Hd]|[Hr Hd]]); cbn [mbind option_bind].
    + rewrite (proj2 (Z.leb_gt 0 ret)) by lia. eexists _, _. split; [done|]. split; [by split|]. left.
      split; [done|]. split; [done|]. destruct HT, HC, HQ, HM, HI. split; split; auto; cbn.
      * intros j ej Hj Haj Hnj. destruct (ir_pirq0 j ej Hj Haj Hnj) as (? & d & ? & ?). split; [done|].
        exists d. by rewrite Hd.
      * intros r d Hr. rewrite Hd. by apply ir_desc0.
    + rewrite (proj2 (Z.leb_le 0 ret)) by lia. unfold upd_entry. cbn [ptirq_entries].
      rewrite u32_id by (unfold Irq.NR_IRQS in Hr; split; lia).
      destruct (activated_wf reg i e v x ret q st Hw He Hn Ha Hv Hx Hwq ltac:(by right)) as (p & t & Hadd1 & Hadd2 & Hw').
      change (ptirq_entries (st⟨irqs := q⟩)) with (ptirq_entries st). rewrite He. cbn [mbind option_bind].
      tables_of st. rewrite Hadd1, Hadd2. cbn [mbind option_bind].
      eexists _, _. split; [done|]. split; [by split|]. right. split; [lia|]. split; [by exists ret|exact Hw'].
  - cbn [mbind option_bind]. change (0 <=? 0) with true. cbv iota. unfold upd_entry.
    destruct (activated_wf reg i e v x Irq.IRQ_INVALID (irqs st) st Hw He Hn Ha Hv Hx (ir_wf _ HI) ltac:(by left)) as (p & t & Hadd1 & Hadd2 & Hw').
    replace (st⟨irqs := irqs st⟩) with st in * by (by destruct st).
    rewrite He. cbn [mbind option_bind]. tables_of st. rewrite Hadd1, Hadd2. cbn [mbind option_bind].
    eexists _, _. split; [done|]. split; [by split|]. right. split; [lia|]. split; [by eexists|exact Hw'].
Qed.

(** Freeing the interrupt of an entry that is no longer active. *)
Lemma deactivate_irq_wf i e e' q st st' : irq_wf st → ptirq_entries st !! i = Some e →
  active e = true → ptirq_entries st' = <[i := e']> (ptirq_entries st) → active e' = false →
  irqs st' = q → Irq.irqs_wf q →
  ((allocated_pirq e = Irq.IRQ_INVALID ∧ q = irqs st) ∨
   (allocated_pirq e ≠ Irq.IRQ_INVALID ∧ ∃ d', Irq.action d' = None ∧ ∀ j, 0 ≤ j → Irq.desc_of j q =
      if decide (j = allocated_pirq e) then Some d' else Irq.desc_of j (irqs st))) →
  irq_wf st'.
Proof.
  intros [Iw Ip Id] He Ha Ee Ha' Eq Hwq Hc. split; rewrite Eq; [done|..].
  - intros j ej Hj Haj Hnj. rewrite Ee in Hj. apply insert_lookup_cases in Hj as [[-> ->]|[Hne Hj]]; [congruence|].
    destruct (Ip j ej Hj Haj Hnj) as (Hr & d & Hd & Hact & Hp). split; [done|]. exists d.
    destruct Hc as [[_ ->]|(Hni & d' & Hd' & Hq)]; [done|]. rewrite Hq by lia. case_decide as E; [|done].
    destruct (Ip i e He Ha Hni) as (_ & d0 & Hd0 & _ & Hp0). rewrite E in Hd. simplify_eq.
    rewrite Hp in Hp0. by apply Nat2Z.inj in Hp0.
  - intros r d Hr Hd Hact. assert (Irq.desc_of r (irqs st) = Some d ∧
      (r ≠ allocated_pirq e ∨ allocated_pirq e = Irq.IRQ_INVALID)) as [Hd0 Hx].
    { destruct Hc as [[Hi ->]|(_ & d' & Hd' & Hq)]; [by auto|]. rewrite Hq in Hd by done.
      case_decide; [|by auto]. congruence. }
    destruct (Id r d Hr Hd0 Hact) as (j & ej & Hp & Hej & Haj & Er). exists j, ej.
    rewrite Ee, list_lookup_insert_ne; [done|]. intros <-. simplify_eq.
    destruct Hx as [?|Hx]; [done|]. unfold Irq.desc_of in Hd0. apply lookup_lt_Some in Hd0.
    rewrite (Irq.iq_desc _ Iw), Hx in Hd0. apply Nat2Z.inj_lt in Hd0.
    rewrite Z2Nat.id in Hd0 by done. unfold Irq.IRQ_INVALID in Hd0. lia.
Qed.

Lemma deactivate_ok reg i e st : pt_wf reg st → ptirq_entries st !! i = Some e → active e = true →
  ∃ st', ptirq_deactivate_entry i st = Some st' ∧ pt_wf (Seq.del i reg) st' ∧ rest_same st st' ∧
    ptirq_entries st' = <[i := e⟨active := false⟩]> (ptirq_entries st).
Proof.
  intros Hw He Ha. pose proof Hw as [HT HC HQ HM HI]. pose proof HC as [Cn Cr Cp Cv].
  assert (i ∈ reg) as Hi by (rewrite Cr; eauto). unfold ptirq_deactivate_entry.
  rewrite Cp, Cv, !chains_del by (done || (intros; apply key_bound)). cbn [mbind option_bind].
  unfold upd_entry. cbn [ptirq_entries].
  match goal with |- context [ptirq_entries ?x !! i] => change (ptirq_entries x) with (ptirq_entries st) end.
  rewrite He. cbn [mbind option_bind]. set (e' := e⟨active := false⟩).
  match goal with |- context [ptirq_entries ?x !! i] =>
    change (ptirq_entries x) with (<[i := e']> (ptirq_entries st)); set (st1 := x) end.
  rewrite list_lookup_insert_eq by (by apply lookup_lt_Some in He). cbn [mbind option_bind].
  change (allocated_pirq e') with (allocated_pirq e).
  assert (∀ q, Irq.irqs_wf q →
   ((allocated_pirq e = Irq.IRQ_INVALID ∧ q = irqs st) ∨
    (allocated_pirq e ≠ Irq.IRQ_INVALID ∧ ∃ d', Irq.action d' = None ∧ ∀ j, 0 ≤ j → Irq.desc_of j q =
       if decide (j = allocated_pirq e) then Some d' else Irq.desc_of j (irqs st))) →
   pt_wf (Seq.del i reg) st1⟨irqs := q⟩) as D.
  { intros q Hwq Hq. set (st2 := st1⟨irqs := q⟩).
    pose proof (keys_same i e e' st st2 He eq_refl eq_refl eq_refl eq_refl eq_refl) as K.
    destruct (replace_same_node i e e' st st2) as [HQ' HM']; try done.
    split; [by eapply (table_same_node i e e' st st2)| |done|done|by eapply (deactivate_irq_wf i e e' q st st2)].
    split.
    - by apply nodup_seq_del.
    - intros j. rewrite elem_of_seq_del, Cr by done. change (ptirq_entries st2) with (<[i := e']> (ptirq_entries st)).
      destruct (decide (j = i)) as [->|Hne].
      + rewrite list_lookup_insert_eq by (by apply lookup_lt_Some in He).
        split; [by intros [_ ?]|]. intros (e1 & [= <-] & ?). done.
      + rewrite list_lookup_insert_ne by done. tauto.
    - apply chains_ext. intros j _. symmetry. apply K.
    - apply chains_ext. intros j _. symmetry. apply K. }
  destruct (Z.eqb_spec (allocated_pirq e) Irq.IRQ_INVALID) as [Ei|Ei]; cbn [negb].
  - exists st1. specialize (D (irqs st) (ir_wf _ HI) ltac:(by left)). split; [done|].
    split; [by destruct st|]. split; [by split|done].
  - destruct (ir_pirq _ HI i e He Ha Ei) as (Hr & _).
    destruct (free_irq_ok (allocated_pirq e) (irqs st) (ir_wf _ HI) Hr) as (q & d' & Hf & Hwq & Hd' & Hq).
    change (irqs st1) with (irqs st). rewrite Hf. cbn [mbind option_bind]. eexists. split; [done|].
    split; [apply D; [done|right; eauto]|]. split; [by split|done].
Qed.

(** *** Looking entries up *)

Lemma filter_of_filter (P Q : nat → Prop) `{!∀ x, Decision (P x), !∀ x, Decision (Q x)} (l : list nat) :
  (∀ x, P x → Q x) → filter P (filter Q l) = filter P l.
Proof.
  intros HPQ. induction l as [|x l IH]; [done|]. rewrite !filter_cons.
  destruct (decide (Q x)); [by rewrite filter_cons, IH|]. rewrite decide_False by auto. done.
Qed.

Definition phys_match (ty sid : Z) (n : ptirq_remapping_info) : bool :=
  (ty =? intr_type n) && (sid =? phys_sid n).
Definition virt_match (ty sid : Z) (v : nat) (n : ptirq_remapping_info) : bool :=
  (ty =? intr_type n) && (sid =? virt_sid n) && bool_decide (vm n = Some v).

Lemma reg_entries reg st i : chains_wf reg st → i ∈ reg → ∃ e, ptirq_entries st !! i = Some e.
Proof. intros HC Hi. apply (ch_reg _ _ HC) in Hi as (e & ? & _). eauto. Qed.

(** A lookup is the search of the active entries, the latest first. *)
Lemma find_phys_ok reg ty sid st : pt_wf reg st →
  find_ptirq_entry ty sid None st =
    Some (head (filter (λ i, hit (phys_match ty sid) st i = true) reg)).
Proof.
  intros Hw. pose proof (wf_chains _ _ Hw) as HC. unfold find_ptirq_entry.
  rewrite (ch_phys _ _ HC), chains_lookup by apply hash64_bound. cbn [mbind option_bind].
  rewrite hlist_scan_head by (intros i Hi; apply list_elem_of_filter in Hi as [_ Hi]; by eapply reg_entries).
  rewrite filter_of_filter; [done|]. intros i Hh. unfold hit in Hh. unfold pkey.
  destruct (ptirq_entries st !! i) as [e|]; [|done].
  apply andb_true_iff in Hh as [_ Hh]. apply andb_true_iff in Hh as [_ Hh].
  by apply Z.eqb_eq in Hh as ->.
Qed.

Lemma find_virt_ok reg ty sid v x st : pt_wf reg st → pt_vms st !! v = Some x →
  find_ptirq_entry ty sid (Some v) st =
    Some (head (filter (λ i, hit (virt_match ty sid v) st i = true) reg)).
Proof.
  intros Hw Hx. pose proof (wf_chains _ _ Hw) as HC. unfold find_ptirq_entry.
  rewrite Hx. cbn [mbind option_bind].
  rewrite (ch_virt _ _ HC), chains_lookup by apply hash64_bound. cbn [mbind option_bind].
  rewrite hlist_scan_head by (intros i Hi; apply list_elem_of_filter in Hi as [_ Hi]; by eapply reg_entries).
  rewrite filter_of_filter; [done|]. intros i Hh. unfold hit in Hh. unfold vkey.
  destruct (ptirq_entries st !! i) as [e|]; [|done].
  apply andb_true_iff in Hh as [_ Hh]. apply andb_true_iff in Hh as [Hh Hv].
  apply andb_true_iff in Hh as [_ Hh]. apply Z.eqb_eq in Hh as ->.
  apply bool_decide_eq_true in Hv as ->. simpl. by rewrite Hx.
Qed.

Lemma head_filter_some (P : nat → bool) (l : list nat) i :
  head (filter (λ j, P j = true) l) = Some i → P i = true ∧ i ∈ l.
Proof. intros H%head_Some_elem_of. by apply list_elem_of_filter in H. Qed.

Lemma head_filter_none (P : nat → bool) (l : list nat) :
  head (filter (λ j, P j = true) l) = None → ∀ i, i ∈ l → P i = false.
Proof.
  intros H i Hi. destruct (P i) eqn:E; [|done].
  assert (i ∈ filter (λ j, P j = true) l) as Hf by (by apply list_elem_of_filter).
  destruct (filter _ l); [by apply not_elem_of_nil in Hf|done].
Qed.

Lemma hit_spec P st i : hit P st i = true →
  ∃ e, ptirq_entries st !! i = Some e ∧ active e = true ∧ P e = true.
Proof.
  unfold hit. destruct (ptirq_entries st !! i) as [e|]; [|done]. intros [? ?]%andb_true_iff. eauto.
Qed.
