(* ===== verification/Assign.v ===== *)
(** * Assignment of interrupts to VMs

    hypervisor/arch/x86/guest/assign.c on top of [Ptdev]: which VM holds the entry of a
    physical interrupt source, what the physical message or redirection entry is, and the
    softirq that injects the interrupts.  The state of the IOMMU, the local and I/O APICs and
    the virtual interrupt controllers is a parameter ([Platform]), and what is done to them an
    effect. *)

From S2P Require Import Prelude Bits LinkedList Timer Irq Ptdev PtdevInv.

#[local] Existing Instance x86_bitmap.

Definition INTX_CTLR_IOAPIC : Z := 0.
Definition INTX_CTLR_PIC : Z := 1.
Definition NR_LEGACY_PIN : Z := 16.
Definition ENODEV : Z := 19.
Definition EINVAL : Z := 22.
Definition EFAULT : Z := 14.
Definition X2APIC_LDR_LOGICAL_ID_MASK : Z := 0x0000ffff.
Definition X2APIC_LDR_CLUSTER_ID_MASK : Z := 0xffff0000.
Definition MSI_DATA_DELMODE_FIXED : Z := 0.
Definition MSI_DATA_DELMODE_LOPRI : Z := 1.

Inductive vm_vlapic_mode := VM_VLAPIC_DISABLED | VM_VLAPIC_XAPIC | VM_VLAPIC_X2APIC
  | VM_VLAPIC_TRANSITION.

(** ** Bit fields *)

Definition field (lo n x : Z) : Z := Z.shiftr x lo &&& Z.ones n.
Definition set_field (lo n v x : Z) : Z :=
  Z.ldiff x (Z.shiftl (Z.ones n) lo) ||| Z.shiftl (v &&& Z.ones n) lo.

(** The [msi_id] and [intx_id] forms of [union source_id]. *)
Definition MSI_SID (bdf entry_nr : Z) : Z := u16 bdf ||| Z.shiftl (u16 entry_nr) 16.
Definition INTX_SID (gsi ctlr : Z) : Z := u32 ctlr ||| Z.shiftl (u32 gsi) 32.
Definition sid_bdf (sid : Z) : Z := field 0 16 sid.
Definition sid_ctlr (sid : Z) : Z := field 0 32 sid.
Definition sid_gsi (sid : Z) : Z := field 32 32 sid.

(** The remapped format of [union dmar_ir_entry]. *)
Record dmar_irte := mk_irte {
  i_vector : Z; i_delivery_mode : Z; i_dest_mode : Z; i_rh : Z; i_dest : Z; i_trigger_mode : Z }.

Record intr_source := mk_src { is_msi : bool; src : Z; pid_paddr : Z }.

(** What the code asks the rest of the hypervisor. *)
Class Platform := {
  vlapic_calc_dest_noshort : nat → Z → bool → bool → Z;
  vcpumask2pcpumask : nat → Z → Z;
  lapic_ldr : Z → Z;
  MAX_PCPU_NUM : Z;
  ioapic_gsi_to_irq : Z → Z;
  ioapic_irq_to_ioapic_id : Z → Z;
  irq_to_vector : Z → Z;
  vioapic_get_rte : nat → Z → Z;
  ioapic_get_rte : Z → Z;
  vpic_level_triggered : nat → Z → bool;
  is_lapic_pt_configured : nat → bool;
  check_vm_vlapic_mode : nat → vm_vlapic_mode;
  (** the physical address of the posted-interrupt descriptor of a vCPU *)
  pi_desc_of : nat → Z → Z;
  is_vuart_intx : nat → Z → bool;
  request_irq_arch : Z → bool;
  dmar_assign_irte : intr_source → dmar_irte → Z → Z * Z }.

Section assign.
Context {P : Platform}.

(** The vCPU when the message has one destination. *)
Definition is_single_destination (v : nat) (info : Z * Z) : option Z :=
  let (a, d) := info in
  let delmode := field 8 3 d in
  let vdmask := vlapic_calc_dest_noshort v (field 12 8 a) (field 2 1 a =? 0)
                  (delmode =? MSI_DATA_DELMODE_LOPRI) in
  let vid := u16 (ffs64 vdmask) in
  if (delmode =? MSI_DATA_DELMODE_FIXED) || (delmode =? MSI_DATA_DELMODE_LOPRI) then
    if vdmask =? u64 (Z.shiftl 1 (vid &&& 63)) then Some vid else None
  else None.

(** The turns of the loop on the CPUs of the mask. *)
Fixpoint dest_loop (fuel : nat) (dest_cluster_id pcpu_mask logical : Z) : option Z :=
  let pcpu_id := u16 (ffs64 pcpu_mask) in
  if pcpu_id <? MAX_PCPU_NUM then
    match fuel with
    | O => None
    | S fuel =>
        let ldr := lapic_ldr pcpu_id in
        let cluster_id := ldr &&& X2APIC_LDR_CLUSTER_ID_MASK in
        dest_loop fuel dest_cluster_id (bitmap_clear_nolock pcpu_id pcpu_mask)
          (if cluster_id =? dest_cluster_id
           then logical ||| (ldr &&& X2APIC_LDR_LOGICAL_ID_MASK) else logical)
    end
  else Some logical.

(** 64 turns, one per bit of the mask. *)
Definition calculate_logical_dest_mask (pdmask : Z) : option Z :=
  let pcpu_id := u16 (ffs64 pdmask) in
  if pcpu_id <? MAX_PCPU_NUM then
    let c := lapic_ldr pcpu_id &&& X2APIC_LDR_CLUSTER_ID_MASK in
    m ← dest_loop 64 c pdmask 0; Some (c ||| m)
  else Some 0.

(** The call that the release of an entry makes. *)
Definition PTIRQ_FREE_IRTE : nat := 1.
Definition ptirq_free_irte (e : ptirq_remapping_info) : pt_effect :=
  if intr_type e =? PTDEV_INTR_MSI
  then Dmar_free_irte true (sid_bdf (phys_sid e)) (irte_idx e)
  else Dmar_free_irte false (ioapic_irq_to_ioapic_id (allocated_pirq e)) (irte_idx e).

Definition fixed_or_lopri (delmode : Z) : Z :=
  if negb (delmode =? MSI_DATA_DELMODE_FIXED) && negb (delmode =? MSI_DATA_DELMODE_LOPRI)
  then MSI_DATA_DELMODE_LOPRI else delmode.

(** The entry with its physical message. *)
Definition ptirq_build_physical_msi (v : nat) (vector pid idx : Z) (e : ptirq_remapping_info)
    : option ptirq_remapping_info :=
  let (va, vd) := vmsi e in
  let vdmask := vlapic_calc_dest_noshort v (field 12 8 va) (field 2 1 va =? 0) false in
  let pdmask := vcpumask2pcpumask v vdmask in
  let delmode := fixed_or_lopri (field 8 3 vd) in
  dest_mask ← calculate_logical_dest_mask pdmask;
  let irte := mk_irte (vector &&& 0xFF) delmode 1 1 dest_mask 0 in
  let e := if irte_idx e =? INVALID_IRTE_ID then e⟨irte_idx := idx⟩ else e in
  let (ret, index) := dmar_assign_irte (mk_src true (sid_bdf (phys_sid e)) pid) irte (irte_idx e) in
  if ret =? 0 then
    let e := e⟨irte_idx := index⟩ in
    let a :=
      if negb (index =? INVALID_IRTE_ID) then
        set_field 20 12 0xFEE (set_field 5 15 (field 0 15 index)
          (set_field 4 1 1 (set_field 3 1 0 (set_field 2 1 (field 15 1 index) 0))))
      else 0 in
    Some e⟨pmsi := (a, 0)⟩
  else
    let d := set_field 0 8 vector (set_field 8 3 delmode vd) in
    let a := set_field 2 1 1 (set_field 3 1 1 (set_field 12 8 dest_mask va)) in
    Some e⟨pmsi := (a, d)⟩.

(** The physical redirection entry, with the entry and the effects on the virtual line when
    the polarity of the pin changes. *)
Definition ptirq_build_physical_rte (v : nat) (e : ptirq_remapping_info)
    : option (Z * ptirq_remapping_info * list pt_effect) :=
  let phys_irq := allocated_pirq e in
  let gsi := sid_gsi (virt_sid e) in
  if sid_ctlr (virt_sid e) =? INTX_CTLR_IOAPIC then
    let virt_rte := vioapic_get_rte v gsi in
    let alo := field 13 1 virt_rte =? 1 in
    let effs := if alo then if polarity e =? 0 then [Vioapic_set_irqline v gsi GSI_SET_HIGH] else []
                else if polarity e =? 1 then [Vioapic_set_irqline v gsi GSI_SET_LOW] else [] in
    let e := e⟨polarity := if alo then 1 else 0⟩ in
    let vdmask := vlapic_calc_dest_noshort v (field 56 8 virt_rte) (field 11 1 virt_rte =? 0) false in
    let pdmask := vcpumask2pcpumask v vdmask in
    let delmode := fixed_or_lopri (field 8 3 virt_rte) in
    let vector := if is_lapic_pt_configured v then field 0 8 virt_rte else irq_to_vector phys_irq in
    dest_mask ← calculate_logical_dest_mask pdmask;
    let irte := mk_irte (vector &&& 0xFF) delmode 1 0 dest_mask (field 15 1 virt_rte) in
    let (ret, index) := dmar_assign_irte (mk_src false (ioapic_irq_to_ioapic_id phys_irq) 0) irte
                          (irte_idx e) in
    if ret =? 0 then
      let e := e⟨irte_idx := index⟩ in
      let rte :=
        if negb (index =? INVALID_IRTE_ID) then
          set_field 49 15 (field 0 15 index) (set_field 48 1 1
            (set_field 11 1 (field 15 1 index) (set_field 8 3 0 (set_field 0 8 vector virt_rte))))
        else set_field 16 1 1 virt_rte in
      Some (rte, e, effs)
    else
      Some (set_field 56 8 dest_mask (set_field 0 8 vector (set_field 8 3 delmode
              (set_field 11 1 1 virt_rte))), e, effs)
  else
    let rte := set_field 15 1 (if vpic_level_triggered v gsi then 1 else 0) (ioapic_get_rte phys_irq) in
    Some (rte, e, []).

(** ** Who holds an interrupt *)

Definition fill_entry (psid vsid : Z) (e : ptirq_remapping_info) : ptirq_remapping_info :=
  e⟨phys_sid := psid⟩⟨virt_sid := vsid⟩⟨release_cb := Some PTIRQ_FREE_IRTE⟩.

(** Allocate, fill in and activate an entry; it is given back when its interrupt cannot be
    requested. *)
Definition new_entry (v : nat) (ty psid vsid phys_irq : Z) (st : ptdev)
    : option (option nat * ptdev) :=
  '(r, st) ← ptirq_alloc_entry v ty st;
  match r with
  | None => Some (None, st)
  | Some i =>
      st ← upd_entry i (fill_entry psid vsid) st;
      '(ret, st) ← ptirq_activate_entry request_irq_arch i phys_irq st;
      if ret <? 0 then st ← ptirq_release_entry i st; Some (None, st)
      else Some (Some i, st)
  end.

Definition add_msix_remapping (v : nat) (virt_bdf phys_bdf entry_nr : Z) (st : ptdev)
    : option (option nat * ptdev) :=
  let psid := MSI_SID phys_bdf entry_nr in
  let vsid := MSI_SID virt_bdf entry_nr in
  r ← find_ptirq_entry PTDEV_INTR_MSI psid None st;
  match r with
  | Some i => Some (Some i, st)
  | None => new_entry v PTDEV_INTR_MSI psid vsid Irq.IRQ_INVALID st
  end.

Definition remove_msix_remapping (v : nat) (phys_bdf entry_nr : Z) (st : ptdev) : option ptdev :=
  r ← find_ptirq_entry PTDEV_INTR_MSI (MSI_SID phys_bdf entry_nr) None st;
  match r with
  | None => Some st
  | Some i =>
      e ← ptirq_entries st !! i;
      if bool_decide (vm e = Some v) then
        st ← (if active e then ptirq_deactivate_entry i st else Some st);
        ptirq_release_entry i
          (emit (Dmar_free_irte true (sid_bdf (phys_sid e)) (irte_idx e)) st)
      else Some st
  end.

Definition add_intx_remapping (v : nat) (virt_gsi phys_gsi vgsi_ctlr : Z) (st : ptdev)
    : option (option nat * ptdev) :=
  let psid := INTX_SID phys_gsi INTX_CTLR_IOAPIC in
  let vsid := INTX_SID virt_gsi vgsi_ctlr in
  r ← find_ptirq_entry PTDEV_INTR_INTX psid None st;
  match r with
  | None =>
      r' ← find_ptirq_entry PTDEV_INTR_INTX vsid (Some v) st;
      match r' with
      | None => new_entry v PTDEV_INTR_INTX psid vsid (ioapic_gsi_to_irq phys_gsi) st
      | Some _ => Some (None, st)
      end
  | Some i =>
      e ← ptirq_entries st !! i;
      Some (if bool_decide (vm e = Some v) then Some i else None, st)
  end.

(** The entry that [remove_intx_remapping] takes away. *)
Definition intx_to_remove (v : nat) (gsi gsi_ctlr : Z) (is_phy_gsi : bool) (st : ptdev)
    : option (option nat) :=
  if is_phy_gsi then
    r ← find_ptirq_entry PTDEV_INTR_INTX (INTX_SID gsi INTX_CTLR_IOAPIC) None st;
    match r with
    | Some i => e ← ptirq_entries st !! i;
                Some (if bool_decide (vm e = Some v) then Some i else None)
    | None => Some None
    end
  else find_ptirq_entry PTDEV_INTR_INTX (INTX_SID gsi gsi_ctlr) (Some v) st.

Definition remove_intx_remapping (v : nat) (gsi gsi_ctlr : Z) (is_phy_gsi : bool) (st : ptdev)
    : option ptdev :=
  r ← intx_to_remove v gsi gsi_ctlr is_phy_gsi st;
  match r with
  | None => Some st
  | Some i =>
      e ← ptirq_entries st !! i;
      st ← (if active e then
              let phys_irq := allocated_pirq e in
              let st := emit (Ioapic_gsi_mask_irq phys_irq) st in
              st ← ptirq_deactivate_entry i st;
              Some (emit (Dmar_free_irte false (ioapic_irq_to_ioapic_id phys_irq) (irte_idx e)) st)
            else Some st);
      ptirq_release_entry i st
  end.

(** ** Injection *)

(** The call to the virtual controller. *)
Definition ptirq_handle_intx (v : nat) (e : ptirq_remapping_info) : list pt_effect :=
  let gsi := sid_gsi (virt_sid e) in
  let ctlr := sid_ctlr (virt_sid e) in
  if ctlr =? INTX_CTLR_IOAPIC then
    let level := field 15 1 (vioapic_get_rte v gsi) =? 1 in
    let low := nonzero (polarity e) in
    [Vioapic_set_irqline v gsi
       (if level then if low then GSI_SET_LOW else GSI_SET_HIGH
        else if low then GSI_FALLING_PULSE else GSI_RAISING_PULSE)]
  else if ctlr =? INTX_CTLR_PIC then
    [Vpic_set_irqline v gsi (if vpic_level_triggered v gsi then GSI_SET_HIGH else GSI_RAISING_PULSE)]
  else [].

(** The calls of a turn for an active entry of the VM [v]. *)
Definition ptirq_inject (v i : nat) (e : ptirq_remapping_info) : list pt_effect :=
  (if intr_type e =? PTDEV_INTR_INTX then ptirq_handle_intx v e else [Vlapic_inject_msi v (vmsi e)])
  ++ [Handle_x86_tee_int i].

(** A turn of the loop of [ptirq_softirq]; false ends it. *)
Definition ptirq_softirq_turn (tickrate : Z) (ticks : nat → Z) (st : ptdev) : option (bool * ptdev) :=
  '(r, st) ← ptirq_dequeue_softirq tickrate ticks st;
  match r with
  | None => Some (false, st)
  | Some i =>
      e ← ptirq_entries st !! i;
      if active e then
        v ← vm e;
        Some (true, st⟨effects := effects st ++ ptirq_inject v i e⟩)
      else Some (true, st)
  end.

(** [ticks k] are the values of the counter in the [k]-th turn. *)
Fixpoint ptirq_softirq (fuel : nat) (tickrate : Z) (ticks : nat → nat → Z) (st : ptdev)
    : option ptdev :=
  match fuel with
  | O => None
  | S fuel =>
      '(more, st) ← ptirq_softirq_turn tickrate (ticks O) st;
      if (more : bool) then ptirq_softirq fuel tickrate (λ k, ticks (S k)) st else Some st
  end.

Definition ptirq_intx_ack (v : nat) (virt_gsi vgsi_ctlr : Z) (st : ptdev) : option ptdev :=
  r ← find_ptirq_entry PTDEV_INTR_INTX (INTX_SID virt_gsi vgsi_ctlr) (Some v) st;
  match r with
  | None => Some st
  | Some i =>
      e ← ptirq_entries st !! i;
      let st :=
        if vgsi_ctlr =? INTX_CTLR_IOAPIC then
          emit (Vioapic_set_irqline v virt_gsi
                  (if nonzero (polarity e) then GSI_SET_HIGH else GSI_SET_LOW)) st
        else if vgsi_ctlr =? INTX_CTLR_PIC then emit (Vpic_set_irqline v virt_gsi GSI_SET_LOW) st
        else st in
      Some (emit (Ioapic_gsi_unmask_irq (allocated_pirq e)) st)
  end.

(** ** The interface of the device model and the virtual interrupt controllers *)

(** The result, and the message for the device. *)
Definition ptirq_prepare_msix_remap (v : nat) (virt_bdf phys_bdf entry_nr : Z) (info : Z * Z)
    (idx : Z) (st : ptdev) : option (Z * (Z * Z) * ptdev) :=
  '(r, st) ← add_msix_remapping v virt_bdf phys_bdf entry_nr st;
  match r with
  | None => Some (- ENODEV, info, st)
  | Some i =>
      st ← upd_entry i (λ e, e⟨vmsi := info⟩) st;
      e ← ptirq_entries st !! i;
      x ← pt_vms st !! v;
      let host := irq_to_vector (allocated_pirq e) in
      let guest := field 0 8 info.2 in
      let build vector pid :=
        e' ← ptirq_build_physical_msi v vector pid idx e;
        st ← upd_entry i (λ _, e') st;
        Some (0, pmsi e', st) in
      if is_lapic_pt_configured v then
        match check_vm_vlapic_mode v with
        | VM_VLAPIC_X2APIC => build guest 0
        | VM_VLAPIC_XAPIC => build host 0
        | VM_VLAPIC_TRANSITION | VM_VLAPIC_DISABLED => Some (- EFAULT, info, st)
        end
      else
        match is_single_destination v info with
        | Some vid => if pi_capable x then build guest (pi_desc_of v vid) else build host 0
        | None => build host 0
        end
  end.

Definition activate_ioapic_rte (v i : nat) (st : ptdev) : option ptdev :=
  e ← ptirq_entries st !! i;
  let phys_irq := allocated_pirq e in
  let st := emit (Ioapic_gsi_mask_irq phys_irq) st in
  '(rte, e', effs) ← ptirq_build_physical_rte v e;
  st ← upd_entry i (λ _, e') st⟨effects := effects st ++ effs⟩;
  q ← Irq.set_irq_trigger_mode phys_irq (field 15 1 rte =? 1) (irqs st);
  let st := emit (Ioapic_set_rte phys_irq (set_field 16 1 1 rte)) st⟨irqs := q⟩ in
  Some (if field 16 1 rte =? 0 then emit (Ioapic_gsi_unmask_irq phys_irq) st else st).

(** The result of adding, as a status. *)
Definition with_status (status : Z) (r : option nat * ptdev) : Z * option nat * ptdev :=
  (match r.1 with Some _ => status | None => - ENODEV end, r.1, r.2).

(** The entry of a pin of the Service VM, which is added when the pin is used; a legacy pin can
    move between the virtual PIC and the virtual I/O APIC. *)
Definition service_pin (v : nat) (virt_gsi vgsi_ctlr : Z) (st : ptdev)
    : option (Z * option nat * ptdev) :=
  '(status, entry, st) ←
    (if virt_gsi <? NR_LEGACY_PIN then
       let alt := if vgsi_ctlr =? INTX_CTLR_PIC then INTX_CTLR_IOAPIC else INTX_CTLR_PIC in
       r ← find_ptirq_entry PTDEV_INTR_INTX (INTX_SID virt_gsi alt) (Some v) st;
       match r with
       | Some _ =>
           st ← remove_intx_remapping v virt_gsi alt false st;
           r ← add_intx_remapping v virt_gsi virt_gsi vgsi_ctlr st;
           Some (with_status 0 r)
       | None => Some (0, None, st)
       end
     else Some (0, None, st));
  match entry with
  | Some i => Some (status, Some i, st)
  | None => r ← add_intx_remapping v virt_gsi virt_gsi vgsi_ctlr st; Some (with_status status r)
  end.

Definition ptirq_intx_pin_remap (v : nat) (virt_gsi vgsi_ctlr : Z) (st : ptdev)
    : option (Z * ptdev) :=
  if is_vuart_intx v virt_gsi then Some (- EINVAL, st)
  else
    r ← find_ptirq_entry PTDEV_INTR_INTX (INTX_SID virt_gsi vgsi_ctlr) (Some v) st;
    '(status, entry, st) ←
      match r with
      | Some i => Some (0, Some i, st)
      | None => if is_service_vm st (Some v) then service_pin v virt_gsi vgsi_ctlr st
                else Some (- ENODEV, None, st)
      end;
    if status =? 0 then i ← entry; st ← activate_ioapic_rte v i st; Some (0, st)
    else Some (status, st).

Definition ptirq_add_intx_remapping (v : nat) (virt_gsi phys_gsi : Z) (pic_pin : bool) (st : ptdev)
    : option (Z * ptdev) :=
  '(r, st) ← add_intx_remapping v virt_gsi phys_gsi
               (if pic_pin then INTX_CTLR_PIC else INTX_CTLR_IOAPIC) st;
  Some (match r with Some _ => 0 | None => - ENODEV end, st).

Definition ptirq_remove_intx_remapping (v : nat) (gsi : Z) (pic_pin is_phy_gsi : bool) (st : ptdev)
    : option ptdev :=
  remove_intx_remapping v gsi (if pic_pin then INTX_CTLR_PIC else INTX_CTLR_IOAPIC) is_phy_gsi st.

Fixpoint remove_msix_loop (v : nat) (phys_bdf : Z) (l : list Z) (st : ptdev) : option ptdev :=
  match l with
  | [] => Some st
  | i :: l' => st ← remove_msix_remapping v phys_bdf i st; remove_msix_loop v phys_bdf l' st
  end.

Definition ptirq_remove_msix_remapping (v : nat) (phys_bdf vector_count : Z) (st : ptdev)
    : option ptdev :=
  remove_msix_loop v phys_bdf (seqZ 0 vector_count) st.

(** [pt_intx] are the virtual pins of the configuration of the VM. *)
Fixpoint ptirq_remove_configured_intx_remappings (v : nat) (pt_intx : list Z) (st : ptdev)
    : option ptdev :=
  match pt_intx with
  | [] => Some st
  | gsi :: l =>
      st ← ptirq_remove_intx_remapping v gsi false false st;
      ptirq_remove_configured_intx_remappings v l st
  end.
End assign.
