(* ===== verification/PtdevRuns.v ===== *)
(** * Passthrough interrupts in runs of the system

    The operations of [Assign] keep the invariant of [PtdevInv] and the exclusive assignment of
    the interrupt sources, and in every interleaving of interrupts, timers, softirqs and
    changes of the assignment an interrupt stays scheduled until it is injected. *)

From Stdlib Require Import Sorted.
From S2P Require Import Prelude Bits LinkedList Timer Irq Ptdev PtdevInv Assign.

#[local] Existing Instance x86_bitmap.
#[local] Existing Instance Irq.eta_irqs.

(** ** Exclusive assignment *)

(** What an active entry connects. *)
Definition ident (e : ptirq_remapping_info) := (intr_type e, phys_sid e, virt_sid e, vm e).

(** A physical source belongs to one active entry, and so does a virtual pin of a VM. *)
Definition exclusive (st : ptdev) : Prop :=
  ∀ i j ei ej, ptirq_entries st !! i = Some ei → ptirq_entries st !! j = Some ej →
    active ei = true → active ej = true → intr_type ei = intr_type ej →
    phys_sid ei = phys_sid ej ∨
    (intr_type ei = PTDEV_INTR_INTX ∧ vm ei = vm ej ∧ virt_sid ei = virt_sid ej) → i = j.

(** What an operation on the entry [i] leaves of the others. *)
Record touches (i : nat) (st st' : ptdev) : Prop := {
  tc_entries j : j ≠ i → ptirq_entries st' !! j = ptirq_entries st !! j;
  tc_sched j : j ≠ i → scheduled j st → scheduled j st';
  tc_queue j : j ∈ softirq_dev_entry_list st' → j ∈ softirq_dev_entry_list st;
  tc_softirqs : softirqs st' = softirqs st;
  tc_vms : pt_vms st' = pt_vms st;
}.

Lemma touches_refl i st : touches i st st.
Proof. by split. Qed.

Lemma touches_trans i st1 st2 st3 : touches i st1 st2 → touches i st2 st3 → touches i st1 st3.
Proof.
  intros A B. split.
  - intros j Hj. rewrite (tc_entries _ _ _ B j Hj). by apply (tc_entries _ _ _ A).
  - intros j Hj Hs. apply (tc_sched _ _ _ B j Hj). by apply (tc_sched _ _ _ A).
  - intros j Hj. apply (tc_queue _ _ _ A). by apply (tc_queue _ _ _ B).
  - by rewrite (tc_softirqs _ _ _ B), (tc_softirqs _ _ _ A).
  - by rewrite (tc_vms _ _ _ B), (tc_vms _ _ _ A).
Qed.

Lemma rest_same_touches i e' st st' : rest_same st st' →
  ptirq_entries st' = <[i := e']> (ptirq_entries st) → touches i st st'.
Proof.
  intros [Em Eq Et Es Ev Ee] He. split; auto.
  - intros j Hj. rewrite He. by apply list_lookup_insert_ne.
  - intros j _. unfold scheduled. by rewrite Eq, Et.
  - by rewrite Eq.
Qed.

Lemma released_touches reg i w st : pt_wf reg st → touches i st (released i w st).
Proof.
  intros Hw. split; try done; cbn.
  - intros j Hj. by apply list_lookup_insert_ne.
  - intros j Hj. unfold scheduled. cbn. rewrite del_timer_list.
    rewrite !elem_of_seq_del by (apply Hw). tauto.
  - intros j Hj. apply elem_of_seq_del in Hj as [? _]; [done|apply Hw].
Qed.

Lemma exclusive_ext st st' :
  (∀ i e', ptirq_entries st' !! i = Some e' → active e' = true →
     ∃ e, ptirq_entries st !! i = Some e ∧ active e = true ∧ ident e = ident e') →
  exclusive st → exclusive st'.
Proof.
  intros H Hx i j ei' ej' Hi Hj Hai Haj Ht Hs.
  destruct (H i ei' Hi Hai) as (ei & Hi0 & ? & Ei). destruct (H j ej' Hj Haj) as (ej & Hj0 & ? & Ej).
  unfold ident in *. simplify_eq. apply (Hx i j ei ej); auto; [congruence|].
  destruct Hs as [?|(? & ? & ?)]; [left; congruence|right; split_and!; congruence].
Qed.

(** An entry that becomes active must be new to the others. *)
Lemma exclusive_add i e' st st' :
  (∀ j, j ≠ i → ptirq_entries st' !! j = ptirq_entries st !! j) → ptirq_entries st' !! i = Some e' →
  (∀ j e, ptirq_entries st !! j = Some e → active e = true → intr_type e = intr_type e' →
     phys_sid e ≠ phys_sid e' ∧
     (intr_type e' = PTDEV_INTR_INTX → vm e = vm e' → virt_sid e ≠ virt_sid e')) →
  exclusive st → exclusive st'.
Proof.
  intros Hne Hi Hnew Hx.
  assert (∀ j ej, j ≠ i → ptirq_entries st' !! j = Some ej → active ej = true → intr_type ej = intr_type e' →
    phys_sid ej = phys_sid e' ∨ (intr_type ej = PTDEV_INTR_INTX ∧ vm ej = vm e' ∧ virt_sid ej = virt_sid e') → False) as H.
  { intros j ej Hj Hej Haj Ht Hc. rewrite Hne in Hej by done. destruct (Hnew j ej Hej Haj Ht) as [? Hv].
    destruct Hc as [?|(? & ? & ?)]; [done|]. apply Hv; congruence. }
  intros j k ej ek Hj Hk Haj Hak Ht Hs.
  destruct (decide (j = i)) as [->|Hji], (decide (k = i)) as [->|Hki]; [done|..]; simplify_eq.
  - exfalso. apply (H k ek); auto. destruct Hs as [?|(? & ? & ?)]; [left; congruence|right; split_and!; congruence].
  - exfalso. by apply (H j ej).
  - rewrite Hne in Hj, Hk by done. by apply (Hx j k ej ek).
Qed.

(** ** Operations that change the assignment *)

Definition as_wf (st : ptdev) : Prop := (∃ reg, pt_wf reg st) ∧ exclusive st.

(** The lines of the virtual I/O APICs that are driven are those of existing VMs. *)
Definition line_ok (n : nat) (x : pt_effect) : bool :=
  match x with Vioapic_set_irqline v g _ => (v <? n)%nat && (0 <=? g) | _ => true end.

Definition extends (st st' : ptdev) : Prop :=
  ∃ l, effects st' = effects st ++ l ∧ Forall (λ x, line_ok (length (pt_vms st)) x = true) l.

Lemma extends_same st st' : effects st' = effects st → extends st st'.
Proof. intros E. exists []. by rewrite app_nil_r. Qed.

Lemma extends_one x st st' : effects st' = effects st ++ [x] → line_ok (length (pt_vms st)) x = true →
  extends st st'.
Proof. intros E Hx. exists [x]. auto. Qed.

Lemma extends_trans st1 st2 st3 : pt_vms st2 = pt_vms st1 → extends st1 st2 → extends st2 st3 →
  extends st1 st3.
Proof.
  intros V (l1 & E1 & H1) (l2 & E2 & H2). exists (l1 ++ l2). rewrite E2, E1, app_assoc. split; [done|].
  apply Forall_app. split; [done|]. by rewrite <- V.
Qed.

(** An operation that takes away no more than the entries with an identity in [D], and that
    schedules nothing. *)
Record op_ok (D : Z * Z * Z * option nat → Prop) (st st' : ptdev) : Prop := {
  ok_wf : as_wf st';
  ok_vms : pt_vms st' = pt_vms st;
  ok_softirqs : softirqs st' = softirqs st;
  ok_queue j : j ∈ softirq_dev_entry_list st' → j ∈ softirq_dev_entry_list st;
  ok_effects : extends st st';
  ok_keep j e : ptirq_entries st !! j = Some e → active e = true → ¬ D (ident e) →
    ∃ e', ptirq_entries st' !! j = Some e' ∧ active e' = true ∧ ident e' = ident e ∧
      (scheduled j st → scheduled j st');
}.

Definition nothing : Z * Z * Z * option nat → Prop := λ _, False.

Lemma op_refl D st : as_wf st → op_ok D st st.
Proof. intros Hw. split; auto; [by apply extends_same|]. intros j e ? ? _. by exists e. Qed.

Lemma op_trans (D : Z * Z * Z * option nat → Prop) st1 st2 st3 :
  op_ok D st1 st2 → op_ok D st2 st3 → op_ok D st1 st3.
Proof.
  intros A B. split.
  - apply B.
  - by rewrite (ok_vms _ _ _ B), (ok_vms _ _ _ A).
  - by rewrite (ok_softirqs _ _ _ B), (ok_softirqs _ _ _ A).
  - intros j Hj. by apply (ok_queue _ _ _ A), (ok_queue _ _ _ B).
  - eapply extends_trans; [apply A..|apply B].
  - intros j e Hj Ha Hn. destruct (ok_keep _ _ _ A j e Hj Ha Hn) as (e1 & H1 & A1 & I1 & S1).
    destruct (ok_keep _ _ _ B j e1 H1 A1) as (e2 & H2 & A2 & I2 & S2); [by rewrite I1|].
    exists e2. split_and!; auto. by rewrite I2.
Qed.

Lemma op_mono (D D' : Z * Z * Z * option nat → Prop) st st' :
  (∀ x, D x → D' x) → op_ok D st st' → op_ok D' st st'.
Proof.
  intros HD [H1 H2 H3 H4 H5 H6]. split; auto.
Qed.

Lemma skel_exclusive st st' : same_skel st st' → exclusive st → exclusive st'.
Proof.
  intros Hs. apply exclusive_ext.
  intros i e' Hi Ha. destruct (same_skel_lookup st st' i e' Hs Hi) as (e & He & Hsk).
  exists e. unfold skel, ident in *. injection Hsk. intros. split_and!; congruence.
Qed.

(** Fields that the invariant does not read. *)
Lemma op_soft D st st' : as_wf st → same_skel st st' →
  ptirq_entry_bitmaps st' = ptirq_entry_bitmaps st → phys_sid_htable st' = phys_sid_htable st →
  virt_sid_htable st' = virt_sid_htable st →
  softirq_dev_entry_list st' = softirq_dev_entry_list st → cpu_timers st' = cpu_timers st →
  irqs st' = irqs st → softirqs st' = softirqs st → extends st st' →
  op_ok D st st'.
Proof.
  intros [[reg Hw] Hx] Hs E1 E2 E3 E4 E5 E6 E7 E8. split; auto.
  - split; [exists reg; by eapply pt_wf_frame|by eapply skel_exclusive].
  - apply Hs.
  - by rewrite E4.
  - intros j e Hj Ha _. destruct (same_skel_lookup st' st j e (same_skel_sym _ _ Hs) Hj) as (e' & He & Hsk).
    exists e'. unfold skel, ident, scheduled in *. rewrite E4, E5. injection Hsk. intros.
    split_and!; auto; congruence.
Qed.

Lemma op_emit D x st : as_wf st → line_ok (length (pt_vms st)) x = true → op_ok D st (emit x st).
Proof. intros Hw Hx. apply op_soft; auto; [by split|by apply (extends_one x)]. Qed.

Lemma op_upd_entry D i f e st : as_wf st → ptirq_entries st !! i = Some e → skel (f e) = skel e →
  ∃ st', upd_entry i f st = Some st' ∧ op_ok D st st' ∧
    ptirq_entries st' = <[i := f e]> (ptirq_entries st) ∧ pt_vms st' = pt_vms st ∧ irqs st' = irqs st ∧ effects st' = effects st.
Proof.
  intros Hw He Hsk. destruct (Hw) as [[reg Hr] _].
  destruct (upd_entry_soft reg i f e st Hr He Hsk) as [-> _].
  eexists. split; [done|]. split; [|done]. apply op_soft; try done.
  - by apply (insert_same_skel i e (f e)).
  - by apply extends_same.
Qed.

(** An operation on one entry, which was not active. *)
Lemma op_inactive D i st st' : as_wf st' → touches i st st' → extends st st' →
  (∀ e, ptirq_entries st !! i = Some e → active e = false) → op_ok D st st'.
Proof.
  intros Hw [T1 T2 T3 T4 T5] He Hi. split; auto. intros j e Hj Ha _.
  destruct (decide (j = i)) as [->|Hji]; [by rewrite (Hi e Hj) in Ha|].
  exists e. rewrite T1 by done. split_and!; auto.
Qed.

(** The lookups. *)
Lemma find_phys_cases ty sid st : as_wf st →
  ∃ r, find_ptirq_entry ty sid None st = Some r ∧
    match r with
    | Some i => ∃ e, ptirq_entries st !! i = Some e ∧ active e = true ∧ intr_type e = ty ∧ phys_sid e = sid
    | None => ∀ j e, ptirq_entries st !! j = Some e → active e = true → intr_type e = ty → phys_sid e ≠ sid
    end.
Proof.
  intros [[reg Hw] _]. rewrite (find_phys_ok reg) by done. eexists. split; [done|].
  destruct (head _) as [i|] eqn:E.
  - apply head_filter_some in E as [E _]. apply hit_spec in E as (e & He & Ha & Hm).
    unfold phys_match in Hm. zreflect. by exists e.
  - intros j e Hj Ha Ht Hp. apply head_filter_none with (i := j) in E.
    + unfold hit, phys_match in E. rewrite Hj, Ha, Ht, Hp, !Z.eqb_refl in E. done.
    + apply (ch_reg _ _ (wf_chains _ _ Hw)). by exists e.
Qed.

Lemma find_virt_cases ty sid v x st : as_wf st → pt_vms st !! v = Some x →
  ∃ r, find_ptirq_entry ty sid (Some v) st = Some r ∧
    match r with
    | Some i => ∃ e, ptirq_entries st !! i = Some e ∧ active e = true ∧ intr_type e = ty ∧
                     virt_sid e = sid ∧ vm e = Some v
    | None => ∀ j e, ptirq_entries st !! j = Some e → active e = true → intr_type e = ty →
                     vm e = Some v → virt_sid e ≠ sid
    end.
Proof.
  intros [[reg Hw] _] Hx. rewrite (find_virt_ok reg ty sid v x) by done. eexists. split; [done|].
  destruct (head _) as [i|] eqn:E.
  - apply head_filter_some in E as [E _]. apply hit_spec in E as (e & He & Ha & Hm).
    apply andb_prop in Hm as [Hm Hv%bool_decide_eq_true]. zreflect. by exists e.
  - intros j e Hj Ha Ht Hv Hp. apply head_filter_none with (i := j) in E.
    + unfold hit, virt_match in E. rewrite Hj, Ha, Ht, Hp, !Z.eqb_refl, bool_decide_eq_true_2 in E; done.
    + apply (ch_reg _ _ (wf_chains _ _ Hw)). by exists e.
Qed.

(** The pin of a VM is found at the entry that holds it. *)
Lemma find_pin_holder i e v st : as_wf st → ptirq_entries st !! i = Some e → active e = true →
  intr_type e = PTDEV_INTR_INTX → vm e = Some v →
  find_ptirq_entry PTDEV_INTR_INTX (virt_sid e) (Some v) st = Some (Some i).
Proof.
  intros Hw Hi Ha Ht Hv. destruct (Hw) as [[reg Hr] Hx].
  destruct (tb_own _ (wf_table _ _ Hr) i e Hi (tb_active _ (wf_table _ _ Hr) i e Hi Ha)) as (_ & v' & x & Hv' & Hvx).
  simplify_eq. destruct (find_virt_cases PTDEV_INTR_INTX (virt_sid e) v x st Hw Hvx) as (r & -> & H).
  destruct r as [j|]; [|by destruct (H i e)].
  destruct H as (ej & Hj & Haj & Htj & Hp & Hvj). do 2 f_equal. apply (Hx j i ej e); auto; [congruence|].
  right. split_and!; congruence.
Qed.

(** The allocated entry with its source filled in. *)
Lemma filled_ok reg v i ty psid vsid st : pt_wf reg st →
  ptirq_entries st !! i = Some (fresh_entry v i ty) →
  ∃ st', upd_entry i (fill_entry psid vsid) st = Some st' ∧ pt_wf reg st' ∧ rest_same st st' ∧
    ptirq_entries st' = <[i := fill_entry psid vsid (fresh_entry v i ty)]> (ptirq_entries st).
Proof.
  intros [W1 W2 W3 W4 W5] Hi. unfold upd_entry. rewrite Hi. cbn [mbind option_bind].
  eexists. split; [done|]. split; [|done].
  set (e := fresh_entry v i ty) in *. set (e' := fill_entry psid vsid e).
  set (st' := st⟨ptirq_entries := <[i := e']> (ptirq_entries st)⟩).
  destruct (replace_inactive reg i e e' st st') as [C I]; try done.
  destruct (replace_same_node i e e' st st') as [Q T]; try done.
  split; auto. by apply (table_same_node i e e' st).
Qed.

Lemma fresh_touches reg v i ty e w' st : pt_wf reg st → ptirq_entries st !! i = Some e → node e = false →
  touches i st st⟨ptirq_entry_bitmaps := [w']⟩
                ⟨ptirq_entries := <[i := fresh_entry v i ty]> (ptirq_entries st)⟩
                ⟨cpu_timers := set_tobj i (fresh_timer i) (cpu_timers st)⟩.
Proof.
  intros Hw Hi Hn. split; try done; cbn. intros j Hj. by apply list_lookup_insert_ne.
Qed.

(** The allocation of an entry, filled in, when there is a free one. *)
Lemma alloc_filled_ok reg v x ty psid vsid st : pt_wf reg st → pt_vms st !! v = Some x →
  ptirq_alloc_entry v ty st = Some (None, st) ∨
  ∃ i st1 st2, ptirq_alloc_entry v ty st = Some (Some i, st1) ∧
    upd_entry i (fill_entry psid vsid) st1 = Some st2 ∧ pt_wf reg st2 ∧ touches i st st2 ∧
    effects st2 = effects st ∧
    ptirq_entries st2 !! i = Some (fill_entry psid vsid (fresh_entry v i ty)) ∧
    ∀ e, ptirq_entries st !! i = Some e → active e = false.
Proof.
  intros Hw Hv.
  destruct (alloc_entry_ok reg v x ty st Hw Hv) as [[-> _]|(i & e0 & w' & Hi0 & Hn0 & [-> W1])]; [by left|].
  right. pose proof (fresh_touches reg v i ty e0 w' st Hw Hi0 Hn0) as T1.
  set (st1 := upd cpu_timers _ _) in *.
  assert (Hi1 : ptirq_entries st1 !! i = Some (fresh_entry v i ty)).
  { apply list_lookup_insert_eq. by eapply lookup_lt_Some. }
  assert (F1 : effects st1 = effects st) by done. clearbody st1.
  destruct (filled_ok reg v i ty psid vsid st1 W1 Hi1) as (st2 & H2 & W2 & R2 & E2).
  exists i, st1, st2. split_and!; auto.
  - eapply touches_trans; [exact T1|]. by eapply rest_same_touches.
  - by rewrite (rs_effects _ _ R2).
  - rewrite E2. apply list_lookup_insert_eq. by eapply lookup_lt_Some.
  - intros e' He'. simplify_eq. destruct (active e0) eqn:Ea; [|done].
    by rewrite (tb_active _ (wf_table _ _ Hw) i e0 Hi0 Ea) in Hn0.
Qed.

Section operations.
Context {P : Platform}.

(** A new entry for a source that no active entry holds. *)
Lemma new_entry_ok v x ty psid vsid phys_irq st : as_wf st → pt_vms st !! v = Some x → 0 ≤ phys_irq →
  (∀ j e, ptirq_entries st !! j = Some e → active e = true → intr_type e = ty → phys_sid e ≠ psid) →
  (ty = PTDEV_INTR_INTX → ∀ j e, ptirq_entries st !! j = Some e → active e = true → intr_type e = ty →
     vm e = Some v → virt_sid e ≠ vsid) →
  ∃ r st', new_entry v ty psid vsid phys_irq st = Some (r, st') ∧ op_ok nothing st st' ∧
    (∀ i, r = Some i → ∃ e, ptirq_entries st' !! i = Some e ∧ active e = true ∧
       ident e = (ty, psid, vsid, Some v)).
Proof.
  intros [[reg Hw] Hx] Hv Hirq Hp Hvs. unfold new_entry.
  destruct (alloc_filled_ok reg v x ty psid vsid st Hw Hv)
    as [->|(i & st1 & st2 & -> & H1 & W2 & T2 & F2 & Hi2 & Hina)]; cbn [mbind option_bind].
  { eexists _, _. split; [done|]. split; [|done]. apply op_refl. split; eauto. }
  rewrite H1. cbn [mbind option_bind]. clear H1 st1.
  set (e := fill_entry psid vsid (fresh_entry v i ty)) in *.
  assert (Hv2 : pt_vms st2 !! v = Some x) by (by rewrite (tc_vms _ _ _ T2)).
  destruct (activate_ok request_irq_arch reg i e v x phys_irq st2) as (ret & st3 & -> & R3 & H3); try done.
  cbn [mbind option_bind].
  assert (F3 : effects st3 = effects st) by (by rewrite (rs_effects _ _ R3)).
  destruct H3 as [(Hret & E3 & W3)|(Hret & [irq E3] & W3)].
  - replace (ret <? 0) with true by (symmetry; by apply Z.ltb_lt).
    destruct (release_entry_ok reg i e st3) as (w2 & -> & W4); try done; [by rewrite E3|].
    cbn [mbind option_bind]. eexists _, _. split; [done|]. split; [|done].
    assert (T4 : touches i st (released i w2 st3)).
    { eapply touches_trans; [exact T2|]. eapply touches_trans; [|by eapply released_touches].
      eapply (rest_same_touches i e); [done|]. rewrite E3. symmetry. by apply list_insert_id. }
    apply (op_inactive _ i); auto; [|by apply extends_same].
    split; [by eexists|]. apply exclusive_ext with st; [|done].
    intros j e' Hj Ha. destruct (decide (j = i)) as [->|Hji].
    + cbn in Hj. apply insert_lookup_cases in Hj as [[_ ->]|[? _]]; done.
    + rewrite (tc_entries _ _ _ T4) in Hj by done. by exists e'.
  - replace (ret <? 0) with false by (symmetry; apply Z.ltb_ge; lia).
    eexists _, _. split; [done|].
    assert (T3 : touches i st st3) by (eapply touches_trans; [exact T2|]; by eapply rest_same_touches).
    assert (Hi3 : ptirq_entries st3 !! i = Some (activated irq e)).
    { rewrite E3. apply list_lookup_insert_eq. by eapply lookup_lt_Some. }
    split; [|intros ? [= <-]; by eexists].
    apply (op_inactive _ i); auto; [|by apply extends_same].
    split; [by eexists|]. apply (exclusive_add i (activated irq e) st); auto.
    + apply T3.
    + intros j ej Hj Ha Ht. split; [by apply (Hp j)|]. intros Hty Hve. by apply (Hvs Hty j).
Qed.

(** Deactivation and release, with the call that is made in between. *)
Lemma disconnect_ok (D : Z * Z * Z * option nat → Prop) i e st : as_wf st →
  ptirq_entries st !! i = Some e → active e = true → D (ident e) →
  ∃ st1, ptirq_deactivate_entry i st = Some st1 ∧
    ∀ st1', (st1' = st1 ∨ ∃ x, st1' = emit x st1 ∧ line_ok (length (pt_vms st)) x = true) →
      ∃ st2, ptirq_release_entry i st1' = Some st2 ∧ op_ok D st st2.
Proof.
  intros [[reg Hw] Hx] Hi Ha HD.
  destruct (deactivate_ok reg i e st Hw Hi Ha) as (st1 & -> & W1 & R1 & E1).
  eexists. split; [done|]. intros st1' Hst.
  assert (pt_wf (Seq.del i reg) st1' ∧ ptirq_entries st1' = ptirq_entries st1 ∧
                softirq_dev_entry_list st1' = softirq_dev_entry_list st ∧
                cpu_timers st1' = cpu_timers st ∧ softirqs st1' = softirqs st ∧
                pt_vms st1' = pt_vms st ∧ extends st st1') as
      (W & E & Eq & Et & Es & Ev & Ee).
  { destruct R1. destruct Hst as [->|(x & -> & Hx')]; split_and!; auto.
    - by apply extends_same.
    - by apply (pt_wf_frame _ st1).
    - apply (extends_one x); [cbn; congruence|done]. }
  assert (Hi1 : ptirq_entries st1' !! i = Some e⟨active := false⟩).
  { rewrite E, E1. apply list_lookup_insert_eq. by eapply lookup_lt_Some. }
  assert (Hn : node e = true) by (by apply (tb_active _ (wf_table _ _ Hw) i)).
  destruct (release_entry_ok _ i _ st1' W Hi1 Hn eq_refl) as (w2 & -> & W2).
  eexists. split; [done|].
  assert (T : touches i st (released i w2 st1')).
  { eapply touches_trans; [|by eapply released_touches].
    split; auto; [|intros j _; unfold scheduled; by rewrite Eq, Et|by rewrite Eq].
    intros j Hj. rewrite E, E1. by apply list_lookup_insert_ne. }
  destruct T as [T1 T2 T3 T4 T5]. split; auto.
  - split; [by eexists|]. apply exclusive_ext with st; [|done]. intros j e' Hj Haj.
    destruct (decide (j = i)) as [->|Hji].
    + cbn in Hj. apply insert_lookup_cases in Hj as [[_ ->]|[? _]]; done.
    + rewrite T1 in Hj by done. by exists e'.
  - intros j e' Hj Haj HnD. destruct (decide (j = i)) as [->|Hji]; [by simplify_eq|].
    exists e'. rewrite T1 by done. split_and!; auto.
Qed.

(** The identities that the operations of the VM [v] take away. *)
Definition of_vm (v : nat) : Z * Z * Z * option nat → Prop := λ x, x.2 = Some v.

Lemma add_msix_ok v x vb pb nr st : as_wf st → pt_vms st !! v = Some x →
  ∃ r st', add_msix_remapping v vb pb nr st = Some (r, st') ∧ op_ok nothing st st' ∧
    ∀ i, r = Some i → ∃ e, ptirq_entries st' !! i = Some e ∧ active e = true.
Proof.
  intros Hw Hv. unfold add_msix_remapping.
  destruct (find_phys_cases PTDEV_INTR_MSI (MSI_SID pb nr) st Hw) as (r & -> & Hr).
  cbn [mbind option_bind]. destruct r as [i|].
  - eexists _, _. split; [done|]. split; [by apply op_refl|]. intros ? [= <-].
    destruct Hr as (e & ? & ? & _). by exists e.
  - destruct (new_entry_ok v x PTDEV_INTR_MSI (MSI_SID pb nr) (MSI_SID vb nr) Irq.IRQ_INVALID st)
      as (r & st' & -> & Hok & Hi); try done.
    eexists _, _. split; [done|]. split; [done|]. intros i Hr'.
    destruct (Hi i Hr') as (e & ? & ? & _). by exists e.
Qed.

(** The MSI entry that is taken away. *)
Definition msi_entry (v : nat) (pb nr : Z) : Z * Z * Z * option nat → Prop :=
  λ x, x.1.1.1 = PTDEV_INTR_MSI ∧ x.1.1.2 = MSI_SID pb nr ∧ x.2 = Some v.

Lemma remove_msix_ok v pb nr st : as_wf st →
  ∃ st', remove_msix_remapping v pb nr st = Some st' ∧ op_ok (msi_entry v pb nr) st st'.
Proof.
  intros Hw. unfold remove_msix_remapping.
  destruct (find_phys_cases PTDEV_INTR_MSI (MSI_SID pb nr) st Hw) as (r & -> & Hr).
  cbn [mbind option_bind]. destruct r as [i|]; [|eexists; split; [done|]; by apply op_refl].
  destruct Hr as (e & He & Ha & Ht & Hs). rewrite He. cbn [mbind option_bind].
  case_bool_decide as Hv; [|eexists; split; [done|]; by apply op_refl]. rewrite Ha.
  destruct (disconnect_ok (msi_entry v pb nr) i e st) as (st1 & -> & H1); [done..|].
  cbn [mbind option_bind]. apply H1. right. by eexists.
Qed.

Lemma add_intx_ok v x vg pg ctlr st : as_wf st → pt_vms st !! v = Some x → 0 ≤ ioapic_gsi_to_irq pg →
  ∃ r st', add_intx_remapping v vg pg ctlr st = Some (r, st') ∧ op_ok nothing st st' ∧
    ∀ i, r = Some i → ∃ e, ptirq_entries st' !! i = Some e ∧ active e = true ∧ vm e = Some v ∧
      intr_type e = PTDEV_INTR_INTX ∧ phys_sid e = INTX_SID pg INTX_CTLR_IOAPIC.
Proof.
  intros Hw Hv Hg. unfold add_intx_remapping.
  destruct (find_phys_cases PTDEV_INTR_INTX (INTX_SID pg INTX_CTLR_IOAPIC) st Hw) as (r & -> & Hr).
  cbn [mbind option_bind]. destruct r as [i|].
  - destruct Hr as (e & He & Ha & Ht & Hs). rewrite He. cbn [mbind option_bind].
    eexists _, _. split; [done|]. split; [by apply op_refl|]. intros j.
    case_bool_decide; [|done]. intros [= <-]. by exists e.
  - destruct (find_virt_cases PTDEV_INTR_INTX (INTX_SID vg ctlr) v x st Hw Hv) as (r & -> & Hr').
    cbn [mbind option_bind]. destruct r as [i|].
    + eexists _, _. split; [done|]. split; [by apply op_refl|done].
    + destruct (new_entry_ok v x PTDEV_INTR_INTX (INTX_SID pg INTX_CTLR_IOAPIC) (INTX_SID vg ctlr)
                  (ioapic_gsi_to_irq pg) st) as (r & st' & -> & Hok & Hi); try done.
      eexists _, _. split; [done|]. split; [done|]. intros i Hi'.
      destruct (Hi i Hi') as (e & ? & ? & He). exists e. unfold ident in He. by simplify_eq.
Qed.

(** The pin that is taken away. *)
Definition pin_entry (v : nat) (g ctlr : Z) (is_phy : bool) : Z * Z * Z * option nat → Prop :=
  λ x, x.1.1.1 = PTDEV_INTR_INTX ∧ x.2 = Some v ∧
    if is_phy then x.1.1.2 = INTX_SID g INTX_CTLR_IOAPIC else x.1.2 = INTX_SID g ctlr.

Lemma intx_to_remove_ok v x g ctlr is_phy st : as_wf st → pt_vms st !! v = Some x →
  ∃ r, intx_to_remove v g ctlr is_phy st = Some r ∧
    ∀ i, r = Some i → ∃ e, ptirq_entries st !! i = Some e ∧ active e = true ∧
      pin_entry v g ctlr is_phy (ident e).
Proof.
  intros Hw Hv. unfold intx_to_remove. destruct is_phy.
  - destruct (find_phys_cases PTDEV_INTR_INTX (INTX_SID g INTX_CTLR_IOAPIC) st Hw) as (r & -> & Hr).
    cbn [mbind option_bind]. destruct r as [i|]; [|by eexists].
    destruct Hr as (e & He & ? & ? & ?). rewrite He. cbn [mbind option_bind].
    eexists. split; [done|]. intros j. case_bool_decide; [|done]. intros [= <-]. by exists e.
  - destruct (find_virt_cases PTDEV_INTR_INTX (INTX_SID g ctlr) v x st Hw Hv) as (r & -> & Hr).
    eexists. split; [done|]. intros i ->. destruct Hr as (e & ? & ? & ? & ? & ?). by exists e.
Qed.

Lemma remove_intx_ok v x g ctlr is_phy st : as_wf st → pt_vms st !! v = Some x →
  ∃ st', remove_intx_remapping v g ctlr is_phy st = Some st' ∧ op_ok (pin_entry v g ctlr is_phy) st st'.
Proof.
  intros Hw Hv. unfold remove_intx_remapping.
  destruct (intx_to_remove_ok v x g ctlr is_phy st Hw Hv) as (r & -> & Hr).
  cbn [mbind option_bind]. destruct r as [i|]; [|eexists; split; [done|]; by apply op_refl].
  destruct (Hr i eq_refl) as (e & He & Ha & HD). rewrite He. cbn [mbind option_bind]. rewrite Ha.
  set (st0 := emit _ st). assert (O0 : op_ok (pin_entry v g ctlr is_phy) st st0) by (by apply op_emit).
  destruct (disconnect_ok (pin_entry v g ctlr is_phy) i e st0) as (st1 & -> & H1); [apply O0|done..|].
  cbn [mbind option_bind].
  destruct (H1 (emit (Dmar_free_irte false (ioapic_irq_to_ioapic_id (allocated_pirq e)) (irte_idx e)) st1))
    as (st2 & H2 & O2); [right; by eexists|].
  rewrite H2. eexists. split; [done|]. by eapply op_trans.
Qed.

(** *** The physical message *)

(** What the code relies on of the rest of the hypervisor: at most 64 CPUs, masks of CPUs are
    64-bit words, and interrupt numbers are not negative. *)
Class PlatformLaws : Prop := {
  pl_cpus : MAX_PCPU_NUM ≤ 64;
  pl_mask v m : word 64 (vcpumask2pcpumask v m);
  pl_irq g : 0 ≤ ioapic_gsi_to_irq g }.

Context {L : PlatformLaws}.

(** Every turn clears the lowest bit of the mask, so 64 are enough. *)
Lemma dest_loop_total c fuel : ∀ k mask l, 64 - k ≤ Z.of_nat fuel → word 64 mask →
  (∀ i, 0 ≤ i < k → Z.testbit mask i = false) → ∃ r, dest_loop fuel c mask l = Some r.
Proof.
  induction fuel as [|fuel IH]; intros k mask l Hk Hm Hb; cbn [dest_loop].
  all: destruct (Z.eq_dec mask 0) as [->|Hnz].
  1, 3: replace (u16 (ffs64 0) <? MAX_PCPU_NUM) with false; [by eexists|].
  1, 2: symmetry; apply Z.ltb_ge; pose proof bs_ffs64_zero; pose proof pl_cpus;
    unfold u16; rewrite Z.mod_small by lia; lia.
  all: destruct (bs_ffs64 mask Hm Hnz) as (Hf & Ht & Hlow).
  all: assert (k ≤ ffs64 mask) by (destruct (Z_lt_le_dec (ffs64 mask) k) as [?|?]; [|done];
    by rewrite Hb in Ht by lia).
  - lia.
  - case_if; [|by eexists]. unfold u16 in *. rewrite Z.mod_small in * by lia.
    apply (IH (ffs64 mask + 1)); [lia| |].
    + rewrite bn_clear. by apply bs_clear_word.
    + intros i Hi. rewrite bn_clear, bs_clear by (done || lia).
      destruct (decide (i = ffs64 mask)) as [->|Hne]; [by rewrite bool_decide_eq_true_2, andb_false_r|].
      by rewrite Hlow by lia.
Qed.

Lemma dest_mask_total m : word 64 m → ∃ r, calculate_logical_dest_mask m = Some r.
Proof.
  intros Hm. unfold calculate_logical_dest_mask. case_if; [|by eexists].
  destruct (dest_loop_total (lapic_ldr (u16 (ffs64 m)) &&& X2APIC_LDR_CLUSTER_ID_MASK) 64 0 m 0) as [r ->];
    [lia|done|lia|]. by eexists.
Qed.

Lemma build_msi_ok v vector pid idx e :
  ∃ e', ptirq_build_physical_msi v vector pid idx e = Some e' ∧ skel e' = skel e.
Proof.
  unfold ptirq_build_physical_msi. destruct (vmsi e) as [va vd].
  destruct (dest_mask_total _ (pl_mask v (vlapic_calc_dest_noshort v (field 12 8 va) (field 2 1 va =? 0) false)))
    as [m ->]. cbn [mbind option_bind].
  destruct (irte_idx e =? INVALID_IRTE_ID); destruct (dmar_assign_irte _ _ _) as [ret index]; case_if;
    by eexists.
Qed.

Lemma field_nonneg lo n x : 0 ≤ n → 0 ≤ field lo n x.
Proof. intros Hn. apply Z.land_nonneg. right. rewrite Z.ones_equiv. pose proof (Z.pow_pos_nonneg 2 n). lia. Qed.

Lemma line_ok_gsi n v e op : (v < n)%nat → line_ok n (Vioapic_set_irqline v (sid_gsi (virt_sid e)) op) = true.
Proof. intros Hv. cbn. apply andb_true_intro. split; [by apply Nat.ltb_lt|]. by apply Z.leb_le, field_nonneg. Qed.

Lemma build_rte_ok n v e : (v < n)%nat →
  ∃ rte e' effs, ptirq_build_physical_rte v e = Some (rte, e', effs) ∧ skel e' = skel e ∧
    Forall (λ x, line_ok n x = true) effs.
Proof.
  intros Hn. unfold ptirq_build_physical_rte. case_if; [|by eexists _, _, _].
  destruct (dest_mask_total _ (pl_mask v (vlapic_calc_dest_noshort v
    (field 56 8 (vioapic_get_rte v (sid_gsi (virt_sid e))))
    (field 11 1 (vioapic_get_rte v (sid_gsi (virt_sid e))) =? 0) false))) as [m ->].
  cbn [mbind option_bind]. set (effs := (if field 13 1 _ =? 1 then _ else _) : list pt_effect).
  assert (Forall (λ x, line_ok n x = true) effs).
  { unfold effs. destruct (_ =? 1), (polarity e =? _); auto using Forall_nil, line_ok_gsi. }
  destruct (dmar_assign_irte _ _ _) as [ret index]; case_if; by eexists _, _, _.
Qed.

Lemma prepare_msix_ok v x vb pb nr info idx st : as_wf st → pt_vms st !! v = Some x →
  ∃ r st', ptirq_prepare_msix_remap v vb pb nr info idx st = Some (r, st') ∧ op_ok nothing st st'.
Proof.
  intros Hw Hv. unfold ptirq_prepare_msix_remap.
  destruct (add_msix_ok v x vb pb nr st Hw Hv) as (r & st1 & -> & O1 & H1). cbn [mbind option_bind].
  destruct r as [i|]; [|by eexists _, _]. destruct (H1 i eq_refl) as (e & He & _).
  match goal with |- context [upd_entry i ?g st1] => set (f := g) end.
  destruct (op_upd_entry nothing i f e st1 (ok_wf _ _ _ O1) He eq_refl)
    as (st2 & -> & O2 & E2 & V2 & _). cbn [mbind option_bind].
  assert (He2 : ptirq_entries st2 !! i = Some (f e)).
  { rewrite E2. apply list_lookup_insert_eq. by eapply lookup_lt_Some. }
  rewrite He2. cbn [mbind option_bind]. rewrite V2, (ok_vms _ _ _ O1), Hv. cbn [mbind option_bind].
  assert (O12 : op_ok nothing st st2) by (by eapply op_trans).
  assert (HB : ∀ vector pid, ∃ r st', (e' ← ptirq_build_physical_msi v vector pid idx (f e);
     st0 ← upd_entry i (λ _, e') st2; Some (0, pmsi e', st0)) = Some (r, st') ∧ op_ok nothing st st').
  { intros vector pid. destruct (build_msi_ok v vector pid idx (f e)) as (e' & -> & Hsk).
    cbn [mbind option_bind].
    destruct (op_upd_entry nothing i (λ _, e') _ st2 (ok_wf _ _ _ O12) He2 Hsk) as (st3 & -> & O3 & _).
    eexists _, _. split; [done|]. by eapply op_trans. }
  case_if.
  - destruct (check_vm_vlapic_mode v); try apply HB; by eexists _, _.
  - destruct (is_single_destination v info); [case_if|]; apply HB.
Qed.

(** *** Pins *)

(** The fields of the interrupt descriptors that the invariant does not read. *)
Lemma op_irqs D s st : as_wf st → Irq.irqs_wf s →
  (∀ j, 0 ≤ j → (λ d, (Irq.action d, Irq.priv_data d)) <$> Irq.desc_of j s =
                (λ d, (Irq.action d, Irq.priv_data d)) <$> Irq.desc_of j (irqs st)) →
  op_ok D st st⟨irqs := s⟩.
Proof.
  intros [[reg Hw] Hx] Hs HD.
  assert (HW : irq_wf st⟨irqs := s⟩).
  { destruct (wf_irq _ _ Hw) as [_ Hp Hdesc]. split; [done| |].
    - intros i e Hi Ha Hn. destruct (Hp i e Hi Ha Hn) as (Hr & d & Hd & Ha0 & Hp0). split; [done|].
      cbn [irqs]. specialize (HD (allocated_pirq e) ltac:(lia)). rewrite Hd in HD.
      destruct (Irq.desc_of (allocated_pirq e) s) as [d'|] eqn:E; [|done].
      exists d'. rewrite <- Ha0, <- Hp0. cbn in HD. by simplify_eq.
    - intros j d Hj Hd Ha. cbn in Hd. specialize (HD j Hj). rewrite Hd in HD.
      destruct (Irq.desc_of j (irqs st)) as [d'|] eqn:E; [|done]. cbn in HD. injection HD as E1 E2.
      rewrite E2. apply (Hdesc j d'); auto. congruence. }
  split; auto; [split; [|done]|by apply extends_same|].
  - exists reg. destruct Hw as [[] [] [] [] _]. split; [by split..|done].
  - intros j e Hj Ha _. exists e. by split_and!.
Qed.

Lemma trigger_mode_ok D q level st : as_wf st → 0 ≤ q →
  ∃ s, Irq.set_irq_trigger_mode q level (irqs st) = Some s ∧ op_ok D st st⟨irqs := s⟩.
Proof.
  intros Hst Hq. destruct (Hst) as [[reg Hw] _]. pose proof (ir_wf _ (wf_irq _ _ Hw)) as Hiw.
  unfold Irq.set_irq_trigger_mode. case_if; zreflect.
  - destruct (desc_some q (irqs st)) as [d Hd]; [done|lia|]. rewrite Hd. cbn [mbind option_bind].
    eexists. split; [done|]. apply op_irqs; [done|destruct Hiw; split; auto; cbn; by rewrite length_insert|].
    intros j Hj. rewrite desc_set by (done || lia). destruct (decide _) as [->|]; [|done].
    rewrite Hd. by destruct level.
  - eexists. split; [done|]. by apply op_irqs.
Qed.

Lemma op_effects D l st : as_wf st → Forall (λ x, line_ok (length (pt_vms st)) x = true) l →
  op_ok D st st⟨effects := effects st ++ l⟩.
Proof. intros Hw Hl. apply op_soft; auto; [by split|by exists l]. Qed.

Lemma pirq_nonneg i e st : as_wf st → ptirq_entries st !! i = Some e → active e = true → 0 ≤ allocated_pirq e.
Proof.
  intros [[reg Hr] _] He Ha. destruct (decide (allocated_pirq e = Irq.IRQ_INVALID)) as [->|Hn]; [done|].
  by apply (ir_pirq _ (wf_irq _ _ Hr) i e).
Qed.

Lemma activate_rte_ok v x i e st : as_wf st → pt_vms st !! v = Some x →
  ptirq_entries st !! i = Some e → active e = true →
  ∃ st', activate_ioapic_rte v i st = Some st' ∧ op_ok nothing st st'.
Proof.
  intros Hw Hv He Ha. unfold activate_ioapic_rte. rewrite He. cbn [mbind option_bind].
  pose proof (pirq_nonneg i e st Hw He Ha) as Hirq.
  set (st1 := emit _ st). assert (O1 : op_ok nothing st st1) by (by apply op_emit).
  destruct (build_rte_ok (length (pt_vms st)) v e) as (rte & e' & effs & -> & Hsk & Hl); [by eapply lookup_lt_Some|]. cbn [mbind option_bind].
  pose proof (op_effects nothing effs st1 (ok_wf _ _ _ O1) Hl) as O2.
  set (st2 := upd effects _ st1) in *.
  destruct (op_upd_entry nothing i (λ _, e') e st2 (ok_wf _ _ _ O2) He Hsk) as (st3 & -> & O3 & _).
  cbn [mbind option_bind].
  destruct (trigger_mode_ok nothing (allocated_pirq e) (field 15 1 rte =? 1) st3 (ok_wf _ _ _ O3) Hirq)
    as (s & -> & O4). cbn [mbind option_bind]. eexists. split; [done|].
  eapply op_trans; [exact O1|]. eapply op_trans; [exact O2|]. eapply op_trans; [exact O3|].
  eapply op_trans; [exact O4|]. set (st4 := upd irqs _ st3) in *.
  pose proof (op_emit nothing (Ioapic_set_rte (allocated_pirq e) (set_field 16 1 1 rte)) st4 (ok_wf _ _ _ O4) eq_refl) as O5.
  case_if; [|done]. eapply op_trans; [exact O5|]. by apply op_emit; [apply O5|].
Qed.

(** The virtual pin that a pin remap of the Service VM can take away. *)
Definition other_ctlr (ctlr : Z) : Z := if ctlr =? INTX_CTLR_PIC then INTX_CTLR_IOAPIC else INTX_CTLR_PIC.

Lemma add_status_ok D v x g pg ctlr status st : as_wf st → pt_vms st !! v = Some x →
  ∃ s r st', (r ← add_intx_remapping v g pg ctlr st; Some (with_status status r)) = Some (s, r, st') ∧
    op_ok D st st' ∧ (r = None → s ≠ 0) ∧
    ∀ i, r = Some i → ∃ e, ptirq_entries st' !! i = Some e ∧ active e = true.
Proof.
  intros Hw Hv. destruct (add_intx_ok v x g pg ctlr st Hw Hv (pl_irq _)) as (r & st' & -> & O & H).
  cbn [mbind option_bind with_status fst snd]. eexists _, _, _. split; [done|].
  split; [by eapply op_mono; [|exact O]|]. split; [by intros ->|].
  intros i Hi. destruct (H i Hi) as (e & ? & ? & _). by exists e.
Qed.

Lemma service_pin_ok v x g ctlr st : as_wf st → pt_vms st !! v = Some x →
  ∃ s r st', service_pin v g ctlr st = Some (s, r, st') ∧
    op_ok (pin_entry v g (other_ctlr ctlr) false) st st' ∧ (r = None → s ≠ 0) ∧
    ∀ i, r = Some i → ∃ e, ptirq_entries st' !! i = Some e ∧ active e = true.
Proof.
  intros Hw Hv. unfold service_pin. fold (other_ctlr ctlr). set (D := pin_entry _ _ _ _).
  pose proof (add_status_ok D v x g g ctlr 0 st Hw Hv) as Hno.
  case_if; [|by cbn [mbind option_bind]].
  destruct (find_virt_cases PTDEV_INTR_INTX (INTX_SID g (other_ctlr ctlr)) v x st Hw Hv) as (r & -> & _).
  cbn [mbind option_bind]. destruct r as [j|]; [|by cbn [mbind option_bind]]. clear Hno.
  destruct (remove_intx_ok v x g (other_ctlr ctlr) false st Hw Hv) as (st1 & -> & O1). cbn [mbind option_bind].
  assert (Hv1 : pt_vms st1 !! v = Some x) by (by rewrite (ok_vms _ _ _ O1)).
  destruct (add_status_ok D v x g g ctlr 0 st1 (ok_wf _ _ _ O1) Hv1) as (s & r & st2 & -> & O2 & Hs & Hi).
  cbn [mbind option_bind]. assert (O12 : op_ok D st st2) by (by eapply op_trans).
  destruct r as [i|]; [by eexists _, _, _|].
  assert (Hv2 : pt_vms st2 !! v = Some x) by (by rewrite (ok_vms _ _ _ O12)).
  destruct (add_status_ok D v x g g ctlr s st2 (ok_wf _ _ _ O2) Hv2) as (s' & r & st3 & -> & O3 & H3).
  eexists _, _, _. split; [done|]. split; [by eapply op_trans|done].
Qed.

(** What a pin remap can take away: the legacy pin of the Service VM at the other controller. *)
Lemma pin_remap_ok v x g ctlr st : as_wf st → pt_vms st !! v = Some x →
  ∃ r st', ptirq_intx_pin_remap v g ctlr st = Some (r, st') ∧
    op_ok (pin_entry v g (other_ctlr ctlr) false) st st'.
Proof.
  intros Hw Hv. unfold ptirq_intx_pin_remap. set (D := pin_entry _ _ _ _).
  case_if; [eexists _, _; split; [done|]; by apply op_refl|].
  destruct (find_virt_cases PTDEV_INTR_INTX (INTX_SID g ctlr) v x st Hw Hv) as (r & -> & Hr).
  cbn [mbind option_bind].
  assert (∃ s r' st1, match r with
      | Some i => Some (0, Some i, st)
      | None => if is_service_vm st (Some v) then service_pin v g ctlr st else Some (- ENODEV, None, st)
      end = Some (s, r', st1) ∧ op_ok D st st1 ∧ (r' = None → s ≠ 0) ∧
      ∀ i, r' = Some i → ∃ e, ptirq_entries st1 !! i = Some e ∧ active e = true) as (s & r' & st1 & -> & O1 & Hs & Hi).
  { destruct r as [i|].
    - eexists _, _, _. split; [done|]. split; [by apply op_refl|]. split; [done|].
      intros ? [= <-]. destruct Hr as (e & ? & ? & _). by exists e.
    - case_if; [by eapply service_pin_ok|].
      eexists _, _, _. split; [done|]. split; [by apply op_refl|done]. }
  cbn [mbind option_bind]. case_if; [|by eexists _, _]. zreflect. destruct r' as [i|]; [|by destruct Hs].
  destruct (Hi i eq_refl) as (e & He & Ha). cbn [mbind option_bind].
  destruct (activate_rte_ok v x i e st1 (ok_wf _ _ _ O1) (eq_trans (f_equal (.!! v) (ok_vms _ _ _ O1)) Hv) He Ha) as (st2 & -> & O2).
  eexists _, _. split; [done|]. eapply op_trans; [exact O1|]. by eapply op_mono; [|exact O2].
Qed.

(** *** Everything of a VM or a device *)

Lemma remove_msix_loop_ok v pb l : ∀ st, as_wf st →
  ∃ st', remove_msix_loop v pb l st = Some st' ∧
    op_ok (λ x, ∃ nr, nr ∈ l ∧ msi_entry v pb nr x) st st'.
Proof.
  induction l as [|nr l IH]; intros st Hw; cbn [remove_msix_loop].
  { eexists. split; [done|]. by apply op_refl. }
  destruct (remove_msix_ok v pb nr st Hw) as (st1 & -> & O1). cbn [mbind option_bind].
  destruct (IH st1 (ok_wf _ _ _ O1)) as (st2 & -> & O2). eexists. split; [done|].
  eapply op_trans; [eapply op_mono; [|exact O1]|eapply op_mono; [|exact O2]].
  - intros x Hx. exists nr. split; [left|done].
  - intros x (k & Hk & Hx). exists k. split; [by right|done].
Qed.

Lemma release_one_ok v i st : as_wf st → (i < 64)%nat →
  ∃ st', release_one v i st = Some st' ∧ op_ok (of_vm v) st st'.
Proof.
  intros Hw Hi. unfold release_one. destruct (Hw) as [[reg Hr] _].
  destruct (lookup_lt_is_Some_2 (ptirq_entries st) i) as [e He]; [by rewrite (tb_len _ (wf_table _ _ Hr))|].
  rewrite He. cbn [mbind option_bind].
  destruct (bool_decide _ && _) eqn:E; [|eexists; split; [done|]; by apply op_refl].
  apply andb_prop in E as [Hv%bool_decide_eq_true Ha].
  set (st1 := match release_cb e with Some cb => _ | None => _ end).
  assert (op_ok (of_vm v) st st1 ∧ ptirq_entries st1 = ptirq_entries st) as [O1 E1].
  { unfold st1. destruct (release_cb e); (split; [|done]); [by apply op_emit|by apply op_refl]. }
  destruct (disconnect_ok (of_vm v) i e st1) as (st2 & -> & H2); [apply O1|by rewrite E1|done..|].
  cbn [mbind option_bind]. destruct (H2 st2) as (st3 & -> & O3); [by left|].
  eexists. split; [done|]. by eapply op_trans.
Qed.

Lemma release_entries_ok v l : ∀ st, as_wf st → Forall (λ i, i < 64)%nat l →
  ∃ st', release_entries v l st = Some st' ∧ op_ok (of_vm v) st st'.
Proof.
  induction l as [|i l IH]; intros st Hw Hl; cbn [release_entries].
  { eexists. split; [done|]. by apply op_refl. }
  apply Forall_cons in Hl as [Hi Hl].
  destruct (release_one_ok v i st Hw Hi) as (st1 & -> & O1). cbn [mbind option_bind].
  destruct (IH st1 (ok_wf _ _ _ O1) Hl) as (st2 & -> & O2). eexists. split; [done|]. by eapply op_trans.
Qed.

Lemma release_all_ok v st : as_wf st →
  ∃ st', ptdev_release_all_entries v st = Some st' ∧ op_ok (of_vm v) st st'.
Proof.
  intros Hw. apply release_entries_ok; [done|]. apply Forall_forall. intros i Hi%elem_of_seq.
  change (Z.to_nat CONFIG_MAX_PT_IRQ_ENTRIES) with 64%nat in Hi. lia.
Qed.

Lemma intx_ack_ok v x g ctlr st : as_wf st → pt_vms st !! v = Some x → 0 ≤ g →
  ∃ st', ptirq_intx_ack v g ctlr st = Some st' ∧ op_ok nothing st st'.
Proof.
  intros Hw Hv Hg. unfold ptirq_intx_ack.
  destruct (find_virt_cases PTDEV_INTR_INTX (INTX_SID g ctlr) v x st Hw Hv) as (r & -> & Hr).
  cbn [mbind option_bind]. destruct r as [i|]; [|eexists; split; [done|]; by apply op_refl].
  destruct Hr as (e & -> & _). cbn [mbind option_bind]. eexists. split; [done|].
  assert (HL : ∀ op, line_ok (length (pt_vms st)) (Vioapic_set_irqline v g op) = true).
  { intros op. cbn. apply andb_true_intro. split; [by eapply Nat.ltb_lt, lookup_lt_Some|by apply Z.leb_le]. }
  case_if; [|case_if]; [| |by apply op_emit].
  all: match goal with |- op_ok _ _ (emit _ ?s1) => assert (O : op_ok nothing st s1) by (by apply op_emit) end.
  all: eapply op_trans; [exact O|]. all: by apply op_emit; [apply O|].
Qed.

(** *** The softirq *)

Lemma inject_lines n v i e : (v < n)%nat → Forall (λ x, line_ok n x = true) (ptirq_inject v i e).
Proof.
  intros Hv. apply Forall_app. split; [|by repeat constructor]. unfold ptirq_handle_intx.
  repeat case_if; auto using Forall_nil, line_ok_gsi.
Qed.

(** A turn injects the entry that leaves the queue, when it is active; all others stay
    scheduled. *)
Lemma turn_ok tickrate ticks st : as_wf st →
  ∃ more st', ptirq_softirq_turn tickrate ticks st = Some (more, st') ∧ as_wf st' ∧
    pt_vms st' = pt_vms st ∧ softirqs st' = softirqs st ∧ ptirq_entries st' = ptirq_entries st ∧
    (∀ j, j ∈ softirq_dev_entry_list st' → j ∈ softirq_dev_entry_list st) ∧
    (if more then (length (softirq_dev_entry_list st') < length (softirq_dev_entry_list st))%nat
     else softirq_dev_entry_list st' = []) ∧
    extends st st' ∧
    (∀ j e, ptirq_entries st !! j = Some e → active e = true → scheduled j st →
       scheduled j st' ∨ ∃ v, vm e = Some v ∧ effects st' = effects st ++ ptirq_inject v j e).
Proof.
  intros [[reg Hw] Hx]. unfold ptirq_softirq_turn.
  destruct (dequeue_ok reg tickrate ticks st Hw) as (r & st1 & -> & W1 & [E1 V1 S1 F1 I1] & Q1 & K1 & H1).
  cbn [mbind option_bind].
  assert (X1 : exclusive st1) by (unfold exclusive; by rewrite E1).
  destruct r as [i|].
  - destruct H1 as (e & He & Hn & _ & Hlen). rewrite E1, He. cbn [mbind option_bind].
    destruct (tb_own _ (wf_table _ _ Hw) i e He Hn) as (_ & v & x & Hv & Hvx). rewrite Hv.
    assert (HL : Forall (λ x, line_ok (length (pt_vms st)) x = true) (ptirq_inject v i e)).
    { apply inject_lines. by eapply lookup_lt_Some. }
    destruct (active e) eqn:Ha; cbn [mbind option_bind]; eexists _, _; (split; [done|]).
    + pose proof (op_effects nothing (ptirq_inject v i e) st1 (conj (ex_intro _ reg W1) X1) ltac:(by rewrite V1)) as O.
      split_and!; auto; [apply O|exists (ptirq_inject v i e); cbn; by rewrite F1|].
      intros j ej Hj Haj Hs. destruct (decide (j = i)) as [->|Hji].
      * right. exists v. simplify_eq. cbn. by rewrite F1.
      * left. apply (K1 j Hs). congruence.
    + split_and!; auto; [by split; [exists reg|]|by apply extends_same|].
      intros j ej Hj Haj Hs. left. apply (K1 j Hs). congruence.
  - eexists _, _. split; [done|]. split_and!; auto; [by split; [exists reg|]|by apply extends_same].
Qed.

(** ** Events *)

(** The action of a descriptor, called by [do_irq] at the time [ticks]. *)
Fixpoint pt_actions (ticks : Z) (l : list (nat * Z * Z)) (st : ptdev) : option ptdev :=
  match l with
  | [] => Some st
  | (a, _, data) :: l' =>
      st ← (if bool_decide (a = PTIRQ_INTERRUPT_HANDLER)
            then ptirq_interrupt_handler ticks (Z.to_nat data) st else Some st);
      pt_actions ticks l' st
  end.

(** [do_irq] with the calls that [dispatch] records. *)
Definition pt_do_irq (ticks q : Z) (st : ptdev) : option ptdev :=
  s ← Irq.dispatch q (irqs st)⟨Irq.called := []⟩;
  pt_actions ticks (Irq.called s) st⟨irqs := s⟩.

Lemma dispatch_inert q s : Irq.irqs_wf s → 0 ≤ q →
  ∃ s', Irq.dispatch q s⟨Irq.called := []⟩ = Some s' ∧ Irq.irqs_wf s' ∧
    (∀ j, Irq.desc_of j s' = Irq.desc_of j s) ∧
    (Irq.called s' = [] ∧ ¬ (q < Irq.NR_IRQS ∧ Irq.allocated s q ∧ ∃ d a, Irq.desc_of q s = Some d ∧ Irq.action d = Some a) ∨
     ∃ d a, Irq.desc_of q s = Some d ∧ Irq.action d = Some a ∧
       Irq.called s' = [(a, Irq.irq d, Irq.priv_data d)]).
Proof.
  intros Hw Hq. unfold Irq.dispatch. case_if; zreflect.
  - destruct (desc_some q s) as [d Hd]; [done|lia|].
    change (Irq.desc_of q s⟨Irq.called := []⟩) with (Irq.desc_of q s). rewrite Hd. cbn [mbind option_bind].
    eexists. split; [done|]. set (s1 := upd Irq.irq_count _ _).
    assert (H1 : Irq.irqs_wf s1) by (by destruct Hw; split).
    assert (Ht : Irq.test_map q (Irq.irq_alloc_bitmap s1) = bit_at (Irq.irq_alloc_bitmap s) q).
    { destruct Hw as [_ [_ Ha] _]. apply Irq.test_map_spec; (done || lia). }
    rewrite Ht. destruct (bit_at _ q) eqn:Eb.
    + unfold Irq.handle_irq. destruct (Irq.action d) as [a|] eqn:Ea.
      * split; [by destruct H1; split|]. split; [done|]. right. by exists d, a.
      * split; [done|]. split; [done|]. left. split; [done|]. intros (_ & _ & ? & ? & ? & ?). congruence.
    + split; [done|]. split; [done|]. left. split; [done|]. unfold Irq.allocated. intros (_ & ? & _). congruence.
  - eexists. split; [done|]. split; [by destruct Hw; split|]. split; [done|]. left. split; [done|lia].
Qed.

(** An event that takes nothing away and injects nothing. *)
Record quiet (R : Prop) (st st' : ptdev) : Prop := {
  qt_wf : as_wf st';
  qt_skel : same_skel st st';
  qt_sched j : scheduled j st → scheduled j st';
  qt_softirq : softirq_dev_entry_list st' ≠ [] → armed_softirq st' ∨ R;
  qt_effects : effects st' = effects st;
}.

(** The interrupt of an entry: the entry is scheduled when the number is allocated. *)
Lemma do_irq_ok (R : Prop) ticks q st : as_wf st → 0 ≤ q →
  (softirq_dev_entry_list st ≠ [] → armed_softirq st ∨ R) →
  ∃ st', pt_do_irq ticks q st = Some st' ∧ quiet R st st' ∧
    ∀ i e, ptirq_entries st !! i = Some e → active e = true → allocated_pirq e = q →
      q < Irq.NR_IRQS → Irq.allocated (irqs st) q → scheduled i st'.
Proof.
  intros Hst Hq Ha. destruct (Hst) as [[reg Hw] Hx]. pose proof (wf_irq _ _ Hw) as [Hiw Hpirq Hdesc].
  unfold pt_do_irq. destruct (dispatch_inert q (irqs st) Hiw Hq) as (s & -> & Hs & HD & Hc).
  cbn [mbind option_bind].
  pose proof (op_irqs nothing s st Hst Hs ltac:(intros; by rewrite HD)) as O.
  set (st1 := upd irqs _ st) in *.
  assert (Q1 : quiet R st st1) by (split; auto; apply O || done).
  assert (Hkey : ∀ i e, ptirq_entries st !! i = Some e → active e = true → allocated_pirq e = q →
    q < Irq.NR_IRQS → ∃ d, Irq.desc_of q (irqs st) = Some d ∧
      Irq.action d = Some PTIRQ_INTERRUPT_HANDLER ∧ Irq.priv_data d = Z.of_nat i).
  { intros i e Hi Hae <- Hlt. apply (Hpirq i e Hi Hae). intros E. rewrite E in Hlt. by vm_compute in Hlt. }
  destruct Hc as [[-> Hno]|(d & a & Hd & Had & ->)]; cbn [pt_actions].
  - exists st1. split; [done|]. split; [done|]. intros i e Hi Hae Hpe Hlt Hal. exfalso.
    destruct (Hkey i e Hi Hae Hpe Hlt) as (d & ? & ? & _). apply Hno. split_and!; eauto.
  - case_bool_decide as Ea.
    + subst a. destruct (Hdesc q d Hq Hd Had) as (i & e & Ep & He & Hae & _). rewrite Ep, Nat2Z.id.
      destruct (ok_wf _ _ _ O) as [[reg1 W1] X1].
      destruct (interrupt_handler_ok R reg1 ticks i e st1 W1) as (st' & -> & [R1 R2 R3 R4 R5 R6]); auto.
      { by apply (tb_active _ (wf_table _ _ Hw) i). }
      exists st'. split; [done|]. split.
      * split; auto. split; [by eexists|by eapply skel_exclusive].
      * intros j ej Hj Haj Hpj Hlt _. destruct (Hkey j ej Hj Haj Hpj Hlt) as (d' & ? & ? & Epj).
        simplify_eq. rewrite Ep in Epj. apply Nat2Z.inj in Epj. by subst j.
    + exists st1. split; [done|]. split; [done|]. intros j ej Hj Haj Hpj Hlt _.
      destruct (Hkey j ej Hj Haj Hpj Hlt) as (d' & ? & ? & _). simplify_eq.
Qed.

Lemma timer_ok (R : Prop) now st : as_wf st → (softirq_dev_entry_list st ≠ [] → armed_softirq st ∨ R) →
  ∃ st', pt_timer_softirq now st = Some st' ∧ quiet R st st'.
Proof.
  intros [[reg Hw] Hx] Ha. destruct (pt_timer_softirq_ok R reg now st Hw Ha) as (ts & l & s & -> & W & K & A).
  eexists. split; [done|]. split; auto; [split; [by eexists|done]|by split].
Qed.

(** What happens to the state, one step at a time: interrupts and the timer softirq interleave
    with the turns of the passthrough softirq and with the operations of the VMs. *)
Inductive pt_event :=
  | Ev_irq (ticks q : Z)
  | Ev_timer (now : Z)
  | Ev_softirq
  | Ev_turn (tickrate : Z) (ticks : nat → Z)
  | Ev_prepare_msix (v : nat) (virt_bdf phys_bdf entry_nr : Z) (info : Z * Z) (idx : Z)
  | Ev_remove_msix (v : nat) (phys_bdf vector_count : Z)
  | Ev_add_intx (v : nat) (virt_gsi phys_gsi : Z) (pic_pin : bool)
  | Ev_remove_intx (v : nat) (gsi : Z) (pic_pin is_phy_gsi : bool)
  | Ev_pin_remap (v : nat) (virt_gsi vgsi_ctlr : Z)
  | Ev_ack (v : nat) (virt_gsi vgsi_ctlr : Z)
  | Ev_release_all (v : nat).

(** The state with whether [ptirq_softirq] is running. *)
Definition pt_step (ev : pt_event) (s : ptdev * bool) : option (ptdev * bool) :=
  let '(st, running) := s in
  match ev with
  | Ev_irq ticks q => st ← pt_do_irq ticks q st; Some (st, running)
  | Ev_timer now => st ← pt_timer_softirq now st; Some (st, running)
  | Ev_softirq =>
      let p := Softirq.softirq_pending (softirqs st) in
      if negb running && Z.testbit p Softirq.SOFTIRQ_PTDEV then
        let f := Softirq.mk_softirq (bitmap_clear_lock Softirq.SOFTIRQ_PTDEV p)
                   (Softirq.softirq_servicing (softirqs st)) tt in
        Some (st⟨softirqs := f⟩, true)
      else Some (st, running)
  | Ev_turn tickrate ticks =>
      if running then '(more, st) ← ptirq_softirq_turn tickrate ticks st; Some (st, more)
      else Some (st, running)
  | Ev_prepare_msix v vb pb nr info idx =>
      '(_, st) ← ptirq_prepare_msix_remap v vb pb nr info idx st; Some (st, running)
  | Ev_remove_msix v pb cnt => st ← ptirq_remove_msix_remapping v pb cnt st; Some (st, running)
  | Ev_add_intx v vg pg pic => '(_, st) ← ptirq_add_intx_remapping v vg pg pic st; Some (st, running)
  | Ev_remove_intx v g pic phy => st ← ptirq_remove_intx_remapping v g pic phy st; Some (st, running)
  | Ev_pin_remap v g ctlr => '(_, st) ← ptirq_intx_pin_remap v g ctlr st; Some (st, running)
  | Ev_ack v g ctlr => st ← ptirq_intx_ack v g ctlr st; Some (st, running)
  | Ev_release_all v => st ← ptdev_release_all_entries v st; Some (st, running)
  end.

Fixpoint pt_run (l : list pt_event) (s : ptdev * bool) : option (ptdev * bool) :=
  match l with [] => Some s | ev :: l' => s ← pt_step ev s; pt_run l' s end.

(** The VM on whose behalf an operation is. *)
Definition ev_vm (ev : pt_event) : option nat :=
  match ev with
  | Ev_irq _ _ | Ev_timer _ | Ev_softirq | Ev_turn _ _ => None
  | Ev_prepare_msix v _ _ _ _ _ | Ev_remove_msix v _ _ | Ev_add_intx v _ _ _
  | Ev_remove_intx v _ _ _ | Ev_pin_remap v _ _ | Ev_ack v _ _ | Ev_release_all v => Some v
  end.

(** Interrupt and pin numbers are not negative, and the VMs are among the [n] there are. *)
Definition ev_ok (n : nat) (ev : pt_event) : Prop :=
  match ev with Ev_irq _ q => 0 ≤ q | Ev_ack _ g _ => 0 ≤ g | _ => True end ∧ ∀ v, ev_vm ev = Some v → (v < n)%nat.

(** The identities of the entries that an event may take away. *)
Definition disconnects (ev : pt_event) : Z * Z * Z * option nat → Prop :=
  match ev with
  | Ev_remove_msix v pb cnt => λ x, ∃ nr, nr ∈ seqZ 0 cnt ∧ msi_entry v pb nr x
  | Ev_remove_intx v g pic phy => pin_entry v g (if pic then INTX_CTLR_PIC else INTX_CTLR_IOAPIC) phy
  | Ev_pin_remap v g ctlr => pin_entry v g (other_ctlr ctlr) false
  | Ev_release_all v => of_vm v
  | _ => nothing
  end.

Lemma disconnects_own ev x : disconnects ev x → x.2 = ev_vm ev.
Proof. destruct ev; cbn; try done; [intros (nr & _ & _ & _ & H)|intros (_ & H & _)|intros (_ & H & _)]; done. Qed.

Record pt_inv (s : ptdev * bool) : Prop := {
  pi_wf : as_wf s.1;
  pi_softirq : softirq_dev_entry_list s.1 ≠ [] → armed_softirq s.1 ∨ s.2 = true;
}.

(** What becomes of the entry [j] from [s] to [s']: it stays, and if it was scheduled it still
    is, or it has been injected. *)
Definition carried (j : nat) (e : ptirq_remapping_info) (s s' : ptdev * bool) : Prop :=
  ∃ e', ptirq_entries s'.1 !! j = Some e' ∧ active e' = true ∧ ident e' = ident e ∧
    (scheduled j s.1 → scheduled j s'.1 ∨
       ∃ v, vm e = Some v ∧ effects s'.1 = effects s.1 ++ ptirq_inject v j e).

Record step_ok (ev : pt_event) (s s' : ptdev * bool) : Prop := {
  so_inv : pt_inv s';
  so_vms : pt_vms s'.1 = pt_vms s.1;
  so_effects : extends s.1 s'.1;
  so_carried j e : ptirq_entries s.1 !! j = Some e → active e = true → ¬ disconnects ev (ident e) →
    carried j e s s';
}.

Lemma op_pt_step ev st st' running : pt_inv (st, running) → op_ok (disconnects ev) st st' →
  step_ok ev (st, running) (st', running).
Proof.
  intros [Hw Ha] O. split; cbn; [|apply O..|].
  - split; cbn; [apply O|]. unfold armed_softirq in *. rewrite (ok_softirqs _ _ _ O). intros Hq. apply Ha. cbn.
    intros E. destruct (softirq_dev_entry_list st') as [|j l] eqn:El; [done|].
    assert (j ∈ softirq_dev_entry_list st) as Hj by (apply (ok_queue _ _ _ O); rewrite El; left).
    rewrite E in Hj. by apply elem_of_nil in Hj.
  - intros j e Hj Hae Hn. destruct (ok_keep _ _ _ O j e Hj Hae Hn) as (e' & ? & ? & ? & ?).
    exists e'. split_and!; auto.
Qed.

Lemma op_pt_step_nothing ev st st' running : pt_inv (st, running) → op_ok nothing st st' →
  step_ok ev (st, running) (st', running).
Proof. intros Hi O. apply op_pt_step; [done|]. by eapply op_mono; [|exact O]. Qed.

Lemma quiet_step ev st st' running : pt_inv (st, running) → quiet (running = true) st st' →
  step_ok ev (st, running) (st', running).
Proof.
  intros [Hw Ha] [Qw Qs Qk Qa Qe]. split; cbn.
  - by split.
  - apply Qs.
  - by apply extends_same.
  - intros j e Hj Hae _.
    destruct (same_skel_lookup st' st j e (same_skel_sym _ _ Qs) Hj) as (e' & He & Hsk).
    exists e'. unfold skel, ident in *. injection Hsk. intros. split_and!; auto; congruence.
Qed.

Lemma softirq_begin_ok st : pt_inv (st, false) →
  ∃ s', pt_step Ev_softirq (st, false) = Some s' ∧ step_ok Ev_softirq (st, false) s'.
Proof.
  intros Hi. cbn [pt_step negb andb].
  case_if; [|eexists; split; [done|]; apply op_pt_step; [done|apply op_refl, Hi]].
  eexists. split; [done|]. set (f := Softirq.mk_softirq _ _ _). destruct Hi as [[[reg Hw] Hx] Ha].
  split; cbn; [|done|by apply extends_same|].
  - split; cbn; [|by right]. split; [|done]. exists reg. by apply (pt_wf_frame reg st).
  - intros j e Hj Hae _. exists e. split_and!; auto.
Qed.

Lemma turn_step_ok tickrate ticks st : pt_inv (st, true) →
  ∃ s', pt_step (Ev_turn tickrate ticks) (st, true) = Some s' ∧
    step_ok (Ev_turn tickrate ticks) (st, true) s'.
Proof.
  intros [Hw Ha]. cbn [pt_step].
  destruct (turn_ok tickrate ticks st Hw) as (more & st' & -> & W & V & S & E & Q & M & F & K).
  cbn [mbind option_bind]. eexists. split; [done|]. split; cbn; auto.
  - split; cbn; [done|]. destruct more; [by right|done].
  - intros j e Hj Hae _. exists e. cbn. rewrite E. split_and!; auto.
Qed.

Lemma pt_step_ok ev s : pt_inv s → ev_ok (length (pt_vms s.1)) ev →
  ∃ s', pt_step ev s = Some s' ∧ step_ok ev s s'.
Proof.
  destruct s as [st running]. intros Hi [Hq Hvm]. pose proof (pi_wf _ Hi) as Hw. cbn in Hw, Hvm.
  assert (Hv : ∀ v, ev_vm ev = Some v → ∃ x, pt_vms st !! v = Some x)
    by (intros v Hv; apply lookup_lt_is_Some_2; auto).
  destruct ev as [ticks q|now| |tr ticks|v vb pb nr info idx|v pb cnt|v vg pg pic|v g pic phy|v g c|v g c|v].
  - destruct (do_irq_ok (running = true) ticks q st Hw Hq (pi_softirq _ Hi)) as (st' & E & Hqt & _).
    cbn [pt_step]. rewrite E. eexists. split; [done|]. by apply quiet_step.
  - destruct (timer_ok (running = true) now st Hw (pi_softirq _ Hi)) as (st' & E & Hqt).
    cbn [pt_step]. rewrite E. eexists. split; [done|]. by apply quiet_step.
  - destruct running; [|by apply softirq_begin_ok]. eexists. split; [done|].
    apply op_pt_step; [done|by apply op_refl].
  - destruct running; [by apply turn_step_ok|]. eexists. split; [done|].
    apply op_pt_step; [done|by apply op_refl].
  - destruct (Hv v eq_refl) as [x Hx].
    destruct (prepare_msix_ok v x vb pb nr info idx st Hw Hx) as (r & st' & E & O).
    cbn [pt_step]. rewrite E. eexists. split; [done|]. by apply op_pt_step_nothing.
  - destruct (remove_msix_loop_ok v pb (seqZ 0 cnt) st Hw) as (st' & E & O).
    cbn [pt_step]. unfold ptirq_remove_msix_remapping. rewrite E. eexists. split; [done|]. by apply op_pt_step.
  - destruct (Hv v eq_refl) as [x Hx].
    destruct (add_intx_ok v x vg pg (if pic then INTX_CTLR_PIC else INTX_CTLR_IOAPIC) st Hw Hx (pl_irq _))
      as (r & st' & E & O & _).
    cbn [pt_step]. unfold ptirq_add_intx_remapping. rewrite E. eexists. split; [done|]. by apply op_pt_step_nothing.
  - destruct (Hv v eq_refl) as [x Hx].
    destruct (remove_intx_ok v x g (if pic then INTX_CTLR_PIC else INTX_CTLR_IOAPIC) phy st Hw Hx) as (st' & E & O).
    cbn [pt_step]. unfold ptirq_remove_intx_remapping. rewrite E. eexists. split; [done|]. by apply op_pt_step.
  - destruct (Hv v eq_refl) as [x Hx]. destruct (pin_remap_ok v x g c st Hw Hx) as (r & st' & E & O).
    cbn [pt_step]. rewrite E. eexists. split; [done|]. by apply op_pt_step.
  - destruct (Hv v eq_refl) as [x Hx]. destruct (intx_ack_ok v x g c st Hw Hx Hq) as (st' & E & O).
    cbn [pt_step]. rewrite E. eexists. split; [done|]. by apply op_pt_step_nothing.
  - destruct (release_all_ok v st Hw) as (st' & E & O).
    cbn [pt_step]. rewrite E. eexists. split; [done|]. by apply op_pt_step.
Qed.

(** ** Runs *)

(** The entry [j] has been injected between [s] and [s'], with the message or pin it had then. *)
Definition injected (j : nat) (e : ptirq_remapping_info) (s s' : ptdev * bool) : Prop :=
  ∃ e1 v pre post, ident e1 = ident e ∧ vm e = Some v ∧
    effects s'.1 = effects s.1 ++ pre ++ ptirq_inject v j e1 ++ post.

Record run_ok (l : list pt_event) (s s' : ptdev * bool) : Prop := {
  ro_inv : pt_inv s';
  ro_vms : pt_vms s'.1 = pt_vms s.1;
  ro_effects : ∃ l, effects s'.1 = effects s.1 ++ l;
  ro_carried j e : ptirq_entries s.1 !! j = Some e → active e = true →
    Forall (λ ev, ¬ disconnects ev (ident e)) l →
    ∃ e', ptirq_entries s'.1 !! j = Some e' ∧ active e' = true ∧ ident e' = ident e ∧
      (scheduled j s.1 → scheduled j s'.1 ∨ injected j e s s');
}.

Lemma ident_vm e e' : ident e' = ident e → vm e' = vm e.
Proof. unfold ident. congruence. Qed.

Lemma run_cons ev l s s1 s' : step_ok ev s s1 → run_ok l s1 s' → run_ok (ev :: l) s s'.
Proof.
  intros [I1 V1 (l1 & F1 & _) C1] [I2 V2 [l2 F2] C2]. split; [done|by rewrite V2| |].
  - exists (l1 ++ l2). by rewrite F2, F1, app_assoc.
  - intros j e Hj Ha [Hd Hl]%Forall_cons. destruct (C1 j e Hj Ha Hd) as (e1 & H1 & A1 & E1 & S1).
    destruct (C2 j e1 H1 A1) as (e2 & H2 & A2 & E2 & S2); [by rewrite E1|].
    exists e2. split; [done|]. split; [done|]. split; [congruence|]. intros Hs.
    destruct (S1 Hs) as [Hs1|(v & Hv & Ei)].
    + destruct (S2 Hs1) as [?|(e3 & v & pre & post & E3 & Hv & Ei)]; [by left|right].
      exists e3, v, (l1 ++ pre), post. rewrite <- (ident_vm _ _ E1). split_and!; [congruence|done|].
      by rewrite Ei, F1, <- !app_assoc.
    + right. exists e, v, [], l2. split_and!; [done..|]. by rewrite F2, Ei, <- app_assoc.
Qed.

Lemma pt_run_ok l : ∀ s, pt_inv s → Forall (ev_ok (length (pt_vms s.1))) l →
  ∃ s', pt_run l s = Some s' ∧ run_ok l s s'.
Proof.
  induction l as [|ev l IH]; intros s Hi Hl; cbn [pt_run].
  - exists s. split; [done|]. split; auto; [exists []; by rewrite app_nil_r|]. intros j e ? ? _. exists e. auto.
  - apply Forall_cons in Hl as [Hev Hl]. destruct (pt_step_ok ev s Hi Hev) as (s1 & -> & O1).
    cbn [mbind option_bind]. destruct (IH s1) as (s2 & -> & O2); [apply O1|by rewrite (so_vms _ _ _ O1)|].
    exists s2. split; [done|]. by eapply run_cons.
Qed.

(** The softirq empties the queue; an entry that it does not inject has its timer running. *)
Lemma softirq_drains tickrate fuel : ∀ ticks st, as_wf st →
  (length (softirq_dev_entry_list st) < fuel)%nat →
  ∃ st', ptirq_softirq fuel tickrate ticks st = Some st' ∧ as_wf st' ∧
    softirq_dev_entry_list st' = [] ∧ pt_vms st' = pt_vms st ∧ ptirq_entries st' = ptirq_entries st ∧
    (∃ l, effects st' = effects st ++ l) ∧
    ∀ j e, ptirq_entries st !! j = Some e → active e = true → scheduled j st →
      scheduled j st' ∨
      ∃ v pre post, vm e = Some v ∧ effects st' = effects st ++ pre ++ ptirq_inject v j e ++ post.
Proof.
  induction fuel as [|fuel IH]; intros ticks st Hw Hf; [lia|]. cbn [ptirq_softirq].
  destruct (turn_ok tickrate (ticks O) st Hw) as (more & st1 & -> & W & V & _ & E & Q & M & (l1 & F & _) & K).
  cbn [mbind option_bind]. destruct more.
  - destruct (IH (λ k, ticks (S k)) st1 W) as (st2 & -> & W2 & Q2 & V2 & E2 & [l2 F2] & K2); [lia|].
    exists st2. split_and!; auto; try congruence; [exists (l1 ++ l2); by rewrite F2, F, app_assoc|].
    intros j e Hj Ha Hs. destruct (K j e Hj Ha Hs) as [Hs1|(v & Hv & Ei)].
    + rewrite <- E in Hj. destruct (K2 j e Hj Ha Hs1) as [?|(v & pre & post & Hv & Ei)]; [by left|right].
      exists v, (l1 ++ pre), post. split; [done|]. by rewrite Ei, F, <- !app_assoc.
    + right. exists v, [], l2. split; [done|]. by rewrite F2, Ei, <- app_assoc.
  - exists st1. split_and!; auto; [by exists l1|]. intros j e Hj Ha Hs.
    destruct (K j e Hj Ha Hs) as [?|(v & Hv & Ei)]; [by left|right].
    exists v, [], []. split; [done|]. by rewrite Ei, app_nil_r.
Qed.

(** *** From boot *)

(** The state when the CPU has called [ptdev_init], with the interrupts [q] and the VMs [vms]. *)
Definition pt_boot (vms : list pt_vm) (q : Irq.irqs) : ptdev :=
  ptdev_init (mk_ptdev (replicate 64 zero_entry) [0] (replicate 512 []) (replicate 512 []) []
    (mk_timers ∅ [] None []) (Softirq.mk_softirq 0 0 tt) q vms []).

(** No interrupt has the handler of the passthrough interrupts yet. *)
Definition boot_ok (q : Irq.irqs) : Prop :=
  Irq.irqs_wf q ∧ Forall (λ d, Irq.action d ≠ Some PTIRQ_INTERRUPT_HANDLER) (Irq.irq_desc_array q).

Lemma boot_entry (vms : list pt_vm) q i e : ptirq_entries (pt_boot vms q) !! i = Some e → e = zero_entry.
Proof. cbn [pt_boot ptdev_init ptirq_entries]. by intros [-> _]%lookup_replicate. Qed.

Lemma boot_inv vms q : boot_ok q → pt_inv (pt_boot vms q, false).
Proof.
  intros [Hq Ha]. split; [|done]. split; [exists []|].
  2: { intros i j ei ej Hi _ Hact. apply boot_entry in Hi as ->. done. }
  split.
  - split; [done| |intros i e ->%boot_entry; done..].
    exists 0. split; [done|]. split; [by vm_compute|].
    intros i e ->%boot_entry. apply Z.testbit_0_l.
  - split; [constructor| |by vm_compute..].
    intros i. split; [by intros ?%elem_of_nil|]. intros (e & ->%boot_entry & ?). done.
  - split; [constructor|by intros i ?%elem_of_nil..].
  - split; [split; [constructor|by intros t ?%elem_of_nil|constructor]|done|intros i e ->%boot_entry; done|done].
  - split; [done|intros i e ->%boot_entry; done|]. intros j d Hj Hd Hact. exfalso.
    apply list_elem_of_lookup_2 in Hd. by apply (proj1 (Forall_forall _ _) Ha d).
Qed.

Definition reachable (vms : list pt_vm) (q : Irq.irqs) (s : ptdev * bool) : Prop :=
  ∃ l, Forall (ev_ok (length vms)) l ∧ pt_run l (pt_boot vms q, false) = Some s.

Lemma reachable_inv vms q s : boot_ok q → reachable vms q s → pt_inv s ∧ pt_vms s.1 = vms.
Proof.
  intros Hq (l & Hl & Hr). destruct (pt_run_ok l _ (boot_inv vms q Hq) Hl) as (s' & Hr' & O).
  rewrite Hr in Hr'. simplify_eq. split; [apply O|]. by rewrite (ro_vms _ _ _ O).
Qed.

(** ** Theorems *)


(** C10: the softirq delivers.  In every reachable state [ptirq_softirq] ends within one turn
    more than the queue is long, empties the queue, and has injected every active entry that
    was queued into the VM that holds it, except those of a User VM with an interrupt delay
    whose delay timer now runs. *)
Theorem ptirq_softirq_delivers vms q s tickrate ticks i e :
  boot_ok q → reachable vms q s →
  ptirq_entries s.1 !! i = Some e → active e = true → i ∈ softirq_dev_entry_list s.1 →
  ∃ st' v x, ptirq_softirq (S (length (softirq_dev_entry_list s.1))) tickrate ticks s.1 = Some st' ∧
    softirq_dev_entry_list st' = [] ∧ vm e = Some v ∧ vms !! v = Some x ∧
    ((∃ pre post, effects st' = effects s.1 ++ pre ++ ptirq_inject v i e ++ post) ∨
     i ∈ timer_list (cpu_timers st') ∧ service x = false ∧ 0 < intr_inject_delay_delta x).
Proof.
  intros Hq Hr He Ha Hin. destruct (reachable_inv vms q s Hq Hr) as [[Hw _] Hv].
  destruct (softirq_drains tickrate _ ticks s.1 Hw (Nat.lt_succ_diag_r _))
    as (st' & Hs & [[reg' W'] _] & Q & V & E & _ & K).
  destruct (Hw) as [[reg Hr0] _].
  destruct (tb_own _ (wf_table _ _ Hr0) i e He (tb_active _ (wf_table _ _ Hr0) i e He Ha)) as (_ & v & x & Hve & Hx).
  exists st', v, x. rewrite <- Hv. split_and!; auto.
  destruct (K i e He Ha (or_introl Hin)) as [[Hi|Hi]|(v' & pre & post & Hv' & Ei)].
  - rewrite Q in Hi. by apply elem_of_nil in Hi.
  - right. split; [done|]. apply (running_delay reg' i e v x st'); auto; congruence.
  - left. simplify_eq. by exists pre, post.
Qed.

(** C8: passthrough interrupts are assigned exclusively.  No sequence of events fails from
    boot, and in the state it reaches two active entries never have the same physical source,
    or the same virtual pin of the same VM; so the hash lookups by physical source, and for
    pins by virtual source, find the entry that holds it. *)
Theorem sources_exclusive vms q l : boot_ok q → Forall (ev_ok (length vms)) l →
  ∃ s, pt_run l (pt_boot vms q, false) = Some s ∧ exclusive s.1 ∧
    ∀ i e, ptirq_entries s.1 !! i = Some e → active e = true →
      find_ptirq_entry (intr_type e) (phys_sid e) None s.1 = Some (Some i) ∧
      (intr_type e = PTDEV_INTR_INTX →
         find_ptirq_entry (intr_type e) (virt_sid e) (vm e) s.1 = Some (Some i)).
Proof.
  intros Hq Hl. destruct (pt_run_ok l _ (boot_inv vms q Hq) Hl) as (s & Hr & [[Hw _] _ _ _]).
  exists s. split; [done|]. split; [apply Hw|]. intros i e Hi Ha. split.
  - destruct (find_phys_cases (intr_type e) (phys_sid e) s.1 Hw) as (r & -> & H). destruct r as [j|].
    + destruct H as (ej & Hj & Haj & Ht & Hp). do 2 f_equal. apply (proj2 Hw j i ej e); auto.
    + by destruct (H i e).
  - intros Ht. destruct (Hw) as [[reg Hr0] _].
    destruct (tb_own _ (wf_table _ _ Hr0) i e Hi (tb_active _ (wf_table _ _ Hr0) i e Hi Ha)) as (_ & v & x & Hv & _).
    rewrite Ht, Hv. by apply find_pin_holder.
Qed.

End operations.

(** *** Instances *)

Definition demo_platform : Platform := {|
  vlapic_calc_dest_noshort := λ _ _ _ _, 1;
  vcpumask2pcpumask := λ _ m, u64 m;
  lapic_ldr := λ _, 1;
  MAX_PCPU_NUM := 4;
  ioapic_gsi_to_irq := λ g, Z.abs g;
  ioapic_irq_to_ioapic_id := λ _, 8;
  irq_to_vector := λ i, i + 0x20;
  vioapic_get_rte := λ _ _, 0x8031;
  ioapic_get_rte := λ _, 0x10000;
  vpic_level_triggered := λ _ _, false;
  is_lapic_pt_configured := λ _, false;
  check_vm_vlapic_mode := λ _, VM_VLAPIC_XAPIC;
  pi_desc_of := λ _ _, 0x1000;
  is_vuart_intx := λ _ g, g =? 4;
  request_irq_arch := λ _, true;
  dmar_assign_irte := λ _ _ _, (0, 3) |}.

#[local] Existing Instance demo_platform.

Lemma demo_laws : PlatformLaws.
Proof. split; [by vm_compute|intros; apply word_u64|intros; apply Z.abs_nonneg]. Qed.

(** The Service VM, and two User VMs of which the first has its interrupts delayed. *)
Definition demo_vms : list pt_vm :=
  [mk_pt_vm true false 0 0x1000; mk_pt_vm false false 100 0x2000; mk_pt_vm false false 0 0x3000].
Definition demo_irqs : Irq.irqs :=
  Irq.mk_irqs ((λ i, Irq.mk_irq_desc i None 0 0) <$> seqZ 0 256) (replicate 4 0) (replicate 4 0)
    (replicate 256 0) [].

Definition demo_run (l : list pt_event) : ptdev * bool :=
  default (pt_boot demo_vms demo_irqs, false) (pt_run l (pt_boot demo_vms demo_irqs, false)).
Definition entry_at (i : nat) (s : ptdev * bool) : ptirq_remapping_info :=
  default zero_entry (ptirq_entries s.1 !! i).

(** A pin of each of the first two VMs, and an MSI vector of the third. *)
Definition demo_setup : list pt_event :=
  [Ev_pin_remap 0 9 INTX_CTLR_IOAPIC; Ev_add_intx 1 5 17 false;
   Ev_prepare_msix 2 0x10 0x80 0 (0xFEE00000, 0x31) 0xffff].
Definition demo_later : list pt_event :=
  [Ev_softirq; Ev_turn 1000 (λ _, 50); Ev_irq 60 0x11; Ev_turn 1000 (λ _, 70); Ev_timer 2000;
   Ev_remove_msix 2 0x80 2; Ev_release_all 0].

Lemma demo_boot_ok : boot_ok demo_irqs.
Proof. split; [split; [done|..]; (split; [done|]); by apply (bool_decide_unpack _)|by apply (bool_decide_unpack _)]. Qed.

Lemma demo_reachable l : forallb (λ ev, match ev with Ev_irq _ q => 0 <=? q | Ev_ack _ g _ => 0 <=? g | _ => true end &&
    match ev_vm ev with Some v => (v <? 3)%nat | None => true end) l = true →
  is_Some (pt_run l (pt_boot demo_vms demo_irqs, false)) →
  Forall (ev_ok (length demo_vms)) l ∧ reachable demo_vms demo_irqs (demo_run l).
Proof.
  intros Hl [s Hs].
  assert (H : Forall (ev_ok (length demo_vms)) l).
  { apply Forall_forall. intros ev Hev. rewrite forallb_forall in Hl.
    specialize (Hl ev (proj1 (list_elem_of_In _ _) Hev)). apply andb_prop in Hl as [H1 H2]. split.
    - destruct ev; try done; by apply Z.leb_le.
    - intros v Hv. rewrite Hv in H2. by apply Nat.ltb_lt. }
  split; [done|]. exists l. split; [done|]. unfold demo_run. by rewrite Hs.
Qed.


(** The interrupt of the Service VM. *)
Lemma ptirq_softirq_delivers_witness :
  let s := demo_run (demo_setup ++ [Ev_irq 40 9]) in
  ∃ st' v x, ptirq_softirq (S (length (softirq_dev_entry_list s.1))) 1000 (λ _ _, 50) s.1 = Some st' ∧
    softirq_dev_entry_list st' = [] ∧ vm (entry_at 0 s) = Some v ∧ demo_vms !! v = Some x ∧
    ((∃ pre post, effects st' = effects s.1 ++ pre ++ ptirq_inject v 0 (entry_at 0 s) ++ post) ∨
     0%nat ∈ timer_list (cpu_timers st') ∧ service x = false ∧ 0 < intr_inject_delay_delta x).
Proof.
  apply (@ptirq_softirq_delivers _ demo_laws demo_vms demo_irqs).
  - exact demo_boot_ok.
  - apply demo_reachable; [by vm_compute|apply (bool_decide_unpack _); by vm_compute].
  - by vm_compute.
  - by vm_compute.
  - apply (bool_decide_unpack _). by vm_compute.
Defined.

Lemma sources_exclusive_witness :
  ∃ s, pt_run (demo_setup ++ demo_later) (pt_boot demo_vms demo_irqs, false) = Some s ∧ exclusive s.1 ∧
    ∀ i e, ptirq_entries s.1 !! i = Some e → active e = true →
      find_ptirq_entry (intr_type e) (phys_sid e) None s.1 = Some (Some i) ∧
      (intr_type e = PTDEV_INTR_INTX →
         find_ptirq_entry (intr_type e) (virt_sid e) (vm e) s.1 = Some (Some i)).
Proof.
  apply (@sources_exclusive _ demo_laws demo_vms demo_irqs); [exact demo_boot_ok|].
  apply (demo_reachable (demo_setup ++ demo_later)); [by vm_compute|apply (bool_decide_unpack _); by vm_compute].
Defined.


(** *** Changing the delay *)

(** The runs above keep the delays of the VMs.  When [hcall_vm_intr_monitor] takes the delay of a
    VM away and sets it again while a delay timer runs, an interrupt of the VM can be lost: the
    interrupt that arrives without a delay writes the deadline 0 into the running timer, the next
    one is not queued because the timer runs, and the timer softirq calls no timer with the
    deadline 0. *)
Definition set_delay (ms : Z) (s : ptdev * bool) : option (ptdev * bool) :=
  '(_, _, st) ← hcall_vm_intr_monitor 100 1 INTR_CMD_DELAY_INT 48 (ms :: replicate 47 0) s.1;
  Some (st, s.2).

Definition delay_changes : option ((ptdev * bool) * (ptdev * bool)) :=
  s ← pt_run (demo_setup ++ [Ev_irq 40 0x11; Ev_softirq; Ev_turn 1000 (λ _, 50); Ev_turn 1000 (λ _, 50)])
        (pt_boot demo_vms demo_irqs, false);
  s ← set_delay 0 s;
  s1 ← pt_run [Ev_irq 60 0x11; Ev_softirq; Ev_turn 1000 (λ _, 65); Ev_turn 1000 (λ _, 65)] s;
  s ← set_delay 1 s1;
  s2 ← pt_run [Ev_irq 70 0x11; Ev_timer 1000] s;
  Some (s1, s2).

Example delay_change_loses_interrupt :
  (λ '(s1, s2), active (entry_at 1 s2) && bool_decide (softirq_dev_entry_list s2.1 = []) &&
     bool_decide (timer_list (cpu_timers s2.1) = []) &&
     (length (effects s2.1) =? length (effects s1.1))%nat) <$> delay_changes = Some true.
Proof. by vm_compute. Qed.
