(* ===== verification/Vioapic.v ===== *)
(** * The virtual I/O APIC

    hypervisor/dm/vioapic.c: the chips of the VMs with their redirection tables and lines, the
    accesses of the guest, the EOI of the local APIC and the reset, composed with the
    assignment of passthrough interrupts ([Assign]), which drives the lines of the chips and is
    called when a guest changes a redirection entry.

    A redirection entry is a 64-bit word, of which [Assign.field] takes the bit fields.  The
    interrupts that are sent to the local APICs are recorded.  A call into the passthrough code
    reads the redirection table ([world_platform]); what it does to the lines is done when it
    returns, since it does not read the table again after it.  Each function runs as one step; in
    the code the first loop of an EOI runs before the lock of the chip is taken. *)

From S2P Require Import Prelude Bits Vpic LinkedList Timer Irq Ptdev PtdevInv Assign PtdevRuns.

#[local] Existing Instance x86_bitmap.

Definition IOAPIC_REGSEL : Z := 0x00.
Definition IOAPIC_WINDOW : Z := 0x10.
Definition IOAPIC_ID : Z := 0x00.
Definition IOAPIC_VER : Z := 0x01.
Definition IOAPIC_ARB : Z := 0x02.
Definition IOAPIC_REDTBL : Z := 0x10.
Definition IOAPIC_ID_MASK : Z := 0x0f000000.
Definition IOAPIC_ID_SHIFT : Z := 24.
Definition MAX_RTE_SHIFT : Z := 16.
Definition ACRN_IOAPIC_VERSION : Z := 0x11.
Definition RTBL_RO_BITS : Z := 0x5000.
Definition MASK_ALL_INTERRUPTS : Z := 0x0001000000010000.
Definition VIOAPIC_BASE : Z := 0xFEC00000.
Definition VIOAPIC_RTE_NUM : Z := 48.
Definition REDIR_ENTRIES_HW : Z := 120.
Definition CONFIG_MAX_IOAPIC_NUM : Z := 1.

(** ** Redirection entries *)

Definition rte_vector : Z → Z := field 0 8.
Definition rte_delivery_mode : Z → Z := field 8 3.
Definition rte_dest_mode : Z → Z := field 11 1.
Definition rte_intr_polarity : Z → Z := field 13 1.
Definition rte_remote_irr : Z → Z := field 14 1.
Definition rte_trigger_mode : Z → Z := field 15 1.
Definition rte_intr_mask : Z → Z := field 16 1.
Definition rte_dest_field : Z → Z := field 56 8.
Definition set_remote_irr : Z → Z → Z := set_field 14 1.

(** ** Chips *)

Record ioapic_info := mk_ioapic_info { info_id : Z; addr : Z; gsi_base : Z; nr_pins : Z }.

#[export] Instance eta_ioapic_info : Eta ioapic_info :=
  { eta := rd mk_ioapic_info <*> info_id <*> addr <*> gsi_base <*> nr_pins }.

Record acrn_single_vioapic := mk_vioapic {
  chipinfo : ioapic_info;
  ioregsel : Z;
  rtbl : list Z;
  pin_state : list Z }.

#[export] Instance eta_vioapic : Eta acrn_single_vioapic :=
  { eta := rd mk_vioapic <*> chipinfo <*> ioregsel <*> rtbl <*> pin_state }.

(** [vlapic_receive_intr] on the VM [v]. *)
Record lapic_msg := mk_msg {
  m_vm : nat; m_level : bool; m_dest : Z; m_phys : bool; m_delmode : Z; m_vector : Z }.

(** The chip and the messages that are sent. *)
Definition vioapic_generate_intr (v : nat) (pin : Z) (c : acrn_single_vioapic)
    : option (acrn_single_vioapic * list lapic_msg) :=
  rte ← rtbl c !! Z.to_nat pin;
  if rte_intr_mask rte =? 1 then Some (c, [])
  else
    let phys := rte_dest_mode rte =? 0 in
    let delmode := rte_delivery_mode rte in
    let level := rte_trigger_mode rte =? 1 in
    if negb level || (rte_remote_irr rte =? 0) then
      let c := if level then c⟨rtbl := <[Z.to_nat pin := set_remote_irr 1 rte]> (rtbl c)⟩ else c in
      Some (c, [mk_msg v level (rte_dest_field rte) phys delmode (rte_vector rte)])
    else Some (c, []).

Definition pin_word (pin : Z) : nat := Z.to_nat (Z.shiftr pin 6).

Definition vioapic_set_pinstate (v : nat) (pin level : Z) (c : acrn_single_vioapic)
    : option (acrn_single_vioapic * list lapic_msg) :=
  if pin <? nr_pins (chipinfo c) then
    rte ← rtbl c !! Z.to_nat pin;
    w ← pin_state c !! pin_word pin;
    let old_lvl := if bitmap_test (pin &&& 0x3F) w then 1 else 0 in
    if level =? 0 then
      let c := c⟨pin_state := <[pin_word pin := bitmap_clear_nolock (pin &&& 0x3F) w]> (pin_state c)⟩ in
      if (rte_intr_polarity rte =? 1) && negb (old_lvl =? level) then vioapic_generate_intr v pin c
      else Some (c, [])
    else
      let c := c⟨pin_state := <[pin_word pin := bitmap_set_nolock (pin &&& 0x3F) w]> (pin_state c)⟩ in
      if (rte_intr_polarity rte =? 0) && negb (old_lvl =? level) then vioapic_generate_intr v pin c
      else Some (c, [])
  else Some (c, []).

Definition vioapic_need_intr (pin : Z) (c : acrn_single_vioapic) : option bool :=
  if pin <? nr_pins (chipinfo c) then
    rte ← rtbl c !! Z.to_nat pin;
    w ← pin_state c !! pin_word pin;
    let lvl := bitmap_test (pin &&& 0x3F) w in
    Some (((rte_intr_polarity rte =? 1) && negb lvl) || ((rte_intr_polarity rte =? 0) && lvl))
  else Some false.

(** The second loop of [vioapic_process_eoi]. *)
Fixpoint eoi_loop (v : nat) (vector : Z) (pins : list Z) (c : acrn_single_vioapic)
    : option (acrn_single_vioapic * list lapic_msg) :=
  match pins with
  | [] => Some (c, [])
  | pin :: pins' =>
      rte ← rtbl c !! Z.to_nat pin;
      if negb (rte_vector rte =? vector) || (rte_remote_irr rte =? 0) then eoi_loop v vector pins' c
      else
        let c := c⟨rtbl := <[Z.to_nat pin := set_remote_irr 0 rte]> (rtbl c)⟩ in
        need ← vioapic_need_intr pin c;
        '(c, ms) ← (if need : bool then vioapic_generate_intr v pin c else Some (c, []));
        '(c, ms') ← eoi_loop v vector pins' c;
        Some (c, ms ++ ms')
  end.

Definition pins_of (c : acrn_single_vioapic) : list Z := seqZ 0 (nr_pins (chipinfo c)).

Fixpoint mask_pins (pins : list Z) (t : list Z) : list Z :=
  match pins with
  | [] => t
  | pin :: pins' => mask_pins pins' (<[Z.to_nat pin := MASK_ALL_INTERRUPTS]> t)
  end.

Definition reset_one_vioapic (c : acrn_single_vioapic) : acrn_single_vioapic :=
  c⟨rtbl := mask_pins (pins_of c) (rtbl c)⟩⟨chipinfo := (chipinfo c)⟨info_id := 0⟩⟩⟨ioregsel := 0⟩.

(** ** The chips of the VMs *)

Record acrn_vioapics := mk_vioapics {
  ioapic_num : Z;
  nr_gsi : Z;
  vioapic_array : list acrn_single_vioapic;
  wire_mode : vpic_wire_mode }.

#[export] Instance eta_vioapics : Eta acrn_vioapics :=
  { eta := rd mk_vioapics <*> ioapic_num <*> nr_gsi <*> vioapic_array <*> wire_mode }.

Record world := mk_world {
  vioapics : list acrn_vioapics;
  pt : ptdev;
  msgs : list lapic_msg }.

#[export] Instance eta_world : Eta world :=
  { eta := rd mk_world <*> vioapics <*> pt <*> msgs }.

(** What the code asks the platform about its I/O APICs. *)
Class IoapicPlatform := {
  get_gsi_to_ioapic_index : Z → Z;
  gsi_to_ioapic_pin : Z → Z;
  get_platform_ioapic_info : list ioapic_info }.

Section vioapic.
Context {P : Platform} {IP : IoapicPlatform}.

(** The chip and the pin of a GSI. *)
Definition vgsi_to_vioapic_and_vpin (v : nat) (vgsi : Z) (w : world) : nat * Z :=
  if is_service_vm (pt w) (Some v)
  then (Z.to_nat (get_gsi_to_ioapic_index vgsi), gsi_to_ioapic_pin vgsi)
  else (0%nat, vgsi).

Definition chip_at (v k : nat) (w : world) : option acrn_single_vioapic :=
  vs ← vioapics w !! v; vioapic_array vs !! k.

Definition set_chip (v k : nat) (c : acrn_single_vioapic) (w : world) : option world :=
  vs ← vioapics w !! v;
  Some w⟨vioapics := <[v := vs⟨vioapic_array := <[k := c]> (vioapic_array vs)⟩]> (vioapics w)⟩.

(** An operation on one chip, with the messages that it sends. *)
Definition on_chip (v k : nat)
    (f : acrn_single_vioapic → option (acrn_single_vioapic * list lapic_msg)) (w : world) : option world :=
  c ← chip_at v k w;
  '(c, ms) ← f c;
  w ← set_chip v k c w;
  Some w⟨msgs := msgs w ++ ms⟩.

(** Also [vioapic_set_irqline_lock], which takes the lock of the chip around it. *)
Definition vioapic_set_irqline_nolock (v : nat) (vgsi : Z) (op : gsi_op) (w : world) : option world :=
  let (k, pin) := vgsi_to_vioapic_and_vpin v vgsi w in
  let set level := on_chip v k (vioapic_set_pinstate v pin level) in
  match op with
  | GSI_SET_HIGH => set 1 w
  | GSI_SET_LOW => set 0 w
  | GSI_RAISING_PULSE => w ← set 1 w; set 0 w
  | GSI_FALLING_PULSE => w ← set 0 w; set 1 w
  end.

(** The word at the pin, 0 where the code would read outside of the table. *)
Definition vioapic_rte (v : nat) (vgsi : Z) (w : world) : Z :=
  let (k, pin) := vgsi_to_vioapic_and_vpin v vgsi w in
  match chip_at v k w with Some c => nth (Z.to_nat pin) (rtbl c) 0 | None => 0 end.

(** *** Calls into the passthrough code *)

(** The platform that it sees, with the redirection tables as they are. *)
Definition world_platform (w : world) : Platform := {|
  vlapic_calc_dest_noshort := vlapic_calc_dest_noshort;
  vcpumask2pcpumask := vcpumask2pcpumask;
  lapic_ldr := lapic_ldr;
  MAX_PCPU_NUM := MAX_PCPU_NUM;
  ioapic_gsi_to_irq := ioapic_gsi_to_irq;
  ioapic_irq_to_ioapic_id := ioapic_irq_to_ioapic_id;
  irq_to_vector := irq_to_vector;
  vioapic_get_rte := λ v g, vioapic_rte v g w;
  ioapic_get_rte := ioapic_get_rte;
  vpic_level_triggered := vpic_level_triggered;
  is_lapic_pt_configured := is_lapic_pt_configured;
  check_vm_vlapic_mode := check_vm_vlapic_mode;
  pi_desc_of := pi_desc_of;
  is_vuart_intx := is_vuart_intx;
  request_irq_arch := request_irq_arch;
  dmar_assign_irte := dmar_assign_irte |}.

(** Doing what a call has done to the lines. *)
Fixpoint drive_lines (l : list pt_effect) (w : world) : option world :=
  match l with
  | [] => Some w
  | Vioapic_set_irqline v g op :: l' => w ← vioapic_set_irqline_nolock v g op w; drive_lines l' w
  | _ :: l' => drive_lines l' w
  end.

Definition call_pt (f : Platform → ptdev → option ptdev) (w : world) : option world :=
  st ← f (world_platform w) (pt w);
  drive_lines (drop (length (effects (pt w))) (effects st)) w⟨pt := st⟩.

(** *** Accesses of the guest *)

Definition in_redtbl (regnum pincount : Z) : bool :=
  (IOAPIC_REDTBL <=? regnum) && (regnum <? IOAPIC_REDTBL + pincount * 2).

Definition vioapic_indirect_read (v k : nat) (a : Z) (w : world) : option (Z * world) :=
  c ← chip_at v k w;
  let pincount := nr_pins (chipinfo c) in
  let regnum := a &&& 0xff in
  if in_redtbl regnum pincount then
    let addr_offset := regnum - IOAPIC_REDTBL in
    let pin := Z.to_nat (Z.shiftr addr_offset 1) in
    rte ← rtbl c !! pin;
    if nonzero (addr_offset &&& 1) then Some (field 32 32 rte, w)
    else if is_lapic_pt_configured v && nonzero (rte_trigger_mode rte) then
      r ← find_ptirq_entry PTDEV_INTR_INTX (INTX_SID (rte_vector rte) INTX_CTLR_IOAPIC) (Some v) (pt w);
      match r with
      | Some i =>
          e ← ptirq_entries (pt w) !! i;
          let rte := set_remote_irr (rte_remote_irr (ioapic_get_rte (allocated_pirq e))) rte in
          w ← set_chip v k (c⟨rtbl := <[pin := rte]> (rtbl c)⟩) w;
          Some (field 0 32 rte, w)
      | None => Some (field 0 32 rte, w)
      end
    else Some (field 0 32 rte, w)
  else
    Some ((if (regnum =? IOAPIC_ID) || (regnum =? IOAPIC_ARB)
           then u32 (Z.shiftl (info_id (chipinfo c)) IOAPIC_ID_SHIFT)
           else if regnum =? IOAPIC_VER
           then u32 (Z.shiftl (pincount - 1) MAX_RTE_SHIFT) ||| ACRN_IOAPIC_VERSION
           else 0), w).

(** The entry after a write to one of its halves. *)
Definition new_rte (hi : bool) (data last : Z) : Z :=
  let new := if hi then set_field 32 32 data last
             else set_field 0 32 ((field 0 32 last &&& RTBL_RO_BITS) |||
                                  (data &&& bnot 32 RTBL_RO_BITS)) last in
  if rte_trigger_mode new =? 0 then set_remote_irr 0 new else new.

(** The wire mode after a write to pin 0 that changes its mask; [None] is a change that is
    refused. *)
Definition new_wire_mode (pin last new : Z) (m : vpic_wire_mode) : option vpic_wire_mode :=
  if (pin =? 0) && negb (rte_intr_mask (Z.lxor last new) =? 0) then
    if rte_intr_mask last =? 1 then
      match m with
      | VPIC_WIRE_NULL | VPIC_WIRE_INTR => Some VPIC_WIRE_IOAPIC
      | _ => None
      end
    else Some (match m with VPIC_WIRE_IOAPIC => VPIC_WIRE_INTR | _ => m end)
  else Some m.

Definition vioapic_indirect_write (v k : nat) (a data : Z) (w : world) : option world :=
  vs ← vioapics w !! v;
  c ← vioapic_array vs !! k;
  let pincount := nr_pins (chipinfo c) in
  let regnum := a &&& 0xff in
  if regnum =? IOAPIC_ID then
    set_chip v k (c⟨chipinfo := (chipinfo c)⟨info_id :=
                     u8 (Z.shiftr (data &&& IOAPIC_ID_MASK) IOAPIC_ID_SHIFT)⟩⟩) w
  else if in_redtbl regnum pincount then
    let addr_offset := regnum - IOAPIC_REDTBL in
    let pin := Z.shiftr addr_offset 1 in
    last ← rtbl c !! Z.to_nat pin;
    let new := new_rte (nonzero (addr_offset &&& 1)) data last in
    match new_wire_mode pin last new (wire_mode vs) with
    | None => Some w
    | Some m =>
        let c := c⟨rtbl := <[Z.to_nat pin := new]> (rtbl c)⟩ in
        let vs := vs⟨wire_mode := m⟩⟨vioapic_array := <[k := c]> (vioapic_array vs)⟩ in
        let w := w⟨vioapics := <[v := vs]> (vioapics w)⟩ in
        w ← (if (rte_intr_mask new =? 0) || (rte_intr_mask last =? 0) then
               let gsi := u32 (gsi_base (chipinfo c) + pin) in
               call_pt (λ Q st, '(_, st) ← @ptirq_intx_pin_remap Q v gsi INTX_CTLR_IOAPIC st; Some st) w
             else Some w);
        c ← chip_at v k w;
        rte ← rtbl c !! Z.to_nat pin;
        need ← vioapic_need_intr pin c;
        if (rte_intr_mask rte =? 0) && (rte_remote_irr rte =? 0) && need
        then on_chip v k (vioapic_generate_intr v pin) w else Some w
    end
  else Some w.

(** The data that the guest reads, or [data] itself, and the state. *)
Definition vioapic_mmio_rw (v k : nat) (gpa data : Z) (do_read : bool) (w : world) : option (Z * world) :=
  c ← chip_at v k w;
  let offset := u32 (gpa - addr (chipinfo c)) in
  if offset =? IOAPIC_REGSEL then
    if do_read then Some (ioregsel c, w)
    else w ← set_chip v k (c⟨ioregsel := data &&& 0xff⟩) w; Some (data, w)
  else if offset =? IOAPIC_WINDOW then
    if do_read then vioapic_indirect_read v k (ioregsel c) w
    else w ← vioapic_indirect_write v k (ioregsel c) data w; Some (data, w)
  else Some (if do_read then 0xFFFFFFFF else data, w).

(** [dir] is [ACRN_IOREQ_DIR_READ] (0) or [ACRN_IOREQ_DIR_WRITE] (1); the result, the value and
    the state. *)
Definition vioapic_mmio_access_handler (v k : nat) (gpa size dir value : Z) (w : world)
    : option (Z * Z * world) :=
  if size =? 4 then
    let data := u32 value in
    if dir =? 0 then '(d, w) ← vioapic_mmio_rw v k gpa data true w; Some (0, d, w)
    else if dir =? 1 then '(_, w) ← vioapic_mmio_rw v k gpa data false w; Some (0, value, w)
    else Some (- EINVAL, value, w)
  else Some (- EINVAL, value, w).

(** *** End of interrupt *)

(** A turn of the first loop of [vioapic_process_eoi], which acknowledges passthrough pins. *)
Definition eoi_ack (v k : nat) (vector pin : Z) (w : world) : option world :=
  c ← chip_at v k w;
  rte ← rtbl c !! Z.to_nat pin;
  if negb (rte_vector rte =? vector) || (rte_remote_irr rte =? 0) then Some w
  else
    call_pt (λ _ st, ptirq_intx_ack v (u32 (gsi_base (chipinfo c) + pin)) INTX_CTLR_IOAPIC st) w.

Fixpoint eoi_acks (v k : nat) (vector : Z) (pins : list Z) (w : world) : option world :=
  match pins with
  | [] => Some w
  | pin :: pins' => w ← eoi_ack v k vector pin w; eoi_acks v k vector pins' w
  end.

Definition vioapic_process_eoi (v k : nat) (vector : Z) (w : world) : option world :=
  c ← chip_at v k w;
  w ← eoi_acks v k vector (pins_of c) w;
  on_chip v k (λ c, eoi_loop v vector (pins_of c) c) w.

Fixpoint eoi_chips (v : nat) (vector : Z) (ks : list nat) (w : world) : option world :=
  match ks with
  | [] => Some w
  | k :: ks' => w ← vioapic_process_eoi v k vector w; eoi_chips v vector ks' w
  end.

Definition vioapic_broadcast_eoi (v : nat) (vector : Z) (w : world) : option world :=
  vs ← vioapics w !! v;
  eoi_chips v vector (seq 0 (Z.to_nat (ioapic_num vs))) w.

(** *** Reset and start *)

Definition reset_vioapics (v : nat) (w : world) : option world :=
  vs ← vioapics w !! v;
  let n := Z.to_nat (ioapic_num vs) in
  let l := (reset_one_vioapic <$> take n (vioapic_array vs)) ++ drop n (vioapic_array vs) in
  Some w⟨vioapics := <[v := vs⟨vioapic_array := l⟩]> (vioapics w)⟩.

Definition virt_ioapic_info : ioapic_info := mk_ioapic_info 0 VIOAPIC_BASE 0 VIOAPIC_RTE_NUM.

Fixpoint init_chips (infos : list ioapic_info) (l : list acrn_single_vioapic)
    : option (list acrn_single_vioapic) :=
  match infos, l with
  | [], _ => Some l
  | i :: infos', c :: l' =>
      l' ← init_chips infos' l'; Some (reset_one_vioapic (c⟨chipinfo := i⟩) :: l')
  | _ :: _, [] => None
  end.

(** The chips of a VM, from the descriptions of the platform or the one of User VMs. *)
Definition init_vioapics (infos : list ioapic_info) (vs : acrn_vioapics) : option acrn_vioapics :=
  l ← init_chips infos (vioapic_array vs);
  let gsis := match last infos with Some i => u32 (gsi_base i + nr_pins i) | None => nr_gsi vs end in
  Some vs⟨ioapic_num := u8 (Z.of_nat (length infos))⟩⟨nr_gsi := gsis⟩⟨vioapic_array := l⟩.

Definition vioapic_infos (is_service : bool) : list ioapic_info :=
  if is_service then get_platform_ioapic_info else [virt_ioapic_info].

(** The VM traps the accesses to the addresses of the chips, which are in the result. *)
Definition vioapic_init (v : nat) (w : world) : option (list Z * world) :=
  vs ← vioapics w !! v;
  let infos := vioapic_infos (is_service_vm (pt w) (Some v)) in
  vs ← init_vioapics infos vs;
  Some (addr <$> infos, w⟨vioapics := <[v := vs]> (vioapics w)⟩).

Definition get_vm_gsicount (v : nat) (w : world) : option Z :=
  vs ← vioapics w !! v; Some (nr_gsi vs).
End vioapic.
