(* ===== verification/VioapicInv.v ===== *)
(** * What the virtual I/O APIC guarantees

    Level-triggered interrupts are held: a pin that is unmasked, level-triggered and asserted
    has its Remote IRR bit set, so its message is with the local APIC and has not had its end of
    interrupt.  This is kept by everything that happens to the chips, in any order: lines,
    accesses of the guest, ends of interrupt, resets, and the passthrough interrupts of
    [PtdevRuns]. *)

From S2P Require Import Prelude Bits Vpic LinkedList Timer Irq Ptdev PtdevInv Assign PtdevRuns Vioapic.

#[local] Existing Instance x86_bitmap.

(** ** Bit fields *)

Lemma field_testbit lo n x i : 0 ≤ lo → 0 ≤ n → 0 ≤ i →
  Z.testbit (field lo n x) i = Z.testbit x (i + lo) && (i <? n).
Proof.
  intros Hlo Hn Hi. unfold field. rewrite Z.land_spec, Z.shiftr_spec by done. f_equal.
  destruct (Z.ltb_spec i n); [apply Z.ones_spec_low|apply Z.ones_spec_high]; lia.
Qed.

Lemma set_field_testbit lo n v x i : 0 ≤ lo → 0 ≤ n → 0 ≤ i →
  Z.testbit (set_field lo n v x) i =
    if (lo <=? i) && (i <? lo + n) then Z.testbit v (i - lo) else Z.testbit x i.
Proof.
  intros Hlo Hn Hi. unfold set_field. rewrite Z.lor_spec, Z.ldiff_spec, !Z.shiftl_spec by done.
  destruct (Z.leb_spec lo i); cbn [andb].
  - rewrite Z.land_spec. destruct (Z.ltb_spec i (lo + n)).
    + rewrite Z.ones_spec_low by lia. by rewrite andb_false_r, andb_true_r.
    + rewrite Z.ones_spec_high by lia. by rewrite andb_true_r, andb_false_r, orb_false_r.
  - rewrite !(Z.testbit_neg_r _ (i - lo)) by lia. by rewrite andb_true_r, orb_false_r.
Qed.

Lemma field_set_same lo n v x : 0 ≤ lo → 0 ≤ n → field lo n (set_field lo n v x) = v &&& Z.ones n.
Proof.
  intros Hlo Hn. apply Z.bits_inj'. intros i Hi.
  rewrite field_testbit, set_field_testbit, Z.land_spec by lia.
  destruct (Z.ltb_spec i n).
  - rewrite Z.ones_spec_low by lia. replace (lo <=? i + lo) with true by lia.
    replace (i + lo <? lo + n) with true by lia. cbn [andb]. f_equal. f_equal. lia.
  - rewrite Z.ones_spec_high by lia. by rewrite !andb_false_r.
Qed.

Lemma field_set_other lo n lo' n' v x : 0 ≤ lo → 0 ≤ n → 0 ≤ lo' → 0 ≤ n' →
  lo' + n' ≤ lo ∨ lo + n ≤ lo' → field lo' n' (set_field lo n v x) = field lo' n' x.
Proof.
  intros. apply Z.bits_inj'. intros i Hi. rewrite !field_testbit, set_field_testbit by lia.
  destruct (Z.ltb_spec i n'); [|by rewrite !andb_false_r].
  by replace ((lo <=? i + lo') && (i + lo' <? lo + n)) with false by lia.
Qed.

Lemma field_bit lo x : field lo 1 x = 0 ∨ field lo 1 x = 1.
Proof.
  unfold field. rewrite Z.land_ones by lia.
  pose proof (Z.mod_pos_bound (Z.shiftr x lo) (2 ^ 1)). lia.
Qed.

Lemma remote_irr_set b x : b = 0 ∨ b = 1 → rte_remote_irr (set_remote_irr b x) = b.
Proof. intros Hb. unfold rte_remote_irr, set_remote_irr. rewrite field_set_same by lia. by destruct Hb as [-> | ->]. Qed.

Lemma remote_irr_other lo n b x : 0 ≤ lo → 0 ≤ n → lo + n ≤ 14 ∨ 15 ≤ lo →
  field lo n (set_remote_irr b x) = field lo n x.
Proof. intros. apply field_set_other; lia. Qed.

(** Entries that differ in the Remote IRR bit only. *)
Definition alike (x y : Z) : Prop := set_remote_irr 0 x = set_remote_irr 0 y.

Lemma set_alike b x : alike x (set_remote_irr b x).
Proof.
  apply Z.bits_inj'. intros i Hi. unfold set_remote_irr. rewrite !set_field_testbit by lia. by case_if.
Qed.

Lemma alike_field lo n x y : 0 ≤ lo → 0 ≤ n → lo + n ≤ 14 ∨ 15 ≤ lo → alike x y → field lo n y = field lo n x.
Proof.
  intros H1 H2 H3 Hxy. rewrite <- (remote_irr_other lo n 0 y), <- (remote_irr_other lo n 0 x) by lia.
  by rewrite Hxy.
Qed.

(** The message of an entry. *)
Definition msg_of (v : nat) (rte : Z) : lapic_msg :=
  mk_msg v (rte_trigger_mode rte =? 1) (rte_dest_field rte) (rte_dest_mode rte =? 0)
    (rte_delivery_mode rte) (rte_vector rte).

(** What the code reads of an entry, apart from Remote IRR. *)
Lemma alike_fields x y : alike x y →
  rte_intr_mask y = rte_intr_mask x ∧ rte_trigger_mode y = rte_trigger_mode x ∧
  rte_intr_polarity y = rte_intr_polarity x ∧ rte_vector y = rte_vector x ∧
  ∀ v, msg_of v y = msg_of v x.
Proof.
  intros Hxy. unfold msg_of, rte_trigger_mode, rte_dest_field, rte_dest_mode, rte_delivery_mode, rte_vector,
    rte_intr_mask, rte_intr_polarity.
  rewrite !(alike_field _ _ x y) by (done || lia). by split_and!.
Qed.

(** ** Chips *)

Record chip_wf (c : acrn_single_vioapic) : Prop := {
  cw_pins : 0 ≤ nr_pins (chipinfo c) ≤ REDIR_ENTRIES_HW;
  cw_base : 0 ≤ gsi_base (chipinfo c);
  cw_rtbl : length (rtbl c) = 120%nat;
  cw_lines : length (pin_state c) = 2%nat;
  cw_words : Forall (word 64) (pin_state c);
}.

Definition in_range (c : acrn_single_vioapic) (pin : Z) : Prop := 0 ≤ pin < nr_pins (chipinfo c).

Definition line (c : acrn_single_vioapic) (pin : Z) : bool :=
  match pin_state c !! pin_word pin with Some w => Z.testbit w (pin &&& 0x3F) | None => false end.

(** The line has the level that the polarity of the entry calls active. *)
Definition asserted (rte : Z) (l : bool) : bool := if rte_intr_polarity rte =? 1 then negb l else l.

Definition held_at (c : acrn_single_vioapic) (pin : Z) : Prop :=
  ∀ rte, rtbl c !! Z.to_nat pin = Some rte → rte_intr_mask rte = 0 → rte_trigger_mode rte = 1 →
    asserted rte (line c pin) = true → rte_remote_irr rte = 1.

(** The chip after lines, messages and ends of interrupt have changed it: the entries are the
    same but for Remote IRR, which is set only when the message has been sent, and a pin that
    was held still is. *)
Record evolved (v : nat) (c c' : acrn_single_vioapic) (ms : list lapic_msg) : Prop := {
  ev_info : chipinfo c' = chipinfo c;
  ev_sel : ioregsel c' = ioregsel c;
  ev_wf : chip_wf c';
  ev_rte k rte' : rtbl c' !! k = Some rte' → ∃ rte, rtbl c !! k = Some rte ∧ alike rte rte' ∧
    (rte_remote_irr rte = 0 → rte_remote_irr rte' = 1 → msg_of v rte' ∈ ms);
  ev_held pin : in_range c pin → held_at c pin → held_at c' pin;
}.

(** Messages are sent by unmasked pins. *)
Definition from_pins (v : nat) (c : acrn_single_vioapic) (ms : list lapic_msg) : Prop :=
  ∀ m, m ∈ ms → ∃ pin rte, in_range c pin ∧ rtbl c !! Z.to_nat pin = Some rte ∧
    rte_intr_mask rte = 0 ∧ m = msg_of v rte.

Lemma evolved_refl v c ms : chip_wf c → evolved v c c ms.
Proof.
  intros Hw. split; auto. intros k rte Hk. exists rte. split; [done|]. split; [done|]. intros H0 H1. congruence.
Qed.

Lemma evolved_trans v c1 c2 c3 ms1 ms2 : evolved v c1 c2 ms1 → evolved v c2 c3 ms2 →
  evolved v c1 c3 (ms1 ++ ms2).
Proof.
  intros [I1 L1 W1 R1 H1] [I2 L2 W2 R2 H2]. split; [congruence..|done| |].
  - intros k r3 Hk. destruct (R2 k r3 Hk) as (r2 & K2 & A2 & S2). destruct (R1 k r2 K2) as (r1 & K1 & A1 & S1).
    exists r1. split; [done|]. split; [unfold alike in *; congruence|]. intros Z1 O3. apply elem_of_app.
    destruct (field_bit 14 r2) as [Z2|O2]; [right; auto|left].
    destruct (alike_fields r2 r3 A2) as (_ & _ & _ & _ & ->). auto.
  - intros pin Hp Hh. apply H2; [unfold in_range; by rewrite I1|auto].
Qed.

Lemma evolved_mono v c c' ms ms' : ms ⊆ ms' → evolved v c c' ms → evolved v c c' ms'.
Proof.
  intros Hm [I L W R H]. split; auto. intros k r Hk. destruct (R k r Hk) as (r0 & ? & ? & ?).
  exists r0. split_and!; auto.
Qed.

Lemma from_pins_alike v c c' ms ms' : evolved v c c' ms → (∀ k rte, rtbl c !! k = Some rte → is_Some (rtbl c' !! k)) →
  from_pins v c ms' → from_pins v c' ms'.
Proof.
  intros E Hs Hf m Hm. destruct (Hf m Hm) as (pin & rte & Hp & Hr & Hmask & ->).
  destruct (Hs _ _ Hr) as [r' Hr']. destruct (ev_rte _ _ _ _ E _ _ Hr') as (r0 & Hr0 & A & _). simplify_eq.
  destruct (alike_fields _ _ A) as (Em & _ & _ & _ & Eg).
  exists pin, r'. unfold in_range. rewrite (ev_info _ _ _ _ E), Em, Eg. auto.
Qed.

Lemma evolved_len v c c' ms k rte : chip_wf c → evolved v c c' ms → rtbl c !! k = Some rte → is_Some (rtbl c' !! k).
Proof.
  intros Hw E Hk. apply lookup_lt_is_Some_2. apply lookup_lt_Some in Hk.
  rewrite (cw_rtbl _ (ev_wf _ _ _ _ E)). by rewrite (cw_rtbl _ Hw) in Hk.
Qed.

(** *** The operations on a chip *)

Lemma rte_at c pin : chip_wf c → in_range c pin → ∃ rte, rtbl c !! Z.to_nat pin = Some rte.
Proof.
  intros [Hp _ Hr _ _] Hin. apply lookup_lt_is_Some_2. unfold in_range, REDIR_ENTRIES_HW in *. lia.
Qed.

Lemma pin_bit pin : 0 ≤ pin → pin &&& 0x3F = pin mod 64 ∧ pin_word pin = Z.to_nat (pin / 64).
Proof.
  intros Hp. unfold pin_word. rewrite Z.shiftr_div_pow2 by lia. split; [|done].
  change 0x3F with (Z.ones 6). by apply Z.land_ones.
Qed.

Lemma word_at c pin : chip_wf c → in_range c pin →
  ∃ w, pin_state c !! pin_word pin = Some w ∧ word 64 w ∧ 0 ≤ pin &&& 0x3F < 64.
Proof.
  intros [Hp _ _ Hl Hw] Hin. unfold in_range, REDIR_ENTRIES_HW in *. destruct (pin_bit pin) as [-> ->]; [lia|].
  destruct (lookup_lt_is_Some_2 (pin_state c) (Z.to_nat (pin / 64))) as [w Hk].
  { rewrite Hl. apply Nat2Z.inj_lt. rewrite Z2Nat.id by (apply Z.div_pos; lia). apply Z.div_lt_upper_bound; lia. }
  exists w. split; [done|]. split; [by eapply Forall_lookup_1|]. apply Z.mod_pos_bound. lia.
Qed.

(** Replacing the Remote IRR bit of the entry of a pin. *)
Definition with_irr (b pin rte : Z) (c : acrn_single_vioapic) : acrn_single_vioapic :=
  c⟨rtbl := <[Z.to_nat pin := set_remote_irr b rte]> (rtbl c)⟩.

Lemma with_irr_wf b pin rte c : chip_wf c → chip_wf (with_irr b pin rte c).
Proof. intros []. split; auto. cbn. by rewrite length_insert. Qed.

Lemma pins_differ pin pin' : 0 ≤ pin → 0 ≤ pin' → pin ≠ pin' → Z.to_nat pin ≠ Z.to_nat pin'.
Proof. lia. Qed.

Lemma generate_eq v pin c rte : rtbl c !! Z.to_nat pin = Some rte →
  vioapic_generate_intr v pin c = Some
    (if rte_intr_mask rte =? 1 then (c, [])
     else if rte_trigger_mode rte =? 1 then
       if rte_remote_irr rte =? 0 then (with_irr 1 pin rte c, [msg_of v rte]) else (c, [])
     else (c, [msg_of v rte])).
Proof.
  intros Hr. unfold vioapic_generate_intr. rewrite Hr. cbn [mbind option_bind]. case_if; [done|].
  unfold msg_of. by destruct (rte_trigger_mode rte =? 1), (rte_remote_irr rte =? 0).
Qed.

Lemma set_irr_ok v pin rte c : chip_wf c → in_range c pin → rtbl c !! Z.to_nat pin = Some rte →
  evolved v c (with_irr 1 pin rte c) [msg_of v rte].
Proof.
  intros Hw Hp Hr. destruct (alike_fields rte _ (set_alike 1 rte)) as (Em & Et & Ep & _ & Eg).
  split; [done..|by apply with_irr_wf| |].
  - intros k r' Hk. cbn in Hk. apply insert_lookup_cases in Hk as [[-> ->]|[Hne Hk]].
    + exists rte. split; [done|]. split; [apply set_alike|]. intros _ _. rewrite Eg. left.
    + exists r'. split; [done|]. split; [done|]. congruence.
  - intros pin' Hp' Hh r' Hk Hm Ht Ha. cbn in Hk. apply insert_lookup_cases in Hk as [[_ ->]|[Hne Hk]].
    + apply remote_irr_set. by right.
    + by apply Hh.
Qed.

Lemma generate_ok v pin c : chip_wf c → in_range c pin →
  ∃ c' ms, vioapic_generate_intr v pin c = Some (c', ms) ∧ evolved v c c' ms ∧ from_pins v c' ms ∧
    pin_state c' = pin_state c ∧ held_at c' pin.
Proof.
  intros Hw Hp. destruct (rte_at c pin Hw Hp) as [rte Hr]. rewrite (generate_eq v pin c rte Hr).
  assert (Hno : from_pins v c []) by (by intros m ?%elem_of_nil).
  destruct (Z.eqb_spec (rte_intr_mask rte) 1) as [Hm|Hm].
  { eexists _, _. split; [done|]. split; [by apply evolved_refl|]. split; [done|]. split; [done|].
    intros r' Hr' Hm'. simplify_eq. lia. }
  assert (Hm0 : rte_intr_mask rte = 0) by (destruct (field_bit 16 rte); [done|by destruct Hm]).
  destruct (Z.eqb_spec (rte_trigger_mode rte) 1) as [Ht|Ht].
  - destruct (Z.eqb_spec (rte_remote_irr rte) 0) as [Hi|Hi].
    + eexists _, _. split; [done|]. split; [by apply set_irr_ok|]. split; [|split; [done|]].
      * intros m ->%list_elem_of_singleton. destruct (alike_fields rte _ (set_alike 1 rte)) as (Em & _ & _ & _ & Eg).
        exists pin, (set_remote_irr 1 rte). rewrite Em, Eg. split_and!; try done.
        cbn. apply list_lookup_insert_eq. by eapply lookup_lt_Some.
      * intros r' Hr' _ _ _. cbn in Hr'. rewrite list_lookup_insert_eq in Hr' by (by eapply lookup_lt_Some).
        simplify_eq. apply remote_irr_set. by right.
    + eexists _, _. split; [done|]. split; [by apply evolved_refl|]. split; [done|]. split; [done|].
      intros r' Hr' _ _ _. simplify_eq. destruct (field_bit 14 rte); [by destruct Hi|done].
  - eexists _, _. split; [done|]. split; [by apply evolved_refl|]. split; [|split; [done|]].
    + intros m ->%list_elem_of_singleton. by exists pin, rte.
    + intros r' Hr' _ Ht'. by simplify_eq.
Qed.

(** Setting or clearing a line. *)
Definition put_line (pin : Z) (l : bool) (w : Z) : Z :=
  if l then bitmap_set_nolock (pin &&& 0x3F) w else bitmap_clear_nolock (pin &&& 0x3F) w.

Definition with_line (pin : Z) (l : bool) (w : Z) (c : acrn_single_vioapic) : acrn_single_vioapic :=
  c⟨pin_state := <[pin_word pin := put_line pin l w]> (pin_state c)⟩.

Lemma put_line_ok pin l w : word 64 w → 0 ≤ pin &&& 0x3F < 64 →
  word 64 (put_line pin l w) ∧ ∀ i, 0 ≤ i →
    Z.testbit (put_line pin l w) i = if decide (i = pin &&& 0x3F) then l else Z.testbit w i.
Proof.
  intros Hw Hb. unfold put_line. destruct l; rewrite ?bn_set, ?bn_clear.
  - split; [by apply bs_set_word|]. intros i Hi. rewrite bs_set by done. case_bool_decide; case_decide; try done.
    + by rewrite orb_true_r.
    + by rewrite orb_false_r.
  - split; [by apply bs_clear_word|]. intros i Hi. rewrite bs_clear by done. case_bool_decide; case_decide; try done.
    + by rewrite andb_false_r.
    + by rewrite andb_true_r.
Qed.

Lemma with_line_ok pin l w c : chip_wf c → in_range c pin → pin_state c !! pin_word pin = Some w →
  word 64 w → 0 ≤ pin &&& 0x3F < 64 →
  chip_wf (with_line pin l w c) ∧
  ∀ pin', 0 ≤ pin' → line (with_line pin l w c) pin' = if decide (pin' = pin) then l else line c pin'.
Proof.
  intros [Hn Hg Hr Hl Hws] Hp Hk Hw Hb. destruct (put_line_ok pin l w Hw Hb) as [Hw' Hbits]. split.
  - split; auto; cbn; [by rewrite length_insert|by apply Forall_insert].
  - intros pin' Hp'. unfold line, with_line. cbn [pin_state].
    destruct (pin_bit pin) as [Eb Ek]; [unfold in_range in Hp; lia|]. destruct (pin_bit pin' Hp') as [Eb' Ek'].
    destruct (decide (pin_word pin' = pin_word pin)) as [E|E].
    + rewrite E. cbn. rewrite list_lookup_insert_eq, Hk by (by eapply lookup_lt_Some).
      rewrite Hbits by (rewrite Eb'; apply Z.mod_pos_bound; lia).
      assert (pin' = pin ↔ pin' &&& 0x3F = pin &&& 0x3F) as Hiff.
      { rewrite Eb, Eb'. split; [by intros ->|]. intros Em. rewrite Ek, Ek' in E.
        rewrite (Z.div_mod pin' 64), (Z.div_mod pin 64) by lia.
        apply Z2Nat.inj in E; [lia|apply Z.div_pos; lia|apply Z.div_pos; unfold in_range in Hp; lia]. }
      destruct (decide (pin' &&& 0x3F = pin &&& 0x3F)), (decide (pin' = pin)); tauto.
    + cbn. rewrite list_lookup_insert_ne by done. by rewrite decide_False by (by intros ->).
Qed.

Lemma line_eq c pin w : pin_state c !! pin_word pin = Some w → line c pin = Z.testbit w (pin &&& 0x3F).
Proof. intros H. unfold line. by rewrite H. Qed.

Lemma with_line_evolved v pin l w c : chip_wf c → in_range c pin → pin_state c !! pin_word pin = Some w →
  word 64 w → 0 ≤ pin &&& 0x3F < 64 →
  (∀ rte, rtbl c !! Z.to_nat pin = Some rte → asserted rte l = true → line c pin = l) →
  evolved v c (with_line pin l w c) [].
Proof.
  intros Hw Hp Hk Hww Hb Hsame. destruct (with_line_ok pin l w c) as [Hw' Hl]; try done.
  split; try done.
  - intros k rte Hr. exists rte. split; [done|]. split; [done|]. congruence.
  - intros pin' Hp' Hh rte Hr Hm Ht Ha. apply Hh; try done. rewrite Hl in Ha by apply Hp'.
    destruct (decide _) as [->|]; [|done]. by rewrite (Hsame rte Hr Ha).
Qed.

(** The same when the pin is held in the end. *)
Lemma evolved_after v pin c c1 c2 ms : rtbl c1 = rtbl c → chipinfo c1 = chipinfo c →
  ioregsel c1 = ioregsel c → (∀ pin', 0 ≤ pin' → pin' ≠ pin → line c1 pin' = line c pin') →
  evolved v c1 c2 ms → held_at c2 pin → evolved v c c2 ms.
Proof.
  intros Er Ei Es El [I L W R H] Hh. split; [congruence..|done|by rewrite <- Er|].
  intros pin' Hp Hh'. destruct (decide (pin' = pin)) as [->|Hne]; [done|].
  apply H; [unfold in_range; by rewrite Ei|]. intros rte. rewrite Er, El by (done || apply Hp). apply Hh'.
Qed.

Lemma set_pinstate_eq v pin (l : bool) c rte w : in_range c pin → rtbl c !! Z.to_nat pin = Some rte →
  pin_state c !! pin_word pin = Some w → word 64 w → 0 ≤ pin &&& 0x3F < 64 →
  vioapic_set_pinstate v pin (if l then 1 else 0) c =
    if asserted rte l && negb (Bool.eqb (line c pin) l)
    then vioapic_generate_intr v pin (with_line pin l w c) else Some (with_line pin l w c, []).
Proof.
  intros Hp Hr Hk Hw Hb. unfold vioapic_set_pinstate.
  replace (pin <? nr_pins (chipinfo c)) with true by (unfold in_range in Hp; lia).
  rewrite Hr. cbn [mbind option_bind]. rewrite Hk. cbn [mbind option_bind].
  rewrite bs_test by done. rewrite (line_eq c pin w Hk). unfold asserted.
  destruct (field_bit 13 rte) as [E|E]; unfold rte_intr_polarity; rewrite E; by destruct l, (Z.testbit w _).
Qed.

Lemma set_pinstate_ok v pin (l : bool) c : chip_wf c → 0 ≤ pin →
  ∃ c' ms, vioapic_set_pinstate v pin (if l then 1 else 0) c = Some (c', ms) ∧
    evolved v c c' ms ∧ from_pins v c' ms.
Proof.
  intros Hw Hp0. assert (Hno : ∀ c, from_pins v c []) by (by intros ? m ?%elem_of_nil).
  destruct (decide (pin < nr_pins (chipinfo c))) as [Hlt|Hge].
  2: { unfold vioapic_set_pinstate. replace (pin <? nr_pins (chipinfo c)) with false by lia.
       eexists _, _. split; [done|]. split; [by apply evolved_refl|done]. }
  assert (Hp : in_range c pin) by done. destruct (rte_at c pin Hw Hp) as [rte Hr].
  destruct (word_at c pin Hw Hp) as (w & Hk & Hww & Hb).
  rewrite (set_pinstate_eq v pin l c rte w) by done.
  destruct (with_line_ok pin l w c) as [Hw1 Hl1]; try done.
  destruct (asserted rte l && _) eqn:E.
  - destruct (generate_ok v pin (with_line pin l w c)) as (c' & ms & -> & Ev & Hf & _ & Hh); try done.
    eexists _, _. split; [done|]. split; [|done].
    apply (evolved_after v pin c (with_line pin l w c)); try done.
    intros pin' Hp' Hne. rewrite Hl1 by done. by rewrite decide_False.
  - eexists _, _. split; [done|]. split; [|done]. apply with_line_evolved; try done.
    intros r' Hr' Ha. simplify_eq. rewrite Ha in E. cbn [andb] in E. apply negb_false_iff in E.
    by apply Bool.eqb_prop.
Qed.

Lemma need_intr_eq c pin rte : chip_wf c → in_range c pin → rtbl c !! Z.to_nat pin = Some rte →
  vioapic_need_intr pin c = Some (asserted rte (line c pin)).
Proof.
  intros Hw Hp Hr. destruct (word_at c pin Hw Hp) as (w & Hk & Hww & Hb). unfold vioapic_need_intr.
  replace (pin <? nr_pins (chipinfo c)) with true by (unfold in_range in Hp; lia).
  rewrite Hr. cbn [mbind option_bind]. rewrite Hk. cbn [mbind option_bind].
  rewrite bs_test by done. rewrite (line_eq c pin w Hk). unfold asserted.
  destruct (field_bit 13 rte) as [E|E]; unfold rte_intr_polarity; rewrite E; by destruct (Z.testbit w _).
Qed.

(** A turn of the loop of the end of interrupt. *)
Lemma eoi_pin_ok v pin rte c : chip_wf c → in_range c pin → rtbl c !! Z.to_nat pin = Some rte →
  rte_remote_irr rte = 1 →
  ∃ c' ms, (need ← vioapic_need_intr pin (with_irr 0 pin rte c);
            if need : bool then vioapic_generate_intr v pin (with_irr 0 pin rte c)
            else Some (with_irr 0 pin rte c, [])) = Some (c', ms) ∧
    evolved v c c' ms ∧ from_pins v c' ms.
Proof.
  intros Hw Hp Hr Hi. set (c1 := with_irr 0 pin rte c).
  assert (Hw1 : chip_wf c1) by (by apply with_irr_wf). assert (Hp1 : in_range c1 pin) by done.
  assert (Hr1 : rtbl c1 !! Z.to_nat pin = Some (set_remote_irr 0 rte)).
  { cbn. apply list_lookup_insert_eq. by eapply lookup_lt_Some. }
  destruct (alike_fields rte _ (set_alike 0 rte)) as (Em & Et & Ep & _ & Eg).
  assert (Hback : ∀ c' ms, evolved v c1 c' ms → held_at c' pin → evolved v c c' ms).
  { intros c' ms [I L W R H] Hh. split; [done..| |].
    - intros k r' Hk. destruct (R k r' Hk) as (r1 & Hk1 & A1 & S1). cbn in Hk1.
      apply insert_lookup_cases in Hk1 as [[-> ->]|[Hne Hk1]]; [|by exists r1].
      exists rte. split; [done|]. split; [unfold alike in *; rewrite <- A1; apply set_alike|]. lia.
    - intros pin' Hp' Hh'. destruct (decide (pin' = pin)) as [->|Hne]; [done|]. apply H; [done|].
      intros r'. cbn. rewrite list_lookup_insert_ne by (apply pins_differ; [apply Hp|apply Hp'|done]). apply Hh'. }
  rewrite (need_intr_eq c1 pin (set_remote_irr 0 rte)) by done. cbn [mbind option_bind].
  destruct (asserted (set_remote_irr 0 rte) (line c1 pin)) eqn:Ea.
  - destruct (generate_ok v pin c1 Hw1 Hp1) as (c' & ms & -> & Ev & Hf & _ & Hh).
    eexists _, _. split; [done|]. split; [by apply Hback|done].
  - eexists _, _. split; [done|]. split; [|by intros m ?%elem_of_nil]. apply Hback; [by apply evolved_refl|].
    intros r' Hr' _ _ Ha. rewrite Hr1 in Hr'. simplify_eq. congruence.
Qed.

Lemma eoi_loop_ok v vector pins : ∀ c, chip_wf c → Forall (in_range c) pins →
  ∃ c' ms, eoi_loop v vector pins c = Some (c', ms) ∧ evolved v c c' ms ∧ from_pins v c' ms.
Proof.
  induction pins as [|pin pins IH]; intros c Hw Hl; cbn [eoi_loop].
  { eexists _, _. split; [done|]. split; [by apply evolved_refl|by intros m ?%elem_of_nil]. }
  apply Forall_cons in Hl as [Hp Hl]. destruct (rte_at c pin Hw Hp) as [rte Hr]. rewrite Hr. cbn [mbind option_bind].
  destruct (negb _ || _) eqn:E; [by apply IH|]. apply orb_false_elim in E as [_ Ei].
  assert (Hi : rte_remote_irr rte = 1) by (destruct (field_bit 14 rte); [unfold rte_remote_irr in *; lia|done]).
  destruct (eoi_pin_ok v pin rte c Hw Hp Hr Hi) as (c1 & ms1 & E1 & Ev1 & F1). fold (with_irr 0 pin rte c).
  destruct (vioapic_need_intr pin (with_irr 0 pin rte c)) as [need|]; [|done]. cbn [mbind option_bind] in E1 |- *.
  rewrite E1. cbn [mbind option_bind].
  destruct (IH c1 (ev_wf _ _ _ _ Ev1)) as (c2 & ms2 & -> & Ev2 & F2).
  { eapply Forall_impl; [exact Hl|]. intros p. unfold in_range. by rewrite (ev_info _ _ _ _ Ev1). }
  cbn [mbind option_bind]. eexists _, _. split; [done|]. split; [by eapply evolved_trans|].
  intros m [Hm|Hm]%elem_of_app; [|by apply F2]. eapply (from_pins_alike v c1 c2 ms2 ms1); try done.
  intros k r Hk. by eapply evolved_len; [apply Ev1|..].
Qed.

Lemma pins_of_range c : Forall (in_range c) (pins_of c).
Proof. apply Forall_forall. intros pin Hp%elem_of_seqZ. unfold in_range. lia. Qed.

Lemma mask_pins_ok pins : ∀ t, length (mask_pins pins t) = length t ∧
  ∀ pin, pin ∈ pins → (Z.to_nat pin < length t)%nat → mask_pins pins t !! Z.to_nat pin = Some MASK_ALL_INTERRUPTS.
Proof.
  induction pins as [|p pins IH]; intros t; cbn [mask_pins]; [split; [done|by intros pin ?%elem_of_nil]|].
  destruct (IH (<[Z.to_nat p := MASK_ALL_INTERRUPTS]> t)) as [El Hl]. rewrite length_insert in *.
  split; [done|]. intros pin Hp Hlt. destruct (decide (pin ∈ pins)) as [Hin|Hn]; [by apply Hl|].
  apply elem_of_cons in Hp as [->|?]; [|done]. clear IH El Hl. revert t Hlt Hn.
  induction pins as [|p' pins IH]; intros t Hlt Hn; cbn [mask_pins]; [by apply list_lookup_insert_eq|].
  destruct (decide (Z.to_nat p' = Z.to_nat p)) as [E|E].
  - rewrite E, list_insert_insert_eq. apply IH; [done|]. intros ?. apply Hn. by right.
  - rewrite list_insert_insert_ne by done. apply IH; [by rewrite length_insert|]. intros ?. apply Hn. by right.
Qed.

Lemma reset_one_ok c : chip_wf c →
  chip_wf (reset_one_vioapic c) ∧ nr_pins (chipinfo (reset_one_vioapic c)) = nr_pins (chipinfo c) ∧
  ∀ pin, in_range c pin → rtbl (reset_one_vioapic c) !! Z.to_nat pin = Some MASK_ALL_INTERRUPTS.
Proof.
  intros Hw. destruct (mask_pins_ok (pins_of c) (rtbl c)) as [El Hl]. destruct Hw as [Hn Hg Hr Hs Hws].
  split; [|split; [done|]].
  - split; auto. cbn. by rewrite El.
  - intros pin Hp. apply Hl; [apply elem_of_seqZ; unfold in_range in Hp; lia|].
    unfold in_range, REDIR_ENTRIES_HW in *. lia.
Qed.

(** ** The chips of all VMs *)

Section worlds.
Context {P : Platform} {IP : IoapicPlatform} {L : PlatformLaws}.

(** What the code relies on of the platform's I/O APICs: no more of them than the configuration
    has, none with more pins, and a table of GSIs that leads to them. *)
Class IoapicLaws : Prop := {
  il_num : (length get_platform_ioapic_info ≤ Z.to_nat CONFIG_MAX_IOAPIC_NUM)%nat;
  il_pins i : i ∈ get_platform_ioapic_info → 0 ≤ nr_pins i ≤ REDIR_ENTRIES_HW ∧ 0 ≤ gsi_base i;
  il_index g : 0 ≤ g → 0 ≤ get_gsi_to_ioapic_index g < CONFIG_MAX_IOAPIC_NUM ∧ 0 ≤ gsi_to_ioapic_pin g }.

Context {IL : IoapicLaws}.

Record vio_wf (w : world) : Prop := {
  vw_len : length (vioapics w) = length (pt_vms (pt w));
  vw_array v vs : vioapics w !! v = Some vs →
    length (vioapic_array vs) = Z.to_nat CONFIG_MAX_IOAPIC_NUM ∧ 0 ≤ ioapic_num vs ≤ CONFIG_MAX_IOAPIC_NUM;
  vw_chip v k c : chip_at v k w = Some c → chip_wf c;
}.

(** A message comes from an unmasked pin of the VM that it is sent to. *)
Definition from_chips (w : world) (m : lapic_msg) : Prop :=
  ∃ v k c pin rte, chip_at v k w = Some c ∧ in_range c pin ∧ rtbl c !! Z.to_nat pin = Some rte ∧
    rte_intr_mask rte = 0 ∧ m = msg_of v rte.

(** The chips after lines and ends of interrupt have changed them. *)
Record wevolved (w w' : world) (ms : list lapic_msg) : Prop := {
  we_msgs : msgs w' = msgs w ++ ms;
  we_vms : pt_vms (pt w') = pt_vms (pt w);
  we_len : length (vioapics w') = length (vioapics w);
  we_vs v vs' : vioapics w' !! v = Some vs' → ∃ vs, vioapics w !! v = Some vs ∧
    ioapic_num vs' = ioapic_num vs ∧ length (vioapic_array vs') = length (vioapic_array vs);
  we_chip v k c : chip_at v k w = Some c → ∃ c', chip_at v k w' = Some c' ∧ evolved v c c' ms;
  we_back v k c' : chip_at v k w' = Some c' → ∃ c, chip_at v k w = Some c;
  we_from m : m ∈ ms → from_chips w' m;
}.

Lemma wevolved_wf w w' ms : vio_wf w → wevolved w w' ms → vio_wf w'.
Proof.
  intros [Hl Ha Hc] [Em Ep El Ev Ec Eb _]. split.
  - by rewrite El, Ep.
  - intros v vs' Hv. destruct (Ev v vs' Hv) as (vs & Hvs & -> & ->). by apply (Ha v).
  - intros v k c' Hk. destruct (Eb v k c' Hk) as [c Hk0]. destruct (Ec v k c Hk0) as (c2 & ? & E). simplify_eq. apply E.
Qed.

Lemma wevolved_refl w : vio_wf w → wevolved w w [].
Proof.
  intros Hw. split; eauto; [by rewrite app_nil_r| |by intros m ?%elem_of_nil].
  intros v k c Hk. exists c. split; [done|]. apply evolved_refl. by apply (vw_chip w Hw v k).
Qed.

Lemma from_chips_on w w' ms m : vio_wf w → wevolved w w' ms → from_chips w m → from_chips w' m.
Proof.
  intros Hw E (v & k & c & pin & rte & Hk & Hp & Hr & Hm & ->).
  destruct (we_chip _ _ _ E v k c Hk) as (c' & Hk' & Ev).
  destruct (evolved_len v c c' ms _ _ (vw_chip w Hw v k c Hk) Ev Hr) as [r' Hr'].
  destruct (ev_rte _ _ _ _ Ev _ _ Hr') as (r0 & ? & A & _). simplify_eq.
  destruct (alike_fields _ _ A) as (Em & _ & _ & _ & Eg).
  exists v, k, c', pin, r'. unfold in_range. rewrite (ev_info _ _ _ _ Ev), Em, Eg. auto.
Qed.

Lemma wevolved_trans w1 w2 w3 ms1 ms2 : vio_wf w1 → wevolved w1 w2 ms1 → wevolved w2 w3 ms2 →
  wevolved w1 w3 (ms1 ++ ms2).
Proof.
  intros Hw A B. pose proof (wevolved_wf _ _ _ Hw A) as Hw2. split.
  - by rewrite (we_msgs _ _ _ B), (we_msgs _ _ _ A), app_assoc.
  - by rewrite (we_vms _ _ _ B), (we_vms _ _ _ A).
  - by rewrite (we_len _ _ _ B), (we_len _ _ _ A).
  - intros v vs3 H3. destruct (we_vs _ _ _ B v vs3 H3) as (vs2 & H2 & -> & ->). by apply (we_vs _ _ _ A).
  - intros v k c Hk. destruct (we_chip _ _ _ A v k c Hk) as (c2 & H2 & E2).
    destruct (we_chip _ _ _ B v k c2 H2) as (c3 & H3 & E3). exists c3. split; [done|]. by eapply evolved_trans.
  - intros v k c Hk. destruct (we_back _ _ _ B v k c Hk) as [c2 H2]. by apply (we_back _ _ _ A v k c2).
  - intros m [Hm|Hm]%elem_of_app; [|by apply (we_from _ _ _ B)].
    eapply from_chips_on; [done|done|]. by apply (we_from _ _ _ A).
Qed.

Lemma set_chip_ok v k c c' w : chip_at v k w = Some c →
  ∃ w', set_chip v k c' w = Some w' ∧ msgs w' = msgs w ∧ pt w' = pt w ∧
    length (vioapics w') = length (vioapics w) ∧
    (∀ u us', vioapics w' !! u = Some us' → ∃ us, vioapics w !! u = Some us ∧
       ioapic_num us' = ioapic_num us ∧ length (vioapic_array us') = length (vioapic_array us)) ∧
    ∀ u j, chip_at u j w' = if decide (u = v ∧ j = k) then Some c' else chip_at u j w.
Proof.
  unfold chip_at, set_chip. destruct (vioapics w !! v) as [vs|] eqn:Ev; [|done]. cbn [mbind option_bind].
  intros Hk. eexists. split; [done|]. split; [done|]. split; [done|]. cbn. split; [by rewrite length_insert|]. split.
  - intros u us' Hu. apply insert_lookup_cases in Hu as [[-> ->]|[Hne Hu]]; [|by exists us'].
    exists vs. cbn. by rewrite length_insert.
  - intros u j. destruct (decide (u = v)) as [->|Hne].
    + rewrite list_lookup_insert_eq by (by eapply lookup_lt_Some). rewrite Ev. cbn.
      destruct (decide (j = k)) as [->|Hj].
      * rewrite decide_True by done. apply list_lookup_insert_eq. by eapply lookup_lt_Some.
      * rewrite decide_False by tauto. by apply list_lookup_insert_ne.
    + rewrite list_lookup_insert_ne by done. by rewrite decide_False by tauto.
Qed.

Lemma on_chip_ok v k f w c c' ms : vio_wf w → chip_at v k w = Some c → f c = Some (c', ms) →
  evolved v c c' ms → from_pins v c' ms →
  ∃ w', on_chip v k f w = Some w' ∧ wevolved w w' ms ∧ pt w' = pt w ∧ chip_at v k w' = Some c' ∧
    ∀ u j, ¬ (u = v ∧ j = k) → chip_at u j w' = chip_at u j w.
Proof.
  intros Hw Hk Hf He Hm. unfold on_chip. rewrite Hk. cbn [mbind option_bind]. rewrite Hf. cbn [mbind option_bind].
  destruct (set_chip_ok v k c c' w Hk) as (w1 & -> & Em & Ep & El & Ev & Ec). cbn [mbind option_bind].
  assert (Hkc : ∀ u j, chip_at u j w1⟨msgs := msgs w1 ++ ms⟩ = chip_at u j w1) by done.
  eexists. split; [done|]. split; [|split; [done|]; rewrite Hkc, Ec, decide_True by done; split; [done|]].
  - split; try done.
    + cbn. by rewrite Em.
    + cbn. by rewrite Ep.
    + intros u j cu Hu. rewrite Hkc, Ec. destruct (decide _) as [[-> ->]|]; [by simplify_eq; exists c'|].
      exists cu. split; [done|]. apply evolved_refl. by apply (vw_chip w Hw u j).
    + intros u j cu. rewrite Hkc, Ec. destruct (decide _) as [[-> ->]|]; eauto.
    + intros m Hin. destruct (Hm m Hin) as (pin & rte & ?). exists v, k, c', pin, rte.
      rewrite Hkc, Ec, decide_True by done. tauto.
  - intros u j Hne. by rewrite Hkc, Ec, decide_False.
Qed.

(** *** Lines *)

Lemma vgsi_chip v g w : vio_wf w → (v < length (pt_vms (pt w)))%nat → 0 ≤ g →
  ∃ k pin c, vgsi_to_vioapic_and_vpin v g w = (k, pin) ∧ chip_at v k w = Some c ∧ 0 ≤ pin.
Proof.
  intros Hw Hv Hg. destruct (lookup_lt_is_Some_2 (vioapics w) v) as [vs Hvs]; [by rewrite (vw_len w Hw)|].
  destruct (vw_array w Hw v vs Hvs) as [Hlen _]. unfold vgsi_to_vioapic_and_vpin, chip_at. rewrite Hvs.
  cbn [mbind option_bind].
  assert (∃ c, vioapic_array vs !! 0%nat = Some c) as [c Hc]
    by (apply lookup_lt_is_Some_2; rewrite Hlen; apply Nat.lt_0_1).
  destruct (il_index g Hg) as [Hi Hp]. unfold CONFIG_MAX_IOAPIC_NUM in Hi.
  case_if; [|by exists 0%nat, g, c].
  replace (get_gsi_to_ioapic_index g) with 0 by lia. by eexists 0%nat, _, c.
Qed.

Lemma set_pin_ok v k pin (l : bool) w c : vio_wf w → chip_at v k w = Some c → 0 ≤ pin →
  ∃ w' ms, on_chip v k (vioapic_set_pinstate v pin (if l then 1 else 0)) w = Some w' ∧
    wevolved w w' ms ∧ pt w' = pt w.
Proof.
  intros Hw Hk Hp. destruct (set_pinstate_ok v pin l c (vw_chip w Hw v k c Hk) Hp) as (c' & ms & Hf & He & Hm).
  destruct (on_chip_ok v k _ w c c' ms Hw Hk Hf He Hm) as (w' & -> & E & Ep & _). by exists w', ms.
Qed.

Lemma set_two_ok v k pin (l1 l2 : bool) w c : vio_wf w → chip_at v k w = Some c → 0 ≤ pin →
  ∃ w' ms, (w1 ← on_chip v k (vioapic_set_pinstate v pin (if l1 then 1 else 0)) w;
            on_chip v k (vioapic_set_pinstate v pin (if l2 then 1 else 0)) w1) = Some w' ∧
    wevolved w w' ms ∧ pt w' = pt w.
Proof.
  intros Hw Hk Hp. destruct (set_pin_ok v k pin l1 w c Hw Hk Hp) as (w1 & ms1 & -> & E1 & P1). cbn [mbind option_bind].
  destruct (we_chip _ _ _ E1 v k c Hk) as (c1 & Hk1 & _).
  destruct (set_pin_ok v k pin l2 w1 c1 (wevolved_wf _ _ _ Hw E1) Hk1 Hp) as (w2 & ms2 & -> & E2 & P2).
  eexists _, _. split; [done|]. split; [by eapply wevolved_trans|congruence].
Qed.

Lemma set_irqline_ok v g op w : vio_wf w → (v < length (pt_vms (pt w)))%nat → 0 ≤ g →
  ∃ w' ms, vioapic_set_irqline_nolock v g op w = Some w' ∧ wevolved w w' ms ∧ pt w' = pt w.
Proof.
  intros Hw Hv Hg. destruct (vgsi_chip v g w Hw Hv Hg) as (k & pin & c & E & Hk & Hp).
  unfold vioapic_set_irqline_nolock. rewrite E. destruct op.
  - by apply (set_pin_ok v k pin true w c).
  - by apply (set_pin_ok v k pin false w c).
  - by apply (set_two_ok v k pin true false w c).
  - by apply (set_two_ok v k pin false true w c).
Qed.

Lemma drive_lines_ok l : ∀ w, vio_wf w → Forall (λ x, line_ok (length (pt_vms (pt w))) x = true) l →
  ∃ w' ms, drive_lines l w = Some w' ∧ wevolved w w' ms ∧ pt w' = pt w.
Proof.
  induction l as [|x l IH]; intros w Hw Hl; cbn [drive_lines].
  { exists w, []. split; [done|]. split; [by apply wevolved_refl|done]. }
  apply Forall_cons in Hl as [Hx Hl].
  destruct x; try (by apply IH). cbn in Hx. apply andb_prop in Hx as [Hv%Nat.ltb_lt Hg%Z.leb_le].
  destruct (set_irqline_ok v gsi op w Hw Hv Hg) as (w1 & ms1 & -> & E1 & P1). cbn [mbind option_bind].
  destruct (IH w1) as (w2 & ms2 & -> & E2 & P2); [by eapply wevolved_wf|by rewrite P1|].
  eexists _, _. split; [done|]. split; [by eapply wevolved_trans|congruence].
Qed.

(** *** Calls into the passthrough code *)

#[export] Instance world_laws w : @PlatformLaws (world_platform w).
Proof. split; [apply (@pl_cpus P L)|apply (@pl_mask P L)|apply (@pl_irq P L)]. Qed.

Lemma with_pt_evolved w st : vio_wf w → pt_vms st = pt_vms (pt w) → wevolved w w⟨pt := st⟩ [].
Proof.
  intros Hw Hv. destruct (wevolved_refl w Hw). by split.
Qed.

Lemma effects_dropped st st' l : effects st' = effects st ++ l → drop (length (effects st)) (effects st') = l.
Proof. intros ->. by rewrite drop_app_length. Qed.

Lemma call_pt_ok f w st : vio_wf w → f (world_platform w) (pt w) = Some st →
  pt_vms st = pt_vms (pt w) → extends (pt w) st →
  ∃ w' ms, call_pt f w = Some w' ∧ wevolved w w' ms ∧ pt w' = st.
Proof.
  intros Hw Hf Hv (l & El & Hl). unfold call_pt. rewrite Hf. cbn [mbind option_bind].
  rewrite (effects_dropped _ _ l El). pose proof (with_pt_evolved w st Hw Hv) as E0.
  destruct (drive_lines_ok l w⟨pt := st⟩) as (w' & ms & -> & E & Ep).
  - by eapply wevolved_wf.
  - cbn. by rewrite Hv.
  - exists w', ms. split; [done|]. split; [|done]. change ms with ([] ++ ms). by eapply wevolved_trans.
Qed.

(** The pins that are held, in the VMs whose local APIC is not passed through. *)
Definition all_held (w : world) : Prop :=
  ∀ v k c pin, is_lapic_pt_configured v = false → chip_at v k w = Some c → in_range c pin → held_at c pin.

(** What a step of the system does to the chips. *)
Record vio_ok (w w' : world) (ms : list lapic_msg) : Prop := {
  vo_msgs : msgs w' = msgs w ++ ms;
  vo_wf : vio_wf w';
  vo_vms : pt_vms (pt w') = pt_vms (pt w);
  vo_from m : m ∈ ms → from_chips w' m;
  vo_sent v k c c' pin rte rte' : is_lapic_pt_configured v = false →
    chip_at v k w = Some c → chip_at v k w' = Some c' → in_range c' pin →
    rtbl c !! Z.to_nat pin = Some rte → rtbl c' !! Z.to_nat pin = Some rte' →
    rte_remote_irr rte = 0 → rte_remote_irr rte' = 1 → msg_of v rte' ∈ ms;
  vo_held : all_held w → all_held w';
}.

Lemma evolved_ok w w' ms : vio_wf w → wevolved w w' ms → vio_ok w w' ms.
Proof.
  intros Hw E. split; try apply E.
  - by eapply wevolved_wf.
  - intros v k c c' pin r r' _ Hk Hk' Hp Hr Hr' Z0 Z1. destruct (we_chip _ _ _ E v k c Hk) as (c2 & ? & Ev).
    simplify_eq. destruct (ev_rte _ _ _ _ Ev _ _ Hr') as (r0 & ? & _ & S). simplify_eq. auto.
  - intros Hh v k c' pin Hv Hk' Hp. destruct (we_back _ _ _ E v k c' Hk') as [c Hk].
    destruct (we_chip _ _ _ E v k c Hk) as (c2 & ? & Ev). simplify_eq.
    assert (in_range c pin) by (unfold in_range in *; by rewrite <- (ev_info _ _ _ _ Ev)).
    apply (ev_held _ _ _ _ Ev); [done|]. by apply (Hh v k).
Qed.

(** Changes of one chip that send nothing. *)
Lemma set_chip_step v k c c' w : vio_wf w → chip_at v k w = Some c → chip_wf c' →
  (is_lapic_pt_configured v = false → ∀ pin, in_range c' pin →
     ((∀ rte rte', rtbl c !! Z.to_nat pin = Some rte → rtbl c' !! Z.to_nat pin = Some rte' →
        rte_remote_irr rte = 0 → rte_remote_irr rte' = 1 → False) ∧
      (held_at c pin → held_at c' pin)) ∧ in_range c pin) →
  ∃ w', set_chip v k c' w = Some w' ∧ vio_ok w w' [] ∧ pt w' = pt w ∧ chip_at v k w' = Some c'.
Proof.
  intros Hw Hk Hc' Hpin. destruct (set_chip_ok v k c c' w Hk) as (w' & -> & Em & Ep & El & Ev & Ec).
  exists w'. split; [done|]. split; [|split; [done|by rewrite Ec, decide_True]].
  destruct Hw as [Wl Wa Wc]. split.
  - by rewrite Em, app_nil_r.
  - split; [by rewrite El, Ep| |].
    + intros u us' Hu. destruct (Ev u us' Hu) as (us & Hus & -> & ->). by apply (Wa u).
    + intros u j cu. rewrite Ec. destruct (decide _) as [[-> ->]|]; [by intros [= <-]|apply Wc].
  - by rewrite Ep.
  - by intros m ?%elem_of_nil.
  - intros u j cu cu' pin r r' Hu Hk1 Hk2 Hp Hr Hr' Z0 Z1. rewrite Ec in Hk2.
    destruct (decide _) as [[-> ->]|]; simplify_eq; [|congruence].
    exfalso. eapply (proj1 (proj1 (Hpin Hu pin Hp))); eauto.
  - intros Hh u j cu pin Hu Hk2 Hp. rewrite Ec in Hk2.
    destruct (decide _) as [[-> ->]|]; simplify_eq; [|by apply (Hh u j)].
    destruct (Hpin Hu pin Hp) as [[_ H2] H3]. apply H2. by apply (Hh v k).
Qed.

Lemma vio_ok_refl w : vio_wf w → vio_ok w w [].
Proof. intros Hw. apply evolved_ok; [done|]. by apply wevolved_refl. Qed.

(** *** Accesses of the guest *)

Lemma redtbl_pin r c : in_redtbl r (nr_pins (chipinfo c)) = true → in_range c (Z.shiftr (r - IOAPIC_REDTBL) 1).
Proof.
  unfold in_redtbl, in_range, IOAPIC_REDTBL. intros H. rewrite Z.shiftr_div_pow2 by lia. change (2 ^ 1) with 2.
  apply andb_prop in H as [H1%Z.leb_le H2%Z.ltb_lt].
  split; [apply Z.div_pos; lia|apply Z.div_lt_upper_bound; lia].
Qed.

Lemma vm_at v w : vio_wf w → (v < length (pt_vms (pt w)))%nat → ∃ x, pt_vms (pt w) !! v = Some x.
Proof. intros _ Hv. by apply lookup_lt_is_Some_2. Qed.

Lemma indirect_read_ok v k a w c : vio_wf w → as_wf (pt w) → (v < length (pt_vms (pt w)))%nat →
  chip_at v k w = Some c →
  ∃ d w', vioapic_indirect_read v k a w = Some (d, w') ∧ vio_ok w w' [] ∧ pt w' = pt w.
Proof.
  intros Hw Hpt Hv Hk. pose proof (vw_chip w Hw v k c Hk) as Hc.
  assert (Hsame : ∀ d : Z, ∃ d' w', Some (d, w) = Some (d', w') ∧ vio_ok w w' [] ∧ pt w' = pt w).
  { intros d. exists d, w. split; [done|]. split; [by apply vio_ok_refl|done]. }
  unfold vioapic_indirect_read. rewrite Hk. cbn [mbind option_bind].
  destruct (in_redtbl _ _) eqn:E; [|apply Hsame].
  destruct (rte_at c _ Hc (redtbl_pin _ c E)) as [rte Hr]. rewrite Hr. cbn [mbind option_bind].
  case_if; [apply Hsame|]. destruct (_ && _) eqn:El; [|apply Hsame]. apply andb_prop in El as [El _].
  destruct (vm_at v w Hw Hv) as [x Hx].
  destruct (find_virt_cases PTDEV_INTR_INTX (INTX_SID (rte_vector rte) INTX_CTLR_IOAPIC) v x (pt w) Hpt Hx)
    as (r & -> & Hi). cbn [mbind option_bind].
  destruct r as [i|]; [|apply Hsame]. destruct Hi as (e & -> & _). cbn [mbind option_bind].
  match goal with |- context [set_chip v k ?c' w] =>
    destruct (set_chip_step v k c c' w Hw Hk) as (w' & -> & O & Ep & _) end.
  - destruct Hc. split; auto. cbn. by rewrite length_insert.
  - intros Hf. congruence.
  - eexists _, w'. by split.
Qed.

(** A write does not set Remote IRR. *)
Lemma new_rte_irr hi data last : rte_remote_irr last = 0 → rte_remote_irr (new_rte hi data last) = 0.
Proof.
  intros Hl. unfold new_rte. destruct (rte_trigger_mode _ =? 0); [apply remote_irr_set; by left|]. destruct hi.
  - unfold rte_remote_irr. by rewrite field_set_other by lia.
  - apply Z.bits_inj'. intros i Hi. rewrite Z.bits_0. unfold rte_remote_irr.
    rewrite field_testbit, set_field_testbit by lia. destruct (Z.ltb_spec i 1); [|by rewrite andb_false_r].
    assert (i = 0) as -> by lia. change (0 + 14) with 14. cbn [andb Z.leb Z.ltb Z.compare Pos.compare Pos.compare_cont].
    change (14 - 0) with 14. rewrite Z.lor_spec, !Z.land_spec, field_testbit by lia.
    change (Z.testbit (bnot 32 RTBL_RO_BITS) 14) with false.
    assert (Z.testbit last 14 = false) as H14.
    { pose proof (field_testbit 14 1 last 0 ltac:(lia) ltac:(lia) ltac:(lia)) as H0.
      unfold rte_remote_irr in Hl. rewrite Hl, Z.bits_0 in H0. by rewrite andb_true_r in H0. }
    change (14 + 0) with 14. rewrite H14. by rewrite andb_false_r.
Qed.

(** Writing an entry: every pin but this one is as before. *)
Definition written (v k : nat) (pin new : Z) (m : vpic_wire_mode) (vs : acrn_vioapics)
    (c : acrn_single_vioapic) (w : world) : world :=
  w⟨vioapics := <[v := vs⟨wire_mode := m⟩⟨vioapic_array :=
      <[k := c⟨rtbl := <[Z.to_nat pin := new]> (rtbl c)⟩]> (vioapic_array vs)⟩]> (vioapics w)⟩.

Lemma written_ok v k pin new m vs c w : vio_wf w → vioapics w !! v = Some vs → vioapic_array vs !! k = Some c →
  vio_wf (written v k pin new m vs c w) ∧
  ∀ u j, chip_at u j (written v k pin new m vs c w) =
    if decide (u = v ∧ j = k) then Some c⟨rtbl := <[Z.to_nat pin := new]> (rtbl c)⟩ else chip_at u j w.
Proof.
  intros [Wl Wa Wc] Hvs Hk. set (c1 := c⟨rtbl := _⟩). set (w1 := written v k pin new m vs c w).
  assert (Hc : chip_wf c) by (apply (Wc v k); unfold chip_at; by rewrite Hvs).
  assert (HC : ∀ u j, chip_at u j w1 = if decide (u = v ∧ j = k) then Some c1 else chip_at u j w).
  { intros u j. unfold chip_at, w1, written. cbn [vioapics]. destruct (decide (u = v)) as [->|Hu].
    - cbn. rewrite list_lookup_insert_eq, Hvs by (by eapply lookup_lt_Some). cbn.
      destruct (decide (j = k)) as [->|Hj].
      + rewrite decide_True by done. apply list_lookup_insert_eq. by eapply lookup_lt_Some.
      + rewrite decide_False by tauto. by apply list_lookup_insert_ne.
    - cbn. rewrite list_lookup_insert_ne by done. by rewrite decide_False by tauto. }
  split; [|done]. split.
  - cbn. by rewrite length_insert.
  - intros u us Hu. cbn in Hu. apply insert_lookup_cases in Hu as [[-> ->]|[Hne Hu]]; [|by apply (Wa u)].
    cbn. rewrite length_insert. by apply (Wa v).
  - intros u j cu. rewrite HC. destruct (decide _); [|apply Wc]. intros [= <-].
    destruct Hc. split; auto. cbn. by rewrite length_insert.
Qed.

(** A write is complete when the pin is held in the end. *)
Lemma write_step v k pin hi data last m vs c w w3 ms : vio_wf w → vioapics w !! v = Some vs →
  vioapic_array vs !! k = Some c → in_range c pin → rtbl c !! Z.to_nat pin = Some last →
  wevolved (written v k pin (new_rte hi data last) m vs c w) w3 ms →
  (∀ c3, chip_at v k w3 = Some c3 → held_at c3 pin) → vio_ok w w3 ms.
Proof.
  intros Hw Hvs Hk Hp Hlast E Hheld.
  destruct (written_ok v k pin (new_rte hi data last) m vs c w Hw Hvs Hk) as [Hw1 HC].
  set (new := new_rte hi data last) in *. set (w1 := written _ _ _ _ _ _ _ _) in *.
  assert (Hck : chip_at v k w = Some c) by (unfold chip_at; by rewrite Hvs).
  split; [by rewrite (we_msgs _ _ _ E)|by eapply wevolved_wf|by rewrite (we_vms _ _ _ E)|apply E| |].
  - intros u j cu cu' p r r' _ Hu Hu' Hpu Hr Hr' Z0 Z1.
    assert (∃ c1 r1, chip_at u j w1 = Some c1 ∧ rtbl c1 !! Z.to_nat p = Some r1 ∧ rte_remote_irr r1 = 0)
      as (c1 & r1 & H1 & Hr1 & Z1').
    { rewrite HC. destruct (decide _) as [[-> ->]|]; [|by exists cu, r]. simplify_eq.
      eexists _. destruct (decide (Z.to_nat p = Z.to_nat pin)) as [Ep|Ep].
      - exists new. rewrite Ep in *. simplify_eq. split; [done|]. split; [|by apply new_rte_irr].
        cbn. apply list_lookup_insert_eq. by eapply lookup_lt_Some.
      - exists r. split; [done|]. cbn. by rewrite list_lookup_insert_ne. }
    destruct (we_chip _ _ _ E u j c1 H1) as (c2 & ? & Ev). simplify_eq.
    destruct (ev_rte _ _ _ _ Ev _ _ Hr') as (r0 & ? & _ & S). simplify_eq. auto.
  - intros Hh u j c3 p Hu H3 Hp3. destruct (decide (u = v ∧ j = k ∧ p = pin)) as [(-> & -> & ->)|Hne]; [by apply Hheld|].
    destruct (we_back _ _ _ E u j c3 H3) as [c1 H1]. destruct (we_chip _ _ _ E u j c1 H1) as (c2 & ? & Ev). simplify_eq.
    assert (Hp1 : in_range c1 p) by (unfold in_range in *; by rewrite <- (ev_info _ _ _ _ Ev)).
    apply (ev_held _ _ _ _ Ev p Hp1). rewrite HC in H1. destruct (decide _) as [[-> ->]|]; [|by apply (Hh u j)].
    simplify_eq. intros r Hr. cbn in Hr. rewrite list_lookup_insert_ne in Hr.
    + by apply (Hh v k c p).
    + apply pins_differ; [apply Hp|apply Hp1|naive_solver].
Qed.

Lemma pin_remap_call v g w running : vio_wf w → pt_inv (pt w, running) → (v < length (pt_vms (pt w)))%nat →
  ∃ w' ms, call_pt (λ Q st, '(_, st) ← @ptirq_intx_pin_remap Q v g INTX_CTLR_IOAPIC st; Some st) w = Some w' ∧
    wevolved w w' ms ∧ pt_inv (pt w', running).
Proof.
  intros Hw Hi Hv. destruct (vm_at v w Hw Hv) as [x Hx].
  destruct (@pin_remap_ok (world_platform w) _ v x g INTX_CTLR_IOAPIC (pt w) (pi_wf _ Hi) Hx) as (r & st & Hr & O).
  pose proof (@op_pt_step (world_platform w) (Ev_pin_remap v g INTX_CTLR_IOAPIC) _ _ running Hi O) as S.
  destruct (call_pt_ok (λ Q st, '(_, st) ← @ptirq_intx_pin_remap Q v g INTX_CTLR_IOAPIC st; Some st) w st)
    as (w' & ms & H1 & H2 & H3); [done|by rewrite Hr|apply S..|].
  exists w', ms. split; [done|]. split; [done|]. rewrite H3. apply S.
Qed.

(** The interrupt that a write sends when the pin is asserted. *)
Lemma write_end v k pin w c : vio_wf w → chip_at v k w = Some c → in_range c pin →
  ∃ w' ms, (c ← chip_at v k w; rte ← rtbl c !! Z.to_nat pin; need ← vioapic_need_intr pin c;
      if (rte_intr_mask rte =? 0) && (rte_remote_irr rte =? 0) && need
      then on_chip v k (vioapic_generate_intr v pin) w else Some w) = Some w' ∧
    wevolved w w' ms ∧ pt w' = pt w ∧ ∀ c', chip_at v k w' = Some c' → held_at c' pin.
Proof.
  intros Hw Hk Hp. pose proof (vw_chip w Hw v k c Hk) as Hc. destruct (rte_at c pin Hc Hp) as [rte Hr].
  rewrite Hk. cbn [mbind option_bind]. rewrite Hr. cbn [mbind option_bind].
  rewrite (need_intr_eq c pin rte) by done. cbn [mbind option_bind].
  destruct (_ && _ && _) eqn:E.
  - destruct (generate_ok v pin c Hc Hp) as (c' & ms & Hg & Ev & Hf & _ & Hh).
    destruct (on_chip_ok v k _ w c c' ms Hw Hk Hg Ev Hf) as (w' & -> & Ew & Ep & Hk' & _).
    exists w', ms. split; [done|]. split; [done|]. split; [done|]. intros c2 ?. by simplify_eq.
  - exists w, []. split; [done|]. split; [by apply wevolved_refl|]. split; [done|]. intros c2 Hk2.
    rewrite Hk in Hk2. injection Hk2 as <-. intros r Hr' Hm _ Ha. simplify_eq. rewrite Hm, Ha in E.
    destruct (field_bit 14 rte) as [Z0|]; [|done]. unfold rte_remote_irr in E. by rewrite Z0 in E.
Qed.

(** A write to the redirection table that is not refused. *)
Lemma redtbl_write_ok v k a data w vs c last m running : vio_wf w → pt_inv (pt w, running) →
  (v < length (pt_vms (pt w)))%nat → vioapics w !! v = Some vs → vioapic_array vs !! k = Some c →
  in_redtbl (a &&& 0xff) (nr_pins (chipinfo c)) = true →
  let off := (a &&& 0xff) - IOAPIC_REDTBL in
  let pin := Z.shiftr off 1 in
  let new := new_rte (nonzero (off &&& 1)) data last in
  rtbl c !! Z.to_nat pin = Some last → new_wire_mode pin last new (wire_mode vs) = Some m →
  ∃ w3 ms, vioapic_indirect_write v k a data w = Some w3 ∧ wevolved (written v k pin new m vs c w) w3 ms ∧
    pt_inv (pt w3, running) ∧ ∀ c3, chip_at v k w3 = Some c3 → held_at c3 pin.
Proof.
  intros Hw Hi Hv Hvs Hk Er off pin new Hl Hm. unfold vioapic_indirect_write. rewrite Hvs. cbn [mbind option_bind].
  rewrite Hk. cbn [mbind option_bind]. pose proof (redtbl_pin _ c Er) as Hp. fold off pin in Hp.
  replace (_ =? IOAPIC_ID) with false
    by (unfold in_redtbl, IOAPIC_REDTBL, IOAPIC_ID in *; apply andb_prop in Er as [Er%Z.leb_le _]; lia).
  rewrite Er. fold off pin. rewrite Hl. cbn [mbind option_bind]. fold new. rewrite Hm.
  fold (written v k pin new m vs c w). destruct (written_ok v k pin new m vs c w Hw Hvs Hk) as [Hw1 HC].
  set (w1 := written v k pin new m vs c w) in *.
  assert (∃ w2 ms, (if (rte_intr_mask new =? 0) || (rte_intr_mask last =? 0) then
       call_pt (λ Q st, '(_, st) ← @ptirq_intx_pin_remap Q v (u32 (gsi_base (chipinfo c) + pin)) INTX_CTLR_IOAPIC st; Some st) w1
     else Some w1) = Some w2 ∧ wevolved w1 w2 ms ∧ pt_inv (pt w2, running)) as (w2 & ms2 & E2 & Ev2 & Hi2).
  { destruct (_ || _); [by apply pin_remap_call|]. exists w1, []. split; [done|]. split; [by apply wevolved_refl|done]. }
  change (chipinfo c⟨rtbl := _⟩) with (chipinfo c). rewrite E2. cbn [mbind option_bind].
  destruct (we_chip _ _ _ Ev2 v k _ (eq_trans (HC v k) (decide_True _ _ (conj eq_refl eq_refl)))) as (c2 & Hk2 & Ec2).
  destruct (write_end v k pin w2 c2) as (w3 & ms3 & -> & Ev3 & Ep3 & Hh); [by eapply wevolved_wf|done| |].
  { unfold in_range. by rewrite (ev_info _ _ _ _ Ec2). }
  exists w3, (ms2 ++ ms3). split; [done|]. split; [by eapply wevolved_trans|]. split; [by rewrite Ep3|done].
Qed.

Lemma indirect_write_ok v k a data w c running : vio_wf w → pt_inv (pt w, running) →
  (v < length (pt_vms (pt w)))%nat → chip_at v k w = Some c →
  ∃ w' ms, vioapic_indirect_write v k a data w = Some w' ∧ vio_ok w w' ms ∧ pt_inv (pt w', running).
Proof.
  intros Hw Hi Hv Hck. pose proof (vw_chip w Hw v k c Hck) as Hc.
  pose proof Hck as Hk. unfold chip_at in Hk. destruct (vioapics w !! v) as [vs|] eqn:Hvs; [|done]. cbn in Hk.
  destruct (in_redtbl (a &&& 0xff) (nr_pins (chipinfo c))) eqn:Er.
  - destruct (rte_at c _ Hc (redtbl_pin _ c Er)) as [last Hl].
    destruct (new_wire_mode (Z.shiftr ((a &&& 0xff) - IOAPIC_REDTBL) 1) last
      (new_rte (nonzero (((a &&& 0xff) - IOAPIC_REDTBL) &&& 1)) data last) (wire_mode vs)) as [m|] eqn:Hm.
    + destruct (redtbl_write_ok v k a data w vs c last m running Hw Hi Hv Hvs Hk Er Hl Hm) as (w3 & ms & -> & E & I3 & Hh).
      exists w3, ms. split; [done|]. split; [|done]. eapply write_step; [done..|by apply redtbl_pin|done|exact E|exact Hh].
    + unfold vioapic_indirect_write. rewrite Hvs. cbn [mbind option_bind]. rewrite Hk. cbn [mbind option_bind].
      replace (_ =? IOAPIC_ID) with false
        by (unfold in_redtbl, IOAPIC_REDTBL, IOAPIC_ID in *; apply andb_prop in Er as [Er%Z.leb_le _]; lia).
      rewrite Er, Hl. cbn [mbind option_bind]. rewrite Hm.
      eexists _, _; split; [done|]; split; [by apply vio_ok_refl|done].
  - unfold vioapic_indirect_write. rewrite Hvs. cbn [mbind option_bind]. rewrite Hk. cbn [mbind option_bind].
    destruct (_ =? IOAPIC_ID); [|rewrite Er; eexists _, _; split; [done|]; split; [by apply vio_ok_refl|done]].
    match goal with |- context [set_chip v k ?c' w] =>
      destruct (set_chip_step v k c c' w Hw Hck) as (w' & -> & O & Ep & _) end.
    + destruct Hc. by split.
    + intros _ pin Hp. split; [split; [|done]|done]. cbn. intros. congruence.
    + eexists _, _. split; [done|]. split; [done|]. by rewrite Ep.
Qed.

Lemma mmio_access_ok v k gpa size dir value w c running : vio_wf w → pt_inv (pt w, running) →
  (v < length (pt_vms (pt w)))%nat → chip_at v k w = Some c →
  ∃ r d w' ms, vioapic_mmio_access_handler v k gpa size dir value w = Some (r, d, w') ∧ vio_ok w w' ms ∧
    pt_inv (pt w', running).
Proof.
  intros Hw Hi Hv Hk. pose proof (vw_chip w Hw v k c Hk) as Hc.
  assert (Hrw : ∀ data rd, ∃ d w' ms, vioapic_mmio_rw v k gpa data rd w = Some (d, w') ∧ vio_ok w w' ms ∧
    pt_inv (pt w', running)).
  { intros data rd. unfold vioapic_mmio_rw. rewrite Hk. cbn [mbind option_bind].
    assert (Hsame : ∀ d : Z, ∃ d' w' ms, Some (d, w) = Some (d', w') ∧ vio_ok w w' ms ∧ pt_inv (pt w', running)).
    { intros d. exists d, w, []. split; [done|]. split; [by apply vio_ok_refl|done]. }
    destruct (_ =? IOAPIC_REGSEL); [|destruct (_ =? IOAPIC_WINDOW)]; destruct rd; try apply Hsame.
    - match goal with |- context [set_chip v k ?c' w] =>
        destruct (set_chip_step v k c c' w Hw Hk) as (w' & -> & O & Ep & _) end.
      + destruct Hc. by split.
      + intros _ pin Hp. split; [split; [|done]|done]. cbn. intros. congruence.
      + eexists _, _, _. split; [done|]. split; [done|]. by rewrite Ep.
    - destruct (indirect_read_ok v k (ioregsel c) w c Hw (pi_wf _ Hi) Hv Hk) as (d & w' & -> & O & Ep).
      eexists _, _, _. split; [done|]. split; [done|]. by rewrite Ep.
    - destruct (indirect_write_ok v k (ioregsel c) data w c running Hw Hi Hv Hk) as (w' & ms & -> & O & Hi').
      by eexists _, _, _. }
  assert (Hsame : ∃ r d w' ms, Some (- EINVAL, value, w) = Some (r, d, w') ∧ vio_ok w w' ms ∧ pt_inv (pt w', running)).
  { eexists _, _, _, _. split; [done|]. split; [by apply vio_ok_refl|done]. }
  unfold vioapic_mmio_access_handler. destruct (size =? 4); [|done].
  destruct (dir =? 0); [|destruct (dir =? 1); [|done]].
  - destruct (Hrw (u32 value) true) as (d & w' & ms & -> & ?). by eexists _, _, _, _.
  - destruct (Hrw (u32 value) false) as (d & w' & ms & -> & ?). by eexists _, _, _, _.
Qed.

(** *** End of interrupt and reset *)

(** Operations that only change lines and Remote IRR bits. *)
Definition moved (running : bool) (w w' : world) : Prop :=
  ∃ ms, wevolved w w' ms ∧ pt_inv (pt w', running).

Lemma moved_trans running w1 w2 w3 : vio_wf w1 → moved running w1 w2 → moved running w2 w3 → moved running w1 w3.
Proof. intros Hw (ms1 & E1 & _) (ms2 & E2 & I2). exists (ms1 ++ ms2). split; [by eapply wevolved_trans|done]. Qed.

Lemma eoi_ack_ok v k vector pin w c running : vio_wf w → pt_inv (pt w, running) →
  (v < length (pt_vms (pt w)))%nat → chip_at v k w = Some c → in_range c pin →
  ∃ w', eoi_ack v k vector pin w = Some w' ∧ moved running w w'.
Proof.
  intros Hw Hi Hv Hk Hp. destruct (rte_at c pin (vw_chip w Hw v k c Hk) Hp) as [rte Hr].
  unfold eoi_ack. rewrite Hk. cbn [mbind option_bind]. rewrite Hr. cbn [mbind option_bind].
  destruct (_ || _). { eexists. split; [done|]. exists []. split; [by apply wevolved_refl|done]. }
  destruct (vm_at v w Hw Hv) as [x Hx]. set (g := u32 _).
  assert (Hg : 0 ≤ g) by (apply Z.mod_pos_bound; lia).
  destruct (intx_ack_ok v x g INTX_CTLR_IOAPIC (pt w) (pi_wf _ Hi) Hx Hg) as (st & Hr' & O).
  pose proof (op_pt_step_nothing (Ev_ack v g INTX_CTLR_IOAPIC) _ _ running Hi O) as S.
  destruct (call_pt_ok (λ _ st, ptirq_intx_ack v g INTX_CTLR_IOAPIC st) w st) as (w' & ms & -> & E & Ep);
    [done..|apply S|apply S|].
  eexists. split; [done|]. exists ms. split; [done|]. rewrite Ep. apply S.
Qed.

Lemma eoi_acks_ok v k vector running pins : ∀ w c, vio_wf w → pt_inv (pt w, running) →
  (v < length (pt_vms (pt w)))%nat → chip_at v k w = Some c → Forall (in_range c) pins →
  ∃ w', eoi_acks v k vector pins w = Some w' ∧ moved running w w'.
Proof.
  induction pins as [|pin pins IH]; intros w c Hw Hi Hv Hk Hl; cbn [eoi_acks].
  { eexists. split; [done|]. exists []. split; [by apply wevolved_refl|done]. }
  apply Forall_cons in Hl as [Hp Hl].
  destruct (eoi_ack_ok v k vector pin w c running Hw Hi Hv Hk Hp) as (w1 & -> & M1). cbn [mbind option_bind].
  destruct (M1) as (ms & E1 & I1). destruct (we_chip _ _ _ E1 v k c Hk) as (c1 & Hk1 & Ev1).
  destruct (IH w1 c1) as (w2 & -> & M2); [by eapply wevolved_wf|done|by rewrite (we_vms _ _ _ E1)|done| |].
  { eapply Forall_impl; [exact Hl|]. intros p. unfold in_range. by rewrite (ev_info _ _ _ _ Ev1). }
  eexists. split; [done|]. by eapply moved_trans.
Qed.

Lemma process_eoi_ok v k vector w c running : vio_wf w → pt_inv (pt w, running) →
  (v < length (pt_vms (pt w)))%nat → chip_at v k w = Some c →
  ∃ w', vioapic_process_eoi v k vector w = Some w' ∧ moved running w w'.
Proof.
  intros Hw Hi Hv Hk. unfold vioapic_process_eoi. rewrite Hk. cbn [mbind option_bind].
  destruct (eoi_acks_ok v k vector running (pins_of c) w c Hw Hi Hv Hk (pins_of_range c)) as (w1 & -> & M1).
  cbn [mbind option_bind]. destruct (M1) as (ms & E1 & I1). destruct (we_chip _ _ _ E1 v k c Hk) as (c1 & Hk1 & Ev1).
  destruct (eoi_loop_ok v vector (pins_of c1) c1 (ev_wf _ _ _ _ Ev1) (pins_of_range c1)) as (c2 & ms2 & Hf & Ev2 & Hm).
  destruct (on_chip_ok v k (λ c, eoi_loop v vector (pins_of c) c) w1 c1 c2 ms2) as (w2 & -> & E2 & Ep & _); try done.
  { by eapply wevolved_wf. }
  eexists. split; [done|]. eapply moved_trans; [done|done|]. exists ms2. by rewrite Ep.
Qed.

Lemma eoi_chips_ok v vector running ks : ∀ w, vio_wf w → pt_inv (pt w, running) →
  (v < length (pt_vms (pt w)))%nat → Forall (λ k, is_Some (chip_at v k w)) ks →
  ∃ w', eoi_chips v vector ks w = Some w' ∧ moved running w w'.
Proof.
  induction ks as [|k ks IH]; intros w Hw Hi Hv Hl; cbn [eoi_chips].
  { eexists. split; [done|]. exists []. split; [by apply wevolved_refl|done]. }
  apply Forall_cons in Hl as [[c Hk] Hl].
  destruct (process_eoi_ok v k vector w c running Hw Hi Hv Hk) as (w1 & -> & M1). cbn [mbind option_bind].
  destruct (M1) as (ms & E1 & I1).
  destruct (IH w1) as (w2 & -> & M2); [by eapply wevolved_wf|done|by rewrite (we_vms _ _ _ E1)| |].
  { eapply Forall_impl; [exact Hl|]. intros j [cj Hj]. destruct (we_chip _ _ _ E1 v j cj Hj) as (c' & ? & _). by exists c'. }
  eexists. split; [done|]. by eapply moved_trans.
Qed.

Lemma vioapics_at v w : vio_wf w → (v < length (pt_vms (pt w)))%nat →
  ∃ vs, vioapics w !! v = Some vs ∧ ∀ k, (k < Z.to_nat CONFIG_MAX_IOAPIC_NUM)%nat → is_Some (chip_at v k w).
Proof.
  intros Hw Hv. destruct (lookup_lt_is_Some_2 (vioapics w) v) as [vs Hvs]; [by rewrite (vw_len w Hw)|].
  exists vs. split; [done|]. intros k Hk. unfold chip_at. rewrite Hvs. cbn [mbind option_bind].
  apply lookup_lt_is_Some_2. by rewrite (proj1 (vw_array w Hw v vs Hvs)).
Qed.

Lemma broadcast_eoi_ok v vector w running : vio_wf w → pt_inv (pt w, running) →
  (v < length (pt_vms (pt w)))%nat → ∃ w', vioapic_broadcast_eoi v vector w = Some w' ∧ moved running w w'.
Proof.
  intros Hw Hi Hv. destruct (vioapics_at v w Hw Hv) as (vs & Hvs & Hch). unfold vioapic_broadcast_eoi.
  rewrite Hvs. cbn [mbind option_bind]. apply eoi_chips_ok; try done. apply Forall_forall. intros k Hk%elem_of_seq.
  apply Hch. destruct (vw_array w Hw v vs Hvs) as [_ Hn]. lia.
Qed.

Lemma masked_all rte : rte = MASK_ALL_INTERRUPTS → rte_intr_mask rte = 1 ∧ rte_remote_irr rte = 0.
Proof. by intros ->. Qed.

Lemma reset_ok v w : vio_wf w → (v < length (pt_vms (pt w)))%nat →
  ∃ w', reset_vioapics v w = Some w' ∧ vio_ok w w' [] ∧ pt w' = pt w.
Proof.
  intros Hw Hv. destruct (vioapics_at v w Hw Hv) as (vs & Hvs & _). unfold reset_vioapics. rewrite Hvs.
  cbn [mbind option_bind]. eexists. split; [done|]. split; [|done]. set (n := Z.to_nat (ioapic_num vs)).
  set (l := (reset_one_vioapic <$> _) ++ _). set (w' := upd vioapics _ w).
  assert (Hlk : ∀ k c', l !! k = Some c' → ∃ c, vioapic_array vs !! k = Some c ∧ (c' = c ∨ c' = reset_one_vioapic c)).
  { intros k c' Hk. unfold l in Hk. apply lookup_app_Some in Hk as [Hk|[Hge Hk]].
    - rewrite list_lookup_fmap in Hk. apply fmap_Some in Hk as (c & Hk & ->).
      apply lookup_take_Some in Hk as [Hk _]. exists c. auto.
    - rewrite length_fmap in Hk, Hge. rewrite length_take in Hk, Hge. rewrite lookup_drop in Hk.
      exists c'. split; [|by left]. destruct (decide (n ≤ length (vioapic_array vs))%nat) as [Hn|Hn].
      + rewrite Nat.min_l in Hk, Hge by done. by replace (n + (k - n))%nat with k in Hk by lia.
      + apply lookup_lt_Some in Hk. lia. }
  assert (Hat : ∀ u j c', chip_at u j w' = Some c' →
    ∃ c, chip_at u j w = Some c ∧ (c' = c ∨ c' = reset_one_vioapic c)).
  { intros u j c'. unfold chip_at, w'. cbn. destruct (decide (u = v)) as [->|Hne].
    - rewrite list_lookup_insert_eq, Hvs by (by eapply lookup_lt_Some). cbn. apply Hlk.
    - rewrite list_lookup_insert_ne by done. eauto. }
  assert (Hlen : length l = length (vioapic_array vs)).
  { unfold l. by rewrite length_app, length_fmap, <- length_app, take_drop. }
  destruct (Hw) as [Wl Wa Wc]. split; [by rewrite app_nil_r| |done|by intros m ?%elem_of_nil| |].
  - split; [cbn; by rewrite length_insert| |].
    + intros u us Hu. cbn in Hu. apply insert_lookup_cases in Hu as [[-> ->]|[Hne Hu]]; [|by apply (Wa u)].
      cbn. rewrite Hlen. by apply (Wa v).
    + intros u j c' Hk. destruct (Hat u j c' Hk) as (c & Hc & [->| ->]); [by apply (Wc u j)|].
      by apply reset_one_ok, (Wc u j).
  - intros u j c c' pin r r' _ Hk Hk' Hp Hr Hr' Z0 Z1. exfalso.
    destruct (Hat u j c' Hk') as (c0 & Hc & [->| ->]); simplify_eq; [congruence|].
    destruct (reset_one_ok c (Wc u j c Hk)) as (_ & En & Hm).
    assert (in_range c pin) as Hpc by (unfold in_range in *; by rewrite <- En).
    rewrite (Hm pin Hpc) in Hr'. destruct (masked_all r') as [_ ?]; [congruence|lia].
  - intros Hh u j c' pin Hu Hk Hp. destruct (Hat u j c' Hk) as (c & Hc & [->| ->]); [by apply (Hh u j)|].
    destruct (reset_one_ok c (Wc u j c Hc)) as (_ & En & Hm).
    assert (in_range c pin) as Hpc by (unfold in_range in *; by rewrite <- En).
    intros r Hr Hmask. rewrite (Hm pin Hpc) in Hr. destruct (masked_all r); [congruence|lia].
Qed.
End worlds.
