(* ===== verification/VioapicRuns.v ===== *)
(** * Runs of the virtual I/O APICs with the passthrough interrupts

    The steps of [PtdevRuns], whose line changes reach the chips, among lines driven by other
    devices, accesses of the guests, ends of interrupt and resets; the theorems on what the
    chips send, what they hold, what a guest reads back, and the way of a level-triggered
    passthrough interrupt from the softirq to its end of interrupt. *)

From S2P Require Import Prelude Bits Vpic LinkedList Timer Irq Ptdev PtdevInv Assign PtdevRuns Vioapic VioapicInv.

#[local] Existing Instance x86_bitmap.

Section runs.
Context {P : Platform} {IP : IoapicPlatform} {L : PlatformLaws} {IL : IoapicLaws}.

Inductive vio_event :=
  | Vio_pt (ev : pt_event)
  | Vio_line (v : nat) (gsi : Z) (op : gsi_op)
  | Vio_access (v k : nat) (gpa size dir value : Z)
  | Vio_eoi (v : nat) (vector : Z)
  | Vio_reset (v : nat).

(** The world with whether [ptirq_softirq] is running. *)
Definition vio_step (ev : vio_event) (s : world * bool) : option (world * bool) :=
  let '(w, running) := s in
  match ev with
  | Vio_pt ev =>
      '(st, running) ← @pt_step (world_platform w) ev (pt w, running);
      w ← drive_lines (drop (length (effects (pt w))) (effects st)) w⟨pt := st⟩;
      Some (w, running)
  | Vio_line v gsi op => w ← vioapic_set_irqline_nolock v gsi op w; Some (w, running)
  | Vio_access v k gpa size dir value =>
      '(_, _, w) ← vioapic_mmio_access_handler v k gpa size dir value w; Some (w, running)
  | Vio_eoi v vector => w ← vioapic_broadcast_eoi v vector w; Some (w, running)
  | Vio_reset v => w ← reset_vioapics v w; Some (w, running)
  end.

Fixpoint vio_run (l : list vio_event) (s : world * bool) : option (world * bool) :=
  match l with [] => Some s | ev :: l' => s ← vio_step ev s; vio_run l' s end.

(** The VMs are among the [n] there are, the chips among those of a VM. *)
Definition vio_ev_ok (n : nat) (ev : vio_event) : Prop :=
  match ev with
  | Vio_pt ev => ev_ok n ev
  | Vio_line v g _ => (v < n)%nat ∧ 0 ≤ g
  | Vio_access v k _ _ _ _ => (v < n)%nat ∧ (k < Z.to_nat CONFIG_MAX_IOAPIC_NUM)%nat
  | Vio_eoi v _ | Vio_reset v => (v < n)%nat
  end.

Record vio_inv (s : world * bool) : Prop := {
  vi_pt : pt_inv (pt s.1, s.2);
  vi_wf : vio_wf s.1;
}.

Lemma pt_event_ok ev w running : vio_inv (w, running) → ev_ok (length (pt_vms (pt w))) ev →
  ∃ w' running' ms, vio_step (Vio_pt ev) (w, running) = Some (w', running') ∧ vio_ok w w' ms ∧
    vio_inv (w', running').
Proof.
  intros [Hi Hw] Hev. cbn [vio_step].
  destruct (@pt_step_ok (world_platform w) _ ev (pt w, running) Hi Hev) as ([st r'] & -> & S).
  cbn [mbind option_bind]. destruct (so_effects _ _ _ S) as (l & El & Hl). cbn in El, Hl.
  rewrite (effects_dropped _ _ l El). pose proof (with_pt_evolved w st Hw (so_vms _ _ _ S)) as E0.
  destruct (drive_lines_ok l w⟨pt := st⟩) as (w' & ms & -> & E & Ep).
  - by eapply wevolved_wf.
  - cbn. by rewrite (so_vms _ _ _ S : pt_vms st = _).
  - cbn [mbind option_bind]. assert (E' : wevolved w w' ms) by (by apply (wevolved_trans w w⟨pt := st⟩ w' [] ms)).
    exists w', r', ms. split; [done|]. split; [by apply evolved_ok|].
    split; cbn; [rewrite Ep; apply S|by eapply wevolved_wf].
Qed.

Lemma vio_step_ok ev s : vio_inv s → vio_ev_ok (length (pt_vms (pt s.1))) ev →
  ∃ s' ms, vio_step ev s = Some s' ∧ vio_ok s.1 s'.1 ms ∧ vio_inv s'.
Proof.
  destruct s as [w running]. intros HI Hev. cbn in Hev. destruct (HI) as [Hi Hw]. cbn in Hi, Hw.
  assert (Hmv : ∀ w' : world, moved running w w' → ∃ s' ms, Some (w', running) = Some s' ∧
    vio_ok w s'.1 ms ∧ vio_inv s').
  { intros w' (ms & E & I). exists (w', running), ms. split; [done|]. split; [by apply evolved_ok|].
    split; [done|by eapply wevolved_wf]. }
  destruct ev as [ev|v g op|v k gpa size dir value|v vector|v]; cbn [vio_ev_ok] in Hev.
  - destruct (pt_event_ok ev w running HI Hev) as (w' & r' & ms & ? & ? & ?). by exists (w', r'), ms.
  - destruct Hev as [Hv Hg]. cbn [vio_step]. destruct (set_irqline_ok v g op w Hw Hv Hg) as (w' & ms & -> & E & Ep).
    apply Hmv. exists ms. by rewrite Ep.
  - destruct Hev as [Hv Hk]. destruct (vioapics_at v w Hw Hv) as (vs & _ & Hch). destruct (Hch k Hk) as [c Hc].
    destruct (mmio_access_ok v k gpa size dir value w c running Hw Hi Hv Hc) as (r & d & w' & ms & E & O & I).
    cbn [vio_step]. rewrite E. exists (w', running), ms. split; [done|]. split; [done|]. split; [done|apply O].
  - cbn [vio_step]. destruct (broadcast_eoi_ok v vector w running Hw Hi Hev) as (w' & -> & M). by apply Hmv.
  - cbn [vio_step]. destruct (reset_ok v w Hw Hev) as (w' & -> & O & Ep).
    exists (w', running), []. split; [done|]. split; [done|]. split; cbn; [by rewrite Ep|apply O].
Qed.

Lemma vio_run_ok l : ∀ s, vio_inv s → all_held s.1 → Forall (vio_ev_ok (length (pt_vms (pt s.1)))) l →
  ∃ s', vio_run l s = Some s' ∧ vio_inv s' ∧ all_held s'.1 ∧ pt_vms (pt s'.1) = pt_vms (pt s.1).
Proof.
  induction l as [|ev l IH]; intros s Hi Hh Hl; cbn [vio_run]; [by exists s|].
  apply Forall_cons in Hl as [Hev Hl]. destruct (vio_step_ok ev s Hi Hev) as (s1 & ms & -> & O & I1).
  cbn [mbind option_bind].
  destruct (IH s1 I1 (vo_held _ _ _ O Hh)) as (s2 & E2 & I2 & H2 & V2); [by rewrite (vo_vms _ _ _ O)|].
  exists s2. split; [done|]. split; [done|]. split; [done|]. by rewrite V2, (vo_vms _ _ _ O).
Qed.

(** ** From boot *)

Definition zero_chip : acrn_single_vioapic := mk_vioapic (mk_ioapic_info 0 0 0 0) 0 (replicate 120 0) [0; 0].
Definition zero_vioapics : acrn_vioapics := mk_vioapics 0 0 [zero_chip] VPIC_WIRE_INTR.

(** [vioapic_init] of every VM. *)
Definition vio_boot (vms : list pt_vm) (q : Irq.irqs) : option world :=
  l ← mapM (λ x, init_vioapics (vioapic_infos (service x)) zero_vioapics) vms;
  Some (mk_world l (pt_boot vms q) []).

Lemma zero_chip_wf i : 0 ≤ nr_pins i ≤ REDIR_ENTRIES_HW ∧ 0 ≤ gsi_base i → chip_wf (zero_chip⟨chipinfo := i⟩).
Proof. intros [Hn Hg]. split; try done. by apply (bool_decide_unpack _). Qed.

Lemma infos_ok b : (length (vioapic_infos b) ≤ 1)%nat ∧
  ∀ i, i ∈ vioapic_infos b → 0 ≤ nr_pins i ≤ REDIR_ENTRIES_HW ∧ 0 ≤ gsi_base i.
Proof.
  destruct b; cbn [vioapic_infos]; [split; [apply il_num|apply il_pins]|].
  split; [done|]. intros i ->%list_elem_of_singleton. done.
Qed.

(** The chip of a VM after its start: every pin is masked. *)
Definition vm_started (vs : acrn_vioapics) : Prop :=
  0 ≤ ioapic_num vs ≤ 1 ∧ ∃ c, vioapic_array vs = [c] ∧ chip_wf c ∧
    ∀ pin, in_range c pin → rtbl c !! Z.to_nat pin = Some MASK_ALL_INTERRUPTS.

Lemma init_ok b : ∃ vs, init_vioapics (vioapic_infos b) zero_vioapics = Some vs ∧ vm_started vs.
Proof.
  destruct (infos_ok b) as [Hlen Hi]. unfold init_vioapics.
  destruct (vioapic_infos b) as [|i [|i' l]]; [| |cbn in Hlen; lia]; cbn [init_chips mbind option_bind vioapic_array zero_vioapics].
  - eexists. split; [done|]. split; [done|]. exists zero_chip. split; [done|].
    split; [by apply (zero_chip_wf (mk_ioapic_info 0 0 0 0))|]. intros pin Hp. unfold in_range in Hp. cbn in Hp. lia.
  - eexists. split; [done|]. split; [done|]. eexists. split; [done|].
    pose proof (zero_chip_wf i (Hi i ltac:(left))) as Hz. split; [by apply reset_one_ok|].
    intros pin Hp. by apply reset_one_ok.
Qed.

Lemma boot_world_ok vms q : boot_ok q →
  ∃ w, vio_boot vms q = Some w ∧ vio_inv (w, false) ∧ all_held w ∧ pt_vms (pt w) = vms.
Proof.
  intros Hq. unfold vio_boot.
  assert (∃ l, mapM (λ x, init_vioapics (vioapic_infos (service x)) zero_vioapics) vms = Some l ∧
    length l = length vms ∧ Forall vm_started l) as (l & -> & Hlen & Hl).
  { clear Hq q. induction vms as [|x vms (l & E & Hlen & Hl)]; [by exists []|].
    destruct (init_ok (service x)) as (vs & Ei & Hs). exists (vs :: l). cbn. rewrite Ei. cbn. rewrite E.
    split; [done|]. split; [by rewrite <- Hlen|by constructor]. }
  cbn [mbind option_bind]. eexists. split; [done|]. set (w := mk_world _ _ _).
  assert (Hat : ∀ v k c, chip_at v k w = Some c → chip_wf c ∧
    ∀ pin, in_range c pin → rtbl c !! Z.to_nat pin = Some MASK_ALL_INTERRUPTS).
  { intros v k c. unfold chip_at. cbn [vioapics w]. destruct (l !! v) as [vs|] eqn:Ev; [|done]. cbn.
    destruct (Forall_lookup_1 _ _ _ _ Hl Ev) as (_ & c0 & -> & Hc0). by intros [_ ->]%list_lookup_singleton_Some. }
  split; [split|split; [|done]].
  - apply (boot_inv vms q Hq).
  - split; [done| |intros v k c Hk; by apply (Hat v k c)]. intros v vs Hv.
    destruct (Forall_lookup_1 _ _ _ _ Hl Hv) as (Hn & c0 & -> & _). done.
  - intros v k c pin _ Hk Hp r Hr Hm. rewrite (proj2 (Hat v k c Hk) pin Hp) in Hr.
    destruct (masked_all r); [congruence|lia].
Qed.

Definition vio_reachable (vms : list pt_vm) (q : Irq.irqs) (s : world * bool) : Prop :=
  ∃ l w, Forall (vio_ev_ok (length vms)) l ∧ vio_boot vms q = Some w ∧ vio_run l (w, false) = Some s.

Lemma vio_reachable_inv vms q s : boot_ok q → vio_reachable vms q s → vio_inv s ∧ pt_vms (pt s.1) = vms.
Proof.
  intros Hq (l & w & Hl & Hb & Hr). destruct (boot_world_ok vms q Hq) as (w0 & Hb0 & HI & Hh & Hv).
  rewrite Hb in Hb0. injection Hb0 as <-. rewrite <- Hv in Hl.
  destruct (vio_run_ok l (w, false) HI Hh Hl) as (s' & Hr' & HI' & _ & Hv').
  rewrite Hr in Hr'. injection Hr' as <-. split; [done|]. by rewrite Hv'.
Qed.

(** ** Theorems *)

(** C11: level-triggered interrupts are held.  No sequence of passthrough events, line changes,
    guest accesses, ends of interrupt and resets fails from boot; and in the state it reaches, in
    every VM whose local APIC is emulated, each pin that is unmasked, level-triggered and
    asserted in the polarity of its entry has Remote IRR set: its interrupt is with the local
    APIC and has not been ended, so no asserted line is forgotten. *)
Theorem vioapic_level_held vms q l : boot_ok q → Forall (vio_ev_ok (length vms)) l →
  ∃ w0 s, vio_boot vms q = Some w0 ∧ vio_run l (w0, false) = Some s ∧
    ∀ v k c pin, is_lapic_pt_configured v = false → chip_at v k s.1 = Some c → in_range c pin →
      held_at c pin.
Proof.
  intros Hq Hl. destruct (boot_world_ok vms q Hq) as (w & Hb & HI & Hh & Hv).
  destruct (vio_run_ok l (w, false) HI Hh) as (s & Hr & _ & Hh' & _); [by rewrite <- Hv in Hl|].
  by exists w, s.
Qed.

(** C13: what the chips send.  In a reachable state every event is handled, and each message that
    it sends to a local APIC has the vector, destination and modes of an unmasked pin of the VM
    that it is sent to; and Remote IRR of a pin of a VM with an emulated local APIC is set only
    together with the message of that pin. *)
Theorem vioapic_messages_sound vms q s ev : boot_ok q → vio_reachable vms q s → vio_ev_ok (length vms) ev →
  ∃ s' ms, vio_step ev s = Some s' ∧ msgs s'.1 = msgs s.1 ++ ms ∧
    (∀ m, m ∈ ms → from_chips s'.1 m) ∧
    (∀ v k c c' pin rte rte', is_lapic_pt_configured v = false →
      chip_at v k s.1 = Some c → chip_at v k s'.1 = Some c' → in_range c' pin →
      rtbl c !! Z.to_nat pin = Some rte → rtbl c' !! Z.to_nat pin = Some rte' →
      rte_remote_irr rte = 0 → rte_remote_irr rte' = 1 → msg_of v rte' ∈ ms).
Proof.
  intros Hq Hr Hev. destruct (vio_reachable_inv vms q s Hq Hr) as [HI Hv]. rewrite <- Hv in Hev.
  destruct (vio_step_ok ev s HI Hev) as (s' & ms & E & [] & _). exists s', ms. by split_and!.
Qed.

(** *** One interrupt of a passthrough pin *)

Lemma intx_sid_fields g ctlr : 0 ≤ g < 2 ^ 32 → 0 ≤ ctlr < 2 ^ 32 →
  sid_gsi (INTX_SID g ctlr) = g ∧ sid_ctlr (INTX_SID g ctlr) = ctlr.
Proof.
  intros Hg Hc. unfold sid_gsi, sid_ctlr, field, INTX_SID, u32. rewrite !Z.mod_small by done.
  rewrite !Z.land_ones by lia. rewrite Z.shiftr_0_r, Z.shiftr_lor, Z.shiftr_shiftl_l by lia.
  assert (Hs : Z.shiftr ctlr 32 = 0) by (rewrite Z.shiftr_div_pow2 by lia; by apply Z.div_small).
  rewrite Hs, Z.lor_0_l. cbn [Z.sub]. split.
  - change (32 - 32) with 0. rewrite Z.shiftl_0_r. by apply Z.mod_small.
  - rewrite <- Z.land_ones, Z.land_lor_distr_l, !Z.land_ones by lia.
    rewrite Z.shiftl_mul_pow2, Z.mod_mul, Z.lor_0_r by lia. by apply Z.mod_small.
Qed.

Definition level_op (l : bool) : gsi_op := if l then GSI_SET_HIGH else GSI_SET_LOW.

(** A line that is set to the level [l], given what it does to the chip. *)
Lemma set_level_ok v g k pin (l : bool) w c c' ms : vio_wf w → vgsi_to_vioapic_and_vpin v g w = (k, pin) →
  chip_at v k w = Some c → in_range c pin →
  vioapic_set_pinstate v pin (if l then 1 else 0) c = Some (c', ms) →
  ∃ w', vioapic_set_irqline_nolock v g (level_op l) w = Some w' ∧ wevolved w w' ms ∧ pt w' = pt w ∧
    chip_at v k w' = Some c'.
Proof.
  intros Hw Hg Hk Hp Hs. destruct (set_pinstate_ok v pin l c (vw_chip w Hw v k c Hk) (proj1 Hp)) as (c0 & ms0 & Hs0 & He & Hf).
  rewrite Hs in Hs0. injection Hs0 as <- <-.
  destruct (on_chip_ok v k _ w c c' ms Hw Hk Hs He Hf) as (w' & Hw' & E & Ep & Hk' & _).
  exists w'. unfold vioapic_set_irqline_nolock. rewrite Hg. by destruct l.
Qed.

(** The chip when a pin has been asserted, and when it has been released. *)
Lemma assert_pin v pin l c rte wd : in_range c pin → rtbl c !! Z.to_nat pin = Some rte →
  pin_state c !! pin_word pin = Some wd → word 64 wd → 0 ≤ pin &&& 0x3F < 64 →
  rte_intr_mask rte = 0 → rte_trigger_mode rte = 1 → rte_remote_irr rte = 0 →
  asserted rte l = true → line c pin = negb l →
  vioapic_set_pinstate v pin (if l then 1 else 0) c =
    Some (with_irr 1 pin rte (with_line pin l wd c), [msg_of v rte]).
Proof.
  intros Hp Hr Hk Hw Hb Hm Ht Hi Ha Hl. rewrite (set_pinstate_eq v pin l c rte wd) by done.
  rewrite Ha, Hl. replace (Bool.eqb (negb l) l) with false by (by destruct l). cbn [negb andb].
  rewrite (generate_eq v pin _ rte) by done. by rewrite Hm, Ht, Hi.
Qed.

Lemma release_pin v pin l c rte wd : in_range c pin → rtbl c !! Z.to_nat pin = Some rte →
  pin_state c !! pin_word pin = Some wd → word 64 wd → 0 ≤ pin &&& 0x3F < 64 → asserted rte l = false →
  vioapic_set_pinstate v pin (if l then 1 else 0) c = Some (with_line pin l wd c, []).
Proof.
  intros Hp Hr Hk Hw Hb Ha. rewrite (set_pinstate_eq v pin l c rte wd) by done. by rewrite Ha.
Qed.

(** The pins that an end of interrupt does not touch. *)
Definition idle (vector : Z) (c : acrn_single_vioapic) (p : Z) : Prop :=
  ∃ r, rtbl c !! Z.to_nat p = Some r ∧ (rte_vector r ≠ vector ∨ rte_remote_irr r = 0).

Lemma idle_test vector r : rte_vector r ≠ vector ∨ rte_remote_irr r = 0 →
  negb (rte_vector r =? vector) || (rte_remote_irr r =? 0) = true.
Proof. intros [H|H]; apply orb_true_iff; [left|right; by apply Z.eqb_eq]. by apply negb_true_iff, Z.eqb_neq. Qed.

Lemma eoi_acks_idle v k vector w c pins : chip_at v k w = Some c → Forall (idle vector c) pins →
  ∀ post, eoi_acks v k vector (pins ++ post) w = eoi_acks v k vector post w.
Proof.
  intros Hk Hl post. induction Hl as [|p pins (r & Hr & Hi) Hl IH]; [done|]. cbn [eoi_acks app].
  unfold eoi_ack at 1. rewrite Hk. cbn [mbind option_bind]. rewrite Hr. cbn [mbind option_bind].
  rewrite (idle_test _ _ Hi). by cbn [mbind option_bind].
Qed.

Lemma eoi_loop_idle v vector c pins : Forall (idle vector c) pins →
  ∀ post, eoi_loop v vector (pins ++ post) c = eoi_loop v vector post c.
Proof.
  intros Hl post. induction Hl as [|p pins (r & Hr & Hi) Hl IH]; [done|]. cbn [eoi_loop app].
  rewrite Hr. cbn [mbind option_bind]. by rewrite (idle_test _ _ Hi).
Qed.

Lemma pins_split c pin : in_range c pin →
  pins_of c = seqZ 0 pin ++ pin :: seqZ (pin + 1) (nr_pins (chipinfo c) - pin - 1).
Proof.
  intros Hp. unfold in_range in Hp. unfold pins_of.
  replace (nr_pins (chipinfo c)) with (pin + (1 + (nr_pins (chipinfo c) - pin - 1))) at 1 by lia.
  rewrite seqZ_app by lia. f_equal. rewrite seqZ_app by lia. reflexivity.
Qed.

(** The turn of the softirq that takes the entry at the head of the queue. *)
Lemma head_turn i e v rest tm tickrate ticks Q st : as_wf st → softirq_dev_entry_list st = i :: rest →
  ptirq_entries st !! i = Some e → active e = true → vm e = Some v → tobj (cpu_timers st) !! i = Some tm →
  is_service_vm st (Some v) || (timer_expired tm (ticks O)).1 = true →
  @ptirq_softirq_turn Q tickrate ticks st =
    Some (true, st⟨softirq_dev_entry_list := rest⟩⟨effects := effects st ++ @ptirq_inject Q v i e⟩).
Proof.
  intros Hw Hq He Ha Hv Ht Hd. unfold ptirq_softirq_turn, ptirq_dequeue_softirq. rewrite Hq. cbn [dequeue_loop].
  change (ptirq_entries st⟨softirq_dev_entry_list := rest⟩) with (ptirq_entries st). rewrite He. cbn [mbind option_bind].
  change (cpu_timers st⟨softirq_dev_entry_list := rest⟩) with (cpu_timers st). rewrite Ht. cbn [mbind option_bind].
  change (is_service_vm st⟨softirq_dev_entry_list := rest⟩ (vm e)) with (is_service_vm st (vm e)). rewrite Hv, Hd.
  cbn [mbind option_bind].
  change (ptirq_entries st⟨softirq_dev_entry_list := rest⟩) with (ptirq_entries st). rewrite He. cbn [mbind option_bind].
  rewrite Ha, Hv. done.
Qed.

(** A passthrough pin in use: the entry [e] of the VM [v] is active for the GSI [g] of its virtual
    I/O APIC, which is the pin [pin] of its chip, and the guest has the pin unmasked and
    level-triggered, with the polarity that the entry was given when it was. *)
Record level_pin (w : world) (i : nat) (e : ptirq_remapping_info) (v : nat) (g pin : Z)
    (c : acrn_single_vioapic) (rte : Z) : Prop := {
  lp_entry : ptirq_entries (pt w) !! i = Some e;
  lp_active : active e = true;
  lp_type : intr_type e = PTDEV_INTR_INTX;
  lp_vm : vm e = Some v;
  lp_sid : virt_sid e = INTX_SID g INTX_CTLR_IOAPIC;
  lp_gsi : 0 ≤ g < 2 ^ 32;
  lp_at : vgsi_to_vioapic_and_vpin v g w = (0%nat, pin);
  lp_num : ioapic_num <$> vioapics w !! v = Some 1;
  lp_chip : chip_at v 0 w = Some c;
  lp_range : in_range c pin;
  lp_base : u32 (gsi_base (chipinfo c) + pin) = g;
  lp_rte : rtbl c !! Z.to_nat pin = Some rte;
  lp_mask : rte_intr_mask rte = 0;
  lp_level : rte_trigger_mode rte = 1;
  lp_polarity : polarity e = rte_intr_polarity rte;
}.

(** The level of the line that is active. *)
Definition active_level (rte : Z) : bool := negb (rte_intr_polarity rte =? 1).

Lemma asserted_level rte l : asserted rte l = Bool.eqb l (active_level rte).
Proof. unfold asserted, active_level. by destruct (_ =? 1), l. Qed.

Lemma polarity_ops rte :
  (if nonzero (rte_intr_polarity rte) then GSI_SET_LOW else GSI_SET_HIGH) = level_op (active_level rte) ∧
  (if nonzero (rte_intr_polarity rte) then GSI_SET_HIGH else GSI_SET_LOW) = level_op (negb (active_level rte)).
Proof. unfold active_level, rte_intr_polarity. by destruct (field_bit 13 rte) as [-> | ->]. Qed.

Lemma inject_level w i e v g pin c rte : level_pin w i e v g pin c rte →
  @ptirq_inject (world_platform w) v i e =
    [Vioapic_set_irqline v g (level_op (active_level rte)); Handle_x86_tee_int i].
Proof.
  intros [_ _ Ht _ Hs Hg Hat _ Hc _ _ Hr _ Hl Hpol]. unfold ptirq_inject, ptirq_handle_intx.
  rewrite Ht, Z.eqb_refl, Hs, Hpol.
  destruct (intx_sid_fields g INTX_CTLR_IOAPIC Hg ltac:(done)) as [-> ->]. rewrite Z.eqb_refl.
  unfold vioapic_get_rte, world_platform, vioapic_rte. rewrite Hat, Hc. rewrite (nth_lookup_Some _ _ _ _ Hr).
  change (field 15 1 rte) with (rte_trigger_mode rte). rewrite Hl. cbn [Z.eqb Pos.eqb app].
  by rewrite (proj1 (polarity_ops rte)).
Qed.

(** The softirq asserts the line, and the chip sends its interrupt. *)
Lemma softirq_asserts w i e v g pin c rte rest tm tickrate ticks : vio_inv (w, true) →
  level_pin w i e v g pin c rte → softirq_dev_entry_list (pt w) = i :: rest →
  tobj (cpu_timers (pt w)) !! i = Some tm →
  is_service_vm (pt w) (Some v) || (timer_expired tm (ticks O)).1 = true →
  rte_remote_irr rte = 0 → asserted rte (line c pin) = false →
  ∃ w1 wd, vio_step (Vio_pt (Ev_turn tickrate ticks)) (w, true) = Some (w1, true) ∧
    wevolved w w1 [msg_of v rte] ∧
    pt w1 = (pt w)⟨softirq_dev_entry_list := rest⟩⟨effects := effects (pt w) ++
      [Vioapic_set_irqline v g (level_op (active_level rte)); Handle_x86_tee_int i]⟩ ∧
    pin_state c !! pin_word pin = Some wd ∧ word 64 wd ∧ 0 ≤ pin &&& 0x3F < 64 ∧
    chip_at v 0 w1 = Some (with_irr 1 pin rte (with_line pin (active_level rte) wd c)).
Proof.
  intros [Hi Hw] LP Hq Ht Hd Hirr Hl. cbn in Hi, Hw. cbn [vio_step pt_step].
  rewrite (head_turn i e v rest tm) by (done || apply LP || apply Hi). rewrite (inject_level w i e v g pin c rte LP).
  set (effs := [_; _]). set (st := upd effects _ _). cbn [mbind option_bind].
  rewrite (effects_dropped (pt w) st effs eq_refl).
  assert (Hw0 : vio_wf w⟨pt := st⟩) by (by eapply wevolved_wf, with_pt_evolved).
  destruct LP as [_ _ _ _ _ _ Hat _ Hc Hp _ Hr Hm Hlv _]. destruct (word_at c pin (vw_chip w Hw v 0 c Hc) Hp) as (wd & Hk & Hww & Hb).
  rewrite asserted_level in Hl. set (l := active_level rte) in *.
  destruct (set_level_ok v g 0 pin l w⟨pt := st⟩ c (with_irr 1 pin rte (with_line pin l wd c)) [msg_of v rte])
    as (w1 & E1 & Ev & Ep & Hk1); try done.
  { apply assert_pin; try done; [rewrite asserted_level; apply Bool.eqb_reflx|]. by destruct (line c pin), l. }
  cbn [drive_lines effs]. rewrite E1. cbn [mbind option_bind]. exists w1, wd. split; [done|]. split; [|done].
  by apply (wevolved_trans w w⟨pt := st⟩ w1 [] [msg_of v rte]); [..|apply with_pt_evolved|].
Qed.

Lemma release_level rte : asserted rte (negb (active_level rte)) = false.
Proof. rewrite asserted_level. by destruct (active_level rte). Qed.

(** The acknowledgement releases the line and unmasks the physical pin. *)
Lemma ack_releases w i e v g pin c rte : vio_wf w → as_wf (pt w) → level_pin w i e v g pin c rte →
  rte_remote_irr rte = 1 →
  ∃ w' wd, eoi_ack v 0 (rte_vector rte) pin w = Some w' ∧ wevolved w w' [] ∧
    effects (pt w') = effects (pt w) ++
      [Vioapic_set_irqline v g (level_op (negb (active_level rte))); Ioapic_gsi_unmask_irq (allocated_pirq e)] ∧
    pin_state c !! pin_word pin = Some wd ∧ word 64 wd ∧ 0 ≤ pin &&& 0x3F < 64 ∧
    chip_at v 0 w' = Some (with_line pin (negb (active_level rte)) wd c).
Proof.
  intros Hw Hpt LP Hi. unfold eoi_ack. rewrite (lp_chip _ _ _ _ _ _ _ _ LP). cbn [mbind option_bind].
  rewrite (lp_rte _ _ _ _ _ _ _ _ LP). cbn [mbind option_bind]. rewrite Z.eqb_refl, Hi. cbn [negb orb Z.eqb].
  rewrite (lp_base _ _ _ _ _ _ _ _ LP). unfold call_pt, ptirq_intx_ack.
  rewrite <- (lp_sid _ _ _ _ _ _ _ _ LP).
  rewrite (find_pin_holder i e v) by (done || apply LP). cbn [mbind option_bind].
  rewrite (lp_entry _ _ _ _ _ _ _ _ LP). cbn [mbind option_bind]. rewrite Z.eqb_refl, (lp_polarity _ _ _ _ _ _ _ _ LP).
  rewrite (proj2 (polarity_ops rte)). set (l := negb (active_level rte)).
  set (st := Ptdev.emit _ _). set (effs := [Vioapic_set_irqline v g (level_op l); Ioapic_gsi_unmask_irq (allocated_pirq e)]).
  assert (Ee : effects st = effects (pt w) ++ effs) by (cbn; by rewrite <- app_assoc).
  rewrite (effects_dropped (pt w) st effs Ee).
  assert (E0 : wevolved w w⟨pt := st⟩ []) by (by apply with_pt_evolved).
  destruct LP as [_ _ _ _ _ _ Hat _ Hc Hp _ Hr _ _ _].
  destruct (word_at c pin (vw_chip w Hw v 0 c Hc) Hp) as (wd & Hk & Hww & Hb).
  destruct (set_level_ok v g 0 pin l w⟨pt := st⟩ c (with_line pin l wd c) []) as (w1 & E1 & Ev & Ep & Hk1); try done.
  { by eapply wevolved_wf. }
  { apply (release_pin v pin l c rte wd); try done. apply release_level. }
  cbn [drive_lines effs]. rewrite E1. cbn [mbind option_bind]. exists w1, wd. split; [done|].
  split; [by apply (wevolved_trans w w⟨pt := st⟩ w1 [] [])|]. by rewrite Ep.
Qed.

(** The second loop clears Remote IRR of the pin, and sends nothing when the line is released. *)
Lemma eoi_clears v vector pin rte c : chip_wf c → in_range c pin → rtbl c !! Z.to_nat pin = Some rte →
  rte_vector rte = vector → rte_remote_irr rte = 1 → asserted rte (line c pin) = false →
  (∀ p, in_range c p → p ≠ pin → idle vector c p) →
  eoi_loop v vector (pins_of c) c = Some (with_irr 0 pin rte c, []).
Proof.
  intros Hw Hp Hr Hv Hi Ha Hidle. rewrite (pins_split c pin Hp).
  assert (Hoth : ∀ p, p ∈ seqZ 0 pin ∨ p ∈ seqZ (pin + 1) (nr_pins (chipinfo c) - pin - 1) →
    in_range c p ∧ p ≠ pin).
  { intros p. unfold in_range in *. rewrite !elem_of_seqZ. lia. }
  rewrite eoi_loop_idle.
  2: { apply Forall_forall. intros p Hp'. destruct (Hoth p); auto. }
  cbn [eoi_loop]. rewrite Hr. cbn [mbind option_bind]. rewrite Hv, Z.eqb_refl, Hi. cbn [negb orb Z.eqb].
  fold (with_irr 0 pin rte c).
  assert (Hr1 : rtbl (with_irr 0 pin rte c) !! Z.to_nat pin = Some (set_remote_irr 0 rte)).
  { cbn. apply list_lookup_insert_eq. by eapply lookup_lt_Some. }
  rewrite (need_intr_eq _ pin (set_remote_irr 0 rte)) by (try done; by apply with_irr_wf). cbn [mbind option_bind].
  destruct (alike_fields rte _ (set_alike 0 rte)) as (_ & _ & Ep & _ & _).
  replace (asserted (set_remote_irr 0 rte) _) with false by (unfold asserted in *; by rewrite Ep).
  cbn [mbind option_bind].
  rewrite <- (app_nil_r (seqZ (pin + 1) _)), eoi_loop_idle; [done|].
  apply Forall_forall. intros p Hp'. destruct (Hoth p) as [Hin Hne]; [by right|].
  destruct (Hidle p Hin Hne) as (r & Hrp & Hid). exists r. split; [|done]. cbn.
  by rewrite list_lookup_insert_ne by (apply pins_differ; [apply Hp|apply Hin|done]).
Qed.

(** The end of interrupt of a level-triggered passthrough pin. *)
Lemma eoi_releases w i e v g pin c rte : vio_wf w → as_wf (pt w) → level_pin w i e v g pin c rte →
  rte_remote_irr rte = 1 → (∀ p, in_range c p → p ≠ pin → idle (rte_vector rte) c p) →
  ∃ w' c', vioapic_broadcast_eoi v (rte_vector rte) w = Some w' ∧ msgs w' = msgs w ∧
    effects (pt w') = effects (pt w) ++
      [Vioapic_set_irqline v g (level_op (negb (active_level rte))); Ioapic_gsi_unmask_irq (allocated_pirq e)] ∧
    chip_at v 0 w' = Some c' ∧ rtbl c' !! Z.to_nat pin = Some (set_remote_irr 0 rte) ∧
    line c' pin = negb (active_level rte).
Proof.
  intros Hw Hpt LP Hi Hidle.
  destruct (ack_releases w i e v g pin c rte Hw Hpt LP Hi) as (w1 & wd & Ea & Ev1 & Ef & Hk & Hww & Hb & Hk1).
  destruct LP as [_ _ _ _ _ _ _ Hn Hc Hp _ Hr _ _ _]. set (l := negb (active_level rte)) in *.
  set (c1 := with_line pin l wd c) in *. pose proof (wevolved_wf _ _ _ Hw Ev1) as Hw1.
  destruct (with_line_ok pin l wd c (vw_chip w Hw v 0 c Hc) Hp Hk Hww Hb) as [Hwc1 Hl1].
  unfold vioapic_broadcast_eoi. destruct (vioapics w !! v) as [vs|] eqn:Hvs; [|done]. cbn in Hn |- *.
  injection Hn as ->. change (seq 0 (Z.to_nat 1)) with [0%nat]. cbn [eoi_chips].
  unfold vioapic_process_eoi. rewrite Hc. cbn [mbind option_bind].
  assert (Hoth : ∀ p, p ∈ seqZ 0 pin ∨ p ∈ seqZ (pin + 1) (nr_pins (chipinfo c) - pin - 1) → idle (rte_vector rte) c p).
  { intros p Hp'. apply Hidle; unfold in_range in *; rewrite !elem_of_seqZ in Hp'; lia. }
  rewrite (pins_split c pin Hp), (eoi_acks_idle v 0 _ w c) by (done || (apply Forall_forall; auto)).
  cbn [eoi_acks]. rewrite Ea. cbn [mbind option_bind].
  rewrite <- (app_nil_r (seqZ (pin + 1) _)), (eoi_acks_idle v 0 _ w1 c1)
    by (done || (apply Forall_forall; intros p Hp'; apply Hoth; by right)).
  cbn [eoi_acks mbind option_bind].
  assert (Hcl : eoi_loop v (rte_vector rte) (pins_of c1) c1 = Some (with_irr 0 pin rte c1, [])).
  { apply eoi_clears; try done. rewrite Hl1, decide_True by (done || apply Hp). apply release_level. }
  destruct (eoi_loop_ok v (rte_vector rte) (pins_of c1) c1 Hwc1 (pins_of_range c1)) as (c2 & ms & Hcl' & Ev & Hf).
  rewrite Hcl in Hcl'. injection Hcl' as <- <-.
  destruct (on_chip_ok v 0 (λ c, eoi_loop v (rte_vector rte) (pins_of c) c) w1 c1 _ [] Hw1 Hk1 Hcl Ev Hf)
    as (w2 & -> & E2 & Ep2 & Hk2 & _). cbn [mbind option_bind].
  exists w2, (with_irr 0 pin rte c1). split; [done|].
  split; [by rewrite (we_msgs _ _ _ E2), (we_msgs _ _ _ Ev1), !app_nil_r|]. split; [by rewrite Ep2|]. split; [done|].
  split; [cbn; apply list_lookup_insert_eq; by eapply lookup_lt_Some|].
  change (line (with_irr 0 pin rte c1) pin) with (line c1 pin). rewrite Hl1 by apply Hp. by rewrite decide_True.
Qed.

(** The pin stays in use when its interrupt has been sent. *)
Lemma level_pin_sent w w1 i e v g pin c c1 rte ms : level_pin w i e v g pin c rte → wevolved w w1 ms →
  ptirq_entries (pt w1) = ptirq_entries (pt w) → chip_at v 0 w1 = Some c1 → chipinfo c1 = chipinfo c →
  rtbl c1 !! Z.to_nat pin = Some (set_remote_irr 1 rte) → level_pin w1 i e v g pin c1 (set_remote_irr 1 rte).
Proof.
  intros [L1 L2 L3 L4 L5 L6 L7 L8 L9 L10 L11 L12 L13 L14 L15] Ev Ee Hk1 Hc1 Hr1.
  destruct (alike_fields rte _ (set_alike 1 rte)) as (Em & Et & Epol & _ & _). split; try done.
  - by rewrite Ee.
  - unfold vgsi_to_vioapic_and_vpin, is_service_vm in *. by rewrite (we_vms _ _ _ Ev).
  - unfold chip_at in Hk1. destruct (vioapics w1 !! v) as [vs1|] eqn:Hvs1; [|done].
    destruct (we_vs _ _ _ Ev v vs1 Hvs1) as (vs & Hvs & En & _). rewrite Hvs in L8. cbn in L8 |- *. by rewrite En.
  - unfold in_range. by rewrite Hc1.
  - by rewrite Hc1.
  - by rewrite Em.
  - by rewrite Et.
  - by rewrite Epol.
Qed.


(** *** What a guest reads back *)

Lemma alike_testbit x y i : alike x y → 0 ≤ i → i ≠ 14 → Z.testbit y i = Z.testbit x i.
Proof.
  intros Hxy Hi Hne. assert (H : ∀ z, Z.testbit (set_remote_irr 0 z) i = Z.testbit z i).
  { intros z. unfold set_remote_irr. rewrite set_field_testbit by lia.
    by replace ((14 <=? i) && (i <? 14 + 1)) with false by lia. }
  rewrite <- (H y), <- (H x). by rewrite Hxy.
Qed.

Lemma new_rte_testbit hi data last i : 0 ≤ i → i ≠ 14 → Z.testbit (new_rte hi data last) i =
  Z.testbit (if hi then set_field 32 32 data last
             else set_field 0 32 ((field 0 32 last &&& RTBL_RO_BITS) ||| (data &&& bnot 32 RTBL_RO_BITS)) last) i.
Proof.
  intros Hi Hne. unfold new_rte. destruct (rte_trigger_mode _ =? 0); [|done].
  by apply alike_testbit; [apply set_alike|..].
Qed.

(** The two halves of an entry that has been written, Remote IRR apart. *)
Lemma new_rte_halves (hi : bool) data last rte : word 32 data → alike (new_rte hi data last) rte →
  if hi then field 32 32 rte = data
  else set_remote_irr 0 (field 0 32 rte) =
       set_remote_irr 0 ((field 0 32 last &&& RTBL_RO_BITS) ||| (data &&& bnot 32 RTBL_RO_BITS)).
Proof.
  intros Hd Ha. set (x := (field 0 32 last &&& RTBL_RO_BITS) ||| (data &&& bnot 32 RTBL_RO_BITS)).
  assert (Hx : ∀ i, 32 ≤ i → Z.testbit x i = false).
  { intros i Hi. unfold x. rewrite Z.lor_spec, !Z.land_spec, field_testbit by lia.
    rewrite (word_testbit_high 32 data i) by (done || lia). replace (i <? 32) with false by lia.
    by rewrite andb_false_r. }
  destruct hi; apply Z.bits_inj'; intros i Hi.
  - rewrite field_testbit by lia. destruct (Z.ltb_spec i 32).
    + rewrite (alike_testbit _ _ _ Ha), new_rte_testbit, set_field_testbit by lia.
      replace ((32 <=? i + 32) && (i + 32 <? 32 + 32)) with true by lia.
      rewrite andb_true_r. f_equal. lia.
    + rewrite andb_false_r. by rewrite (word_testbit_high 32 data i) by (done || lia).
  - unfold set_remote_irr. rewrite !set_field_testbit, field_testbit by lia.
    destruct (decide (i = 14)) as [->|Hne]; [done|].
    replace ((14 <=? i) && (i <? 14 + 1)) with false by lia. rewrite Z.add_0_r.
    destruct (Z.ltb_spec i 32); [|by rewrite andb_false_r, Hx].
    rewrite (alike_testbit _ _ _ Ha), new_rte_testbit, set_field_testbit by lia.
    replace ((0 <=? i) && (i <? 0 + 32)) with true by lia. rewrite andb_true_r, Z.sub_0_r. done.
Qed.

(** The index of a half of an entry, as the guest selects it. *)
Definition rte_reg (pin : Z) (hi : bool) : Z := IOAPIC_REDTBL + 2 * pin + (if hi then 1 else 0).

Lemma rte_reg_ok pin hi c : chip_wf c → in_range c pin →
  rte_reg pin hi &&& 0xff = rte_reg pin hi ∧ u32 (rte_reg pin hi) = rte_reg pin hi ∧
  in_redtbl (rte_reg pin hi) (nr_pins (chipinfo c)) = true ∧
  Z.shiftr (rte_reg pin hi - IOAPIC_REDTBL) 1 = pin ∧
  nonzero ((rte_reg pin hi - IOAPIC_REDTBL) &&& 1) = hi.
Proof.
  intros Hw Hp. pose proof (cw_pins c Hw) as Hn. unfold in_range, in_redtbl, rte_reg, IOAPIC_REDTBL, REDIR_ENTRIES_HW in *.
  assert (H1 : ∀ x, x &&& 1 = x mod 2) by (intros x; apply (Z.land_ones x 1); lia).
  rewrite H1. change 0xff with (Z.ones 8). rewrite Z.land_ones by lia. unfold u32.
  rewrite !(Z.mod_small (16 + _ + _)) by (destruct hi; lia). rewrite Z.shiftr_div_pow2 by lia. change (2 ^ 1) with 2.
  replace (16 + 2 * pin + (if hi then 1 else 0) - 16) with ((if hi then 1 else 0) + pin * 2) by lia.
  rewrite Z.div_add, Z.mod_add by lia. split_and!; try done; destruct hi; try lia; done.
Qed.

Lemma mmio_offset a x : u32 (a + x - a) = u32 x.
Proof. f_equal. lia. Qed.

(** Selecting a register. *)
Lemma select_ok v k r w vs c : vio_wf w → vioapics w !! v = Some vs → vioapic_array vs !! k = Some c →
  u32 r = r → r &&& 0xff = r →
  let c1 := c⟨ioregsel := r⟩ in
  let vs1 := vs⟨vioapic_array := <[k := c1]> (vioapic_array vs)⟩ in
  let w1 := w⟨vioapics := <[v := vs1]> (vioapics w)⟩ in
  vioapic_mmio_access_handler v k (addr (chipinfo c)) 4 1 r w = Some (0, r, w1) ∧ vio_wf w1.
Proof.
  intros Hw Hvs Hk Hr1 Hr2 c1 vs1 w1. unfold vioapic_mmio_access_handler, vioapic_mmio_rw.
  assert (Hck : chip_at v k w = Some c) by (unfold chip_at; by rewrite Hvs).
  cbn [Z.eqb Pos.eqb]. rewrite Hck. cbn [mbind option_bind]. rewrite Z.sub_diag. cbn [Z.eqb].
  change (u32 0 =? IOAPIC_REGSEL) with true. cbn iota. rewrite Hr1, Hr2. fold c1.
  destruct (set_chip_step v k c c1 w Hw Hck) as (w' & Es & O & _).
  - destruct (vw_chip w Hw v k c Hck). by split.
  - intros _ pin Hp. split; [split; [|done]|done]. cbn. intros. congruence.
  - unfold set_chip in *. rewrite Hvs in *. cbn [mbind option_bind] in *. injection Es as <-. split; [done|apply O].
Qed.

(** Reading the selected half of an entry. *)
Lemma read_half_ok v k pin (hi : bool) w c rte : chip_wf c → in_range c pin → chip_at v k w = Some c →
  is_lapic_pt_configured v = false → ioregsel c = rte_reg pin hi → rtbl c !! Z.to_nat pin = Some rte →
  vioapic_mmio_access_handler v k (addr (chipinfo c) + 0x10) 4 0 0 w =
    Some (0, if hi then field 32 32 rte else field 0 32 rte, w).
Proof.
  intros Hw Hp Hk Hlap Hs Hr. destruct (rte_reg_ok pin hi c Hw Hp) as (R1 & _ & R3 & R4 & R5).
  unfold vioapic_mmio_access_handler, vioapic_mmio_rw. cbn [Z.eqb Pos.eqb].
  rewrite Hk. cbn [mbind option_bind]. rewrite mmio_offset.
  change (u32 16 =? IOAPIC_REGSEL) with false. change (u32 16 =? IOAPIC_WINDOW) with true. cbn iota.
  unfold vioapic_indirect_read. rewrite Hk, Hs. cbn [mbind option_bind]. rewrite R1, R3, R4, Hr.
  cbn [mbind option_bind]. rewrite R5, Hlap. by destruct hi.
Qed.

End runs.

(** ** Instances *)

#[local] Existing Instance demo_platform.

(** One I/O APIC with 24 pins. *)
Definition demo_ioapic : IoapicPlatform := {|
  get_gsi_to_ioapic_index := λ _, 0;
  gsi_to_ioapic_pin := λ g, g;
  get_platform_ioapic_info := [mk_ioapic_info 8 0xFEC00000 0 24] |}.

#[local] Existing Instance demo_ioapic.

Lemma demo_ioapic_laws : IoapicLaws.
Proof. split; [done|by intros i ->%list_elem_of_singleton|done]. Qed.

(** The Service VM unmasks pin 9, level-triggered with the vector 0x31; its interrupt arrives and
    the softirq begins. *)
Definition demo_vio_events : list vio_event :=
  [Vio_access 0 0 0xFEC00000 4 1 0x22; Vio_access 0 0 0xFEC00010 4 1 0x8031;
   Vio_pt (Ev_irq 40 9); Vio_pt Ev_softirq].

Definition demo_vio (l : list vio_event) : world * bool :=
  default (mk_world [] (pt_boot [] demo_irqs) [], false)
    (w ← vio_boot demo_vms demo_irqs; vio_run l (w, false)).

Definition vio_ev_check (ev : vio_event) : bool :=
  match ev with
  | Vio_pt (Ev_irq _ q) => 0 <=? q
  | Vio_pt Ev_softirq => true
  | Vio_line v g _ => (v <? 3)%nat && (0 <=? g)
  | Vio_access v k _ _ _ _ => (v <? 3)%nat && (k <? 1)%nat
  | Vio_eoi v _ | Vio_reset v => (v <? 3)%nat
  | _ => false
  end.

Lemma vio_ev_check_ok l : forallb vio_ev_check l = true → Forall (vio_ev_ok (length demo_vms)) l.
Proof.
  intros Hl. apply Forall_forall. intros ev Hev. rewrite forallb_forall in Hl.
  specialize (Hl ev (proj1 (list_elem_of_In _ _) Hev)).
  destruct ev as [[]| | | |]; try done; cbn [vio_ev_check vio_ev_ok] in *.
  - apply Z.leb_le in Hl. by split.
  - apply andb_prop in Hl as [H1%Nat.ltb_lt H2%Z.leb_le]. by split.
  - apply andb_prop in Hl as [H1%Nat.ltb_lt H2%Nat.ltb_lt]. by split.
  - by apply Nat.ltb_lt.
  - by apply Nat.ltb_lt.
Qed.

Lemma demo_vio_reachable l : forallb vio_ev_check l = true →
  is_Some (w ← vio_boot demo_vms demo_irqs; vio_run l (w, false)) →
  vio_reachable demo_vms demo_irqs (demo_vio l).
Proof.
  intros Hl [s Hs]. unfold demo_vio. rewrite Hs.
  destruct (vio_boot demo_vms demo_irqs) as [w|] eqn:Hb; [|done].
  exists l, w. split; [by apply vio_ev_check_ok|]. by split.
Qed.

Lemma vioapic_level_held_witness :
  ∃ w0 s, vio_boot demo_vms demo_irqs = Some w0 ∧
    vio_run (demo_vio_events ++ [Vio_line 1 5 GSI_SET_HIGH; Vio_eoi 0 0x31; Vio_reset 2]) (w0, false) = Some s ∧
    ∀ v k c pin, is_lapic_pt_configured v = false → chip_at v k s.1 = Some c → in_range c pin → held_at c pin.
Proof.
  apply (@vioapic_level_held _ _ demo_laws demo_ioapic_laws); [exact demo_boot_ok|]. by apply vio_ev_check_ok.
Defined.

Lemma vioapic_messages_sound_witness :
  let s := demo_vio demo_vio_events in
  ∃ s' ms, vio_step (Vio_line 0 9 GSI_SET_HIGH) s = Some s' ∧ msgs s'.1 = msgs s.1 ++ ms ∧
    (∀ m, m ∈ ms → from_chips s'.1 m) ∧
    (∀ v k c c' pin rte rte', is_lapic_pt_configured v = false →
      chip_at v k s.1 = Some c → chip_at v k s'.1 = Some c' → in_range c' pin →
      rtbl c !! Z.to_nat pin = Some rte → rtbl c' !! Z.to_nat pin = Some rte' →
      rte_remote_irr rte = 0 → rte_remote_irr rte' = 1 → msg_of v rte' ∈ ms).
Proof.
  apply (@vioapic_messages_sound _ _ demo_laws demo_ioapic_laws demo_vms demo_irqs).
  - exact demo_boot_ok.
  - apply demo_vio_reachable; [done|apply (bool_decide_unpack _); by vm_compute].
  - cbn. lia.
Defined.

(** The state after [demo_vio_events], the chip of the Service VM in it, and the entry of pin 9. *)
Definition demo_w : world := (demo_vio demo_vio_events).1.

Definition demo_chip : acrn_single_vioapic := default zero_chip (chip_at 0 0 demo_w).

Definition demo_pt_entry : ptirq_remapping_info := default zero_entry (ptirq_entries (pt demo_w) !! 0%nat).

Lemma demo_vio_events_reachable : vio_reachable demo_vms demo_irqs (demo_w, true).
Proof.
  replace (demo_w, true) with (demo_vio demo_vio_events) by (by vm_compute).
  apply demo_vio_reachable; [done|]. apply (bool_decide_unpack _). by vm_compute.
Qed.

Lemma demo_pin_range : in_range demo_chip 9.
Proof. unfold in_range. replace (nr_pins (chipinfo demo_chip)) with 24 by (by vm_compute). lia. Qed.

Definition idle_check (vector : Z) (c : acrn_single_vioapic) (pin p : Z) : bool :=
  (p =? pin) || match rtbl c !! Z.to_nat p with
                | Some r => negb (rte_vector r =? vector) || (rte_remote_irr r =? 0)
                | None => false
                end.

Lemma idle_check_ok vector c pin p : forallb (idle_check vector c pin) (seqZ 0 (nr_pins (chipinfo c))) = true →
  in_range c p → p ≠ pin → idle vector c p.
Proof.
  intros H Hp Hn. rewrite forallb_forall in H. specialize (H p). rewrite <- list_elem_of_In, elem_of_seqZ in H.
  specialize (H ltac:(unfold in_range in Hp; lia)). unfold idle_check in H.
  apply orb_true_iff in H as [?%Z.eqb_eq|H]; [done|]. destruct (rtbl c !! Z.to_nat p) as [r|] eqn:Hr; [|done].
  exists r. split; [done|]. apply orb_true_iff in H as [H|H%Z.eqb_eq]; [left|by right].
  by apply negb_true_iff, Z.eqb_neq in H.
Qed.


