(* ===== verification/X86Irq.v ===== *)
(** * Interrupt vectors of x86

    hypervisor/arch/x86/irq.c: the two tables that bind interrupt numbers to vectors, on top of
    the descriptors of [Irq]; request_irq and free_irq of common/irq.c with their architecture
    part.  CONFIG_MAX_VM_NUM, which is generated at build time, is a variable. *)

From S2P Require Import Prelude Bits Irq.
Import Irq.Irq.

#[local] Existing Instance x86_bitmap.

Definition NR_MAX_VECTOR : Z := 0xFF.
Definition VECTOR_INVALID : Z := NR_MAX_VECTOR + 1.
Definition VECTOR_DYNAMIC_START : Z := 0x20.
Definition VECTOR_DYNAMIC_END : Z := 0xDF.
Definition VECTOR_FIXED_START : Z := 0xE0.
Definition NR_STATIC_MAPPINGS_1 : Z := 3.

(** [irq_data] has the vector of each interrupt number, [gen] is the state of common/irq.c. *)
Record x86_irqs := mk_x86_irqs {
  irq_data : list Z;
  vector_to_irq : list Z;
  gen : irqs }.

#[export] Instance eta_x86_irqs : Eta x86_irqs :=
  { eta := rd mk_x86_irqs <*> irq_data <*> vector_to_irq <*> gen }.

(** The first of the vectors [vrs] that is free. *)
Fixpoint find_vector (vrs : list Z) (t : list Z) : option (option Z) :=
  match vrs with
  | [] => Some None
  | vr :: vrs' => i ← t !! Z.to_nat vr; if i =? IRQ_INVALID then Some (Some vr) else find_vector vrs' t
  end.

Definition bind_vector (i vr : Z) (x : x86_irqs) : x86_irqs :=
  x⟨irq_data := <[Z.to_nat i := vr]> (irq_data x)⟩⟨vector_to_irq := <[Z.to_nat vr := i]> (vector_to_irq x)⟩.

Definition alloc_irq_vector (i : Z) (x : x86_irqs) : option (x86_irqs * Z) :=
  if i <? NR_IRQS then
    vec ← irq_data x !! Z.to_nat i;
    if negb (vec =? VECTOR_INVALID) then
      j ← vector_to_irq x !! Z.to_nat vec;
      Some (x, if j =? i then vec else VECTOR_INVALID)
    else
      r ← find_vector (seqZ VECTOR_DYNAMIC_START (VECTOR_DYNAMIC_END - VECTOR_DYNAMIC_START + 1))
            (vector_to_irq x);
      match r with
      | Some vr => Some (bind_vector i vr x, vr)
      | None => Some (x, VECTOR_INVALID)
      end
  else Some (x, VECTOR_INVALID).

Definition free_irq_vector (i : Z) (x : x86_irqs) : option x86_irqs :=
  if i <? NR_IRQS then
    vr ← irq_data x !! Z.to_nat i;
    if vr <? VECTOR_FIXED_START then
      let x := x⟨irq_data := <[Z.to_nat i := VECTOR_INVALID]> (irq_data x)⟩ in
      if vr <=? NR_MAX_VECTOR then
        j ← vector_to_irq x !! Z.to_nat vr;
        Some (if j =? i then x⟨vector_to_irq := <[Z.to_nat vr := IRQ_INVALID]> (vector_to_irq x)⟩ else x)
      else Some x
    else Some x
  else Some x.

Definition irq_to_vector (i : Z) (x : x86_irqs) : option Z :=
  if i <? NR_IRQS then irq_data x !! Z.to_nat i else Some VECTOR_INVALID.

(** request_irq with request_irq_arch, which binds a vector to the number that was chosen. *)
Definition x86_request_irq (req_irq : Z) (action_fn : nat) (pd fl : Z) (x : x86_irqs)
    : option (x86_irqs * Z) :=
  '(_, i) ← alloc_irq_num req_irq false (gen x);
  '(x', vr) ← alloc_irq_vector i x;
  '(q, ret) ← request_irq (λ _, negb (vr =? VECTOR_INVALID)) req_irq action_fn pd fl (gen x);
  Some (x'⟨gen := q⟩, ret).

(** free_irq with free_irq_arch. *)
Definition x86_free_irq (i : Z) (x : x86_irqs) : option x86_irqs :=
  q ← free_irq i (gen x);
  x ← free_irq_vector i x;
  Some x⟨gen := q⟩.

Section init.
Variable CONFIG_MAX_VM_NUM : Z.

(** The timer, the notification of vCPUs, the performance counters, and the posted interrupts
    of the VMs. *)
Definition irq_static_mappings : list (Z * Z) :=
  [(NR_IRQS - 1, VECTOR_FIXED_START); (NR_IRQS - 2, VECTOR_FIXED_START + 1);
   (NR_IRQS - 3, VECTOR_FIXED_START + 2)] ++
  ((λ i, (NR_IRQS - NR_STATIC_MAPPINGS_1 - CONFIG_MAX_VM_NUM + i,
          VECTOR_FIXED_START + NR_STATIC_MAPPINGS_1 + i)) <$> seqZ 0 CONFIG_MAX_VM_NUM).

Fixpoint bind_static (l : list (Z * Z)) (x : x86_irqs) : option x86_irqs :=
  match l with
  | [] => Some x
  | (i, vr) :: l' =>
      '(q, _) ← reserve_irq_num i (gen x);
      bind_static l' (bind_vector i vr x)⟨gen := q⟩
  end.

Definition init_irq_descs_arch (q : irqs) : option x86_irqs :=
  bind_static irq_static_mappings
    (mk_x86_irqs (replicate (Z.to_nat NR_IRQS) VECTOR_INVALID)
                 (replicate (Z.to_nat (NR_MAX_VECTOR + 1)) IRQ_INVALID) q).
End init.

(** ** Well-formed tables *)

(** The two tables are inverse to each other. *)
Record vec_wf (x : x86_irqs) : Prop := {
  vw_data : length (irq_data x) = 256%nat;
  vw_table : length (vector_to_irq x) = 256%nat;
  vw_bound i vr : irq_data x !! i = Some vr → vr ≠ VECTOR_INVALID →
    VECTOR_DYNAMIC_START ≤ vr ≤ NR_MAX_VECTOR ∧ vector_to_irq x !! Z.to_nat vr = Some (Z.of_nat i);
  vw_back vr i : vector_to_irq x !! vr = Some i → i ≠ IRQ_INVALID →
    0 ≤ i < NR_IRQS ∧ irq_data x !! Z.to_nat i = Some (Z.of_nat vr);
}.

(** An interrupt with an action is allocated and has a vector. *)
Record x86_wf (x : x86_irqs) : Prop := {
  xw_vec : vec_wf x;
  xw_gen : irqs_wf (gen x);
  xw_desc i d : irq_desc_array (gen x) !! i = Some d → irq d = Z.of_nat i;
  xw_action i d : irq_desc_array (gen x) !! i = Some d → action d ≠ None →
    allocated (gen x) (Z.of_nat i) ∧ ∃ vr, irq_data x !! i = Some vr ∧ vr ≠ VECTOR_INVALID;
}.

Lemma data_at x i : vec_wf x → 0 ≤ i < NR_IRQS → ∃ vr, irq_data x !! Z.to_nat i = Some vr.
Proof.
  intros Hw Hi. apply lookup_lt_is_Some. rewrite (vw_data x Hw). unfold NR_IRQS in Hi. lia.
Qed.

Lemma bind_data i vr j x : vec_wf x → 0 ≤ i < NR_IRQS →
  irq_data (bind_vector i vr x) !! j = if decide (j = Z.to_nat i) then Some vr else irq_data x !! j.
Proof.
  intros Hw Hi. unfold NR_IRQS in Hi. cbn. case_decide as E.
  - subst. apply list_lookup_insert_eq. rewrite (vw_data x Hw). lia.
  - by apply list_lookup_insert_ne.
Qed.

Lemma bind_table i vr w x : vec_wf x → 0 ≤ vr ≤ NR_MAX_VECTOR →
  vector_to_irq (bind_vector i vr x) !! w = if decide (w = Z.to_nat vr) then Some i else vector_to_irq x !! w.
Proof.
  intros Hw Hv. unfold NR_MAX_VECTOR in Hv. cbn. case_decide as E.
  - subst. apply list_lookup_insert_eq. rewrite (vw_table x Hw). lia.
  - by apply list_lookup_insert_ne.
Qed.

(** Binding a number without a vector to a vector that is free. *)
Lemma bind_ok i vr x : vec_wf x → 0 ≤ i < NR_IRQS → VECTOR_DYNAMIC_START ≤ vr ≤ NR_MAX_VECTOR →
  irq_data x !! Z.to_nat i = Some VECTOR_INVALID → vector_to_irq x !! Z.to_nat vr = Some IRQ_INVALID →
  vec_wf (bind_vector i vr x).
Proof.
  intros Hw Hi Hv Hd Ht. assert (Hv' : 0 ≤ vr ≤ NR_MAX_VECTOR) by (unfold VECTOR_DYNAMIC_START in Hv; lia).
  split.
  - cbn. rewrite length_insert. apply Hw.
  - cbn. rewrite length_insert. apply Hw.
  - intros j u. rewrite bind_data, bind_table by done. case_decide as Ej.
    + intros [= <-] _. rewrite decide_True by done. split; [done|]. f_equal. lia.
    + intros Hj Hu. destruct (vw_bound x Hw j u Hj Hu) as [Hr Hb]. split; [done|].
      rewrite decide_False; [done|]. intros Eu. rewrite Eu, Ht in Hb. unfold IRQ_INVALID in Hb.
      apply lookup_lt_Some in Hj. rewrite (vw_data x Hw) in Hj. injection Hb. lia.
  - intros u j. rewrite bind_table by done. case_decide as Eu.
    + intros [= <-] _. split; [done|]. rewrite bind_data, decide_True by done. f_equal. lia.
    + intros Hu Hj. destruct (vw_back x Hw u j Hu Hj) as [Hr Hb]. split; [done|].
      rewrite bind_data by done. rewrite decide_False; [done|]. intros Ej. rewrite Ej, Hd in Hb.
      apply lookup_lt_Some in Hu. rewrite (vw_table x Hw) in Hu. injection Hb. unfold VECTOR_INVALID, NR_MAX_VECTOR. lia.
Qed.

Lemma find_vector_ok vrs t : Forall (λ vr, 0 ≤ vr < Z.of_nat (length t)) vrs →
  ∃ r, find_vector vrs t = Some r ∧
    match r with
    | Some vr => vr ∈ vrs ∧ t !! Z.to_nat vr = Some IRQ_INVALID
    | None => ∀ vr, vr ∈ vrs → t !! Z.to_nat vr ≠ Some IRQ_INVALID
    end.
Proof.
  induction 1 as [|vr vrs Hv _ IH]; [exists None; split; [done|by intros ? ?%elem_of_nil]|].
  cbn. destruct (lookup_lt_is_Some_2 t (Z.to_nat vr)) as [i Hi]; [lia|]. rewrite Hi. cbn.
  destruct (Z.eqb_spec i IRQ_INVALID) as [->|Hn].
  - exists (Some vr). split; [done|]. split; [set_solver|done].
  - destruct IH as (r & -> & Hr). exists r. split; [done|]. destruct r as [u|].
    + split; [set_solver|apply Hr].
    + intros u [->|Hu]%elem_of_cons; [congruence|by apply Hr].
Qed.

(** Allocation keeps a binding that exists, and else makes one when a dynamic vector is free. *)
Lemma alloc_vector_ok i x : vec_wf x → 0 ≤ i < NR_IRQS →
  ∃ x' vr, alloc_irq_vector i x = Some (x', vr) ∧ vec_wf x' ∧ gen x' = gen x ∧
    irq_data x' !! Z.to_nat i = Some vr ∧
    (∀ j, j ≠ Z.to_nat i → irq_data x' !! j = irq_data x !! j) ∧
    (irq_data x !! Z.to_nat i ≠ Some VECTOR_INVALID → irq_data x !! Z.to_nat i = Some vr) ∧
    (vr = VECTOR_INVALID → ∀ u, VECTOR_DYNAMIC_START ≤ u ≤ VECTOR_DYNAMIC_END →
      vector_to_irq x !! Z.to_nat u ≠ Some IRQ_INVALID).
Proof.
  intros Hw Hi. destruct (data_at x i Hw Hi) as [vec Hd]. unfold alloc_irq_vector.
  rewrite (proj2 (Z.ltb_lt _ _)) by lia. rewrite Hd. cbn [mbind option_bind].
  destruct (Z.eqb_spec vec VECTOR_INVALID) as [->|Hn]; cbn [negb].
  - destruct (find_vector_ok (seqZ VECTOR_DYNAMIC_START (VECTOR_DYNAMIC_END - VECTOR_DYNAMIC_START + 1))
      (vector_to_irq x)) as (r & -> & Hr).
    { apply Forall_seqZ. rewrite (vw_table x Hw). unfold VECTOR_DYNAMIC_START, VECTOR_DYNAMIC_END. lia. }
    cbn [mbind option_bind]. destruct r as [vr|].
    + destruct Hr as [Hv%elem_of_seqZ Ht]. unfold VECTOR_DYNAMIC_START, VECTOR_DYNAMIC_END in Hv.
      exists (bind_vector i vr x), vr. split_and!; try done.
      * apply bind_ok; try done. unfold VECTOR_DYNAMIC_START, NR_MAX_VECTOR. lia.
      * rewrite bind_data by done. by rewrite decide_True.
      * intros j Hj. rewrite bind_data by done. by rewrite decide_False.
      * intros ->. unfold VECTOR_INVALID, NR_MAX_VECTOR in Hv. lia.
    + exists x, VECTOR_INVALID. split_and!; try done. intros _ u Hu. apply Hr, elem_of_seqZ. lia.
  - destruct (vw_bound x Hw _ _ Hd Hn) as [_ Hb]. rewrite Hb. cbn [mbind option_bind].
    rewrite Z2Nat.id by lia. rewrite Z.eqb_refl. exists x, vec. by split_and!.
Qed.

Lemma free_vector_ok i x : vec_wf x → 0 ≤ i →
  ∃ x', free_irq_vector i x = Some x' ∧ vec_wf x' ∧ gen x' = gen x ∧
    (∀ j, j ≠ Z.to_nat i ∨ (∃ vr, irq_data x !! j = Some vr ∧ VECTOR_FIXED_START ≤ vr) →
      irq_data x' !! j = irq_data x !! j).
Proof.
  intros Hw Hi. unfold free_irq_vector. destruct (Z.ltb_spec i NR_IRQS) as [Hn|Hn]; [|by exists x].
  destruct (data_at x i Hw ltac:(lia)) as [vr Hd]. rewrite Hd. cbn [mbind option_bind].
  destruct (Z.ltb_spec vr VECTOR_FIXED_START) as [Hv|Hv]; [|by exists x].
  unfold VECTOR_FIXED_START in Hv. assert (Hinv : vr ≠ VECTOR_INVALID) by (unfold VECTOR_INVALID, NR_MAX_VECTOR; lia).
  destruct (vw_bound x Hw _ _ Hd Hinv) as [Hr Hb]. rewrite (proj2 (Z.leb_le _ _)) by lia.
  match goal with |- context [vector_to_irq ?y !! _] => change (vector_to_irq y) with (vector_to_irq x) end.
  rewrite Hb. cbn [mbind option_bind]. rewrite Z2Nat.id, Z.eqb_refl by lia.
  unfold VECTOR_DYNAMIC_START, NR_MAX_VECTOR in Hr. unfold NR_IRQS in Hn.
  eexists. split; [done|]. split; [|split; [done|]].
  - split.
    + cbn. rewrite length_insert. apply Hw.
    + cbn. rewrite length_insert. apply Hw.
    + cbn. intros j u Hj Hu. destruct (decide (j = Z.to_nat i)) as [->|Ej].
      { rewrite list_lookup_insert_eq in Hj by (rewrite (vw_data x Hw); lia). congruence. }
      rewrite list_lookup_insert_ne in Hj by done. destruct (vw_bound x Hw j u Hj Hu) as [Hr' Hb'].
      split; [done|]. rewrite list_lookup_insert_ne; [done|]. intros E. rewrite <- E, Hb in Hb'.
      injection Hb'. lia.
    + cbn. intros u j Hu Hj. destruct (decide (u = Z.to_nat vr)) as [->|Eu].
      { rewrite list_lookup_insert_eq in Hu by (rewrite (vw_table x Hw); lia). congruence. }
      rewrite list_lookup_insert_ne in Hu by done. destruct (vw_back x Hw u j Hu Hj) as [Hr' Hb'].
      split; [done|]. rewrite list_lookup_insert_ne; [done|]. intros E. rewrite <- E, Hd in Hb'.
      injection Hb'. lia.
  - cbn. intros j Hj. apply list_lookup_insert_ne. intros <-. destruct Hj as [?|(u & Hu & Hf)]; [done|].
    rewrite Hd in Hu. injection Hu as <-. unfold VECTOR_FIXED_START in Hf. lia.
Qed.

(** *** Numbers *)

Definition with_alloc (op : Z → Z → Z) (i : Z) (q : irqs) : irqs :=
  q⟨irq_alloc_bitmap := upd_bit op i (irq_alloc_bitmap q)⟩.

Lemma alloc_num_cases req q : irqs_wf q → 0 ≤ req →
  ∃ q' i, alloc_irq_num req false q = Some (q', i) ∧
    ((i = IRQ_INVALID ∧ q' = q) ∨ (0 ≤ i < NR_IRQS ∧ q' = with_alloc bitmap_set_nolock i q)).
Proof.
  intros Hq Hr. destruct (decide (req = IRQ_INVALID)) as [->|Hn].
  - destruct (alloc_irq_lowest_free q Hq) as (q' & i & E & _ & H). exists q', i. split; [done|].
    destruct H as [(-> & -> & _)|(Hi & _)]; [by left|right]. split; [done|].
    unfold alloc_irq_num in E. change ((NR_IRQS <=? IRQ_INVALID) && negb (IRQ_INVALID =? IRQ_INVALID)) with false in E.
    change (IRQ_INVALID =? IRQ_INVALID) with true in E. cbn iota in E.
    destruct (ffz64_ex (irq_alloc_bitmap q) NR_IRQS) as [r|]; [|done]. cbn [mbind option_bind] in E.
    destruct (NR_IRQS <=? u32 r); [|by injection E as <- <-].
    injection E as _ <-. unfold NR_IRQS, IRQ_INVALID in Hi. lia.
  - destruct (Z.le_gt_cases NR_IRQS req) as [H|H].
    + exists q, IRQ_INVALID. split; [|by left]. unfold alloc_irq_num.
      by rewrite (proj2 (Z.leb_le _ _)), (proj2 (Z.eqb_neq _ _)).
    + exists (with_alloc bitmap_set_nolock req q), req. split; [by apply alloc_given|]. right. split; [lia|done].
Qed.

Lemma set_num_ok i q : irqs_wf q → 0 ≤ i < NR_IRQS →
  irqs_wf (with_alloc bitmap_set_nolock i q) ∧ allocated (with_alloc bitmap_set_nolock i q) i ∧
  ∀ j, 0 ≤ j → allocated q j → allocated (with_alloc bitmap_set_nolock i q) j.
Proof.
  intros Hq Hi. destruct (alloc_given_wf i q Hq Hi) as [Hw Ha]. split_and!; [done|done|].
  destruct Hq as [_ [Hl Haw] _]. unfold NR_IRQS in Hi. intros j Hj Hb. unfold allocated. cbn.
  destruct (set_bit_spec i (irq_alloc_bitmap q)) as (_ & _ & Hbit); [lia|done|].
  rewrite Hbit by done. by case_decide.
Qed.

Lemma release_num_ok i q : irqs_wf q → 0 ≤ i →
  irqs_wf (free_irq_num i q) ∧ irq_desc_array (free_irq_num i q) = irq_desc_array q ∧
  ∀ j, 0 ≤ j → j ≠ i → allocated q j → allocated (free_irq_num i q) j.
Proof.
  intros Hq Hi. unfold free_irq_num. destruct (Z.ltb_spec i NR_IRQS); [|done].
  destruct (negb _); [|done]. split_and!; [by apply clear_wf|done|].
  destruct Hq as [_ [Hl Haw] _]. unfold NR_IRQS in *. intros j Hj Hne Hb. unfold allocated. cbn.
  destruct (clear_bit_spec i (irq_alloc_bitmap q)) as (_ & _ & Hbit); [lia|done|].
  rewrite Hbit by done. by rewrite decide_False.
Qed.

(** ** Registered interrupts *)

(** The action [a] with the argument [pd] is registered for [i], which has the vector [vr]. *)
Definition registered (x : x86_irqs) (i : nat) (a : nat) (pd vr : Z) : Prop :=
  ∃ d, irq_desc_array (gen x) !! i = Some d ∧ action d = Some a ∧ priv_data d = pd ∧
    irq_data x !! i = Some vr ∧ vr ≠ VECTOR_INVALID.

(** A step that keeps the state well-formed and the registrations of all numbers but [but]. *)
Record x86_step (but : nat → Prop) (x x' : x86_irqs) : Prop := {
  xs_wf : x86_wf x';
  xs_keep i a pd vr : ¬ but i → registered x i a pd vr → registered x' i a pd vr;
}.

Lemma no_action i x : x86_wf x → irq_data x !! i = Some VECTOR_INVALID →
  ∀ d, irq_desc_array (gen x) !! i = Some d → action d = None.
Proof.
  intros Hw Hd d Hi. destruct (action d) eqn:Ha; [|done].
  destruct (xw_action x Hw i d Hi) as [_ (vr & Hv & Hn)]; [by rewrite Ha|]. congruence.
Qed.

(** The number [i] is allocated and has a vector; a number that is not registered may get an
    action. *)
Lemma request_bound x x1 i d d' vr : x86_wf x → 0 ≤ i < NR_IRQS →
  vec_wf x1 → irq_data x1 !! Z.to_nat i = Some vr → vr ≠ VECTOR_INVALID →
  (∀ j, j ≠ Z.to_nat i → irq_data x1 !! j = irq_data x !! j) →
  (irq_data x !! Z.to_nat i ≠ Some VECTOR_INVALID → irq_data x !! Z.to_nat i = Some vr) →
  irq_desc_array (gen x) !! Z.to_nat i = Some d → irq d' = irq d → action d = None ∨ d' = d →
  x86_step (λ _, False) x (x1⟨gen := set_desc i d' (with_alloc bitmap_set_nolock i (gen x))⟩).
Proof.
  intros Hw Hi Hw1 Hv Hn Hoth Hkeep Hd Hirq Hd'. destruct (set_num_ok i (gen x) (xw_gen x Hw) Hi) as (Hg & Ha & Hm).
  set (q1 := with_alloc bitmap_set_nolock i (gen x)) in *.
  assert (Hl : (Z.to_nat i < length (irq_desc_array (gen x)))%nat) by by eapply lookup_lt_Some.
  split; [split|].
  - destruct Hw1. by split.
  - by apply (set_desc_wf i d' q1).
  - cbn. intros j dj Hj. apply list_lookup_insert_Some in Hj as [(<- & <- & _)|[_ Hj]].
    + rewrite Hirq. by apply (xw_desc x Hw).
    + by apply (xw_desc x Hw).
  - intros j dj Hj Hact. cbn in Hj. apply list_lookup_insert_Some in Hj as [(<- & <- & _)|[Hne Hj]].
    + rewrite Z2Nat.id by lia. split; [done|]. by exists vr.
    + destruct (xw_action x Hw j dj Hj Hact) as [Hal Hvj]. split; [apply Hm; [lia|done]|].
      cbn. by rewrite Hoth.
  - intros j a pd u _ (dj & Hj & Hact & Hpd & Hu & Hun). cbn. unfold registered. cbn.
    destruct (decide (j = Z.to_nat i)) as [->|Hne].
    + rewrite Hd in Hj. injection Hj as <-. destruct Hd' as [?| ->]; [congruence|].
      exists d. rewrite list_lookup_insert_eq by done. rewrite Hu in Hkeep.
      split_and!; try done. rewrite Hv. symmetry. apply Hkeep. congruence.
    + exists dj. rewrite list_lookup_insert_ne, Hoth by done. by split_and!.
Qed.

(** The number goes back when there is no vector for it. *)
Lemma request_unbound x x1 i : x86_wf x → 0 ≤ i < NR_IRQS → vec_wf x1 → gen x1 = gen x →
  irq_data x1 !! Z.to_nat i = Some VECTOR_INVALID →
  (∀ j, j ≠ Z.to_nat i → irq_data x1 !! j = irq_data x !! j) →
  (irq_data x !! Z.to_nat i ≠ Some VECTOR_INVALID → irq_data x !! Z.to_nat i = Some VECTOR_INVALID) →
  x86_step (λ _, False) x (x1⟨gen := free_irq_num i (with_alloc bitmap_set_nolock i (gen x))⟩).
Proof.
  intros Hw Hi Hw1 _ Hv Hoth Hkeep. destruct (set_num_ok i (gen x) (xw_gen x Hw) Hi) as (Hg & _ & Hm).
  destruct (release_num_ok i _ Hg ltac:(lia)) as (Hg' & Hdesc & Hm').
  set (q' := free_irq_num i (with_alloc bitmap_set_nolock i (gen x))) in *. clearbody q'.
  assert (Hinv : irq_data x !! Z.to_nat i = Some VECTOR_INVALID).
  { destruct (decide (irq_data x !! Z.to_nat i = Some VECTOR_INVALID)); [done|by apply Hkeep]. }
  assert (Hdata : ∀ j, irq_data x1 !! j = irq_data x !! j).
  { intros j. destruct (decide (j = Z.to_nat i)) as [->|]; [congruence|by apply Hoth]. }
  split; [split|].
  - destruct Hw1. by split.
  - done.
  - cbn. rewrite Hdesc. exact (xw_desc x Hw).
  - intros j d Hj Hact. cbn in Hj |- *. rewrite Hdesc in Hj. rewrite Hdata.
    destruct (xw_action x Hw j d Hj Hact) as [Ha Hvj]. split; [|done].
    assert (Z.of_nat j ≠ i). { intros <-. rewrite Nat2Z.id in Hinv. by rewrite (no_action _ x Hw Hinv d Hj) in Hact. }
    apply Hm'; [lia|done|]. apply Hm; [lia|done].
  - intros j a pd u _ Hr. unfold registered. cbn. rewrite Hdesc, Hdata. exact Hr.
Qed.

Lemma x86_request_ok req a pd fl x : x86_wf x → 0 ≤ req →
  ∃ x' ret, x86_request_irq req a pd fl x = Some (x', ret) ∧ x86_step (λ _, False) x x' ∧
    (0 ≤ ret → ret < NR_IRQS ∧ ∃ vr, registered x' (Z.to_nat ret) a pd vr).
Proof.
  intros Hw Hreq. destruct (alloc_num_cases req (gen x) (xw_gen x Hw) Hreq) as (q1 & i & E & Hc).
  unfold x86_request_irq, request_irq. rewrite E. cbn [mbind option_bind].
  destruct Hc as [[-> ->]|[Hi ->]].
  { cbn. eexists _, _. split; [done|]. split; [|unfold EINVAL; lia]. destruct x. split; [done|]. by intros. }
  rewrite (proj2 (Z.eqb_neq i IRQ_INVALID)) by (unfold NR_IRQS, IRQ_INVALID in *; lia).
  destruct (alloc_vector_ok i x (xw_vec x Hw) Hi) as (x1 & vr & -> & Hw1 & Hg & Hv & Hoth & Hkeep & _).
  cbn [mbind option_bind]. destruct (Z.eqb_spec vr VECTOR_INVALID) as [->|Hn]; cbn [negb].
  { eexists _, _. split; [done|]. split; [by apply request_unbound|]. unfold EINVAL. lia. }
  destruct (lookup_lt_is_Some_2 (irq_desc_array (gen x)) (Z.to_nat i)) as [d Hd].
  { rewrite (iq_desc _ (xw_gen x Hw)). unfold NR_IRQS in Hi. lia. }
  change (desc_of i (with_alloc bitmap_set_nolock i (gen x))) with (irq_desc_array (gen x) !! Z.to_nat i).
  rewrite Hd. cbn [mbind option_bind].
  pose proof (λ d', request_bound x x1 i d d' vr Hw Hi Hw1 Hv Hn Hoth Hkeep Hd) as Hb.
  destruct (action d) as [b|] eqn:Ha; cbn [mbind option_bind].
  - eexists _, _. split; [done|]. split; [|unfold EBUSY; lia].
    replace (with_alloc bitmap_set_nolock i (gen x)) with (set_desc i d (with_alloc bitmap_set_nolock i (gen x))).
    { apply Hb; auto. }
    unfold set_desc, with_alloc. cbn. by rewrite list_insert_id.
  - eexists _, _. split; [done|]. split; [apply Hb; auto|]. intros _. split; [lia|]. exists vr.
    eexists. cbn. rewrite list_lookup_insert_eq by (by eapply lookup_lt_Some). by split_and!.
Qed.

Lemma x86_free_ok i x : x86_wf x → 0 ≤ i →
  ∃ x', x86_free_irq i x = Some x' ∧ x86_step (λ j, j = Z.to_nat i) x x'.
Proof.
  intros Hw Hi. unfold x86_free_irq, free_irq. destruct (free_vector_ok i x (xw_vec x Hw) Hi) as (x1 & E & Hw1 & _ & Hoth).
  destruct (Z.ltb_spec i NR_IRQS) as [Hlt|Hge]; cycle 1.
  { cbn [mbind option_bind]. unfold free_irq_vector in *. rewrite (proj2 (Z.ltb_ge _ _)) in * by done.
    exists x. split; [by destruct x|]. by split. }
  destruct (lookup_lt_is_Some_2 (irq_desc_array (gen x)) (Z.to_nat i)) as [d Hd].
  { rewrite (iq_desc _ (xw_gen x Hw)). unfold NR_IRQS in Hlt. lia. }
  change (desc_of i (gen x)) with (irq_desc_array (gen x) !! Z.to_nat i). rewrite Hd. cbn [mbind option_bind].
  rewrite E. cbn [mbind option_bind]. set (d' := d⟨action := None⟩⟨priv_data := 0⟩⟨flags := IRQF_NONE⟩).
  destruct (release_num_ok i (set_desc i d' (gen x)) (set_desc_wf i d' _ (xw_gen x Hw)) Hi) as (Hg & Hdesc & Hm).
  set (q' := free_irq_num i (set_desc i d' (gen x))) in *. clearbody q'. eexists. split; [done|]. split; [split|].
  - destruct Hw1. by split.
  - done.
  - cbn. rewrite Hdesc. cbn. intros j dj Hj. apply list_lookup_insert_Some in Hj as [(<- & <- & _)|[_ Hj]].
    + exact (xw_desc x Hw _ d Hd).
    + by apply (xw_desc x Hw).
  - cbn. rewrite Hdesc. cbn. intros j dj Hj Hact.
    apply list_lookup_insert_Some in Hj as [(<- & <- & _)|[Hne Hj]]; [done|].
    destruct (xw_action x Hw j dj Hj Hact) as [Ha Hvj]. split; [apply Hm; [lia|lia|done]|]. by rewrite Hoth by auto.
  - intros j a pd vr Hne (dj & Hj & H). unfold registered. cbn. rewrite Hdesc, Hoth by auto. cbn.
    exists dj. by rewrite list_lookup_insert_ne by done.
Qed.

(** *** Trigger mode *)

Lemma level_flag fl (b : bool) :
  nonzero ((if b then fl ||| IRQF_LEVEL else fl &&& bnot 32 IRQF_LEVEL) &&& IRQF_LEVEL) = b.
Proof.
  unfold nonzero, IRQF_LEVEL. destruct b.
  - apply negb_true_iff, Z.eqb_neq. intros H. apply (f_equal (λ z, Z.testbit z 1)) in H.
    by rewrite Z.land_spec, Z.lor_spec, orb_true_r, Z.testbit_0_l in H.
  - apply negb_false_iff, Z.eqb_eq. rewrite <- Z.land_assoc. change (bnot 32 2 &&& 2) with 0. by rewrite Z.land_0_r.
Qed.

(** Only the flags of one descriptor change. *)
Lemma trigger_ok i b x : x86_wf x → 0 ≤ i < NR_IRQS →
  ∃ d d', irq_desc_array (gen x) !! Z.to_nat i = Some d ∧
    set_irq_trigger_mode i b (gen x) = Some (set_desc i d' (gen x)) ∧
    nonzero (flags d' &&& IRQF_LEVEL) = b ∧ x86_step (λ _, False) x (x⟨gen := set_desc i d' (gen x)⟩).
Proof.
  intros Hw Hi. destruct (lookup_lt_is_Some_2 (irq_desc_array (gen x)) (Z.to_nat i)) as [d Hd].
  { rewrite (iq_desc _ (xw_gen x Hw)). unfold NR_IRQS in Hi. lia. }
  set (d' := if b then d⟨flags := flags d ||| IRQF_LEVEL⟩ else d⟨flags := flags d &&& bnot 32 IRQF_LEVEL⟩).
  assert (Hd' : irq d' = irq d ∧ action d' = action d ∧ priv_data d' = priv_data d) by (by destruct b).
  destruct Hd' as (D1 & D2 & D3). exists d, d'. split; [done|]. split.
  { unfold set_irq_trigger_mode. rewrite (proj2 (Z.ltb_lt _ _)) by lia. unfold desc_of. by rewrite Hd. }
  split. { rewrite <- (level_flag (flags d) b). by destruct b. }
  clearbody d'. split; [split|].
  - destruct (xw_vec x Hw). by split.
  - apply set_desc_wf, Hw.
  - cbn. intros j dj Hj. apply list_lookup_insert_Some in Hj as [(<- & <- & _)|[_ Hj]].
    + rewrite D1. by apply (xw_desc x Hw).
    + by apply (xw_desc x Hw).
  - cbn. intros j dj Hj Ha. apply list_lookup_insert_Some in Hj as [(<- & <- & _)|[_ Hj]].
    + rewrite D2 in Ha. exact (xw_action x Hw _ d Hd Ha).
    + exact (xw_action x Hw j dj Hj Ha).
  - intros j a pd vr _ (dj & Hj & Ha & Hp & Hv). unfold registered. cbn.
    destruct (decide (j = Z.to_nat i)) as [->|Hne].
    + rewrite Hd in Hj. injection Hj as <-. exists d'. rewrite list_lookup_insert_eq by (by eapply lookup_lt_Some).
      by rewrite D2, D3.
    + exists dj. by rewrite list_lookup_insert_ne.
Qed.

(** *** Vectors and reserved numbers *)

(** Binding a vector breaks no registration. *)
Lemma alloc_step i x : x86_wf x → 0 ≤ i < NR_IRQS →
  ∃ x' vr, alloc_irq_vector i x = Some (x', vr) ∧ x86_wf x' ∧ gen x' = gen x ∧
    irq_data x' !! Z.to_nat i = Some vr ∧
    (∀ j, j ≠ Z.to_nat i → irq_data x' !! j = irq_data x !! j) ∧
    (irq_data x !! Z.to_nat i ≠ Some VECTOR_INVALID → irq_data x !! Z.to_nat i = Some vr) ∧
    (vr = VECTOR_INVALID → ∀ u, VECTOR_DYNAMIC_START ≤ u ≤ VECTOR_DYNAMIC_END →
      vector_to_irq x !! Z.to_nat u ≠ Some IRQ_INVALID).
Proof.
  intros Hw Hi. destruct (alloc_vector_ok i x (xw_vec x Hw) Hi) as (x' & vr & E & Hw' & Hg & Hv & Hoth & Hkeep & Hfull).
  exists x', vr. split_and!; try done. split; [done|by rewrite Hg; apply Hw|by rewrite Hg; apply Hw|].
  rewrite Hg. intros j d Hj Ha. destruct (xw_action x Hw j d Hj Ha) as (Hal & u & Hu & Hn). split; [done|].
  destruct (decide (j = Z.to_nat i)) as [->|Hne].
  - exists u. split; [|done]. rewrite Hv. rewrite Hu in Hkeep. symmetry. apply Hkeep. congruence.
  - exists u. by rewrite Hoth.
Qed.

(** ** Start *)

Lemma reserve_ok i q : irqs_wf q → 0 ≤ i < NR_IRQS →
  ∃ q', reserve_irq_num i q = Some (q', i) ∧ irqs_wf q' ∧ irq_desc_array q' = irq_desc_array q ∧
    allocated q' i ∧ reserved q' i ∧
    ∀ j, 0 ≤ j → (allocated q j → allocated q' j) ∧ (reserved q j → reserved q' j).
Proof.
  intros Hq Hi. destruct (set_num_ok i q Hq Hi) as (Hw & Ha & Hm). destruct Hq as [Hd Hal [Hl Hrw]].
  assert (Hi' := Hi). unfold NR_IRQS in Hi'.
  destruct (set_bit_spec i (irq_rsvd_bitmap q)) as (Hl' & Hw' & Hbit); [lia|done|].
  eexists. split.
  { unfold reserve_irq_num, alloc_irq_num, NR_IRQS, IRQ_INVALID.
    rewrite (proj2 (Z.leb_gt _ _)), (proj2 (Z.eqb_neq _ _)) by lia. cbn [andb mbind option_bind].
    by rewrite (proj2 (Z.leb_gt _ _)) by lia. }
  split; [split; [apply Hd|apply Hw|split; [exact (eq_trans Hl' Hl)|exact Hw']]|].
  split; [done|]. split; [exact Ha|]. unfold reserved. cbn. split; [by rewrite Hbit, decide_True by lia|].
  intros j Hj. split; [by apply Hm|]. rewrite Hbit by done. by case_decide.
Qed.

Lemma bind_static_step i vr x q' : x86_wf x → 0 ≤ i < NR_IRQS → VECTOR_DYNAMIC_START ≤ vr ≤ NR_MAX_VECTOR →
  irq_data x !! Z.to_nat i = Some VECTOR_INVALID → vector_to_irq x !! Z.to_nat vr = Some IRQ_INVALID →
  irqs_wf q' → irq_desc_array q' = irq_desc_array (gen x) →
  (∀ j, 0 ≤ j → allocated (gen x) j → allocated q' j) → x86_wf ((bind_vector i vr x)⟨gen := q'⟩).
Proof.
  intros Hw Hi Hv Hd Ht Hq Hdesc Hm. pose proof (bind_ok i vr x (xw_vec x Hw) Hi Hv Hd Ht) as Hb. split.
  - destruct Hb. by split.
  - done.
  - cbn. rewrite Hdesc. exact (xw_desc x Hw).
  - intros j d Hj Hact. cbn [gen upd] in Hj. change (irq_desc_array q' !! j = Some d) in Hj. rewrite Hdesc in Hj.
    destruct (xw_action x Hw j d Hj Hact) as (Ha & u & Hu & Hn). split; [by apply Hm; [lia|]|].
    exists u. split; [|done]. change (irq_data (bind_vector i vr x) !! j = Some u).
    rewrite bind_data by (apply Hw || done). rewrite decide_False; [done|]. intros ->. congruence.
Qed.

Lemma bind_static_ok l : ∀ x, x86_wf x → NoDup l.*1 → NoDup l.*2 →
  Forall (λ p, 0 ≤ p.1 < NR_IRQS ∧ VECTOR_FIXED_START ≤ p.2 ≤ NR_MAX_VECTOR ∧
    irq_data x !! Z.to_nat p.1 = Some VECTOR_INVALID ∧
    vector_to_irq x !! Z.to_nat p.2 = Some IRQ_INVALID) l →
  ∃ x', bind_static l x = Some x' ∧ x86_wf x' ∧
    irq_desc_array (gen x') = irq_desc_array (gen x) ∧
    (∀ p, p ∈ l → irq_data x' !! Z.to_nat p.1 = Some p.2) ∧
    (∀ j, Z.of_nat j ∉ l.*1 → irq_data x' !! j = irq_data x !! j).
Proof.
  induction l as [|[i vr] l IH]; intros x Hw H1 H2 Hl; [by exists x; split_and!; [..|by intros ? ?%elem_of_nil|]|].
  cbn in H1, H2. apply NoDup_cons in H1 as [Hn1 H1], H2 as [Hn2 H2].
  apply Forall_cons in Hl as [(Hi & Hv & Hd & Ht) Hl]. cbn [fst snd] in *.
  assert (Hv' : 0 ≤ vr ≤ NR_MAX_VECTOR) by (unfold VECTOR_FIXED_START in Hv; lia).
  destruct (reserve_ok i (gen x) (xw_gen x Hw) Hi) as (q' & Er & Hq & Hdesc & _ & _ & Hm).
  cbn [bind_static]. rewrite Er. cbn [mbind option_bind]. set (x1 := upd gen _ (bind_vector i vr x)).
  assert (Hw1 : x86_wf x1).
  { apply bind_static_step; try done; [unfold VECTOR_FIXED_START, VECTOR_DYNAMIC_START in *; lia|].
    intros j Hj. by apply Hm. }
  assert (Hdata : ∀ j, irq_data x1 !! j = if decide (j = Z.to_nat i) then Some vr else irq_data x !! j).
  { intros j. apply (bind_data i vr j x); [apply Hw|done]. }
  destruct (IH x1 Hw1 H1 H2) as (x' & E & Hw' & Hdesc' & Hin & Hout).
  { apply Forall_forall. intros [j u] Hj. rewrite Forall_forall in Hl. destruct (Hl _ Hj) as (Hj1 & Hu1 & Hjd & Hut).
    cbn [fst snd] in *. split_and!; try done || lia.
    - rewrite Hdata, decide_False; [done|]. intros Ej. apply Hn1. replace i with j by lia.
      by apply (list_elem_of_fmap_2 fst) in Hj.
    - change (vector_to_irq (bind_vector i vr x) !! Z.to_nat u = Some IRQ_INVALID).
      rewrite bind_table by (apply Hw || done). rewrite decide_False; [done|]. intros Eu. apply Hn2.
      replace vr with u by (unfold VECTOR_FIXED_START in *; lia). by apply (list_elem_of_fmap_2 snd) in Hj. }
  exists x'. split_and!; [done|done|by rewrite Hdesc'| |].
  - intros p [->|Hp]%elem_of_cons; [|by apply Hin]. cbn [fst snd]. rewrite Hout by (rewrite Z2Nat.id by lia; done).
    by rewrite Hdata, decide_True.
  - intros j [Hj Hj']%not_elem_of_cons. rewrite Hout by done. rewrite Hdata, decide_False; [done|]. cbn in Hj. lia.
Qed.

(** Reserving a number. *)
Lemma reserve_step i x : x86_wf x → 0 ≤ i < NR_IRQS →
  ∃ q', reserve_irq_num i (gen x) = Some (q', i) ∧ x86_wf (x⟨gen := q'⟩) ∧
    irq_desc_array q' = irq_desc_array (gen x) ∧ reserved q' i ∧
    ∀ j, 0 ≤ j → reserved (gen x) j → reserved q' j.
Proof.
  intros Hw Hi. destruct (reserve_ok i (gen x) (xw_gen x Hw) Hi) as (q' & E & Hq & Hd & _ & Hr & Hm).
  exists q'. split_and!; try done; [|intros j Hj; by apply Hm]. split.
  - destruct (xw_vec x Hw). by split.
  - done.
  - cbn. rewrite Hd. exact (xw_desc x Hw).
  - intros j d Hj Ha. change (irq_desc_array q' !! j = Some d) in Hj. rewrite Hd in Hj.
    destruct (xw_action x Hw j d Hj Ha) as [Hal Hv]. split; [by apply Hm; [lia|]|exact Hv].
Qed.

(** The descriptors after [init_irq_descs] numbered them, before anything is registered. *)
Record fresh_irqs (q : irqs) : Prop := {
  fi_wf : irqs_wf q;
  fi_desc i d : irq_desc_array q !! i = Some d → irq d = Z.of_nat i ∧ action d = None;
}.

Section boot.
Context (max_vm : Z) (Hmax : 0 ≤ max_vm ≤ 29).

Lemma static_ranges p : p ∈ irq_static_mappings max_vm →
  224 ≤ p.1 < NR_IRQS ∧ VECTOR_FIXED_START ≤ p.2 ≤ NR_MAX_VECTOR.
Proof using Hmax.
  unfold irq_static_mappings, NR_IRQS, VECTOR_FIXED_START, NR_STATIC_MAPPINGS_1, NR_MAX_VECTOR.
  intros [Hp|(i & -> & Hi%elem_of_seqZ)%list_elem_of_fmap_1]%elem_of_app; [|cbn; lia].
  rewrite !elem_of_cons in Hp. destruct Hp as [->|[->|[->|[]%elem_of_nil]]]; cbn; lia.
Qed.

Lemma static_nodup : NoDup (irq_static_mappings max_vm).*1 ∧ NoDup (irq_static_mappings max_vm).*2.
Proof using Hmax.
  unfold irq_static_mappings, NR_IRQS, VECTOR_FIXED_START, NR_STATIC_MAPPINGS_1. rewrite !fmap_app, <- !list_fmap_compose.
  split; (apply NoDup_app; split_and!;
    [by apply (bool_decide_unpack _)
    |intros z Hz (i & -> & Hi%elem_of_seqZ)%list_elem_of_fmap_1; cbn in Hz |- *;
     rewrite !elem_of_cons in Hz; destruct Hz as [?|[?|[?|[]%elem_of_nil]]]; lia
    |apply NoDup_fmap; [intros a b; cbn; lia|apply NoDup_seqZ]]).
Qed.

(** Afterwards the static interrupts have their vectors and the others none. *)
Lemma init_irq_descs_arch_ok q : fresh_irqs q →
  ∃ x, init_irq_descs_arch max_vm q = Some x ∧ x86_wf x ∧
    irq_desc_array (gen x) = irq_desc_array q ∧
    (∀ p, p ∈ irq_static_mappings max_vm → irq_data x !! Z.to_nat p.1 = Some p.2) ∧
    (∀ j, (j < 256)%nat → Z.of_nat j ∉ (irq_static_mappings max_vm).*1 → irq_data x !! j = Some VECTOR_INVALID).
Proof using Hmax.
  intros [Hq Hdesc]. unfold init_irq_descs_arch.
  set (x0 := mk_x86_irqs _ _ q).
  assert (Hx0 : x86_wf x0).
  { split; [split| | |]; try done.
    - cbn. intros i vr [-> _]%lookup_replicate_1. done.
    - cbn. intros vr i [-> _]%lookup_replicate_1. done.
    - intros i d Hd. by apply (Hdesc i).
    - intros i d Hd Ha. by destruct (Hdesc i d Hd) as [_ ?]. }
  destruct static_nodup as [N1 N2].
  destruct (bind_static_ok (irq_static_mappings max_vm) x0 Hx0 N1 N2) as (x & E & Hw & Hd & Hin & Hout).
  { apply Forall_forall. intros p Hp. destruct (static_ranges p Hp) as [R1 R2].
    split_and!; try lia; cbn; apply lookup_replicate_2; unfold NR_IRQS, VECTOR_FIXED_START, NR_MAX_VECTOR in *; lia. }
  exists x. split_and!; try done. intros j Hj Hn. rewrite Hout by done. by apply lookup_replicate_2.
Qed.
End boot.
