(* ===== verification/Ioapic.v ===== *)
(** * The I/O APICs of the platform

    hypervisor/arch/x86/ioapic.c: the table of GSIs that is set up at boot, the entries of the
    physical chips, and, of arch/x86/irq.c, the way of an interrupt from its vector to its action.

    The chips are hardware: the class [IoapicDevice] has their accesses, [IoapicDeviceLaws] what
    is documented of them.  Paging of the registers is left out; addresses are mapped one to
    one.  The entries of the ACPI table are a list. *)

From S2P Require Import Prelude Bits Irq Assign Vioapic VioapicInv X86Irq.
Import Irq.Irq.

#[local] Existing Instance x86_bitmap.

Definition CONFIG_MAX_IOAPIC_LINES : Z := 120.
Definition NR_MAX_GSI : Z := CONFIG_MAX_IOAPIC_NUM * CONFIG_MAX_IOAPIC_LINES.
Definition NR_LEGACY_PIN : Z := 16.
Definition IOAPIC_MAX_RTE_MASK : Z := 0x00ff0000.
Definition INVALID_INTERRUPT_PIN : Z := 0xffffffff.

(** Reading and writing the registers at an offset of the chip. *)
Class IoapicDevice := {
  chip : Type;
  mmio_read32 : Z → chip → Z;
  mmio_write32 : Z → Z → chip → chip }.

Record gsi_table := mk_gsi_table { is_valid : bool; acpi_id : Z; index : Z; pin : Z; base_addr : Z }.

Definition zero_gsi : gsi_table := mk_gsi_table false 0 0 0 0.

(** 1 is level-triggered. *)
Definition legacy_irq_trigger_mode : list Z := [0; 0; 0; 0; 0; 0; 0; 0; 0; 1; 0; 0; 0; 0; 0; 0].
Definition pic_ioapic_pin_map : list Z := [2; 1; 0; 3; 4; 5; 6; 7; 8; 9; 10; 11; 12; 13; 14; 15].

Definition get_pic_pin_from_ioapic_pin (pin_index : Z) : option Z :=
  if pin_index <? NR_LEGACY_PIN then pic_ioapic_pin_map !! Z.to_nat pin_index
  else Some INVALID_INTERRUPT_PIN.

(** The subtables of the MADT. *)
Inductive madt_subtable := Madt_ioapic (id addr gsi_base : Z) | Madt_other.

(** The loop of [parse_madt_ioapic], on the array and the index. *)
Fixpoint parse_madt_ioapic (madt : list madt_subtable) (arr : list ioapic_info) (idx : Z)
    : list ioapic_info * Z :=
  match madt with
  | [] => (arr, idx)
  | Madt_other :: madt' => parse_madt_ioapic madt' arr idx
  | Madt_ioapic id a g :: madt' =>
      let arr := if idx <? CONFIG_MAX_IOAPIC_NUM
                 then alter (λ i, mk_ioapic_info id a g (nr_pins i)) (Z.to_nat idx) arr else arr in
      parse_madt_ioapic madt' arr (u8 (idx + 1))
  end.

Section ioapic.
Context {D : IoapicDevice}.

(** [hw] has the chip at each address. *)
Record ioapics := mk_ioapics {
  gsi_table_data : list gsi_table;
  ioapic_max_nr_gsi : Z;
  saved_rte : list (list Z);
  ioapic_array : list ioapic_info;
  ioapic_num : Z;
  hw : Z → chip }.

#[export] Instance eta_ioapics : Eta ioapics :=
  { eta := rd mk_ioapics <*> gsi_table_data <*> ioapic_max_nr_gsi <*> saved_rte <*> ioapic_array
             <*> ioapic_num <*> hw }.

Definition on_hw (base : Z) (f : chip → chip) (s : ioapics) : ioapics :=
  s⟨hw := λ b, if b =? base then f (hw s base) else hw s b⟩.

Definition ioapic_read_reg32 (base offset : Z) (s : ioapics) : Z * ioapics :=
  let s := on_hw base (mmio_write32 offset IOAPIC_REGSEL) s in
  (mmio_read32 IOAPIC_WINDOW (hw s base), s).

Definition ioapic_write_reg32 (base offset value : Z) (s : ioapics) : ioapics :=
  let s := on_hw base (mmio_write32 offset IOAPIC_REGSEL) s in
  on_hw base (mmio_write32 value IOAPIC_WINDOW) s.

Definition rte_addr (p : Z) : Z := u32 (p * 2 + 0x10).

Definition ioapic_get_rte_entry (base p : Z) (s : ioapics) : Z * ioapics :=
  let (lo, s) := ioapic_read_reg32 base (rte_addr p) s in
  let (hi, s) := ioapic_read_reg32 base (u32 (rte_addr p + 1)) s in
  (lo ||| Z.shiftl hi 32, s).

Definition ioapic_set_rte_entry (base p rte : Z) (s : ioapics) : ioapics :=
  let s := ioapic_write_reg32 base (rte_addr p) (field 0 32 rte) s in
  ioapic_write_reg32 base (u32 (rte_addr p + 1)) (field 32 32 rte) s.

Definition gsi_at (gsi : Z) (s : ioapics) : option gsi_table := gsi_table_data s !! Z.to_nat gsi.

Definition ioapic_get_rte (i : Z) (s : ioapics) : option (Z * ioapics) :=
  t ← gsi_at i s; Some (ioapic_get_rte_entry (base_addr t) (pin t) s).

Definition ioapic_set_rte (i rte : Z) (s : ioapics) : option ioapics :=
  t ← gsi_at i s; Some (ioapic_set_rte_entry (base_addr t) (pin t) rte s).

Definition is_gsi_valid (gsi : Z) (s : ioapics) : option bool :=
  if gsi <? NR_MAX_GSI then t ← gsi_at gsi s; Some (is_valid t) else Some false.

Definition is_ioapic_irq (i : Z) (s : ioapics) : option bool := is_gsi_valid i s.

(** What the virtual I/O APIC asks: [get_gsi_to_ioapic_index], [gsi_to_ioapic_pin] and
    [get_platform_ioapic_info]; a GSI outside of the table, which the callers exclude, is as
    one that is not valid. *)
Definition host_ioapics (s : ioapics) : IoapicPlatform := {|
  get_gsi_to_ioapic_index := λ g, index (nth (Z.to_nat g) (gsi_table_data s) zero_gsi);
  gsi_to_ioapic_pin := λ g, pin (nth (Z.to_nat g) (gsi_table_data s) zero_gsi);
  get_platform_ioapic_info := take (Z.to_nat (ioapic_num s)) (ioapic_array s) |}.

Definition ioapic_irq_gsi_mask_unmask (i : Z) (mask : bool) (s : ioapics) : option ioapics :=
  t ← gsi_at i s;
  if nonzero (base_addr t) then
    let (rte, s) := ioapic_get_rte_entry (base_addr t) (pin t) s in
    Some (ioapic_set_rte_entry (base_addr t) (pin t) (set_field 16 1 (if mask then 1 else 0) rte) s)
  else Some s.

Definition ioapic_gsi_mask_irq (i : Z) : ioapics → option ioapics := ioapic_irq_gsi_mask_unmask i true.
Definition ioapic_gsi_unmask_irq (i : Z) : ioapics → option ioapics := ioapic_irq_gsi_mask_unmask i false.

Definition ioapic_nr_pins (base : Z) (s : ioapics) : Z * ioapics :=
  let (version, s) := ioapic_read_reg32 base IOAPIC_VER s in
  (Z.shiftr (version &&& IOAPIC_MAX_RTE_MASK) MAX_RTE_SHIFT + 1, s).

(** *** Start *)

(** The loop over the chips: the number of pins is read from each; the result and the sum. *)
Fixpoint count_pins (ids : list nat) (gsi : Z) (s : ioapics) : option (Z * Z * ioapics) :=
  match ids with
  | [] => Some (0, gsi, s)
  | id :: ids' =>
      info ← ioapic_array s !! id;
      let (n, s) := ioapic_nr_pins (addr info) s in
      if n <=? CONFIG_MAX_IOAPIC_LINES then
        count_pins ids' (u32 (gsi + n))
          s⟨ioapic_array := <[id := info⟨nr_pins := n⟩]> (ioapic_array s)⟩
      else Some (- EINVAL, gsi, s)
  end.

Definition init_ioapic_id_info (madt : list madt_subtable) (s : ioapics) : option (Z * ioapics) :=
  let (arr, n) := parse_madt_ioapic madt (ioapic_array s) 0 in
  let s := s⟨ioapic_array := arr⟩⟨ioapic_num := n⟩ in
  if n <=? CONFIG_MAX_IOAPIC_NUM then
    '(ret, gsi, s) ← count_pins (seq 0 (Z.to_nat n)) 0 s;
    Some (if (ret =? 0) && (gsi <? NR_LEGACY_PIN) then - EINVAL else ret, s)
  else Some (- EINVAL, s).

Definition create_rte_for_legacy_irq (i vr : Z) : option Z :=
  tm ← legacy_irq_trigger_mode !! Z.to_nat i;
  let rte := set_field 16 1 1 0 in
  let rte := set_field 15 1 tm rte in
  let rte := set_field 11 1 1 rte in
  let rte := set_field 8 3 1 rte in
  let rte := set_field 0 8 vr rte in
  let rte := set_field 13 1 0 rte in
  Some (set_field 56 8 1 rte).

Variable get_pcpu_nums : Z.

Definition create_rte_for_gsi_irq (i vr : Z) : option Z :=
  if i <? NR_LEGACY_PIN then create_rte_for_legacy_irq i vr
  else
    let rte := set_field 16 1 1 0 in
    let rte := set_field 15 1 1 rte in
    let rte := set_field 11 1 1 rte in
    let rte := set_field 8 3 1 rte in
    let rte := set_field 0 8 vr rte in
    let rte := set_field 13 1 0 rte in
    Some (set_field 56 8 (u8 (u64 (Z.shiftl 1 get_pcpu_nums) - 1)) rte).

(** The chips and the interrupts, the EOIs sent to the local APIC and the spurious interrupts. *)
Record x86_host := mk_x86_host { io : ioapics; xi : x86_irqs; lapic_eois : Z; spurious : Z }.

#[export] Instance eta_x86_host : Eta x86_host :=
  { eta := rd mk_x86_host <*> io <*> xi <*> lapic_eois <*> spurious }.

Definition ioapic_set_routing (gsi vr : Z) (h : x86_host) : option x86_host :=
  t ← gsi_at gsi (io h);
  rte ← create_rte_for_gsi_irq gsi vr;
  let h := h⟨io := ioapic_set_rte_entry (base_addr t) (pin t) rte (io h)⟩ in
  q ← set_irq_trigger_mode gsi (rte_trigger_mode rte =? 1) (gen (xi h));
  Some h⟨xi := (xi h)⟨gen := q⟩⟩.

(** A turn of the inner loop of [ioapic_setup_irqs]. *)
Definition setup_pin (id : nat) (info : ioapic_info) (p : Z) (h : x86_host) : option x86_host :=
  let gsi := u32 (gsi_base info + p) in
  _ ← gsi_at gsi (io h);
  let t := mk_gsi_table true (info_id info) (Z.of_nat id) p (addr info) in
  let h := h⟨io := (io h)⟨gsi_table_data := <[Z.to_nat gsi := t]> (gsi_table_data (io h))⟩⟩ in
  '(q, r) ← reserve_irq_num gsi (gen (xi h));
  let h := h⟨xi := (xi h)⟨gen := q⟩⟩ in
  if r =? IRQ_INVALID then Some h
  else if gsi <? NR_LEGACY_PIN then
    '(x, vr) ← alloc_irq_vector gsi (xi h);
    let h := h⟨xi := x⟩ in
    if vr =? VECTOR_INVALID then Some h else ioapic_set_routing gsi vr h
  else ioapic_set_routing gsi 0 h.

Fixpoint setup_pins (id : nat) (info : ioapic_info) (ps : list Z) (h : x86_host) : option x86_host :=
  match ps with
  | [] => Some h
  | p :: ps' => h ← setup_pin id info p h; setup_pins id info ps' h
  end.

(** The outer loop, with the GSI after the last one. *)
Fixpoint setup_chips (ids : list nat) (gsi : Z) (h : x86_host) : option (Z * x86_host) :=
  match ids with
  | [] => Some (gsi, h)
  | id :: ids' =>
      info ← ioapic_array (io h) !! id;
      h ← setup_pins id info (seqZ 0 (nr_pins info)) h;
      setup_chips ids' (u32 (gsi_base info + nr_pins info)) h
  end.

Definition ioapic_setup_irqs (h : x86_host) : option x86_host :=
  '(gsi, h) ← setup_chips (seq 0 (Z.to_nat (ioapic_num (io h)))) 0 h;
  Some h⟨io := (io h)⟨ioapic_max_nr_gsi := gsi⟩⟩.

(** init_interrupt of common/irq.c on the boot CPU, with the architecture's part: the
    descriptors, the static vectors and the pins. *)
Definition init_interrupt (max_vm : Z) (q : irqs) (s : ioapics) : option x86_host :=
  x ← init_irq_descs_arch max_vm (init_irq_descs q);
  ioapic_setup_irqs (mk_x86_host s x 0 0).

(** *** Suspend and resume *)

Fixpoint save_pins (base : Z) (ps : list Z) (saved : list Z) (s : ioapics) : option (list Z * ioapics) :=
  match ps with
  | [] => Some (saved, s)
  | p :: ps' =>
      _ ← saved !! Z.to_nat p;
      let (rte, s) := ioapic_get_rte_entry base p s in
      save_pins base ps' (<[Z.to_nat p := rte]> saved) s
  end.

Fixpoint suspend_chips (ids : list nat) (s : ioapics) : option ioapics :=
  match ids with
  | [] => Some s
  | id :: ids' =>
      info ← ioapic_array s !! id;
      saved ← saved_rte s !! id;
      '(saved, s) ← save_pins (addr info) (seqZ 0 (nr_pins info)) saved s;
      suspend_chips ids' s⟨saved_rte := <[id := saved]> (saved_rte s)⟩
  end.

Definition suspend_ioapic (s : ioapics) : option ioapics :=
  suspend_chips (seq 0 (Z.to_nat (ioapic_num s))) s.

Fixpoint restore_pins (base : Z) (ps : list Z) (saved : list Z) (s : ioapics) : option ioapics :=
  match ps with
  | [] => Some s
  | p :: ps' => rte ← saved !! Z.to_nat p; restore_pins base ps' saved (ioapic_set_rte_entry base p rte s)
  end.

Fixpoint resume_chips (ids : list nat) (s : ioapics) : option ioapics :=
  match ids with
  | [] => Some s
  | id :: ids' =>
      info ← ioapic_array s !! id;
      saved ← saved_rte s !! id;
      s ← restore_pins (addr info) (seqZ 0 (nr_pins info)) saved s;
      resume_chips ids' s
  end.

Definition resume_ioapic (s : ioapics) : option ioapics :=
  resume_chips (seq 0 (Z.to_nat (ioapic_num s))) s.

(** *** Interrupts *)

Definition irq_need_mask (d : irq_desc) (s : ioapics) : option bool :=
  if nonzero (flags d &&& IRQF_LEVEL) then is_ioapic_irq (irq d) s else Some false.

Definition irq_need_unmask (d : irq_desc) (s : ioapics) : option bool :=
  if nonzero (flags d &&& IRQF_LEVEL) && negb (nonzero (flags d &&& IRQF_PT))
  then is_ioapic_irq (irq d) s else Some false.

Definition pre_irq_arch (d : irq_desc) (h : x86_host) : option x86_host :=
  m ← irq_need_mask d (io h);
  s ← (if m : bool then ioapic_gsi_mask_irq (irq d) (io h) else Some (io h));
  Some h⟨io := s⟩⟨lapic_eois := lapic_eois h + 1⟩.

Definition post_irq_arch (d : irq_desc) (h : x86_host) : option x86_host :=
  m ← irq_need_unmask d (io h);
  s ← (if m : bool then ioapic_gsi_unmask_irq (irq d) (io h) else Some (io h));
  Some h⟨io := s⟩.

(** [do_irq] up to [do_softirq], with the architecture's part of [handle_irq] around the
    action. *)
Definition x86_do_irq (i : Z) (h : x86_host) : option x86_host :=
  if i <? NR_IRQS then
    d ← desc_of i (gen (xi h));
    let alloc := test_map i (irq_alloc_bitmap (gen (xi h))) in
    h ← (if alloc then pre_irq_arch d h else Some h);
    q ← dispatch i (gen (xi h));
    let h := h⟨xi := (xi h)⟨gen := q⟩⟩ in
    if alloc then post_irq_arch d h else Some h
  else Some h.

Definition dispatch_interrupt (vr : Z) (h : x86_host) : option x86_host :=
  i ← vector_to_irq (xi h) !! Z.to_nat vr;
  if i <? NR_IRQS then
    vec ← irq_data (xi h) !! Z.to_nat i;
    if vr =? vec then x86_do_irq i h else Some h
  else Some h⟨lapic_eois := lapic_eois h + 1⟩⟨spurious := spurious h + 1⟩.
End ioapic.
