(* ===== verification/IoapicInv.v ===== *)
(** * The I/O APICs of the platform: what their driver guarantees

    For chips that behave as documented ([IoapicDeviceLaws]): after boot the table of GSIs
    describes exactly the pins of the platform and every pin is masked; an interrupt calls the
    action that is registered for its vector and a level-triggered pin stays masked for as long as
    it should; a suspend and a resume give back the entries. *)

From S2P Require Import Prelude Bits Irq Assign Vioapic VioapicInv X86Irq Ioapic.
Import Irq.Irq.

#[local] Existing Instance x86_bitmap.

(** ** Chips *)

(** The bits of an entry that software sets: all but Delivery Status, Remote IRR and the reserved
    ones (with the upper bits as the interrupt remapping format has them). *)
Definition entry_bit (b : Z) : bool :=
  ((0 <=? b) && (b <? 17) && negb (b =? 12) && negb (b =? 14)) || ((48 <=? b) && (b <? 64)).

(** Two entries have the same software-defined bits. *)
Definition agrees (x y : Z) : Prop := ∀ b, entry_bit b = true → Z.testbit x b = Z.testbit y b.

Section laws.
Context {D : IoapicDevice}.

(** The register [r], read through the window. *)
Definition reg (r : Z) (c : chip) : Z := mmio_read32 IOAPIC_WINDOW (mmio_write32 r IOAPIC_REGSEL c).

Definition window_write (r v : Z) (c : chip) : chip :=
  mmio_write32 v IOAPIC_WINDOW (mmio_write32 r IOAPIC_REGSEL c).

Class IoapicDeviceLaws : Prop := {
  dl_word r c : word 32 (reg r c);
  dl_select r r' c : reg r' (mmio_write32 r IOAPIC_REGSEL c) = reg r' c;
  dl_other r r' v c : r ≠ r' → reg r' (window_write r v c) = reg r' c;
  dl_write r v c b : IOAPIC_REDTBL ≤ r < 0x100 → word 32 v → 0 ≤ b < 32 →
    entry_bit (b + 32 * (r mod 2)) = true → Z.testbit (reg r (window_write r v c)) b = Z.testbit v b }.

Context {L : IoapicDeviceLaws}.

(** The entry of a pin of the chip at an address. *)
Definition entry (base p : Z) (s : ioapics) : Z :=
  reg (0x10 + 2 * p) (hw s base) ||| Z.shiftl (reg (0x11 + 2 * p) (hw s base)) 32.

(** The driver's data is as before. *)
Record same_data (s s' : ioapics) : Prop := {
  sd_table : gsi_table_data s' = gsi_table_data s;
  sd_max : ioapic_max_nr_gsi s' = ioapic_max_nr_gsi s;
  sd_saved : saved_rte s' = saved_rte s;
  sd_array : ioapic_array s' = ioapic_array s;
  sd_num : ioapic_num s' = ioapic_num s;
}.

(** And all registers. *)
Record same_regs (s s' : ioapics) : Prop := {
  sr_data : same_data s s';
  sr_reg b r : reg r (hw s' b) = reg r (hw s b);
}.

Lemma read_reg_ok base r s :
  ∃ s', ioapic_read_reg32 base r s = (reg r (hw s base), s') ∧ same_regs s s'.
Proof using L.
  unfold ioapic_read_reg32. eexists. split.
  - f_equal. cbn. by rewrite Z.eqb_refl.
  - split; [done|]. intros b r'. cbn. destruct (Z.eqb_spec b base) as [->|]; [apply dl_select|done].
Qed.

Lemma same_regs_trans s1 s2 s3 : same_regs s1 s2 → same_regs s2 s3 → same_regs s1 s3.
Proof. intros [[] H1] [[] H2]. split; [split; congruence|]. intros. by rewrite H2, H1. Qed.

Lemma same_entry s s' b p : same_regs s s' → entry b p s' = entry b p s.
Proof. intros [_ H]. unfold entry. by rewrite !H. Qed.

Lemma rte_addr_ok p : 0 ≤ p < 120 → rte_addr p = 0x10 + 2 * p ∧ u32 (rte_addr p + 1) = 0x11 + 2 * p.
Proof.
  intros Hp. unfold rte_addr, u32. rewrite !(Z.mod_small (p * 2 + 16)) by lia. rewrite Z.mod_small by lia. lia.
Qed.

Lemma get_entry_ok base p s : 0 ≤ p < 120 →
  ∃ s', ioapic_get_rte_entry base p s = (entry base p s, s') ∧ same_regs s s'.
Proof using L.
  intros Hp. destruct (rte_addr_ok p Hp) as [E1 E2]. unfold ioapic_get_rte_entry. rewrite E2, E1.
  destruct (read_reg_ok base (0x10 + 2 * p) s) as (s1 & -> & H1).
  destruct (read_reg_ok base (0x11 + 2 * p) s1) as (s2 & -> & H2).
  exists s2. split; [|by eapply same_regs_trans]. unfold entry. by rewrite (sr_reg _ _ H1).
Qed.

Lemma write_reg_ok base r v s :
  let s' := ioapic_write_reg32 base r v s in
  same_data s s' ∧
  (∀ b r', b ≠ base ∨ r' ≠ r → reg r' (hw s' b) = reg r' (hw s b)) ∧
  reg r (hw s' base) = reg r (window_write r v (hw s base)).
Proof using L.
  cbn. split; [done|]. rewrite !Z.eqb_refl. split; [|done]. intros b r' Hne.
  destruct (Z.eqb_spec b base) as [->|]; [|done]. destruct Hne as [?|Hne]; [done|]. apply dl_other. congruence.
Qed.

Lemma entry_testbit base p s b : 0 ≤ b →
  Z.testbit (entry base p s) b =
    if b <? 32 then Z.testbit (reg (0x10 + 2 * p) (hw s base)) b
    else Z.testbit (reg (0x11 + 2 * p) (hw s base)) (b - 32).
Proof using L.
  intros Hb. unfold entry. rewrite Z.lor_spec, Z.shiftl_spec by done. destruct (Z.ltb_spec b 32).
  - by rewrite (Z.testbit_neg_r _ (b - 32)), orb_false_r by lia.
  - rewrite (word_testbit_high 32); [done|lia|apply dl_word].
Qed.

Lemma field_word n x : 0 ≤ n → word n (field 0 n x) ∧ word n (field n n x).
Proof. intros Hn. unfold field, word. rewrite !Z.land_ones by done. split; apply Z.mod_pos_bound; lia. Qed.

Lemma set_entry_ok base p rte s : 0 ≤ p < 120 →
  let s' := ioapic_set_rte_entry base p rte s in
  same_data s s' ∧ agrees (entry base p s') rte ∧
  (∀ b p', b ≠ base ∨ p' ≠ p → entry b p' s' = entry b p' s).
Proof using L.
  intros Hp. destruct (rte_addr_ok p Hp) as [E1 E2]. unfold ioapic_set_rte_entry. rewrite E2, E1.
  destruct (write_reg_ok base (0x10 + 2 * p) (field 0 32 rte) s) as ([] & O1 & W1).
  set (s1 := ioapic_write_reg32 base (0x10 + 2 * p) _ s) in *.
  destruct (write_reg_ok base (0x11 + 2 * p) (field 32 32 rte) s1) as ([] & O2 & W2).
  set (s2 := ioapic_write_reg32 base (0x11 + 2 * p) _ s1) in *. destruct (field_word 32 rte ltac:(lia)) as [F1 F2].
  split; [split; congruence|]. split.
  - intros b Hb. assert (Hr : 0 ≤ b < 64) by (unfold entry_bit in Hb; lia).
    rewrite entry_testbit by lia. destruct (Z.ltb_spec b 32).
    + rewrite O2, W1 by (right; lia). rewrite dl_write; [|unfold IOAPIC_REDTBL; lia|done|lia|].
      * rewrite field_testbit, Z.add_0_r by lia. by rewrite (proj2 (Z.ltb_lt b 32)), andb_true_r by lia.
      * replace ((16 + 2 * p) mod 2) with 0 by (by rewrite Z.mul_comm, Z.mod_add by lia). by rewrite Z.mul_0_r, Z.add_0_r.
    + rewrite W2, dl_write; [|unfold IOAPIC_REDTBL; lia|done|lia|].
      * rewrite field_testbit by lia. rewrite (proj2 (Z.ltb_lt (b - 32) 32)), andb_true_r by lia. f_equal. lia.
      * replace ((17 + 2 * p) mod 2) with 1 by (by rewrite Z.mul_comm, Z.mod_add by lia). by replace (b - 32 + 32 * 1) with b by lia.
  - intros b p' Hne. unfold entry. rewrite !O2, !O1; [done|lia..].
Qed.
End laws.

(** ** Legacy vectors *)

(** Only the interrupts of the first pins have vectors of the dynamic range. *)
Definition legacy_only (x : x86_irqs) : Prop :=
  ∀ j vr, irq_data x !! j = Some vr → vr < VECTOR_FIXED_START → (j < 16)%nat.

(** Then there is a free one among the first 17. *)
Lemma legacy_vector_free x : x86_wf x → legacy_only x →
  ∃ u, VECTOR_DYNAMIC_START ≤ u ≤ VECTOR_DYNAMIC_END ∧ vector_to_irq x !! Z.to_nat u = Some IRQ_INVALID.
Proof.
  intros Hw Hl. set (us := seqZ VECTOR_DYNAMIC_START 17). set (f u := default 0 (vector_to_irq x !! Z.to_nat u)).
  destruct (decide (Exists (λ u, f u = IRQ_INVALID) us)) as [He|He].
  - apply Exists_exists in He as (u & Hu%elem_of_seqZ & Hf). exists u.
    unfold VECTOR_DYNAMIC_START, VECTOR_DYNAMIC_END in *. split; [lia|].
    destruct (lookup_lt_is_Some_2 (vector_to_irq x) (Z.to_nat u)) as [i Hi].
    { rewrite (vw_table x (xw_vec x Hw)). lia. }
    unfold f in Hf. rewrite Hi in Hf |- *. cbn in Hf. by subst.
  - exfalso. rewrite <- Forall_Exists_neg, Forall_forall in He.
    assert (Hback : ∀ u, u ∈ us → 0 ≤ f u < 16 ∧ irq_data x !! Z.to_nat (f u) = Some u).
    { intros u Hu. assert (Hr := Hu). apply elem_of_seqZ in Hr. specialize (He u Hu). unfold VECTOR_DYNAMIC_START in Hr.
      destruct (lookup_lt_is_Some_2 (vector_to_irq x) (Z.to_nat u)) as [i Hi].
      { rewrite (vw_table x (xw_vec x Hw)). lia. }
      unfold f in *. rewrite Hi in *. cbn in *. destruct (vw_back x (xw_vec x Hw) _ _ Hi He) as [Hri Hd].
      rewrite Z2Nat.id in Hd by lia. split; [|done]. pose proof (Hl _ _ Hd ltac:(unfold VECTOR_FIXED_START; lia)). lia. }
    assert (Hnd : NoDup (f <$> us)).
    { apply NoDup_fmap_2_strong; [|apply NoDup_seqZ]. intros u1 u2 H1 H2 E. destruct (Hback u1 H1) as [_ D1], (Hback u2 H2) as [_ D2].
      rewrite E in D1. congruence. }
    assert (Hs : f <$> us ⊆+ seqZ 0 16).
    { apply NoDup_submseteq; [done|]. intros z (u & -> & Hu)%list_elem_of_fmap_1. apply elem_of_seqZ.
      destruct (Hback u Hu). lia. }
    apply submseteq_length in Hs. rewrite length_fmap in Hs. unfold us in Hs. rewrite !length_seqZ in Hs. lia.
Qed.

Lemma legacy_alloc i x : x86_wf x → legacy_only x → 0 ≤ i < 16 →
  ∃ x' vr, alloc_irq_vector i x = Some (x', vr) ∧ x86_wf x' ∧ legacy_only x' ∧ gen x' = gen x ∧
    irq_data x' !! Z.to_nat i = Some vr ∧ 0 ≤ vr < 256 ∧ vr ≠ VECTOR_INVALID ∧
    (∀ j, j ≠ Z.to_nat i → irq_data x' !! j = irq_data x !! j) ∧
    (irq_data x !! Z.to_nat i ≠ Some VECTOR_INVALID → irq_data x !! Z.to_nat i = Some vr).
Proof.
  intros Hw Hl Hi. destruct (alloc_step i x Hw) as (x' & vr & E & Hw' & Hg & Hv & Hoth & Hkeep & Hfull).
  { unfold NR_IRQS. lia. }
  assert (Hn : vr ≠ VECTOR_INVALID).
  { intros ->. destruct (legacy_vector_free x Hw Hl) as (u & Hu & Hf). by apply (Hfull eq_refl u Hu). }
  destruct (vw_bound x' (xw_vec x' Hw') _ _ Hv Hn) as [Hr _]. unfold VECTOR_DYNAMIC_START, NR_MAX_VECTOR in Hr.
  exists x', vr. split_and!; try done; [|lia..]. intros j u Hj Hu. destruct (decide (j = Z.to_nat i)) as [->|Hne]; [lia|].
  rewrite Hoth in Hj by done. by eapply Hl.
Qed.

(** ** Entries of GSIs *)

Definition level_gsi (g : Z) : bool := (g =? 9) || (16 <=? g).

Lemma created_rte n g vr : 0 ≤ g → 0 ≤ vr < 256 →
  ∃ rte, create_rte_for_gsi_irq n g vr = Some rte ∧ rte_intr_mask rte = 1 ∧
    rte_trigger_mode rte = (if level_gsi g then 1 else 0) ∧ rte_vector rte = vr ∧
    rte_intr_polarity rte = 0 ∧ rte_dest_mode rte = 1 ∧ rte_delivery_mode rte = 1.
Proof.
  intros Hg Hv. assert (Ev : vr &&& Z.ones 8 = vr) by (rewrite Z.land_ones by lia; by apply Z.mod_small).
  assert (Hf : ∀ tm d, tm = 0 ∨ tm = 1 →
    let rte := set_field 56 8 d (set_field 13 1 0 (set_field 0 8 vr (set_field 8 3 1
                 (set_field 11 1 1 (set_field 15 1 tm (set_field 16 1 1 0)))))) in
    rte_intr_mask rte = 1 ∧ rte_trigger_mode rte = tm ∧ rte_vector rte = vr ∧
    rte_intr_polarity rte = 0 ∧ rte_dest_mode rte = 1 ∧ rte_delivery_mode rte = 1).
  { intros tm d Ht. unfold rte_intr_mask, rte_trigger_mode, rte_vector, rte_intr_polarity, rte_dest_mode, rte_delivery_mode.
    cbn zeta. split_and!; repeat ((rewrite field_set_same by lia) || (rewrite field_set_other by lia)); try done.
    by destruct Ht as [-> | ->]. }
  unfold create_rte_for_gsi_irq, create_rte_for_legacy_irq, NR_LEGACY_PIN, level_gsi.
  destruct (Z.ltb_spec g 16) as [Hlt|Hge]; cycle 1.
  { eexists. split; [done|]. rewrite (proj2 (Z.leb_le 16 g)), orb_true_r by done. apply (Hf 1). by right. }
  rewrite (proj2 (Z.leb_gt 16 g)), orb_false_r by done.
  assert (Ht : legacy_irq_trigger_mode !! Z.to_nat g = Some (if g =? 9 then 1 else 0)).
  { assert (Hc : Forall (λ z, legacy_irq_trigger_mode !! Z.to_nat z = Some (if z =? 9 then 1 else 0)) (seqZ 0 16))
      by (by apply (bool_decide_unpack _)).
    rewrite Forall_forall in Hc. apply Hc, elem_of_seqZ. lia. }
  rewrite Ht. cbn [mbind option_bind]. eexists. split; [done|]. apply Hf. destruct (g =? 9); auto.
Qed.

(** The software-defined fields of entries that agree. *)
Lemma agrees_field lo n x y : 0 ≤ lo → 0 ≤ n → (∀ b, lo ≤ b < lo + n → entry_bit b = true) →
  agrees x y → field lo n x = field lo n y.
Proof.
  intros Hlo Hn Hb Ha. apply Z.bits_inj'. intros i Hi. rewrite !field_testbit by done.
  destruct (Z.ltb_spec i n); [|by rewrite !andb_false_r]. by rewrite Ha by (apply Hb; lia).
Qed.

Lemma agrees_fields x y : agrees x y →
  rte_intr_mask x = rte_intr_mask y ∧ rte_trigger_mode x = rte_trigger_mode y ∧ rte_vector x = rte_vector y ∧
  rte_intr_polarity x = rte_intr_polarity y ∧ rte_dest_mode x = rte_dest_mode y ∧
  rte_delivery_mode x = rte_delivery_mode y ∧ rte_dest_field x = rte_dest_field y.
Proof.
  intros Ha. split_and!; (apply agrees_field; [lia|lia| |done]); unfold entry_bit; intros b Hb; lia.
Qed.

(** ** Setting up the pins *)

Section setup.
Context {D : IoapicDevice} {L : IoapicDeviceLaws} (n : Z).

(** The pin [p] of the chip [k], described by [info], has its GSI: the table, the entry of the
    chip (masked, with the default trigger mode and the vector of a legacy interrupt), and the
    descriptor with its number reserved. *)
Record pin_ready (h : x86_host) (k : nat) (info : ioapic_info) (p : Z) : Prop := {
  pr_table : gsi_table_data (io h) !! Z.to_nat (gsi_base info + p)
    = Some (mk_gsi_table true (info_id info) (Z.of_nat k) p (addr info));
  pr_mask : rte_intr_mask (entry (addr info) p (io h)) = 1;
  pr_trigger : rte_trigger_mode (entry (addr info) p (io h)) = if level_gsi (gsi_base info + p) then 1 else 0;
  pr_vector : if gsi_base info + p <? 16
    then irq_data (xi h) !! Z.to_nat (gsi_base info + p) = Some (rte_vector (entry (addr info) p (io h)))
    else rte_vector (entry (addr info) p (io h)) = 0;
  pr_reserved : reserved (gen (xi h)) (gsi_base info + p);
  pr_flags : ∃ d, irq_desc_array (gen (xi h)) !! Z.to_nat (gsi_base info + p) = Some d ∧
    nonzero (flags d &&& IRQF_LEVEL) = level_gsi (gsi_base info + p);
}.

Record setup_inv (h : x86_host) : Prop := {
  si_x : x86_wf (xi h);
  si_legacy : legacy_only (xi h);
  si_table : length (gsi_table_data (io h)) = 120%nat;
}.

(** What setting up GSI [g] at pin [p] of the chip at [base] leaves alone. *)
Record setup_frame (g base p : Z) (h h' : x86_host) : Prop := {
  sf_array : ioapic_array (io h') = ioapic_array (io h);
  sf_num : ioapic_num (io h') = ioapic_num (io h);
  sf_table j : j ≠ Z.to_nat g → gsi_table_data (io h') !! j = gsi_table_data (io h) !! j;
  sf_entry b p' : b ≠ base ∨ p' ≠ p → entry b p' (io h') = entry b p' (io h);
  sf_data j : j ≠ Z.to_nat g → irq_data (xi h') !! j = irq_data (xi h) !! j;
  sf_desc j : j ≠ Z.to_nat g → irq_desc_array (gen (xi h')) !! j = irq_desc_array (gen (xi h)) !! j;
  sf_reserved j : 0 ≤ j → reserved (gen (xi h)) j → reserved (gen (xi h')) j;
  sf_saved : saved_rte (io h') = saved_rte (io h);
}.

Lemma frame_ready g base p h h' k info p' : setup_frame g base p h h' →
  0 ≤ g → 0 ≤ gsi_base info + p' → gsi_base info + p' ≠ g → addr info ≠ base ∨ p' ≠ p →
  pin_ready h k info p' → pin_ready h' k info p'.
Proof.
  intros [] Hg Hg' Hne Hpin []. split; rewrite ?sf_table0, ?sf_entry0, ?sf_data0, ?sf_desc0 by (done || lia); auto.
Qed.

Lemma set_routing_ok g vr k info p h : setup_inv h → 0 ≤ g < 120 → 0 ≤ p < 120 → 0 ≤ vr < 256 →
  gsi_table_data (io h) !! Z.to_nat g = Some (mk_gsi_table true (info_id info) (Z.of_nat k) p (addr info)) →
  ∃ h', ioapic_set_routing n g vr h = Some h' ∧ setup_inv h' ∧ setup_frame g (addr info) p h h' ∧
    gsi_table_data (io h') = gsi_table_data (io h) ∧ irq_data (xi h') = irq_data (xi h) ∧
    let e := entry (addr info) p (io h') in
    rte_intr_mask e = 1 ∧ rte_trigger_mode e = (if level_gsi g then 1 else 0) ∧ rte_vector e = vr ∧
    ∃ d, irq_desc_array (gen (xi h')) !! Z.to_nat g = Some d ∧ nonzero (flags d &&& IRQF_LEVEL) = level_gsi g.
Proof using L.
  intros [Hx Hl Ht] Hg Hp Hv Htab. unfold ioapic_set_routing, gsi_at. rewrite Htab. cbn [mbind option_bind base_addr pin].
  destruct (created_rte n g vr ltac:(lia) Hv) as (rte & -> & R1 & R2 & R3 & _). cbn [mbind option_bind].
  destruct (set_entry_ok (addr info) p rte (io h) Hp) as ([] & Ha & Ho).
  set (s' := ioapic_set_rte_entry (addr info) p rte (io h)) in *. clearbody s'.
  change (gen (xi (h⟨io := s'⟩))) with (gen (xi h)).
  destruct (trigger_ok g (rte_trigger_mode rte =? 1) (xi h) Hx) as (d & d' & Hd & -> & Hf & [Hw _]).
  { unfold NR_IRQS. lia. }
  cbn [mbind option_bind]. eexists. split; [done|]. cbn. destruct (agrees_fields _ _ Ha) as (A1 & A2 & A3 & _).
  assert (Hld : (Z.to_nat g < length (irq_desc_array (gen (xi h))))%nat) by by eapply lookup_lt_Some.
  split_and!; try congruence.
  - split; [exact Hw|exact Hl|cbn; congruence].
  - split; cbn; try done; try congruence.
    intros j Hj. by apply list_lookup_insert_ne.
  - exists d'. rewrite list_lookup_insert_eq by done. split; [done|]. rewrite Hf, R2. by destruct (level_gsi g).
Qed.

Lemma setup_frame_trans g base p h1 h2 h3 : setup_frame g base p h1 h2 → setup_frame g base p h2 h3 →
  setup_frame g base p h1 h3.
Proof.
  intros [A1 A2 A3 A4 A5 A6 A7 A8] [B1 B2 B3 B4 B5 B6 B7 B8]. split; try congruence.
  - intros j Hj. by rewrite B3, A3.
  - intros b p' Hj. by rewrite B4, A4.
  - intros j Hj. by rewrite B5, A5.
  - intros j Hj. by rewrite B6, A6.
  - auto.
Qed.

(** The table entry and the number. *)
Definition claimed (k : nat) (info : ioapic_info) (p g : Z) (q : irqs) (h : x86_host) : x86_host :=
  h⟨io := (io h)⟨gsi_table_data := <[Z.to_nat g := mk_gsi_table true (info_id info) (Z.of_nat k) p (addr info)]>
                                     (gsi_table_data (io h))⟩⟩⟨xi := (xi h)⟨gen := q⟩⟩.

Lemma claim_ok k info p h : setup_inv h → 0 ≤ p → 0 ≤ gsi_base info → gsi_base info + p < 120 →
  let g := gsi_base info + p in
  ∃ q, reserve_irq_num g (gen (xi h)) = Some (q, g) ∧ setup_inv (claimed k info p g q h) ∧
    setup_frame g (addr info) p h (claimed k info p g q h) ∧ reserved q g ∧
    gsi_table_data (io (claimed k info p g q h)) !! Z.to_nat g
      = Some (mk_gsi_table true (info_id info) (Z.of_nat k) p (addr info)).
Proof.
  intros [Hx Hl Ht] Hp Hb Hg g. assert (Hg' : 0 ≤ g < 120) by lia.
  destruct (reserve_step g (xi h) Hx) as (q & E & Hw & Hd & Hr & Hm); [unfold NR_IRQS; lia|].
  exists q. split_and!; [done| | |done|].
  - split; [exact Hw|exact Hl|]. cbn. by rewrite length_insert.
  - split; cbn; try done; [|by rewrite Hd]. intros j Hj. by apply list_lookup_insert_ne.
  - cbn. apply list_lookup_insert_eq. lia.
Qed.

Lemma setup_pin_ok k info p h : setup_inv h → 0 ≤ p → 0 ≤ gsi_base info → gsi_base info + p < 120 →
  ∃ h', setup_pin n k info p h = Some h' ∧ setup_inv h' ∧ pin_ready h' k info p ∧
    setup_frame (gsi_base info + p) (addr info) p h h'.
Proof using L.
  intros HI Hp Hb Hg. destruct (claim_ok k info p h HI Hp Hb Hg) as (q & Er & HI1 & F1 & Hres & Htab).
  set (g := gsi_base info + p) in *. assert (Hg' : 0 ≤ g < 120) by lia.
  assert (Eg : u32 g = g) by (apply Z.mod_small; lia).
  unfold setup_pin. fold g. rewrite Eg. unfold gsi_at.
  destruct (lookup_lt_is_Some_2 (gsi_table_data (io h)) (Z.to_nat g)) as [t0 ->]; [rewrite (si_table h HI); lia|].
  cbn [mbind option_bind].
  match goal with |- context [reserve_irq_num g ?x] => change x with (gen (xi h)) end. rewrite Er. cbn [mbind option_bind].
  match goal with |- context [if g =? IRQ_INVALID then Some ?x else _] => change x with (claimed k info p g q h) end.
  set (h1 := claimed k info p g q h) in *. unfold NR_LEGACY_PIN.
  rewrite (proj2 (Z.eqb_neq g IRQ_INVALID)) by (unfold IRQ_INVALID; lia).
  destruct (Z.ltb_spec g 16) as [Hlt|Hge].
  - destruct (legacy_alloc g (xi h1) (si_x _ HI1) (si_legacy _ HI1)) as (x & vr & -> & Hx & Hl & Hgen & Hd & Hvr & Hn & Ho & _); [lia|].
    cbn [mbind option_bind]. rewrite (proj2 (Z.eqb_neq _ _)) by done.
    assert (HI2 : setup_inv (h1⟨xi := x⟩)) by (split; [done|done|apply HI1]).
    destruct (set_routing_ok g vr k info p (h1⟨xi := x⟩) HI2 Hg' ltac:(lia) Hvr Htab)
      as (h' & E & HI' & F' & T' & D' & R1 & R2 & R3 & R4).
    exists h'. split_and!; [done|done| |].
    + split; fold g; [rewrite T'; exact Htab|done|done| | |done].
      * rewrite (proj2 (Z.ltb_lt g 16)) by done. by rewrite D', R3.
      * apply (sf_reserved _ _ _ _ _ F'); [lia|]. cbn. by rewrite Hgen.
    + eapply setup_frame_trans; [exact F1|]. eapply setup_frame_trans; [|exact F'].
      split; cbn; try done; by rewrite Hgen.
  - destruct (set_routing_ok g 0 k info p h1 HI1 Hg' ltac:(lia) ltac:(lia) Htab)
      as (h' & E & HI' & F' & T' & D' & R1 & R2 & R3 & R4).
    exists h'. split_and!; [done|done| |by eapply setup_frame_trans].
    split; fold g; [rewrite T'; exact Htab|done|done| | |done].
    + by rewrite (proj2 (Z.ltb_ge g 16)).
    + apply (sf_reserved _ _ _ _ _ F'); [lia|done].
Qed.

(** *** The loops *)

(** [in_chip info g]: the GSI belongs to the chip. *)
Definition in_chip (info : ioapic_info) (g : Z) : Prop := gsi_base info ≤ g < gsi_base info + nr_pins info.

(** The state after the pins [ps] of a chip: other pins that were ready are so still. *)
Record pins_set (info : ioapic_info) (ps : list Z) (h h' : x86_host) : Prop := {
  ps_inv : setup_inv h';
  ps_array : ioapic_array (io h') = ioapic_array (io h);
  ps_num : ioapic_num (io h') = ioapic_num (io h);
  ps_table g : 0 ≤ g → (∀ p, p ∈ ps → g ≠ gsi_base info + p) →
    gsi_table_data (io h') !! Z.to_nat g = gsi_table_data (io h) !! Z.to_nat g;
  ps_others k info' p' : 0 ≤ gsi_base info' + p' →
    (∀ p, p ∈ ps → gsi_base info' + p' ≠ gsi_base info + p ∧ (addr info' ≠ addr info ∨ p' ≠ p)) →
    pin_ready h k info' p' → pin_ready h' k info' p';
  ps_saved : saved_rte (io h') = saved_rte (io h);
}.

Lemma setup_pins_ok k info ps : ∀ h, setup_inv h → NoDup ps → 0 ≤ gsi_base info →
  Forall (λ p, 0 ≤ p ∧ gsi_base info + p < 120) ps →
  ∃ h', setup_pins n k info ps h = Some h' ∧ pins_set info ps h h' ∧ ∀ p, p ∈ ps → pin_ready h' k info p.
Proof using L.
  induction ps as [|p ps IH]; intros h HI Hnd Hb Hps.
  { exists h. split; [done|]. split; [by split|by intros ? ?%elem_of_nil]. }
  apply NoDup_cons in Hnd as [Hnp Hnd]. apply Forall_cons in Hps as [[Hp Hg] Hps].
  destruct (setup_pin_ok k info p h HI Hp Hb Hg) as (h1 & E1 & HI1 & R1 & F1).
  destruct (IH h1 HI1 Hnd Hb Hps) as (h' & E & [S1 S2 S3 S4 S5 S6] & R). cbn [setup_pins]. rewrite E1. cbn [mbind option_bind].
  exists h'. split; [done|]. split; [split|].
  - done.
  - rewrite S2. apply F1.
  - rewrite S3. apply F1.
  - intros g Hg0 Hne. rewrite S4 by (auto || set_solver). apply F1. pose proof (Hne p ltac:(set_solver)). lia.
  - intros k' info' p' Hg0 Hne Hr. apply S5; [done|set_solver|]. destruct (Hne p ltac:(set_solver)).
    eapply frame_ready; [exact F1|lia|done..].
  - rewrite S6. apply F1.
  - intros p' [->|Hp']%elem_of_cons; [|by apply R]. apply S5; [lia| |done].
    intros p2 Hp2. assert (p ≠ p2) by (by intros ->). split; [lia|by right].
Qed.

(** What the firmware promises of the chips: pins that fit the table, different GSIs and
    addresses. *)
Record infos_ok (infos : list ioapic_info) : Prop := {
  io_range info : info ∈ infos → 0 ≤ gsi_base info ∧ 0 ≤ nr_pins info ∧ gsi_base info + nr_pins info ≤ NR_MAX_GSI;
  io_disjoint k k' info info' g : infos !! k = Some info → infos !! k' = Some info' →
    in_chip info g → in_chip info' g → k = k';
  io_addr k k' info info' : infos !! k = Some info → infos !! k' = Some info' → addr info = addr info' → k = k';
}.

Definition zero_saved : list (list Z) :=
  replicate (Z.to_nat CONFIG_MAX_IOAPIC_NUM) (replicate (Z.to_nat CONFIG_MAX_IOAPIC_LINES) 0).

(** All pins of the chips up to [m] are ready, and the table has no others. *)
Record chips_ready (infos : list ioapic_info) (m : nat) (h : x86_host) : Prop := {
  cr_inv : setup_inv h;
  cr_array : ioapic_array (io h) = infos;
  cr_pins k info p : (k < m)%nat → infos !! k = Some info → 0 ≤ p < nr_pins info → pin_ready h k info p;
  cr_free g : 0 ≤ g < 120 → (∀ k info, (k < m)%nat → infos !! k = Some info → ¬ in_chip info g) →
    gsi_table_data (io h) !! Z.to_nat g = Some zero_gsi;
  cr_saved : saved_rte (io h) = zero_saved;
}.

Lemma setup_chip_ok infos m info h : infos_ok infos → infos !! m = Some info → chips_ready infos m h →
  ∃ h', setup_pins n m info (seqZ 0 (nr_pins info)) h = Some h' ∧ chips_ready infos (S m) h' ∧
    ioapic_num (io h') = ioapic_num (io h).
Proof using L.
  intros Hok Hm [HI Ha Hr Hf Hsv]. destruct (io_range _ Hok info) as (B1 & B2 & B3); [by eapply list_elem_of_lookup_2|].
  change NR_MAX_GSI with 120 in B3.
  destruct (setup_pins_ok m info (seqZ 0 (nr_pins info)) h HI (NoDup_seqZ _ _) B1) as (h' & E & [] & R).
  { apply Forall_seqZ. lia. }
  exists h'. split; [done|]. split; [split|done]; try done; try congruence.
  - intros k info' p Hk Hi Hp. destruct (decide (k = m)) as [->|Hkm].
    { rewrite Hm in Hi. injection Hi as <-. apply R, elem_of_seqZ. lia. }
    destruct (io_range _ Hok info') as (C1 & C2 & C3); [by eapply list_elem_of_lookup_2|].
    apply ps_others0; [lia| |by apply Hr; [lia|..]]. intros p2 Hp2%elem_of_seqZ. split.
    + intros Eg. apply Hkm. apply (io_disjoint _ Hok k m info' info (gsi_base info' + p)); unfold in_chip; try done; lia.
    + left. intros Ea. apply Hkm. by apply (io_addr _ Hok k m info' info).
  - intros g Hg Hn. rewrite ps_table0; [|lia|].
    + apply Hf; [done|]. intros k info' Hk. apply Hn. lia.
    + intros p Hp%elem_of_seqZ ->. apply (Hn m info); [lia|done|]. unfold in_chip. lia.
Qed.

Lemma setup_chips_ok infos : ∀ j m gsi h, infos_ok infos → chips_ready infos m h → (m + j ≤ length infos)%nat →
  ∃ gsi' h', setup_chips n (seq m j) gsi h = Some (gsi', h') ∧ chips_ready infos (m + j) h' ∧
    ioapic_num (io h') = ioapic_num (io h).
Proof using L.
  induction j as [|j IH]; intros m gsi h Hok Hr Hm; [exists gsi, h; by rewrite Nat.add_0_r|].
  destruct (lookup_lt_is_Some_2 infos m) as [info Hi]; [lia|].
  cbn [seq setup_chips]. rewrite (cr_array _ _ _ Hr), Hi. cbn [mbind option_bind].
  destruct (setup_chip_ok infos m info h Hok Hi Hr) as (h1 & -> & Hr1 & N1). cbn [mbind option_bind].
  destruct (IH (S m) (u32 (gsi_base info + nr_pins info)) h1 Hok Hr1) as (gsi' & h' & E & Hr' & N'); [lia|].
  exists gsi', h'. split_and!; [done| |congruence]. by rewrite Nat.add_succ_r.
Qed.

(** *** Boot *)

(** The number of pins that the version register of a chip has. *)
Definition chip_pins (c : chip) : Z := Z.shiftr (reg IOAPIC_VER c &&& IOAPIC_MAX_RTE_MASK) MAX_RTE_SHIFT + 1.

(** The chips that the firmware describes. *)
Fixpoint madt_chips (f : Z → chip) (madt : list madt_subtable) : list ioapic_info :=
  match madt with
  | [] => []
  | Madt_other :: madt' => madt_chips f madt'
  | Madt_ioapic id a g :: madt' => mk_ioapic_info id a g (chip_pins (f a)) :: madt_chips f madt'
  end.

(** The state before boot. *)
Definition zero_ioapics (f : Z → chip) : ioapics :=
  mk_ioapics (replicate (Z.to_nat NR_MAX_GSI) zero_gsi) 0 zero_saved
    (replicate (Z.to_nat CONFIG_MAX_IOAPIC_NUM) (mk_ioapic_info 0 0 0 0)) 0 f.

Lemma parse_none f madt arr idx : madt_chips f madt = [] → parse_madt_ioapic madt arr idx = (arr, idx).
Proof. induction madt as [|[] madt IH]; [done|done|]. cbn. done. Qed.

Lemma parse_one f madt i0 info : madt_chips f madt = [info] →
  parse_madt_ioapic madt [i0] 0 = ([mk_ioapic_info (info_id info) (addr info) (gsi_base info) (nr_pins i0)], 1).
Proof.
  induction madt as [|[id a g|] madt IH]; [done| |done]. cbn. intros [= <- Hm]. by rewrite (parse_none f).
Qed.

Lemma madt_chips_pins f madt info : info ∈ madt_chips f madt → nr_pins info = chip_pins (f (addr info)).
Proof.
  induction madt as [|[id a g|] madt IH]; cbn; [by intros ?%elem_of_nil| |done].
  by intros [->|]%elem_of_cons; [|apply IH].
Qed.

(** A platform that the configuration supports. *)
Record platform_ok (infos : list ioapic_info) : Prop := {
  po_num : (length infos ≤ Z.to_nat CONFIG_MAX_IOAPIC_NUM)%nat;
  po_infos : infos_ok infos;
  po_legacy : NR_LEGACY_PIN ≤ foldr (λ i a, nr_pins i + a) 0 infos;
}.

Lemma init_info_ok f madt : platform_ok (madt_chips f madt) →
  ∃ s, init_ioapic_id_info madt (zero_ioapics f) = Some (0, s) ∧
    ioapic_array s = madt_chips f madt ∧ ioapic_num s = Z.of_nat (length (madt_chips f madt)) ∧
    gsi_table_data s = gsi_table_data (zero_ioapics f) ∧ saved_rte s = saved_rte (zero_ioapics f).
Proof using L.
  intros [Hn Hi Hl]. unfold init_ioapic_id_info. unfold NR_LEGACY_PIN in Hl. change (Z.to_nat CONFIG_MAX_IOAPIC_NUM) with 1%nat in Hn.
  destruct (madt_chips f madt) as [|info [|]] eqn:Hm; cbn in Hn, Hl; [lia| |lia].
  change (ioapic_array (zero_ioapics f)) with [mk_ioapic_info 0 0 0 0]. rewrite (parse_one f madt _ info Hm).
  change (1 <=? CONFIG_MAX_IOAPIC_NUM) with true. change (Z.to_nat 1) with 1%nat. cbn [seq].
  assert (Hp : nr_pins info = chip_pins (f (addr info))) by (apply (madt_chips_pins f madt); rewrite Hm; set_solver).
  destruct (io_range _ Hi info) as (B1 & B2 & B3); [set_solver|]. change NR_MAX_GSI with 120 in B3.
  set (s0 := upd ioapic_num _ _). cbn [count_pins]. unfold ioapic_nr_pins.
  change (ioapic_array s0 !! 0%nat) with (Some (mk_ioapic_info (info_id info) (addr info) (gsi_base info) 0)).
  cbn [mbind option_bind addr]. destruct (read_reg_ok (addr info) IOAPIC_VER s0) as (s1 & -> & [[S1 S2 S3 S4 S5] Sr]).
  change (hw s0 (addr info)) with (f (addr info)). fold (chip_pins (f (addr info))). rewrite <- Hp.
  rewrite (proj2 (Z.leb_le _ _)) by (unfold CONFIG_MAX_IOAPIC_LINES; lia). cbn [mbind option_bind].
  assert (Eu : u32 (0 + nr_pins info) = nr_pins info) by (apply Z.mod_small; lia).
  rewrite Eu. cbn [Z.eqb andb]. unfold NR_LEGACY_PIN. rewrite (proj2 (Z.ltb_ge _ _)) by lia.
  eexists. split; [done|]. cbn. rewrite S1, S3, S4, S5. split_and!; try done. by destruct info.
Qed.

Lemma init_descs_fresh q : irqs_wf q → Forall (λ d, action d = None) (irq_desc_array q) → fresh_irqs (init_irq_descs q).
Proof.
  intros [H1 H2 H3] Ha. split.
  - split; [|done|done]. cbn. by rewrite length_imap.
  - cbn. intros i d Hd. rewrite list_lookup_imap in Hd. destruct (irq_desc_array q !! i) as [d0|] eqn:E; [|done].
    injection Hd as <-. split; [done|]. exact (Forall_lookup_1 _ _ _ _ Ha E).
Qed.

Lemma boot_irqs_ok max_vm q : 0 ≤ max_vm ≤ 29 → irqs_wf q → Forall (λ d, action d = None) (irq_desc_array q) →
  ∃ x, init_irq_descs_arch max_vm (init_irq_descs q) = Some x ∧ x86_wf x ∧ legacy_only x.
Proof.
  intros Hm Hq Ha.
  destruct (init_irq_descs_arch_ok max_vm Hm _ (init_descs_fresh q Hq Ha)) as (x & E & Hw & _ & Hs & Ho).
  exists x. split_and!; [done|done|]. intros j vr Hj Hv. exfalso.
  destruct (decide (Z.of_nat j ∈ (irq_static_mappings max_vm).*1)) as [Hin|Hout].
  - apply list_elem_of_fmap_1 in Hin as (p & Ep & Hp). specialize (Hs p Hp). rewrite <- Ep, Nat2Z.id, Hj in Hs.
    injection Hs as ->. destruct (static_ranges max_vm Hm p Hp). lia.
  - rewrite Ho in Hj; [|apply lookup_lt_Some in Hj; by rewrite (vw_data x (xw_vec x Hw)) in Hj|done].
    injection Hj as <-. unfold VECTOR_INVALID, NR_MAX_VECTOR, VECTOR_FIXED_START in Hv. lia.
Qed.

Lemma ioapic_boot_ok f madt max_vm q : 0 ≤ max_vm ≤ 29 → irqs_wf q → Forall (λ d, action d = None) (irq_desc_array q) →
  platform_ok (madt_chips f madt) →
  ∃ s h, init_ioapic_id_info madt (zero_ioapics f) = Some (0, s) ∧ init_interrupt n max_vm q s = Some h ∧
    chips_ready (madt_chips f madt) (length (madt_chips f madt)) h ∧
    ioapic_num (io h) = Z.of_nat (length (madt_chips f madt)).
Proof using L.
  intros Hm Hq Ha Hpo. destruct (init_info_ok f madt Hpo) as (s & Es & Sa & Sn & St & Ss).
  destruct (boot_irqs_ok max_vm q Hm Hq Ha) as (x & Ex & Hx & Hl).
  exists s. unfold init_interrupt. rewrite Ex. cbn [mbind option_bind]. set (h0 := mk_x86_host s x 0 0).
  set (infos := madt_chips f madt) in *.
  assert (Hr0 : chips_ready infos 0 h0).
  { split; [split; [done|done|by cbn; rewrite St]|done|by intros; lia| |exact Ss].
    intros g Hg _. cbn. rewrite St. apply lookup_replicate_2. change (Z.to_nat NR_MAX_GSI) with 120%nat. lia. }
  unfold ioapic_setup_irqs. cbn [io h0]. rewrite Sn, Nat2Z.id.
  destruct (setup_chips_ok infos (length infos) 0 0 h0 (po_infos _ Hpo) Hr0) as (gsi & h & E & [HI Har Hp Hf Hsv] & Hnum); [lia|].
  change (io h0) with s in *. rewrite E. cbn [mbind option_bind]. eexists. split_and!; try done; [|cbn; congruence].
  split; [by destruct HI|done| |done|done]. intros k info p Hk Hi Hpp. by destruct (Hp k info p Hk Hi Hpp).
Qed.

Lemma booted_table infos h g : chips_ready infos (length infos) h → 0 ≤ g < 120 →
  gsi_table_data (io h) !! Z.to_nat g = Some zero_gsi ∨
  ∃ k info, infos !! k = Some info ∧ in_chip info g ∧
    gsi_table_data (io h) !! Z.to_nat g
      = Some (mk_gsi_table true (info_id info) (Z.of_nat k) (g - gsi_base info) (addr info)).
Proof.
  intros [_ _ Hp Hf _] Hg.
  destruct (decide (Exists (λ i, gsi_base i ≤ g < gsi_base i + nr_pins i) infos)) as [He|Hn].
  - right. apply Exists_exists in He as (info & Hin & Hc). apply list_elem_of_lookup_1 in Hin as [k Hk].
    exists k, info. split_and!; [done|exact Hc|].
    pose proof (pr_table _ _ _ _ (Hp k info (g - gsi_base info) ltac:(by eapply lookup_lt_Some) Hk ltac:(lia))) as Ht.
    by replace (gsi_base info + (g - gsi_base info)) with g in Ht by lia.
  - left. rewrite <- Forall_Exists_neg, Forall_forall in Hn. apply Hf; [done|].
    intros k info _ Hk. apply Hn. by eapply list_elem_of_lookup_2.
Qed.

(** ** The table as the virtual I/O APICs use it *)

(** The platform that boots meets what the virtual I/O APICs rely on. *)
Lemma booted_laws infos h : platform_ok infos → chips_ready infos (length infos) h →
  ioapic_num (io h) = Z.of_nat (length infos) → @IoapicLaws (host_ioapics (io h)).
Proof.
  intros Hpo Hr Hn. assert (Ei : @get_platform_ioapic_info (host_ioapics (io h)) = infos).
  { cbn. rewrite Hn, (cr_array _ _ _ Hr), Nat2Z.id. apply firstn_all. }
  split.
  - rewrite Ei. apply Hpo.
  - rewrite Ei. intros i Hi. destruct (io_range _ (po_infos _ Hpo) i Hi) as (H1 & H2 & H3).
    change NR_MAX_GSI with 120 in H3. change REDIR_ENTRIES_HW with 120. lia.
  - intros g Hg. cbn. destruct (Z.lt_ge_cases g 120) as [Hlt|Hge]; cycle 1.
    { rewrite nth_overflow; [done|]. rewrite (si_table h (cr_inv _ _ _ Hr)). lia. }
    destruct (booted_table infos h g Hr ltac:(lia)) as [E|(k & info & Hk & Hc & E)]; rewrite (nth_lookup_Some _ _ _ _ E); [done|].
    cbn. unfold in_chip in Hc. apply lookup_lt_Some in Hk. pose proof (po_num _ Hpo) as Hl.
    change (Z.to_nat CONFIG_MAX_IOAPIC_NUM) with 1%nat in Hl. change CONFIG_MAX_IOAPIC_NUM with 1. lia.
Qed.
End setup.
