(* ===== verification/IoapicRuns.v ===== *)
(** * Interrupts of the platform, in any order

    Requests, releases, trigger modes, changes of redirection entries and interrupts in any
    order after boot; and the suspend and resume of the chips. *)

From S2P Require Import Prelude Bits Irq Assign Vioapic VioapicInv X86Irq Ioapic IoapicInv.
Import Irq.Irq.

#[local] Existing Instance x86_bitmap.

Section runs.
Context {D : IoapicDevice} {L : IoapicDeviceLaws}.

(** ** Well-formed drivers and masking *)

Record table_ok (s : ioapics) : Prop := {
  to_length : length (gsi_table_data s) = 120%nat;
  to_pins t : t ∈ gsi_table_data s → 0 ≤ pin t < 120;
  to_infos : infos_ok (ioapic_array s);
  to_num : ioapic_num s = Z.of_nat (length (ioapic_array s));
  to_saved : (length (ioapic_array s) ≤ length (saved_rte s))%nat ∧ Forall (λ r, length r = 120%nat) (saved_rte s);
}.

Lemma same_table_ok s s' : same_data s s' → table_ok s → table_ok s'.
Proof. intros [E1 _ E3 E4 E5] []. split; by rewrite ?E1, ?E3, ?E4, ?E5. Qed.

Lemma table_at i s : table_ok s → 0 ≤ i < 120 → ∃ t, gsi_at i s = Some t ∧ 0 ≤ pin t < 120.
Proof.
  intros [Hl Hp _ _ _] Hi. unfold gsi_at. destruct (lookup_lt_is_Some_2 (gsi_table_data s) (Z.to_nat i)) as [t Ht]; [lia|].
  exists t. split; [done|]. apply Hp. by eapply list_elem_of_lookup_2.
Qed.

Lemma valid_total i s : table_ok s → 0 ≤ i →
  ∃ b, is_ioapic_irq i s = Some b ∧ (b = true → i < 120 ∧ ∃ t, gsi_at i s = Some t ∧ is_valid t = true).
Proof.
  intros Ht Hi. unfold is_ioapic_irq, is_gsi_valid. change NR_MAX_GSI with 120.
  destruct (Z.ltb_spec i 120); [|by exists false].
  destruct (table_at i s Ht ltac:(lia)) as (t & E & _). rewrite E. exists (is_valid t). split; [done|]. eauto.
Qed.

(** Other entries than that of the GSI are as before. *)
Definition only_entry (t : gsi_table) (s s' : ioapics) : Prop :=
  same_data s s' ∧ ∀ b p, b ≠ base_addr t ∨ p ≠ pin t → entry b p s' = entry b p s.

Lemma only_entry_refl t s : only_entry t s s.
Proof. by split. Qed.

Lemma only_entry_trans t s1 s2 s3 : only_entry t s1 s2 → only_entry t s2 s3 → only_entry t s1 s3.
Proof. intros [[] H1] [[] H2]. split; [split; congruence|]. intros b p H. by rewrite H2, H1. Qed.

Lemma mask_ok i (m : bool) s t : table_ok s → 0 ≤ i < 120 → gsi_at i s = Some t →
  ∃ s', ioapic_irq_gsi_mask_unmask i m s = Some s' ∧ only_entry t s s' ∧
    (base_addr t ≠ 0 → agrees (entry (base_addr t) (pin t) s')
       (set_field 16 1 (if m then 1 else 0) (entry (base_addr t) (pin t) s))).
Proof using L.
  intros Ht Hi E. unfold ioapic_irq_gsi_mask_unmask. rewrite E. cbn [mbind option_bind].
  destruct (table_at i s Ht Hi) as (t' & E' & Hp). rewrite E in E'. injection E' as <-.
  unfold nonzero. destruct (Z.eqb_spec (base_addr t) 0) as [Hz|Hz]; cbn [negb].
  { exists s. split; [done|]. split; [apply only_entry_refl|done]. }
  destruct (get_entry_ok (base_addr t) (pin t) s Hp) as (s1 & -> & Hs1). eexists. split; [done|].
  destruct (set_entry_ok (base_addr t) (pin t) (set_field 16 1 (if m then 1 else 0) (entry (base_addr t) (pin t) s)) s1 Hp)
    as ([] & Ha & Ho). destruct (sr_data _ _ Hs1). split; [|done]. split; [split; congruence|].
  intros b p Hne. rewrite Ho by done. by apply same_entry.
Qed.

Lemma agrees_trans x y z : agrees x y → agrees y z → agrees x z.
Proof. intros H1 H2 b Hb. by rewrite H1, H2. Qed.

Lemma agrees_set v x y : agrees x y → agrees (set_field 16 1 v x) (set_field 16 1 v y).
Proof.
  intros Ha b Hb. rewrite !set_field_testbit by (unfold entry_bit in Hb; lia). destruct (_ && _); [done|by apply Ha].
Qed.

Lemma agrees_set_set v u x : agrees (set_field 16 1 v (set_field 16 1 u x)) (set_field 16 1 v x).
Proof.
  intros b Hb. rewrite !set_field_testbit by (unfold entry_bit in Hb; lia). by destruct (_ && _).
Qed.

(** ** One interrupt *)

Record host_inv (h : x86_host) : Prop := {
  hi_x : x86_wf (xi h);
  hi_table : table_ok (io h);
}.

Definition level (d : irq_desc) : bool := nonzero (flags d &&& IRQF_LEVEL).
Definition passed_through (d : irq_desc) : bool := nonzero (flags d &&& IRQF_PT).

(** The state of common/irq.c after [dispatch]. *)
Lemma dispatch_frame i q q' : dispatch i q = Some q' →
  irq_desc_array q' = irq_desc_array q ∧ irq_alloc_bitmap q' = irq_alloc_bitmap q ∧
  irq_rsvd_bitmap q' = irq_rsvd_bitmap q.
Proof.
  unfold dispatch. destruct (i <? NR_IRQS); [|by intros [= <-]]. destruct (desc_of i q) as [d|]; [|done].
  cbn [mbind option_bind]. intros E. apply (inj Some) in E as <-. by destruct (test_map _ _); [destruct d as [? [] ? ?]|].
Qed.

Lemma same_gen_wf x q' : x86_wf x → irq_desc_array q' = irq_desc_array (gen x) →
  irq_alloc_bitmap q' = irq_alloc_bitmap (gen x) → irq_rsvd_bitmap q' = irq_rsvd_bitmap (gen x) →
  x86_step (λ _, False) x (x⟨gen := q'⟩).
Proof.
  intros [[] [] Hd Ha] E1 E2 E3. split; [split|].
  - by split.
  - split; cbn; by rewrite ?E1, ?E2, ?E3.
  - cbn. by rewrite E1.
  - unfold allocated. cbn. rewrite E1, E2. exact Ha.
  - intros i a pd vr _. unfold registered. cbn. by rewrite E1.
Qed.

Lemma mask_if_ok (c : bool) i (m : bool) s : table_ok s → 0 ≤ i → (c = true → i < 120) →
  ∃ s', (if c then ioapic_irq_gsi_mask_unmask i m s else Some s) = Some s' ∧ same_data s s' ∧
    ∀ t, gsi_at i s = Some t → only_entry t s s' ∧
      if c then base_addr t ≠ 0 → agrees (entry (base_addr t) (pin t) s')
                                    (set_field 16 1 (if m then 1 else 0) (entry (base_addr t) (pin t) s))
      else s' = s.
Proof using L.
  intros Ht Hi Hc. destruct c; cycle 1.
  { exists s. split; [done|]. split; [done|]. intros t _. split; [apply only_entry_refl|done]. }
  specialize (Hc eq_refl). destruct (table_at i s Ht ltac:(lia)) as (t & E & _).
  destruct (mask_ok i m s t Ht ltac:(lia) E) as (s' & -> & Ho & Ha). exists s'. split; [done|]. split; [apply Ho|].
  intros t' E'. rewrite E in E'. injection E' as <-. by split.
Qed.

(** Whether an interrupt masks its pin. *)
Definition masked_by (d : irq_desc) (s : ioapics) : bool :=
  level d && bool_decide (is_ioapic_irq (irq d) s = Some true).

Lemma need_mask_ok d s : table_ok s → 0 ≤ irq d →
  irq_need_mask d s = Some (masked_by d s) ∧
  irq_need_unmask d s = Some (masked_by d s && negb (passed_through d)) ∧
  (masked_by d s = true → irq d < 120).
Proof.
  intros Ht Hi. unfold irq_need_mask, irq_need_unmask, masked_by, level, passed_through.
  destruct (valid_total (irq d) s Ht Hi) as (b & E & Hb). rewrite E.
  destruct (nonzero (flags d &&& IRQF_LEVEL)), (nonzero (flags d &&& IRQF_PT)), b; cbn; split_and!; try done;
    intros _; by destruct Hb.
Qed.

(** The chips before and after the action of an interrupt. *)
Lemma masked_around_ok d s : table_ok s → 0 ≤ irq d →
  ∃ s1 s2, (if masked_by d s then ioapic_gsi_mask_irq (irq d) s else Some s) = Some s1 ∧
    same_data s s1 ∧ masked_by d s1 = masked_by d s ∧
    (if masked_by d s1 && negb (passed_through d) then ioapic_gsi_unmask_irq (irq d) s1 else Some s1) = Some s2 ∧
    same_data s s2 ∧
    ∀ t, gsi_at (irq d) s = Some t → only_entry t s s2 ∧
      if masked_by d s then base_addr t ≠ 0 → agrees (entry (base_addr t) (pin t) s2)
        (set_field 16 1 (if passed_through d then 1 else 0) (entry (base_addr t) (pin t) s))
      else s2 = s.
Proof using L.
  intros Ht Hi. destruct (need_mask_ok d s Ht Hi) as (_ & _ & Hlt).
  destruct (mask_if_ok (masked_by d s) (irq d) true s Ht Hi Hlt) as (s1 & E1 & Hd1 & H1).
  assert (Em : masked_by d s1 = masked_by d s).
  { unfold masked_by, is_ioapic_irq, is_gsi_valid, gsi_at. by rewrite (sd_table _ _ Hd1). }
  pose proof (same_table_ok _ _ Hd1 Ht) as Ht1.
  destruct (mask_if_ok (masked_by d s1 && negb (passed_through d)) (irq d) false s1 Ht1 Hi) as (s2 & E2 & Hd2 & H2).
  { rewrite Em. by intros [? _]%andb_prop; apply Hlt. }
  exists s1, s2. split_and!; try done.
  { destruct Hd1, Hd2. split; congruence. }
  intros t Hg. assert (Hg1 : gsi_at (irq d) s1 = Some t) by (unfold gsi_at; by rewrite (sd_table _ _ Hd1)).
  destruct (H1 t Hg) as [O1 A1], (H2 t Hg1) as [O2 A2]. split; [by eapply only_entry_trans|].
  rewrite Em in A2. destruct (masked_by d s); cbn [andb] in A2; [|congruence]. intros Hb.
  destruct (passed_through d); cbn [negb] in A2; [by rewrite A2; apply A1|].
  eapply agrees_trans; [by apply A2|]. eapply agrees_trans; [by apply agrees_set, A1|]. apply agrees_set_set.
Qed.

(** What [do_irq] does: the action is called with the pin masked around it. *)
Lemma host_do_irq_ok i d h : host_inv h → 0 ≤ i < NR_IRQS → irq_desc_array (gen (xi h)) !! Z.to_nat i = Some d →
  ∃ h', x86_do_irq i h = Some h' ∧ host_inv h' ∧ x86_step (λ _, False) (xi h) (xi h') ∧ same_data (io h) (io h') ∧
    called (gen (xi h')) = called (gen (xi h)) ++
      (if bit_at (irq_alloc_bitmap (gen (xi h))) i
       then match action d with Some a => [(a, i, priv_data d)] | None => [] end else []) ∧
    (∀ t, gsi_at i (io h) = Some t → only_entry t (io h) (io h') ∧
      if bit_at (irq_alloc_bitmap (gen (xi h))) i && masked_by d (io h)
      then base_addr t ≠ 0 → agrees (entry (base_addr t) (pin t) (io h'))
             (set_field 16 1 (if passed_through d then 1 else 0) (entry (base_addr t) (pin t) (io h)))
      else io h' = io h).
Proof using L.
  intros [Hx Ht] Hi Hd. assert (Ei : irq d = i) by (rewrite (xw_desc _ Hx _ d Hd); lia).
  destruct (dispatch_spec i d (gen (xi h)) (xw_gen _ Hx) Hi Hd) as (q' & Eq & Hc). rewrite Ei in Hc.
  destruct (dispatch_frame i _ _ Eq) as (D1 & D2 & D3). pose proof (same_gen_wf _ q' Hx D1 D2 D3) as Hst.
  unfold x86_do_irq. rewrite (proj2 (Z.ltb_lt _ _)) by lia. unfold desc_of. rewrite Hd. cbn [mbind option_bind].
  assert (Eb : test_map i (irq_alloc_bitmap (gen (xi h))) = bit_at (irq_alloc_bitmap (gen (xi h))) i).
  { apply test_map_spec; [lia|]. apply (iq_alloc _ (xw_gen _ Hx)). }
  rewrite Eb. destruct (bit_at (irq_alloc_bitmap (gen (xi h))) i) eqn:Ealloc; cycle 1.
  { cbn [mbind option_bind]. rewrite Eq. cbn [mbind option_bind]. eexists. split; [done|]. cbn.
    split; [by split; [apply Hst|]|]. by split_and!. }
  destruct (masked_around_ok d (io h) Ht ltac:(lia)) as (s1 & s2 & E1 & Hd1 & Em & E2 & Hd2 & Hm).
  rewrite Ei in Hm. pose proof (same_table_ok _ _ Hd1 Ht) as Ht1.
  unfold pre_irq_arch. destruct (need_mask_ok d (io h) Ht ltac:(lia)) as (-> & _ & _). cbn [mbind option_bind].
  rewrite E1. cbn [mbind option_bind].
  match goal with |- context [dispatch i ?x] => change x with (gen (xi h)) end. rewrite Eq. cbn [mbind option_bind].
  unfold post_irq_arch. match goal with |- context [irq_need_unmask d ?x] => change x with s1 end.
  destruct (need_mask_ok d s1 Ht1 ltac:(lia)) as (_ & -> & _). cbn [mbind option_bind].
  match goal with |- context [ioapic_gsi_unmask_irq (irq d) ?x] => change x with s1 end. rewrite E2. cbn [mbind option_bind].
  eexists. split; [done|]. split; [split; [exact (xs_wf _ _ _ Hst)|by eapply same_table_ok]|]. by split_and!.
Qed.

(** ** Events *)

Inductive host_event :=
  | H_request (req : Z) (a : nat) (pd fl : Z)
  | H_free (i : Z)
  | H_trigger (i : Z) (b : bool)
  | H_interrupt (vr : Z)
  | H_mask (i : Z) (m : bool)
  | H_set_rte (i rte : Z).

Definition host_step (ev : host_event) (h : x86_host) : option x86_host :=
  match ev with
  | H_request req a pd fl => '(x, _) ← x86_request_irq req a pd fl (xi h); Some h⟨xi := x⟩
  | H_free i => x ← x86_free_irq i (xi h); Some h⟨xi := x⟩
  | H_trigger i b => q ← set_irq_trigger_mode i b (gen (xi h)); Some h⟨xi := (xi h)⟨gen := q⟩⟩
  | H_interrupt vr => dispatch_interrupt vr h
  | H_mask i m => s ← ioapic_irq_gsi_mask_unmask i m (io h); Some h⟨io := s⟩
  | H_set_rte i rte => s ← ioapic_set_rte i rte (io h); Some h⟨io := s⟩
  end.

Fixpoint host_run (l : list host_event) (h : x86_host) : option x86_host :=
  match l with [] => Some h | ev :: l' => h ← host_step ev h; host_run l' h end.

(** Numbers are unsigned, vectors have 8 bits, and the entry of a pin is changed for a GSI of the
    table. *)
Definition host_ev_ok (ev : host_event) : Prop :=
  match ev with
  | H_request i _ _ _ | H_free i | H_trigger i _ => 0 ≤ i
  | H_interrupt vr => 0 ≤ vr ≤ NR_MAX_VECTOR
  | H_mask i _ | H_set_rte i _ => 0 ≤ i < NR_MAX_GSI
  end.

(** The numbers whose registration an event may end. *)
Definition frees (ev : host_event) (j : nat) : Prop :=
  match ev with H_free i => j = Z.to_nat i | _ => False end.

Lemma vector_irq vr h : host_inv h → 0 ≤ vr ≤ NR_MAX_VECTOR →
  (vector_to_irq (xi h) !! Z.to_nat vr = Some IRQ_INVALID) ∨
  ∃ i d, vector_to_irq (xi h) !! Z.to_nat vr = Some i ∧ 0 ≤ i < NR_IRQS ∧
    irq_data (xi h) !! Z.to_nat i = Some vr ∧ irq_desc_array (gen (xi h)) !! Z.to_nat i = Some d.
Proof.
  intros [Hx _] Hv. unfold NR_MAX_VECTOR in Hv.
  destruct (lookup_lt_is_Some_2 (vector_to_irq (xi h)) (Z.to_nat vr)) as [i Hi].
  { rewrite (vw_table _ (xw_vec _ Hx)). lia. }
  destruct (decide (i = IRQ_INVALID)) as [->|Hn]; [by left|right].
  destruct (vw_back _ (xw_vec _ Hx) _ _ Hi Hn) as [Hr Hd]. rewrite Z2Nat.id in Hd by lia.
  destruct (lookup_lt_is_Some_2 (irq_desc_array (gen (xi h))) (Z.to_nat i)) as [d Hde].
  { rewrite (iq_desc _ (xw_gen _ Hx)). unfold NR_IRQS in Hr. lia. }
  by exists i, d.
Qed.

(** The vector of an interrupt leads to [do_irq] on its number. *)
Lemma dispatch_irq i vr h : host_inv h → vector_to_irq (xi h) !! Z.to_nat vr = Some i → 0 ≤ i < NR_IRQS →
  irq_data (xi h) !! Z.to_nat i = Some vr → dispatch_interrupt vr h = x86_do_irq i h.
Proof.
  intros _ Ht Hi Hd. unfold dispatch_interrupt. rewrite Ht. cbn [mbind option_bind].
  rewrite (proj2 (Z.ltb_lt _ _)) by lia. rewrite Hd. cbn [mbind option_bind]. by rewrite Z.eqb_refl.
Qed.

Lemma host_step_ok ev h : host_inv h → host_ev_ok ev →
  ∃ h', host_step ev h = Some h' ∧ host_inv h' ∧ x86_step (frees ev) (xi h) (xi h').
Proof using L.
  intros HI Hev. destruct (HI) as [Hx Ht].
  assert (Hrefl : x86_step (frees ev) (xi h) (xi h)) by (by split).
  destruct ev as [req a pd fl|i|i b|vr|i m|i rte]; cbn [host_step host_ev_ok frees] in *.
  - destruct (x86_request_ok req a pd fl (xi h) Hx Hev) as (x & ret & -> & Hs & _). cbn [mbind option_bind].
    eexists. split; [done|]. split; [by split; [apply Hs|]|done].
  - destruct (x86_free_ok i (xi h) Hx Hev) as (x & -> & Hs). cbn [mbind option_bind].
    eexists. split; [done|]. split; [by split; [apply Hs|]|done].
  - destruct (Z.lt_ge_cases i NR_IRQS) as [Hlt|Hge].
    + destruct (trigger_ok i b (xi h) Hx ltac:(lia)) as (d & d' & _ & -> & _ & Hs). cbn [mbind option_bind].
      eexists. split; [done|]. split; [by split; [apply Hs|]|done].
    + unfold set_irq_trigger_mode. rewrite (proj2 (Z.ltb_ge _ _)) by done. cbn [mbind option_bind].
      exists h. split; [by destruct h as [? []]|]. by split.
  - destruct (vector_irq vr h HI Hev) as [E|(i & d & E & Hi & Hd & Hde)].
    + unfold dispatch_interrupt. rewrite E. cbn [mbind option_bind]. change (IRQ_INVALID <? NR_IRQS) with false.
      eexists. split; [done|]. by split; [split|].
    + rewrite (dispatch_irq i vr h HI E Hi Hd).
      destruct (host_do_irq_ok i d h HI Hi Hde) as (h' & -> & HI' & Hs & _). by exists h'.
  - change NR_MAX_GSI with 120 in Hev. destruct (table_at i _ Ht Hev) as (t & E & _).
    destruct (mask_ok i m _ t Ht Hev E) as (s' & -> & [Ho _] & _). cbn [mbind option_bind].
    eexists. split; [done|]. split; [split; [done|by eapply same_table_ok]|done].
  - change NR_MAX_GSI with 120 in Hev. destruct (table_at i _ Ht Hev) as (t & E & Hp). unfold ioapic_set_rte.
    rewrite E. cbn [mbind option_bind]. destruct (set_entry_ok (base_addr t) (pin t) rte (io h) Hp) as (Hs & _).
    eexists. split; [done|]. split; [split; [done|by eapply same_table_ok]|done].
Qed.

Lemma host_run_ok l : ∀ h, host_inv h → Forall host_ev_ok l →
  ∃ h', host_run l h = Some h' ∧ host_inv h' ∧
    ∀ i a pd vr, Forall (λ ev, ¬ frees ev i) l → registered (xi h) i a pd vr → registered (xi h') i a pd vr.
Proof using L.
  induction l as [|ev l IH]; intros h HI Hl; [by exists h|]. apply Forall_cons in Hl as [Hev Hl].
  destruct (host_step_ok ev h HI Hev) as (h1 & E1 & HI1 & Hs). destruct (IH h1 HI1 Hl) as (h' & E & HI' & Hr).
  exists h'. cbn [host_run]. rewrite E1. split_and!; [done|done|]. intros i a pd vr [Hf Hfs]%Forall_cons Hreg.
  apply Hr; [done|]. by apply Hs.
Qed.

(** ** After boot *)

(** [h] is the state after the initialisation of a platform that is supported. *)
Record host_boot (n max_vm : Z) (f : Z → chip) (madt : list madt_subtable) (q : irqs) (h : x86_host) : Prop := {
  hb_max : 0 ≤ max_vm ≤ 29;
  hb_irqs : irqs_wf q;
  hb_none : Forall (λ d, action d = None) (irq_desc_array q);
  hb_platform : platform_ok (madt_chips f madt);
  hb_run : ∃ s, init_ioapic_id_info madt (zero_ioapics f) = Some (0, s) ∧ init_interrupt n max_vm q s = Some h;
}.

Lemma boot_chips n max_vm f madt q h : host_boot n max_vm f madt q h →
  chips_ready (madt_chips f madt) (length (madt_chips f madt)) h ∧
  ioapic_num (io h) = Z.of_nat (length (madt_chips f madt)) ∧ platform_ok (madt_chips f madt).
Proof using L.
  intros [Hm Hq Ha Hp (s & E1 & E2)].
  destruct (ioapic_boot_ok n f madt max_vm q Hm Hq Ha Hp) as (s' & h' & E1' & E2' & Hr & Hn).
  rewrite E1 in E1'. injection E1' as <-. rewrite E2 in E2'. by injection E2' as <-.
Qed.

Lemma host_boot_inv n max_vm f madt q h : host_boot n max_vm f madt q h → host_inv h.
Proof using L.
  intros Hb. destruct (boot_chips _ _ _ _ _ _ Hb) as (Hr & Hn & Hpo). destruct (cr_inv _ _ _ Hr) as [Hx _ Hl].
  split; [done|]. split; rewrite ?(cr_array _ _ _ Hr), ?(cr_saved _ _ _ Hr); [done| |apply Hpo|done|]; cycle 1.
  { split; [exact (po_num _ Hpo)|]. by apply (bool_decide_unpack _). }
  intros t [j Hj]%list_elem_of_lookup_1.
  assert (Hlt : (j < 120)%nat) by (rewrite <- Hl; by eapply lookup_lt_Some).
  destruct (booted_table _ h (Z.of_nat j) Hr ltac:(lia)) as [E|(k & info & Hk & Hc & E)];
    rewrite Nat2Z.id, Hj in E; injection E as ->; [done|]. cbn.
  destruct (io_range _ (po_infos _ Hpo) info) as (R1 & R2 & R3); [by eapply list_elem_of_lookup_2|].
  change NR_MAX_GSI with 120 in R3. unfold in_chip in Hc. lia.
Qed.

Lemma registered_vector x i a pd vr : x86_wf x → registered x i a pd vr →
  (i < 256)%nat ∧ VECTOR_DYNAMIC_START ≤ vr ≤ NR_MAX_VECTOR ∧ vector_to_irq x !! Z.to_nat vr = Some (Z.of_nat i).
Proof.
  intros Hw (d & _ & _ & _ & Hv & Hn). split; [|by apply (vw_bound _ (xw_vec _ Hw))].
  rewrite <- (vw_data _ (xw_vec _ Hw)). by eapply lookup_lt_Some.
Qed.

(** The interrupt of a registered action calls it. *)
Lemma registered_called h i a pd vr : host_inv h → registered (xi h) i a pd vr →
  ∃ d h', irq_desc_array (gen (xi h)) !! i = Some d ∧ dispatch_interrupt vr h = Some h' ∧ host_inv h' ∧
    called (gen (xi h')) = called (gen (xi h)) ++ [(a, Z.of_nat i, pd)] ∧ same_data (io h) (io h') ∧
    (∀ t, gsi_at (Z.of_nat i) (io h) = Some t → only_entry t (io h) (io h') ∧
      if masked_by d (io h)
      then base_addr t ≠ 0 → agrees (entry (base_addr t) (pin t) (io h'))
             (set_field 16 1 (if passed_through d then 1 else 0) (entry (base_addr t) (pin t) (io h)))
      else io h' = io h).
Proof using L.
  intros HI Hr. destruct (registered_vector _ _ _ _ _ (hi_x h HI) Hr) as (Hi & Hv & Ht).
  destruct Hr as (d & Hd & Ha & Hp & Hdat & Hn).
  assert (Hi' : 0 ≤ Z.of_nat i < NR_IRQS) by (unfold NR_IRQS; lia).
  destruct (xw_action _ (hi_x h HI) i d Hd) as [Hal _]; [by rewrite Ha|].
  destruct (host_do_irq_ok (Z.of_nat i) d h HI Hi') as (h' & E & HI' & _ & Hs & Hc & Hm); [by rewrite Nat2Z.id|].
  unfold allocated in Hal. rewrite Hal, Ha, Hp in Hc. rewrite Hal in Hm. exists d, h'. split_and!; try done.
  rewrite (dispatch_irq (Z.of_nat i)); [done|done|done|done|by rewrite Nat2Z.id].
Qed.

(** C34: the I/O APICs after boot.  For any firmware table that describes chips which the
    configuration supports, the initialisation succeeds, and afterwards each pin of each chip has
    its GSI: the table names the chip and the pin, the number is reserved, the entry of the chip is
    masked with the trigger mode of the descriptor's flag (level for GSI 9 and from 16 on), and a
    legacy interrupt has a vector, which is the one in the entry; and no other GSI is valid. *)
Theorem ioapic_boot_exact n f madt max_vm q : 0 ≤ max_vm ≤ 29 → irqs_wf q →
  Forall (λ d, action d = None) (irq_desc_array q) → platform_ok (madt_chips f madt) →
  ∃ s h, init_ioapic_id_info madt (zero_ioapics f) = Some (0, s) ∧ init_interrupt n max_vm q s = Some h ∧
    x86_wf (xi h) ∧
    (∀ k info p, madt_chips f madt !! k = Some info → 0 ≤ p < nr_pins info → pin_ready h k info p) ∧
    (∀ g, 0 ≤ g → ∃ b, is_gsi_valid g (io h) = Some b ∧
      (b = true ↔ ∃ info, info ∈ madt_chips f madt ∧ in_chip info g)).
Proof using L.
  intros Hm Hq Ha Hpo. destruct (ioapic_boot_ok n f madt max_vm q Hm Hq Ha Hpo) as (s & h & E1 & E2 & Hr & _).
  exists s, h. split_and!; [done|done|apply Hr| |].
  { intros k info p Hk Hp. apply (cr_pins _ _ _ Hr); [by eapply lookup_lt_Some|done|done]. }
  intros g Hg. unfold is_gsi_valid. change NR_MAX_GSI with 120. destruct (Z.ltb_spec g 120) as [Hlt|Hge]; cycle 1.
  { exists false. split; [done|]. split; [done|]. intros (info & Hin & Hc).
    destruct (io_range _ (po_infos _ Hpo) info Hin) as (_ & _ & Hr'). change NR_MAX_GSI with 120 in Hr'. unfold in_chip in Hc. lia. }
  unfold gsi_at. destruct (booted_table _ h g Hr ltac:(lia)) as [E|(k & info & Hk & Hc & E)]; rewrite E.
  - exists false. split; [done|]. split; [done|]. intros (info & [k Hk]%list_elem_of_lookup_1 & Hc). exfalso. unfold in_chip in Hc.
    pose proof (pr_table _ _ _ _ (cr_pins _ _ _ Hr k info (g - gsi_base info) ltac:(by eapply lookup_lt_Some) Hk ltac:(lia))) as Ht.
    replace (gsi_base info + (g - gsi_base info)) with g in Ht by lia. by rewrite E in Ht.
  - exists true. split; [done|]. split; [|done]. intros _. exists info. split; [by eapply list_elem_of_lookup_2|done].
Qed.

(** C14: interrupts reach their actions.  After boot, and any events, request_irq returns without
    undefined behaviour; if it returns a number, then after any further events, as long as
    free_irq is not called for it, the number has a vector, no other number has it, and an
    interrupt on that vector calls exactly the registered action, with the number and its
    argument. *)
Theorem x86_interrupt_delivered n max_vm f madt q h0 l1 req a pd fl l2 :
  host_boot n max_vm f madt q h0 → Forall host_ev_ok l1 → 0 ≤ req → Forall host_ev_ok l2 →
  ∃ h1 x ret h2, host_run l1 h0 = Some h1 ∧ x86_request_irq req a pd fl (xi h1) = Some (x, ret) ∧
    host_run l2 h1⟨xi := x⟩ = Some h2 ∧
    (0 ≤ ret → Forall (λ ev, ¬ frees ev (Z.to_nat ret)) l2 →
      ∃ vr h3, irq_to_vector ret (xi h2) = Some vr ∧
        (∀ j, 0 ≤ j < NR_IRQS → irq_to_vector j (xi h2) = Some vr → j = ret) ∧
        dispatch_interrupt vr h2 = Some h3 ∧
        called (gen (xi h3)) = called (gen (xi h2)) ++ [(a, ret, pd)]).
Proof using L.
  intros Hb Hl1 Hreq Hl2. destruct (host_run_ok l1 h0 (host_boot_inv _ _ _ _ _ _ Hb) Hl1) as (h1 & E1 & [Hx1 Ht1] & _).
  destruct (x86_request_ok req a pd fl (xi h1) Hx1 Hreq) as (x & ret & Ex & [Hwx _] & Hret).
  destruct (host_run_ok l2 (h1⟨xi := x⟩)) as (h2 & E2 & HI2 & Hk); [by split|done|].
  exists h1, x, ret, h2. split_and!; try done. intros Hpos Hnf. destruct (Hret Hpos) as (Hlt & vr & Hr).
  specialize (Hk _ _ _ _ Hnf Hr). destruct (registered_vector _ _ _ _ _ (hi_x h2 HI2) Hk) as (_ & _ & Ht).
  destruct (registered_called h2 _ _ _ _ HI2 Hk) as (d & h3 & _ & E3 & _ & Hc & _). rewrite Z2Nat.id in Hc, Ht by done.
  destruct Hk as (_ & _ & _ & _ & Hv & Hn). exists vr, h3. unfold irq_to_vector.
  rewrite (proj2 (Z.ltb_lt _ _)) by done. split_and!; try done. intros j Hj. rewrite (proj2 (Z.ltb_lt _ _)) by lia.
  intros Hvj. destruct (vw_bound _ (xw_vec _ (hi_x h2 HI2)) _ _ Hvj Hn) as [_ Hb2]. rewrite Ht in Hb2.
  injection Hb2 as Hb2. rewrite Z2Nat.id in Hb2 by lia. done.
Qed.

(** Masking of level-triggered pins.  After boot and any events, an interrupt of a registered
    number whose descriptor is level-triggered and which is a pin of an I/O APIC leaves the pin
    masked when the interrupt belongs to a passthrough device (until it is acknowledged), and
    unmasked otherwise; the other software-defined bits of its entry, the entries of the other pins
    and the driver's tables are as before. *)
Theorem level_pin_masking n max_vm f madt q h0 l h i a pd vr d t :
  host_boot n max_vm f madt q h0 → Forall host_ev_ok l → host_run l h0 = Some h →
  registered (xi h) i a pd vr → irq_desc_array (gen (xi h)) !! i = Some d → level d = true →
  is_ioapic_irq (Z.of_nat i) (io h) = Some true → gsi_at (Z.of_nat i) (io h) = Some t → base_addr t ≠ 0 →
  ∃ h', dispatch_interrupt vr h = Some h' ∧ same_data (io h) (io h') ∧
    rte_intr_mask (entry (base_addr t) (pin t) (io h')) = (if passed_through d then 1 else 0) ∧
    (∀ b, entry_bit b = true → b ≠ 16 →
      Z.testbit (entry (base_addr t) (pin t) (io h')) b = Z.testbit (entry (base_addr t) (pin t) (io h)) b) ∧
    (∀ b p, b ≠ base_addr t ∨ p ≠ pin t → entry b p (io h') = entry b p (io h)).
Proof using L.
  intros Hb Hl Hrun Hr Hd Hlev Hio Ht Hbase.
  destruct (host_run_ok l h0 (host_boot_inv _ _ _ _ _ _ Hb) Hl) as (h1 & E1 & HI & _). rewrite Hrun in E1. injection E1 as <-.
  destruct (registered_called h i a pd vr HI Hr) as (d' & h' & Hd' & E & _ & _ & Hs & Hm).
  rewrite Hd in Hd'. injection Hd' as <-. exists h'. split; [done|]. split; [done|]. destruct (Hm t Ht) as [[_ Ho] Ha].
  assert (Em : masked_by d (io h) = true).
  { unfold masked_by. rewrite Hlev, (xw_desc _ (hi_x h HI) i d Hd), Hio. done. }
  rewrite Em in Ha. specialize (Ha Hbase). split_and!; [| |done].
  - destruct (agrees_fields _ _ Ha) as [-> _]. unfold rte_intr_mask. rewrite field_set_same by lia. by destruct (passed_through d).
  - intros b Hbit Hne. rewrite (Ha b Hbit), set_field_testbit by (unfold entry_bit in Hbit; lia).
    by replace ((16 <=? b) && (b <? 16 + 1)) with false by lia.
Qed.

(** ** Suspend and resume *)

Lemma save_pins_ok base ps : ∀ saved s, Forall (λ p, 0 ≤ p < 120) ps → length saved = 120%nat →
  ∃ saved' s', save_pins base ps saved s = Some (saved', s') ∧ same_regs s s' ∧ length saved' = 120%nat ∧
    (∀ p, p ∈ ps → saved' !! Z.to_nat p = Some (entry base p s)) ∧
    (∀ j, (∀ p, p ∈ ps → j ≠ Z.to_nat p) → saved' !! j = saved !! j).
Proof using L.
  induction ps as [|p ps IH]; intros saved s Hps Hlen.
  { exists saved, s. split_and!; [done|by split|done|by intros ? ?%elem_of_nil|done]. }
  apply Forall_cons in Hps as [Hp Hps]. cbn [save_pins].
  destruct (lookup_lt_is_Some_2 saved (Z.to_nat p)) as [r0 Hr0]; [lia|]. rewrite Hr0. cbn [mbind option_bind].
  destruct (get_entry_ok base p s Hp) as (s1 & -> & Hs1).
  destruct (IH (<[Z.to_nat p := entry base p s]> saved) s1 Hps) as (saved' & s' & -> & Hs' & Hl & Hin & Hout); [by rewrite length_insert|].
  exists saved', s'. split_and!; [done|by eapply same_regs_trans|done| |].
  - intros p' Hp'. destruct (decide (p' ∈ ps)) as [Hi|Hn]; [rewrite Hin by done; by rewrite (same_entry _ _ _ _ Hs1)|].
    apply elem_of_cons in Hp' as [->|?]; [|done]. rewrite Hout; [apply list_lookup_insert_eq; lia|].
    intros p2 Hp2 E. apply Hn. rewrite Forall_forall in Hps. specialize (Hps p2 Hp2). by replace p with p2 by lia.
  - intros j Hj. rewrite Hout by set_solver. apply list_lookup_insert_ne. intros <-. by apply (Hj p); [set_solver|].
Qed.

(** The first [m] chips are saved; the registers and the rest of the data are as in [s]. *)
Record saved_upto (s : ioapics) (m : nat) (s1 : ioapics) : Prop := {
  su_array : ioapic_array s1 = ioapic_array s;
  su_num : ioapic_num s1 = ioapic_num s;
  su_reg b r : reg r (hw s1 b) = reg r (hw s b);
  su_len : length (saved_rte s1) = length (saved_rte s) ∧ Forall (λ r, length r = 120%nat) (saved_rte s1);
  su_saved k info : (k < m)%nat → ioapic_array s !! k = Some info →
    ∃ saved, saved_rte s1 !! k = Some saved ∧
      ∀ p, 0 ≤ p < nr_pins info → saved !! Z.to_nat p = Some (entry (addr info) p s);
}.

Lemma pins_range infos info : infos_ok infos → info ∈ infos → Forall (λ p, 0 ≤ p < 120) (seqZ 0 (nr_pins info)).
Proof.
  intros Hok Hin. destruct (io_range _ Hok info Hin) as (H1 & H2 & H3). change NR_MAX_GSI with 120 in H3.
  apply Forall_seqZ. lia.
Qed.

Lemma suspend_chips_ok s j : ∀ m s1, table_ok s → saved_upto s m s1 → (m + j ≤ length (ioapic_array s))%nat →
  ∃ s2, suspend_chips (seq m j) s1 = Some s2 ∧ saved_upto s (m + j) s2.
Proof using L.
  induction j as [|j IH]; intros m s1 Ht [S1 S2 S3 [S4 S5] S6] Hm; [exists s1; by rewrite Nat.add_0_r|].
  destruct (lookup_lt_is_Some_2 (ioapic_array s) m) as [info Hi]; [lia|].
  destruct (lookup_lt_is_Some_2 (saved_rte s1) m) as [sv Hsv]; [pose proof (proj1 (to_saved s Ht)); lia|].
  cbn [seq suspend_chips]. rewrite S1, Hi, Hsv. cbn [mbind option_bind].
  destruct (save_pins_ok (addr info) (seqZ 0 (nr_pins info)) sv s1) as (sv' & s1' & -> & [[D1 D2 D3 D4 D5] Hr] & Hl & Hin & _).
  { eapply pins_range; [apply Ht|by eapply list_elem_of_lookup_2]. }
  { by eapply (Forall_lookup_1 _ _ _ _ S5). }
  cbn [mbind option_bind]. rewrite Nat.add_succ_r. apply (IH (S m)); [done| |lia]. split; cbn; try congruence.
  - rewrite length_insert, D3. split; [done|]. by apply Forall_insert.
  - rewrite D3. intros k info' Hk Hi'. destruct (decide (k = m)) as [->|Hne].
    + rewrite Hi in Hi'. injection Hi' as <-. exists sv'. rewrite list_lookup_insert_eq by (by eapply lookup_lt_Some).
      split; [done|]. intros p Hp. rewrite Hin by (apply elem_of_seqZ; lia). unfold entry. by rewrite !S3.
    + rewrite list_lookup_insert_ne by done. apply S6; [lia|done].
Qed.

Lemma restore_pins_ok base ps saved : ∀ s, Forall (λ p, 0 ≤ p < 120) ps → NoDup ps → length saved = 120%nat →
  ∃ s', restore_pins base ps saved s = Some s' ∧ same_data s s' ∧
    (∀ p, p ∈ ps → ∃ rte, saved !! Z.to_nat p = Some rte ∧ agrees (entry base p s') rte) ∧
    (∀ b p, b ≠ base ∨ p ∉ ps → entry b p s' = entry b p s).
Proof using L.
  induction ps as [|p ps IH]; intros s Hps Hnd Hlen.
  { exists s. split_and!; [done|done|by intros ? ?%elem_of_nil|done]. }
  apply Forall_cons in Hps as [Hp Hps]. apply NoDup_cons in Hnd as [Hnp Hnd]. cbn [restore_pins].
  destruct (lookup_lt_is_Some_2 saved (Z.to_nat p)) as [rte Hr]; [lia|]. rewrite Hr. cbn [mbind option_bind].
  destruct (set_entry_ok base p rte s Hp) as (Hd1 & Ha & Ho). set (s1 := ioapic_set_rte_entry base p rte s) in *.
  destruct (IH s1 Hps Hnd Hlen) as (s' & -> & Hd' & Hin & Hout). exists s'. split_and!; [done| | |].
  - destruct Hd1, Hd'. split; congruence.
  - intros p' [->|Hp']%elem_of_cons; [|by apply Hin]. exists rte. split; [done|]. by rewrite Hout by auto.
  - intros b p' Hne. rewrite not_elem_of_cons in Hne. rewrite Hout by tauto. apply Ho. tauto.
Qed.

(** The first [m] chips are as they were in [s]; [s1] has what was saved. *)
Record restored_upto (s s1 : ioapics) (m : nat) (s2 : ioapics) : Prop := {
  ru_array : ioapic_array s2 = ioapic_array s1;
  ru_saved : saved_rte s2 = saved_rte s1;
  ru_entry k info p : (k < m)%nat → ioapic_array s !! k = Some info → 0 ≤ p < nr_pins info →
    agrees (entry (addr info) p s2) (entry (addr info) p s);
}.

Lemma resume_chips_ok s s1 j : ∀ m s2, table_ok s → saved_upto s (length (ioapic_array s)) s1 →
  restored_upto s s1 m s2 → (m + j ≤ length (ioapic_array s))%nat →
  ∃ s3, resume_chips (seq m j) s2 = Some s3 ∧ restored_upto s s1 (m + j) s3.
Proof using L.
  induction j as [|j IH]; intros m s2 Ht Hs [R1 R2 R3] Hm; [exists s2; by rewrite Nat.add_0_r|].
  destruct (lookup_lt_is_Some_2 (ioapic_array s) m) as [info Hi]; [lia|].
  destruct (su_saved _ _ _ Hs m info ltac:(lia) Hi) as (sv & Hsv & Hval).
  cbn [seq resume_chips]. rewrite R1, (su_array _ _ _ Hs), Hi, R2, Hsv. cbn [mbind option_bind].
  destruct (restore_pins_ok (addr info) (seqZ 0 (nr_pins info)) sv s2) as (s2' & -> & [D1 D2 D3 D4 D5] & Hin & Hout).
  { eapply pins_range; [apply Ht|by eapply list_elem_of_lookup_2]. }
  { apply NoDup_seqZ. }
  { exact (Forall_lookup_1 _ _ _ _ (proj2 (su_len _ _ _ Hs)) Hsv). }
  cbn [mbind option_bind]. rewrite Nat.add_succ_r. apply (IH (S m)); [done|done| |lia]. split; [congruence|congruence|].
  intros k info' p Hk Hi' Hp. destruct (decide (k = m)) as [->|Hne].
  - rewrite Hi in Hi'. injection Hi' as <-. destruct (Hin p) as (rte & Er & Ha); [apply elem_of_seqZ; lia|].
    rewrite (Hval p Hp) in Er. by injection Er as <-.
  - rewrite Hout; [apply (R3 k info' p); [lia|done|done]|]. left. intros Ea. apply Hne.
    by apply (io_addr _ (to_infos s Ht) k m info' info).
Qed.

(** Suspend and resume.  After boot and any events, suspend_ioapic succeeds and leaves the
    registers of the chips alone; whatever the chips hold when the platform wakes up,
    resume_ioapic succeeds and gives every pin of every chip the software-defined bits of the entry
    it had before. *)
Theorem suspend_resume_round_trip n max_vm f madt q h0 l h :
  host_boot n max_vm f madt q h0 → Forall host_ev_ok l → host_run l h0 = Some h →
  ∃ s1, suspend_ioapic (io h) = Some s1 ∧ (∀ b r, reg r (hw s1 b) = reg r (hw (io h) b)) ∧
    ∀ woken : Z → chip, ∃ s2, resume_ioapic s1⟨hw := woken⟩ = Some s2 ∧
      ∀ k info p, ioapic_array (io h) !! k = Some info → 0 ≤ p < nr_pins info →
        agrees (entry (addr info) p s2) (entry (addr info) p (io h)).
Proof using L.
  intros Hb Hl Hrun. destruct (host_run_ok l h0 (host_boot_inv _ _ _ _ _ _ Hb) Hl) as (h1 & E1 & [_ Ht] & _).
  rewrite Hrun in E1. injection E1 as <-. set (s := io h) in *.
  destruct (suspend_chips_ok s (length (ioapic_array s)) 0 s Ht) as (s1 & E & Hs); [|lia|].
  { split; try done; [by split; [|apply Ht]|]. intros k info Hk. lia. }
  exists s1. unfold suspend_ioapic, resume_ioapic. rewrite (to_num s Ht), Nat2Z.id. split; [done|].
  split; [apply Hs|]. intros woken.
  destruct (resume_chips_ok s s1 (length (ioapic_array s)) 0 (s1⟨hw := woken⟩) Ht Hs) as (s2 & E2 & Hr); [|lia|].
  { split; [done|done|]. intros k info p Hk. lia. }
  exists s2. change (ioapic_num (s1⟨hw := woken⟩)) with (ioapic_num s1).
  rewrite (su_num _ _ _ Hs), (to_num s Ht), Nat2Z.id. split; [done|].
  intros k info p Hk Hp. apply (ru_entry _ _ _ _ Hr k info p); [by eapply lookup_lt_Some|done|done].
Qed.
End runs.

(** ** Instances *)

(** A chip with a register file. *)
Definition demo_device : IoapicDevice := {|
  chip := Z * (Z → Z);
  mmio_read32 := λ off c, if off =? IOAPIC_WINDOW then u32 (c.2 c.1) else c.1;
  mmio_write32 := λ v off c,
    if off =? IOAPIC_WINDOW then (c.1, λ r, if r =? c.1 then v else c.2 r) else (v, c.2) |}.

#[local] Existing Instance demo_device.

Lemma demo_device_laws : IoapicDeviceLaws.
Proof.
  split; unfold reg, window_write; cbn.
  - intros r c. apply Z.mod_pos_bound. lia.
  - done.
  - intros r r' v c Hne. by rewrite (proj2 (Z.eqb_neq r' r)).
  - intros r v c b _ Hv _ _. rewrite Z.eqb_refl. unfold u32. by rewrite Z.mod_small.
Qed.

#[local] Existing Instance demo_device_laws.

(** One chip with 24 pins at 0xFEC00000. *)
Definition demo_chips (_ : Z) : chip := (0, λ r, if r =? IOAPIC_VER then 0x170011 else 0).
Definition demo_madt : list madt_subtable := [Madt_other; Madt_ioapic 2 0xFEC00000 0].
Definition demo_descs : irqs :=
  mk_irqs (replicate 256 (mk_irq_desc 0 None 0 0)) [0; 0; 0; 0] [0; 0; 0; 0] (replicate 256 0) [].

Lemma demo_platform_ok : platform_ok (madt_chips demo_chips demo_madt).
Proof.
  replace (madt_chips demo_chips demo_madt) with [mk_ioapic_info 2 0xFEC00000 0 24] by done. split.
  - done.
  - split.
    + by intros info ->%list_elem_of_singleton.
    + by intros [|k] [|k'] info info' g.
    + by intros [|k] [|k'] info info'.
  - done.
Qed.

Lemma demo_descs_ok : irqs_wf demo_descs ∧ Forall (λ d, action d = None) (irq_desc_array demo_descs).
Proof. split; [split; [done|split; [done|solve_words]|split; [done|solve_words]]|]. by apply (bool_decide_unpack _). Qed.

Definition demo_host : option x86_host :=
  '(_, s) ← init_ioapic_id_info demo_madt (zero_ioapics demo_chips); init_interrupt 4 3 demo_descs s.

Lemma demo_boot : ∃ h, demo_host = Some h ∧ host_boot 4 3 demo_chips demo_madt demo_descs h.
Proof.
  destruct demo_descs_ok as [H1 H2].
  destruct (ioapic_boot_ok 4 demo_chips demo_madt 3 demo_descs ltac:(lia) H1 H2 demo_platform_ok) as (s & h & E1 & E2 & _).
  exists h. unfold demo_host. rewrite E1. split; [done|]. split; [lia|done|done|exact demo_platform_ok|by exists s].
Qed.

Lemma ioapic_boot_exact_witness :
  ∃ s h, init_ioapic_id_info demo_madt (zero_ioapics demo_chips) = Some (0, s) ∧
    init_interrupt 4 3 demo_descs s = Some h ∧ x86_wf (xi h) ∧
    (∀ k info p, madt_chips demo_chips demo_madt !! k = Some info → 0 ≤ p < nr_pins info → pin_ready h k info p) ∧
    (∀ g, 0 ≤ g → ∃ b, is_gsi_valid g (io h) = Some b ∧
      (b = true ↔ ∃ info, info ∈ madt_chips demo_chips demo_madt ∧ in_chip info g)).
Proof.
  apply (ioapic_boot_exact 4 demo_chips demo_madt 3 demo_descs); [lia|apply demo_descs_ok..|exact demo_platform_ok].
Defined.

Lemma x86_interrupt_delivered_witness :
  ∃ h0 h1 x ret h2, demo_host = Some h0 ∧ host_run [H_interrupt 0x21; H_mask 5 false] h0 = Some h1 ∧
    x86_request_irq 20 7 5 IRQF_LEVEL (xi h1) = Some (x, ret) ∧
    host_run [H_request IRQ_INVALID 8 6 0; H_free 21; H_trigger 20 true] h1⟨xi := x⟩ = Some h2 ∧
    (0 ≤ ret → Forall (λ ev, ¬ frees ev (Z.to_nat ret)) [H_request IRQ_INVALID 8 6 0; H_free 21; H_trigger 20 true] →
      ∃ vr h3, irq_to_vector ret (xi h2) = Some vr ∧
        (∀ j, 0 ≤ j < NR_IRQS → irq_to_vector j (xi h2) = Some vr → j = ret) ∧
        dispatch_interrupt vr h2 = Some h3 ∧
        called (gen (xi h3)) = called (gen (xi h2)) ++ [(7%nat, ret, 5)]).
Proof.
  destruct demo_boot as (h0 & E & Hb). exists h0.
  destruct (x86_interrupt_delivered 4 3 demo_chips demo_madt demo_descs h0 [H_interrupt 0x21; H_mask 5 false]
    20 7 5 IRQF_LEVEL [H_request IRQ_INVALID 8 6 0; H_free 21; H_trigger 20 true] Hb)
    as (h1 & x & ret & h2 & H).
  - repeat constructor; cbn; unfold NR_MAX_VECTOR, NR_MAX_GSI, CONFIG_MAX_IOAPIC_NUM, CONFIG_MAX_IOAPIC_LINES; lia.
  - lia.
  - repeat constructor; cbn; unfold IRQ_INVALID; lia.
  - exists h1, x, ret, h2. exact (conj E H).
Defined.

(** The pin 20 for a passthrough device. *)
Definition demo_request : list host_event := [H_request 20 7 5 (IRQF_LEVEL ||| IRQF_PT)].
Definition demo_t : gsi_table := mk_gsi_table true 2 0 20 0xFEC00000.

Definition demo_desc : irq_desc := mk_irq_desc 20 (Some 7%nat) 5 6.

Definition demo_view (h : x86_host) : option irq_desc * option Z * option bool * option gsi_table :=
  (irq_desc_array (gen (xi h)) !! 20%nat, irq_data (xi h) !! 20%nat, is_ioapic_irq 20 (io h), gsi_at 20 (io h)).

Lemma demo_request_ok : Forall host_ev_ok demo_request.
Proof. repeat constructor; cbn; lia. Qed.

Lemma level_pin_masking_witness :
  ∃ h h', (h0 ← demo_host; host_run demo_request h0) = Some h ∧ dispatch_interrupt 0x30 h = Some h' ∧
    rte_intr_mask (entry 0xFEC00000 20 (io h')) = 1 ∧
    (∀ b p, b ≠ 0xFEC00000 ∨ p ≠ 20 → entry b p (io h') = entry b p (io h)).
Proof.
  destruct demo_boot as (h0 & E & Hb).
  destruct (host_run_ok demo_request h0 (host_boot_inv _ _ _ _ _ _ Hb) demo_request_ok) as (h & Er & _).
  assert (Ev : demo_view <$> (h0 ← demo_host; host_run demo_request h0) =
    Some (Some demo_desc, Some 0x30, Some true, Some demo_t)) by (vm_compute; reflexivity).
  rewrite E in Ev. cbn [mbind option_bind] in Ev. rewrite Er in Ev. injection Ev as E1 E2 E3 E4.
  destruct (level_pin_masking 4 3 demo_chips demo_madt demo_descs h0 demo_request h 20 7 5 0x30
    demo_desc demo_t Hb demo_request_ok Er) as (h' & E' & _ & H1 & _ & H2).
  - exists demo_desc. split; [exact E1|]. by split_and!.
  - exact E1.
  - done.
  - exact E3.
  - exact E4.
  - done.
  - exists h, h'. rewrite E. exact (conj Er (conj E' (conj H1 H2))).
Defined.

Lemma suspend_resume_round_trip_witness :
  ∃ h s1, demo_host = Some h ∧ suspend_ioapic (io h) = Some s1 ∧
    ∃ s2, resume_ioapic s1⟨hw := λ _, (0, λ _, 0)⟩ = Some s2 ∧
      ∀ k info p, ioapic_array (io h) !! k = Some info → 0 ≤ p < nr_pins info →
        agrees (entry (addr info) p s2) (entry (addr info) p (io h)).
Proof.
  destruct demo_boot as (h & E & Hb).
  destruct (suspend_resume_round_trip 4 3 demo_chips demo_madt demo_descs h [] h Hb (Forall_nil_2 _) eq_refl)
    as (s1 & E1 & _ & H). destruct (H (λ _, (0, λ _, 0))) as (s2 & E2 & H2). exists h, s1.
  exact (conj E (conj E1 (ex_intro _ s2 (conj E2 H2)))).
Defined.
