(* ===== verification/Notify.v ===== *)
(** * Calls of functions on other CPUs

    [X86Notify]: smp_call_function and kick_notification of hypervisor/arch/x86/notify.c, as steps
    of the CPUs that call and of the CPUs that take the notification, in any interleaving.
    [RvNotify]: the same functions of hypervisor/arch/riscv/notify.c with send_dest_ipi_mask of
    hypervisor/arch/riscv/clint.c. *)

From stdpp Require Import functions.
From S2P Require Import Prelude Bits.

(** A function, which is not NULL, and its data. *)
Definition call : Type := Z * Z.

Module X86Notify.

#[local] Existing Instance x86_bitmap.

Section smp.
Context (MAX_PCPU_NUM : nat) (is_pcpu_active : nat → bool).

(** Where a CPU is in smp_call_function: in the loop on the compare-and-exchange; in the loop over
    the CPUs, with the rest of the mask; before sending the notification to [p]; before and after
    reading the mask for the clear of bit [p], which is not atomic; in the wait.  [k] counts the
    calls that took the mask before. *)
Inductive caller :=
  | C_idle
  | C_try (m : Z) (c : call)
  | C_loop (k : nat) (m : Z) (c : call)
  | C_send (k : nat) (m : Z) (c : call) (p : nat)
  | C_read (k : nat) (m : Z) (c : call) (p : nat)
  | C_write (k : nat) (m : Z) (c : call) (p : nat) (old : Z)
  | C_wait (k : nat).

(** And in kick_notification: before the call, before the clear. *)
Inductive handler := H_idle | H_call | H_clear.

(** [ipis] are the notifications that are pending (also as requests to a vCPU with a local APIC of
    its own), [ran] the functions that have run, with the CPU, and [issued] the calls that took the
    mask, with the CPU that calls. *)
Record smp := mk_smp {
  smp_call_mask : Z;
  smp_call_info : nat → option call;
  ipis : nat → bool;
  callers : nat → caller;
  handlers : nat → handler;
  ran : list (nat * call);
  issued : list (nat * Z * call) }.

#[export] Instance eta_smp : Eta smp :=
  { eta := rd mk_smp <*> smp_call_mask <*> smp_call_info <*> ipis <*> callers <*> handlers <*> ran
             <*> issued }.

Definition init_smp : smp :=
  mk_smp 0 (λ _, None) (λ _, false) (λ _, C_idle) (λ _, H_idle) [] [].

Definition at_pc (i : nat) (pc : caller) (s : smp) : smp := s⟨callers := <[i := pc]> (callers s)⟩.

(** A step of smp_call_function on CPU [i]. *)
Definition smp_call_step (i : nat) (s : smp) : option smp :=
  match callers s i with
  | C_idle => None
  | C_try m c =>
      if smp_call_mask s =? 0
      then Some (at_pc i (C_loop (length (issued s)) m c)
                   s⟨smp_call_mask := m⟩⟨issued := issued s ++ [(i, m, c)]⟩)
      else Some s
  | C_loop k m c =>
      let p := Z.to_nat (u16 (ffs64 m)) in
      if (p <? MAX_PCPU_NUM)%nat then
        let m := bitmap_clear_nolock (Z.of_nat p) m in
        if (p =? i)%nat then Some (at_pc i (C_read k m c p) s⟨ran := ran s ++ [(i, c)]⟩)
        else if is_pcpu_active p
        then Some (at_pc i (C_send k m c p) s⟨smp_call_info := <[p := Some c]> (smp_call_info s)⟩)
        else Some (at_pc i (C_read k m c p) s)
      else Some (at_pc i (C_wait k) s)
  | C_send k m c p => Some (at_pc i (C_loop k m c) s⟨ipis := <[p := true]> (ipis s)⟩)
  | C_read k m c p => Some (at_pc i (C_write k m c p (smp_call_mask s)) s)
  | C_write k m c p old =>
      Some (at_pc i (C_loop k m c) s⟨smp_call_mask := bitmap_clear_nolock (Z.of_nat p) old⟩)
  | C_wait k => if smp_call_mask s =? 0 then Some (at_pc i C_idle s) else Some s
  end.

(** CPU [i] takes its notification: the test of kick_notification. *)
Definition kick_begin (i : nat) (s : smp) : option smp :=
  if ipis s i then
    match handlers s i with
    | H_idle =>
        let s := s⟨ipis := <[i := false]> (ipis s)⟩ in
        Some (if bitmap_test (Z.of_nat i) (smp_call_mask s)
              then s⟨handlers := <[i := H_call]> (handlers s)⟩ else s)
    | _ => None
    end
  else None.

(** The rest of kick_notification. *)
Definition kick_step (i : nat) (s : smp) : option smp :=
  match handlers s i with
  | H_idle => None
  | H_call =>
      let s := match smp_call_info s i with Some c => s⟨ran := ran s ++ [(i, c)]⟩ | None => s end in
      Some s⟨handlers := <[i := H_clear]> (handlers s)⟩
  | H_clear =>
      let s := s⟨smp_call_mask := bitmap_clear_lock (Z.of_nat i) (smp_call_mask s)⟩ in
      Some s⟨handlers := <[i := H_idle]> (handlers s)⟩
  end.

(** [E_kick] is a notification from elsewhere (kick_pcpu). *)
Inductive event := E_call (i : nat) (m : Z) (c : call) | E_step (i : nat) | E_irq (i : nat) | E_handler (i : nat)
  | E_kick (i : nat).

Definition smp_step (ev : event) (s : smp) : option smp :=
  match ev with
  | E_call i m c => match callers s i with C_idle => Some (at_pc i (C_try m c) s) | _ => None end
  | E_step i => smp_call_step i s
  | E_irq i => kick_begin i s
  | E_handler i => kick_step i s
  | E_kick i => Some s⟨ipis := <[i := true]> (ipis s)⟩
  end.

Fixpoint smp_run (l : list event) (s : smp) : option smp :=
  match l with [] => Some s | ev :: l' => s ← smp_step ev s; smp_run l' s end.

Lemma smp_run_app l1 l2 s : smp_run (l1 ++ l2) s = s ← smp_run l1 s; smp_run l2 s.
Proof. revert s. induction l1 as [|ev l1 IH]; intros s; [done|]. cbn. destruct (smp_step ev s); [apply IH|done]. Qed.

(** Calls are for CPUs that exist, and no other notifications are sent. *)
Definition ev_ok (ev : event) : Prop :=
  match ev with
  | E_call _ m _ => 0 ≤ m < 2 ^ Z.of_nat MAX_PCPU_NUM
  | E_kick _ => False
  | _ => True
  end.

(** ** What the CPUs run *)

(** The calls among [l] that CPU [q] has to run: it is in the mask, and calls itself or is active. *)
Definition targets (q : nat) (x : nat * Z * call) : bool :=
  Z.testbit x.1.2 (Z.of_nat q) && ((q =? x.1.1)%nat || is_pcpu_active q).

Definition expected (q : nat) (l : list (nat * Z * call)) : list (nat * call) :=
  (λ x, (q, x.2)) <$> filter (λ x, targets q x = true) l.

Definition runs (q : nat) (s : smp) : list (nat * call) := filter (λ x, x.1 = q) (ran s).

Lemma expected_app q l1 l2 : expected q (l1 ++ l2) = expected q l1 ++ expected q l2.
Proof. unfold expected. by rewrite filter_app, fmap_app. Qed.

Lemma expected_one q x : expected q [x] = if targets q x then [(q, x.2)] else [].
Proof. unfold expected. rewrite filter_cons, filter_nil. by destruct (targets q x). Qed.

Lemma expected_take q k l : expected q (take k l) `prefix_of` expected q l.
Proof. exists (expected q (drop k l)). by rewrite <- expected_app, take_drop. Qed.

(** ** The invariant *)

(** How far the call is on a CPU: not looked at; information written; notified; past the test;
    before the clear; done; no target. *)
Inductive phase := Ph_rest | Ph_send | Ph_ipi | Ph_call | Ph_clear | Ph_done | Ph_out.

(** Its bit has to be in the mask. *)
Definition needs (ph : phase) : bool := match ph with Ph_done | Ph_out => false | _ => true end.

Definition phase_ok (s : smp) (c : call) (before : list (nat * call)) (q : nat) (ph : phase) : Prop :=
  handlers s q = match ph with Ph_call => H_call | Ph_clear => H_clear | _ => H_idle end ∧
  ipis s q = match ph with Ph_ipi => true | _ => false end ∧
  (match ph with Ph_send | Ph_ipi | Ph_call => smp_call_info s q = Some c | _ => True end) ∧
  runs q s = before ++ match ph with Ph_clear | Ph_done => [(q, c)] | _ => [] end ∧
  (needs ph = true → Z.testbit (smp_call_mask s) (Z.of_nat q) = true).

(** A call that has nothing left to do but to see the mask empty. *)
Definition finished (n : nat) (pc : caller) : Prop :=
  match pc with
  | C_idle => True
  | C_try m _ => 0 ≤ m < 2 ^ Z.of_nat MAX_PCPU_NUM
  | C_loop k m _ => (k < n)%nat ∧ m = 0
  | C_wait k => (k < n)%nat
  | _ => False
  end.

(** No call is on its way. *)
Record free (s : smp) : Prop := {
  fr_mask : smp_call_mask s = 0;
  fr_quiet q : handlers s q = H_idle ∧ ipis s q = false;
  fr_runs q : runs q s = expected q (issued s);
  fr_callers j : finished (length (issued s)) (callers s j);
}.

(** The program counter of the call that has the mask. *)
Definition pc_ok (s : smp) (i k : nat) (m : Z) (c : call) (phs : nat → phase) : Prop :=
  match callers s i with
  | C_loop k' m' c' => k' = k ∧ m' = m ∧ c' = c ∧ ∀ q, phs q ≠ Ph_send
  | C_send k' m' c' p => k' = k ∧ m' = m ∧ c' = c ∧ ∀ q, phs q = Ph_send ↔ q = p
  | C_read k' m' c' p =>
      k' = k ∧ m' = m ∧ c' = c ∧ (∀ q, phs q ≠ Ph_send) ∧ needs (phs p) = false ∧ (p < MAX_PCPU_NUM)%nat ∧
      Z.testbit (smp_call_mask s) (Z.of_nat p) = true
  | C_write k' m' c' p old =>
      k' = k ∧ m' = m ∧ c' = c ∧ (∀ q, phs q ≠ Ph_send) ∧ needs (phs p) = false ∧ (p < MAX_PCPU_NUM)%nat ∧
      Z.testbit (smp_call_mask s) (Z.of_nat p) = true ∧
      word 64 old ∧ ∀ q, needs (phs q) = true → Z.testbit old (Z.of_nat q) = true
  | C_wait k' => k' = k ∧ m = 0 ∧ ∀ q, phs q ≠ Ph_send
  | _ => False
  end.

(** The call of CPU [i], the last one after [l0], is on its way. *)
Record taken (s : smp) (i : nat) (m0 : Z) (c : call) (l0 : list (nat * Z * call)) (m : Z) (phs : nat → phase) : Prop := {
  tk_issued : issued s = l0 ++ [(i, m0, c)];
  tk_word : word 64 (smp_call_mask s);
  tk_m0 : 0 ≤ m0 < 2 ^ Z.of_nat MAX_PCPU_NUM;
  tk_m : 0 ≤ m < 2 ^ Z.of_nat MAX_PCPU_NUM;
  tk_phase q : phase_ok s c (expected q l0) q (phs q);
  tk_rest q : Z.testbit m (Z.of_nat q) = true ↔ phs q = Ph_rest;
  tk_sub q : Z.testbit m (Z.of_nat q) = true → Z.testbit m0 (Z.of_nat q) = true;
  tk_target q : phs q ≠ Ph_rest → (phs q = Ph_out ↔ targets q (i, m0, c) = false);
  tk_pc : pc_ok s i (length l0) m c phs;
  tk_others j : j ≠ i → finished (length (issued s)) (callers s j);
}.

Definition smp_inv (s : smp) : Prop :=
  free s ∨ smp_call_mask s ≠ 0 ∧ ∃ i m0 c l0 m phs, taken s i m0 c l0 m phs.

(** When the mask is empty, the call is done everywhere. *)
Lemma taken_inv s i m0 c l0 m phs : taken s i m0 c l0 m phs → smp_inv s.
Proof.
  intros T. destruct (decide (smp_call_mask s = 0)) as [Hz|Hz]; [left|right; split; [done|by exists i, m0, c, l0, m, phs]].
  destruct T as [Hi Hw Hm0 Hm Hph Hrest Hsub Htg Hpc Ho].
  assert (Hn : ∀ q, needs (phs q) = false).
  { intros q. destruct (Hph q) as (_ & _ & _ & _ & Hb). destruct (needs (phs q)); [|done].
    specialize (Hb eq_refl). by rewrite Hz, Z.testbit_0_l in Hb. }
  assert (Em : m = 0).
  { apply Z.bits_inj'. intros b Hb. rewrite Z.testbit_0_l. destruct (Z.testbit m b) eqn:E; [|done].
    rewrite <- (Z2Nat.id b) in E by done. apply Hrest in E. specialize (Hn (Z.to_nat b)). by rewrite E in Hn. }
  split.
  - done.
  - intros q. destruct (Hph q) as (H1 & H2 & _). specialize (Hn q). by destruct (phs q).
  - intros q. destruct (Hph q) as (_ & _ & _ & -> & _). rewrite Hi, expected_app, expected_one. f_equal.
    specialize (Hn q). specialize (Htg q). destruct (phs q); try done.
    + destruct (targets q (i, m0, c)); [done|]. by pose proof (proj2 (Htg ltac:(done)) eq_refl).
    + by rewrite (proj1 (Htg ltac:(done)) eq_refl).
  - intros j. destruct (decide (j = i)) as [->|Hj]; [|by apply Ho]. unfold pc_ok in Hpc. unfold finished.
    rewrite Hi, length_app. cbn. destruct (callers s i) as [| |k' m' c'|k' m' c' p|k' m' c' p|k' m' c' p old|k']; try done.
    + destruct Hpc as (-> & -> & _). split; [lia|done].
    + destruct Hpc as (_ & _ & _ & Hs). specialize (Hn p). by rewrite (proj2 (Hs p) eq_refl) in Hn.
    + destruct Hpc as (_ & _ & _ & _ & _ & _ & Hb). by rewrite Hz, Z.testbit_0_l in Hb.
    + destruct Hpc as (_ & _ & _ & _ & _ & _ & Hb & _). by rewrite Hz, Z.testbit_0_l in Hb.
    + destruct Hpc as (-> & _). lia.
Qed.

Context (Hmax : (MAX_PCPU_NUM ≤ 64)%nat).

Lemma mask_word m : 0 ≤ m < 2 ^ Z.of_nat MAX_PCPU_NUM → word 64 m.
Proof using Hmax. intros Hm. assert (2 ^ Z.of_nat MAX_PCPU_NUM ≤ 2 ^ 64) by (apply Z.pow_le_mono_r; lia). unfold word. lia. Qed.

Lemma clear_at p q w : (p < MAX_PCPU_NUM)%nat → word 64 w →
  Z.testbit (bitmap_clear_lock (Z.of_nat p) w) (Z.of_nat q) = Z.testbit w (Z.of_nat q) && negb (q =? p)%nat.
Proof using Hmax.
  intros Hp Hw. rewrite (bs_clear (lim := 64)) by (done || lia). f_equal. f_equal.
  destruct (Nat.eqb_spec q p) as [->|]; [by rewrite bool_decide_true|]. rewrite bool_decide_false; [done|lia].
Qed.

(** The CPU that [smp_call_function] looks at next. *)
Lemma next_cpu m : 0 ≤ m < 2 ^ Z.of_nat MAX_PCPU_NUM →
  let p := Z.to_nat (u16 (ffs64 m)) in
  if decide (m = 0) then (MAX_PCPU_NUM ≤ p)%nat
  else (p < MAX_PCPU_NUM)%nat ∧ Z.testbit m (Z.of_nat p) = true.
Proof using Hmax.
  intros Hm p. pose proof (mask_word m Hm) as Hw. subst p. unfold u16. case_decide as Hz.
  - subst m. pose proof (bs_ffs64_zero (lim := 64)). rewrite Z.mod_small by lia. lia.
  - destruct (bs_ffs64 (lim := 64) m Hw Hz) as (Hr & Hb & _). rewrite Z.mod_small by lia. rewrite Z2Nat.id by lia.
    split; [|done]. assert (ffs64 m < Z.of_nat MAX_PCPU_NUM); [|lia].
    destruct (Z.lt_ge_cases (ffs64 m) (Z.of_nat MAX_PCPU_NUM)) as [|Hge]; [done|].
    by rewrite (word_testbit_high (Z.of_nat MAX_PCPU_NUM)) in Hb by (done || lia).
Qed.

Lemma next_none : (MAX_PCPU_NUM ≤ Z.to_nat (u16 (ffs64 0)))%nat.
Proof using Hmax. apply (next_cpu 0). split; [done|]. apply Z.pow_pos_nonneg; lia. Qed.

Lemma runs_app q s x : runs q (s⟨ran := ran s ++ [x]⟩) = runs q s ++ if (x.1 =? q)%nat then [x] else [].
Proof.
  unfold runs. cbn. rewrite filter_app, filter_cons, filter_nil. f_equal.
  destruct (Nat.eqb_spec x.1 q); [by rewrite decide_True|by rewrite decide_False].
Qed.

(** *** Steps of other CPUs *)

Lemma finished_mono n n' pc : (n ≤ n')%nat → finished n pc → finished n' pc.
Proof. destruct pc; cbn; lia || done. Qed.

(** A CPU without the mask changes its program counter. *)
Lemma taken_other s i m0 c l0 m phs j pc : taken s i m0 c l0 m phs → j ≠ i → finished (length (issued s)) pc →
  taken (at_pc j pc s) i m0 c l0 m phs.
Proof.
  intros [] Hj Hpc. split; try done.
  - unfold pc_ok. cbn. by rewrite fn_lookup_insert_ne.
  - cbn. intros j' Hj'. destruct (decide (j' = j)) as [->|Hne]; [by rewrite fn_lookup_insert|].
    rewrite fn_lookup_insert_ne by done. by apply tk_others0.
Qed.

Lemma free_other s j pc : free s → finished (length (issued s)) pc → free (at_pc j pc s).
Proof.
  intros [] Hpc. split; try done. cbn. intros j'. destruct (decide (j' = j)) as [->|Hne]; [by rewrite fn_lookup_insert|].
  rewrite fn_lookup_insert_ne by done. by apply fr_callers0.
Qed.

(** The mask is taken. *)
Lemma take_ok s j m c : free s → 0 ≤ m < 2 ^ Z.of_nat MAX_PCPU_NUM →
  taken (at_pc j (C_loop (length (issued s)) m c) s⟨smp_call_mask := m⟩⟨issued := issued s ++ [(j, m, c)]⟩)
    j m c (issued s) m (λ q, if Z.testbit m (Z.of_nat q) then Ph_rest else Ph_out).
Proof using Hmax.
  intros [Hz Hq Hr Hc] Hm. split; cbn; try done.
  - by apply mask_word.
  - intros q. destruct (Hq q) as [H1 H2]. specialize (Hr q). unfold phase_ok, runs in *. cbn.
    destruct (Z.testbit m (Z.of_nat q)) eqn:E; cbn; by rewrite app_nil_r.
  - intros q. by destruct (Z.testbit m (Z.of_nat q)).
  - intros q. unfold targets. cbn. by destruct (Z.testbit m (Z.of_nat q)).
  - unfold pc_ok. cbn. rewrite fn_lookup_insert. split_and!; try done. intros q. by destruct (Z.testbit m (Z.of_nat q)).
  - intros i Hi. rewrite fn_lookup_insert_ne by done. eapply finished_mono; [|apply Hc]. rewrite length_app. lia.
Qed.

(** *** Steps of the call *)

Lemma phase_frame s s' c before q ph : handlers s' q = handlers s q → ipis s' q = ipis s q →
  smp_call_info s' q = smp_call_info s q → runs q s' = runs q s →
  (needs ph = true → Z.testbit (smp_call_mask s) (Z.of_nat q) = true → Z.testbit (smp_call_mask s') (Z.of_nat q) = true) →
  phase_ok s c before q ph → phase_ok s' c before q ph.
Proof. intros E1 E2 E3 E4 E5 (H1 & H2 & H3 & H4 & H5). unfold phase_ok. rewrite E1, E2, E3, E4. split_and!; auto. Qed.

(** Looking at CPU [p] takes it out of the rest; [ph] is its next phase. *)
Lemma rest_ok i m0 c m p ph phs : 0 ≤ m < 2 ^ Z.of_nat MAX_PCPU_NUM → (p < MAX_PCPU_NUM)%nat →
  (∀ q, Z.testbit m (Z.of_nat q) = true ↔ phs q = Ph_rest) →
  (∀ q, Z.testbit m (Z.of_nat q) = true → Z.testbit m0 (Z.of_nat q) = true) →
  (∀ q, phs q ≠ Ph_rest → (phs q = Ph_out ↔ targets q (i, m0, c) = false)) →
  ph ≠ Ph_rest → (ph = Ph_out ↔ targets p (i, m0, c) = false) →
  let m' := bitmap_clear_nolock (Z.of_nat p) m in
  0 ≤ m' < 2 ^ Z.of_nat MAX_PCPU_NUM ∧
  (∀ q, Z.testbit m' (Z.of_nat q) = true ↔ <[p := ph]> phs q = Ph_rest) ∧
  (∀ q, Z.testbit m' (Z.of_nat q) = true → Z.testbit m0 (Z.of_nat q) = true) ∧
  (∀ q, <[p := ph]> phs q ≠ Ph_rest → (<[p := ph]> phs q = Ph_out ↔ targets q (i, m0, c) = false)).
Proof using Hmax.
  intros Hm Hp Hr Hs Ht Hph Htp m'. assert (Ht' : ∀ q, Z.testbit m' (Z.of_nat q) = Z.testbit m (Z.of_nat q) && negb (q =? p)%nat).
  { intros q. unfold m'. rewrite bn_clear. by apply clear_at, mask_word. }
  split_and!.
  - apply (word_land_l (Z.of_nat MAX_PCPU_NUM) m); [lia|exact Hm].
  - apply (word_land_l (Z.of_nat MAX_PCPU_NUM) m); [lia|exact Hm].
  - intros q. rewrite Ht'. destruct (Nat.eqb_spec q p) as [->|Hq]; cbn [negb].
    + rewrite andb_false_r, fn_lookup_insert. split; [done|]. congruence.
    + rewrite andb_true_r, fn_lookup_insert_ne by done. apply Hr.
  - intros q. rewrite Ht'. intros [H _]%andb_prop. by apply Hs.
  - intros q. destruct (decide (q = p)) as [->|Hq]; [by rewrite fn_lookup_insert|].
    rewrite fn_lookup_insert_ne by done. apply Ht.
Qed.

(** The loop ends. *)
Lemma loop_end_ok s i m0 c l0 phs : taken s i m0 c l0 0 phs → callers s i = C_loop (length l0) 0 c →
  taken (at_pc i (C_wait (length l0)) s) i m0 c l0 0 phs.
Proof.
  intros [] E. split; try done.
  - unfold pc_ok in *. rewrite E in tk_pc0. cbn. rewrite fn_lookup_insert. tauto.
  - cbn. intros j Hj. rewrite fn_lookup_insert_ne by done. by apply tk_others0.
Qed.

(** A turn of the loop: [s1] is the state with what is done for CPU [p], [pc] the next step. *)
Lemma loop_turn_ok s s1 i m0 c l0 m phs p ph pc : taken s i m0 c l0 m phs → (p < MAX_PCPU_NUM)%nat →
  callers s i = C_loop (length l0) m c → Z.testbit m (Z.of_nat p) = true →
  issued s1 = issued s → smp_call_mask s1 = smp_call_mask s → callers s1 = callers s →
  (∀ q, q ≠ p → handlers s1 q = handlers s q ∧ ipis s1 q = ipis s q ∧ smp_call_info s1 q = smp_call_info s q ∧
    runs q s1 = runs q s) →
  phase_ok s1 c (expected p l0) p ph → ph ≠ Ph_rest → (ph = Ph_out ↔ targets p (i, m0, c) = false) →
  let m' := bitmap_clear_nolock (Z.of_nat p) m in
  (pc = C_send (length l0) m' c p ∧ ph = Ph_send) ∨ (pc = C_read (length l0) m' c p ∧ needs ph = false) →
  taken (at_pc i pc s1) i m0 c l0 m' (<[p := ph]> phs).
Proof using Hmax.
  intros [Hi Hw Hm0 Hm Hph Hr Hs Ht Hpc Ho] Hp Epc Hbit E1 E2 E3 Hoth Hp1 Hnr Hpt m' Hnext.
  destruct (rest_ok i m0 c m p ph phs Hm Hp Hr Hs Ht Hnr Hpt) as (M1 & M2 & M3 & M4).
  assert (Hns : ∀ q, phs q ≠ Ph_send) by (unfold pc_ok in Hpc; rewrite Epc in Hpc; tauto).
  split; cbn; try done; try congruence.
  - intros q. destruct (decide (q = p)) as [->|Hq]; [rewrite fn_lookup_insert; exact Hp1|].
    rewrite fn_lookup_insert_ne by done. destruct (Hoth q Hq) as (A1 & A2 & A3 & A4).
    refine (phase_frame s _ c _ q _ A1 A2 A3 A4 _ (Hph q)). cbn. by rewrite E2.
  - unfold pc_ok. cbn. rewrite fn_lookup_insert. destruct Hnext as [[-> ->]|[-> Hn]].
    + split_and!; try done. intros q. destruct (decide (q = p)) as [->|Hq]; [by rewrite fn_lookup_insert|].
      rewrite fn_lookup_insert_ne by done. split; [by intros ?%Hns|done].
    + rewrite fn_lookup_insert, E2. split_and!; try done.
      * intros q. destruct (decide (q = p)) as [->|Hq]; [rewrite fn_lookup_insert; by destruct ph|].
        by rewrite fn_lookup_insert_ne.
      * destruct (Hph p) as (_ & _ & _ & _ & Hb). apply Hb. apply Hr in Hbit. by rewrite Hbit.
  - intros j Hj. rewrite fn_lookup_insert_ne, E1, E3 by done. by apply Ho.
Qed.

Lemma send_ok s i m0 c l0 m phs p : taken s i m0 c l0 m phs → callers s i = C_send (length l0) m c p →
  taken (at_pc i (C_loop (length l0) m c) s⟨ipis := <[p := true]> (ipis s)⟩) i m0 c l0 m (<[p := Ph_ipi]> phs).
Proof.
  intros [Hi Hw Hm0 Hm Hph Hr Hs Ht Hpc Ho] E. unfold pc_ok in Hpc. rewrite E in Hpc. destruct Hpc as (_ & _ & _ & Hsend).
  assert (Ep : phs p = Ph_send) by by apply Hsend. split; cbn; try done.
  - intros q. destruct (decide (q = p)) as [->|Hq].
    + destruct (Hph p) as (H1 & H2 & H3 & H4 & H5). rewrite Ep in *. rewrite fn_lookup_insert.
      unfold phase_ok. cbn. rewrite fn_lookup_insert. split_and!; try done; by intros _; apply H5.
    + rewrite fn_lookup_insert_ne by done. refine (phase_frame s _ c _ q _ _ _ _ _ _ (Hph q)); try done.
      cbn. by rewrite fn_lookup_insert_ne.
  - intros q. rewrite Hr. destruct (decide (q = p)) as [->|Hq]; [|by rewrite fn_lookup_insert_ne].
    by rewrite fn_lookup_insert, Ep.
  - intros q. destruct (decide (q = p)) as [->|Hq]; [|rewrite fn_lookup_insert_ne by done; apply Ht].
    rewrite fn_lookup_insert. intros _. specialize (Ht p). rewrite Ep in Ht. specialize (Ht ltac:(done)).
    split; [done|]. intros Hf%Ht. done.
  - unfold pc_ok. cbn. rewrite fn_lookup_insert. split_and!; try done. intros q.
    destruct (decide (q = p)) as [->|Hq]; [by rewrite fn_lookup_insert|]. rewrite fn_lookup_insert_ne by done. by rewrite Hsend.
  - intros j Hj. rewrite fn_lookup_insert_ne by done. by apply Ho.
Qed.

(** The clear that is not atomic: it keeps the bits that are needed. *)
Lemma read_ok s i m0 c l0 m phs p : taken s i m0 c l0 m phs → callers s i = C_read (length l0) m c p →
  taken (at_pc i (C_write (length l0) m c p (smp_call_mask s)) s) i m0 c l0 m phs.
Proof.
  intros [Hi Hw Hm0 Hm Hph Hr Hs Ht Hpc Ho] E. unfold pc_ok in Hpc. rewrite E in Hpc. destruct Hpc as (_ & _ & _ & H1 & H2 & H3 & H4).
  split; cbn; try done.
  - unfold pc_ok. cbn. rewrite fn_lookup_insert. split_and!; try done; [apply Hw..|]. intros q. apply (Hph q).
  - intros j Hj. rewrite fn_lookup_insert_ne by done. by apply Ho.
Qed.

Lemma write_ok s i m0 c l0 m phs p old : taken s i m0 c l0 m phs → callers s i = C_write (length l0) m c p old →
  taken (at_pc i (C_loop (length l0) m c) s⟨smp_call_mask := bitmap_clear_nolock (Z.of_nat p) old⟩) i m0 c l0 m phs.
Proof using Hmax.
  intros [Hi Hw Hm0 Hm Hph Hr Hs Ht Hpc Ho] E. unfold pc_ok in Hpc. rewrite E in Hpc.
  destruct Hpc as (_ & _ & _ & H1 & H2 & H3 & H4 & H5 & H6). split; try done.
  - cbn [smp_call_mask at_pc upd]. change (word 64 (bitmap_clear_nolock (Z.of_nat p) old)).
    rewrite bn_clear. apply (bs_clear_word (lim := 64)); [lia|done].
  - intros q. refine (phase_frame s _ c _ q _ _ _ _ _ _ (Hph q)); try done. intros Hn _.
    change (Z.testbit (bitmap_clear_nolock (Z.of_nat p) old) (Z.of_nat q) = true). rewrite bn_clear, clear_at by done.
    rewrite (H6 q Hn). destruct (Nat.eqb_spec q p) as [->|]; [congruence|done].
  - unfold pc_ok. cbn. rewrite fn_lookup_insert. by split_and!.
  - intros j Hj. cbn. rewrite fn_lookup_insert_ne by done. by apply Ho.
Qed.

Lemma owner_step_ok s s' i m0 c l0 m phs : taken s i m0 c l0 m phs → smp_call_mask s ≠ 0 →
  smp_call_step i s = Some s' → smp_inv s'.
Proof using Hmax.
  intros T Hz. pose proof (tk_pc _ _ _ _ _ _ _ T) as Hpc. unfold pc_ok in Hpc. unfold smp_call_step.
  destruct (callers s i) as [| |k' m' c'|k' m' c' p|k' m' c' p|k' m' c' p old|k'] eqn:E; try done.
  - destruct Hpc as (-> & -> & -> & Hns). pose proof (next_cpu m (tk_m _ _ _ _ _ _ _ T)) as Hp. cbn zeta in Hp.
    set (p := Z.to_nat (u16 (ffs64 m))) in *. case_decide as Hm; cycle 0.
    { subst m. rewrite (proj2 (Nat.ltb_ge _ _)) by done. intros [= <-]. eapply taken_inv. by apply loop_end_ok. }
    destruct Hp as [Hp Hb]. rewrite (proj2 (Nat.ltb_lt _ _)) by done.
    pose proof (tk_sub _ _ _ _ _ _ _ T p Hb) as Hb0. pose proof (proj1 (tk_rest _ _ _ _ _ _ _ T p) Hb) as Hrest.
    destruct (tk_phase _ _ _ _ _ _ _ T p) as (P1 & P2 & _ & P4 & P5). rewrite Hrest in P1, P2, P4, P5.
    destruct (Nat.eqb_spec p i) as [Epi|Hpi]; [|destruct (is_pcpu_active p) eqn:Ha].
    + intros [= <-]. eapply taken_inv.
      refine (loop_turn_ok s _ i m0 c l0 m phs p Ph_done _ T Hp E Hb _ _ _ _ _ _ _ _); try done.
      * intros q Hq. split_and!; try done. rewrite runs_app. cbn. rewrite (proj2 (Nat.eqb_neq i q)) by congruence. apply app_nil_r.
      * split_and!; try done. rewrite runs_app, P4, <- Epi. cbn. by rewrite Nat.eqb_refl, app_nil_r.
      * unfold targets. cbn. rewrite Hb0, Epi, Nat.eqb_refl. done.
      * by right.
    + intros [= <-]. eapply taken_inv.
      refine (loop_turn_ok s _ i m0 c l0 m phs p Ph_send _ T Hp E Hb _ _ _ _ _ _ _ _); try done.
      * intros q Hq. split_and!; try done. cbn. by rewrite fn_lookup_insert_ne.
      * unfold phase_ok. cbn. rewrite fn_lookup_insert. by split_and!.
      * unfold targets. cbn. rewrite Hb0, Ha, orb_true_r. done.
      * by left.
    + intros [= <-]. eapply taken_inv.
      refine (loop_turn_ok s _ i m0 c l0 m phs p Ph_out _ T Hp E Hb _ _ _ _ _ _ _ _); try done.
      * unfold targets. cbn. rewrite Ha, (proj2 (Nat.eqb_neq p i)) by done. by rewrite andb_false_r.
      * by right.
  - destruct Hpc as (-> & -> & -> & _). intros [= <-]. eapply taken_inv. by apply send_ok.
  - destruct Hpc as (-> & -> & -> & _). intros [= <-]. eapply taken_inv. by apply read_ok.
  - destruct Hpc as (-> & -> & -> & _). intros [= <-]. eapply taken_inv. by apply write_ok.
  - rewrite (proj2 (Z.eqb_neq _ _)) by done. intros [= <-]. by eapply taken_inv.
Qed.

(** *** Steps of the handlers *)

(** The interrupt handler of [q] goes one phase on. *)
Lemma phase_turn s s' i m0 c l0 m phs q ph : taken s i m0 c l0 m phs →
  phs q ∈ [Ph_ipi; Ph_call; Ph_clear] → ph ∈ [Ph_call; Ph_clear; Ph_done] →
  callers s' = callers s → issued s' = issued s → word 64 (smp_call_mask s') →
  (∀ r, r ≠ q → handlers s' r = handlers s r ∧ ipis s' r = ipis s r ∧ smp_call_info s' r = smp_call_info s r ∧
     runs r s' = runs r s ∧ Z.testbit (smp_call_mask s') (Z.of_nat r) = Z.testbit (smp_call_mask s) (Z.of_nat r)) →
  phase_ok s' c (expected q l0) q ph → taken s' i m0 c l0 m (<[q := ph]> phs).
Proof.
  intros [Hi Hw Hm0 Hm Hph Hr Hs Ht Hpc Ho] Hq Hq' Ec Ei Hw' Hf Hok.
  assert (phs q ≠ Ph_rest ∧ phs q ≠ Ph_send ∧ phs q ≠ Ph_out ∧ needs (phs q) = true) as (N1 & N2 & N3 & N4)
    by (rewrite !elem_of_cons, elem_of_nil in Hq; destruct Hq as [->|[->|[->|[]]]]; done).
  assert (ph ≠ Ph_rest ∧ ph ≠ Ph_send ∧ ph ≠ Ph_out) as (M1 & M2 & M3)
    by (rewrite !elem_of_cons, elem_of_nil in Hq'; destruct Hq' as [->|[->|[->|[]]]]; done).
  assert (Hns : (∀ r, phs r ≠ Ph_send) → ∀ r, <[q := ph]> phs r ≠ Ph_send).
  { intros H r. destruct (decide (r = q)) as [->|]; [by rewrite fn_lookup_insert|by rewrite fn_lookup_insert_ne]. }
  assert (Hnp : ∀ p, needs (phs p) = false → p ≠ q) by (intros p Hp ->; congruence).
  split; rewrite ?Ei; try done.
  - intros r. destruct (decide (r = q)) as [->|Hn]; [by rewrite fn_lookup_insert|]. rewrite fn_lookup_insert_ne by done.
    destruct (Hf r Hn) as (F1 & F2 & F3 & F4 & F5).
    refine (phase_frame s s' c _ r _ F1 F2 F3 F4 _ (Hph r)). by rewrite F5.
  - intros r. rewrite Hr. destruct (decide (r = q)) as [->|]; [by rewrite fn_lookup_insert|by rewrite fn_lookup_insert_ne].
  - intros r. destruct (decide (r = q)) as [->|]; [rewrite fn_lookup_insert|rewrite fn_lookup_insert_ne by done; apply Ht].
    intros _. split; [done|]. intros X%Ht; done.
  - unfold pc_ok in *. rewrite Ec. destruct (callers s i) as [| |k' m' c'|k' m' c' p|k' m' c' p|k' m' c' p old|k']; try done.
    + destruct Hpc as (? & ? & ? & H1). split_and!; try done. by apply Hns.
    + destruct Hpc as (? & ? & ? & Hpc). split_and!; try done. intros r. rewrite <- Hpc.
      destruct (decide (r = q)) as [->|]; [by rewrite fn_lookup_insert|by rewrite fn_lookup_insert_ne].
    + destruct Hpc as (? & ? & ? & H1 & H2 & H3 & H4). pose proof (Hnp p H2) as Hp. rewrite fn_lookup_insert_ne by done.
      destruct (Hf p Hp) as (_ & _ & _ & _ & ->). split_and!; try done. by apply Hns.
    + destruct Hpc as (? & ? & ? & H1 & H2 & H3 & H4 & H5 & H6). pose proof (Hnp p H2) as Hp. rewrite fn_lookup_insert_ne by done.
      destruct (Hf p Hp) as (_ & _ & _ & _ & ->). split_and!; try done; [by apply Hns|]. intros r.
      destruct (decide (r = q)) as [->|]; [|rewrite fn_lookup_insert_ne by done; apply H6]. intros _. by apply H6.
    + destruct Hpc as (? & ? & H1). split_and!; try done. by apply Hns.
  - rewrite Ec. exact Ho.
Qed.

Lemma target_lt s i m0 c l0 m phs q : taken s i m0 c l0 m phs → phs q ≠ Ph_rest → phs q ≠ Ph_out → (q < MAX_PCPU_NUM)%nat.
Proof.
  intros T H1 H2. pose proof (tk_target _ _ _ _ _ _ _ T q H1) as Ht. pose proof (tk_m0 _ _ _ _ _ _ _ T) as Hm.
  destruct (decide (q < MAX_PCPU_NUM)%nat) as [|Hge]; [done|]. destruct H2. apply Ht. unfold targets. cbn.
  by rewrite (word_testbit_high (Z.of_nat MAX_PCPU_NUM)) by (done || lia).
Qed.

Lemma taken_irq_ok s s' i m0 c l0 m phs q : taken s i m0 c l0 m phs → kick_begin q s = Some s' → smp_inv s'.
Proof using Hmax.
  intros T. pose proof (tk_phase _ _ _ _ _ _ _ T q) as (P1 & P2 & P3 & P4 & P5). unfold kick_begin.
  destruct (ipis s q) eqn:Ei; [|done]. destruct (phs q) eqn:Eq; try done. rewrite P1. specialize (P5 eq_refl).
  intros [= <-]. change (smp_call_mask (s⟨ipis := <[q := false]> (ipis s)⟩)) with (smp_call_mask s).
  pose proof (target_lt _ _ _ _ _ _ _ q T ltac:(by rewrite Eq) ltac:(by rewrite Eq)) as Hq.
  assert (X86Bits.bitmap_test (Z.of_nat q) (smp_call_mask s) = true) as ->.
  { change (bitmap_test (Z.of_nat q) (smp_call_mask s) = true).
    rewrite (bs_test (lim := 64)); [done|lia|apply (tk_word _ _ _ _ _ _ _ T)]. }
  eapply taken_inv.
  refine (phase_turn s _ i m0 c l0 m phs q Ph_call T _ _ _ _ _ _ _); try done.
  - rewrite Eq. constructor.
  - constructor.
  - apply (tk_word _ _ _ _ _ _ _ T).
  - intros r Hr. cbn. rewrite !fn_lookup_insert_ne by done. done.
  - unfold phase_ok. cbn. rewrite !fn_lookup_insert. by split_and!.
Qed.

Lemma taken_handler_ok s s' i m0 c l0 m phs q : taken s i m0 c l0 m phs → kick_step q s = Some s' → smp_inv s'.
Proof using Hmax.
  intros T. pose proof (tk_phase _ _ _ _ _ _ _ T q) as (P1 & P2 & P3 & P4 & P5). pose proof (tk_word _ _ _ _ _ _ _ T) as Hw.
  unfold kick_step. rewrite P1. destruct (phs q) eqn:Eq; try done; intros [= <-]; eapply taken_inv.
  - rewrite P3. refine (phase_turn s _ i m0 c l0 m phs q Ph_clear T _ _ _ _ _ _ _); try done.
    + rewrite Eq. do 2 constructor.
    + do 2 constructor.
    + intros r Hr. cbn. rewrite !fn_lookup_insert_ne by done. split_and!; try done.
      unfold runs. cbn. rewrite filter_app, filter_cons, filter_nil, decide_False by (cbn; congruence). apply app_nil_r.
    + unfold phase_ok. cbn. rewrite !fn_lookup_insert. split_and!; try done.
      change (runs q (s⟨ran := ran s ++ [(q, c)]⟩) = expected q l0 ++ [(q, c)]). rewrite runs_app, P4, app_nil_r. cbn.
      by rewrite Nat.eqb_refl.
  - pose proof (target_lt _ _ _ _ _ _ _ q T ltac:(by rewrite Eq) ltac:(by rewrite Eq)) as Hq.
    refine (phase_turn s _ i m0 c l0 m phs q Ph_done T _ _ _ _ _ _ _); try done.
    + rewrite Eq. do 3 constructor.
    + do 3 constructor.
    + change (word 64 (bitmap_clear_lock (Z.of_nat q) (smp_call_mask s))).
      apply (bs_clear_word (lim := 64)); [lia|done].
    + intros r Hr. cbn [handlers ipis smp_call_info smp_call_mask upd]. split_and!; try done.
      * cbn. by rewrite fn_lookup_insert_ne.
      * change (Z.testbit (bitmap_clear_lock (Z.of_nat q) (smp_call_mask s)) (Z.of_nat r) = Z.testbit (smp_call_mask s) (Z.of_nat r)).
        rewrite clear_at by done. rewrite (proj2 (Nat.eqb_neq _ _)) by done. by rewrite andb_true_r.
    + unfold phase_ok. cbn. rewrite !fn_lookup_insert. by split_and!.
Qed.

(** *** Every step *)

(** A CPU that does not have the mask waits. *)
Lemma finished_step s s' j : finished (length (issued s)) (callers s j) → smp_call_mask s ≠ 0 → smp_call_step j s = Some s' →
  s' = s ∨ ∃ pc, s' = at_pc j pc s ∧ finished (length (issued s)) pc.
Proof using Hmax.
  intros Hf Hz. unfold smp_call_step. rewrite (proj2 (Z.eqb_neq _ _)) by done.
  destruct (callers s j) as [|m c|k m c| | | |k]; try done; [by intros [= <-]; left| |by intros [= <-]; left].
  destruct Hf as [Hk ->]. rewrite (proj2 (Nat.ltb_ge _ _)) by apply next_none. intros [= <-]. right. by eexists.
Qed.

Lemma free_step_ok s s' j : free s → smp_call_step j s = Some s' → smp_inv s'.
Proof using Hmax.
  intros F. pose proof (fr_callers _ F j) as Hf. pose proof (fr_mask _ F) as Hz. unfold smp_call_step. rewrite Hz.
  destruct (callers s j) as [|m c|k m c| | | |k]; try done.
  - intros [= <-]. eapply taken_inv. by apply take_ok.
  - destruct Hf as [Hk ->]. rewrite (proj2 (Nat.ltb_ge _ _)) by apply next_none. intros [= <-]. left. by apply free_other.
  - intros [= <-]. left. by apply free_other.
Qed.

Lemma smp_step_ok ev s s' : smp_inv s → ev_ok ev → smp_step ev s = Some s' → smp_inv s'.
Proof using Hmax.
  intros [F|(Hz & i & m0 & c & l0 & m & phs & T)] Hev.
  - destruct ev as [j m c|j|j|j|j]; [| |by cbn; unfold kick_begin; destruct (fr_quiet _ F j) as [_ ->]
      |by cbn; unfold kick_step; destruct (fr_quiet _ F j) as [-> _]|done].
    + cbn. destruct (callers s j); try done. intros [= <-]. left. by apply free_other.
    + by apply free_step_ok.
  - destruct ev as [j m' c'|j|j|j|j]; [| |by eapply taken_irq_ok|by eapply taken_handler_ok|done].
    + cbn. destruct (callers s j) eqn:E; try done. intros [= <-]. eapply taken_inv. apply taken_other; [done| |done].
      intros ->. pose proof (tk_pc _ _ _ _ _ _ _ T) as Hpc. unfold pc_ok in Hpc. by rewrite E in Hpc.
    + cbn. destruct (decide (j = i)) as [->|Hj]; [by eapply owner_step_ok|]. intros E.
      destruct (finished_step s s' j (tk_others _ _ _ _ _ _ _ T j Hj) Hz E) as [->|(pc & -> & Hpc)];
        eapply taken_inv; [done|by apply taken_other].
Qed.

Lemma smp_run_ok l s s' : smp_inv s → Forall ev_ok l → smp_run l s = Some s' → smp_inv s'.
Proof using Hmax.
  revert s. induction l as [|ev l IH]; intros s Hs Hl; [by intros [= <-]|]. apply Forall_cons in Hl as [Hev Hl]. cbn.
  destruct (smp_step ev s) as [s1|] eqn:E; [|done]. apply IH; [|done]. by apply (smp_step_ok ev s).
Qed.

Lemma init_smp_inv : smp_inv init_smp.
Proof. left. by split. Qed.

(** *** Whose call a CPU is in *)

Definition call_number (pc : caller) : option nat :=
  match pc with
  | C_idle | C_try _ _ => None
  | C_loop k _ _ | C_send k _ _ _ | C_read k _ _ _ | C_write k _ _ _ _ | C_wait k => Some k
  end.

Definition owned (s : smp) : Prop :=
  ∀ i k, call_number (callers s i) = Some k → ∃ m c, issued s !! k = Some (i, m, c).

Lemma owned_at s s' i pc : owned s → callers s' = <[i := pc]> (callers s) → issued s `prefix_of` issued s' →
  (∀ k, call_number pc = Some k → ∃ m c, issued s' !! k = Some (i, m, c)) → owned s'.
Proof.
  intros Hs Hc Hp Hpc j k. rewrite Hc. destruct (decide (j = i)) as [->|]; [rewrite fn_lookup_insert; apply Hpc|].
  rewrite fn_lookup_insert_ne by done. intros (m & c & E)%Hs. exists m, c. by eapply prefix_lookup_Some.
Qed.

Lemma owned_same s s' : owned s → callers s' = callers s → issued s' = issued s → owned s'.
Proof. intros Hs E1 E2 i k. rewrite E1, E2. apply Hs. Qed.

Lemma call_step_owned s s' i : owned s → smp_call_step i s = Some s' → owned s'.
Proof.
  intros Hs. pose proof (Hs i) as Hi. unfold smp_call_step.
  destruct (callers s i) as [|m c|k m c|k m c p|k m c p|k m c p old|k]; try done; [case_match|case_match; [case_match; [|case_match]|]| | | |case_match];
    intros [= <-]; try done; (eapply owned_at; [exact Hs|done|done || by eexists|]); cbn; intros ? [= <-];
    try by apply Hi.
  exists m, c. by apply list_lookup_middle.
Qed.

Lemma step_owned ev s s' : owned s → smp_step ev s = Some s' → owned s'.
Proof.
  intros Hs. destruct ev as [i m c|i|i|i|i]; cbn.
  - destruct (callers s i); try done. intros [= <-]. by eapply owned_at.
  - by apply call_step_owned.
  - unfold kick_begin. destruct (ipis s i), (handlers s i); try done. intros [= <-]. case_match; by eapply owned_same.
  - unfold kick_step. destruct (handlers s i); [done| |]; intros [= <-]; [case_match|]; by eapply owned_same.
  - intros [= <-]. by eapply owned_same.
Qed.

Lemma run_owned l s s' : owned s → smp_run l s = Some s' → owned s'.
Proof.
  revert s. induction l as [|ev l IH]; intros s Hs; [by intros [= <-]|]. cbn. destruct (smp_step ev s) as [s1|] eqn:E; [|done].
  apply IH. by eapply step_owned.
Qed.

(** *** What an interleaving runs *)

(** C15: in every interleaving of calls of smp_call_function, of the steps inside them (the clear
    that is not atomic in two) and of the handlers of their notifications, from an empty mask and
    with no notifications from elsewhere: each CPU has run, in order and each once, a prefix of the
    functions that the calls which took the mask have for it (the CPU is in the mask of the call,
    and is its caller or active); and when the wait of a call ends, that call is among them and
    every CPU has run exactly the functions of all of them. *)
Theorem smp_call_exact l s : Forall ev_ok l → smp_run l init_smp = Some s →
  (∀ q, runs q s `prefix_of` expected q (issued s)) ∧
  ∀ i k, callers s i = C_wait k → smp_call_step i s = Some (at_pc i C_idle s) →
    (∃ m c, issued s !! k = Some (i, m, c)) ∧ ∀ q, runs q s = expected q (issued s).
Proof using Hmax.
  intros Hl Hrun. pose proof (smp_run_ok _ _ _ init_smp_inv Hl Hrun) as Hs. split.
  - intros q. destruct Hs as [F|(_ & i & m0 & c & l0 & m & phs & T)]; [by rewrite (fr_runs _ F)|].
    rewrite (tk_issued _ _ _ _ _ _ _ T), expected_app, expected_one.
    destruct (tk_phase _ _ _ _ _ _ _ T q) as (_ & _ & _ & -> & _). pose proof (tk_target _ _ _ _ _ _ _ T q) as Ht.
    destruct (phs q); try (rewrite app_nil_r; by eexists);
      destruct (targets q (i, m0, c)) eqn:E; (done || by pose proof (proj2 (Ht ltac:(done)) eq_refl)).
  - intros i k Hk Hstep. unfold smp_call_step in Hstep. rewrite Hk in Hstep.
    destruct (Z.eqb_spec (smp_call_mask s) 0) as [Hz|].
    2: { injection Hstep as Hstep. apply (f_equal (λ s, callers s i)) in Hstep. cbn in Hstep. by rewrite fn_lookup_insert, Hk in Hstep. }
    split.
    + apply (run_owned l init_smp s); [done|done|by rewrite Hk].
    + intros q. destruct Hs as [F|[? _]]; [by apply (fr_runs _ F)|done].
Qed.

(** *** A mask that nobody empties *)

(** Bits are left in the mask, and no notification or handler is on its way. *)
Definition stuck (s : smp) : Prop :=
  smp_call_mask s ≠ 0 ∧ (∀ q, handlers s q = H_idle ∧ ipis s q = false) ∧ ∀ j, finished (length (issued s)) (callers s j).

Lemma stuck_step ev s s' i k : stuck s → callers s i = C_wait k → ev_ok ev → smp_step ev s = Some s' →
  stuck s' ∧ callers s' i = C_wait k ∧ smp_call_mask s' = smp_call_mask s.
Proof using Hmax.
  intros (Hz & Hq & Hf) Hi Hev.
  assert (Hat : ∀ j pc, j ≠ i → finished (length (issued s)) pc → let s' := at_pc j pc s in
    stuck s' ∧ callers s' i = C_wait k ∧ smp_call_mask s' = smp_call_mask s).
  { intros j pc Hj Hpc. split_and!; try done; [|cbn; by rewrite fn_lookup_insert_ne]. split_and!; try done. intros j'. cbn.
    destruct (decide (j' = j)) as [->|]; [by rewrite fn_lookup_insert|rewrite fn_lookup_insert_ne by done; apply Hf]. }
  destruct ev as [j m c|j|j|j|j]; cbn.
  - destruct (callers s j) eqn:E; try done. intros [= <-]. apply Hat; [congruence|done].
  - intros E. destruct (decide (j = i)) as [->|Hj].
    + unfold smp_call_step in E. rewrite Hi, (proj2 (Z.eqb_neq _ _)) in E by done. by injection E as <-.
    + destruct (finished_step s s' j (Hf j) Hz E) as [->|(pc & -> & Hpc)]; [done|]. by apply Hat.
  - unfold kick_begin. by destruct (Hq j) as [_ ->].
  - unfold kick_step. by destruct (Hq j) as [-> _].
  - done.
Qed.

Lemma stuck_run l s s' i k : stuck s → callers s i = C_wait k → Forall ev_ok l → smp_run l s = Some s' →
  callers s' i = C_wait k ∧ smp_call_mask s' = smp_call_mask s.
Proof using Hmax.
  revert s. induction l as [|ev l IH]; intros s Hs Hi Hl; [by intros [= <-]|]. apply Forall_cons in Hl as [Hev Hl]. cbn.
  destruct (smp_step ev s) as [s1|] eqn:E; [|done]. destruct (stuck_step ev s s1 i k Hs Hi Hev E) as (H1 & H2 & <-).
  by apply IH.
Qed.

End smp.

(** ** Runs of four CPUs *)

Definition all_active (_ : nat) : bool := true.

(** CPU 0 calls [c] on CPU 1, which runs it. *)
Definition one_call (c : call) : list event :=
  [E_call 0 2 c; E_step 0; E_step 0; E_step 0; E_irq 1; E_handler 1; E_step 0; E_handler 1].

(** CPUs 0 and 1 call at the same time, and CPU 1 also itself; CPU 0 has to wait for the mask. *)
Definition two_calls : list event :=
  [E_call 1 3 (10, 0); E_call 0 6 (20, 0); E_step 1; E_step 0; E_step 1; E_step 1; E_step 1; E_step 1; E_step 1;
   E_irq 0; E_handler 0; E_handler 0; E_step 0; E_step 1; E_step 0; E_step 0; E_irq 1; E_handler 1; E_step 0; E_step 0;
   E_handler 1; E_irq 2; E_handler 2; E_handler 2; E_step 0].

Lemma smp_call_exact_witness : ∃ s, smp_run 4 all_active two_calls init_smp = Some s ∧
  (∀ q, runs q s `prefix_of` expected all_active q (issued s)) ∧
  callers s 0%nat = C_wait 1 ∧ ∀ q, runs q s = expected all_active q (issued s).
Proof.
  destruct (smp_run 4 all_active two_calls init_smp) as [s|] eqn:E; [|by apply (f_equal (λ o, bool_decide (is_Some o))) in E; vm_compute in E].
  exists s. split; [done|].
  assert (Hl : Forall (ev_ok 4) two_calls) by (repeat constructor; cbn; lia).
  assert (E0 : (λ s, (callers s 0%nat, smp_call_mask s)) <$> smp_run 4 all_active two_calls init_smp = Some (C_wait 1, 0))
    by (vm_compute; reflexivity).
  rewrite E in E0. injection E0 as E0 Em.
  destruct (smp_call_exact 4 all_active ltac:(lia) two_calls s Hl E) as [H1 H2]. split_and!; [done|done|].
  apply (H2 0%nat 1%nat E0). unfold smp_call_step. by rewrite E0, Em.
Defined.

(** A notification from elsewhere after a call took the mask: the handler finds the bit, runs the
    function of the call before, and clears the bit; the call returns, and its function never runs. *)
Example kick_between_calls :
  let again := [E_step 0; E_call 0 2 (20, 0); E_step 0; E_kick 1; E_irq 1; E_handler 1; E_handler 1; E_step 0; E_step 0;
                E_step 0; E_step 0; E_irq 1] in
  (λ s, (ran s, issued s, callers s 0%nat, ipis s 1%nat)) <$> smp_run 4 all_active (one_call (10, 0) ++ again) init_smp =
  Some ([(1%nat, (10, 0)); (1%nat, (10, 0))], [(0%nat, 2, (10, 0)); (0%nat, 2, (20, 0))], C_idle, false).
Proof. vm_compute. reflexivity. Qed.

(** CPU 1 calls CPU 0 and itself; CPU 0 clears its bit between the read and the write of the clear
    that is not atomic. *)
Definition lost_clear : list event :=
  [E_call 1 3 (10, 0); E_step 1; E_step 1; E_step 1; E_step 1; E_step 1; E_irq 0; E_handler 0; E_handler 0; E_step 1; E_step 1].

(** The write brings the bit of CPU 0 back, and the wait of CPU 1 never ends, although both have
    run the function. *)
Theorem lost_clear_stuck l s : Forall (ev_ok 4) l → smp_run 4 all_active (lost_clear ++ l) init_smp = Some s →
  callers s 1%nat = C_wait 0 ∧ smp_call_mask s = 1.
Proof.
  intros Hl. rewrite smp_run_app. destruct (smp_run 4 all_active lost_clear init_smp) as [s1|] eqn:E; [|done].
  assert (H1 : (λ s, (smp_call_mask s, callers s 1%nat, length (issued s))) <$> smp_run 4 all_active lost_clear init_smp =
    Some (1, C_wait 0, 1%nat)) by (vm_compute; reflexivity).
  assert (H2 : ∀ q, (λ s, (handlers s q, ipis s q, callers s q)) <$> smp_run 4 all_active lost_clear init_smp =
    Some (H_idle, false, if decide (q = 1%nat) then C_wait 0 else C_idle))
    by (intros [|[|q]]; vm_compute; reflexivity).
  rewrite E in H1, H2. injection H1 as Em Ec En. cbn. intros Hrun. rewrite <- Em.
  refine (stuck_run 4 all_active ltac:(lia) l s1 s 1 0 _ Ec Hl Hrun). split_and!.
  - by rewrite Em.
  - intros q. specialize (H2 q). by injection H2 as -> -> _.
  - intros q. specialize (H2 q). injection H2 as _ _ ->. rewrite En. case_decide; [cbn; lia|done].
Qed.

Lemma lost_clear_stuck_witness : callers <$> smp_run 4 all_active (lost_clear ++ [E_step 1]) init_smp ≠ None ∧
  ∀ s, smp_run 4 all_active (lost_clear ++ [E_step 1]) init_smp = Some s → callers s 1%nat = C_wait 0 ∧ smp_call_mask s = 1.
Proof.
  split; [by vm_compute|]. intros s Hs. apply (lost_clear_stuck [E_step 1] s); [|exact Hs]. by repeat constructor.
Defined.

End X86Notify.

(** ** The RISC-V port *)

Module RvNotify.
Import RvBits.

Definition CONFIG_NR_CPUS : nat := 4.
Definition NR_CPUS : Z := Z.of_nat CONFIG_NR_CPUS.
Definition NOTIFY_VCPU_SWI : Z := 0.
Definition CLINT_SWI_REG : Z := 0x02000000.

Record swi_vector := mk_swi { type : Z; param : Z }.

(** The mask, the CPUs' calls and vectors, the registers of the CLINT that were written, and the
    functions that have run. *)
Record notify := mk_notify {
  smp_call_mask : Z;
  smp_call_info : nat → option call;
  swi : nat → swi_vector;
  swi_writes : list Z;
  ran : list (nat * call) }.

#[export] Instance eta_swi : Eta swi_vector := { eta := rd mk_swi <*> type <*> param }.
#[export] Instance eta_notify : Eta notify :=
  { eta := rd mk_notify <*> smp_call_mask <*> smp_call_info <*> swi <*> swi_writes <*> ran }.

Definition init_clint (pcpu_id : nat) (st : notify) : notify :=
  st⟨swi := <[pcpu_id := mk_swi 0 0]> (swi st)⟩.

Definition send_single_swi (pcpu_id : Z) (vector : Z) (st : notify) : notify :=
  let i := Z.to_nat pcpu_id in
  st⟨swi := <[i := (swi st i)⟨type := type (swi st i) ||| vector⟩]> (swi st)⟩
    ⟨swi_writes := swi_writes st ++ [CLINT_SWI_REG + pcpu_id * 4]⟩.

(** The loop of send_dest_ipi_mask: [None] when [n] turns are not enough. *)
Fixpoint send_loop (n : nat) (pcpu_id mask vector : Z) (st : notify) : option notify :=
  match n with
  | O => None
  | S n' =>
      if pcpu_id <? NR_CPUS then
        let mask := clear_bit pcpu_id mask in
        send_loop n' (u16 (ffs64 mask)) mask vector (send_single_swi pcpu_id vector st)
      else Some st
  end.

Definition send_dest_ipi_mask (dest_mask vector : Z) (st : notify) : option notify :=
  let pcpu_id := u16 (ffs64 dest_mask) in
  if nonzero pcpu_id then Some st else send_loop (S CONFIG_NR_CPUS) (u16 (pcpu_id - 1)) dest_mask vector st.

Definition kick_notification (pcpu_id : nat) (st : notify) : notify :=
  if test_bit (Z.of_nat pcpu_id) (smp_call_mask st) then
    let st := match smp_call_info st pcpu_id with Some c => st⟨ran := ran st ++ [(pcpu_id, c)]⟩ | None => st end in
    st⟨smp_call_mask := clear_bit (Z.of_nat pcpu_id) (smp_call_mask st)⟩
  else st.

Section online.
Context (cpu_online_map : Z).

Definition cpu_online (cpu : nat) : bool := test_bit (Z.of_nat cpu) cpu_online_map.

(** The loop over the CPUs from [pcpu_id], [n] of them; the local mask that it clears has no use. *)
Fixpoint set_calls (n pcpu_id : nat) (c : call) (st : notify) : notify :=
  match n with
  | O => st
  | S n' =>
      set_calls n' (S pcpu_id) c
        (if cpu_online pcpu_id then st⟨smp_call_info := <[pcpu_id := Some c]> (smp_call_info st)⟩
         else st⟨smp_call_mask := clear_bit (Z.of_nat pcpu_id) (smp_call_mask st)⟩)
  end.

(** With smpcall_lock held: [None] when the wait for the previous call does not end. *)
Definition smp_call_function (mask : Z) (c : call) (st : notify) : option notify :=
  if nonzero (smp_call_mask st) then None
  else
    let st := set_calls CONFIG_NR_CPUS 0 c st⟨smp_call_mask := smp_call_mask st ||| mask⟩ in
    send_dest_ipi_mask (smp_call_mask st) NOTIFY_VCPU_SWI st.

(** *** What a call leaves to do *)

(** The test of ffs64 returns for every mask without bit 0, and with it the decrement wraps. *)
Lemma send_dest_ipi_none mask vector st : word 64 mask → send_dest_ipi_mask mask vector st = Some st.
Proof.
  intros Hw. unfold send_dest_ipi_mask, nonzero. destruct (Z.eqb_spec (u16 (ffs64 mask)) 0) as [E|]; [|done].
  rewrite E. reflexivity.
Qed.

Lemma rv_clear_at p q w : (p < CONFIG_NR_CPUS)%nat → word 64 w →
  Z.testbit (clear_bit (Z.of_nat p) w) (Z.of_nat q) = Z.testbit w (Z.of_nat q) && negb (q =? p)%nat.
Proof.
  intros Hp Hw. unfold CONFIG_NR_CPUS in *.
  pose proof (bs_clear (BitmapSpec := riscv_bitmap_spec) (Z.of_nat p) w (Z.of_nat q) ltac:(lia) Hw ltac:(lia)) as E.
  cbn in E. unfold bitmap_clear_lock in E. fold (clear_bit (Z.of_nat p) w) in E. rewrite E. f_equal. f_equal.
  destruct (Nat.eqb_spec q p) as [->|]; [by rewrite bool_decide_true|]. rewrite bool_decide_false; [done|lia].
Qed.

Lemma rv_test_at p w : (p < CONFIG_NR_CPUS)%nat → word 64 w → test_bit (Z.of_nat p) w = Z.testbit w (Z.of_nat p).
Proof.
  intros Hp Hw. unfold CONFIG_NR_CPUS in *.
  exact (bs_test (BitmapSpec := riscv_bitmap_spec) (Z.of_nat p) w ltac:(lia) Hw).
Qed.

Lemma rv_clear_word p w : word 64 (clear_bit p w).
Proof. apply word_u64. Qed.

Lemma set_calls_spec n p c st : (p + n = CONFIG_NR_CPUS)%nat → word 64 (smp_call_mask st) → let st' := set_calls n p c st in
  word 64 (smp_call_mask st') ∧ swi st' = swi st ∧ swi_writes st' = swi_writes st ∧ ran st' = ran st ∧
  (∀ q, (p ≤ q < CONFIG_NR_CPUS)%nat → cpu_online q = true → smp_call_info st' q = Some c) ∧
  (∀ q, (q < p)%nat → smp_call_info st' q = smp_call_info st q) ∧
  ∀ q, Z.testbit (smp_call_mask st') (Z.of_nat q) =
    Z.testbit (smp_call_mask st) (Z.of_nat q) && ((q <? p)%nat || (CONFIG_NR_CPUS <=? q)%nat || cpu_online q).
Proof.
  revert p st. induction n as [|n IH]; intros p st Hn Hw; cbn [set_calls].
  - split_and!; try done; [lia|]. intros q. destruct (Nat.ltb_spec q p), (Nat.leb_spec CONFIG_NR_CPUS q);
      rewrite ?andb_true_r; (done || lia).
  - set (st1 := if cpu_online p then _ else _).
    assert (Hw1 : word 64 (smp_call_mask st1)) by (subst st1; destruct (cpu_online p); [done|apply rv_clear_word]).
    assert (Hm1 : ∀ q, Z.testbit (smp_call_mask st1) (Z.of_nat q) =
      Z.testbit (smp_call_mask st) (Z.of_nat q) && (negb (q =? p)%nat || cpu_online p)).
    { intros q. subst st1. destruct (cpu_online p); [by rewrite orb_true_r, andb_true_r|]. rewrite orb_false_r.
      apply (rv_clear_at p q (smp_call_mask st)); [lia|done]. }
    destruct (IH (S p) st1 ltac:(lia) Hw1) as (H1 & H2 & H3 & H4 & H5 & H6 & H7). rewrite H2, H3, H4.
    split_and!; try done; try by (subst st1; destruct (cpu_online p)).
    + intros q Hq Hon. destruct (decide (q = p)) as [->|]; [|apply H5; [lia|done]]. rewrite H6 by lia. subst st1.
      rewrite Hon. cbn. by rewrite fn_lookup_insert.
    + intros q Hq. rewrite H6 by lia. subst st1. destruct (cpu_online p); [|done]. cbn. rewrite fn_lookup_insert_ne by lia. done.
    + intros q. rewrite H7, Hm1, <- andb_assoc. f_equal.
      destruct (Nat.eqb_spec q p) as [E|E]; destruct (Nat.ltb_spec q (S p)), (Nat.ltb_spec q p); try lia; try done.
      subst q. rewrite (proj2 (Nat.leb_gt _ _)) by lia. by rewrite andb_true_r.
Qed.

Lemma filter_ext_in {A} (P Q : A → Prop) `{∀ x, Decision (P x)} `{∀ x, Decision (Q x)} (l : list A) :
  (∀ x, x ∈ l → P x ↔ Q x) → filter P l = filter Q l.
Proof.
  induction l as [|x l IH]; intros Hx; [done|]. rewrite !filter_cons, IH by set_solver.
  by rewrite (decide_ext (P x) (Q x)) by (apply Hx; set_solver).
Qed.

Lemma kicks_spec c l st : NoDup l → Forall (λ q, (q < CONFIG_NR_CPUS)%nat) l → word 64 (smp_call_mask st) →
  (∀ q, q ∈ l → Z.testbit (smp_call_mask st) (Z.of_nat q) = true → smp_call_info st q = Some c) →
  let st' := foldl (λ st q, kick_notification q st) st l in
  word 64 (smp_call_mask st') ∧
  (∀ q, Z.testbit (smp_call_mask st') (Z.of_nat q) = Z.testbit (smp_call_mask st) (Z.of_nat q) && bool_decide (q ∉ l)) ∧
  ran st' = ran st ++ ((λ q, (q, c)) <$> filter (λ q, Z.testbit (smp_call_mask st) (Z.of_nat q) = true) l).
Proof.
  revert st. induction l as [|p l IH]; intros st Hnd Hl Hw Hc; cbn [foldl].
  - split_and!; [done| |by rewrite app_nil_r]. intros q. rewrite bool_decide_true by set_solver. by rewrite andb_true_r.
  - apply NoDup_cons in Hnd as [Hp Hnd]. apply Forall_cons in Hl as [Hlt Hl]. set (st1 := kick_notification p st).
    assert (Hk : smp_call_mask st1 = (if Z.testbit (smp_call_mask st) (Z.of_nat p)
        then clear_bit (Z.of_nat p) (smp_call_mask st) else smp_call_mask st) ∧
      smp_call_info st1 = smp_call_info st ∧
      ran st1 = ran st ++ if Z.testbit (smp_call_mask st) (Z.of_nat p) then [(p, c)] else []).
    { subst st1. unfold kick_notification. rewrite rv_test_at by done. specialize (Hc p ltac:(set_solver)).
      destruct (Z.testbit (smp_call_mask st) (Z.of_nat p)); [|by rewrite app_nil_r]. by rewrite (Hc eq_refl). }
    destruct Hk as (Hm & Hi & Hr). clearbody st1.
    assert (Hm1 : ∀ q, Z.testbit (smp_call_mask st1) (Z.of_nat q) = Z.testbit (smp_call_mask st) (Z.of_nat q) && negb (q =? p)%nat).
    { intros q. rewrite Hm. destruct (Z.testbit (smp_call_mask st) (Z.of_nat p)) eqn:E; [by apply rv_clear_at|].
      destruct (Nat.eqb_spec q p) as [->|]; [by rewrite E|by rewrite andb_true_r]. }
    assert (Hw1 : word 64 (smp_call_mask st1)) by (rewrite Hm; case_match; [apply rv_clear_word|done]).
    destruct (IH st1 Hnd Hl Hw1) as (H1 & H2 & H3).
    { intros q Hq. rewrite Hm1, Hi. intros [Hb _]%andb_true_iff. apply Hc; [set_solver|done]. }
    split_and!; [done| |].
    + intros q. rewrite H2, Hm1, <- andb_assoc. f_equal. destruct (Nat.eqb_spec q p) as [->|Hq]; cbn.
      * rewrite bool_decide_false; [done|set_solver].
      * apply bool_decide_ext. set_solver.
    + rewrite H3, Hr, <- app_assoc, filter_cons. f_equal.
      rewrite (filter_ext_in _ (λ q, Z.testbit (smp_call_mask st) (Z.of_nat q) = true) l).
      * by destruct (Z.testbit (smp_call_mask st) (Z.of_nat p)).
      * intros q Hq. rewrite Hm1. destruct (Nat.eqb_spec q p) as [->|]; [done|]. by rewrite andb_true_r.
Qed.

(** smp_call_function returns when the mask was empty, gives the call to every CPU that is online
    and takes the others out of the mask, but writes no register of the CLINT: send_dest_ipi_mask
    sends nothing.  While a CPU of the mask is online, the next call waits.  Once kick_notification
    has run on the CPUs, those of the mask that are online have each run the function once, and the
    mask is empty. *)
Theorem rv_smp_call_needs_kicks mask c st : 0 ≤ mask < 2 ^ NR_CPUS → smp_call_mask st = 0 →
  ∃ st', smp_call_function mask c st = Some st' ∧ swi st' = swi st ∧ swi_writes st' = swi_writes st ∧ ran st' = ran st ∧
    (∀ q mask' c', Z.testbit mask (Z.of_nat q) = true → cpu_online q = true → smp_call_function mask' c' st' = None) ∧
    let st2 := foldl (λ st q, kick_notification q st) st' (seq 0 CONFIG_NR_CPUS) in
    smp_call_mask st2 = 0 ∧
    ran st2 = ran st ++ ((λ q, (q, c)) <$> filter (λ q, Z.testbit mask (Z.of_nat q) && cpu_online q = true) (seq 0 CONFIG_NR_CPUS)).
Proof.
  intros Hm Hz. assert (Hw : word 64 mask) by (change (2 ^ NR_CPUS) with 16 in Hm; unfold word; lia).
  unfold smp_call_function at 1. rewrite Hz. cbn [nonzero]. change (nonzero 0) with false. cbn iota. rewrite Z.lor_0_l.
  destruct (set_calls_spec CONFIG_NR_CPUS 0 c (st⟨smp_call_mask := mask⟩)) as (H1 & H2 & H3 & H4 & H5 & _ & H7);
    [done|exact Hw|].
  set (st' := set_calls _ _ _ _) in *. clearbody st'. exists st'. rewrite send_dest_ipi_none by done.
  change (smp_call_mask (st⟨smp_call_mask := mask⟩)) with mask in H7.
  assert (Hhigh : ∀ q, (CONFIG_NR_CPUS ≤ q)%nat → Z.testbit mask (Z.of_nat q) = false).
  { intros q Hq. apply (word_testbit_high NR_CPUS); unfold NR_CPUS; (done || lia). }
  assert (Hb : ∀ q, Z.testbit (smp_call_mask st') (Z.of_nat q) = Z.testbit mask (Z.of_nat q) && cpu_online q).
  { intros q. rewrite H7. destruct (Nat.leb_spec CONFIG_NR_CPUS q); [by rewrite Hhigh|done]. }
  destruct (kicks_spec c (seq 0 CONFIG_NR_CPUS) st') as (K1 & K2 & K3); [apply NoDup_seq| |done| |].
  { apply Forall_forall. intros q Hq%elem_of_seq. lia. }
  { intros q Hq%elem_of_seq. rewrite Hb. intros [_ Hon]%andb_true_iff. apply H5; [lia|done]. }
  split_and!; try done.
  - intros q mask' c' Hq Hon. unfold smp_call_function. specialize (Hb q). rewrite Hq, Hon in Hb.
    assert (smp_call_mask st' ≠ 0) by (intros E; by rewrite E, Z.testbit_0_l in Hb). unfold nonzero. by rewrite (proj2 (Z.eqb_neq _ _)).
  - apply Z.bits_inj'. intros b Hb0. rewrite Z.testbit_0_l, <- (Z2Nat.id b), K2, Hb by done.
    destruct (decide (CONFIG_NR_CPUS ≤ Z.to_nat b)%nat); [by rewrite Hhigh|].
    rewrite bool_decide_false by (rewrite elem_of_seq; lia). by rewrite andb_false_r.
  - rewrite K3, H4. f_equal. f_equal. apply list_filter_iff. intros q. by rewrite Hb.
Qed.

End online.

(** CPUs 0 to 2 are online; the call is for 1, 2 and 3. *)
Definition quiet : notify := mk_notify 0 (λ _, None) (λ _, mk_swi 0 0) [] [].

Lemma rv_smp_call_needs_kicks_witness : ∃ st', smp_call_function 7 14 (10, 0) quiet = Some st' ∧ swi_writes st' = [] ∧
  smp_call_function 7 2 (20, 0) st' = None ∧
  ran (foldl (λ st q, kick_notification q st) st' (seq 0 CONFIG_NR_CPUS)) = [(1%nat, (10, 0)); (2%nat, (10, 0))].
Proof.
  destruct (rv_smp_call_needs_kicks 7 14 (10, 0) quiet) as (st' & H1 & _ & H2 & _ & H3 & _ & H4);
    [split; [lia|by vm_compute]|done|].
  exists st'. split_and!; [done|done| |exact H4]. by apply (H3 1%nat).
Defined.

End RvNotify.
